(* ===== verification/_CoqProject ===== *)
-Q . S2P
Prelude.v
Array.v
Queue.v
Bitmap.v
LinkedList.v
Table.v
Memory.v
Copyinout.v
Uio.v
Pages.v
Coremap.v
Kheap.v
KheapSpec.v
Thread.v
Synch.v
ThreadSpec.v
SynchSpec.v
SynchRuns.v
CString.v
Printf.v
Request.v
Disk.v
SfsFormat.v
Vnode.v
Sfs.v
SfsVnode.v
SfsSpec.v
SfsIoSpec.v
SfsTruncateSpec.v
SfsDirSpec.v
Vm.v
VmSpec.v
VmRuns.v
Files.v
FilesSpec.v
FilesSim.v
FilesRuns.v
Vfs.v
Device.v
VfsSpec.v
VfsSim.v
DeviceSpec.v
VfsRuns.v
Process.v
ProcessSpec.v
ProcessEnv.v
ProcessSim.v
ProcessRuns.v
CatMouse.v
Exec.v
ExecSpec.v
ExecRuns.v
