(* ===== verification/Prelude.v ===== *)
(** * The OS/161 kernel of CS 350, verified in Rocq

    This library models the kernel under src/kern, with the parts of the C
    library under src/lib/libc that it is linked with, as definitions that
    compute, and proves what its parts promise to each other.  The configuration
    is the one of assignment 3: threads and synchronization, processes with
    file descriptors, paging with a coremap and a swap file, and SFS.

    ** The parts of the kernel and their files

    Code of the kernel runs in the monad [K S A] of this file: it takes a state
    [S] and answers of the allocator (an [oracle], a list of booleans that says
    which of the next calls of [kmalloc] fail, all later ones succeeding), and
    it is [Done] or stops ([Halt]) with a panic, a fault (a bad pointer, index
    or argument), an endless loop or an exit.  Nothing is assumed about
    initialised memory, null pointers or overflow: a cell that was never
    written, [NULL] and an index out of range are faults, machine integers are
    [Z] with their wrap-around written out, and a loop that is not structural
    has fuel, running out of which is the result [Spin] and never a result that
    a theorem accepts.  [wp m Q s o] says that [m] returns, and with [Q]: every
    specification is one of total correctness.  Objects that the code shares
    live in maps from addresses ([gmap]).

    Containers (src/kern/lib): Array.v (array.c), Queue.v (queue.c), Bitmap.v
    (bitmap.c), LinkedList.v (linkedlist.c) and Table.v (table.c).  Each record
    is the C structure and each definition the function of its name.

    Memory: Memory.v (memcpy.c, memmove.c, bzero.c, and the memory of the
    machine with its user half), Copyinout.v (copyinout.c), Uio.v (uio.c),
    Pages.v (the interface of the page allocator), Coremap.v (coremap.c, ram.c
    and [alloc_kpages] of vm_tlb.c, an instance of it), Kheap.v (kheap.c) with
    KheapSpec.v, and Vm.v (addrspace.c, pt.c, swapfile.c, vm_tlb.c) with
    VmSpec.v and VmRuns.v.

    Threads: Thread.v (thread.c, scheduler.c, hardclock.c, interrupt.c and the
    processor part of pcb.c, spl.c and trap.c) and Synch.v (synch.c), with
    ThreadSpec.v, SynchSpec.v and SynchRuns.v.  Code that can lose the processor
    is written in a second monad whose values are the saved continuations of
    threads, and [world]s of many threads step by a relation that may interrupt
    them anywhere interrupts are on.

    Text: CString.v (the string functions and atoi.c) and Printf.v (__printf.c,
    snprintf.c).

    Files: Request.v (a uio as a file system sees it), Disk.v (lhd.c),
    SfsFormat.v (kern/sfs.h), Vnode.v (vnode.c and the locks of one thread),
    Sfs.v and SfsVnode.v (src/kern/fs/sfs), with SfsSpec.v, SfsIoSpec.v,
    SfsTruncateSpec.v and SfsDirSpec.v; Vfs.v (vfslist.c, vfslookup.c, vfscwd.c,
    vfspath.c of src/kern/fs/vfs) and Device.v (device.c, devnull.c), with
    VfsSpec.v, VfsSim.v, DeviceSpec.v and VfsRuns.v; Files.v (file.c,
    filetable.c of src/kern/filedes and sysopen.c, sysclose.c, sysread.c,
    syswrite.c of src/kern/userprog), with FilesSpec.v, FilesSim.v and
    FilesRuns.v.

    Processes: Process.v (process.c, processtable.c of src/kern/process and
    sysfork.c, sysexit.c, syswaitpid.c, sysgetpid.c of src/kern/userprog), with
    ProcessSpec.v and ProcessSim.v, for any file tables, page tables, threads
    and user memory behind a class; ProcessEnv.v is the instance with the file
    tables of Files.v, the page tables of Vm.v and the copyin of Copyinout.v,
    and ProcessRuns.v has runs of it.  A call is cut where it leaves the
    processor or gives up a lock that another thread waits for: waitpid in its
    sleep, exit after it has released the lock of the process.

    Programs: Exec.v (loadelf.c, runprogram.c and sysexecv.c of
    src/kern/userprog), with ExecSpec.v and ExecRuns.v, on the address spaces of
    Vm.v.  CatMouse.v is the simulation of cats and mice of src/kern/asst1,
    whose threads are cut at the sections they run with the lock.

    The parts meet at type classes: what one calls of another is a class of
    operations, and what it relies on a class of laws.  [PageAllocator] is
    between the heap and the coremap, [ThreadEnv] between the threads and what
    they run, [LhdHw] and [LhdLaws] describe the disk (hardware, and so a
    parameter), [VfsIo] and [VfsLaws] are the files of the pager, [VnodeOps] and
    [VnodeLaws] the vnodes and file systems of the path names, [VfsFiles] and
    [FilesLaws] the file system under the descriptors, [ProcEnv] and [ProcLaws]
    what a process is made of.  An instance is proved for each: the coremap for
    the first, device.c for the vnodes, file tables and page tables for the
    processes, and small systems in memory for the others.

    ** What the theorems show

    Containers.  Forward simulations: arrays, linked lists, queues and tables
    do what a list, a deque, a first-in first-out list and a finite map do,
    through growth, wrap-around, reuse and failing allocations; bit maps give
    out the lowest free bit.

    Memory.  copyin and copyout check every range before they touch memory and
    return errors instead of faulting; uiomove moves and accounts for the same
    bytes; memmove is right for every overlap.  The coremap is a set of disjoint
    blocks, searched first fit; kmalloc returns blocks that overlap no other
    block in use and kfree takes exactly the block it is given, for every page
    allocator that keeps its laws.  A page fault in a segment of a process ends
    with a TLB entry for a frame that has the right bytes.

    Synchronization.  In every world that can be reached, by any interleaving
    and any interrupts, from threads that use locks, semaphores and condition
    variables with discipline, no assertion fails, at most one thread is in the
    critical section of a lock, and no thread sleeps on a semaphore that is not
    zero.

    Files.  SFS files are arrays of bytes and SFS directories finite maps from
    names to inodes: reading, writing, truncating, looking up, linking and
    unlinking do to the disk what they do to those.  A path name means what a
    small parser says; no sequence of operations on path names, whatever errors
    occur in it, loses or invents a reference to a vnode; the table of devices
    is a list with distinct names.  The descriptors of processes that open,
    close, read, write, fork and exit are a map to shared open files, which are
    closed when the last descriptor goes.

    Processes.  Fork, exit and waitpid of any number of threads act on a map
    from process ids to parents and exit codes; a thread that waits for a child
    is awake once that has exited, and returns its exit code.  A program starts
    with its arguments on the stack and an address space from which page faults
    bring in the executable.  Cats and mice never eat together.

    Text.  snprintf writes what printf would send, cut off at the size of the
    buffer; %d and atoi are inverse.

    Errors.  Where the code does not do what it means to, a theorem says what
    it does instead: a signal that [cv_wait] loses, a write that reports
    success after a media error, pages that share a frame when memory is short,
    a read error that panics, a fork that closes the files of its parent when
    memory runs out, a boot file system whose name may not end with a colon, an
    exit that is overtaken by the parent, processes that nobody frees, an execv
    that writes past its array or takes the memory of the process it returns
    to, a cat that waits for ever.

    ** Bounds and fuel

    The loops over strings and paths have the length of the buffer as fuel, the
    loops over tables and bit maps their number of entries, the doubling loops
    the width of the integers: each is an upper bound of the number of rounds,
    and the specifications show that it is enough.  Hypotheses such as fewer
    than [2^30] references or [2^29] elements keep [int] counters from wrapping;
    what happens beyond is a theorem of its own where the code gets there.

    ** What is not modelled

    Machine code (start.S, exception.S, switch.S), whose effect is part of
    [Thread.v] and [Memory.v]; the registers of devices other than the disk, the
    console and the network, and the emulator's file system behind emu.c; the
    menu, the tests, the user programs and stoplight.c, which is a skeleton;
    dumbvm.c and systemfiletable.c, which are not part of this configuration;
    and the counters of uw-vmstats.c, which are only printed.  The file
    systems, the file tables and the pager are modelled as one thread sees them: their locks are there,
    as [ulock]s that fault or wait forever when they are misused, and that other
    threads respect them is the theorem on locks in SynchRuns.v.  Device.v has
    the null device and the disks, and no SFS under the path names.  In
    ProcessEnv.v and Exec.v the memory that user pointers point to and the
    frames of the page tables are two memories, and in ProcessEnv.v threads are
    only told apart. *)
From Stdlib Require Export ZArith Lia.
From stdpp Require Export base numbers list option gmap.

#[global] Open Scope Z_scope.
#[global] Set Default Goal Selector "!".

(** ** Machine integers

    [int] is a 32-bit two's-complement integer and [u_int32_t], [size_t],
    [vaddr_t] and [paddr_t] are 32-bit unsigned integers
    (src/kern/arch/mips/include/types.h).  The target is a MIPS compiled
    without trapping arithmetic, so overflow wraps. *)
Definition u32 (z : Z) : Z := z mod 2 ^ 32.
Definition u16 (z : Z) : Z := z mod 2 ^ 16.
Definition u8 (z : Z) : Z := z mod 2 ^ 8.
Definition s32 (z : Z) : Z := (z + 2 ^ 31) mod 2 ^ 32 - 2 ^ 31.

(** ** Error numbers, src/kern/include/kern/errno.h *)
Definition EINVAL : Z := 1.
Definition EFAULT : Z := 2.
Definition ENAMETOOLONG : Z := 3.
Definition ENOMEM : Z := 4.
Definition EIO : Z := 5.
Definition ENOENT : Z := 6.
Definition ENOTDIR : Z := 7.
Definition EISDIR : Z := 8.
Definition EEXIST : Z := 9.
Definition EXDEV : Z := 10.
Definition EAGAIN : Z := 11.
Definition ESPIPE : Z := 12.
Definition EUNIMP : Z := 13.
Definition ENXIO : Z := 14.
Definition ENODEV : Z := 15.
Definition EBUSY : Z := 16.
Definition EIOCTL : Z := 17.
Definition ENOTEMPTY : Z := 18.
Definition ERANGE : Z := 19.
Definition ENOSPC : Z := 20.
Definition EMFILE : Z := 21.
Definition ENFILE : Z := 22.
Definition ENOSYS : Z := 23.
Definition ENOEXEC : Z := 24.
Definition E2BIG : Z := 25.
Definition EBADF : Z := 26.

(** ** The kernel monad

    Kernel code runs on a state [S].  It stops for good when an [assert] or
    [panic] fires ([Panic]), when it reads or writes memory it does not own,
    dereferences [NULL] or uses an indeterminate value ([Fault]), when a
    loop does not end within the fuel of the model ([Spin]), or when the
    current thread leaves through [thread_exit] ([Exit]).  The outcome of
    every call of the allocator is taken from an oracle: the list of the
    successes ([true]) and failures ([false]) of the calls to come, each call
    after the end of the list succeeding. *)
Inductive stop : Set := Panic | Fault | Spin | Exit.

Inductive outcome (A : Type) : Type :=
| Done (a : A)
| Halt (e : stop).
Arguments Done {A} a.
Arguments Halt {A} e.

Abbreviation oracle := (list bool).

Definition K (S A : Type) : Type := S → oracle → outcome (A * S * oracle).

Definition ret {S A} (a : A) : K S A := λ s o, Done (a, s, o).
Definition bind {S A B} (m : K S A) (f : A → K S B) : K S B := λ s o,
  match m s o with
  | Done (a, s', o') => f a s' o'
  | Halt e => Halt e
  end.

Declare Scope kernel_scope.
Delimit Scope kernel_scope with kernel.
Notation "x <- m ; k" := (bind m (λ x, k))
  (at level 20, m at level 100, k at level 200, only parsing) : kernel_scope.
Notation "' x <- m ; k" := (bind m (fun x => k))
  (at level 20, x pattern, m at level 100, k at level 200, only parsing) : kernel_scope.
#[global] Open Scope kernel_scope.

Section Operations.
  Context {S : Type}.

Definition halt {A} (e : stop) : K S A := λ _ _, Halt e.
Definition panic {A} : K S A := halt Panic.
Definition kassert (b : bool) : K S unit := if b then ret tt else panic.
Definition kget : K S S := λ s o, Done (s, s, o).
Definition kput (s : S) : K S unit := λ _ o, Done (tt, s, o).
Definition gets {A} (f : S → A) : K S A := λ s o, Done (f s, s, o).
Definition modify (f : S → S) : K S unit := λ s o, Done (tt, f s, o).

(** The value of an option, [None] being an access the code may not make. *)
Definition deref {A} (x : option A) : K S A :=
  match x with Some a => ret a | None => halt Fault end.

(** One call of the allocator. *)
Definition kmalloc_ok : K S bool := λ s o,
  match o with
  | [] => Done (true, s, [])
  | b :: o' => Done (b, s, o')
  end.

(** Run an operation on a part of the state: [t->field] in the source. *)
Definition zoom {T A} (g : S → T) (p : T → S → S) (m : K T A) : K S A := λ s o,
  match m (g s) o with
  | Done (a, t, o') => Done (a, p t s, o')
  | Halt e => Halt e
  end.

(** Run an operation on an object [t] that is not part of the state. *)
Definition run_on {T A} (m : K T A) (t : T) : K S (A * T) := λ s o,
  match m t o with
  | Done (a, t', o') => Done ((a, t'), s, o')
  | Halt e => Halt e
  end.

(** [for (i = i0; n more times; i++) body(i)] *)
Fixpoint kfor (n : nat) (i : Z) (body : Z → K S unit) : K S unit :=
  match n with
  | O => ret tt
  | Datatypes.S n' => _ <- body i; kfor n' (i + 1) body
  end.

(** Total correctness: the run ends normally and its result satisfies [Q]. *)
Definition wp {A} (m : K S A) (Q : A → S → oracle → Prop) (s : S) (o : oracle) : Prop :=
  match m s o with
  | Done (a, s', o') => Q a s' o'
  | Halt _ => False
  end.

Lemma wp_ret {A} (a : A) Q s o : wp (ret a) Q s o ↔ Q a s o.
Proof. done. Qed.
Lemma wp_bind {A B} (m : K S A) (f : A → K S B) Q s o :
  wp (bind m f) Q s o ↔ wp m (λ a s' o', wp (f a) Q s' o') s o.
Proof. unfold wp, bind. by destruct (m s o) as [[[a s'] o']|]. Qed.
Lemma wp_assert b (Q : unit → S → oracle → Prop) s o :
  wp (kassert b) Q s o ↔ b = true ∧ Q tt s o.
Proof. unfold wp, kassert. destruct b; simpl; naive_solver. Qed.
Lemma wp_get (Q : S → S → oracle → Prop) s o : wp kget Q s o ↔ Q s s o.
Proof. done. Qed.
Lemma wp_put (t : S) (Q : unit → S → oracle → Prop) s o : wp (kput t) Q s o ↔ Q tt t o.
Proof. done. Qed.
Lemma wp_gets {A} (f : S → A) Q s o : wp (gets f) Q s o ↔ Q (f s) s o.
Proof. done. Qed.
Lemma wp_modify f (Q : unit → S → oracle → Prop) s o : wp (modify f) Q s o ↔ Q tt (f s) o.
Proof. done. Qed.
Lemma wp_deref {A} (x : option A) Q s o : wp (deref x) Q s o ↔ ∃ a, x = Some a ∧ Q a s o.
Proof. unfold wp, deref. destruct x; simpl; naive_solver. Qed.

(** The allocator answers with the head of the oracle. *)
Lemma wp_kmalloc_ok (Q : bool → S → oracle → Prop) s o :
  wp kmalloc_ok Q s o ↔ Q (default true (head o)) s (tail o).
Proof. unfold wp, kmalloc_ok. by destruct o. Qed.
Lemma wp_mono {A} (m : K S A) (Q Q' : A → S → oracle → Prop) s o :
  wp m Q s o → (∀ a s' o', Q a s' o' → Q' a s' o') → wp m Q' s o.
Proof. unfold wp. destruct (m s o) as [[[a s'] o']|]; naive_solver. Qed.
Lemma wp_and {A} (m : K S A) (Q Q' : A → S → oracle → Prop) s o :
  wp m Q s o → wp m Q' s o → wp m (λ a s' o', Q a s' o' ∧ Q' a s' o') s o.
Proof. unfold wp. destruct (m s o) as [[[a s'] o']|]; naive_solver. Qed.
(** A run that stops the kernel after a call that returns *)
Lemma halt_bind {A B} (m : K S A) (f : A → K S B) e (Q : A → S → oracle → Prop) s o :
  wp m Q s o → (∀ a s' o', Q a s' o' → f a s' o' = Halt e) → bind m f s o = Halt e.
Proof. unfold wp, bind. destruct (m s o) as [[[a s'] o']|]; naive_solver. Qed.
Lemma wp_run {A} (m : K S A) Q s o :
  wp m Q s o ↔ ∃ a s' o', m s o = Done (a, s', o') ∧ Q a s' o'.
Proof. unfold wp. destruct (m s o) as [[[a s'] o']|]; naive_solver. Qed.

End Operations.

(** A property of the end of a run, by running it *)
Lemma run_check {S A} (P : S → Prop) `{!∀ s, Decision (P s)} (r : outcome (A * S * oracle)) a o :
  match r with Done (a', s, o') => Some (a', bool_decide (P s), o') | Halt _ => None end = Some (a, true, o) →
  ∃ s, r = Done (a, s, o) ∧ P s.
Proof. destruct r as [[[a' s] o']|]; intros [= -> HP ->]. exists s. split; [done|]. by apply bool_decide_eq_true_1 in HP. Qed.

Lemma wp_zoom {S T A} (g : S → T) p (m : K T A) Q s o :
  wp (zoom g p m) Q s o ↔ wp m (λ a t o', Q a (p t s) o') (g s) o.
Proof. unfold wp, zoom. by destruct (m (g s) o) as [[[a s'] o']|]. Qed.

Lemma wp_run_on {S T A} (m : K T A) (t : T) (Q : A * T → S → oracle → Prop) s o :
  wp (run_on m t) Q s o ↔ wp m (λ a t' o', Q (a, t') s o') t o.
Proof. unfold wp, run_on. by destruct (m t o) as [[[a t'] o']|]. Qed.

Lemma wp_if {S A} (b : bool) (m1 m2 : K S A) Q s o :
  (b = true → wp m1 Q s o) → (b = false → wp m2 Q s o) →
  wp (if b then m1 else m2) Q s o.
Proof. destruct b; eauto. Qed.

(** One step of symbolic execution; an assertion becomes a goal. *)
Ltac wp_step :=
  lazymatch goal with
  | |- wp (bind _ _) _ _ _ => refine (proj2 (wp_bind _ _ _ _ _) _)
  | |- wp (ret _) _ _ _ => refine (proj2 (wp_ret _ _ _ _) _)
  | |- wp (kassert _) _ _ _ => refine (proj2 (wp_assert _ _ _ _) (conj _ _))
  | |- wp kget _ _ _ => refine (proj2 (wp_get _ _ _) _)
  | |- wp (kput _) _ _ _ => refine (proj2 (wp_put _ _ _ _) _)
  | |- wp (gets _) _ _ _ => refine (proj2 (wp_gets _ _ _ _) _)
  | |- wp (modify _) _ _ _ => refine (proj2 (wp_modify _ _ _ _) _)
  | |- wp kmalloc_ok _ _ _ => refine (proj2 (wp_kmalloc_ok _ _ _) _)
  | |- wp (zoom _ _ _) _ _ _ => refine (proj2 (wp_zoom _ _ _ _ _ _) _)
  | |- wp (run_on _ _) _ _ _ => refine (proj2 (wp_run_on _ _ _ _ _) _)
  | |- wp (deref (Some _)) _ _ _ => refine (proj2 (wp_ret _ _ _ _) _)
  end; cbn beta.

(** Run straight-line code, closing arithmetic assertions. *)
Ltac wp_run :=
  repeat lazymatch goal with
  | |- wp (kassert _) _ _ _ =>
      refine (proj2 (wp_assert _ _ _ _) (conj _ _));
      [ solve [ lia | done | auto with kernel ] | cbn beta ]
  | |- _ => wp_step
  end.

(** Decide a condition that computes. *)
Ltac wp_cond :=
  lazymatch goal with
  | |- wp (if ?b then ?x else ?y) ?Q ?s ?o =>
      let c := eval vm_compute in b in
      lazymatch c with
      | true => change (wp x Q s o)
      | false => change (wp y Q s o)
      end
  end.

(** Use the specification [H] of a call. *)
Tactic Notation "wp_call" uconstr(H) := eapply wp_mono; [ eapply H | cbn beta ].

(** ** Lists indexed by machine integers

    [zlookup l i] is [l[i]] and [zinsert i x l] is [l[i] = x], both failing
    outside of the bounds. *)
Section Indexed.
  Context {A : Type}.

Definition zlookup (l : list A) (i : Z) : option A :=
  if decide (0 ≤ i) then l !! Z.to_nat i else None.
Definition zinsert (i : Z) (x : A) (l : list A) : option (list A) :=
  if decide (0 ≤ i < Z.of_nat (length l)) then Some (<[Z.to_nat i := x]> l) else None.

Lemma zlookup_nat (l : list A) (n : nat) : zlookup l (Z.of_nat n) = l !! n.
Proof. unfold zlookup. rewrite decide_True by lia. by rewrite Nat2Z.id. Qed.
Lemma zlookup_Some (l : list A) i x :
  zlookup l i = Some x ↔ 0 ≤ i ∧ l !! Z.to_nat i = Some x.
Proof. unfold zlookup. case_decide; naive_solver. Qed.
Lemma zlookup_is_Some (l : list A) i :
  is_Some (zlookup l i) ↔ 0 ≤ i < Z.of_nat (length l).
Proof.
  unfold zlookup. case_decide.
  - rewrite lookup_lt_is_Some. lia.
  - split; [by intros [? [=]] | lia].
Qed.
Lemma zlookup_lt (l : list A) i x : zlookup l i = Some x → 0 ≤ i < Z.of_nat (length l).
Proof. intros H. by apply zlookup_is_Some; rewrite H. Qed.
Lemma zinsert_ok i x (l : list A) :
  0 ≤ i < Z.of_nat (length l) → zinsert i x l = Some (<[Z.to_nat i := x]> l).
Proof. intros. unfold zinsert. by rewrite decide_True. Qed.
Lemma zinsert_Some i x (l l' : list A) :
  zinsert i x l = Some l' ↔ 0 ≤ i < Z.of_nat (length l) ∧ l' = <[Z.to_nat i := x]> l.
Proof. unfold zinsert. case_decide; naive_solver. Qed.

End Indexed.

Lemma zlookup_fmap {A B} (f : A → B) (l : list A) i : zlookup (f <$> l) i = f <$> zlookup l i.
Proof. unfold zlookup. case_decide; [apply list_lookup_fmap|done]. Qed.

(** A read that is in bounds. *)
Lemma wp_deref_lookup {S A} (l : list A) i x (Q : A → S → oracle → Prop) s o :
  zlookup l i = Some x → Q x s o → wp (deref (zlookup l i)) Q s o.
Proof. intros H HQ. apply wp_deref. eauto. Qed.

(** ** Arithmetic of the machine integers *)
Create HintDb kernel.
Lemma u32_small z : 0 ≤ z < 2 ^ 32 → u32 z = z.
Proof. intros. unfold u32. by apply Z.mod_small. Qed.
Lemma u32_bound z : 0 ≤ u32 z < 2 ^ 32.
Proof. apply Z.mod_pos_bound. lia. Qed.
Lemma s32_small z : - 2 ^ 31 ≤ z < 2 ^ 31 → s32 z = z.
Proof. intros. unfold s32. rewrite Z.mod_small; lia. Qed.
Lemma s32_bound z : - 2 ^ 31 ≤ s32 z < 2 ^ 31.
Proof. unfold s32. pose proof (Z.mod_pos_bound (z + 2 ^ 31) (2 ^ 32)). lia. Qed.
#[export] Hint Resolve u32_bound s32_bound : kernel.

(** The next allocation fails. *)
Definition fails (o : oracle) : Prop := head o = Some false.
Lemma fails_iff (o : oracle) : default true (head o) = false ↔ fails o.
Proof. unfold fails. destruct o as [|[]]; naive_solver. Qed.
Lemma not_fails_iff (o : oracle) : default true (head o) = true ↔ ¬ fails o.
Proof. unfold fails. destruct o as [|[]]; naive_solver. Qed.
Lemma not_fails_nil : ¬ fails [].
Proof. done. Qed.
#[export] Hint Resolve not_fails_nil : kernel.

(** Every allocation succeeds. *)
Definition plenty (o : oracle) : Prop := Forall (λ b, b = true) o.
Lemma plenty_head o : plenty o → ¬ fails o.
Proof. intros Ho Hf. unfold fails in Hf. destruct Ho as [|b o ->]; simplify_eq/=. Qed.
Lemma plenty_tail o : plenty o → plenty (tail o).
Proof. intros Ho. by destruct Ho as [|b o _ Ho]; [constructor|]. Qed.
Lemma plenty_drop n o : plenty o → plenty (drop n o).
Proof. apply Forall_drop. Qed.

(** Run code whose allocations succeed. *)
Ltac wp_mem Hp :=
  repeat (wp_step || (rewrite (proj2 (not_fails_iff _)) by (apply plenty_head; repeat apply plenty_tail; exact Hp); cbn [negb])).

(** Distinct offsets below the size of a ring are distinct slots. *)
Lemma slot_inj n a i j :
  0 < n → 0 ≤ i < n → 0 ≤ j < n → (a + i) mod n = (a + j) mod n → i = j.
Proof.
  intros Hn Hi Hj He.
  assert ((i - j) mod n = 0) as H0.
  { replace (i - j) with ((a + i) - (a + j)) by lia.
    rewrite Zminus_mod, He, Z.sub_diag. by rewrite Z.mod_0_l by lia. }
  apply Z.mod_divide in H0 as [k Hk]; [|lia]. assert (k = 0) by nia. lia.
Qed.
Lemma slot_succ n a k : 0 < n → ((a + k) mod n + 1) mod n = (a + (k + 1)) mod n.
Proof. intros. rewrite Zplus_mod_idemp_l. f_equal. lia. Qed.

(** Close a conjunction of equations and bounds. *)
Ltac kdone := split_and?; first [ done | lia | eassumption | solve [auto with kernel lia] ].
