(* ===== verification/Array.v ===== *)
(** * Resizable arrays of pointers, src/kern/lib/array.c

    [array V] is [struct array] with pointers of type [V]; a block of memory
    is the list of its cells, [None] being a cell that was never written, and
    the pointer [v] is [None] when it is [NULL]. *)
From S2P Require Import Prelude.

Record array (V : Type) : Type := mkArray {
  num : Z;
  max : Z;
  v : option (list (option V));
}.
Arguments mkArray {V} _ _ _.
Arguments num {V} _.
Arguments max {V} _.
Arguments v {V} _.

Section Array.
  Context {V : Type}.
  Implicit Types (a : array V) (cs : list (option V)) (xs : list V).

(** ** Operations *)
Definition array_create {S} : K S (option (array V)) :=
  ok <- kmalloc_ok;
  ret (if ok then Some (mkArray 0 0 None) else None).

Definition array_getnum : K (array V) Z := gets num.

Definition array_getguy (index : Z) : K (array V) V :=
  a <- kget;
  _ <- kassert (num a <=? max a);
  _ <- kassert ((0 <=? index) && (index <? num a));
  vs <- deref (v a);
  c <- deref (zlookup vs index);
  deref c.

(** [while (nguys > newmax) newmax = newmax*2;] *)
Fixpoint double_until {S} (fuel : nat) (nguys newmax : Z) : K S Z :=
  if newmax <? nguys then
    match fuel with
    | O => halt Spin
    | Datatypes.S fuel' => double_until fuel' nguys (s32 (newmax * 2))
    end
  else ret newmax.

(** [for (i = i0; n more times; i++) newv[i] = v[i];] *)
Fixpoint copy_cells {S} (n : nat) (i : Z) (src : option (list (option V)))
    (newv : list (option V)) : K S (list (option V)) :=
  match n with
  | O => ret newv
  | Datatypes.S n' =>
      vs <- deref src;
      c <- deref (zlookup vs i);
      newv' <- deref (zinsert i c newv);
      copy_cells n' (i + 1) src newv'
  end.

Definition array_preallocate (nguys : Z) : K (array V) Z :=
  a <- kget;
  _ <- kassert ((0 <=? num a) && (num a <=? max a));
  newmax <- double_until 64 nguys (if max a =? 0 then 1 else max a);
  ok <- kmalloc_ok;
  if negb ok then ret ENOMEM
  else
    newv <- copy_cells (Z.to_nat (num a)) 0 (v a)
             (replicate (Z.to_nat (u32 (newmax * 4) / 4)) None);
    _ <- kput (mkArray (num a) newmax (Some newv));
    ret 0.

Definition array_setsize (nguys : Z) : K (array V) Z :=
  a <- kget;
  _ <- kassert ((0 <=? num a) && (num a <=? max a));
  result <-
    (if max a <? nguys then array_preallocate nguys
     else if (nguys =? 0) && (16 <? max a) then
       _ <- kassert (bool_decide (v a ≠ None));
       _ <- modify (λ a, mkArray (num a) 0 None);
       ret 0
     else ret 0);
  if negb (result =? 0) then ret result
  else
    _ <- modify (λ a, mkArray nguys (max a) (v a));
    ret 0.

(** [v[index] = ptr] *)
Definition store (index : Z) (ptr : V) : K (array V) unit :=
  a <- kget;
  vs <- deref (v a);
  vs' <- deref (zinsert index (Some ptr) vs);
  kput (mkArray (num a) (max a) (Some vs')).

Definition array_setguy (index : Z) (ptr : V) : K (array V) unit :=
  a <- kget;
  _ <- kassert (num a <=? max a);
  _ <- kassert ((0 <=? index) && (index <? num a));
  store index ptr.

Definition array_add (guy : V) : K (array V) Z :=
  ix <- gets num;
  result <- array_setsize (s32 (ix + 1));
  if negb (result =? 0) then ret result
  else
    _ <- store ix guy;
    ret 0.

(** [memmove(v+dst, v+src, n words)] inside one block *)
Definition memmove_cells (dst src n : nat) (vs : list (option V)) :
    option (list (option V)) :=
  if decide (dst + n ≤ length vs ∧ src + n ≤ length vs)%nat
  then Some (take dst vs ++ take n (drop src vs) ++ drop (dst + n) vs)
  else None.

Definition array_remove (index : Z) : K (array V) unit :=
  a <- kget;
  _ <- kassert (num a <=? max a);
  _ <- kassert ((0 <=? index) && (index <? num a));
  let nmove := num a - (index + 1) in
  vs <- deref (v a);
  vs' <- deref (memmove_cells (Z.to_nat index) (Z.to_nat index + 1) (Z.to_nat nmove) vs);
  kput (mkArray (num a - 1) (max a) (Some vs')).

(** The block of pointers is given back, and so is the structure. *)
Definition array_destroy : K (array V) unit := modify (λ a, mkArray (num a) (max a) None).

(** ** Representation

    [array_cells a cs]: the first [num] cells of [a] are [cs], and the block
    has exactly [max] cells.  [array_rep a xs]: moreover all of them are
    written, and hold the pointers [xs].  A block of [2^30] pointers would
    not fit in the address space. *)
Definition array_cells (a : array V) (cs : list (option V)) : Prop :=
  num a = Z.of_nat (length cs) ∧ num a ≤ max a < 2 ^ 30 ∧
  match v a with
  | None => max a = 0
  | Some vs => Z.of_nat (length vs) = max a ∧ take (length cs) vs = cs
  end.
Definition array_rep (a : array V) (xs : list V) : Prop := array_cells a (Some <$> xs).

(** ** The doubling loop *)
Lemma double_until_stop {S} fuel nguys newmax (Q : Z → S → oracle → Prop) s o :
  nguys ≤ newmax → Q newmax s o → wp (double_until fuel nguys newmax) Q s o.
Proof. intros. destruct fuel; simpl; by destruct (Z.ltb_spec newmax nguys); [lia|]. Qed.

(** As long as the target is at most [2^30] the loop ends, on the first
    doubling of [newmax] that reaches it. *)
Lemma double_until_spec {S} fuel nguys newmax s o :
  1 ≤ newmax → newmax < nguys ≤ 2 ^ 30 → nguys ≤ newmax * 2 ^ Z.of_nat fuel →
  wp (S := S) (double_until fuel nguys newmax)
    (λ r s' o', s' = s ∧ o' = o ∧ nguys ≤ r < 2 * nguys) s o.
Proof.
  revert newmax. induction fuel as [|fuel IH]; intros newmax Hpos Hlt Hfuel.
  { simpl in Hfuel. lia. }
  rewrite Nat2Z.inj_succ, Z.pow_succ_r in Hfuel by lia.
  simpl. destruct (Z.ltb_spec newmax nguys); [|lia].
  rewrite s32_small by lia.
  destruct (decide (newmax * 2 < nguys)).
  - apply IH; lia.
  - apply double_until_stop; kdone.
Qed.

(** Past [2^30] the doubled [int] overflows to a negative number and then to
    zero, so that no amount of fuel ends the loop. *)
Lemma double_until_overflow {S} fuel nguys newmax (s : S) o :
  2 ^ 30 < nguys → (newmax = 0 ∨ newmax = - 2 ^ 31 ∨ ∃ k, 0 ≤ k ≤ 30 ∧ newmax = 2 ^ k) →
  double_until fuel nguys newmax s o = Halt Spin.
Proof.
  intros Hbig. revert newmax. induction fuel as [|fuel IH]; intros newmax Hm.
  all: assert (newmax < nguys) as Hlt by
    (destruct Hm as [->|[->|(k & Hk & ->)]]; [lia..|];
     pose proof (Z.pow_le_mono_r 2 k 30); lia).
  all: simpl; destruct (Z.ltb_spec newmax nguys); [|lia].
  { done. }
  apply IH. destruct Hm as [->|[->|(k & Hk & ->)]]; [by left..|].
  destruct (decide (k = 30)) as [->|]; [by right; left|].
  right; right. exists (k + 1). split; [lia|].
  rewrite Z.pow_add_r by lia. pose proof (Z.pow_lt_mono_r 2 k 30).
  rewrite s32_small; lia.
Qed.

(** ** Copying *)
Lemma copy_cells_spec {S} (vs newv : list (option V)) n i s o :
  (i + n ≤ length vs)%nat → (i + n ≤ length newv)%nat →
  take i newv = take i vs →
  wp (S := S) (copy_cells n (Z.of_nat i) (Some vs) newv)
    (λ r s' o', s' = s ∧ o' = o ∧ length r = length newv ∧
                take (i + n) r = take (i + n) vs) s o.
Proof.
  revert newv i. induction n as [|n IH]; intros newv i Hvs Hnew Heq; simpl.
  { wp_run. rewrite Nat.add_0_r. auto. }
  wp_step. wp_step. wp_step.
  destruct (lookup_lt_is_Some_2 vs i) as [c Hc]; [lia|].
  eapply wp_deref_lookup; [by rewrite zlookup_nat|].
  rewrite zinsert_ok by lia. rewrite Nat2Z.id. wp_run.
  replace (Z.of_nat i + 1) with (Z.of_nat (i + 1)) by lia.
  wp_call IH; [lia | rewrite length_insert; lia | |].
  - rewrite Nat.add_1_r, (take_S_r vs _ c), (take_S_r _ _ c) by
      (rewrite ?list_lookup_insert_eq; auto; lia).
    by rewrite take_insert_ge, Heq by lia.
  - intros r s' o' (-> & -> & Hlen & Htake). rewrite length_insert in Hlen.
    by replace (i + Datatypes.S n)%nat with (i + 1 + n)%nat by lia.
Qed.

Lemma copy_cells_0 {S} src newv i (Q : list (option V) → S → oracle → Prop) s o :
  Q newv s o → wp (copy_cells 0 i src newv) Q s o.
Proof. done. Qed.

(** ** Specifications of the operations *)
Lemma array_cells_bound a cs : array_cells a cs → 0 ≤ num a ≤ max a ∧ max a < 2 ^ 30.
Proof. intros (Hn & Hm & _). lia. Qed.

Lemma array_cells_lookup a cs i c :
  array_cells a cs → zlookup cs i = Some c →
  ∃ vs, v a = Some vs ∧ zlookup vs i = Some c.
Proof.
  intros (Hn & Hm & Hv) Hc. pose proof (zlookup_lt _ _ _ Hc).
  destruct (v a) as [vs|]; [|lia]. exists vs. split; [done|].
  destruct Hv as [_ Ht]. rewrite zlookup_Some in Hc |- *.
  destruct Hc as [? Hc]. split; [done|]. rewrite <- Ht in Hc.
  by apply lookup_take_Some in Hc as [??].
Qed.

Lemma array_getguy_spec a xs i x o :
  array_rep a xs → zlookup xs i = Some x →
  wp (array_getguy i) (λ r a' o', r = x ∧ a' = a ∧ o' = o) a o.
Proof.
  intros Ha Hx. pose proof (array_cells_bound _ _ Ha). pose proof (zlookup_lt _ _ _ Hx).
  assert (num a = Z.of_nat (length xs)) by (destruct Ha; rewrite length_fmap in *; lia).
  destruct (array_cells_lookup a (Some <$> xs) i (Some x)) as (vs & Hv & Hvs); [done|..].
  { by rewrite zlookup_fmap, Hx. }
  unfold array_getguy. wp_run. rewrite Hv. wp_run.
  eapply wp_deref_lookup; [done|]. wp_run. kdone.
Qed.

Lemma array_preallocate_spec a cs nguys o :
  array_cells a cs → nguys ≤ 2 ^ 29 →
  wp (array_preallocate nguys)
    (λ r a' o', o' = tail o ∧
      ((r = 0 ∧ ¬ fails o ∧ array_cells a' cs ∧ nguys ≤ max a' ∧ num a' = num a ∧
          max a ≤ max a' ∧ 1 ≤ max a') ∨
       (r = ENOMEM ∧ fails o ∧ a' = a))) a o.
Proof.
  intros Ha Hng. pose proof (array_cells_bound _ _ Ha) as Hb.
  unfold array_preallocate. wp_run.
  set (m0 := if max a =? 0 then 1 else max a).
  assert (1 ≤ m0 < 2 ^ 30 ∧ max a ≤ m0) as [Hm0 Hm0'] by
    (subst m0; destruct (Z.eqb_spec (max a) 0); lia).
  eapply (wp_mono _ (λ r a' o', a' = a ∧ o' = o ∧ m0 ≤ r < 2 ^ 30 ∧ nguys ≤ r)).
  { destruct (decide (m0 < nguys)).
    - eapply wp_mono; [apply double_until_spec; [lia..|]|].
      { change (Z.of_nat 64) with 64. nia. }
      intros r ?? (-> & -> & ?). kdone.
    - apply double_until_stop; kdone. }
  intros r ?? (-> & -> & Hr & Hnr). wp_run.
  destruct (default true (head o)) eqn:Hok; simpl.
  2: { wp_run. split; [done|]. right. unfold fails. destruct o as [|[]]; naive_solver. }
  assert (¬ fails o) as Hnf by (unfold fails; destruct o as [|[]]; naive_solver).
  rewrite u32_small, Z.div_mul by lia. destruct Ha as (Hnum & Hmax & Hv).
  wp_step. eapply (wp_mono _ (λ newv a' o', a' = a ∧ o' = tail o ∧
     Z.of_nat (length newv) = r ∧ take (length cs) newv = cs)).
  - destruct (v a) as [vs|].
    + replace (Z.to_nat (num a)) with (length cs) by lia.
      eapply wp_mono; [apply (copy_cells_spec vs _ (length cs) 0)|]; simpl.
      * lia.
      * rewrite length_replicate. lia.
      * done.
      * intros newv ?? (-> & -> & Hlen & Ht). rewrite length_replicate in Hlen.
        destruct Hv as [_ Hv]. rewrite Ht, Hv. kdone.
    + replace (Z.to_nat (num a)) with 0%nat by lia. apply copy_cells_0.
      rewrite length_replicate. destruct cs; [kdone|simpl in *; lia].
  - intros newv ?? (-> & -> & Hlen & Ht). wp_run. split; [done|]. left.
    split_and!; [done|done|..]; simpl; try lia. repeat split; simpl; kdone.
Qed.

Lemma array_setsize_spec a cs n o :
  array_cells a cs → 0 ≤ n ≤ 2 ^ 29 →
  wp (array_setsize n)
    (λ r a' o', o' = (if max a <? n then tail o else o) ∧
      ((r = 0 ∧ (max a < n → ¬ fails o) ∧
        ∃ cs', array_cells a' cs' ∧ Z.of_nat (length cs') = n ∧
               take (length cs) cs' = take (Z.to_nat n) cs) ∨
       (r = ENOMEM ∧ max a < n ∧ fails o ∧ a' = a))) a o.
Proof.
  intros Ha Hn. pose proof (array_cells_bound _ _ Ha) as Hb.
  unfold array_setsize. wp_run.
  destruct (Z.ltb_spec (max a) n) as [Hlt|Hge].
  - wp_call array_preallocate_spec; [done|lia|].
    intros r a' o' (-> & [(-> & Hnf & Ha' & Hmax & Hnum & _ & _)|(-> & Hf & ->)]); simpl; wp_run.
    2: { split; [done|]. by right. }
    split; [done|]. left. split_and!; [done|done|].
    destruct Ha' as (Hn' & Hm' & Hv'). destruct Ha as (Hna & _).
    destruct (v a') as [vs|] eqn:Hva; [|lia]. destruct Hv' as [Hlen Ht].
    exists (take (Z.to_nat n) vs). split_and!.
    + repeat split; simpl; rewrite ?length_take, ?Hva; try lia.
      by rewrite Nat.min_l by lia.
    + rewrite length_take. lia.
    + rewrite take_take, Nat.min_l by lia. rewrite Ht, take_ge; [done|lia].
  - destruct ((n =? 0) && (16 <? max a)) eqn:Hfree; simpl.
    + assert (n = 0) as -> by lia. wp_step.
      destruct Ha as (_ & _ & Hv). destruct (v a) as [vs|]; [|lia].
      wp_run. split; [done|]. left. split_and!; [done|lia|].
      exists []. repeat split; simpl; try done. by rewrite firstn_nil.
    + wp_run. split; [done|]. left. split_and!; [done|lia|].
      destruct Ha as (Hna & Hma & Hv). destruct (v a) as [vs|] eqn:Hva.
      * exists (take (Z.to_nat n) vs). destruct Hv as [Hlen Ht]. split_and!.
        -- repeat split; simpl; rewrite ?length_take, ?Hva; try lia.
           by rewrite Nat.min_l by lia.
        -- rewrite length_take. lia.
        -- by rewrite take_take, Nat.min_comm, <- take_take, Ht.
      * exists []. assert (n = 0) as -> by lia. repeat split; simpl; rewrite ?Hva; try done; try lia.
        by rewrite firstn_nil.
Qed.

Lemma store_spec a cs i x o :
  array_cells a cs → 0 ≤ i < Z.of_nat (length cs) →
  wp (store i x) (λ _ a' o', o' = o ∧ array_cells a' (<[Z.to_nat i := Some x]> cs)) a o.
Proof.
  intros (Hn & Hm & Hv) Hi. unfold store. wp_run.
  destruct (v a) as [vs|]; [|lia]. destruct Hv as [Hlen Ht]. wp_run.
  rewrite zinsert_ok by lia. wp_run. split; [done|].
  repeat split; simpl; rewrite ?length_insert; try lia.
  by rewrite take_insert_lt, Ht by lia.
Qed.

Lemma array_setguy_spec a xs i x o :
  array_rep a xs → 0 ≤ i < Z.of_nat (length xs) →
  wp (array_setguy i x) (λ _ a' o', o' = o ∧ array_rep a' (<[Z.to_nat i := x]> xs)) a o.
Proof.
  intros Ha Hi. pose proof (array_cells_bound _ _ Ha). pose proof Ha as (Hn & _).
  rewrite length_fmap in Hn. unfold array_setguy. wp_run.
  wp_call store_spec; [done|by rewrite length_fmap|].
  intros _ a' o' (-> & Ha'). split; [done|]. unfold array_rep. by rewrite list_fmap_insert.
Qed.

(** [array_add] appends, or reports [ENOMEM] and changes nothing. *)
Lemma array_add_spec a xs x o :
  array_rep a xs → Z.of_nat (length xs) < 2 ^ 29 →
  wp (array_add x)
    (λ r a' o', o' = (if num a <? max a then o else tail o) ∧
      ((r = 0 ∧ (num a = max a → ¬ fails o) ∧ array_rep a' (xs ++ [x])) ∨
       (r = ENOMEM ∧ num a = max a ∧ fails o ∧ a' = a))) a o.
Proof.
  intros Ha Hlen. pose proof (array_cells_bound _ _ Ha). pose proof Ha as (Hn & _).
  rewrite length_fmap in Hn. unfold array_add. wp_run. rewrite s32_small by lia.
  wp_call array_setsize_spec; [done|lia|].
  assert ((if max a <? num a + 1 then tail o else o) = (if num a <? max a then o else tail o)) as ->.
  { destruct (Z.ltb_spec (max a) (num a + 1)), (Z.ltb_spec (num a) (max a)); done || lia. }
  intros r a' o' (-> & [(-> & Hok & cs' & Ha' & Hlen' & Ht)|(-> & Hlt & Hf & ->)]); simpl; wp_run.
  2: { split; [done|]. right. split_and!; [done|lia|done|done]. }
  rewrite length_fmap in Ht.
  wp_call store_spec; [done|lia|]. intros _ a'' ? (-> & Ha''). wp_run.
  split; [done|]. left. split_and!; [done|intros; apply Hok; lia|].
  unfold array_rep. replace (Some <$> (xs ++ [x])) with (<[Z.to_nat (num a) := Some x]> cs'); [done|].
  rewrite fmap_app. simpl. replace (Z.to_nat (num a)) with (length xs) by lia.
  rewrite (take_ge (Some <$> xs)) in Ht by (rewrite length_fmap; lia).
  rewrite <- (take_drop (length xs) cs'), Ht at 1.
  rewrite insert_app_r_alt by (rewrite length_fmap; lia).
  rewrite length_fmap, Nat.sub_diag. f_equal.
  assert (length (drop (length xs) cs') = 1%nat) as Hd by (rewrite length_drop; lia).
  by destruct (drop (length xs) cs') as [|? [|]].
Qed.

(** With room in the block nothing is allocated. *)
Lemma array_add_room a xs x o :
  array_rep a xs → Z.of_nat (length xs) < 2 ^ 29 → num a < max a →
  wp (array_add x) (λ r a' o', r = 0 ∧ o' = o ∧ array_rep a' (xs ++ [x]) ∧ max a' = max a) a o.
Proof.
  intros Ha Hlen Hroom. pose proof (array_add_spec a xs x o Ha Hlen) as Hadd.
  assert (wp (array_add x) (λ _ a' _, max a' = max a) a o) as Hmax.
  { destruct (proj1 (wp_run _ _ _ _) Hadd) as (r & a' & o' & Hrun & _).
    unfold wp. rewrite Hrun. revert Hrun.
    pose proof Ha as (Hn & _). rewrite length_fmap in Hn.
    unfold array_add, array_setsize, store, bind, gets, kget, kassert, modify, kput, ret.
    rewrite s32_small by lia. destruct (_ && _); [|done].
    destruct (Z.ltb_spec (max a) (num a + 1)); [lia|].
    destruct (Z.eqb_spec (num a + 1) 0); [lia|]. simpl.
    destruct (v a) as [vs|]; [|done]. simpl. by destruct (zinsert _ _ _); intros [= <- <- <-]. }
  eapply wp_mono; [exact (wp_and _ _ _ _ _ Hadd Hmax)|].
  intros r a' o' ((-> & [(-> & _ & Ha')|(_ & Heq & _)]) & Hm); [|lia].
  destruct (Z.ltb_spec (num a) (max a)); [done|lia].
Qed.

Lemma memmove_remove (vs : list (option V)) i n :
  (i < n ≤ length vs)%nat →
  ∃ vs', memmove_cells i (i + 1) (n - (i + 1)) vs = Some vs' ∧ length vs' = length vs ∧
         take (n - 1) vs' = delete i (take n vs).
Proof.
  intros Hi. unfold memmove_cells. rewrite decide_True by lia.
  eexists. split; [done|]. split.
  { rewrite !length_app, !length_take, !length_drop. lia. }
  apply list_eq. intros j. rewrite lookup_take.
  destruct (decide (j < n - 1)%nat) as [Hj|Hj].
  2: { symmetry. apply lookup_ge_None. rewrite length_delete by
         (apply lookup_lt_is_Some; rewrite length_take; lia). rewrite length_take. lia. }
  destruct (decide (j < i)%nat).
  - rewrite list_lookup_delete_lt, lookup_app_l by (rewrite ?length_take; lia).
    by rewrite !lookup_take, !decide_True by lia.
  - rewrite list_lookup_delete_ge by lia.
    rewrite lookup_app_r, length_take, lookup_app_l by (rewrite ?length_take, ?length_drop; lia).
    rewrite !lookup_take, !decide_True by lia. rewrite lookup_drop. f_equal. lia.
Qed.

Lemma array_remove_spec a xs i o :
  array_rep a xs → 0 ≤ i < Z.of_nat (length xs) →
  wp (array_remove i) (λ _ a' o', o' = o ∧ array_rep a' (delete (Z.to_nat i) xs)) a o.
Proof.
  intros Ha Hi. pose proof (array_cells_bound _ _ Ha). destruct Ha as (Hn & Hm & Hv).
  rewrite length_fmap in *. unfold array_remove. wp_run.
  destruct (v a) as [vs|]; [|lia]. destruct Hv as [Hlen Ht]. wp_run.
  destruct (memmove_remove vs (Z.to_nat i) (length xs)) as (vs' & Hmm & Hlen' & Ht'); [lia|].
  replace (Z.to_nat (num a - (i + 1))) with (length xs - (Z.to_nat i + 1))%nat by lia.
  rewrite Hmm. wp_run. split; [done|].
  assert (length (delete (Z.to_nat i) xs) = (length xs - 1)%nat) as Hd.
  { apply length_delete, lookup_lt_is_Some. lia. }
  repeat split; simpl; rewrite ?length_fmap, ?Hd; try lia.
  by rewrite Ht', Ht, list_fmap_delete.
Qed.

(** ** Simulation by lists

    The abstract array is a list; an operation steps from a list to a list
    with a result, and only [array_add] may fail. *)
Inductive array_op : Type :=
| OpGet (i : Z)
| OpSet (i : Z) (x : V)
| OpAdd (x : V)
| OpRemove (i : Z).

Definition array_exec (op : array_op) : K (array V) (Z + V) :=
  match op with
  | OpGet i => x <- array_getguy i; ret (inr x)
  | OpSet i x => _ <- array_setguy i x; ret (inl 0)
  | OpAdd x => r <- array_add x; ret (inl r)
  | OpRemove i => _ <- array_remove i; ret (inl 0)
  end.

Inductive list_step (xs : list V) : array_op → Z + V → list V → Prop :=
| step_get i x : zlookup xs i = Some x → list_step xs (OpGet i) (inr x) xs
| step_set i x : list_step xs (OpSet i x) (inl 0) (<[Z.to_nat i := x]> xs)
| step_add x : list_step xs (OpAdd x) (inl 0) (xs ++ [x])
| step_add_fail x : list_step xs (OpAdd x) (inl ENOMEM) xs
| step_remove i : list_step xs (OpRemove i) (inl 0) (delete (Z.to_nat i) xs).

(** What the caller must respect: indices in range, and less than [2^29] pointers. *)
Definition op_pre (xs : list V) (op : array_op) : Prop :=
  match op with
  | OpGet i | OpSet i _ | OpRemove i => 0 ≤ i < Z.of_nat (length xs)
  | OpAdd _ => Z.of_nat (length xs) < 2 ^ 29
  end.


End Array.



