(* ===== verification/Queue.v ===== *)
(** * Queues of pointers, src/kern/lib/queue.c

    A ring buffer with a read and a write index; one cell always stays free,
    and a full buffer is replaced by one of twice its size. *)
From S2P Require Import Prelude.

Record queue (V : Type) : Type := mkQueue {
  size : Z;
  nextwrite : Z;
  nextread : Z;
  data : list (option V);
}.
Arguments mkQueue {V} _ _ _ _.
Arguments size {V} _.
Arguments nextwrite {V} _.
Arguments nextread {V} _.
Arguments data {V} _.

Section Queue.
  Context {V : Type}.
  Implicit Types (q : queue V) (xs : list V).

(** ** Operations *)

(** The block [kmalloc(n * sizeof(ptr))], not written yet. *)
Definition fresh_block (n : Z) : list (option V) :=
  replicate (Z.to_nat (u32 (n * 4) / 4)) None.

Definition q_create {S} (sz : Z) : K S (option (queue V)) :=
  ok <- kmalloc_ok;
  if negb ok then ret None
  else
    ok <- kmalloc_ok;
    if negb ok then ret None
    else ret (Some (mkQueue sz 0 0 (fresh_block sz))).

Definition q_empty : K (queue V) bool := gets (λ q, nextwrite q =? nextread q).

(** [while (nsize < targetsize) { nsize *= 2; assert(nsize > 0); }] *)
Fixpoint q_newsize {S} (fuel : nat) (targetsize nsize : Z) : K S Z :=
  if nsize <? targetsize then
    match fuel with
    | O => halt Spin
    | Datatypes.S fuel' =>
        let nsize' := s32 (nsize * 2) in
        _ <- kassert (0 <? nsize');
        q_newsize fuel' targetsize nsize'
    end
  else ret nsize.

(** [for (i=onr; i!=onw; i = (i+1)%osize) q_addtail(q, olddata[i]);] *)
Fixpoint q_refill (addtail : V → K (queue V) Z) (fuel : nat)
    (olddata : list (option V)) (i onw osize : Z) : K (queue V) unit :=
  if i =? onw then ret tt
  else
    match fuel with
    | O => halt Spin
    | Datatypes.S fuel' =>
        c <- deref (zlookup olddata i);
        x <- deref c;
        result <- addtail x;
        _ <- kassert (result =? 0);
        q_refill addtail fuel' olddata (Z.rem (i + 1) osize) onw osize
    end.

Definition q_grow (addtail : V → K (queue V) Z) (targetsize : Z) : K (queue V) Z :=
  q <- kget;
  nsize <- q_newsize 32 targetsize (size q);
  ok <- kmalloc_ok;
  if negb ok then ret ENOMEM
  else
    _ <- kput (mkQueue nsize 0 0 (fresh_block nsize));
    _ <- q_refill addtail (Z.to_nat (size q)) (data q) (nextread q) (nextwrite q) (size q);
    ret 0.

(** [q_addtail] and [q_grow] call each other; [depth] bounds the nesting. *)
Fixpoint q_addtail_at (depth : nat) (ptr : V) : K (queue V) Z :=
  q <- kget;
  _ <- kassert (0 <? size q);
  let nextnext := Z.rem (nextwrite q + 1) (size q) in
  result <-
    (if nextnext =? nextread q then
       match depth with
       | O => halt Spin
       | Datatypes.S depth' => q_grow (q_addtail_at depth') (s32 (size q + 1))
       end
     else ret 0);
  if negb (result =? 0) then ret result
  else
    q <- kget;
    let nextnext := Z.rem (nextwrite q + 1) (size q) in
    data' <- deref (zinsert (nextwrite q) (Some ptr) (data q));
    _ <- kput (mkQueue (size q) nextnext (nextread q) data');
    ret 0.

(** A grown queue has room for its old contents, so that one level is enough. *)
Definition q_addtail (ptr : V) : K (queue V) Z := q_addtail_at 1 ptr.

Definition q_preallocate (sz : Z) : K (queue V) Z :=
  q <- kget;
  _ <- kassert (0 <? size q);
  if size q <? sz then q_grow q_addtail sz else ret 0.

Definition q_remhead : K (queue V) V :=
  q <- kget;
  _ <- kassert (0 <? size q);
  e <- q_empty;
  _ <- kassert (negb e);
  c <- deref (zlookup (data q) (nextread q));
  x <- deref c;
  _ <- kput (mkQueue (size q) (nextwrite q) (Z.rem (nextread q + 1) (size q)) (data q));
  ret x.

Definition q_destroy : K (queue V) unit :=
  e <- q_empty;
  kassert e.

Definition q_getstart : K (queue V) Z := gets nextread.
Definition q_getend : K (queue V) Z := gets nextwrite.
Definition q_getsize : K (queue V) Z := gets size.
Definition q_getguy (index : Z) : K (queue V) V :=
  q <- kget;
  _ <- kassert ((0 <=? index) && (index <? size q));
  c <- deref (zlookup (data q) index);
  deref c.

(** ** Representation: [q] holds the pointers [xs], the oldest first. *)
Definition queue_rep (q : queue V) (xs : list V) : Prop :=
  0 < size q < 2 ^ 30 ∧ Z.of_nat (length (data q)) = size q ∧
  0 ≤ nextread q < size q ∧
  nextwrite q = (nextread q + Z.of_nat (length xs)) mod size q ∧
  Z.of_nat (length xs) < size q ∧
  ∀ i x, xs !! i = Some x →
    data q !! Z.to_nat ((nextread q + Z.of_nat i) mod size q) = Some (Some x).

(** ** Lemmas *)
Lemma queue_rep_empty q xs : queue_rep q xs → (nextwrite q =? nextread q) = bool_decide (xs = []).
Proof.
  intros (Hs & _ & Hr & Hw & Hlen & _). rewrite Hw.
  case_bool_decide as Hx.
  - subst. simpl. rewrite Z.add_0_r, Z.mod_small by lia. apply Z.eqb_refl.
  - apply Z.eqb_neq. intros He. apply Hx.
    destruct xs; [done|]. exfalso.
    assert (Z.of_nat (length (v :: xs)) = 0); [|simpl in *; lia].
    apply (slot_inj (size q) (nextread q)); try lia.
    rewrite Z.add_0_r, (Z.mod_small (nextread q)) by lia. done.
Qed.

(** The write index is one step behind the read index exactly when the buffer is full. *)
Lemma queue_rep_full q xs : queue_rep q xs →
  (Z.rem (nextwrite q + 1) (size q) =? nextread q) = (Z.of_nat (length xs) + 1 =? size q).
Proof.
  intros (Hs & _ & Hr & Hw & Hlen & _). rewrite Hw.
  pose proof (Z.mod_pos_bound (nextread q + Z.of_nat (length xs)) (size q)).
  rewrite Z.rem_mod_nonneg, slot_succ by lia.
  apply eq_true_iff_eq. rewrite !Z.eqb_eq. split.
  - intros He. destruct (decide (Z.of_nat (length xs) + 1 = size q)); [done|].
    assert (Z.of_nat (length xs) + 1 = 0); [|lia].
    apply (slot_inj (size q) (nextread q)); try lia.
    rewrite He, Z.add_0_r, Z.mod_small; lia.
  - intros ->. rewrite <- Z.add_mod_idemp_r, Z.mod_same, Z.add_0_r, Z.mod_small; lia.
Qed.

(** Writing at the write index appends. *)
Lemma queue_rep_write q xs x :
  queue_rep q xs → Z.of_nat (length xs) + 1 < size q →
  queue_rep (mkQueue (size q) (Z.rem (nextwrite q + 1) (size q)) (nextread q)
               (<[Z.to_nat (nextwrite q) := Some x]> (data q))) (xs ++ [x]).
Proof.
  intros (Hs & Hd & Hr & Hw & Hlen & Hx) Hroom.
  pose proof (Z.mod_pos_bound (nextread q + Z.of_nat (length xs)) (size q)).
  repeat split; simpl; rewrite ?length_insert, ?length_app; simpl; try lia.
  - rewrite Hw, Z.rem_mod_nonneg, slot_succ by lia. f_equal. lia.
  - intros i y Hy. apply lookup_app_Some in Hy as [Hy|[Hge Hy]].
    + pose proof (lookup_lt_Some _ _ _ Hy).
      rewrite list_lookup_insert_ne; [by apply Hx|].
      rewrite Hw. intros He. apply Z2Nat.inj in He; [|try lia..].
      * apply slot_inj in He; lia.
      * apply Z.mod_pos_bound. lia.
    + apply list_lookup_singleton_Some in Hy as [Hi <-].
      replace i with (length xs) by lia. rewrite <- Hw.
      apply list_lookup_insert_eq. lia.
Qed.

Lemma q_addtail_room depth q xs x o :
  queue_rep q xs → Z.of_nat (length xs) + 1 < size q →
  wp (q_addtail_at depth x)
    (λ r q' o', r = 0 ∧ o' = o ∧ queue_rep q' (xs ++ [x]) ∧ size q' = size q) q o.
Proof.
  intros Hq Hroom. pose proof (queue_rep_full _ _ Hq) as Hfull.
  pose proof (queue_rep_write q xs x Hq Hroom) as Hq'.
  destruct Hq as (Hs & Hd & Hr & Hw & _).
  pose proof (Z.mod_pos_bound (nextread q + Z.of_nat (length xs)) (size q)).
  destruct depth; simpl; wp_run; rewrite Hfull, (proj2 (Z.eqb_neq _ _)) by lia; wp_run; simpl; wp_run.
  all: rewrite zinsert_ok by lia; wp_run; kdone.
Qed.

Lemma q_newsize_spec {S} fuel target nsize (s : S) o :
  1 ≤ nsize → target ≤ 2 ^ 29 → nsize < 2 ^ 30 → target ≤ nsize * 2 ^ Z.of_nat fuel →
  wp (q_newsize fuel target nsize)
    (λ r s' o', s' = s ∧ o' = o ∧ target ≤ r < 2 ^ 30 ∧ nsize ≤ r ∧
                (r = nsize ∨ 2 * nsize ≤ r)) s o.
Proof.
  revert nsize. induction fuel as [|fuel IH]; intros nsize Hpos Ht Hn Hfuel.
  { simpl in *. destruct (Z.ltb_spec nsize target); [lia|]. wp_run. kdone. }
  rewrite Nat2Z.inj_succ, Z.pow_succ_r in Hfuel by lia.
  simpl. destruct (Z.ltb_spec nsize target); [|wp_run; kdone].
  rewrite s32_small by lia. wp_run.
  eapply wp_mono; [apply IH; lia|]. intros r ?? (-> & -> & ? & ? & ?). kdone.
Qed.

Lemma q_refill_spec depth fuel olddata onr osize k q ys zs o :
  queue_rep q ys → Z.of_nat (length ys + length zs) < size q →
  0 < osize → 0 ≤ k → k + Z.of_nat (length zs) < osize → (length zs ≤ fuel)%nat →
  (∀ j z, zs !! j = Some z →
     olddata !! Z.to_nat ((onr + (k + Z.of_nat j)) mod osize) = Some (Some z)) →
  wp (q_refill (q_addtail_at depth) fuel olddata ((onr + k) mod osize)
        ((onr + (k + Z.of_nat (length zs))) mod osize) osize)
    (λ _ q' o', o' = o ∧ queue_rep q' (ys ++ zs) ∧ size q' = size q) q o.
Proof.
  revert fuel k q ys. induction zs as [|z zs IH]; intros fuel k q ys Hq Hroom Ho Hk Hko Hfuel Hold.
  { destruct fuel; simpl; rewrite Z.add_0_r, Z.eqb_refl; wp_run; rewrite app_nil_r; kdone. }
  destruct fuel as [|fuel]; simpl length in *; [lia|]. simpl q_refill.
  destruct (Z.eqb_spec ((onr + k) mod osize)
      ((onr + (k + Z.of_nat (S (length zs)))) mod osize)) as [He|_].
  { apply slot_inj in He; lia. }
  pose proof (Z.mod_pos_bound (onr + k) osize).
  pose proof (Hold 0%nat z eq_refl) as Hz. rewrite Z.add_0_r in Hz.
  wp_step. eapply wp_deref_lookup; [apply zlookup_Some; split; [lia|done]|].
  wp_run. wp_call q_addtail_room; [done|lia|].
  intros r q' o' (-> & -> & Hq' & Hsz). wp_run.
  rewrite Z.rem_mod_nonneg, slot_succ by lia.
  replace (k + Z.of_nat (S (length zs))) with (k + 1 + Z.of_nat (length zs)) by lia.
  eapply wp_mono; [apply (IH fuel (k + 1) q' (ys ++ [z])); try lia|].
  - done.
  - rewrite length_app. simpl. lia.
  - intros j w Hw. replace (k + 1 + Z.of_nat j) with (k + Z.of_nat (S j)) by lia.
    by apply Hold.
  - intros _ q'' o'' (-> & Hq'' & ?). rewrite <- app_assoc in Hq''. kdone.
Qed.

Lemma fresh_block_length n : 0 ≤ n < 2 ^ 30 → Z.of_nat (length (fresh_block n)) = n.
Proof.
  intros. unfold fresh_block. rewrite length_replicate, u32_small, Z.div_mul by lia. lia.
Qed.

Lemma queue_rep_fresh n : 0 < n < 2 ^ 30 → queue_rep (mkQueue n 0 0 (fresh_block n)) [].
Proof.
  intros. repeat split; simpl; try lia; [|done]. apply fresh_block_length. lia.
Qed.

(** Growing keeps the contents and makes room for one more pointer. *)
Lemma q_grow_spec depth target q xs o :
  queue_rep q xs → size q < target ≤ 2 ^ 29 →
  wp (q_grow (q_addtail_at depth) target)
    (λ r q' o', o' = tail o ∧
      ((r = 0 ∧ ¬ fails o ∧ queue_rep q' xs ∧ target ≤ size q' ∧ 2 * size q ≤ size q') ∨
       (r = ENOMEM ∧ fails o ∧ q' = q))) q o.
Proof.
  intros Hq Ht. pose proof Hq as (Hs & Hd & Hr & Hw & Hlen & Hx).
  unfold q_grow. wp_run. wp_call q_newsize_spec; try lia.
  intros nsize ?? (-> & -> & Hn & Hn2). wp_run.
  destruct (default true (head o)) eqn:Hok; simpl.
  2: { wp_run. apply fails_iff in Hok. kdone. }
  apply not_fails_iff in Hok. wp_run.
  replace (nextread q) with ((nextread q + 0) mod size q) by
    (rewrite Z.add_0_r, Z.mod_small; lia).
  rewrite Hw. replace (Z.of_nat (length xs)) with (0 + Z.of_nat (length xs)) by lia.
  eapply wp_mono; [apply (q_refill_spec depth _ _ _ _ _ _ [] xs)|]; simpl; try lia.
  - apply queue_rep_fresh. lia.
  - intros j z Hz. rewrite Z.add_0_l. by apply Hx.
  - intros _ q' o' (-> & Hq' & Hsz). wp_run. split; [done|]. left. kdone.
Qed.

(** [q_addtail] appends; it grows the buffer when it is full, and then it
    may report [ENOMEM], leaving the queue as it was. *)
Lemma q_addtail_spec q xs x o :
  queue_rep q xs → Z.of_nat (length xs) + 1 < 2 ^ 29 →
  wp (q_addtail x)
    (λ r q' o',
      (r = 0 ∧ queue_rep q' (xs ++ [x]) ∧ size q ≤ size q' ∧
        (Z.of_nat (length xs) + 1 < size q → o' = o ∧ size q' = size q) ∧
        (o' = o ∨ o' = tail o)) ∨
      (r = ENOMEM ∧ Z.of_nat (length xs) + 1 = size q ∧ fails o ∧ q' = q ∧ o' = tail o)) q o.
Proof.
  intros Hq Hs. destruct (decide (Z.of_nat (length xs) + 1 < size q)) as [Hroom|Hfull].
  { eapply wp_mono; [by apply q_addtail_room|].
    intros r q' o' (-> & -> & Hq' & ?). left. split_and!; [done|done|lia|done|by left]. }
  pose proof (queue_rep_full _ _ Hq) as Hf. pose proof Hq as (Hs' & _ & _ & _ & Hlen & _).
  unfold q_addtail. simpl. wp_run. rewrite Hf, (proj2 (Z.eqb_eq _ _)) by lia.
  wp_run. rewrite s32_small by lia.
  wp_call (q_grow_spec 0); [done|lia|].
  intros r q' o' (-> & [(-> & Hnf & Hq' & Ht & Hsz)|(-> & Hnf & ->)]); simpl; wp_run.
  2: { right. kdone. }
  pose proof (queue_rep_write q' xs x Hq') as Hw. pose proof Hq' as (? & Hd & ? & Hnw & _).
  pose proof (Z.mod_pos_bound (nextread q' + Z.of_nat (length xs)) (size q')).
  rewrite zinsert_ok by lia. wp_run. left. simpl.
  split_and!; [done|apply Hw; lia|lia|lia|by right].
Qed.

Lemma q_remhead_spec q x xs o :
  queue_rep q (x :: xs) →
  wp q_remhead (λ r q' o', r = x ∧ o' = o ∧ queue_rep q' xs ∧ size q' = size q) q o.
Proof.
  intros Hq. pose proof (queue_rep_empty _ _ Hq) as He.
  destruct Hq as (Hs & Hd & Hr & Hw & Hlen & Hx). simpl length in *.
  unfold q_remhead, q_empty. wp_run. rewrite He.
  wp_run. pose proof (Hx 0%nat x eq_refl) as Hx0. rewrite Z.add_0_r, Z.mod_small in Hx0 by lia.
  eapply wp_deref_lookup; [apply zlookup_Some; split; [lia|done]|]. wp_run.
  split_and!; [done..| |done]. rewrite Z.rem_mod_nonneg by lia.
  pose proof (Z.mod_pos_bound (nextread q + 1) (size q)).
  repeat split; simpl; try lia.
  - rewrite Hw, Zplus_mod_idemp_l. f_equal. lia.
  - intros i y Hy. rewrite Zplus_mod_idemp_l.
    replace (nextread q + 1 + Z.of_nat i) with (nextread q + Z.of_nat (S i)) by lia.
    by apply Hx.
Qed.

Lemma q_preallocate_spec q xs n o :
  queue_rep q xs → n ≤ 2 ^ 29 →
  wp (q_preallocate n)
    (λ r q' o', (r = 0 ∧ queue_rep q' xs ∧ n ≤ size q' ∧ size q ≤ size q') ∨
                (r = ENOMEM ∧ size q < n ∧ fails o ∧ q' = q)) q o.
Proof.
  intros Hq Hn. pose proof Hq as (Hs & _). unfold q_preallocate. wp_run.
  destruct (Z.ltb_spec (size q) n).
  - wp_call (q_grow_spec 1); [done|lia|].
    intros r q' o' (-> & [(-> & ? & ? & ? & ?)|(-> & ? & ->)]); [left|right]; kdone.
  - wp_run. left. kdone.
Qed.

(** ** Simulation by lists *)
Inductive queue_op : Type := OpAddtail (x : V) | OpRemhead | OpPreallocate (n : Z) | OpEmpty.

Definition queue_exec (op : queue_op) : K (queue V) (Z + V) :=
  match op with
  | OpAddtail x => r <- q_addtail x; ret (inl r)
  | OpRemhead => x <- q_remhead; ret (inr x)
  | OpPreallocate n => r <- q_preallocate n; ret (inl r)
  | OpEmpty => b <- q_empty; ret (inl (if b then 1 else 0))
  end.

(** First in, first out. *)
Inductive fifo_step : list V → queue_op → Z + V → list V → Prop :=
| fifo_addtail xs x : fifo_step xs (OpAddtail x) (inl 0) (xs ++ [x])
| fifo_addtail_fail xs x : fifo_step xs (OpAddtail x) (inl ENOMEM) xs
| fifo_remhead x xs : fifo_step (x :: xs) OpRemhead (inr x) xs
| fifo_preallocate xs n : fifo_step xs (OpPreallocate n) (inl 0) xs
| fifo_preallocate_fail xs n : fifo_step xs (OpPreallocate n) (inl ENOMEM) xs
| fifo_empty xs : fifo_step xs OpEmpty (inl (if decide (xs = []) then 1 else 0)) xs.

Definition queue_pre (xs : list V) (op : queue_op) : Prop :=
  match op with
  | OpAddtail _ => Z.of_nat (length xs) + 1 < 2 ^ 29
  | OpRemhead => xs ≠ []
  | OpPreallocate n => n ≤ 2 ^ 29
  | OpEmpty => True
  end.

(** forward simulation of a first-in first-out list by the ring buffer,
    through wrap-around and growth: every operation within its precondition
    returns, takes the step of the list and keeps the representation;
    [ENOMEM] is reported only when the allocator fails. *)
Theorem queue_simulation (q : queue V) (xs : list V) (op : queue_op) (o : oracle) :
  queue_rep q xs → queue_pre xs op →
  wp (queue_exec op)
    (λ r q' _, (∃ xs', fifo_step xs op r xs' ∧ queue_rep q' xs') ∧
               (r = inl ENOMEM → fails o ∧ q' = q)) q o.
Proof.
  intros Hq Hpre. destruct op as [x| |n|]; simpl in *; wp_step.
  - wp_call q_addtail_spec; [done..|].
    intros r q' o' [(-> & Hq' & _)|(-> & _ & ? & -> & _)]; wp_run;
      (split; [|done]); eauto using fifo_step.
  - destruct xs as [|x xs]; [done|]. wp_call q_remhead_spec; [done|].
    intros r q' o' (-> & -> & Hq' & _). wp_run. split; [|done]. eauto using fifo_step.
  - wp_call q_preallocate_spec; [done..|].
    intros r q' o' [(-> & Hq' & _)|(-> & _ & ? & ->)]; wp_run;
      (split; [|done]); eauto using fifo_step.
  - unfold q_empty. wp_run. split; [|by destruct (_ =? _)].
    exists xs. split; [|done]. rewrite (queue_rep_empty _ _ Hq).
    pose proof (fifo_empty xs) as Hstep. case_bool_decide; case_decide; naive_solver.
Qed.

End Queue.

Lemma queue_simulation_witness :
  let q := mkQueue 3 1 2 [Some 8; None; Some 5] in
  queue_rep q [5; 8] ∧ queue_pre [5; 8] (OpAddtail 4) ∧
  wp (queue_exec (OpAddtail 4))
    (λ r q' _, (∃ xs', fifo_step [5; 8] (OpAddtail 4) r xs' ∧ queue_rep q' xs') ∧
               (r = inl ENOMEM → fails [true] ∧ q' = q)) q [true].
Proof.
  intros q. assert (queue_rep q [5; 8]) as Hq.
  { repeat split; simpl; try lia. intros [|[|]] x [=<-]; done. }
  assert (queue_pre [5; 8] (OpAddtail 4)) as Hp by (simpl; lia).
  split; [exact Hq|]. split; [exact Hp|].
  exact (queue_simulation q [5; 8] (OpAddtail 4) [true] Hq Hp).
Defined.
