(* ===== verification/Bitmap.v ===== *)
(** * Arrays of bits, src/kern/lib/bitmap.c

    The bits live in a vector of bytes; the bits of the last byte past
    [nbits] are marked in use when the bitmap is created.  SFS uses a bitmap
    for its free blocks. *)
From S2P Require Import Prelude.

Record bitmap : Type := mkBitmap {
  nbits : Z;
  v : list Z;
}.

(** ** Operations *)
Definition BITS_PER_WORD : Z := 8.
Definition WORD_ALLBITS : Z := 255.
(** [DIVROUNDUP(a, BITS_PER_WORD)] on [u_int32_t], src/kern/include/lib.h *)
Definition bitmap_words (nbits : Z) : Z := u32 (u32 (nbits + BITS_PER_WORD) - 1) / BITS_PER_WORD.

(** [((WORD_TYPE)1) << offset] *)
Definition bitmap_mask (offset : Z) : Z := u8 (Z.shiftl 1 offset).

(** [for (j=overbits; j<BITS_PER_WORD; j++) b->v[ix] |= (1 << j);] *)
Fixpoint mark_leftover (n : nat) (j ix : Z) (vs : list Z) {S} : K S (list Z) :=
  match n with
  | O => ret vs
  | Datatypes.S n' =>
      w <- deref (zlookup vs ix);
      vs' <- deref (zinsert ix (Z.lor w (bitmap_mask j)) vs);
      mark_leftover n' (j + 1) ix vs'
  end.

Definition bitmap_create {S} (nbits : Z) : K S (option bitmap) :=
  let words := bitmap_words nbits in
  ok <- kmalloc_ok;
  if negb ok then ret None
  else
    ok <- kmalloc_ok;
    if negb ok then ret None
    else
      let vs := replicate (Z.to_nat words) 0 in
      if nbits / BITS_PER_WORD <? words then
        let ix := u32 (words - 1) in
        let overbits := u32 (nbits - u32 (ix * BITS_PER_WORD)) in
        _ <- kassert (nbits / BITS_PER_WORD =? u32 (words - 1));
        _ <- kassert ((0 <? overbits) && (overbits <? BITS_PER_WORD));
        vs' <- mark_leftover (Z.to_nat (BITS_PER_WORD - overbits)) overbits ix vs;
        ret (Some (mkBitmap nbits vs'))
      else ret (Some (mkBitmap nbits vs)).

(** The loop over the bits of a byte: the first clear one. *)
Fixpoint alloc_bit (n : nat) (offset w : Z) : option Z :=
  match n with
  | O => None
  | Datatypes.S n' =>
      if Z.land w (bitmap_mask offset) =? 0 then Some offset else alloc_bit n' (offset + 1) w
  end.

(** The loop over the bytes: [inl] is the error, [inr] the [*index]. *)
Fixpoint alloc_scan (n : nat) (ix : Z) : K bitmap (Z + Z) :=
  match n with
  | O => ret (inl ENOSPC)
  | Datatypes.S n' =>
      b <- kget;
      w <- deref (zlookup (v b) ix);
      if negb (w =? WORD_ALLBITS) then
        match alloc_bit 8 0 w with
        | Some offset =>
            vs <- deref (zinsert ix (Z.lor w (bitmap_mask offset)) (v b));
            _ <- kput (mkBitmap (nbits b) vs);
            let index := u32 (u32 (ix * BITS_PER_WORD) + offset) in
            _ <- kassert (index <? nbits b);
            ret (inr index)
        | None => panic
        end
      else alloc_scan n' (ix + 1)
  end.

Definition bitmap_alloc : K bitmap (Z + Z) :=
  b <- kget;
  alloc_scan (Z.to_nat (bitmap_words (nbits b))) 0.

Definition bitmap_getdata : K bitmap (list Z) := gets v.
(** The bytes are given back, and so is the structure. *)
Definition bitmap_destroy : K bitmap unit := modify (λ b, mkBitmap (nbits b) []).

Definition bitmap_translate (bitno : Z) : Z * Z :=
  (bitno / BITS_PER_WORD, bitmap_mask (bitno mod BITS_PER_WORD)).

Definition bitmap_mark (index : Z) : K bitmap unit :=
  b <- kget;
  _ <- kassert (index <? nbits b);
  let '(ix, mask) := bitmap_translate index in
  w <- deref (zlookup (v b) ix);
  _ <- kassert (Z.land w mask =? 0);
  vs <- deref (zinsert ix (Z.lor w mask) (v b));
  kput (mkBitmap (nbits b) vs).

Definition bitmap_unmark (index : Z) : K bitmap unit :=
  b <- kget;
  _ <- kassert (index <? nbits b);
  let '(ix, mask) := bitmap_translate index in
  w <- deref (zlookup (v b) ix);
  _ <- kassert (negb (Z.land w mask =? 0));
  vs <- deref (zinsert ix (u8 (Z.land w (Z.lnot mask))) (v b));
  kput (mkBitmap (nbits b) vs).

Definition bitmap_isset (index : Z) : K bitmap Z :=
  b <- kget;
  let '(ix, mask) := bitmap_translate index in
  w <- deref (zlookup (v b) ix);
  ret (Z.land w mask).

(** ** The set of bits *)

(** Bit [i] of a vector of bytes. *)
Definition bit (vs : list Z) (i : Z) : bool :=
  match zlookup vs (i / 8) with
  | Some w => Z.testbit w (i mod 8)
  | None => false
  end.

(** The type invariant: enough bytes, each in range, the leftover bits in use.
    The rounding of the size must not overflow. *)
Record bitmap_ok (b : bitmap) : Prop := {
  ok_nbits : 0 ≤ nbits b < 2 ^ 32 - 8;
  ok_words : Z.of_nat (length (v b)) = (nbits b + 7) / 8;
  ok_bytes : ∀ i w, zlookup (v b) i = Some w → 0 ≤ w < 256;
  ok_leftover : ∀ i, nbits b ≤ i < 8 * Z.of_nat (length (v b)) → bit (v b) i = true;
}.

(** ** Bytes *)
Lemma mask_small k : 0 ≤ k < 8 → bitmap_mask k = Z.shiftl 1 k.
Proof.
  intros. unfold bitmap_mask, u8. rewrite Z.shiftl_1_l. apply Z.mod_small.
  split; [lia|]. apply Z.pow_lt_mono_r; lia.
Qed.
Lemma mask_testbit k j : 0 ≤ k < 8 → 0 ≤ j → Z.testbit (bitmap_mask k) j = (j =? k).
Proof. intros. rewrite mask_small, Z.shiftl_1_l, Z.pow2_bits_eqb, Z.eqb_sym; [done|lia..]. Qed.

Lemma land_mask w k : 0 ≤ k < 8 → (Z.land w (bitmap_mask k) =? 0) = negb (Z.testbit w k).
Proof.
  intros Hk. destruct (Z.testbit w k) eqn:Hw; simpl.
  - apply Z.eqb_neq. intros H0. assert (Z.testbit (Z.land w (bitmap_mask k)) k = false) as Hf.
    { by rewrite H0, Z.bits_0. }
    rewrite Z.land_spec, Hw, mask_testbit, Z.eqb_refl in Hf by lia. done.
  - apply Z.eqb_eq, Z.bits_inj'. intros j Hj.
    rewrite Z.land_spec, mask_testbit, Z.bits_0 by lia.
    destruct (Z.eqb_spec j k); [subst; by rewrite Hw|by rewrite andb_false_r].
Qed.

Lemma byte_high w j : 0 ≤ w < 256 → 8 ≤ j → Z.testbit w j = false.
Proof.
  intros Hw Hj. rewrite <- (Z.mod_small w (2 ^ 8)) by lia. apply Z.mod_pow2_bits_high. lia.
Qed.
Lemma byte_range w : (∀ j, 8 ≤ j → Z.testbit w j = false) → 0 ≤ w < 256.
Proof.
  intros H. replace w with (w mod 2 ^ 8); [apply Z.mod_pos_bound; lia|].
  apply Z.bits_inj'. intros j Hj. destruct (decide (j < 8)).
  - apply Z.mod_pow2_bits_low. lia.
  - by rewrite Z.mod_pow2_bits_high, H by lia.
Qed.

Lemma set_byte_range w k : 0 ≤ w < 256 → 0 ≤ k < 8 → 0 ≤ Z.lor w (bitmap_mask k) < 256.
Proof.
  intros Hw Hk. apply byte_range. intros j Hj.
  rewrite Z.lor_spec, mask_testbit, byte_high by lia. lia.
Qed.
Lemma set_byte_bit w k j :
  0 ≤ k < 8 → 0 ≤ j → Z.testbit (Z.lor w (bitmap_mask k)) j = (j =? k) || Z.testbit w j.
Proof. intros. rewrite Z.lor_spec, mask_testbit by lia. apply orb_comm. Qed.
Lemma clear_byte_bit w k j :
  0 ≤ k < 8 → 0 ≤ j < 8 →
  Z.testbit (u8 (Z.land w (Z.lnot (bitmap_mask k)))) j = negb (j =? k) && Z.testbit w j.
Proof.
  intros. unfold u8. rewrite Z.mod_pow2_bits_low, Z.land_spec, Z.lnot_spec, mask_testbit by lia.
  apply andb_comm.
Qed.

Lemma alloc_bit_spec n offset w :
  0 ≤ offset → offset + Z.of_nat n = 8 →
  match alloc_bit n offset w with
  | Some k => offset ≤ k < 8 ∧ Z.testbit w k = false ∧
              ∀ j, offset ≤ j < k → Z.testbit w j = true
  | None => ∀ j, offset ≤ j < 8 → Z.testbit w j = true
  end.
Proof.
  revert offset. induction n as [|n IH]; intros offset Ho Hn; simpl; [lia|].
  rewrite land_mask by lia. destruct (Z.testbit w offset) eqn:Hw; simpl.
  - specialize (IH (offset + 1)). destruct (alloc_bit n (offset + 1) w) as [k|].
    + destruct IH as (? & ? & Hlow); [lia..|]. split_and!; [lia|lia|done|].
      intros j Hj. destruct (decide (j = offset)) as [->|]; [done|apply Hlow; lia].
    + intros j Hj. destruct (decide (j = offset)) as [->|]; [done|apply IH; lia].
  - split_and!; [lia|lia|done|lia].
Qed.

Lemma full_byte w : 0 ≤ w < 256 → (∀ j, 0 ≤ j < 8 → Z.testbit w j = true) → w = WORD_ALLBITS.
Proof.
  intros Hw Hb. apply Z.bits_inj'. intros j Hj. change WORD_ALLBITS with (Z.ones 8).
  destruct (decide (j < 8)).
  - by rewrite Hb, Z.ones_spec_low by lia.
  - by rewrite byte_high, Z.ones_spec_high by lia.
Qed.

(** ** Vectors of bytes *)
Lemma bit_lookup vs i w : zlookup vs (i / 8) = Some w → bit vs i = Z.testbit w (i mod 8).
Proof. unfold bit. by intros ->. Qed.

(** Replacing byte [ix] changes the bits of that byte only. *)
Lemma bit_insert vs ix w vs' i :
  zinsert ix w vs = Some vs' →
  bit vs' i = if i / 8 =? ix then Z.testbit w (i mod 8) else bit vs i.
Proof.
  intros [Hix ->]%zinsert_Some. unfold bit.
  destruct (Z.eqb_spec (i / 8) ix) as [->|Hne].
  - rewrite (proj2 (zlookup_Some _ ix w)); [done|]. split; [lia|].
    apply list_lookup_insert_eq. lia.
  - unfold zlookup. case_decide; [|done]. rewrite list_lookup_insert_ne; [done|].
    intros He. apply Hne. lia.
Qed.

Lemma bytes_insert vs ix w vs' :
  zinsert ix w vs = Some vs' → 0 ≤ w < 256 →
  (∀ i u, zlookup vs i = Some u → 0 ≤ u < 256) →
  ∀ i u, zlookup vs' i = Some u → 0 ≤ u < 256.
Proof.
  intros [Hix ->]%zinsert_Some Hw Hvs i u [Hi Hu]%zlookup_Some.
  apply list_lookup_insert_Some in Hu as [(_ & <- & _)|[_ Hu]]; [done|].
  apply (Hvs i). by apply zlookup_Some.
Qed.

Section Updates.
  Context (b : bitmap) (Hok : bitmap_ok b).

Lemma bitmap_words_ok : bitmap_words (nbits b) = Z.of_nat (length (v b)).
Proof.
  destruct Hok. unfold bitmap_words, BITS_PER_WORD. rewrite (u32_small (_ + _)) by lia.
  rewrite u32_small, ok_words0 by lia. f_equal. lia.
Qed.

(** An index in range has its byte, and writing the byte is in bounds. *)
Lemma bitmap_byte index :
  0 ≤ index < nbits b →
  ∃ w, zlookup (v b) (index / 8) = Some w ∧ 0 ≤ w < 256 ∧
       bit (v b) index = Z.testbit w (index mod 8) ∧
       0 ≤ index / 8 < Z.of_nat (length (v b)).
Proof.
  intros Hi. destruct Hok. assert (0 ≤ index / 8 < Z.of_nat (length (v b))) as Hr.
  { rewrite ok_words0. split; [apply Z.div_pos; lia|]. apply Z.div_lt_upper_bound; [lia|].
    pose proof (Z.div_mod (nbits b + 7) 8). pose proof (Z.mod_pos_bound (nbits b + 7) 8). lia. }
  destruct (proj2 (zlookup_is_Some (v b) (index / 8)) Hr) as [w Hw].
  pose proof (ok_bytes0 _ _ Hw). exists w. split_and!; eauto using bit_lookup; lia.
Qed.

(** Setting or clearing one bit in range keeps the invariant. *)
Lemma bitmap_update index w' vs' (val : bool) :
  0 ≤ index < nbits b → zinsert (index / 8) w' (v b) = Some vs' → 0 ≤ w' < 256 →
  (∀ w j, zlookup (v b) (index / 8) = Some w → 0 ≤ j < 8 →
     Z.testbit w' j = if j =? index mod 8 then val else Z.testbit w j) →
  bitmap_ok (mkBitmap (nbits b) vs') ∧
  ∀ i, 0 ≤ i → bit vs' i = if i =? index then val else bit (v b) i.
Proof.
  intros Hi Hins Hw' Hbits. destruct (bitmap_byte index Hi) as (w & Hw & Hrng & _ & Hix).
  assert (∀ i, 0 ≤ i → bit vs' i = if i =? index then val else bit (v b) i) as Hbit.
  { intros i Hi0. rewrite (bit_insert _ _ _ _ _ Hins).
    pose proof (Z.div_mod i 8). pose proof (Z.div_mod index 8).
    pose proof (Z.mod_pos_bound i 8).
    destruct (Z.eqb_spec (i / 8) (index / 8)) as [He|Hne].
    - rewrite (Hbits w) by (done || lia). rewrite (bit_lookup _ i w) by congruence.
      destruct (Z.eqb_spec (i mod 8) (index mod 8)), (Z.eqb_spec i index); done || lia || congruence.
    - destruct (Z.eqb_spec i index); [congruence|done]. }
  split; [|done]. destruct Hok. pose proof Hins as [_ ->]%zinsert_Some.
  split; simpl.
  - done.
  - by rewrite length_insert.
  - eapply bytes_insert; eauto.
  - intros i Hlo. rewrite length_insert in Hlo. rewrite Hbit by lia.
    destruct (Z.eqb_spec i index); [lia|]. by apply ok_leftover0.
Qed.

End Updates.

(** ** Specifications of the operations *)
Lemma alloc_scan_spec n ix b o :
  bitmap_ok b → 0 ≤ ix → ix + Z.of_nat n = Z.of_nat (length (v b)) →
  (∀ j, 0 ≤ j < 8 * ix → bit (v b) j = true) →
  wp (alloc_scan n ix) (λ r b' o', o' = o ∧
    match r with
    | inr i => 0 ≤ i < nbits b ∧ bit (v b) i = false ∧ (∀ j, 0 ≤ j < i → bit (v b) j = true) ∧
               bitmap_ok b' ∧ nbits b' = nbits b ∧
               ∀ j, 0 ≤ j → bit (v b') j = if j =? i then true else bit (v b) j
    | inl e => e = ENOSPC ∧ b' = b ∧ ∀ j, 0 ≤ j < nbits b → bit (v b) j = true
    end) b o.
Proof.
  intros Hok. pose proof Hok as [Hnb Hlen Hbytes Hleft].
  revert ix. induction n as [|n IH]; intros ix Hix Hn Hlow; cbn [alloc_scan].
  { wp_run. split_and!; [done..|]. intros j Hj. apply Hlow. split; [lia|].
    pose proof (Z.div_mod (nbits b + 7) 8). pose proof (Z.mod_pos_bound (nbits b + 7) 8). lia. }
  wp_run. destruct (proj2 (zlookup_is_Some (v b) ix)) as [w Hw]; [lia|].
  eapply wp_deref_lookup; [done|]. pose proof (Hbytes _ _ Hw) as Hwr.
  assert (∀ k, 0 ≤ k < 8 → bit (v b) (ix * 8 + k) = Z.testbit w k) as Hbw.
  { intros k Hk. rewrite (bit_lookup _ _ w).
    - f_equal. rewrite Z.add_comm, Z.mod_add, Z.mod_small; lia.
    - rewrite Z.add_comm, Z.div_add, Z.div_small by lia. by rewrite Z.add_0_l. }
  pose proof (alloc_bit_spec 8 0 w ltac:(lia) ltac:(done)) as Hab.
  destruct (Z.eqb_spec w WORD_ALLBITS) as [->|Hnf]; simpl negb; cbv iota.
  - apply IH; [lia..|]. intros j Hj. destruct (decide (j < 8 * ix)); [apply Hlow; lia|].
    replace j with (ix * 8 + (j - ix * 8)) by lia. rewrite Hbw by lia.
    change WORD_ALLBITS with (Z.ones 8). apply Z.ones_spec_low. lia.
  - destruct (alloc_bit 8 0 w) as [k|]; [|by destruct Hnf; apply full_byte].
    destruct Hab as (Hk & Hclear & Hset).
    assert (ix * 8 + k < nbits b) as Hin.
    { destruct (decide (ix * 8 + k < nbits b)); [done|].
      rewrite <- Hbw, Hleft in Hclear by lia. done. }
    destruct (zinsert ix (Z.lor w (bitmap_mask k)) (v b)) as [vs'|] eqn:Hins.
    2: { rewrite zinsert_ok in Hins by lia. done. }
    assert (u32 (u32 (ix * BITS_PER_WORD) + k) = ix * 8 + k) as ->.
    { unfold BITS_PER_WORD. rewrite (u32_small (ix * 8)) by lia. apply u32_small. lia. }
    assert ((ix * 8 + k) / 8 = ix ∧ (ix * 8 + k) mod 8 = k) as [Hdiv Hmod].
    { rewrite Z.add_comm, Z.div_add, Z.mod_add, Z.div_small, Z.mod_small; lia. }
    destruct (bitmap_update b Hok (ix * 8 + k) (Z.lor w (bitmap_mask k)) vs' true) as [Hok' Hbit].
    + lia.
    + by rewrite Hdiv.
    + by apply set_byte_range.
    + intros w0 j Hw0 Hj. rewrite Hmod. rewrite Hdiv, Hw in Hw0. injection Hw0 as <-. rewrite set_byte_bit by lia. by destruct (j =? k).
    + wp_run. split; [done|]. rewrite <- Hbw in Hclear by done.
      split_and!; [lia..|done| |done|done|done].
      intros j Hj. destruct (decide (j < 8 * ix)); [apply Hlow; lia|].
      replace j with (ix * 8 + (j - ix * 8)) by lia. rewrite Hbw by lia. apply Hset. lia.
Qed.

Lemma bitmap_alloc_spec b o :
  bitmap_ok b →
  wp bitmap_alloc (λ r b' o', o' = o ∧
    match r with
    | inr i => 0 ≤ i < nbits b ∧ bit (v b) i = false ∧ (∀ j, 0 ≤ j < i → bit (v b) j = true) ∧
               bitmap_ok b' ∧ nbits b' = nbits b ∧
               ∀ j, 0 ≤ j → bit (v b') j = if j =? i then true else bit (v b) j
    | inl e => e = ENOSPC ∧ b' = b ∧ ∀ j, 0 ≤ j < nbits b → bit (v b) j = true
    end) b o.
Proof.
  intros Hok. unfold bitmap_alloc. wp_run. rewrite bitmap_words_ok, Nat2Z.id by done.
  apply alloc_scan_spec; [done|lia..].
Qed.

Lemma bitmap_mark_spec b index o :
  bitmap_ok b → 0 ≤ index < nbits b → bit (v b) index = false →
  wp (bitmap_mark index) (λ _ b' o', o' = o ∧ bitmap_ok b' ∧ nbits b' = nbits b ∧
    ∀ j, 0 ≤ j → bit (v b') j = if j =? index then true else bit (v b) j) b o.
Proof.
  intros Hok Hi Hf. destruct (bitmap_byte b Hok index Hi) as (w & Hw & Hwr & Hbit & Hix).
  unfold bitmap_mark, bitmap_translate, BITS_PER_WORD. wp_run.
  pose proof (Z.mod_pos_bound index 8).
  eapply wp_deref_lookup; [done|]. wp_step. wp_step; [rewrite land_mask, <- Hbit, Hf by lia; done|].
  destruct (zinsert _ _ (v b)) as [vs'|] eqn:Hins; [|rewrite zinsert_ok in Hins by lia; done].
  wp_run. edestruct (bitmap_update b Hok index) as [Hok' Hb]; [done|exact Hins| | |kdone].
  - by apply set_byte_range; [|lia].
  - intros w0 j Hw0 Hj. rewrite set_byte_bit by lia.
    assert (w0 = w) as -> by congruence. by destruct (j =? index mod 8).
Qed.

Lemma bitmap_unmark_spec b index o :
  bitmap_ok b → 0 ≤ index < nbits b → bit (v b) index = true →
  wp (bitmap_unmark index) (λ _ b' o', o' = o ∧ bitmap_ok b' ∧ nbits b' = nbits b ∧
    ∀ j, 0 ≤ j → bit (v b') j = if j =? index then false else bit (v b) j) b o.
Proof.
  intros Hok Hi Hf. destruct (bitmap_byte b Hok index Hi) as (w & Hw & Hwr & Hbit & Hix).
  unfold bitmap_unmark, bitmap_translate, BITS_PER_WORD. wp_run.
  pose proof (Z.mod_pos_bound index 8).
  eapply wp_deref_lookup; [done|]. wp_step. wp_step; [rewrite land_mask, <- Hbit, Hf by lia; done|].
  destruct (zinsert _ _ (v b)) as [vs'|] eqn:Hins; [|rewrite zinsert_ok in Hins by lia; done].
  wp_run. edestruct (bitmap_update b Hok index) as [Hok' Hb]; [done|exact Hins| | |kdone].
  - apply Z.mod_pos_bound. lia.
  - intros w0 j Hw0 Hj. rewrite clear_byte_bit by lia.
    assert (w0 = w) as -> by congruence. by destruct (j =? index mod 8).
Qed.

Lemma bitmap_isset_spec b index o :
  bitmap_ok b → 0 ≤ index < nbits b →
  wp (bitmap_isset index) (λ r b' o', o' = o ∧ b' = b ∧ (r =? 0) = negb (bit (v b) index)) b o.
Proof.
  intros Hok Hi. destruct (bitmap_byte b Hok index Hi) as (w & Hw & Hwr & Hbit & Hix).
  unfold bitmap_isset, bitmap_translate, BITS_PER_WORD. wp_run.
  pose proof (Z.mod_pos_bound index 8).
  eapply wp_deref_lookup; [done|]. wp_run. rewrite land_mask, Hbit by lia. done.
Qed.

Lemma mark_leftover_spec {S} n j ix vs (s : S) o :
  0 ≤ j → j + Z.of_nat n = 8 → 0 ≤ ix < Z.of_nat (length vs) →
  (∀ i w, zlookup vs i = Some w → 0 ≤ w < 256) →
  wp (mark_leftover n j ix vs) (λ vs' s' o', s' = s ∧ o' = o ∧ length vs' = length vs ∧
    (∀ i w, zlookup vs' i = Some w → 0 ≤ w < 256) ∧
    ∀ i, bit vs' i = ((i / 8 =? ix) && (j <=? i mod 8)) || bit vs i) s o.
Proof.
  revert j vs. induction n as [|n IH]; intros j vs Hj Hn Hix Hb; simpl.
  { wp_run. split_and!; [done..|]. intros i. pose proof (Z.mod_pos_bound i 8).
    destruct (Z.leb_spec j (i mod 8)); [lia|]. by rewrite andb_false_r. }
  destruct (proj2 (zlookup_is_Some vs ix) Hix) as [w Hw]. wp_step.
  eapply wp_deref_lookup; [done|]. pose proof (Hb _ _ Hw) as Hwr.
  destruct (zinsert _ _ vs) as [vs'|] eqn:Hins; [|rewrite zinsert_ok in Hins by lia; done].
  wp_run. pose proof Hins as [_ Hvs']%zinsert_Some.
  assert (length vs' = length vs) as Hl by (subst; apply length_insert).
  eapply wp_mono; [apply IH; try lia|].
  { eapply bytes_insert; eauto. apply set_byte_range; lia. }
  intros vs'' s' o' (-> & -> & Hl' & Hb' & Hbit).
  split_and!; [done..|congruence|done|]. intros i. pose proof (Z.mod_pos_bound i 8).
  rewrite Hbit, (bit_insert _ _ _ _ _ Hins).
  destruct (Z.eqb_spec (i / 8) ix) as [He|]; simpl; [|done].
  rewrite set_byte_bit, <- (bit_lookup vs i) by (congruence || lia).
  destruct (Z.leb_spec (j + 1) (i mod 8)), (Z.leb_spec j (i mod 8)), (Z.eqb_spec (i mod 8) j);
    done || lia.
Qed.

Lemma bit_zero n i : bit (replicate n 0) i = false.
Proof.
  unfold bit. destruct (zlookup _ _) as [w|] eqn:Hw; [|done].
  apply zlookup_Some in Hw as [_ Hw]. apply lookup_replicate in Hw as [-> _]. apply Z.bits_0.
Qed.

Lemma zero_bytes n i w : zlookup (replicate n 0) i = Some w → 0 ≤ w < 256.
Proof. intros [_ Hw]%zlookup_Some. apply lookup_replicate in Hw as [-> _]. lia. Qed.

(** ** Properties *)

(** [bitmap_create] returns a well-formed bitmap of [nbits] clear bits
    whose leftover bits in the last byte are in use, so that they are never
    handed out; it returns [NULL] only when an allocation fails, and its
    assertions never fire. *)
Theorem bitmap_create_ok {S} (n : Z) (s : S) (o : oracle) :
  0 ≤ n < 2 ^ 32 - 8 →
  wp (bitmap_create n) (λ r s' _, s' = s ∧
    match r with
    | Some b => bitmap_ok b ∧ nbits b = n ∧ ∀ i, 0 ≤ i < n → bit (v b) i = false
    | None => fails o ∨ fails (tail o)
    end) s o.
Proof.
  intros Hn. unfold bitmap_create. wp_run.
  destruct (default true (head o)) eqn:H1; simpl; [|wp_run; apply fails_iff in H1; kdone].
  wp_run. destruct (default true (head (tail o))) eqn:H2; simpl; [|wp_run; apply fails_iff in H2; kdone].
  pose proof (Z.div_mod n 8) as Hdm. pose proof (Z.mod_pos_bound n 8) as Hmb.
  pose proof (Z.div_mod (n + 7) 8) as Hdm7. pose proof (Z.mod_pos_bound (n + 7) 8) as Hmb7.
  assert (bitmap_words n = (n + 7) / 8) as Hwords.
  { unfold bitmap_words, BITS_PER_WORD. rewrite (u32_small (n + 8)), u32_small by lia. f_equal. lia. }
  rewrite Hwords. unfold BITS_PER_WORD in *.
  destruct (Z.ltb_spec (n / 8) ((n + 7) / 8)).
  - assert ((n + 7) / 8 = n / 8 + 1) as Hw1 by lia. rewrite Hw1, !(u32_small (_ - 1)) by lia.
    replace (n / 8 + 1 - 1) with (n / 8) by lia.
    rewrite (u32_small (n / 8 * 8)) by lia. rewrite (u32_small (n - _)) by lia.
    replace (n - n / 8 * 8) with (n mod 8) by lia. wp_run.
    eapply wp_mono; [apply mark_leftover_spec; rewrite ?length_replicate; try lia; apply zero_bytes|].
    intros vs' s' o' (-> & -> & Hl & Hb & Hbit). wp_run. rewrite length_replicate in Hl.
    split; [done|]. split_and!; [split|done|]; simpl.
    + lia.
    + lia.
    + done.
    + intros i Hi. rewrite Hbit. pose proof (Z.div_mod i 8). pose proof (Z.mod_pos_bound i 8).
      destruct (Z.eqb_spec (i / 8) (n / 8)), (Z.leb_spec (n mod 8) (i mod 8)); simpl; done || nia.
    + intros i Hi. rewrite Hbit, bit_zero. pose proof (Z.div_mod i 8). pose proof (Z.mod_pos_bound i 8).
      destruct (Z.eqb_spec (i / 8) (n / 8)), (Z.leb_spec (n mod 8) (i mod 8)); simpl; done || nia.
  - wp_run. split; [done|]. split_and!; [split|done|]; simpl.
    + lia.
    + rewrite length_replicate. lia.
    + apply zero_bytes.
    + rewrite length_replicate. lia.
    + intros. apply bit_zero.
Qed.

Lemma bitmap_create_ok_witness :
  0 ≤ 13 < 2 ^ 32 - 8 ∧
  wp (bitmap_create 13) (λ r s' _, s' = tt ∧
    match r with
    | Some b => bitmap_ok b ∧ nbits b = 13 ∧ ∀ i, 0 ≤ i < 13 → bit (v b) i = false
    | None => fails [] ∨ fails (tail [])
    end) tt [].
Proof.
  assert (0 ≤ 13 < 2 ^ 32 - 8) as H by lia.
  split; [exact H|]. exact (bitmap_create_ok 13 tt [] H).
Defined.

Lemma bitmap_ext b b' :
  bitmap_ok b → bitmap_ok b' → nbits b = nbits b' →
  (∀ i, 0 ≤ i → bit (v b) i = bit (v b') i) → b = b'.
Proof.
  intros Hok Hok' Hn Hbits. destruct b as [n vs], b' as [n' vs']; simpl in *. subst n'. f_equal.
  destruct Hok, Hok'; simpl in *.
  apply list_eq_same_length with (n := length vs); [lia|lia|].
  intros i w w' Hi Hw Hw'.
  assert (zlookup vs (Z.of_nat i) = Some w) as Hz by by rewrite zlookup_nat.
  assert (zlookup vs' (Z.of_nat i) = Some w') as Hz' by by rewrite zlookup_nat.
  apply ok_bytes0 in Hz as Hr. apply ok_bytes1 in Hz' as Hr'.
  apply Z.bits_inj'. intros j Hj. destruct (decide (j < 8)); [|by rewrite !byte_high by lia].
  assert ((Z.of_nat i * 8 + j) / 8 = Z.of_nat i ∧ (Z.of_nat i * 8 + j) mod 8 = j) as [Hd Hm].
  { rewrite Z.add_comm, Z.div_add, Z.mod_add, Z.div_small, Z.mod_small; lia. }
  specialize (Hbits (Z.of_nat i * 8 + j) ltac:(lia)).
  rewrite (bit_lookup vs _ w), (bit_lookup vs' _ w'), Hm in Hbits by (by rewrite Hd). done.
Qed.

(** [bitmap_alloc] hands out the lowest clear bit, marks it and no other,
    and reports [ENOSPC] exactly when every bit is in use; the assertion
    [index < nbits] and the [assert(0)] after the inner loop never fire. *)
Theorem bitmap_alloc_lowest (b : bitmap) (o : oracle) :
  bitmap_ok b →
  wp bitmap_alloc (λ r b' _, bitmap_ok b' ∧ nbits b' = nbits b ∧
    match r with
    | inr i => 0 ≤ i < nbits b ∧ bit (v b) i = false ∧ bit (v b') i = true ∧
               (∀ j, 0 ≤ j < i → bit (v b) j = true) ∧
               (∀ j, 0 ≤ j → j ≠ i → bit (v b') j = bit (v b) j)
    | inl e => e = ENOSPC ∧ b' = b ∧ ∀ j, 0 ≤ j < nbits b → bit (v b) j = true
    end) b o.
Proof.
  intros Hok. wp_call bitmap_alloc_spec; [done|].
  intros [e|i] b' o' [-> H].
  - destruct H as (-> & -> & Hall). done.
  - destruct H as (Hi & Hf & Hlow & Hok' & Hn & Hbit). split_and!; try done || lia.
    + rewrite Hbit, Z.eqb_refl by lia. done.
    + intros j Hj Hne. rewrite Hbit, (proj2 (Z.eqb_neq _ _)) by lia. done.
Qed.

Lemma small_bitmap_ok : bitmap_ok (mkBitmap 13 [255; 237]).
Proof.
  split; simpl; [lia|done|..].
  - intros i w [Hi Hw]%zlookup_Some. destruct (Z.to_nat i) as [|[|]]; simplify_eq/=; lia.
  - intros i Hi. assert (i = 13 ∨ i = 14 ∨ i = 15) as [-> | [-> | ->]] by lia; done.
Qed.

Lemma bitmap_alloc_lowest_witness :
  let b := mkBitmap 13 [255; 237] in
  bitmap_ok b ∧
  wp bitmap_alloc (λ r b' _, bitmap_ok b' ∧ nbits b' = nbits b ∧
    match r with
    | inr i => 0 ≤ i < nbits b ∧ bit (v b) i = false ∧ bit (v b') i = true ∧
               (∀ j, 0 ≤ j < i → bit (v b) j = true) ∧
               (∀ j, 0 ≤ j → j ≠ i → bit (v b') j = bit (v b) j)
    | inl e => e = ENOSPC ∧ b' = b ∧ ∀ j, 0 ≤ j < nbits b → bit (v b) j = true
    end) b [].
Proof.
  intros b. split; [exact small_bitmap_ok|].
  exact (bitmap_alloc_lowest b [] small_bitmap_ok).
Defined.

(** freeing what [bitmap_alloc] returned gives back the same bitmap, byte
    for byte, without tripping the assertion of [bitmap_unmark]. *)
Theorem bitmap_alloc_unmark (b : bitmap) (o : oracle) :
  bitmap_ok b → (∃ i, 0 ≤ i < nbits b ∧ bit (v b) i = false) →
  wp (r <- bitmap_alloc;
      match r with inr i => bitmap_unmark i | inl _ => panic end)
     (λ _ b' _, b' = b) b o.
Proof.
  intros Hok (i0 & Hi0 & Hf0). wp_step. wp_call bitmap_alloc_spec; [done|].
  intros [e|i] b' o' [-> H].
  { destruct H as (_ & _ & Hall). by rewrite Hall in Hf0. }
  destruct H as (Hi & Hf & _ & Hok' & Hn & Hbit).
  wp_call bitmap_unmark_spec; [done|lia| |].
  { by rewrite Hbit, Z.eqb_refl by lia. }
  intros _ b'' o'' (-> & Hok'' & Hn' & Hbit'). apply bitmap_ext; [done..|congruence|].
  intros j Hj. rewrite Hbit', Hbit by lia. by destruct (Z.eqb_spec j i) as [->|].
Qed.

Lemma bitmap_alloc_unmark_witness :
  let b := mkBitmap 13 [255; 237] in
  bitmap_ok b ∧ (∃ i, 0 ≤ i < nbits b ∧ bit (v b) i = false) ∧
  wp (r <- bitmap_alloc;
      match r with inr i => bitmap_unmark i | inl _ => panic end)
     (λ _ b' _, b' = b) b [].
Proof.
  intros b. assert (∃ i, 0 ≤ i < nbits b ∧ bit (v b) i = false) as He.
  { exists 9. split; [simpl; lia|reflexivity]. }
  split; [exact small_bitmap_ok|]. split; [exact He|].
  exact (bitmap_alloc_unmark b [] small_bitmap_ok He).
Defined.
