(* ===== verification/LinkedList.v ===== *)
(** * Linked lists of pointers, src/kern/lib/linkedlist.c

    The nodes live in a heap of their own, which only the list reaches; a
    node that is freed leaves the heap, so that a use after free, a double
    free and a leak are visible. *)
From S2P Require Import Prelude.

Abbreviation loc := positive.

Record node (V : Type) : Type := mkNode {
  ndata : V;
  next : option loc;
}.
Arguments mkNode {V} _ _.
Arguments ndata {V} _.
Arguments next {V} _.

(** [struct linkedlist] with its nodes. *)
Record linkedlist (V : Type) : Type := mkLL {
  nodes : gmap loc (node V);
  head : option loc;
  tail : option loc;
  size : Z;
}.
Arguments mkLL {V} _ _ _ _.
Arguments nodes {V} _.
Arguments head {V} _.
Arguments tail {V} _.
Arguments size {V} _.

Section LinkedList.
  Context {V : Type}.
  Implicit Types (ll : linkedlist V) (h : gmap loc (node V)) (xs : list V).

(** ** Memory *)

(** [*n], [n] a pointer to a node *)
Definition load (n : option loc) : K (linkedlist V) (node V) :=
  ll <- kget;
  l <- deref n;
  deref (nodes ll !! l).
(** [*n = x] *)
Definition store_node (n : option loc) (x : node V) : K (linkedlist V) unit :=
  ll <- kget;
  l <- deref n;
  _ <- deref (nodes ll !! l);
  kput (mkLL (<[l := x]> (nodes ll)) (head ll) (tail ll) (size ll)).
Definition set_head (p : option loc) : K (linkedlist V) unit :=
  modify (λ ll, mkLL (nodes ll) p (tail ll) (size ll)).
Definition set_tail (p : option loc) : K (linkedlist V) unit :=
  modify (λ ll, mkLL (nodes ll) (head ll) p (size ll)).
Definition set_size (n : Z) : K (linkedlist V) unit :=
  modify (λ ll, mkLL (nodes ll) (head ll) (tail ll) n).
(** [kfree(n)] *)
Definition kfree_node (n : option loc) : K (linkedlist V) unit :=
  ll <- kget;
  l <- deref n;
  _ <- deref (nodes ll !! l);
  kput (mkLL (delete l (nodes ll)) (head ll) (tail ll) (size ll)).

(** ** Operations *)
Definition n_create (data : V) (nxt : option loc) : K (linkedlist V) (option loc) :=
  ok <- kmalloc_ok;
  if negb ok then ret None
  else
    ll <- kget;
    let l := fresh (dom (nodes ll)) in
    _ <- kput (mkLL (<[l := mkNode data nxt]> (nodes ll)) (head ll) (tail ll) (size ll));
    ret (Some l).

Definition n_destroy (n : option loc) : K (linkedlist V) unit :=
  _ <- kassert (bool_decide (n ≠ None));
  kfree_node n.

Definition ll_create {S} : K S (option (linkedlist V)) :=
  ok <- kmalloc_ok;
  ret (if ok then Some (mkLL ∅ None None 0) else None).

Definition ll_empty : K (linkedlist V) bool := gets (λ ll, size ll =? 0).
Definition ll_size : K (linkedlist V) Z := gets size.

(** [while (curr != NULL) { tmp = curr; curr = curr->next; kfree(tmp); }] *)
Fixpoint free_nodes (fuel : nat) (curr : option loc) : K (linkedlist V) unit :=
  match curr with
  | None => ret tt
  | Some _ =>
      match fuel with
      | O => halt Spin
      | Datatypes.S fuel' =>
          n <- load curr;
          _ <- kfree_node curr;
          free_nodes fuel' (next n)
      end
  end.

Definition ll_destroy : K (linkedlist V) unit :=
  e <- ll_empty;
  if negb e then
    ll <- kget;
    _ <- kassert (bool_decide (head ll ≠ None));
    free_nodes (Datatypes.S (base.size (nodes ll))) (head ll)
  else ret tt.

Definition ll_push_front (ptr : V) : K (linkedlist V) Z :=
  n <- n_create ptr None;
  match n with
  | None => ret (-1)
  | Some _ =>
      ll <- kget;
      _ <- (match head ll with
            | None => _ <- set_head n; set_tail n
            | Some _ =>
                nd <- load n;
                _ <- store_node n (mkNode (ndata nd) (head ll));
                set_head n
            end);
      ll <- kget;
      _ <- set_size (s32 (size ll + 1));
      ret 0
  end.

Definition ll_push_back (ptr : V) : K (linkedlist V) Z :=
  n <- n_create ptr None;
  match n with
  | None => ret (-1)
  | Some _ =>
      ll <- kget;
      _ <- (match head ll with
            | None => _ <- set_head n; set_tail n
            | Some _ =>
                nd <- load (tail ll);
                _ <- store_node (tail ll) (mkNode (ndata nd) n);
                set_tail n
            end);
      ll <- kget;
      _ <- set_size (s32 (size ll + 1));
      ret 0
  end.

Definition ll_pop_front : K (linkedlist V) V :=
  e <- ll_empty;
  _ <- kassert (negb e);
  ll <- kget;
  let n := head ll in
  nd <- load n;
  _ <- set_head (next nd);
  _ <- (match next nd with None => set_tail None | Some _ => ret tt end);
  nd <- load n;
  _ <- n_destroy n;
  ll <- kget;
  _ <- set_size (s32 (size ll - 1));
  ret (ndata nd).

(** [while (curr->next != ll->tail) curr = curr->next;] *)
Fixpoint find_prev (fuel : nat) (curr : option loc) : K (linkedlist V) (option loc) :=
  nd <- load curr;
  ll <- kget;
  if bool_decide (next nd = tail ll) then ret curr
  else
    match fuel with
    | O => halt Spin
    | Datatypes.S fuel' => find_prev fuel' (next nd)
    end.

Definition ll_pop_back : K (linkedlist V) V :=
  e <- ll_empty;
  _ <- kassert (negb e);
  ll <- kget;
  if bool_decide (head ll = tail ll) then
    nd <- load (tail ll);
    _ <- n_destroy (tail ll);
    _ <- set_head None;
    _ <- set_tail None;
    _ <- set_size 0;
    ret (ndata nd)
  else
    curr <- find_prev (base.size (nodes ll)) (head ll);
    cd <- load curr;
    let n := next cd in
    _ <- store_node curr (mkNode (ndata cd) None);
    _ <- set_tail curr;
    nd <- load n;
    _ <- n_destroy n;
    ll <- kget;
    _ <- set_size (s32 (size ll - 1));
    ret (ndata nd).

Definition ll_front : K (linkedlist V) (option V) :=
  e <- ll_empty;
  if e then ret None
  else ll <- kget; nd <- load (head ll); ret (Some (ndata nd)).

Definition ll_back : K (linkedlist V) (option V) :=
  e <- ll_empty;
  if e then ret None
  else ll <- kget; nd <- load (tail ll); ret (Some (ndata nd)).

(** [while (curr != NULL) { ...; ll_push_back(new_ll, tmp->data); }]; the
    result of [ll_push_back] is not looked at. *)
Fixpoint copy_nodes (fuel : nat) (curr : option loc) (new_ll : linkedlist V) :
    K (linkedlist V) (linkedlist V) :=
  match curr with
  | None => ret new_ll
  | Some _ =>
      match fuel with
      | O => halt Spin
      | Datatypes.S fuel' =>
          nd <- load curr;
          '(_, new_ll') <- run_on (ll_push_back (ndata nd)) new_ll;
          copy_nodes fuel' (next nd) new_ll'
      end
  end.

Definition ll_copy : K (linkedlist V) (option (linkedlist V)) :=
  new_ll <- ll_create;
  match new_ll with
  | None => ret None
  | Some n =>
      ll <- kget;
      n' <- copy_nodes (Datatypes.S (base.size (nodes ll))) (head ll) n;
      ret (Some n')
  end.

(** ** Representation

    [lseg h p ns q]: following [next] from [p] visits the nodes [ns] (their
    addresses and data) and ends at [q].  [ll_rep ll xs]: the list holds
    [xs], its last node is [tail], and the heap holds its nodes and nothing
    else. *)
Fixpoint lseg (h : gmap loc (node V)) (p : option loc) (ns : list (loc * V)) (q : option loc) : Prop :=
  match ns with
  | [] => p = q
  | (l, x) :: ns' => p = Some l ∧ ∃ n, h !! l = Some (mkNode x n) ∧ lseg h n ns' q
  end.

Definition ll_nodes (ll : linkedlist V) (ns : list (loc * V)) : Prop :=
  lseg (nodes ll) (head ll) ns None ∧ NoDup ns.*1 ∧ dom (nodes ll) = list_to_set ns.*1 ∧
  tail ll = last ns.*1 ∧ size ll = Z.of_nat (length ns).
Definition ll_rep (ll : linkedlist V) (xs : list V) : Prop :=
  ∃ ns, ll_nodes ll ns ∧ xs = ns.*2.

(** ** Chains *)
Lemma lseg_app h p ns1 ns2 q :
  lseg h p (ns1 ++ ns2) q ↔ ∃ r, lseg h p ns1 r ∧ lseg h r ns2 q.
Proof.
  revert p. induction ns1 as [|[l x] ns1 IH]; intros p; simpl; [naive_solver|].
  setoid_rewrite IH. naive_solver.
Qed.
Lemma lseg_ext h h' p ns q :
  (∀ l, l ∈ ns.*1 → h' !! l = h !! l) → lseg h p ns q → lseg h' p ns q.
Proof.
  revert p. induction ns as [|[l x] ns IH]; intros p Heq; simpl; [done|].
  intros (-> & n & Hl & Hseg). split; [done|]. exists n.
  rewrite Heq by (simpl; set_solver). split; [done|]. apply IH; [|done].
  intros l' Hl'. apply Heq. simpl. set_solver.
Qed.
Lemma lseg_insert h p ns q l nd :
  l ∉ ns.*1 → lseg h p ns q → lseg (<[l := nd]> h) p ns q.
Proof. intros Hl. apply lseg_ext. intros l' Hl'. apply lookup_insert_ne. set_solver. Qed.
Lemma lseg_delete h p ns q l :
  l ∉ ns.*1 → lseg h p ns q → lseg (delete l h) p ns q.
Proof. intros Hl. apply lseg_ext. intros l' Hl'. apply lookup_delete_ne. set_solver. Qed.
Lemma lseg_head h p ns q : lseg h p ns q → p = match ns with [] => q | (l, _) :: _ => Some l end.
Proof. destruct ns as [|[l x] ns]; simpl; naive_solver. Qed.
Lemma lseg_end h p ns l x q : lseg h p (ns ++ [(l, x)]) q → h !! l = Some (mkNode x q).
Proof. rewrite lseg_app. simpl. naive_solver. Qed.

Lemma ll_nodes_size ll ns : ll_nodes ll ns → base.size (nodes ll) = length ns.
Proof.
  intros (_ & Hnd & Hdom & _). rewrite <- size_dom, Hdom, size_list_to_set by done.
  apply length_fmap.
Qed.
Lemma ll_nodes_empty ll ns : ll_nodes ll ns → (size ll =? 0) = bool_decide (ns = []).
Proof.
  intros (_ & _ & _ & _ & ->). case_bool_decide; subst; [done|].
  destruct ns; [done|]. apply Z.eqb_neq. simpl. lia.
Qed.

Lemma wp_load_node ll l nd (Q : node V → linkedlist V → oracle → Prop) o :
  nodes ll !! l = Some nd → Q nd ll o → wp (load (Some l)) Q ll o.
Proof. intros Hl HQ. unfold load. wp_run. apply wp_deref. eauto. Qed.
Lemma wp_store_node ll l nd nd' (Q : unit → linkedlist V → oracle → Prop) o :
  nodes ll !! l = Some nd' →
  Q tt (mkLL (<[l := nd]> (nodes ll)) (head ll) (tail ll) (size ll)) o →
  wp (store_node (Some l) nd) Q ll o.
Proof. intros Hl HQ. unfold store_node. wp_run. rewrite Hl. by wp_run. Qed.
Lemma wp_kfree_node ll l nd (Q : unit → linkedlist V → oracle → Prop) o :
  nodes ll !! l = Some nd →
  Q tt (mkLL (delete l (nodes ll)) (head ll) (tail ll) (size ll)) o →
  wp (kfree_node (Some l)) Q ll o.
Proof. intros Hl HQ. unfold kfree_node. wp_run. rewrite Hl. by wp_run. Qed.
Lemma wp_n_destroy ll l nd (Q : unit → linkedlist V → oracle → Prop) o :
  nodes ll !! l = Some nd →
  Q tt (mkLL (delete l (nodes ll)) (head ll) (tail ll) (size ll)) o →
  wp (n_destroy (Some l)) Q ll o.
Proof. intros Hl HQ. unfold n_destroy. wp_run. by eapply wp_kfree_node. Qed.

(** ** Specifications of the operations *)
Lemma ll_push_back_spec ll xs x o :
  ll_rep ll xs → Z.of_nat (length xs) < 2 ^ 31 - 1 →
  wp (ll_push_back x) (λ r ll' o', o' = list.tail o ∧
    ((r = 0 ∧ ¬ fails o ∧ ll_rep ll' (xs ++ [x])) ∨ (r = -1 ∧ fails o ∧ ll' = ll))) ll o.
Proof.
  intros (ns & Hns & ->) Hlen. rewrite length_fmap in Hlen.
  unfold ll_push_back, n_create. wp_run.
  destruct (default true (list.head o)) eqn:Hok; simpl; wp_run.
  2: { apply fails_iff in Hok. split; [done|]. right. kdone. }
  apply not_fails_iff in Hok. cbn [head tail nodes size].
  set (l := fresh (dom (nodes ll))).
  assert (l ∉ dom (nodes ll)) as Hl by apply is_fresh.
  destruct Hns as (Hseg & Hnd & Hdom & Htail & Hsize). rewrite Hdom in Hl.
  assert (l ∉ ns.*1) as Hl' by set_solver.
  unfold set_head, set_tail, set_size.
  destruct (decide (ns = [])) as [->|Hne].
  - simpl in *. rewrite Hseg. wp_run. split; [done|]. left. split_and!; [done..|].
    exists [(l, x)]. split; [|done]. rewrite Hsize.
    repeat split; simpl; try done.
    + exists None. by rewrite lookup_insert_eq.
    + apply NoDup_singleton.
    + rewrite dom_insert_L, Hdom. set_solver.
  - destruct ns as [|[t y] ns _] using rev_ind; [done|]. clear Hne.
    assert (tail ll = Some t) as Ht by (rewrite Htail, fmap_app; apply last_snoc).
    assert (∃ hd, head ll = Some hd) as [hd Hhd].
    { apply lseg_head in Hseg. rewrite Hseg. destruct ns as [|[??]]; simpl; eauto. }
    rewrite Hhd, Ht. pose proof (lseg_end _ _ _ _ _ _ Hseg) as Hlk.
    rewrite fmap_app in Hnd, Hdom, Hl'. simpl in Hnd, Hdom, Hl'.
    pose proof Hnd as (Hnd1 & Hnd2 & _)%NoDup_app.
    assert ((t ≠ l) ∧ (l ∉ ns.*1) ∧ (t ∉ ns.*1)) as (Hne & Hln & Htn) by set_solver.
    wp_step. eapply wp_load_node; [simpl; by rewrite lookup_insert_ne|].
    wp_step. eapply wp_store_node; [simpl; by rewrite lookup_insert_ne|]. simpl. wp_run.
    split; [done|]. left. split_and!; [done..|].
    exists ((ns ++ [(t, y)]) ++ [(l, x)]). rewrite !fmap_app. split; [|done].
    apply lseg_app in Hseg as (r & Hseg & Hr). simpl in Hr. destruct Hr as [-> _].
    repeat split; simpl.
    + rewrite lseg_app. exists (Some l). rewrite lseg_app. split.
      * exists (Some t). split; [by apply lseg_insert, lseg_insert; rewrite ?Hhd in *|].
        simpl. split; [done|]. exists (Some l). by rewrite lookup_insert_eq.
      * simpl. split; [done|]. exists None. split; [|done].
        by rewrite lookup_insert_ne, lookup_insert_eq.
    + rewrite !fmap_app. simpl. apply NoDup_app. split_and!; [done|set_solver|apply NoDup_singleton].
    + rewrite !dom_insert_L, Hdom, !fmap_app. simpl. set_solver.
    + rewrite !fmap_app. symmetry. apply last_snoc.
    + rewrite Hsize, s32_small; rewrite !length_app in *; simpl in *; lia.
Qed.

Lemma ll_push_front_spec ll xs x o :
  ll_rep ll xs → Z.of_nat (length xs) < 2 ^ 31 - 1 →
  wp (ll_push_front x) (λ r ll' o', o' = list.tail o ∧
    ((r = 0 ∧ ¬ fails o ∧ ll_rep ll' (x :: xs)) ∨ (r = -1 ∧ fails o ∧ ll' = ll))) ll o.
Proof.
  intros (ns & (Hseg & Hnd & Hdom & Htail & Hsize) & ->) Hlen. rewrite length_fmap in Hlen.
  unfold ll_push_front, n_create. wp_run.
  destruct (default true (list.head o)) eqn:Hok; simpl; wp_run.
  2: { apply fails_iff in Hok. split; [done|]. right. kdone. }
  apply not_fails_iff in Hok. cbn [head tail nodes size].
  set (l := fresh (dom (nodes ll))).
  assert (l ∉ dom (nodes ll)) as Hl by apply is_fresh.
  rewrite Hdom, elem_of_list_to_set in Hl.
  unfold set_head, set_tail, set_size.
  assert (NoDup (((l, x) :: ns).*1) ∧ dom (<[l:=mkNode x (head ll)]> (nodes ll)) =
    list_to_set (((l, x) :: ns).*1)) as [Hnd' Hdom'].
  { split; [by constructor|]. rewrite dom_insert_L, Hdom. set_solver. }
  pose proof (lseg_head _ _ _ _ Hseg) as Hhd. rewrite Hhd in *.
  destruct ns as [|[l' y] ns].
  - wp_run. split; [done|]. left. split_and!; [done..|].
    exists [(l, x)]. split; [|done]. rewrite Hsize. repeat split; simpl; try done.
    exists None. by rewrite lookup_insert_eq.
  - wp_step. eapply wp_load_node; [simpl; by rewrite lookup_insert_eq|]. wp_step.
    eapply wp_store_node; [simpl; by rewrite lookup_insert_eq|]. cbn [nodes tail size].
    rewrite insert_insert_eq. wp_run. split; [done|]. left. split_and!; [done..|].
    exists ((l, x) :: (l', y) :: ns). split; [|done].
    split; [|split_and!; [done|done|by simpl in *|]].
    + split; [done|]. eexists. simpl. rewrite lookup_insert_eq. split; [done|].
      by apply (lseg_insert _ _ ((l', y) :: ns)).
    + simpl in *. rewrite Hsize, s32_small; lia.
Qed.

Lemma ll_pop_front_spec ll x xs o :
  ll_rep ll (x :: xs) → Z.of_nat (length xs) < 2 ^ 31 - 1 →
  wp ll_pop_front (λ r ll' o', o' = o ∧ r = x ∧ ll_rep ll' xs) ll o.
Proof.
  intros ([|[l y] ns] & Hns & Hxs) Hlen; [done|]. simpl in Hxs. injection Hxs as -> ->.
  rewrite length_fmap in Hlen. pose proof (ll_nodes_empty _ _ Hns) as He.
  destruct Hns as ((Hhd & n & Hl & Hseg) & Hnd & Hdom & Htail & Hsize).
  unfold ll_pop_front, ll_empty, set_head, set_tail, set_size.
  wp_step. wp_step. wp_step. wp_step; [by rewrite He|]. wp_run. rewrite Hhd.
  eapply wp_load_node; [done|]. wp_run. cbn [next nodes tail size].
  rewrite fmap_cons in Hnd. apply NoDup_cons in Hnd as [Hln Hnd]. cbn [fst] in Hln.
  assert (Hrest : ∀ tl, tl = last ns.*1 → ll_nodes (mkLL (delete l (nodes ll)) n tl
    (s32 (size ll - 1))) ns).
  { intros tl ->. split_and!; simpl; [by apply lseg_delete|done| |done|].
    - rewrite dom_delete_L, Hdom. simpl. set_solver.
    - rewrite Hsize. rewrite s32_small; simpl; lia. }
  pose proof (lseg_head _ _ _ _ Hseg) as Hn.
  destruct ns as [|[l' y'] ns]; subst n.
  - wp_run. eapply wp_load_node; [done|]. wp_run. eapply wp_n_destroy; [done|]. wp_run.
    split_and!; [done..|]. exists []. split; [by apply Hrest|done].
  - wp_run. eapply wp_load_node; [done|]. wp_run. eapply wp_n_destroy; [done|]. wp_run.
    split_and!; [done..|]. eexists. split; [apply Hrest; simpl; exact Htail|done].
Qed.

Lemma find_prev_spec ll ns1 ns2 p y t z p0 fuel o :
  lseg (nodes ll) p0 (ns1 ++ (p, y) :: (t, z) :: ns2) None →
  NoDup (ns1 ++ (p, y) :: (t, z) :: ns2).*1 → tail ll = Some t → (length ns1 ≤ fuel)%nat →
  wp (find_prev fuel p0) (λ r ll' o', o' = o ∧ ll' = ll ∧ r = Some p) ll o.
Proof.
  revert p0 fuel. induction ns1 as [|[l x] ns1 IH]; intros p0 fuel Hseg Hnd Ht Hf.
  - destruct Hseg as (-> & n & Hp & -> & _).
    destruct fuel; cbn [find_prev]; wp_step; (eapply wp_load_node; [done|]); wp_run;
      rewrite bool_decide_eq_true_2 by done; wp_run; done.
  - destruct Hseg as (-> & n & Hl & Hseg). simpl in Hf. destruct fuel as [|fuel]; [lia|].
    cbn [find_prev]. wp_step. eapply wp_load_node; [done|]. wp_run.
    simpl in Hnd. apply NoDup_cons in Hnd as [_ Hnd].
    pose proof (lseg_head _ _ _ _ Hseg) as Hn.
    rewrite bool_decide_eq_false_2.
    + apply IH; [done..|lia].
    + rewrite Ht. simpl. rewrite Hn.
      destruct ns1 as [|[l' x'] ns1]; intros [= ->].
      * rewrite app_nil_l, !fmap_cons, NoDup_cons in Hnd. set_solver.
      * rewrite <- app_comm_cons, fmap_cons, NoDup_cons, fmap_app in Hnd.
        destruct Hnd as [Hnin _]. apply Hnin. simpl. set_solver.
Qed.

Lemma ll_pop_back_spec ll x xs o :
  ll_rep ll (xs ++ [x]) → Z.of_nat (length xs) < 2 ^ 31 - 1 →
  wp ll_pop_back (λ r ll' o', o' = o ∧ r = x ∧ ll_rep ll' xs) ll o.
Proof.
  intros (ns & Hns & Hxs) Hlen.
  destruct ns as [|[t z] ns _] using rev_ind; [by destruct xs|].
  rewrite fmap_app in Hxs. apply app_inj_tail in Hxs as [-> ->].
  rewrite length_fmap in Hlen. pose proof (ll_nodes_empty _ _ Hns) as He.
  pose proof (ll_nodes_size _ _ Hns) as Hsz.
  destruct Hns as (Hseg & Hnd & Hdom & Htail & Hsize).
  rewrite fmap_app in Htail. simpl in Htail. rewrite last_snoc in Htail.
  unfold ll_pop_back, ll_empty, set_head, set_tail, set_size.
  wp_step. wp_step. wp_step. wp_step.
  { rewrite He. by rewrite bool_decide_eq_false_2 by by destruct ns. }
  wp_run. destruct ns as [|[p y] ns _] using rev_ind.
  - destruct Hseg as (Hhd & n & Ht & ->). rewrite Hhd, Htail, bool_decide_eq_true_2 by done.
    wp_run. eapply wp_load_node; [done|]. wp_run. eapply wp_n_destroy; [done|]. wp_run.
    split_and!; [done..|]. exists []. split; [|done]. repeat split; simpl; try done.
    + constructor.
    + rewrite dom_delete_L, Hdom. set_solver.
  - rewrite <- app_assoc in Hseg, Hnd, Hdom. simpl in Hseg, Hnd, Hdom.
    pose proof Hnd as Hnd2. rewrite fmap_app in Hnd2. simpl in Hnd2.
    apply NoDup_app in Hnd2 as (Hnd1 & Hdis & Hpt%NoDup_cons).
    assert ((p ∉ ns.*1) ∧ (t ∉ ns.*1) ∧ (t ≠ p)) as (Hp & Ht & Htp) by set_solver.
    rewrite bool_decide_eq_false_2.
    2: { rewrite (lseg_head _ _ _ _ Hseg), Htail. intros Heq.
         destruct ns as [|[l w] ns]; simpl in *; injection Heq; set_solver. }
    wp_run. eapply wp_mono; [eapply (find_prev_spec _ ns []); try done|].
    { rewrite Hsz, !length_app. lia. }
    intros r ll' o' (-> & -> & ->). cbn beta.
    pose proof Hseg as (r' & Hs1 & (-> & n & Hlp & -> & n' & Hlt & ->))%lseg_app.
    wp_run. eapply wp_load_node; [done|]. wp_run. eapply wp_store_node; [done|]. wp_run.
    cbn [next nodes]. eapply wp_load_node; [simpl; by rewrite lookup_insert_ne|]. wp_run.
    eapply wp_n_destroy; [simpl; by rewrite lookup_insert_ne|]. wp_run.
    split_and!; [done..|]. exists (ns ++ [(p, y)]). split; [|done].
    split_and!; simpl.
    + rewrite lseg_app. exists (Some p). split.
      * by apply lseg_delete, lseg_insert.
      * split; [done|]. exists None. by rewrite lookup_delete_ne, lookup_insert_eq.
    + rewrite fmap_app. apply NoDup_app. split_and!; [done|set_solver|apply NoDup_singleton].
    + rewrite dom_delete_L, dom_insert_L, Hdom, !fmap_app. simpl. set_solver.
    + rewrite fmap_app. symmetry. apply last_snoc.
    + rewrite Hsize, s32_small; rewrite !length_app in *; simpl in *; lia.
Qed.

Lemma ll_front_spec ll xs o :
  ll_rep ll xs → wp ll_front (λ r ll' o', o' = o ∧ ll' = ll ∧ r = list.head xs) ll o.
Proof.
  intros (ns & Hns & ->). pose proof (ll_nodes_empty _ _ Hns) as He.
  unfold ll_front, ll_empty. wp_run. rewrite He.
  destruct Hns as (Hseg & _). destruct ns as [|[l x] ns]; [by wp_run|].
  destruct Hseg as (Hhd & n & Hl & _). rewrite bool_decide_eq_false_2 by done.
  wp_run. rewrite Hhd. eapply wp_load_node; [done|]. by wp_run.
Qed.

Lemma ll_back_spec ll xs o :
  ll_rep ll xs → wp ll_back (λ r ll' o', o' = o ∧ ll' = ll ∧ r = last xs) ll o.
Proof.
  intros (ns & Hns & ->). pose proof (ll_nodes_empty _ _ Hns) as He.
  unfold ll_back, ll_empty. wp_run. rewrite He.
  destruct Hns as (Hseg & _ & _ & Htail & _).
  destruct ns as [|[l x] ns _] using rev_ind; [by wp_run|].
  rewrite bool_decide_eq_false_2 by by destruct ns.
  wp_run. rewrite Htail, fmap_app. simpl. rewrite last_snoc.
  eapply wp_load_node; [by eapply lseg_end|]. wp_run. rewrite fmap_app. simpl.
  by rewrite last_snoc.
Qed.

(** Every node is freed. *)
Lemma free_nodes_spec ll ns p fuel o :
  lseg (nodes ll) p ns None → NoDup ns.*1 → dom (nodes ll) = list_to_set ns.*1 →
  (length ns ≤ fuel)%nat →
  wp (free_nodes fuel p) (λ _ ll' o', o' = o ∧ nodes ll' = ∅) ll o.
Proof.
  revert ll p fuel. induction ns as [|[l x] ns IH]; intros ll p fuel Hseg Hnd Hdom Hf.
  - simpl in Hseg. subst p. destruct fuel; simpl; wp_run; split; try done;
      by apply dom_empty_iff_L.
  - destruct Hseg as (-> & n & Hl & Hseg). simpl in Hf. destruct fuel as [|fuel]; [lia|].
    rewrite fmap_cons, NoDup_cons in Hnd. destruct Hnd as [Hnin Hnd].
    cbn [free_nodes]. wp_step. eapply wp_load_node; [done|]. wp_step.
    eapply wp_kfree_node; [done|]. apply IH; simpl; [by apply lseg_delete|done| |lia].
    rewrite dom_delete_L, Hdom. simpl. set_solver.
Qed.
Lemma ll_destroy_spec ll xs o :
  ll_rep ll xs → wp ll_destroy (λ _ ll' o', o' = o ∧ nodes ll' = ∅) ll o.
Proof.
  intros (ns & Hns & ->). pose proof (ll_nodes_empty _ _ Hns) as He.
  pose proof (ll_nodes_size _ _ Hns) as Hsz.
  destruct Hns as (Hseg & Hnd & Hdom & _). unfold ll_destroy, ll_empty. wp_run. rewrite He.
  destruct ns as [|[l x] ns].
  - wp_run. split; [done|]. by apply dom_empty_iff_L.
  - rewrite bool_decide_eq_false_2 by done. cbn [negb]. wp_step. wp_step. wp_step. wp_step.
    { destruct Hseg as [-> _]. by apply bool_decide_eq_true_2. }
    rewrite Hsz. eapply free_nodes_spec; [done..|]. simpl. lia.
Qed.

(** [kept o xs]: the elements of [xs] whose allocation succeeds. *)
Fixpoint kept (o : oracle) (xs : list V) : list V :=
  match xs with
  | [] => []
  | x :: xs' => (if default true (list.head o) then [x] else []) ++ kept (list.tail o) xs'
  end.

Lemma ll_rep_nil : ll_rep (mkLL ∅ None None 0) [].
Proof.
  exists []. split; [|done]. split_and!; simpl; try done; constructor.
Qed.
Lemma copy_nodes_spec ll ns p new ys fuel o :
  lseg (nodes ll) p ns None → ll_rep new ys → (length ns ≤ fuel)%nat →
  Z.of_nat (length ys + length ns) < 2 ^ 31 - 1 →
  wp (copy_nodes fuel p new) (λ new' ll' o', ll' = ll ∧ o' = drop (length ns) o ∧
    ll_rep new' (ys ++ kept o ns.*2)) ll o.
Proof.
  revert p new ys fuel o. induction ns as [|[l x] ns IH]; intros p new ys fuel o Hseg Hnew Hf Hlen.
  - simpl in Hseg. subst p. destruct fuel; simpl; wp_run; by rewrite app_nil_r, drop_0.
  - destruct Hseg as (-> & n & Hl & Hseg). simpl in Hf, Hlen. destruct fuel as [|fuel]; [lia|].
    cbn [copy_nodes]. wp_step. eapply wp_load_node; [done|]. wp_run.
    wp_call (ll_push_back_spec _ _ _ _ Hnew); [lia|].
    intros r new' o' (-> & Hr). cbn [next].
    assert (∃ ys', ll_rep new' (ys ++ ys') ∧ (length ys' ≤ 1)%nat ∧
      ys' = if default true (list.head o) then [x] else []) as (ys' & Hys' & Hle & Heq).
    { destruct Hr as [(-> & Hok & Hrep)|(-> & Hok & ->)].
      - exists [x]. apply not_fails_iff in Hok. by rewrite Hok.
      - exists []. apply fails_iff in Hok. rewrite app_nil_r, Hok. split_and!; try done. simpl; lia. }
    eapply wp_mono; [eapply IH; [done|done|lia|rewrite length_app; lia]|].
    intros new2 ll' o' (-> & -> & Hrep). split_and!; [done| |].
    + by destruct o; simpl; rewrite ?drop_nil.
    + simpl. by rewrite <- Heq, app_assoc.
Qed.

Lemma ll_copy_spec ll xs o :
  ll_rep ll xs → Z.of_nat (length xs) < 2 ^ 31 - 1 →
  wp ll_copy (λ r ll' o', ll' = ll ∧
    ((fails o ∧ r = None ∧ o' = list.tail o) ∨
     (¬ fails o ∧ ∃ new, r = Some new ∧ ll_rep new (kept (list.tail o) xs) ∧
        o' = drop (length xs) (list.tail o)))) ll o.
Proof.
  intros (ns & Hns & ->) Hlen. rewrite length_fmap in *.
  pose proof (ll_nodes_size _ _ Hns) as Hsz. destruct Hns as (Hseg & _).
  unfold ll_copy, ll_create. wp_run. destruct (default true (list.head o)) eqn:Hok; wp_run.
  - apply not_fails_iff in Hok.
    wp_call (copy_nodes_spec _ _ _ _ [] _ _ Hseg ll_rep_nil); [lia|simpl; lia|].
    intros new ll' o' (-> & -> & Hrep). wp_run. split; [done|]. right. eauto 10.
  - apply fails_iff in Hok. auto.
Qed.

(** ** The list as a double-ended queue *)
Inductive ll_op : Type :=
| PushFront (x : V) | PushBack (x : V) | PopFront | PopBack | Front | Back | Size.
Inductive ll_res : Type := RCode (r : Z) | RPtr (x : V) | RMaybe (x : option V).

Definition ll_exec (op : ll_op) : K (linkedlist V) ll_res :=
  match op with
  | PushFront x => r <- ll_push_front x; ret (RCode r)
  | PushBack x => r <- ll_push_back x; ret (RCode r)
  | PopFront => x <- ll_pop_front; ret (RPtr x)
  | PopBack => x <- ll_pop_back; ret (RPtr x)
  | Front => x <- ll_front; ret (RMaybe x)
  | Back => x <- ll_back; ret (RMaybe x)
  | Size => n <- ll_size; ret (RCode n)
  end.
Fixpoint ll_run (ops : list ll_op) : K (linkedlist V) (list ll_res) :=
  match ops with
  | [] => ret []
  | op :: ops' => r <- ll_exec op; rs <- ll_run ops'; ret (r :: rs)
  end.

(** The same operations on a plain list; [None] is a failed assertion. *)
Definition deque_push (o : oracle) (xs xs' : list V) : option (ll_res * list V * oracle) :=
  Some (if default true (list.head o) then (RCode 0, xs', list.tail o)
        else (RCode (-1), xs, list.tail o)).
Definition deque_exec (op : ll_op) (xs : list V) (o : oracle) : option (ll_res * list V * oracle) :=
  match op with
  | PushFront x => deque_push o xs (x :: xs)
  | PushBack x => deque_push o xs (xs ++ [x])
  | PopFront => match xs with [] => None | x :: xs' => Some (RPtr x, xs', o) end
  | PopBack => match rev xs with [] => None | x :: sx => Some (RPtr x, rev sx, o) end
  | Front => Some (RMaybe (list.head xs), xs, o)
  | Back => Some (RMaybe (last xs), xs, o)
  | Size => Some (RCode (Z.of_nat (length xs)), xs, o)
  end.
Fixpoint deque_run (ops : list ll_op) (xs : list V) (o : oracle) :
    option (list ll_res * list V * oracle) :=
  match ops with
  | [] => Some ([], xs, o)
  | op :: ops' =>
      '(r, xs', o') ← deque_exec op xs o;
      '(rs, ys, o'') ← deque_run ops' xs' o';
      Some (r :: rs, ys, o'')
  end.

Lemma deque_exec_length op xs o r xs' o' :
  deque_exec op xs o = Some (r, xs', o') → (length xs' ≤ S (length xs))%nat.
Proof.
  destruct op; simpl; intros Heq.
  1-2: unfold deque_push in Heq; destruct (default _ _); simplify_eq; rewrite ?length_app; simpl; lia.
  - destruct xs; simplify_eq. simpl. lia.
  - destruct (rev xs) eqn:Hr; simplify_eq. rewrite <- (length_rev xs), Hr. simpl.
    rewrite length_rev. lia.
  - simplify_eq. lia.
  - simplify_eq. lia.
  - simplify_eq. lia.
Qed.

Lemma ll_rep_nil_panics ll o : ll_rep ll [] →
  ll_pop_front ll o = Halt Panic ∧ ll_pop_back ll o = Halt Panic.
Proof.
  intros (ns & Hns & Hnil). destruct ns; [|done]. destruct Hns as (_ & _ & _ & _ & Hsz).
  unfold ll_pop_front, ll_pop_back, ll_empty, bind, gets. rewrite Hsz. done.
Qed.

(** What a run of the list returns, given what the plain list does. *)
Definition agrees {A} (m : outcome (A * linkedlist V * oracle))
    (r : option (A * list V * oracle)) : Prop :=
  match r with
  | None => m = Halt Panic
  | Some (a, xs, o) => ∃ ll, m = Done (a, ll, o) ∧ ll_rep ll xs
  end.
Lemma agrees_wp {A} (m : K (linkedlist V) A) a xs o' ll o :
  wp m (λ r ll' o'', r = a ∧ o'' = o' ∧ ll_rep ll' xs) ll o → agrees (m ll o) (Some (a, xs, o')).
Proof. intros (? & ll' & ? & -> & -> & -> & Hrep)%wp_run. simpl. eauto. Qed.

Lemma push_agrees (m : K (linkedlist V) Z) ll xs xs' o :
  ll_rep ll xs →
  wp m (λ r ll' o', o' = list.tail o ∧
    ((r = 0 ∧ ¬ fails o ∧ ll_rep ll' xs') ∨ (r = -1 ∧ fails o ∧ ll' = ll))) ll o →
  agrees ((r <- m; ret (RCode r)) ll o) (deque_push o xs xs').
Proof.
  intros Hrep (r & ll' & o' & Hm & -> & Hr)%wp_run. unfold bind, deque_push. rewrite Hm.
  destruct Hr as [(-> & ->%not_fails_iff & ?)|(-> & ->%fails_iff & ->)]; simpl; eauto.
Qed.

Lemma ll_exec_agrees op ll xs o :
  ll_rep ll xs → Z.of_nat (length xs) < 2 ^ 31 - 1 →
  agrees (ll_exec op ll o) (deque_exec op xs o).
Proof.
  intros Hrep Hlen. destruct op; cbn [deque_exec ll_exec].
  - eapply push_agrees; [done|]. by apply ll_push_front_spec.
  - eapply push_agrees; [done|]. by apply ll_push_back_spec.
  - destruct xs as [|x xs]; simpl in Hlen.
    + unfold bind. simpl. by destruct (ll_rep_nil_panics ll o Hrep) as [-> _].
    + apply agrees_wp. wp_step. wp_call (ll_pop_front_spec _ _ _ _ Hrep); [lia|].
      intros r ll' o' (-> & -> & H). by wp_run.
  - destruct xs as [|x xs _] using rev_ind.
    + unfold bind. simpl. by destruct (ll_rep_nil_panics ll o Hrep) as [_ ->].
    + rewrite rev_unit, rev_involutive. apply agrees_wp. wp_step.
      rewrite length_app in Hlen. wp_call (ll_pop_back_spec _ _ _ _ Hrep); [lia|].
      intros r ll' o' (-> & -> & H). by wp_run.
  - apply agrees_wp. wp_step. wp_call (ll_front_spec _ _ _ Hrep).
    intros r ll' o' (-> & -> & ->). by wp_run.
  - apply agrees_wp. wp_step. wp_call (ll_back_spec _ _ _ Hrep).
    intros r ll' o' (-> & -> & ->). by wp_run.
  - apply agrees_wp. unfold ll_size. wp_run. split_and!; [|done..].
    destruct Hrep as (ns & (_ & _ & _ & _ & ->) & ->). by rewrite length_fmap.
Qed.

(** C23: any sequence of operations on a linked list behaves as the same
    sequence on a plain list, allocation failures and failed assertions
    included, and ends in a heap that holds exactly the nodes of the list
    ([ll_rep]), so no run leaks or reuses a node. *)
Theorem ll_run_deque (ops : list ll_op) (ll : linkedlist V) (xs : list V) (o : oracle) :
  ll_rep ll xs → Z.of_nat (length xs + length ops) < 2 ^ 31 →
  agrees (ll_run ops ll o) (deque_run ops xs o).
Proof.
  revert ll xs o. induction ops as [|op ops IH]; intros ll xs o Hrep Hlen; [simpl; eauto|].
  simpl in Hlen. pose proof (ll_exec_agrees op ll xs o Hrep ltac:(lia)) as Hop.
  simpl. unfold bind at 1. destruct (deque_exec op xs o) as [[[r xs'] o']|] eqn:Hd; simpl in *.
  - destruct Hop as (ll' & -> & Hrep'). apply deque_exec_length in Hd.
    specialize (IH ll' xs' o' Hrep' ltac:(lia)). unfold bind.
    destruct (deque_run ops xs' o') as [[[rs ys] o'']|]; simpl in *.
    + destruct IH as (ll'' & -> & ?). eauto.
    + by rewrite IH.
  - by rewrite Hop.
Qed.

(** [ll_copy] leaves the list alone and returns a copy in which every
    element whose node could not be allocated is missing: a shorter copy is
    reported as success. *)
Theorem ll_copy_kept (ll : linkedlist V) (xs : list V) (o : oracle) :
  ll_rep ll xs → Z.of_nat (length xs) < 2 ^ 31 - 1 →
  wp ll_copy (λ r ll' _, ll' = ll ∧
    ((fails o ∧ r = None) ∨
     (¬ fails o ∧ ∃ new, r = Some new ∧ ll_rep new (kept (list.tail o) xs)))) ll o.
Proof.
  intros Hrep Hlen. wp_call (ll_copy_spec _ _ _ Hrep Hlen). naive_solver.
Qed.

End LinkedList.

Definition two_nodes : linkedlist Z :=
  mkLL (<[1%positive := mkNode 7 (Some 2%positive)]> (<[2%positive := mkNode 9 None]> ∅))
       (Some 1%positive) (Some 2%positive) 2.
Lemma two_nodes_rep : ll_rep two_nodes [7; 9].
Proof.
  exists [(1%positive, 7); (2%positive, 9)]. split; [|done].
  split; [|split; [|by split_and!]].
  - simpl. eauto 10.
  - by apply NoDup_cons_2; [set_solver|apply NoDup_singleton].
Qed.

Lemma ll_run_deque_witness :
  ll_rep two_nodes [7; 9] ∧
  agrees (ll_run [PushBack 4; PopFront; PushFront 1; PopBack; PopBack] two_nodes [true; false])
         (Some ([RCode 0; RPtr 7; RCode (-1); RPtr 4; RPtr 9], [], [])).
Proof.
  split; [exact two_nodes_rep|].
  apply (ll_run_deque [PushBack 4; PopFront; PushFront 1; PopBack; PopBack] two_nodes [7; 9]
    [true; false]); [exact two_nodes_rep|simpl; lia].
Defined.

(** The copy of [[7; 9]] when the second allocation fails is [[9]]. *)
Lemma ll_copy_kept_witness :
  ll_rep two_nodes [7; 9] ∧ kept [false] [7; 9] = [9] ∧
  wp ll_copy (λ r ll' _, ll' = two_nodes ∧
    ((fails [true; false] ∧ r = None) ∨
     (¬ fails [true; false] ∧ ∃ new, r = Some new ∧ ll_rep new (kept [false] [7; 9]))))
    two_nodes [true; false].
Proof.
  split; [exact two_nodes_rep|]. split; [reflexivity|].
  apply (ll_copy_kept two_nodes [7; 9] [true; false]); [exact two_nodes_rep|simpl; lia].
Defined.
