(* ===== verification/Table.v ===== *)
(** * Tables with reusable slots, src/kern/lib/table.c

    A table is an array of pointers ([None] is [NULL]) and a linked list of
    the indices that can be used again.  Each index on the list lives in an
    [int] of its own that [tab_remove] allocates: [cells] is the memory of
    these integers, so that reading one that is not there, and keeping one
    that nothing points to, are visible. *)
From S2P Require Import Prelude Array LinkedList.

Record table (V : Type) : Type := mkTable {
  arr : array (option V);
  slots : linkedlist loc;
  cells : gmap loc Z;
}.
Arguments mkTable {V} _ _ _.
Arguments arr {V} _.
Arguments slots {V} _.
Arguments cells {V} _.

Section Table.
  Context {V : Type}.
  Implicit Types (t : table V).

(** ** Memory *)
Definition on_array {A} (m : K (array (option V)) A) : K (table V) A :=
  zoom arr (λ a t, mkTable a (slots t) (cells t)) m.
Definition on_slots {A} (m : K (linkedlist loc) A) : K (table V) A :=
  zoom slots (λ l t, mkTable (arr t) l (cells t)) m.
(** [*ptr], [ptr] an [int] pointer of the list *)
Definition load_int (p : loc) : K (table V) Z := t <- kget; deref (cells t !! p).
(** [kfree(ptr)] *)
Definition kfree_int (p : loc) : K (table V) unit :=
  t <- kget;
  _ <- deref (cells t !! p);
  kput (mkTable (arr t) (slots t) (delete p (cells t))).
(** [kmalloc(sizeof(int))] followed by the store of [i] through the result;
    [None] when the allocation fails. *)
Definition new_int (i : Z) : K (table V) (option loc) :=
  ok <- kmalloc_ok;
  if negb ok then ret None
  else
    t <- kget;
    let p := fresh (dom (cells t)) in
    _ <- kput (mkTable (arr t) (slots t) (<[p := i]> (cells t)));
    ret (Some p).

(** ** Operations *)
Definition get_first_slot : K (table V) Z :=
  n <- on_slots ll_size;
  if n =? 0 then ret (-1)
  else
    ptr <- on_slots ll_pop_front;
    r <- load_int ptr;
    _ <- kfree_int ptr;
    ret r.

Definition tab_create {S} : K S (option (table V)) :=
  ok <- kmalloc_ok;
  if negb ok then ret None
  else
    a <- array_create;
    match a with
    | None => ret None
    | Some a =>
        l <- ll_create;
        match l with
        | None => ret None
        | Some l => ret (Some (mkTable a l ∅))
        end
    end.

(** [while(!ll_empty(t->slots)) { ptr = ll_pop_back(t->slots); kfree(ptr); }] *)
Fixpoint free_slots (fuel : nat) : K (table V) unit :=
  e <- on_slots ll_empty;
  if e then ret tt
  else
    match fuel with
    | O => halt Spin
    | Datatypes.S fuel' =>
        ptr <- on_slots ll_pop_back;
        _ <- kfree_int ptr;
        free_slots fuel'
    end.
(** [array_destroy(t->array)] and [kfree(t)] only give memory back: the state
    that is left is the one the table's blocks are freed in. *)
Definition tab_destroy : K (table V) unit :=
  t <- kget;
  _ <- free_slots (Datatypes.S (Z.to_nat (size (slots t))));
  on_slots ll_destroy.

(** The value is paired with [*err]. *)
Definition tab_add (ptr : option V) (err : Z) : K (table V) (Z * Z) :=
  _ <- kassert (err =? 0);
  slot <- get_first_slot;
  if slot =? -1 then
    result <- on_array (array_add ptr);
    if negb (result =? 0) then ret (-1, result)
    else
      n <- on_array array_getnum;
      ret (n - 1, err)
  else
    _ <- on_array (array_setguy slot ptr);
    ret (slot, err).

(** The result of [kmalloc] is stored through without being tested. *)
Definition tab_remove (index : Z) : K (table V) Z :=
  size <- on_array array_getnum;
  _ <- kassert ((0 <=? index) && (index <? size));
  _ <- on_array (array_setguy index None);
  i_ptr <- new_int index;
  p <- deref i_ptr;
  on_slots (ll_push_back p).

Definition tab_getguy (index : Z) : K (table V) (option V) := on_array (array_getguy index).
Definition tab_getsize : K (table V) Z := on_array array_getnum.
Definition tab_getnum : K (table V) Z :=
  n <- on_array array_getnum;
  m <- on_slots ll_size;
  ret (n - m).

(** [for (i=0; i<size; i++) array_add(n_arr, array_getguy(t->array, i));] *)
Fixpoint dup_entries (n : nat) (i : Z) (nt : table V) : K (table V) (table V) :=
  match n with
  | O => ret nt
  | Datatypes.S n' =>
      ptr <- on_array (array_getguy i);
      '(_, nt') <- run_on (on_array (array_add ptr)) nt;
      dup_entries n' (i + 1) nt'
  end.
(** [while (!ll_empty(temp_ll)) { ... ll_push_back(n_ll, ptr); }] *)
Fixpoint dup_slots (fuel : nat) (temp : linkedlist loc) (nt : table V) : K (table V) (Z * table V) :=
  '(e, temp) <- run_on ll_empty temp;
  if e then
    _ <- run_on ll_destroy temp;
    ret (0, nt)
  else
    match fuel with
    | O => halt Spin
    | Datatypes.S fuel' =>
        '(tmp_ptr, temp) <- run_on ll_pop_front temp;
        i <- load_int tmp_ptr;
        '(p, nt) <- run_on (new_int i) nt;
        match p with
        | None => _ <- run_on ll_destroy temp; ret (ENOMEM, nt)
        | Some p =>
            '(_, nt) <- run_on (on_slots (ll_push_back p)) nt;
            dup_slots fuel' temp nt
        end
    end.
(** Run on the table that is copied; the new table is passed in and out. *)
Definition tab_duplicate (new_t : table V) : K (table V) (Z * table V) :=
  size <- tab_getsize;
  '(err, nt) <- run_on (on_array (array_preallocate size)) new_t;
  if negb (err =? 0) then ret (err, nt)
  else
    nt <- dup_entries (Z.to_nat size) 0 nt;
    temp <- on_slots ll_copy;
    match temp with
    | None => ret (ENOMEM, nt)
    | Some temp => dup_slots (Datatypes.S (Z.to_nat (LinkedList.size temp))) temp nt
    end.

(** ** Representation

    [table_rep t es free leaked]: the array holds the entries [es]; the list
    of slots holds distinct indices [free] of entries that are [NULL]; and
    [leaked] of the integers in memory are not on the list. *)
(** The integers [ps] hold the indices [is]. *)
Definition hold (cs : gmap loc Z) (ps : list loc) (js : list Z) : Prop :=
  Forall2 (λ p i, cs !! p = Some i) ps js.
Definition slots_rep (t : table V) (free : list Z) (leaked : nat) : Prop :=
  ∃ ps, ll_rep (slots t) ps ∧ NoDup ps ∧ hold (cells t) ps free ∧
        base.size (cells t) = (length ps + leaked)%nat.
Definition table_rep (t : table V) (es : list (option V)) (free : list Z) (leaked : nat) : Prop :=
  array_rep (arr t) es ∧ slots_rep t free leaked ∧
  NoDup free ∧ (∀ i, i ∈ free → zlookup es i = Some None).

Lemma free_length es free :
  NoDup free → (∀ i, i ∈ free → zlookup es i = Some (None (A := V))) →
  (length free ≤ length es)%nat.
Proof.
  intros Hnd Hin.
  rewrite <- (length_fmap Z.to_nat free), <- (length_seq (length es) 0).
  apply submseteq_length, NoDup_submseteq.
  - apply NoDup_fmap_2_strong; [|done]. intros x y Hx%Hin%zlookup_lt Hy%Hin%zlookup_lt. lia.
  - intros k (i & -> & Hi%Hin%zlookup_lt)%list_elem_of_fmap. apply elem_of_seq. lia.
Qed.

Lemma slots_rep_length t free leaked :
  slots_rep t free leaked → size (slots t) = Z.of_nat (length free).
Proof.
  intros (ps & (ns & (_ & _ & _ & _ & ->) & ->) & _ & HF & _).
  apply Forall2_length in HF. rewrite length_fmap in HF. lia.
Qed.

Lemma hold_delete cs ps js p : hold cs ps js → p ∉ ps → hold (delete p cs) ps js.
Proof.
  induction 1 as [|q i ps js Hq _ IH]; intros Hp; constructor.
  - rewrite lookup_delete_ne; [done|set_solver].
  - apply IH. set_solver.
Qed.
Lemma hold_insert cs ps js p i : hold cs ps js → p ∉ dom cs → hold (<[p := i]> cs) ps js.
Proof.
  intros HF Hp. eapply Forall2_impl; [exact HF|]. simpl. intros q j Hq.
  rewrite lookup_insert_ne; [done|]. intros <-. apply Hp. by apply elem_of_dom.
Qed.
Lemma hold_dom cs ps js : hold cs ps js → ∀ p, p ∈ ps → p ∈ dom cs.
Proof.
  intros HF p Hp. apply list_elem_of_lookup in Hp as [k Hk].
  destruct (Forall2_lookup_l _ _ _ _ _ HF Hk) as (i & _ & Hi). by eapply elem_of_dom_2.
Qed.

Lemma load_int_spec t p i o :
  cells t !! p = Some i → wp (load_int p) (λ r t' o', r = i ∧ t' = t ∧ o' = o) t o.
Proof. intros Hp. unfold load_int. wp_run. apply wp_deref. eauto. Qed.
Lemma kfree_int_spec t p i o :
  cells t !! p = Some i →
  wp (kfree_int p) (λ _ t' o', t' = mkTable (arr t) (slots t) (delete p (cells t)) ∧ o' = o) t o.
Proof. intros Hp. unfold kfree_int. wp_run. apply wp_deref. exists i. split; [done|]. by wp_run. Qed.

Lemma get_first_slot_spec t free leaked o :
  slots_rep t free leaked → Z.of_nat (length free) < 2 ^ 31 - 1 →
  wp get_first_slot (λ r t' o', o' = o ∧ arr t' = arr t ∧ slots_rep t' (list.tail free) leaked ∧
    r = default (-1) (list.head free)) t o.
Proof.
  intros Hs Hlen. pose proof (slots_rep_length _ _ _ Hs) as Hsz.
  unfold get_first_slot, on_slots, ll_size. wp_run. rewrite Hsz.
  destruct free as [|i free]; [by wp_run|]. simpl in Hlen.
  destruct (Z.eqb_spec (Z.of_nat (length (i :: free))) 0); [simpl in *; lia|].
  destruct Hs as (ps & Hl & Hnd & HF & Hcs).
  destruct ps as [|p ps]; [by apply Forall2_nil_cons_inv in HF|].
  apply Forall2_cons in HF as [Hp HF]. apply NoDup_cons in Hnd as [Hnin Hnd]. simpl in Hcs.
  pose proof (Forall2_length _ _ _ HF). wp_run.
  wp_call (ll_pop_front_spec _ _ _ _ Hl); [lia|]. intros r l' o' (-> & -> & Hl'). wp_run.
  eapply wp_mono; [by eapply load_int_spec|]. intros r t' o' (-> & -> & ->). wp_run.
  eapply wp_mono; [by eapply kfree_int_spec|]. intros _ t' o' (-> & ->). wp_run.
  split_and!; try done. exists ps. split_and!; try done; [by apply hold_delete|].
  simpl. rewrite map_size_delete_Some by eauto. lia.
Qed.

Lemma tab_add_spec t es free leaked ptr o :
  table_rep t es free leaked → Z.of_nat (length es) < 2 ^ 29 →
  wp (tab_add ptr 0) (λ r t' o',
    match free with
    | i :: free' => r = (i, 0) ∧ o' = o ∧ table_rep t' (<[Z.to_nat i := ptr]> es) free' leaked
    | [] => (r = (Z.of_nat (length es), 0) ∧ table_rep t' (es ++ [ptr]) [] leaked) ∨
            (r = (-1, ENOMEM) ∧ fails o ∧ table_rep t' es [] leaked)
    end) t o.
Proof.
  intros (Ha & Hs & Hnd & Hfree) Hlen. pose proof (free_length _ _ Hnd Hfree) as Hfl.
  pose proof (slots_rep_length _ _ _ Hs) as Hsz.
  unfold tab_add, on_array, array_getnum. wp_run.
  wp_call (get_first_slot_spec _ _ _ _ Hs); [lia|]. intros r t' o' (-> & Harr & Hs' & ->).
  destruct free as [|i free]; simpl in *.
  - wp_run. rewrite Harr. wp_call (array_add_spec _ _ ptr _ Ha Hlen).
    intros r a' o' (_ & [(-> & _ & Ha')|(-> & _ & Hf & ->)]); simpl; wp_run; simpl.
    + left. split.
      * destruct Ha' as (-> & _). rewrite length_fmap, length_app. simpl. f_equal. lia.
      * split_and!; [done..|]. set_solver.
    + right. split_and!; [done..|]. split_and!; done.
  - apply NoDup_cons in Hnd as [Hnin Hnd].
    assert (zlookup es i = Some None) as Hi by (apply Hfree; set_solver).
    pose proof (zlookup_lt _ _ _ Hi) as Hb.
    destruct (Z.eqb_spec i (-1)); [lia|]. wp_run. rewrite Harr.
    wp_call (array_setguy_spec _ _ i ptr o Ha Hb). intros _ a' o' (-> & Ha'). wp_run.
    split_and!; [done..|]. split_and!; try done. intros j Hj.
    assert (j ≠ i) by set_solver. pose proof (Hfree j ltac:(set_solver)) as Hlk.
    pose proof (zlookup_lt _ _ _ Hlk). apply zlookup_Some in Hlk as [? Hlk].
    apply zlookup_Some. split; [done|]. rewrite list_lookup_insert_ne by lia. done.
Qed.

Lemma new_int_spec t i o :
  wp (new_int i) (λ r t' o', o' = list.tail o ∧
    match r with
    | None => fails o ∧ t' = t
    | Some p => ¬ fails o ∧ (p ∉ dom (cells t)) ∧
        t' = mkTable (arr t) (slots t) (<[p := i]> (cells t))
    end) t o.
Proof.
  unfold new_int. wp_run. destruct (default true (list.head o)) eqn:Hok; simpl; wp_run.
  - split_and!; [done|by apply not_fails_iff|apply is_fresh|done].
  - split_and!; [done|by apply fails_iff|done].
Qed.

(** The integer [p] is new: pushing it on the list, or failing to. *)
Lemma push_slot_spec t free leaked i o :
  slots_rep t free leaked → Z.of_nat (length free) < 2 ^ 31 - 1 →
  ¬ fails o →
  wp (i_ptr <- new_int i; p <- deref i_ptr; on_slots (ll_push_back p))
    (λ r t' o', o' = list.tail (list.tail o) ∧ arr t' = arr t ∧
      ((r = 0 ∧ ¬ fails (list.tail o) ∧ slots_rep t' (free ++ [i]) leaked) ∨
       (r = -1 ∧ fails (list.tail o) ∧ slots_rep t' free (S leaked)))) t o.
Proof.
  intros (ps & Hl & Hnd & HF & Hcs) Hlen Hok. wp_step.
  wp_call new_int_spec. intros [p|] t1 o1 (-> & Hp); [|naive_solver].
  destruct Hp as (_ & Hp & ->). unfold on_slots. wp_run. simpl.
  pose proof (Forall2_length _ _ _ HF) as Hfl.
  assert (p ∉ ps) as Hpn by (intros Hin; by eapply Hp, hold_dom).
  assert (base.size (<[p:=i]> (cells t)) = S (base.size (cells t))) as Hsz.
  { apply map_size_insert_None. by apply not_elem_of_dom. }
  wp_call (ll_push_back_spec _ _ p _ Hl); [lia|].
  intros r l' o' (-> & [(-> & Hf & Hl')|(-> & Hf & ->)]); (split; [done|]); (split; [done|]).
  - left. split_and!; [done..|]. exists (ps ++ [p]). split_and!; [done| | |].
    + apply NoDup_app. split_and!; [done|set_solver|apply NoDup_singleton].
    + apply Forall2_app; [by apply hold_insert|]. constructor; [|constructor].
      simpl. by rewrite lookup_insert_eq.
    + simpl. rewrite Hsz, length_app. simpl. lia.
  - right. split_and!; [done..|]. exists ps. split_and!; [done..|by apply hold_insert|].
    simpl. lia.
Qed.

Lemma insert_None_free es (free : list Z) i :
  0 ≤ i → (∀ j, j ∈ free → zlookup es j = Some (None (A := V))) →
  ∀ j, j ∈ free → zlookup (<[Z.to_nat i := None]> es) j = Some None.
Proof.
  intros Hi Hfree j Hj. pose proof (Hfree j Hj) as [? Hlk]%zlookup_Some.
  apply zlookup_Some. split; [done|]. destruct (decide (Z.to_nat i = Z.to_nat j)) as [Heq|].
  - rewrite Heq, list_lookup_insert_eq; [done|]. by eapply lookup_lt_Some.
  - by rewrite list_lookup_insert_ne.
Qed.

Lemma tab_remove_spec t es free leaked i o :
  table_rep t es free leaked → Z.of_nat (length es) < 2 ^ 29 →
  0 ≤ i < Z.of_nat (length es) → i ∉ free → ¬ fails o →
  wp (tab_remove i) (λ r t' o', o' = list.tail (list.tail o) ∧
    ((r = 0 ∧ ¬ fails (list.tail o) ∧
        table_rep t' (<[Z.to_nat i := None]> es) (free ++ [i]) leaked) ∨
     (r = -1 ∧ fails (list.tail o) ∧
        table_rep t' (<[Z.to_nat i := None]> es) free (S leaked)))) t o.
Proof.
  intros (Ha & Hs & Hnd & Hfree) Hlen Hi Hnin Hok.
  pose proof (free_length _ _ Hnd Hfree) as Hfl. pose proof Ha as (Hn & _).
  rewrite length_fmap in Hn. unfold tab_remove, on_array, array_getnum. wp_run.
  wp_call (array_setguy_spec _ _ i None o Ha Hi). intros _ a' o' (-> & Ha').
  set (t1 := mkTable a' _ _).
  wp_call (push_slot_spec t1 free leaked i o Hs); [lia|done|].
  pose proof (insert_None_free es free i ltac:(lia) Hfree) as Hfree'.
  intros r t' o' (-> & Harr & [(-> & Hf & Hs')|(-> & Hf & Hs')]); (split; [done|]); [left|right];
    (split_and!; [done..|]); (split_and!; [by rewrite Harr|done| |]).
  - apply NoDup_app. split_and!; [done|set_solver|apply NoDup_singleton].
  - intros j [Hj|Hj]%elem_of_app; [by apply Hfree'|]. apply list_elem_of_singleton in Hj as ->.
    apply zlookup_Some. split; [lia|]. rewrite list_lookup_insert_eq by lia. done.
  - done.
  - done.
Qed.

(** Without memory for the index the store goes through [NULL]. *)
Lemma tab_remove_fault t es free leaked i o :
  table_rep t es free leaked → 0 ≤ i < Z.of_nat (length es) → fails o →
  tab_remove i t o = Halt Fault.
Proof.
  intros (Ha & _) Hi Hf. pose proof Ha as (Hn & _). rewrite length_fmap in Hn.
  pose proof (array_setguy_spec _ _ i None o Ha Hi) as
    (u & a' & o' & Heq & -> & _)%wp_run. destruct u.
  unfold tab_remove, on_array, array_getnum, zoom, bind, gets at 1.
  rewrite (proj2 (andb_true_iff _ _)) by (split; lia). simpl. rewrite Heq.
  unfold new_int, bind, kmalloc_ok. destruct o as [|b o]; [done|].
  injection Hf as ->. done.
Qed.

(** ** Destruction *)
Lemma free_slots_spec t free leaked fuel o :
  slots_rep t free leaked → (length free ≤ fuel)%nat → Z.of_nat (length free) < 2 ^ 31 - 1 →
  wp (free_slots fuel) (λ _ t' o', o' = o ∧ slots_rep t' [] leaked) t o.
Proof.
  revert t free. induction fuel as [|fuel IH]; intros t free Hs Hf Hlen;
    pose proof (slots_rep_length _ _ _ Hs) as Hsz;
    cbn [free_slots]; unfold ll_empty, on_slots; wp_run; rewrite Hsz.
  { destruct free; [by wp_run|simpl in Hf; lia]. }
  destruct Hs as (ps & Hl & Hnd & HF & Hcs).
  destruct free as [|i free _] using rev_ind.
  { wp_run. split; [done|]. by exists ps. }
  apply Forall2_app_inv_r in HF as (ps' & qs & HF & (p & ? & Hp & ->%Forall2_nil_inv_r & ->)%Forall2_cons_inv_r & ->).
  rewrite !length_app in *. simpl in *.
  destruct (Z.eqb_spec (Z.of_nat (length free + 1)) 0); [lia|]. wp_run.
  apply NoDup_app in Hnd as (Hnd & Hdis & _). pose proof (Forall2_length _ _ _ HF).
  wp_call (ll_pop_back_spec _ _ _ _ Hl); [lia|]. intros r l' o' (-> & -> & Hl'). wp_run.
  eapply wp_mono; [by eapply kfree_int_spec|]. intros _ t' o' (-> & ->).
  eapply (IH _ free); [|lia..]. exists ps'. split_and!; [done..| |].
  - apply hold_delete; [done|]. set_solver.
  - simpl. rewrite map_size_delete_Some by eauto. lia.
Qed.

Lemma tab_destroy_spec t es free leaked o :
  table_rep t es free leaked → Z.of_nat (length es) < 2 ^ 29 →
  wp tab_destroy (λ _ t' o', o' = o ∧ nodes (slots t') = ∅ ∧ base.size (cells t') = leaked) t o.
Proof.
  intros (Ha & Hs & Hnd & Hfree) Hlen. pose proof (free_length _ _ Hnd Hfree) as Hfl.
  pose proof (slots_rep_length _ _ _ Hs) as Hsz. unfold tab_destroy. wp_run. rewrite Hsz.
  wp_call (free_slots_spec _ _ _ _ _ Hs); [lia..|].
  intros _ t' o' (-> & (ps & Hl & _ & ->%Forall2_nil_inv_r & Hcs)). unfold on_slots. wp_run.
  wp_call (ll_destroy_spec _ _ _ Hl). intros _ l' o' (-> & Hn). done.
Qed.

(** ** Duplication *)
Lemma dup_entries_spec t es nt n i o :
  array_rep (arr t) es → Z.of_nat (length es) < 2 ^ 29 → (i + n = length es)%nat →
  array_rep (arr nt) (take i es) → Z.of_nat (length es) ≤ max (arr nt) →
  wp (dup_entries n (Z.of_nat i) nt)
    (λ nt' t' o', t' = t ∧ o' = o ∧ array_rep (arr nt') es ∧
       slots nt' = slots nt ∧ cells nt' = cells nt) t o.
Proof.
  intros Ha Hlen. revert i nt. induction n as [|n IH]; intros i nt Hi Hnt Hmax; cbn [dup_entries].
  { wp_run. rewrite take_ge in Hnt by lia. done. }
  destruct (lookup_lt_is_Some_2 es i ltac:(lia)) as [x Hx].
  unfold on_array. wp_run.
  wp_call (array_getguy_spec _ _ (Z.of_nat i) x _ Ha); [by rewrite zlookup_nat|].
  intros r a' o' (-> & -> & ->). wp_run. pose proof Hnt as (Hnum & _).
  rewrite length_fmap, length_take in Hnum.
  wp_call (array_add_room _ _ x _ Hnt); [rewrite length_take; lia|lia|].
  intros r a' o' (-> & -> & Ha' & Hmax').
  replace (Z.of_nat i + 1) with (Z.of_nat (S i)) by lia.
  replace (mkTable (arr t) (slots t) (cells t)) with t by by destruct t.
  eapply wp_mono; [apply IH; [lia| |simpl; lia]|naive_solver].
  simpl. by rewrite (take_S_r _ _ _ Hx).
Qed.

Lemma kept_hold cs ps js o :
  hold cs ps js → ∃ js', hold cs (kept o ps) js' ∧ js' `sublist_of` js.
Proof.
  intros HF. revert o. induction HF as [|p j ps js Hp _ IH]; intros o; simpl.
  { exists []. split; constructor. }
  destruct (IH (list.tail o)) as (js' & HF' & Hsub). destruct (default true (list.head o)).
  - exists (j :: js'). split; [by constructor|]. by constructor.
  - exists js'. split; [done|]. by constructor.
Qed.

Lemma dup_slots_spec t temp qs js nt free leaked fuel o :
  ll_rep temp qs → hold (cells t) qs js → slots_rep nt free leaked → (length qs ≤ fuel)%nat →
  Z.of_nat (length free + length qs) < 2 ^ 31 - 1 →
  wp (dup_slots fuel temp nt)
    (λ '(r, nt') t' o', t' = t ∧ arr nt' = arr nt ∧ (r = 0 ∨ r = ENOMEM) ∧ (plenty o → r = 0 ∧ plenty o') ∧
      ∃ js' leaked', slots_rep nt' (free ++ js') leaked' ∧ js' `sublist_of` js) t o.
Proof.
  revert temp qs js nt free leaked o.
  induction fuel as [|fuel IH]; intros temp qs js nt free leaked o Hq HF Hs Hf Hlen;
    cbn [dup_slots]; unfold ll_empty; wp_run;
    (assert (LinkedList.size temp = Z.of_nat (length qs)) as ->
       by (destruct Hq as (ns & (_ & _ & _ & _ & ->) & ->); by rewrite length_fmap));
    destruct qs as [|q qs]; simpl in Hf; try lia; simpl Z.eqb; cbv iota.
  1,2: apply Forall2_nil_inv_l in HF as ->; wp_run;
    wp_call (ll_destroy_spec _ _ _ Hq); intros _ tp o' [-> _]; wp_run; split_and!; [done..|by left|done|];
    exists [], leaked; by rewrite app_nil_r.
  simpl in Hlen. apply Forall2_cons_inv_l in HF as (j & js' & Hj & HF & ->). wp_run.
  wp_call (ll_pop_front_spec _ _ _ _ Hq); [lia|]. intros r tp o' (-> & -> & Hq'). wp_run.
  eapply wp_mono; [by eapply load_int_spec|]. intros r t' o' (-> & -> & ->). wp_run.
  destruct (decide (fails o)) as [Hfl|Hok].
  { wp_call new_int_spec. intros [p|] nt' o' (-> & Hp); [naive_solver|]. destruct Hp as [_ ->].
    wp_run. wp_call (ll_destroy_spec _ _ _ Hq'). intros _ tp' o' _. wp_run.
    split_and!; [done..|by right|by intros ?%plenty_head|]. exists [], leaked. rewrite app_nil_r. split; [done|].
    apply sublist_nil_l. }
  pose proof (push_slot_spec nt free leaked j o Hs ltac:(lia) Hok) as Hpush.
  unfold wp in Hpush |- *. unfold bind in Hpush |- *.
  destruct (new_int j nt o) as [[[[p|] nt1] o1]|] eqn:Hn; simpl in *; [|done..].
  unfold run_on at 1. destruct (on_slots (ll_push_back p) nt1 o1) as [[[r nt2] o2]|]; [|done].
  simpl in *. destruct Hpush as (-> & Harr & Hr).
  assert (∃ js1 l1, slots_rep nt2 (free ++ js1) l1 ∧ js1 `sublist_of` [j]) as (js1 & l1 & Hs1 & Hsub1).
  { destruct Hr as [(_ & _ & ?)|(_ & _ & ?)]; [by exists [j], leaked|].
    exists [], (S leaked). rewrite app_nil_r. split; [done|apply sublist_nil_l]. }
  apply sublist_length in Hsub1 as Hle. simpl in Hle.
  eapply wp_mono; [eapply (IH _ _ _ _ _ _ _ Hq' HF Hs1); [lia|rewrite length_app; lia]|].
  intros [r' nt'] t' o' (-> & Harr' & Hr' & Hp & js2 & l2 & Hs2 & Hsub2).
  split_and!; [done|congruence|done|by intros ?; apply Hp, plenty_tail, plenty_tail|]. exists (js1 ++ js2), l2.
  rewrite app_assoc. split; [done|]. change (j :: js') with ([j] ++ js').
  by apply sublist_app.
Qed.

Lemma tab_duplicate_spec t nt es free leaked o :
  table_rep t es free leaked → Z.of_nat (length es) < 2 ^ 29 →
  table_rep nt [] [] 0 →
  wp (tab_duplicate nt) (λ '(r, nt') t' o', t' = t ∧ (r = 0 ∨ r = ENOMEM) ∧ (plenty o → r = 0 ∧ plenty o') ∧
    (r = 0 → ∃ free' leaked', table_rep nt' es free' leaked' ∧ free' `sublist_of` free)) t o.
Proof.
  intros (Ha & Hs & Hnd & Hfree) Hlen (Hna & Hns & _ & _).
  pose proof (free_length _ _ Hnd Hfree) as Hfl. pose proof Ha as (Hnum & _).
  rewrite length_fmap in Hnum.
  unfold tab_duplicate, tab_getsize, on_array at 1, array_getnum. wp_run.
  replace (mkTable (arr t) (slots t) (cells t)) with t by by destruct t.
  rewrite Hnum, Nat2Z.id. unfold on_array at 1. wp_run.
  wp_call (array_preallocate_spec _ _ (Z.of_nat (length es)) _ Hna); [lia|].
  intros r a' o' (-> & [(-> & _ & Ha' & Hmax & _)|(-> & Hfl1 & ->)]); wp_cond; wp_run;
    [|split_and!; [done|by right|by intros ?%plenty_head|done]].
  eapply wp_mono; [eapply (dup_entries_spec t es _ (length es) 0); done|]. cbn beta.
  intros nt1 t' o' (-> & -> & Hnt1 & Hsl & Hce). unfold on_slots at 1. wp_run.
  pose proof Hs as (ps & Hl & Hndp & HF & Hcs). pose proof (Forall2_length _ _ _ HF) as Hpl.
  wp_call (ll_copy_spec _ _ _ Hl); [lia|].
  intros r l' o' (-> & [(Hfl2 & -> & ->)|(_ & temp & -> & Htemp & ->)]); cbv match.
  { wp_run. split_and!; [by destruct t|by right|by intros ?%plenty_tail%plenty_head|done]. }
  assert (size temp = Z.of_nat (length (kept (list.tail (list.tail o)) ps))) as ->.
  { destruct Htemp as (ns & (_ & _ & _ & _ & ->) & ->). by rewrite length_fmap. }
  replace (mkTable (arr t) (slots t) (cells t)) with t by by destruct t.
  destruct (kept_hold _ _ _ (list.tail (list.tail o)) HF) as (js & HFk & Hsub).
  apply sublist_length in Hsub as Hle. pose proof (Forall2_length _ _ _ HFk) as Hkl.
  assert (slots_rep nt1 [] 0) as Hs1.
  { destruct Hns as (ps' & ?). exists ps'. by rewrite Hsl, Hce. }
  wp_call (dup_slots_spec t temp _ js nt1 [] 0 _ _ Htemp HFk Hs1); [lia|simpl; lia|].
  intros [r nt'] t' o'' (-> & Harr & Hr & Hp & js' & l & Hs' & Hsub'). simpl in Hs'.
  split_and!; [by destruct t|done|by intros ?; apply Hp, plenty_drop, plenty_tail, plenty_tail|]. intros ->. exists js', l.
  pose proof (transitivity Hsub' Hsub) as Hs2.
  split; [|done]. split_and!; [by rewrite Harr|done|by eapply sublist_NoDup|].
  intros j Hj. apply Hfree. by eapply elem_of_submseteq, sublist_submseteq.
Qed.

(** ** The table as a finite map *)
Inductive tab_op : Type := TabAdd (x : V) | TabRemove (i : Z) | TabGet (i : Z).
Inductive tab_res : Type := RIndex (i : Z) | RErr (e : Z) | REntry (x : option V).

Definition tab_exec (op : tab_op) : K (table V) tab_res :=
  match op with
  | TabAdd x => '(i, err) <- tab_add (Some x) 0; ret (if err =? 0 then RIndex i else RErr err)
  | TabRemove i => r <- tab_remove i; ret (RErr r)
  | TabGet i => x <- tab_getguy i; ret (REntry x)
  end.

(** A handle is never handed out twice, and denotes its pointer until it is
    removed. *)
Inductive map_step (M : gmap Z V) : tab_op → tab_res → gmap Z V → Prop :=
| map_add x i : M !! i = None → map_step M (TabAdd x) (RIndex i) (<[i := x]> M)
| map_add_fail x : map_step M (TabAdd x) (RErr ENOMEM) M
| map_remove i r : r = 0 ∨ r = -1 → map_step M (TabRemove i) (RErr r) (delete i M)
| map_get i : map_step M (TabGet i) (REntry (M !! i)) M.

Definition table_map (t : table V) (M : gmap Z V) : Prop :=
  ∃ es free leaked, table_rep t es free leaked ∧ (∀ i, M !! i = zlookup es i ≫= id).
Definition tab_pre (t : table V) (M : gmap Z V) (op : tab_op) (o : oracle) : Prop :=
  match op with
  | TabAdd _ => num (arr t) < 2 ^ 29
  | TabRemove i => num (arr t) < 2 ^ 29 ∧ is_Some (M !! i) ∧ ¬ fails o
  | TabGet i => 0 ≤ i < num (arr t)
  end.

Lemma entry_insert es i (x : option V) j :
  0 ≤ i < Z.of_nat (length es) →
  zlookup (<[Z.to_nat i := x]> es) j ≫= id = if decide (j = i) then x else zlookup es j ≫= id.
Proof.
  intros Hi. unfold zlookup. case_decide.
  - case_decide; subst; [by rewrite list_lookup_insert_eq by lia|].
    by rewrite list_lookup_insert_ne by lia.
  - case_decide; [lia|done].
Qed.
Lemma entry_snoc es (x : option V) j :
  zlookup (es ++ [x]) j ≫= id = if decide (j = Z.of_nat (length es)) then x else zlookup es j ≫= id.
Proof.
  unfold zlookup. do 2 case_decide; subst; try done; try lia.
  - rewrite Nat2Z.id, list_lookup_middle by done. done.
  - destruct (decide (j < Z.of_nat (length es))).
    + by rewrite lookup_app_l by lia.
    + rewrite lookup_ge_None_2 by (rewrite length_app; simpl; lia).
      by rewrite lookup_ge_None_2 by lia.
Qed.


(** [tab_remove] without memory.  When the integer that records the free
    slot cannot be allocated, the entry is cleared and the store goes through
    [NULL]; when the node of the list cannot be, [-1] is returned with the
    entry gone, and the slot and the integer are lost. *)
Theorem tab_remove_no_memory (t : table V) es free leaked (i : Z) (o : oracle) :
  table_rep t es free leaked → Z.of_nat (length es) < 2 ^ 29 →
  0 ≤ i < Z.of_nat (length es) → i ∉ free →
  (fails o → tab_remove i t o = Halt Fault) ∧
  (¬ fails o → fails (list.tail o) →
   wp (tab_remove i) (λ r t' _, r = -1 ∧
     table_rep t' (<[Z.to_nat i := None]> es) free (S leaked)) t o).
Proof.
  intros Ht Hlen Hi Hnin. split; [by eapply tab_remove_fault|]. intros Hok Hf.
  wp_call (tab_remove_spec _ _ _ _ i _ Ht); [done..|]. naive_solver.
Qed.


(** [tab_duplicate] into a new table leaves the source alone; when it
    returns [0] the copy has the same entries, and every slot it would reuse
    is a free slot of the source (some may be forgotten when an allocation
    inside [ll_copy] or [ll_push_back] fails). *)
Theorem tab_duplicate_copies (t nt : table V) es free leaked (o : oracle) :
  table_rep t es free leaked → Z.of_nat (length es) < 2 ^ 29 →
  table_rep nt [] [] 0 →
  wp (tab_duplicate nt) (λ '(r, nt') t' _, t' = t ∧ (r = 0 ∨ r = ENOMEM) ∧
    (r = 0 → ∃ free' leaked', table_rep nt' es free' leaked' ∧ free' `sublist_of` free)) t o.
Proof.
  intros Ht Hlen Hnt. wp_call (tab_duplicate_spec _ _ _ _ _ _ Ht Hlen Hnt). intros [r nt'] t' o' (? & ? & _ & ?). done.
Qed.

End Table.

(** ** A table with one free slot *)
Definition sample : table Z :=
  mkTable (mkArray 3 4 (Some [Some (Some 10); Some None; Some (Some 30); None]))
          (mkLL {[5%positive := mkNode 8%positive None]} (Some 5%positive) (Some 5%positive) 1)
          {[8%positive := 1]}.
Lemma sample_rep : table_rep sample [Some 10; None; Some 30] [1] 0.
Proof.
  split_and!.
  - repeat split; simpl; lia.
  - exists [8%positive]. split_and!; [|apply NoDup_singleton|by repeat constructor|done].
    exists [(5%positive, 8%positive)]. split; [|done].
    split_and!; [by simpl; eauto|apply NoDup_singleton|set_solver|done|done].
  - apply NoDup_singleton.
  - by intros i ->%list_elem_of_singleton.
Qed.
Definition sample_map : gmap Z Z := <[0 := 10]> (<[2 := 30]> ∅).
Lemma sample_table_map : table_map sample sample_map.
Proof.
  exists [Some 10; None; Some 30], [1], 0%nat. split; [exact sample_rep|]. intros i.
  destruct (decide (0 ≤ i < 3)) as [Hi|Hi].
  - assert (i = 0 ∨ i = 1 ∨ i = 2) as [->|[->| ->]] by lia; done.
  - unfold sample_map. rewrite !lookup_insert_ne, lookup_empty by lia.
    unfold zlookup. case_decide; [|done]. by rewrite lookup_ge_None_2 by (simpl; lia).
Qed.


Lemma tab_remove_no_memory_witness :
  tab_remove 2 sample [false] = Halt Fault ∧
  wp (tab_remove 2) (λ r t' _, r = -1 ∧ table_rep t' [Some 10; None; None] [1] 1)
    sample [true; false].
Proof.
  split.
  - apply (tab_remove_no_memory sample _ _ _ 2 [false] sample_rep);
      [simpl; lia|simpl; lia|set_solver|done].
  - apply (tab_remove_no_memory sample _ _ _ 2 [true; false] sample_rep);
      [simpl; lia|simpl; lia|set_solver|done|done].
Defined.

Definition no_table : table Z := mkTable (mkArray 0 0 None) (mkLL ∅ None None 0) ∅.
Lemma no_table_rep : table_rep no_table [] [] 0.
Proof.
  split_and!; [repeat split; simpl; lia| |constructor|set_solver].
  exists []. split_and!; [apply ll_rep_nil|constructor|constructor|done].
Qed.
Lemma tab_duplicate_copies_witness :
  table_rep sample [Some 10; None; Some 30] [1] 0 ∧ table_rep no_table [] [] 0 ∧
  wp (tab_duplicate no_table) (λ '(r, nt') t' _, t' = sample ∧ (r = 0 ∨ r = ENOMEM) ∧
    (r = 0 → ∃ free' leaked', table_rep nt' [Some 10; None; Some 30] free' leaked' ∧
       free' `sublist_of` [1])) sample [].
Proof.
  split; [exact sample_rep|]. split; [exact no_table_rep|].
  apply (tab_duplicate_copies sample no_table _ _ _ [] sample_rep); [simpl; lia|exact no_table_rep].
Defined.
