(* ===== verification/Memory.v ===== *)
(** * Memory and the C library's block operations

    src/lib/libc/{memcpy,memmove,bzero}.c, which the kernel is linked with.

    [machine] is the memory the kernel sees: the bytes that exist, and, for
    the user half of the address space, what becomes of an access that is not
    served by the TLB.  The fault handler either makes the access succeed
    ([AOk]), refuses it ([AFault]), in which case the kernel resumes in
    [pcb_badfaultfunc] if that is set and panics otherwise
    (src/kern/arch/mips/mips/trap.c), or kills the thread ([AKill]). *)
From S2P Require Import Prelude.

Definition MIPS_KSEG0 : Z := 0x80000000.
Definition USERTOP : Z := MIPS_KSEG0.
Definition PAGE_SIZE : Z := 4096.
Definition PAGE_FRAME : Z := 0xfffff000.

(** The page and the offset of an address *)
Lemma land_page_frame x : 0 ≤ x < 2 ^ 32 → Z.land x PAGE_FRAME = x - x mod PAGE_SIZE.
Proof.
  intros Hx. assert (Z.land x PAGE_FRAME = Z.ldiff x (Z.ones 12)) as ->.
  { change PAGE_FRAME with (Z.ldiff (Z.ones 32) (Z.ones 12)).
    rewrite <- (Z.mod_small x (2 ^ 32)) at 2 by done. rewrite <- Z.land_ones by lia.
    apply Z.bits_inj'. intros k Hk. rewrite !Z.land_spec, !Z.ldiff_spec, !Z.land_spec.
    by rewrite andb_assoc. }
  rewrite Z.ldiff_ones_r, Z.shiftl_mul_pow2, Z.shiftr_div_pow2 by lia.
  unfold PAGE_SIZE. change (2 ^ 12) with 4096. pose proof (Z.div_mod x 4096). lia.
Qed.
Lemma land_page_offset x : Z.land x 4095 = x mod PAGE_SIZE.
Proof. change 4095 with (Z.ones 12). by rewrite Z.land_ones. Qed.
Lemma lor_page pa t :
  0 ≤ t < PAGE_SIZE → pa mod PAGE_SIZE = 0 → Z.lor pa t = pa + t.
Proof.
  intros Ht Hpa. unfold PAGE_SIZE in *. apply Z.mod_divide in Hpa as [q ->]; [|lia].
  rewrite <- Z.lxor_lor, <- Z.add_nocarry_lxor; [done|..];
    (change 4096 with (2 ^ 12) in *; rewrite <- Z.shiftl_mul_pow2 by lia;
     apply Z.bits_inj'; intros k Hk; rewrite Z.land_spec, Z.testbit_0_l;
     destruct (decide (k < 12));
     [by rewrite Z.shiftl_spec_low by lia
     |assert (Z.testbit t k = false) as ->; [|by rewrite andb_false_r];
      rewrite <- (Z.mod_small t (2 ^ 12)) by lia; by rewrite Z.mod_pow2_bits_high by lia]).
Qed.

Inductive access : Set := AOk | AFault | AKill.

Record machine : Type := mkMachine {
  mem : gmap Z Z;
  urd : Z → access;
  uwr : Z → access;
  badfault : bool;
}.

Definition set_mem (f : gmap Z Z → gmap Z Z) : K machine unit :=
  modify (λ m, mkMachine (f (mem m)) (urd m) (uwr m) (badfault m)).
Definition set_badfault (b : bool) : K machine unit :=
  modify (λ m, mkMachine (mem m) (urd m) (uwr m) b).

(** ** Accesses

    An operation that may be cut short by a fault returns [None] when control
    has gone to [pcb_badfaultfunc]. *)
Definition bindo {S A B} (m : K S (option A)) (f : A → K S (option B)) : K S (option B) :=
  r <- m; match r with None => ret None | Some a => f a end.
Notation "x <-? m ; k" := (bindo m (λ x, k))
  (at level 20, m at level 100, k at level 200, only parsing) : kernel_scope.

Definition check_access (a : access) : K machine (option unit) :=
  match a with
  | AOk => ret (Some tt)
  | AFault => m <- kget; if badfault m then ret None else panic
  | AKill => halt Exit
  end.

(** [n] bytes from address [a], one aligned access *)
Fixpoint bytes_at (h : gmap Z Z) (a : Z) (n : nat) : option (list Z) :=
  match n with
  | O => Some []
  | Datatypes.S n' => x ← h !! a; xs ← bytes_at h (a + 1) n'; Some (x :: xs)
  end.
Fixpoint write_at (h : gmap Z Z) (a : Z) (bs : list Z) : gmap Z Z :=
  match bs with
  | [] => h
  | x :: bs' => write_at (<[a := x]> h) (a + 1) bs'
  end.
Definition mload (w : nat) (a : Z) : K machine (option (list Z)) :=
  m <- kget;
  _ <-? check_access (if a <? USERTOP then urd m a else AOk);
  bs <- deref (bytes_at (mem m) a w);
  ret (Some bs).
Definition mstore (a : Z) (bs : list Z) : K machine (option unit) :=
  m <- kget;
  _ <-? check_access (if a <? USERTOP then uwr m a else AOk);
  _ <- deref (bytes_at (mem m) a (length bs));
  _ <- set_mem (λ h, write_at h a bs);
  ret (Some tt).

(** ** memcpy, memmove and bzero

    [w] is [sizeof(char)] or [sizeof(long)]. *)

(** [for (i=i0; n more times; i++) d[i] = s[i];] *)
Fixpoint copy_forward (w n : nat) (i d s : Z) : K machine (option unit) :=
  match n with
  | O => ret (Some tt)
  | Datatypes.S n' =>
      x <-? mload w (u32 (s + i * Z.of_nat w));
      _ <-? mstore (u32 (d + i * Z.of_nat w)) x;
      copy_forward w n' (i + 1) d s
  end.
(** [for (i=n; i>0; i--) d[i-1] = s[i-1];] *)
Fixpoint copy_backward (w n : nat) (d s : Z) : K machine (option unit) :=
  match n with
  | O => ret (Some tt)
  | Datatypes.S n' =>
      x <-? mload w (u32 (s + Z.of_nat n' * Z.of_nat w));
      _ <-? mstore (u32 (d + Z.of_nat n' * Z.of_nat w)) x;
      copy_backward w n' d s
  end.
Definition memcpy (dst src len : Z) : K machine (option unit) :=
  if (dst mod 4 =? 0) && (src mod 4 =? 0) && (len mod 4 =? 0)
  then copy_forward 4 (Z.to_nat (len / 4)) 0 dst src
  else copy_forward 1 (Z.to_nat len) 0 dst src.
Definition memmove (dst src len : Z) : K machine (option unit) :=
  if dst <? src then memcpy dst src len
  else if (dst mod 4 =? 0) && (src mod 4 =? 0) && (len mod 4 =? 0)
  then copy_backward 4 (Z.to_nat (len / 4)) dst src
  else copy_backward 1 (Z.to_nat len) dst src.

(** [for (i=i0; n more times; i++) b[i] = 0;] *)
Fixpoint zero_forward (w n : nat) (i b : Z) : K machine (option unit) :=
  match n with
  | O => ret (Some tt)
  | Datatypes.S n' =>
      _ <-? mstore (u32 (b + i * Z.of_nat w)) (replicate w 0);
      zero_forward w n' (i + 1) b
  end.
Definition bzero (block len : Z) : K machine (option unit) :=
  if (block mod 4 =? 0) && (len mod 4 =? 0)
  then zero_forward 4 (Z.to_nat (len / 4)) 0 block
  else zero_forward 1 (Z.to_nat len) 0 block.

(** ** Bytes *)
Lemma bytes_at_length h a n bs : bytes_at h a n = Some bs → length bs = n.
Proof.
  revert a bs. induction n as [|n IH]; intros a bs H; simplify_eq/=; [done|].
  destruct (h !! a), (bytes_at h (a + 1) n) eqn:Hn; simplify_eq/=. by erewrite IH.
Qed.
Lemma bytes_at_Some h a n bs :
  bytes_at h a n = Some bs ↔
  length bs = n ∧ ∀ k, (k < n)%nat → h !! (a + Z.of_nat k) = bs !! k.
Proof.
  revert a bs. induction n as [|n IH]; intros a bs; simpl.
  { split; [intros [= <-]; split; [done|lia]|]. intros [?%nil_length_inv _]. by subst. }
  split.
  - destruct (h !! a) as [x|] eqn:Hx; [|done]. simpl.
    destruct (bytes_at h (a + 1) n) as [xs|] eqn:Hxs; [|done]. intros [= <-].
    apply IH in Hxs as [Hlen Hk]. split; [simpl; lia|]. intros [|k] Hlt; simpl.
    + by rewrite Z.add_0_r.
    + rewrite <- Hk by lia. f_equal. lia.
  - intros [Hlen Hk]. destruct bs as [|x bs]; [done|]. simpl in Hlen.
    pose proof (Hk 0%nat ltac:(lia)) as H0. rewrite Z.add_0_r in H0. simpl in H0. rewrite H0. simpl.
    rewrite (proj2 (IH (a + 1) bs)); [done|]. split; [lia|]. intros k Hlt.
    change (bs !! k) with ((x :: bs) !! S k). rewrite <- Hk by lia. f_equal. lia.
Qed.
Lemma bytes_at_app h a n m :
  bytes_at h a (n + m) =
  xs ← bytes_at h a n; ys ← bytes_at h (a + Z.of_nat n) m; Some (xs ++ ys).
Proof.
  revert a. induction n as [|n IH]; intros a; simpl.
  { rewrite Z.add_0_r. by destruct (bytes_at h a m). }
  destruct (h !! a); [|done]. simpl. rewrite IH.
  replace (a + Z.of_nat (S n)) with (a + 1 + Z.of_nat n) by lia.
  destruct (bytes_at h (a + 1) n); [|done]. simpl. by destruct (bytes_at h _ m).
Qed.
Lemma write_at_lookup h a bs b :
  write_at h a bs !! b =
  if decide (a ≤ b < a + Z.of_nat (length bs)) then bs !! Z.to_nat (b - a) else h !! b.
Proof.
  revert h a. induction bs as [|x bs IH]; intros h a; simpl.
  { rewrite decide_False by lia. done. }
  rewrite IH. destruct (decide (a + 1 ≤ b < a + 1 + Z.of_nat (length bs))).
  - rewrite decide_True by lia. replace (Z.to_nat (b - a)) with (S (Z.to_nat (b - (a + 1)))) by lia.
    done.
  - destruct (decide (b = a)) as [->|].
    + rewrite decide_True, lookup_insert_eq by lia. by rewrite Z.sub_diag.
    + rewrite lookup_insert_ne by done. by rewrite decide_False by lia.
Qed.
Lemma write_at_app h a bs cs :
  write_at h a (bs ++ cs) = write_at (write_at h a bs) (a + Z.of_nat (length bs)) cs.
Proof.
  revert h a. induction bs as [|x bs IH]; intros h a; simpl; [by rewrite Z.add_0_r|].
  rewrite IH. f_equal. lia.
Qed.
Lemma write_at_nil h a : write_at h a [] = h.
Proof. done. Qed.

(** [n] accessible bytes from [a] do not wrap around. *)
Definition no_wrap (a len : Z) : Prop := 0 ≤ a ∧ 0 ≤ len ∧ a + len ≤ 2 ^ 32.
Definition readable (m : machine) (a : Z) : Prop := a < USERTOP → urd m a = AOk.
Definition writeable (m : machine) (a : Z) : Prop := a < USERTOP → uwr m a = AOk.

(** Changing memory only *)
Definition with_mem (m : machine) (h : gmap Z Z) : machine :=
  mkMachine h (urd m) (uwr m) (badfault m).
Lemma with_mem_id m : with_mem m (mem m) = m.
Proof. by destruct m. Qed.

(** An access either succeeds, or is refused with [pcb_badfaultfunc] set. *)
Definition may_read (m : machine) (a : Z) : Prop :=
  a < USERTOP → urd m a = AOk ∨ (urd m a = AFault ∧ badfault m = true).
Definition may_write (m : machine) (a : Z) : Prop :=
  a < USERTOP → uwr m a = AOk ∨ (uwr m a = AFault ∧ badfault m = true).

Lemma mload_spec m w a bs o :
  bytes_at (mem m) a w = Some bs → may_read m a →
  wp (mload w a) (λ r m' o', m' = m ∧ o' = o ∧
    ((r = Some bs ∧ readable m a) ∨ (r = None ∧ ¬ readable m a ∧ badfault m = true))) m o.
Proof.
  intros Hbs Ha. unfold mload, bindo, check_access, readable, may_read in *. wp_run.
  destruct (Z.ltb_spec a USERTOP).
  - destruct (Ha ltac:(done)) as [->|[-> Hb]]; wp_run.
    + rewrite Hbs. wp_run. eauto.
    + rewrite Hb. wp_run. split_and!; [done..|]. right. split_and!; [done| |done].
      intros Hok. by specialize (Hok ltac:(done)).
  - wp_run. rewrite Hbs. wp_run. split_and!; [done..|]. left. split; [done|lia].
Qed.
Lemma mstore_spec m a bs old o :
  bytes_at (mem m) a (length bs) = Some old → may_write m a →
  wp (mstore a bs) (λ r m' o', o' = o ∧
    ((r = Some tt ∧ m' = with_mem m (write_at (mem m) a bs) ∧ writeable m a) ∨
     (r = None ∧ m' = m ∧ ¬ writeable m a ∧ badfault m = true))) m o.
Proof.
  intros Hbs Ha. unfold mstore, bindo, check_access, set_mem, writeable, may_write in *. wp_run.
  destruct (Z.ltb_spec a USERTOP).
  - destruct (Ha ltac:(done)) as [->|[-> Hb]]; wp_run.
    + rewrite Hbs. wp_run. eauto.
    + rewrite Hb. wp_run. split_and!; [done..|]. right. split_and!; [done|done| |done].
      intros Hok. by specialize (Hok ltac:(done)).
  - wp_run. rewrite Hbs. wp_run. split_and!; [done..|]. left. split_and!; [done..|lia].
Qed.

(** *** Slices *)
Lemma bytes_at_slice h a n bs k l :
  bytes_at h a n = Some bs → (k + l ≤ n)%nat →
  bytes_at h (a + Z.of_nat k) l = Some (take l (drop k bs)).
Proof.
  intros [Hlen Hk]%bytes_at_Some Hle. apply bytes_at_Some. split.
  - rewrite length_take, length_drop. lia.
  - intros j Hj. rewrite lookup_take_lt, lookup_drop by lia. rewrite <- Hk by lia. f_equal. lia.
Qed.
Lemma bytes_at_prefix h a n bs l :
  bytes_at h a n = Some bs → (l ≤ n)%nat → bytes_at h a l = Some (take l bs).
Proof.
  intros Hbs Hl. rewrite <- (Z.add_0_r a). rewrite <- (drop_0 bs).
  by apply (bytes_at_slice h a n bs 0 l).
Qed.
Lemma bytes_at_is_Some h a n :
  is_Some (bytes_at h a n) ↔ ∀ k, (k < n)%nat → is_Some (h !! (a + Z.of_nat k)).
Proof.
  split.
  - intros [bs [Hlen Hk]%bytes_at_Some] k Hlt. rewrite Hk by done.
    apply lookup_lt_is_Some. lia.
  - revert a. induction n as [|n IH]; intros a Hk; simpl; [by eexists|].
    pose proof (Hk 0%nat ltac:(lia)) as [x Hx]. rewrite Z.add_0_r in Hx. rewrite Hx. simpl.
    destruct (IH (a + 1)) as [xs Hxs].
    { intros k Hlt. replace (a + 1 + Z.of_nat k) with (a + Z.of_nat (S k)) by lia. apply Hk. lia. }
    rewrite Hxs. by eexists.
Qed.
Lemma bytes_at_write_ne h d bs a n :
  (∀ k, (k < n)%nat → ¬ (d ≤ a + Z.of_nat k < d + Z.of_nat (length bs))) →
  bytes_at (write_at h d bs) a n = bytes_at h a n.
Proof.
  revert a. induction n as [|n IH]; intros a Hne; simpl; [done|].
  rewrite IH.
  - rewrite write_at_lookup, decide_False; [done|]. specialize (Hne 0%nat ltac:(lia)). lia.
  - intros k Hlt. specialize (Hne (S k) ltac:(lia)). lia.
Qed.
Lemma bytes_at_write_eq h a bs : bytes_at (write_at h a bs) a (length bs) = Some bs.
Proof.
  apply bytes_at_Some. split; [done|]. intros k Hk.
  rewrite write_at_lookup, decide_True by lia. f_equal. lia.
Qed.
Lemma bytes_at_write_is_Some h d bs a n :
  is_Some (bytes_at h a n) → is_Some (bytes_at (write_at h d bs) a n).
Proof.
  rewrite !bytes_at_is_Some. intros H k Hk. rewrite write_at_lookup. case_decide; [|by apply H].
  apply lookup_lt_is_Some. lia.
Qed.
Lemma bytes_at_sub_is_Some h a n k l :
  is_Some (bytes_at h a n) → (k + l ≤ n)%nat → is_Some (bytes_at h (a + Z.of_nat k) l).
Proof. intros [bs Hbs] Hle. rewrite (bytes_at_slice _ _ _ _ _ _ Hbs Hle). by eexists. Qed.

Lemma bytes_at_prefix_is_Some h a n l :
  is_Some (bytes_at h a n) → (l ≤ n)%nat → is_Some (bytes_at h a l).
Proof. intros [bs Hbs] Hl. rewrite (bytes_at_prefix _ _ _ _ _ Hbs Hl). by eexists. Qed.

(** *** The copy loops

    [N] units of [w] bytes are copied from [s] to [d]; [bs] are the bytes at
    [s] before the copy. *)
Section Copy.
  Context (m0 : machine) (w N : nat) (d s : Z) (bs : list Z) (o : oracle).
Let len : Z := Z.of_nat (N * w).
  Context (Hs : no_wrap s len) (Hd : no_wrap d len) (Hw : (0 < w)%nat).
  Context (Hbs : bytes_at (mem m0) s (N * w) = Some bs).
  Context (Hdst : is_Some (bytes_at (mem m0) d (N * w))).
  Context (Hrd : ∀ j, (j < N)%nat → may_read m0 (s + Z.of_nat (j * w))).
  Context (Hwr : ∀ j, (j < N)%nat → may_write m0 (d + Z.of_nat (j * w))).

Definition all_accessible : Prop :=
  ∀ j, (j < N)%nat → readable m0 (s + Z.of_nat (j * w)) ∧ writeable m0 (d + Z.of_nat (j * w)).

(** The loop went through, or was cut short by an access that is refused,
    with [pcb_badfaultfunc] set, when only a part of the destination had been
    written. *)
Definition copy_post (part : nat → gmap Z Z) (r : option unit) (m' : machine) (o' : oracle) : Prop :=
  o' = o ∧
  ((r = Some tt ∧ m' = with_mem m0 (write_at (mem m0) d bs)) ∨
   (r = None ∧ badfault m0 = true ∧ ¬ all_accessible ∧
    ∃ k, (k ≤ N)%nat ∧ m' = with_mem m0 (part k))).

Definition written_to (k : nat) : gmap Z Z := write_at (mem m0) d (take (k * w) bs).
Definition written_from (k : nat) : gmap Z Z :=
  write_at (mem m0) (d + Z.of_nat (k * w)) (drop (k * w) bs).

Lemma copy_length : length bs = (N * w)%nat.
Proof. by eapply bytes_at_length. Qed.
Lemma unit_le j : (j < N)%nat → (j * w + w ≤ N * w)%nat.
Proof. nia. Qed.

(** One unit, in a state that still has the unit's source bytes. *)
Lemma copy_unit h j (rest : machine → K machine (option unit)) Q :
  (j < N)%nat →
  bytes_at h (s + Z.of_nat (j * w)) w = Some (take w (drop (j * w) bs)) →
  is_Some (bytes_at h (d + Z.of_nat (j * w)) w) →
  (¬ all_accessible → badfault m0 = true → Q None (with_mem m0 h) o) →
  (∀ m1, m1 = with_mem m0 (write_at h (d + Z.of_nat (j * w)) (take w (drop (j * w) bs))) →
    wp (rest m1) Q m1 o) →
  wp (x <-? mload w (u32 (s + Z.of_nat j * Z.of_nat w));
      _ <-? mstore (u32 (d + Z.of_nat j * Z.of_nat w)) x;
      λ m1 o1, rest m1 m1 o1) Q (with_mem m0 h) o.
Proof.
  intros Hj Hsrc [old Hold] Hbad Hrest. pose proof (unit_le j Hj) as Hle. unfold no_wrap, len in *.
  rewrite !u32_small by nia. rewrite <- !Nat2Z.inj_mul. unfold bindo. wp_step.
  eapply wp_mono; [eapply mload_spec; [exact Hsrc|apply Hrd, Hj]|]. cbn beta.
  intros r m' o' (-> & -> & [(-> & _)|(-> & Hno & Hbf)]); wp_run.
  2: { apply Hbad; [|done]. intros Hall. by apply Hno, Hall. }
  eapply wp_mono; [eapply mstore_spec; [|apply Hwr, Hj]|].
  { rewrite length_take, length_drop, copy_length, Nat.min_l by lia. exact Hold. }
  cbn beta. intros r m' o' (-> & [(-> & -> & _)|(-> & -> & Hno & Hbf)]).
  - by apply Hrest.
  - wp_run. apply Hbad; [|done]. intros Hall. by apply Hno, Hall.
Qed.

Lemma copy_forward_spec n i :
  d ≤ s ∨ s + len ≤ d → (i + n = N)%nat →
  wp (copy_forward w n (Z.of_nat i) d s) (copy_post written_to)
    (with_mem m0 (written_to i)) o.
Proof.
  intros Hov. revert i. induction n as [|n IH]; intros i Hi; cbn [copy_forward].
  { wp_run. split; [done|]. left. split; [done|]. unfold written_to.
    by rewrite take_ge by (rewrite copy_length; nia). }
  assert (i < N)%nat as Hlt by lia. pose proof (unit_le i Hlt) as Hle.
  assert (length (take (i * w) bs) = (i * w)%nat) as Hlen
    by (rewrite length_take, copy_length; lia).
  apply (copy_unit (written_to i) i (λ _, copy_forward w n (Z.of_nat i + 1) d s)); [done|..].
  - unfold written_to. rewrite bytes_at_write_ne.
    + by apply bytes_at_slice with (N * w)%nat.
    + intros k Hk. rewrite Hlen. unfold len in *. lia.
  - apply bytes_at_write_is_Some. by eapply bytes_at_sub_is_Some.
  - intros Hno Hbf. split; [done|]. right. split_and!; [done..|]. exists i. split; [lia|done].
  - intros m1 ->. replace (Z.of_nat i + 1) with (Z.of_nat (S i)) by lia.
    replace (with_mem m0 _) with (with_mem m0 (written_to (S i))); [apply IH; lia|].
    f_equal. unfold written_to.
    replace (take (S i * w) bs) with (take (i * w) bs ++ take w (drop (i * w) bs))
      by (rewrite take_take_drop; f_equal; lia).
    by rewrite write_at_app, Hlen.
Qed.

Lemma copy_backward_spec n :
  s ≤ d → (n ≤ N)%nat →
  wp (copy_backward w n d s) (copy_post written_from) (with_mem m0 (written_from n)) o.
Proof.
  intros Hov. induction n as [|n IH]; intros Hn; cbn [copy_backward].
  { wp_run. split; [done|]. left. split; [done|]. unfold written_from.
    by rewrite drop_0, Z.add_0_r. }
  assert (n < N)%nat as Hlt by lia. pose proof (unit_le n Hlt) as Hle.
  apply (copy_unit (written_from (S n)) n (λ _, copy_backward w n d s)); [done|..].
  - unfold written_from. rewrite bytes_at_write_ne.
    + by apply bytes_at_slice with (N * w)%nat.
    + intros k Hk. rewrite length_drop, copy_length. lia.
  - apply bytes_at_write_is_Some. by eapply bytes_at_sub_is_Some.
  - intros Hno Hbf. split; [done|]. right. split_and!; [done..|]. exists (S n). split; [lia|done].
  - intros m1 ->. replace (with_mem m0 _) with (with_mem m0 (written_from n)); [apply IH; lia|].
    f_equal. unfold written_from. rewrite <- (take_drop w (drop (n * w) bs)) at 1.
    rewrite drop_drop. replace (n * w + w)%nat with (S n * w)%nat by lia.
    assert (length (take w (drop (n * w) bs)) = w) as Hl
      by (rewrite length_take, length_drop, copy_length; lia).
    apply map_eq. intros b. rewrite !write_at_lookup, length_app, length_drop, copy_length, Hl.
    repeat case_decide; try lia; try done.
    + rewrite lookup_app_l by lia. done.
    + rewrite lookup_app_r by lia. f_equal. lia.
Qed.

End Copy.

(** *** The functions *)
Section Blocks.
  Context (m : machine) (dst src len : Z) (bs : list Z) (o : oracle).
  Context (Hs : no_wrap src len) (Hd : no_wrap dst len).
  Context (Hbs : bytes_at (mem m) src (Z.to_nat len) = Some bs).
  Context (Hdst : is_Some (bytes_at (mem m) dst (Z.to_nat len))).
  Context (Hrd : ∀ a, src ≤ a < src + len → may_read m a).
  Context (Hwr : ∀ a, dst ≤ a < dst + len → may_write m a).

(** Every byte of both blocks can be accessed. *)
Definition block_accessible : Prop :=
  (∀ a, src ≤ a < src + len → readable m a) ∧ (∀ a, dst ≤ a < dst + len → writeable m a).

(** The part of the destination that was written before a fault is a prefix
    or a suffix of it. *)
Definition block_post (r : option unit) (m' : machine) (o' : oracle) : Prop :=
  o' = o ∧
  ((r = Some tt ∧ m' = with_mem m (write_at (mem m) dst bs)) ∨
   (r = None ∧ badfault m = true ∧ ¬ block_accessible ∧ ∃ k, (k ≤ length bs)%nat ∧
     (m' = with_mem m (write_at (mem m) dst (take k bs)) ∨
      m' = with_mem m (write_at (mem m) (dst + Z.of_nat k) (drop k bs))))).

Lemma copy_post_block w N part r m' o' :
  (0 < w)%nat → (N * w = Z.to_nat len)%nat →
  part = written_to m w dst bs ∨ part = written_from m w dst bs →
  copy_post m w N dst src bs o part r m' o' → block_post r m' o'.
Proof.
  intros Hw HN Hpart (-> & [Hok|(-> & Hbf & Hno & k & Hk & ->)]); (split; [done|]); [by left|].
  right. pose proof (bytes_at_length _ _ _ _ Hbs) as Hlen. unfold no_wrap in *. split_and!; try done.
  - intros [Hr Hw']. apply Hno. intros j Hj.
    assert (Z.of_nat (j * w) < len) by nia. split; [apply Hr|apply Hw']; lia.
  - exists (k * w)%nat. split; [nia|]. destruct Hpart as [->| ->]; [left|right]; done.
Qed.

Lemma units_of (w N : nat) :
  (0 < w)%nat → (N * w = Z.to_nat len)%nat →
  no_wrap src (Z.of_nat (N * w)) ∧ no_wrap dst (Z.of_nat (N * w)) ∧
  (∀ j, (j < N)%nat → may_read m (src + Z.of_nat (j * w))) ∧
  (∀ j, (j < N)%nat → may_write m (dst + Z.of_nat (j * w))).
Proof.
  intros Hw HN. unfold no_wrap in *. rewrite HN. split_and!; try lia.
  - intros j Hj. apply Hrd. assert (Z.of_nat (j * w) < len) by nia. lia.
  - intros j Hj. apply Hwr. assert (Z.of_nat (j * w) < len) by nia. lia.
Qed.

Lemma aligned_units : len mod 4 = 0 → (Z.to_nat (len / 4) * 4 = Z.to_nat len)%nat.
Proof. unfold no_wrap in *. intros. pose proof (Z.div_mod len 4). lia. Qed.

Lemma forward_spec w N :
  (0 < w)%nat → (N * w = Z.to_nat len)%nat → dst ≤ src ∨ src + len ≤ dst →
  wp (copy_forward w N 0 dst src) block_post m o.
Proof.
  intros Hw HN Hov. destruct (units_of w N Hw HN) as (Hs' & Hd' & Hr' & Hw').
  assert (wp (copy_forward w N (Z.of_nat 0) dst src)
    (copy_post m w N dst src bs o (written_to m w dst bs))
    (with_mem m (written_to m w dst bs 0)) o) as Hcopy.
  { apply (copy_forward_spec m w N dst src bs o Hs' Hd' Hw); try done; try by rewrite HN.
    unfold no_wrap in *. rewrite HN, Z2Nat.id by lia. done. }
  rewrite (with_mem_id m : with_mem m (written_to m w dst bs 0) = m) in Hcopy.
  eapply wp_mono; [exact Hcopy|]. intros r m' o'. eapply copy_post_block; eauto.
Qed.
Lemma backward_spec w N :
  (0 < w)%nat → (N * w = Z.to_nat len)%nat → src ≤ dst →
  wp (copy_backward w N dst src) block_post m o.
Proof.
  intros Hw HN Hov. destruct (units_of w N Hw HN) as (Hs' & Hd' & Hr' & Hw').
  assert (wp (copy_backward w N dst src)
    (copy_post m w N dst src bs o (written_from m w dst bs))
    (with_mem m (written_from m w dst bs N)) o) as Hcopy.
  { apply (copy_backward_spec m w N dst src bs o Hs' Hd' Hw); try done; try by rewrite HN. }
  assert (with_mem m (written_from m w dst bs N) = m) as Heq.
  { unfold written_from. pose proof (bytes_at_length _ _ _ _ Hbs).
    rewrite drop_ge by lia. apply with_mem_id. }
  rewrite Heq in Hcopy.
  eapply wp_mono; [exact Hcopy|]. intros r m' o'. eapply copy_post_block; eauto.
Qed.

Lemma memcpy_spec :
  dst ≤ src ∨ src + len ≤ dst → wp (memcpy dst src len) block_post m o.
Proof.
  intros Hov. unfold memcpy. destruct (_ && _) eqn:Hal.
  - rewrite !andb_true_iff, !Z.eqb_eq in Hal. apply forward_spec; [lia| |done].
    apply aligned_units. lia.
  - apply forward_spec; [lia..|done].
Qed.

Lemma memmove_spec : wp (memmove dst src len) block_post m o.
Proof.
  unfold memmove. destruct (Z.ltb_spec dst src); [apply memcpy_spec; lia|].
  destruct (_ && _) eqn:Hal.
  - rewrite !andb_true_iff, !Z.eqb_eq in Hal. apply backward_spec; [lia| |lia].
    apply aligned_units. lia.
  - apply backward_spec; lia.
Qed.

End Blocks.

(** A block of the kernel's half is cleared. *)
Lemma zero_forward_spec m w N b n i o :
  (0 < w)%nat → (i + n = N)%nat → USERTOP ≤ b → no_wrap b (Z.of_nat (N * w)) →
  is_Some (bytes_at (mem m) b (N * w)) →
  wp (zero_forward w n (Z.of_nat i) b)
    (λ r m' o', r = Some tt ∧ o' = o ∧ m' = with_mem m (write_at (mem m) b (replicate (N * w) 0)))
    (with_mem m (write_at (mem m) b (replicate (i * w) 0))) o.
Proof.
  intros Hw. revert i. induction n as [|n IH]; intros i HN Hb Hnw Hal; cbn [zero_forward].
  { wp_run. by replace i with N by lia. }
  unfold bindo, no_wrap in *. assert (Z.of_nat (i * w) < Z.of_nat (N * w)) by nia.
  rewrite u32_small by nia. rewrite <- Nat2Z.inj_mul. wp_step.
  destruct (bytes_at_sub_is_Some _ _ _ (i * w) w Hal) as [old Hold]; [nia|].
  destruct (bytes_at_write_is_Some (mem m) b (replicate (i * w) 0) (b + Z.of_nat (i * w)) w) as
    [old' Hold']; [by rewrite Hold|].
  eapply wp_mono; [eapply mstore_spec|].
  { simpl. rewrite length_replicate. exact Hold'. }
  { intros Hu. unfold USERTOP in *. lia. }
  cbn beta. intros r m' o' (-> & [(-> & -> & _)|(_ & _ & [] & _)]).
  2: { intros Hu. unfold USERTOP in *. lia. }
  replace (Z.of_nat i + 1) with (Z.of_nat (S i)) by lia.
  match goal with |- wp _ _ ?st _ =>
    assert (st = with_mem m (write_at (mem m) b (replicate (S i * w) 0))) as ->;
      [|by apply IH; [lia|..]] end.
  unfold with_mem. simpl. f_equal. replace (w + i * w)%nat with (i * w + w)%nat by lia.
  by rewrite replicate_add, write_at_app, length_replicate.
Qed.
Lemma bzero_spec m block len o :
  USERTOP ≤ block → no_wrap block len → is_Some (bytes_at (mem m) block (Z.to_nat len)) →
  wp (bzero block len) (λ r m' o', r = Some tt ∧ o' = o ∧
    m' = with_mem m (write_at (mem m) block (replicate (Z.to_nat len) 0))) m o.
Proof.
  intros Hb Hnw Hal. pose proof Hnw as (_ & ? & _).
  assert (∀ w N, (0 < w)%nat → (N * w = Z.to_nat len)%nat →
    wp (zero_forward w N (Z.of_nat 0) block) (λ r m' o', r = Some tt ∧ o' = o ∧
      m' = with_mem m (write_at (mem m) block (replicate (Z.to_nat len) 0))) m o) as Hz.
  { intros w N Hw HN. pose proof (zero_forward_spec m w N block N 0 o Hw eq_refl Hb) as Hz.
    rewrite HN, Z2Nat.id, (with_mem_id m : with_mem m (write_at _ _ (replicate (0 * w) 0)) = m) in Hz
      by lia. by apply Hz. }
  unfold bzero. destruct (_ && _) eqn:Ha; apply Hz; try lia.
  rewrite andb_true_iff, !Z.eqb_eq in Ha. pose proof (Z.div_mod len 4). lia.
Qed.

(** C28: [memmove] between accessible blocks, which may overlap in any way and
    be copied by bytes or by words, leaves in the destination what the source
    held before, and changes no other byte. *)
Theorem memmove_moves (m : machine) (dst src len : Z) (bs : list Z) (o : oracle) :
  no_wrap src len → no_wrap dst len →
  bytes_at (mem m) src (Z.to_nat len) = Some bs →
  is_Some (bytes_at (mem m) dst (Z.to_nat len)) →
  block_accessible m dst src len →
  wp (memmove dst src len) (λ r m' _, r = Some tt ∧
    bytes_at (mem m') dst (Z.to_nat len) = Some bs ∧
    ∀ a, ¬ (dst ≤ a < dst + len) → mem m' !! a = mem m !! a) m o.
Proof.
  intros Hs Hd Hbs Hdst Hacc. pose proof (bytes_at_length _ _ _ _ Hbs) as Hlen.
  unfold no_wrap in Hs.
  eapply wp_mono; [apply memmove_spec; try done|].
  - intros a Ha Hu. left. by apply Hacc.
  - intros a Ha Hu. left. by apply Hacc.
  - intros r m' o' (_ & [(-> & ->)|(_ & _ & [] & _)]); [|done]. split; [done|]. simpl. split.
    + rewrite <- Hlen. apply bytes_at_write_eq.
    + intros a Ha. rewrite write_at_lookup, decide_False; [done|]. lia.
Qed.

(** Eight bytes moved up by four: the word loop, overlapping. *)
Definition sample_machine : machine :=
  mkMachine (write_at ∅ MIPS_KSEG0 [1; 2; 3; 4; 5; 6; 7; 8; 9; 10; 11; 12])
            (λ _, AFault) (λ _, AFault) false.
Lemma memmove_moves_witness :
  wp (memmove (MIPS_KSEG0 + 4) MIPS_KSEG0 8) (λ r m' _, r = Some tt ∧
    bytes_at (mem m') (MIPS_KSEG0 + 4) 8 = Some [1; 2; 3; 4; 5; 6; 7; 8] ∧
    ∀ a, ¬ (MIPS_KSEG0 + 4 ≤ a < MIPS_KSEG0 + 4 + 8) → mem m' !! a = mem sample_machine !! a)
    sample_machine [].
Proof.
  apply (memmove_moves sample_machine (MIPS_KSEG0 + 4) MIPS_KSEG0 8).
  - unfold no_wrap, MIPS_KSEG0. lia.
  - unfold no_wrap, MIPS_KSEG0. lia.
  - reflexivity.
  - vm_compute. by eexists.
  - split; intros a Ha Hu; unfold USERTOP in *; lia.
Defined.
