(* ===== verification/Copyinout.v ===== *)
(** * Copies between user and kernel memory, src/kern/lib/copyinout.c

    [setjmp] returning a second time is the [None] of the memory operations:
    it happens when an access is refused while [pcb_badfaultfunc] is set. *)
From S2P Require Import Prelude Memory.

(** ** Operations *)

(** The result is paired with [*stoplen]. *)
Definition copycheck (userptr len : Z) : Z * Z :=
  let bot := userptr in
  let top := u32 (bot + len - 1) in
  if top <? bot then (EFAULT, len)
  else if USERTOP <=? bot then (EFAULT, len)
  else if USERTOP <=? top then (0, u32 (USERTOP - bot))
  else (0, len).

(** What follows [setjmp] in each of the functions: the copy runs with
    [pcb_badfaultfunc] set, and [copyfail] brings control back with [EFAULT]. *)
Definition protected {A} (fail : A) (body : K machine (option A)) : K machine A :=
  _ <- set_badfault true;
  r <- body;
  _ <- set_badfault false;
  ret (default fail r).

Definition copyin (usersrc dest len : Z) : K machine Z :=
  let '(result, stoplen) := copycheck usersrc len in
  if negb (result =? 0) then ret result
  else if negb (stoplen =? len) then ret EFAULT
  else protected EFAULT (_ <-? memcpy dest usersrc len; ret (Some 0)).

Definition copyout (src userdest len : Z) : K machine Z :=
  let '(result, stoplen) := copycheck userdest len in
  if negb (result =? 0) then ret result
  else if negb (stoplen =? len) then ret EFAULT
  else protected EFAULT (_ <-? memcpy userdest src len; ret (Some 0)).

(** [for (i=0; i<maxlen && i<stoplen; i++)], [n] rounds from [i] on; the
    result is paired with what is stored in [*gotlen]. *)
Fixpoint copystr_loop (n : nat) (i dest src maxlen stoplen : Z) :
    K machine (option (Z * option Z)) :=
  match n with
  | O => ret (Some (if stoplen <? maxlen then EFAULT else ENAMETOOLONG, None))
  | Datatypes.S n' =>
      x <-? mload 1 (u32 (src + i));
      _ <-? mstore (u32 (dest + i)) x;
      y <-? mload 1 (u32 (src + i));
      if bool_decide (y = [0]) then ret (Some (0, Some (i + 1)))
      else copystr_loop n' (i + 1) dest src maxlen stoplen
  end.
Definition copystr (dest src maxlen stoplen : Z) : K machine (option (Z * option Z)) :=
  copystr_loop (Z.to_nat (Z.min maxlen stoplen)) 0 dest src maxlen stoplen.

Definition copyinstr (usersrc dest len : Z) : K machine (Z * option Z) :=
  let '(result, stoplen) := copycheck usersrc len in
  if negb (result =? 0) then ret (result, None)
  else protected (EFAULT, None) (copystr dest usersrc len stoplen).

Definition copyoutstr (src userdest len : Z) : K machine (Z * option Z) :=
  let '(result, stoplen) := copycheck userdest len in
  if negb (result =? 0) then ret (result, None)
  else protected (EFAULT, None) (copystr userdest src len stoplen).

(** ** The region check *)

(** The check accepts exactly the regions that start in user space, have at
    least one byte and do not wrap around, and cuts them off at the boundary
    of the kernel; and the empty region at address zero, with a length that
    is not its own. *)
Lemma copycheck_eq userptr len :
  0 ≤ userptr < 2 ^ 32 → 0 ≤ len < 2 ^ 32 →
  copycheck userptr len =
    if decide (0 < len ∧ userptr < USERTOP ∧ userptr + len ≤ 2 ^ 32)
    then (0, Z.min len (USERTOP - userptr))
    else if decide (userptr = 0 ∧ len = 0) then (0, USERTOP) else (EFAULT, len).
Proof.
  intros Hp Hl. unfold copycheck, USERTOP, MIPS_KSEG0.
  assert (u32 (userptr + len - 1) =
    if decide (userptr + len = 0) then 2 ^ 32 - 1
    else if decide (userptr + len ≤ 2 ^ 32) then userptr + len - 1
    else userptr + len - 1 - 2 ^ 32) as ->.
  { unfold u32. repeat case_decide; try lia.
    - replace (userptr + len - 1) with (-1) by lia. done.
    - apply Z.mod_small. lia.
    - symmetry. apply (Z.mod_unique _ _ 1); lia. }
  repeat case_decide; repeat match goal with
    | |- context [?a <? ?b] => destruct (Z.ltb_spec a b)
    | |- context [?a <=? ?b] => destruct (Z.leb_spec a b)
    end; try lia; rewrite ?u32_small by lia; f_equal; lia.
Qed.
(** The regions [copyin] and [copyout] work on. *)
Lemma copycheck_block userptr len :
  0 ≤ userptr < 2 ^ 32 → 0 ≤ len < 2 ^ 32 →
  (0 < len ∧ userptr + len ≤ USERTOP ∧ copycheck userptr len = (0, len)) ∨
  ((len = 0 ∨ USERTOP < userptr + len) ∧
    ∃ e l, copycheck userptr len = (e, l) ∧ ((e = 0 ∧ l ≠ len) ∨ e = EFAULT)).
Proof.
  intros Hp Hl. rewrite copycheck_eq by done.
  destruct (decide (0 < len ∧ userptr + len ≤ USERTOP)); [left|right].
  - rewrite decide_True by (unfold USERTOP, MIPS_KSEG0 in *; lia). split_and!; [lia..|].
    f_equal. lia.
  - split; [lia|]. unfold USERTOP, MIPS_KSEG0 in *. repeat case_decide; eexists _, _;
      (split; [done|]); [left|left|right]; split_and?; done || lia.
Qed.

(** ** Blocks

    [survives f a len]: the fault handler, if it is reached from the region,
    does not kill the thread.  [kernel_block m a len]: allocated memory of the
    kernel. *)
Definition survives (f : Z → access) (a len : Z) : Prop :=
  ∀ b, a ≤ b < a + len → f b ≠ AKill.
Definition all_ok (f : Z → access) (a len : Z) : Prop :=
  ∀ b, a ≤ b < a + len → f b = AOk.
Definition mapped (m : machine) (a len : Z) : Prop := is_Some (bytes_at (mem m) a (Z.to_nat len)).
Definition kernel_block (m : machine) (a len : Z) : Prop :=
  USERTOP ≤ a ∧ no_wrap a len ∧ mapped m a len.
(** Memory differs only inside of a block. *)
Definition only_changes (a len : Z) (m m' : machine) : Prop :=
  ∀ b, ¬ (a ≤ b < a + len) → mem m' !! b = mem m !! b.

Lemma protected_block m dst src len bs o :
  badfault m = false → 0 < len → no_wrap src len → no_wrap dst len →
  bytes_at (mem m) src (Z.to_nat len) = Some bs → mapped m dst len →
  (∀ a, src ≤ a < src + len → a < USERTOP → urd m a ≠ AKill) →
  (∀ a, dst ≤ a < dst + len → a < USERTOP → uwr m a ≠ AKill) →
  dst ≤ src ∨ src + len ≤ dst →
  wp (protected EFAULT (_ <-? memcpy dst src len; ret (Some 0))) (λ r m' o',
    o' = o ∧ badfault m' = false ∧ urd m' = urd m ∧ uwr m' = uwr m ∧ only_changes dst len m m' ∧
    ((r = 0 ∧ bytes_at (mem m') dst (Z.to_nat len) = Some bs) ∨
     (r = EFAULT ∧ ¬ block_accessible m dst src len))) m o.
Proof.
  intros Hbf Hpos Hs Hd Hbs Hdst Hrd Hwr Hov. pose proof (bytes_at_length _ _ _ _ Hbs) as Hlen.
  unfold protected, set_badfault, bindo. wp_run. set (m1 := mkMachine _ _ _ true).
  assert (∀ f, f ≠ AKill → f = AOk ∨ (f = AFault ∧ badfault m1 = true)) as Hok.
  { intros [] ?; naive_solver. }
  eapply wp_mono; [apply (memcpy_spec m1 dst src len bs o Hs Hd Hbs Hdst); [..|done]|].
  { intros a Ha Hu. by apply Hok, Hrd. }
  { intros a Ha Hu. by apply Hok, Hwr. }
  cbn beta. intros r m' o' (-> & [(-> & ->)|(-> & _ & Hno & k & Hk & Hm')]); wp_run; simpl.
  - split_and!; try done.
    + intros b Hb. simpl. rewrite write_at_lookup, decide_False by lia. done.
    + left. split; [done|]. rewrite <- Hlen. apply bytes_at_write_eq.
  - split_and!; try done; [by destruct Hm' as [-> | ->]..| |by right].
    intros b Hb. simpl. destruct Hm' as [-> | ->]; simpl; rewrite write_at_lookup, decide_False;
      rewrite ?length_take, ?length_drop; done || lia.
Qed.

Lemma check_refuses (e l len : Z) (body : K machine Z) m o :
  (e = 0 ∧ l ≠ len) ∨ e = EFAULT →
  wp (if negb (e =? 0) then ret e else if negb (l =? len) then ret EFAULT else body)
    (λ r m' o', r = EFAULT ∧ m' = m ∧ o' = o) m o.
Proof.
  intros [[-> Hne]| ->]; [|by wp_cond; wp_run]. wp_cond.
  destruct (Z.eqb_spec l len); [done|]. wp_cond. by wp_run.
Qed.

Lemma copyin_spec m usersrc dest len o :
  badfault m = false → 0 ≤ usersrc < 2 ^ 32 → 0 ≤ len < 2 ^ 32 → kernel_block m dest len →
  (usersrc + len ≤ USERTOP → mapped m usersrc len ∧ survives (urd m) usersrc len) →
  wp (copyin usersrc dest len) (λ r m' o',
    o' = o ∧ badfault m' = false ∧ urd m' = urd m ∧ uwr m' = uwr m ∧ only_changes dest len m m' ∧
    ((r = 0 ∧ 0 < len ∧ usersrc + len ≤ USERTOP ∧
        bytes_at (mem m') dest (Z.to_nat len) = bytes_at (mem m) usersrc (Z.to_nat len)) ∨
     (r = EFAULT ∧ ¬ (0 < len ∧ usersrc + len ≤ USERTOP ∧ all_ok (urd m) usersrc len)))) m o.
Proof.
  intros Hbf Hu Hl (Hk & Hd & Hdst) Hmap. unfold copyin.
  destruct (copycheck_block usersrc len Hu Hl) as [(Hpos & Hin & ->)|(Hout & e & l & -> & He)].
  - wp_cond. rewrite Z.eqb_refl. wp_cond. destruct (Hmap Hin) as [[bs Hbs] Hsv].
    unfold no_wrap, USERTOP, MIPS_KSEG0 in *.
    eapply wp_mono; [eapply protected_block; try done|].
    + split_and!; lia.
    + intros a Ha _. by apply Hsv.
    + intros a Ha Hlt. unfold USERTOP, MIPS_KSEG0 in Hlt. lia.
    + right. lia.
    + cbn beta. intros r m' o' (-> & ? & ? & ? & ? & [(-> & Hres)|(-> & Hno)]); split_and!; try done.
      * left. by rewrite Hres, Hbs.
      * right. split; [done|]. intros (_ & _ & Hall). apply Hno. split.
        -- intros a Ha _. by apply Hall.
        -- intros a Ha Hlt. unfold USERTOP, MIPS_KSEG0 in Hlt. lia.
  - eapply wp_mono; [by apply check_refuses|]. intros r m' o' (-> & -> & ->). split_and!; try done.
    right. split; [done|]. lia.
Qed.

Lemma copyout_spec m src userdest len o :
  badfault m = false → 0 ≤ userdest < 2 ^ 32 → 0 ≤ len < 2 ^ 32 → kernel_block m src len →
  (userdest + len ≤ USERTOP → mapped m userdest len ∧ survives (uwr m) userdest len) →
  wp (copyout src userdest len) (λ r m' o',
    o' = o ∧ badfault m' = false ∧ urd m' = urd m ∧ uwr m' = uwr m ∧
    only_changes userdest len m m' ∧
    ((r = 0 ∧ 0 < len ∧ userdest + len ≤ USERTOP ∧
        bytes_at (mem m') userdest (Z.to_nat len) = bytes_at (mem m) src (Z.to_nat len)) ∨
     (r = EFAULT ∧ ¬ (0 < len ∧ userdest + len ≤ USERTOP ∧ all_ok (uwr m) userdest len)))) m o.
Proof.
  intros Hbf Hu Hl (Hk & Hs & [bs Hsrc]) Hmap. unfold copyout.
  destruct (copycheck_block userdest len Hu Hl) as [(Hpos & Hin & ->)|(Hout & e & l & -> & He)].
  - wp_cond. rewrite Z.eqb_refl. wp_cond. destruct (Hmap Hin) as [Hdst Hsv].
    unfold no_wrap, USERTOP, MIPS_KSEG0 in *.
    eapply wp_mono; [eapply protected_block; try done|].
    + split_and!; lia.
    + intros a Ha Hlt. unfold USERTOP, MIPS_KSEG0 in Hlt. lia.
    + intros a Ha _. by apply Hsv.
    + left. lia.
    + cbn beta. intros r m' o' (-> & ? & ? & ? & ? & [(-> & Hres)|(-> & Hno)]); split_and!; try done.
      * left. by rewrite Hres, Hsrc.
      * right. split; [done|]. intros (_ & _ & Hall). apply Hno. split.
        -- intros a Ha Hlt. unfold USERTOP, MIPS_KSEG0 in Hlt. lia.
        -- intros a Ha _. by apply Hall.
  - eapply wp_mono; [by apply check_refuses|]. intros r m' o' (-> & -> & ->). split_and!; try done.
    right. split; [done|]. lia.
Qed.

(** ** Strings *)
Section CopyString.
  Context (m0 : machine) (dest src maxlen stoplen : Z) (N : nat) (bs : list Z) (o : oracle).
  Context (Hs : no_wrap src (Z.of_nat N)) (Hd : no_wrap dest (Z.of_nat N)).
  Context (Hbs : bytes_at (mem m0) src N = Some bs) (Hdst : is_Some (bytes_at (mem m0) dest N)).
  Context (Hrd : ∀ a, src ≤ a < src + Z.of_nat N → may_read m0 a).
  Context (Hwr : ∀ a, dest ≤ a < dest + Z.of_nat N → may_write m0 a).
  Context (Hdis : src + Z.of_nat N ≤ dest ∨ dest + Z.of_nat N ≤ src).

Definition copied (k : nat) : machine := with_mem m0 (write_at (mem m0) dest (take k bs)).

(** The string ended at its [k]-th byte; or it did not end; or an access was
    refused. *)
Definition copystr_post (r : option (Z * option Z)) (m' : machine) (o' : oracle) : Prop :=
  o' = o ∧
  ((∃ k, r = Some (0, Some (Z.of_nat k + 1)) ∧ bs !! k = Some 0 ∧ (0 ∉ take k bs) ∧
         m' = copied (S k)) ∨
   (r = Some (if stoplen <? maxlen then EFAULT else ENAMETOOLONG, None) ∧ (0 ∉ bs) ∧
     m' = copied N) ∨
   (r = None ∧ (∃ k, (k ≤ N)%nat ∧ m' = copied k) ∧
     ¬ block_accessible m0 dest src (Z.of_nat N))).

Lemma copied_source i k :
  (i < N)%nat → (k ≤ N)%nat →
  bytes_at (mem (copied k)) (src + Z.of_nat i) 1 = (λ x, [x]) <$> (bs !! i).
Proof.
  intros Hi Hk. pose proof (bytes_at_length _ _ _ _ Hbs) as Hlen. simpl.
  rewrite write_at_lookup, decide_False.
  - apply bytes_at_Some in Hbs as [_ Hb]. rewrite Hb by done. by destruct (bs !! i).
  - rewrite length_take. lia.
Qed.

Lemma copystr_loop_spec n i :
  (i + n = N)%nat → 0 ∉ take i bs →
  wp (copystr_loop n (Z.of_nat i) dest src maxlen stoplen) copystr_post (copied i) o.
Proof.
  pose proof (bytes_at_length _ _ _ _ Hbs) as Hlen.
  revert i. induction n as [|n IH]; intros i Hi Hz; cbn [copystr_loop].
  { wp_run. split; [done|]. right. left. rewrite take_ge in Hz by lia.
    by replace N with i by lia. }
  destruct (lookup_lt_is_Some_2 bs i ltac:(lia)) as [x Hx].
  unfold no_wrap in *. rewrite !u32_small by lia. unfold bindo at 1. wp_step.
  eapply wp_mono; [eapply mload_spec|].
  { rewrite copied_source, Hx by lia. done. }
  { apply Hrd. lia. }
  cbn beta. intros r m' o' (-> & -> & [(-> & Hr)|(-> & Hno & _)]).
  2: { wp_run. split; [done|]. do 2 right. split_and!; [done|exists i; split; [lia|done]|].
       intros [Hall _]. by apply Hno, Hall; lia. }
  unfold bindo at 1. wp_step. destruct Hdst as [old Hold].
  destruct (bytes_at_write_is_Some (mem m0) dest (take i bs) (dest + Z.of_nat i) 1) as [old' Hold'].
  { eapply bytes_at_sub_is_Some; [by rewrite Hold|lia]. }
  eapply wp_mono; [eapply mstore_spec; [exact Hold'|apply Hwr; lia]|].
  cbn beta. intros r m' o' (-> & [(-> & -> & Hw)|(-> & -> & Hno & _)]).
  2: { wp_run. split; [done|]. do 2 right. split_and!; [done|exists i; split; [lia|done]|].
       intros [_ Hall]. by apply Hno, Hall; lia. }
  assert (with_mem (copied i) (write_at (mem (copied i)) (dest + Z.of_nat i) [x]) = copied (S i)) as ->.
  { unfold copied, with_mem. simpl. f_equal. rewrite (take_S_r _ _ _ Hx), write_at_app.
    by rewrite length_take, Nat.min_l by lia. }
  unfold bindo at 1. wp_step. eapply wp_mono; [eapply mload_spec|].
  { rewrite copied_source, Hx by lia. done. }
  { apply Hrd. lia. }
  cbn beta. intros r m' o' (-> & -> & [(-> & _)|(_ & Hno & _)]); [|by destruct Hno].
  case_bool_decide as H0.
  - injection H0 as ->. wp_run. split; [done|]. left. exists i. split_and!; done.
  - replace (Z.of_nat i + 1) with (Z.of_nat (S i)) by lia. apply IH; [lia|].
    rewrite (take_S_r _ _ _ Hx). set_solver.
Qed.

End CopyString.

(** What [copyinstr] may return: the string with its terminator; or an error,
    when it does not end within [len] bytes, when it runs into the kernel's
    half, or when it is not accessible. *)
Definition copyinstr_post (m : machine) (usersrc dest len : Z) (r : Z * option Z) (m' : machine) : Prop :=
  (∃ s, r = (0, Some (Z.of_nat (length s) + 1)) ∧ (0 ∉ s) ∧ Z.of_nat (length s) < len ∧
     usersrc + Z.of_nat (length s) < USERTOP ∧
     bytes_at (mem m) usersrc (S (length s)) = Some (s ++ [0]) ∧
     bytes_at (mem m') dest (S (length s)) = Some (s ++ [0])) ∨
  (r = (ENAMETOOLONG, None) ∧ usersrc + len ≤ USERTOP ∧
     ∃ s, bytes_at (mem m) usersrc (Z.to_nat len) = Some s ∧ 0 ∉ s) ∨
  (r = (EFAULT, None) ∧
     ¬ (usersrc + len ≤ USERTOP ∧ 0 < len ∧ all_ok (urd m) usersrc len)).

Lemma copyinstr_spec m usersrc dest len o :
  badfault m = false → 0 ≤ usersrc < 2 ^ 32 → 0 ≤ len < 2 ^ 32 → kernel_block m dest len →
  (usersrc < USERTOP →
     mapped m usersrc (Z.min len (USERTOP - usersrc)) ∧
     survives (urd m) usersrc (Z.min len (USERTOP - usersrc))) →
  wp (copyinstr usersrc dest len) (λ r m' o',
    o' = o ∧ badfault m' = false ∧ only_changes dest len m m' ∧
    copyinstr_post m usersrc dest len r m') m o.
Proof.
  intros Hbf Hu Hl (Hk & Hd & Hdst) Hmap. unfold copyinstr.
  rewrite copycheck_eq by done. case_decide as Hin.
  2: { case_decide as H0; wp_cond.
       - destruct H0 as [-> ->]. unfold protected, set_badfault, copystr. simpl. wp_run.
         split_and!; try done. right. left. split_and!; [done|done|]. exists []. set_solver.
       - wp_run. split_and!; try done. do 2 right. split; [done|].
         unfold USERTOP, MIPS_KSEG0 in *. lia. }
  wp_cond. destruct (Hmap ltac:(lia)) as [[bs Hbs] Hsv].
  set (stop := Z.min len (USERTOP - usersrc)) in *.
  assert (0 < stop ≤ len ∧ usersrc + stop ≤ USERTOP) as (Hst & Hst').
  { unfold stop. lia. }
  pose proof (bytes_at_length _ _ _ _ Hbs) as Hlen.
  unfold protected, set_badfault, copystr. wp_run. rewrite Z.min_r by lia.
  set (m1 := mkMachine _ _ _ true). unfold USERTOP, MIPS_KSEG0 in Hk, Hst'.
  pose proof (copystr_loop_spec m1 dest usersrc len stop (Z.to_nat stop) bs o) as Hloop.
  unfold no_wrap in *. rewrite Z2Nat.id in Hloop by lia.
  specialize (Hloop ltac:(lia) ltac:(lia) Hbs).
  assert (is_Some (bytes_at (mem m1) dest (Z.to_nat stop))) as Hdst'.
  { rewrite <- (Z.add_0_r dest). apply (bytes_at_sub_is_Some _ _ _ 0 _ Hdst). lia. }
  specialize (Hloop Hdst').
  assert (∀ a, usersrc ≤ a < usersrc + stop → may_read m1 a) as Hrd.
  { intros a Ha Hlt. pose proof (Hsv a Ha) as Hnk. simpl in *. destruct (urd m a); naive_solver. }
  assert (∀ a, dest ≤ a < dest + stop → may_write m1 a) as Hwr.
  { intros a Ha Hlt. unfold USERTOP, MIPS_KSEG0 in Hlt. lia. }
  specialize (Hloop Hrd Hwr ltac:(lia) (Z.to_nat stop) 0%nat eq_refl ltac:(set_solver)).
  rewrite (with_mem_id m1 : copied m1 dest bs 0 = m1) in Hloop.
  eapply wp_mono; [exact Hloop|]. clear Hloop.
  assert (∀ k, only_changes dest len m (copied m1 dest bs k)) as Hoc.
  { intros k b Hb. simpl. rewrite write_at_lookup, decide_False; [done|].
    rewrite length_take. lia. }
  intros r m' o' (-> & [(k & -> & Hk0 & Hnz & ->)|[(-> & Hnz & ->)|(-> & (k & Hkn & ->) & Hno)]]);
    wp_run; simpl; (split_and!; [done|done|apply Hoc|]).
  - left. exists (take k bs). pose proof (lookup_lt_Some _ _ _ Hk0) as Hlt.
    assert (length (take k bs) = k) as -> by (rewrite length_take; lia).
    rewrite <- (take_S_r _ _ _ Hk0). split_and!; try done; try lia.
    + rewrite <- (Z.add_0_r usersrc). apply (bytes_at_slice _ _ _ _ 0 (S k) Hbs). lia.
    + pose proof (bytes_at_write_eq (mem m) dest (take (S k) bs)) as Heq.
      by rewrite length_take, Nat.min_l in Heq by lia.
  - right. destruct (Z.ltb_spec stop len) as [Hlt|Hge].
    + right. split; [done|]. unfold stop in *. lia.
    + left. split_and!; [done|unfold USERTOP, MIPS_KSEG0 in *; lia|].
      exists bs. by replace len with stop by lia.
  - do 2 right. split; [done|]. intros (H1 & H2 & Hall). apply Hno. split.
    + intros a Ha _. apply Hall. lia.
    + intros a Ha Hlt. unfold USERTOP, MIPS_KSEG0 in *. lia.
Qed.

(** ** Properties *)

(** C25: [copyin], for any user pointer and length: it returns [0] with the
    bytes of the user's block in the kernel's block, or [EFAULT]; [EFAULT] is
    returned only for a block that is empty, is not inside of user space or
    has an address the fault handler refuses; in every case nothing outside
    of the kernel's block changes and [pcb_badfaultfunc] is reset. *)
Theorem copyin_checked (m : machine) (usersrc dest len : Z) (o : oracle) :
  badfault m = false → 0 ≤ usersrc < 2 ^ 32 → 0 ≤ len < 2 ^ 32 → kernel_block m dest len →
  (usersrc + len ≤ USERTOP → mapped m usersrc len ∧ survives (urd m) usersrc len) →
  wp (copyin usersrc dest len) (λ r m' _,
    badfault m' = false ∧ only_changes dest len m m' ∧
    ((r = 0 ∧ 0 < len ∧ usersrc + len ≤ USERTOP ∧
        bytes_at (mem m') dest (Z.to_nat len) = bytes_at (mem m) usersrc (Z.to_nat len)) ∨
     (r = EFAULT ∧ ¬ (0 < len ∧ usersrc + len ≤ USERTOP ∧ all_ok (urd m) usersrc len)))) m o.
Proof.
  intros Hbf Hu Hl Hk Hm. eapply wp_mono; [by apply copyin_spec|]. naive_solver.
Qed.

(** what [copyout] puts into accessible user memory, [copyin] brings
    back. *)
Theorem copyout_copyin (m : machine) (src user dest len : Z) (o : oracle) :
  badfault m = false → 0 < len → 0 ≤ user → user + len ≤ USERTOP →
  kernel_block m src len → kernel_block m dest len → mapped m user len →
  all_ok (urd m) user len → all_ok (uwr m) user len →
  wp (r1 <- copyout src user len; r2 <- copyin user dest len; ret (r1, r2)) (λ r m' _,
    r = (0, 0) ∧
    bytes_at (mem m') dest (Z.to_nat len) = bytes_at (mem m) src (Z.to_nat len)) m o.
Proof.
  intros Hbf Hpos Hu Hin Hks Hkd Hmap Hr Hw.
  assert (0 ≤ user < 2 ^ 32 ∧ 0 ≤ len < 2 ^ 32) as [Hu' Hl].
  { unfold USERTOP, MIPS_KSEG0 in *. lia. }
  wp_step. wp_call (copyout_spec m src user len o Hbf Hu' Hl Hks).
  { intros _. split; [done|]. intros b Hb. by rewrite Hw. }
  intros r m' o' (-> & Hbf' & Hrd' & _ & Hoc & [(-> & _ & _ & Hb)|(_ & Hno)]); [|by destruct Hno].
  wp_step. wp_call (copyin_spec m' user dest len o Hbf' Hu' Hl).
  - destruct Hkd as (? & ? & Hd). split_and!; [done..|].
    apply bytes_at_is_Some. intros k Hk. rewrite Hoc; [by eapply bytes_at_is_Some in Hd|].
    unfold USERTOP, MIPS_KSEG0 in *. lia.
  - intros _. split; [by unfold mapped; rewrite Hb; destruct Hks as (_ & _ & ?)|].
    intros b Hbb. rewrite Hrd'. by rewrite Hr.
  - intros r m'' o' (-> & _ & _ & _ & _ & [(-> & _ & _ & Hb')|(_ & Hno)]); wp_run.
    + by rewrite Hb', Hb.
    + destruct Hno. rewrite Hrd'. done.
Qed.

(** C26: [copyinstr] returns [0] with exactly the bytes of the user's string,
    its terminator included, and their number; [ENAMETOOLONG] only for a
    string that does not end within [len] bytes; [EFAULT] only when the
    region is not accessible as a whole or reaches into the kernel's half.
    Nothing outside of the kernel's buffer changes. *)
Theorem copyinstr_string (m : machine) (usersrc dest len : Z) (o : oracle) :
  badfault m = false → 0 ≤ usersrc < 2 ^ 32 → 0 ≤ len < 2 ^ 32 → kernel_block m dest len →
  (usersrc < USERTOP →
     mapped m usersrc (Z.min len (USERTOP - usersrc)) ∧
     survives (urd m) usersrc (Z.min len (USERTOP - usersrc))) →
  wp (copyinstr usersrc dest len) (λ r m' _,
    badfault m' = false ∧ only_changes dest len m m' ∧
    copyinstr_post m usersrc dest len r m') m o.
Proof.
  intros Hbf Hu Hl Hk Hm. eapply wp_mono; [by apply copyinstr_spec|]. naive_solver.
Qed.

(** ** Memory with eight user bytes and three kernel buffers *)
Definition two_halves : machine :=
  mkMachine (write_at (write_at ∅ 4096 [104; 105; 0; 33; 34; 35; 36; 37]) MIPS_KSEG0
               (replicate 8 7 ++ replicate 8 0))
            (λ a, if (4096 <=? a) && (a <? 4104) then AOk else AFault)
            (λ a, if (4096 <=? a) && (a <? 4104) then AOk else AFault) false.
Lemma two_halves_ok a n : 4096 ≤ a → a + n ≤ 4104 →
  all_ok (urd two_halves) a n ∧ all_ok (uwr two_halves) a n.
Proof.
  intros H1 H2. split; intros b Hb; simpl;
    rewrite (proj2 (andb_true_iff _ _)); try done; split; lia.
Qed.
Lemma two_halves_kernel a : a = MIPS_KSEG0 ∨ a = MIPS_KSEG0 + 8 → kernel_block two_halves a 8.
Proof.
  intros Ha. split_and!.
  - unfold USERTOP. lia.
  - unfold no_wrap, MIPS_KSEG0 in *. lia.
  - destruct Ha as [-> | ->]; vm_compute; by eexists.
Qed.

Lemma copyin_checked_witness :
  wp (copyin 4096 MIPS_KSEG0 8) (λ r m' _,
    badfault m' = false ∧ only_changes MIPS_KSEG0 8 two_halves m' ∧
    ((r = 0 ∧ 0 < 8 ∧ 4096 + 8 ≤ USERTOP ∧
        bytes_at (mem m') MIPS_KSEG0 8 = bytes_at (mem two_halves) 4096 8) ∨
     (r = EFAULT ∧ ¬ (0 < 8 ∧ 4096 + 8 ≤ USERTOP ∧ all_ok (urd two_halves) 4096 8))))
    two_halves [].
Proof.
  apply (copyin_checked two_halves 4096 MIPS_KSEG0 8); [reflexivity|lia|lia| |].
  - apply two_halves_kernel. by left.
  - intros _. split; [vm_compute; by eexists|].
    intros b Hb. by rewrite (proj1 (two_halves_ok 4096 8 ltac:(lia) ltac:(lia)) b Hb).
Defined.

Lemma copyout_copyin_witness :
  wp (r1 <- copyout MIPS_KSEG0 4096 8; r2 <- copyin 4096 (MIPS_KSEG0 + 8) 8; ret (r1, r2))
    (λ r m' _, r = (0, 0) ∧
       bytes_at (mem m') (MIPS_KSEG0 + 8) 8 = bytes_at (mem two_halves) MIPS_KSEG0 8)
    two_halves [].
Proof.
  apply (copyout_copyin two_halves MIPS_KSEG0 4096 (MIPS_KSEG0 + 8) 8);
    [reflexivity|lia|lia|unfold USERTOP, MIPS_KSEG0; lia
    |apply two_halves_kernel; by left|apply two_halves_kernel; by right
    |vm_compute; by eexists|apply two_halves_ok; lia|apply two_halves_ok; lia].
Defined.

Lemma copyinstr_string_witness :
  wp (copyinstr 4096 MIPS_KSEG0 8) (λ r m' _,
    badfault m' = false ∧ only_changes MIPS_KSEG0 8 two_halves m' ∧
    copyinstr_post two_halves 4096 MIPS_KSEG0 8 r m') two_halves [].
Proof.
  apply (copyinstr_string two_halves 4096 MIPS_KSEG0 8); [reflexivity|lia|lia| |].
  - apply two_halves_kernel. by left.
  - intros _. split; [vm_compute; by eexists|].
    intros b Hb. by rewrite (proj1 (two_halves_ok 4096 8 ltac:(lia) ltac:(lia)) b Hb).
Defined.
