(* ===== verification/Uio.v ===== *)
(** * Data transfer requests, src/kern/userprog/uio.c *)
From S2P Require Import Prelude Memory Copyinout.

Inductive uio_rw : Set := UIO_READ | UIO_WRITE.
Inductive uio_seg : Set := UIO_USERSPACE | UIO_SYSSPACE | UIO_USERISPACE.
#[global] Instance uio_rw_eq : EqDecision uio_rw.
Proof. solve_decision. Defined.
#[global] Instance uio_seg_eq : EqDecision uio_seg.
Proof. solve_decision. Defined.

(** [struct uio] with its [struct iovec]; [iov_base] is [iov_kbase] or
    [iov_ubase], and an address space is named by a number. *)
Record uio : Type := mkUio {
  iov_base : Z;
  iov_len : Z;
  uio_offset : Z;
  uio_resid : Z;
  uio_segflg : uio_seg;
  uio_rw_ : uio_rw;
  uio_space : option nat;
}.

Section Uio.
  (** [curthread->t_vmspace], and the address of the static array [zeros] *)
  Context (t_vmspace : option nat) (zeros : Z).

(** The four updates at the end of an iteration, with the one of the base. *)
Definition advance (u : uio) (size : Z) : uio :=
  mkUio (u32 (iov_base u + size)) (u32 (iov_len u - size)) (s32 (uio_offset u + size))
        (u32 (uio_resid u - size)) (uio_segflg u) (uio_rw_ u) (uio_space u).

(** [while (n > 0 && uio->uio_resid > 0)]; every iteration takes at least one
    byte off [n]. *)
Fixpoint uiomove_loop (fuel : nat) (ptr n : Z) (u : uio) : K machine (Z * uio) :=
  if (0 <? n) && (0 <? uio_resid u) then
    match fuel with
    | O => halt Spin
    | Datatypes.S fuel' =>
        let size := if n <? iov_len u then n else iov_len u in
        if size =? 0 then panic
        else
          result <-
            (match uio_segflg u with
             | UIO_SYSSPACE =>
                 r <- (match uio_rw_ u with
                       | UIO_READ => memmove (iov_base u) ptr size
                       | UIO_WRITE => memmove ptr (iov_base u) size
                       end);
                 _ <- deref r;
                 ret 0
             | UIO_USERSPACE | UIO_USERISPACE =>
                 match uio_rw_ u with
                 | UIO_READ => copyout ptr (iov_base u) size
                 | UIO_WRITE => copyin (iov_base u) ptr size
                 end
             end);
          if negb (result =? 0) then ret (result, u)
          else uiomove_loop fuel' (u32 (ptr + size)) (n - size) (advance u size)
    end
  else ret (0, u).

Definition uiomove (ptr n : Z) (u : uio) : K machine (Z * uio) :=
  _ <- kassert (match uio_segflg u with
                | UIO_SYSSPACE => bool_decide (uio_space u = None)
                | _ => bool_decide (uio_space u = t_vmspace)
                end);
  uiomove_loop (Z.to_nat n) ptr n u.

(** [while (n>0)], sixteen bytes at a time *)
Fixpoint zeros_loop (fuel : nat) (n : Z) (u : uio) : K machine (Z * uio) :=
  if 0 <? n then
    match fuel with
    | O => halt Spin
    | Datatypes.S fuel' =>
        let amt := if n <? 16 then n else 16 in
        '(result, u') <- uiomove zeros amt u;
        if negb (result =? 0) then ret (result, u')
        else zeros_loop fuel' (n - amt) u'
    end
  else ret (0, u).
Definition uiomovezeros (n : Z) (u : uio) : K machine (Z * uio) :=
  _ <- kassert (bool_decide (uio_rw_ u = UIO_READ));
  zeros_loop (Z.to_nat n) n u.

Definition mk_kuio (kbuf len pos : Z) (rw : uio_rw) : uio :=
  mkUio kbuf len pos len UIO_SYSSPACE rw None.

(** ** Requests

    [uio_ok u n]: the fields are in range and the request has room for the
    residue; a transfer of [n] bytes then moves [amount u n] of them. *)
Definition uio_ok (u : uio) (n : Z) : Prop :=
  no_wrap (iov_base u) (iov_len u) ∧ iov_base u + iov_len u < 2 ^ 32 ∧
  0 ≤ uio_resid u ∧ 0 ≤ uio_offset u ∧ uio_offset u + uio_resid u < 2 ^ 31 ∧
  (uio_resid u = iov_len u ∨ n ≤ uio_resid u ≤ iov_len u).
Definition amount (u : uio) (n : Z) : Z := Z.min n (uio_resid u).

Lemma advance_eq u k n :
  uio_ok u n → 0 ≤ k ≤ uio_resid u → 
  advance u k = mkUio (iov_base u + k) (iov_len u - k) (uio_offset u + k) (uio_resid u - k)
    (uio_segflg u) (uio_rw_ u) (uio_space u).
Proof.
  intros ((? & ? & ?) & ? & ? & ? & ? & ?) Hk. unfold advance.
  rewrite !u32_small, s32_small by lia. done.
Qed.
Lemma advance_0 u n : uio_ok u n → advance u 0 = u.
Proof.
  intros Hu. pose proof Hu as (_ & _ & ? & _). rewrite (advance_eq u 0 n) by (done || lia).
  destruct u; simpl. f_equal; lia.
Qed.
Lemma advance_add u n k l :
  uio_ok u n → 0 ≤ k → 0 ≤ l → k + l ≤ uio_resid u → advance (advance u k) l = advance u (k + l).
Proof.
  intros Hu Hk Hl Hle. pose proof Hu as ((? & ? & ?) & ? & ? & ? & ? & ?).
  rewrite (advance_eq u k n), (advance_eq u (k + l) n) by (done || lia).
  unfold advance. simpl. rewrite !u32_small, s32_small by lia. f_equal; lia.
Qed.
Lemma advance_ok u n k : uio_ok u n → 0 ≤ k ≤ amount u n → uio_ok (advance u k) (n - k).
Proof.
  intros Hu Hk. unfold amount in Hk. pose proof Hu as ((? & ? & ?) & ? & ? & ? & ? & ?).
  rewrite (advance_eq u k n) by (done || lia). unfold uio_ok, no_wrap. simpl. lia.
Qed.

Lemma uio_ok_le u n k : uio_ok u n → k ≤ n → uio_ok u k.
Proof. unfold uio_ok, no_wrap. lia. Qed.

(** The loop moves everything in its first iteration. *)
Lemma uiomove_loop_done fuel ptr n u m o :
  n ≤ 0 ∨ uio_resid u = 0 → uiomove_loop fuel ptr n u m o = Done (0, u, m, o).
Proof.
  intros H. destruct fuel; simpl; destruct (Z.ltb_spec 0 n), (Z.ltb_spec 0 (uio_resid u));
    done || lia.
Qed.
Lemma uiomove_size u n :
  uio_ok u n → 0 < n → 0 < uio_resid u →
  (if n <? iov_len u then n else iov_len u) = amount u n ∧ 0 < amount u n.
Proof.
  intros (_ & _ & ? & _ & _ & ?) Hn Hr. unfold amount. destruct (Z.ltb_spec n (iov_len u)); lia.
Qed.

(** *** Kernel buffers *)
Definition mover (u : uio) (ptr : Z) : Z * Z :=
  match uio_rw_ u with UIO_READ => (iov_base u, ptr) | UIO_WRITE => (ptr, iov_base u) end.

Lemma uiomove_kernel u ptr n m bs o :
  uio_ok u n → 0 ≤ n → uio_segflg u = UIO_SYSSPACE → uio_space u = None →
  let t := amount u n in let '(dst, src) := mover u ptr in
  USERTOP ≤ dst → USERTOP ≤ src → no_wrap ptr t → ptr + t < 2 ^ 32 →
  bytes_at (mem m) src (Z.to_nat t) = Some bs → mapped m dst t →
  wp (uiomove ptr n u) (λ r m' o', r = (0, advance u t) ∧ o' = o ∧
    m' = with_mem m (write_at (mem m) dst bs)) m o.
Proof.
  intros Hu Hn Hseg Hsp t. destruct (mover u ptr) as [dst src] eqn:Hmv.
  intros Hd Hs Hp Hpl Hbs Hdst. unfold uiomove. rewrite Hseg. wp_step.
  wp_step; [by apply bool_decide_eq_true_2|].
  destruct (decide (n = 0 ∨ uio_resid u = 0)) as [H0|H0].
  - unfold wp. rewrite uiomove_loop_done by lia.
    assert (t = 0) as Ht by (unfold t, amount; destruct Hu; lia). rewrite Ht in *.
    simpl in Hbs. injection Hbs as <-. rewrite (advance_0 u n) by done.
    by rewrite write_at_nil, with_mem_id.
  - pose proof Hu as ((? & ? & ?) & ? & ? & ? & ? & ?).
    destruct (uiomove_size u n Hu ltac:(lia) ltac:(lia)) as [Hsz Htp]. fold t in Hsz, Htp.
    destruct (Z.to_nat n) as [|fuel] eqn:Hf; [lia|]. cbn [uiomove_loop].
    rewrite (proj2 (andb_true_iff _ _)) by (split; apply Z.ltb_lt; lia). rewrite Hsz.
    destruct (Z.eqb_spec t 0); [lia|]. rewrite Hseg. wp_step. wp_step.
    assert (no_wrap (iov_base u) t) as Hnb by (unfold no_wrap, t, amount in *; lia).
    eapply wp_mono with (Q := λ r m' o', r = Some tt ∧ o' = o ∧
      m' = with_mem m (write_at (mem m) dst bs)).
    { assert (wp (memmove dst src t) (block_post m dst src t bs o) m o) as Hmm.
      { apply memmove_spec; try done; unfold mover in Hmv; destruct (uio_rw_ u); simplify_eq;
          try done; intros a Ha Hlt; unfold USERTOP, MIPS_KSEG0 in *; lia. }
      unfold mover in Hmv. destruct (uio_rw_ u); simplify_eq; (eapply wp_mono; [exact Hmm|]);
        intros r m' o' (-> & [(-> & ->)|(_ & _ & [] & _)]); try done;
        split; intros a Ha Hlt; unfold USERTOP, MIPS_KSEG0 in *; lia. }
    cbn beta. intros r m' o' (-> & -> & ->). wp_run. wp_cond.
    unfold wp. rewrite uiomove_loop_done; [done|].
    rewrite (advance_eq u t n) by (done || (unfold t, amount; lia)). simpl. unfold t, amount. lia.
Qed.

(** *** Zeros *)
Definition zeros_ok (m : machine) : Prop :=
  USERTOP ≤ zeros ∧ zeros + 16 < 2 ^ 32 ∧ bytes_at (mem m) zeros 16 = Some (replicate 16 0).
Lemma zeros_ok_write m a k : zeros_ok m → zeros_ok (with_mem m (write_at (mem m) a (replicate k 0))).
Proof.
  intros (Hz & Hz' & [_ Hb]%bytes_at_Some). split_and!; [done..|]. apply bytes_at_Some.
  split; [done|]. intros j Hj. simpl mem. rewrite write_at_lookup. case_decide as Hin; [|by apply Hb].
  rewrite length_replicate in Hin. rewrite !lookup_replicate_2 by lia. done.
Qed.

Lemma zeros_loop_spec fuel n u m o :
  uio_ok u n → 0 ≤ n ≤ Z.of_nat fuel → uio_segflg u = UIO_SYSSPACE → uio_space u = None →
  uio_rw_ u = UIO_READ → USERTOP ≤ iov_base u → zeros_ok m →
  mapped m (iov_base u) (amount u n) →
  wp (zeros_loop fuel n u) (λ r m' o', r = (0, advance u (amount u n)) ∧ o' = o ∧
    m' = with_mem m (write_at (mem m) (iov_base u) (replicate (Z.to_nat (amount u n)) 0))) m o.
Proof.
  revert n u m. induction fuel as [|fuel IH]; intros n u m Hu Hn Hseg Hsp Hrw Hb Hz Hmap;
    cbn [zeros_loop]; pose proof Hu as ((? & ? & ?) & ? & ? & ? & ? & ?).
  { assert (n = 0) as -> by lia. wp_cond. wp_run. unfold amount. rewrite Z.min_l by lia.
    rewrite (advance_0 u 0) by done. by rewrite with_mem_id. }
  destruct (Z.ltb_spec 0 n) as [Hpos|].
  2: { assert (n = 0) as -> by lia. wp_run. unfold amount. rewrite Z.min_l by lia.
       rewrite (advance_0 u 0) by done. by rewrite with_mem_id. }
  set (amt := if n <? 16 then n else 16).
  assert (amt = Z.min n 16) as Hamt by (unfold amt; destruct (Z.ltb_spec n 16); lia).
  set (t := amount u amt). assert (0 ≤ t ≤ amount u n ∧ t ≤ amt ∧ t ≤ 16) as (Ht & Hta & Ht16).
  { unfold t, amount. lia. }
  wp_step. pose proof Hz as (Hz1 & Hz2 & Hz3).
  assert (uio_ok u amt) as Hua. { unfold uio_ok, no_wrap in *. lia. }
  pose proof (uiomove_kernel u zeros amt m (replicate (Z.to_nat t) 0) o Hua ltac:(lia) Hseg Hsp) as Hmv.
  unfold mover in Hmv. rewrite Hrw in Hmv. fold t in Hmv.
  eapply wp_mono; [apply Hmv|]; try done; try (unfold no_wrap, USERTOP, MIPS_KSEG0 in *; lia).
  { rewrite (bytes_at_prefix _ _ _ _ (Z.to_nat t) Hz3) by lia.
    by rewrite take_replicate, Nat.min_l by lia. }
  { by eapply bytes_at_prefix_is_Some; [apply Hmap|lia]. }
  cbn beta. intros [r u'] m' o' (Heq & -> & ->). injection Heq as -> ->. wp_cond.
  assert (amount (advance u t) (n - amt) = amount u n - t) as Hrest.
  { unfold amount. rewrite (advance_eq u t n) by (done || (unfold amount in *; lia)). simpl.
    unfold t, amount. lia. }
  assert (iov_base (advance u t) = iov_base u + t) as Hbase.
  { rewrite (advance_eq u t n) by (done || (unfold amount in *; lia)). done. }
  eapply wp_mono.
  { apply IH; try done.
    - apply (uio_ok_le _ (n - t)); [by apply advance_ok|lia].
    - lia.
    - rewrite Hbase. lia.
    - by apply zeros_ok_write.
    - rewrite Hrest, Hbase. apply bytes_at_write_is_Some. rewrite <- (Z2Nat.id t) at 1 by lia.
      apply (bytes_at_sub_is_Some _ _ _ _ _ Hmap). lia. }
  cbn beta. rewrite Hrest, Hbase. intros r m' o' (-> & -> & ->). split_and!; [|done|].
  - f_equal. rewrite (advance_add u n) by (done || (unfold amount in *; lia)). f_equal. lia.
  - unfold with_mem. simpl. f_equal. replace (Z.to_nat (amount u n)) with
      (Z.to_nat t + Z.to_nat (amount u n - t))%nat by lia.
    rewrite replicate_add, write_at_app, length_replicate. f_equal. lia.
Qed.

Lemma uiomovezeros_spec n u m o :
  uio_ok u n → 0 ≤ n → uio_segflg u = UIO_SYSSPACE → uio_space u = None →
  uio_rw_ u = UIO_READ → USERTOP ≤ iov_base u → zeros_ok m →
  mapped m (iov_base u) (amount u n) →
  wp (uiomovezeros n u) (λ r m' o', r = (0, advance u (amount u n)) ∧ o' = o ∧
    m' = with_mem m (write_at (mem m) (iov_base u) (replicate (Z.to_nat (amount u n)) 0))) m o.
Proof.
  intros. unfold uiomovezeros. wp_step. wp_step; [by apply bool_decide_eq_true_2|].
  apply zeros_loop_spec; try done. lia.
Qed.

(** One copy between user and kernel memory *)
Lemma user_copy u ptr m t o :
  0 ≤ iov_base u < 2 ^ 32 → 0 < t < 2 ^ 32 → badfault m = false → kernel_block m ptr t →
  (iov_base u + t ≤ USERTOP → mapped m (iov_base u) t ∧
     survives (urd m) (iov_base u) t ∧ survives (uwr m) (iov_base u) t) →
  wp (match uio_rw_ u with
      | UIO_READ => copyout ptr (iov_base u) t
      | UIO_WRITE => copyin (iov_base u) ptr t
      end) (λ r m' _,
    let '(dst, src) := mover u ptr in
    only_changes dst t m m' ∧
    ((r = 0 ∧ bytes_at (mem m') dst (Z.to_nat t) = bytes_at (mem m) src (Z.to_nat t)) ∨
     (r = EFAULT ∧
      ¬ (iov_base u + t ≤ USERTOP ∧ all_ok (urd m) (iov_base u) t ∧ all_ok (uwr m) (iov_base u) t)))) m o.
Proof.
  intros Hb Ht Hbf Hk Hmap. unfold mover. destruct (uio_rw_ u).
  - wp_call copyout_spec; [done|done|lia|done|naive_solver|]. naive_solver lia.
  - wp_call copyin_spec; [done|done|lia|done|naive_solver|]. naive_solver lia.
Qed.

(** C27: a transfer between a kernel buffer and user memory, in either
    direction.  It moves the smaller of [n] and the residue and accounts for
    it in every field of the request; or it reports [EFAULT] and leaves the
    request alone.  Only the block that is written to changes. *)
Theorem uiomove_user (u : uio) (ptr n : Z) (m : machine) (o : oracle) :
  let t := amount u n in
  uio_ok u n → 0 < n → 0 < uio_resid u → uio_segflg u ≠ UIO_SYSSPACE → uio_space u = t_vmspace →
  badfault m = false → kernel_block m ptr t →
  (iov_base u + t ≤ USERTOP → mapped m (iov_base u) t ∧
     survives (urd m) (iov_base u) t ∧ survives (uwr m) (iov_base u) t) →
  wp (uiomove ptr n u) (λ '(r, u') m' _,
    let '(dst, src) := mover u ptr in
    only_changes dst t m m' ∧
    ((r = 0 ∧ u' = advance u t ∧ uio_resid u' = uio_resid u - t ∧
      uio_offset u' = uio_offset u + t ∧
      bytes_at (mem m') dst (Z.to_nat t) = bytes_at (mem m) src (Z.to_nat t)) ∨
     (r = EFAULT ∧ u' = u ∧
      ¬ (iov_base u + t ≤ USERTOP ∧ all_ok (urd m) (iov_base u) t ∧ all_ok (uwr m) (iov_base u) t)))) m o.
Proof.
  intros t Hu Hn Hr Hseg Hsp Hbf Hk Hmap. pose proof Hu as ((? & ? & ?) & ? & ? & ? & ? & ?).
  destruct (uiomove_size u n Hu Hn Hr) as [Hsz Htp]. fold t in Hsz, Htp.
  assert (t ≤ uio_resid u) as Htr by (unfold t, amount; lia).
  unfold uiomove. wp_step. wp_step.
  { destruct (uio_segflg u); [|done|]; by apply bool_decide_eq_true_2. }
  destruct (Z.to_nat n) as [|fuel] eqn:Hf; [lia|]. cbn [uiomove_loop].
  rewrite (proj2 (andb_true_iff _ _)) by (split; apply Z.ltb_lt; lia). rewrite Hsz.
  destruct (Z.eqb_spec t 0); [lia|].
  wp_step. eapply wp_mono.
  { replace (match uio_segflg u with UIO_SYSSPACE => _ | _ => _ end) with
      (match uio_rw_ u with
       | UIO_READ => copyout ptr (iov_base u) t
       | UIO_WRITE => copyin (iov_base u) ptr t
       end) by (by destruct (uio_segflg u)).
    apply (user_copy u ptr m t o); try done; lia. }
  cbn beta. destruct (mover u ptr) as [dst src].
  intros r m' o' (Hoc & [(-> & Hb)|(-> & Hno)]); wp_cond.
  - unfold wp. rewrite uiomove_loop_done.
    + split; [done|]. left. rewrite (advance_eq u t n) by (done || lia). done.
    + rewrite (advance_eq u t n) by (done || lia). simpl. unfold t, amount. lia.
  - wp_run. split; [done|]. right. done.
Qed.

(** [uiomovezeros] on a kernel request clears the smaller of [n] and the
    residue, sixteen bytes at a time, advances the request by that much and
    changes nothing else. *)
Theorem uiomovezeros_clears (u : uio) (n : Z) (m : machine) (o : oracle) :
  uio_ok u n → 0 ≤ n → uio_segflg u = UIO_SYSSPACE → uio_space u = None →
  uio_rw_ u = UIO_READ → USERTOP ≤ iov_base u → zeros_ok m →
  mapped m (iov_base u) (amount u n) →
  wp (uiomovezeros n u) (λ r m' _, r = (0, advance u (amount u n)) ∧
    bytes_at (mem m') (iov_base u) (Z.to_nat (amount u n)) =
      Some (replicate (Z.to_nat (amount u n)) 0) ∧
    only_changes (iov_base u) (amount u n) m m') m o.
Proof.
  intros Hu Hn ? ? ? ? ? ?. eapply wp_mono; [by apply uiomovezeros_spec|]. cbn beta.
  intros r m' o' (-> & _ & ->). split_and!; [done| |].
  - simpl. pose proof (bytes_at_write_eq (mem m) (iov_base u) (replicate (Z.to_nat (amount u n)) 0)) as He.
    by rewrite length_replicate in He.
  - intros b Hb. simpl. rewrite write_at_lookup, length_replicate, decide_False; [done|].
    destruct Hu as (_ & _ & ? & _). unfold amount in *. lia.
Qed.

End Uio.

Definition sample_uio : uio := mkUio 4096 8 100 8 UIO_USERSPACE UIO_READ (Some 1%nat).
Lemma sample_uio_ok : uio_ok sample_uio 4.
Proof. unfold uio_ok, no_wrap. simpl. lia. Qed.
Lemma uiomove_user_witness :
  wp (uiomove (Some 1%nat) MIPS_KSEG0 4 sample_uio) (λ '(r, u') m' _,
    only_changes 4096 4 two_halves m' ∧
    ((r = 0 ∧ u' = advance sample_uio 4 ∧ uio_resid u' = 8 - 4 ∧ uio_offset u' = 100 + 4 ∧
      bytes_at (mem m') 4096 4 = bytes_at (mem two_halves) MIPS_KSEG0 4) ∨
     (r = EFAULT ∧ u' = sample_uio ∧
      ¬ (4096 + 4 ≤ USERTOP ∧ all_ok (urd two_halves) 4096 4 ∧ all_ok (uwr two_halves) 4096 4))))
    two_halves [].
Proof.
  apply (uiomove_user (Some 1%nat) sample_uio MIPS_KSEG0 4 two_halves []);
    [exact sample_uio_ok|lia|simpl; lia|done|done|done| |].
  - change (amount sample_uio 4) with 4.
    split_and!; [unfold USERTOP; lia|unfold no_wrap, MIPS_KSEG0; lia|vm_compute; by eexists].
  - change (amount sample_uio 4) with 4. change (iov_base sample_uio) with 4096.
    intros _. split_and!; [vm_compute; by eexists|..]; intros b Hb.
    + by rewrite (proj1 (two_halves_ok 4096 4 ltac:(lia) ltac:(lia)) b Hb).
    + by rewrite (proj2 (two_halves_ok 4096 4 ltac:(lia) ltac:(lia)) b Hb).
Defined.

(** Twenty bytes are cleared, the array of zeros lying behind them. *)
Definition zeros_machine : machine :=
  mkMachine (write_at ∅ MIPS_KSEG0 (replicate 24 9 ++ replicate 16 0)) (λ _, AFault) (λ _, AFault) false.
Lemma uiomovezeros_clears_witness :
  wp (uiomovezeros None (MIPS_KSEG0 + 24) 20 (mk_kuio MIPS_KSEG0 20 0 UIO_READ))
    (λ r m' _, r = (0, advance (mk_kuio MIPS_KSEG0 20 0 UIO_READ) 20) ∧
       bytes_at (mem m') MIPS_KSEG0 20 = Some (replicate 20 0) ∧
       only_changes MIPS_KSEG0 20 zeros_machine m') zeros_machine [].
Proof.
  apply (uiomovezeros_clears None (MIPS_KSEG0 + 24) (mk_kuio MIPS_KSEG0 20 0 UIO_READ) 20
           zeros_machine []).
  - unfold uio_ok, no_wrap, MIPS_KSEG0. simpl. lia.
  - lia.
  - done.
  - done.
  - done.
  - unfold USERTOP. simpl. lia.
  - split_and!; [unfold USERTOP; lia|unfold MIPS_KSEG0; lia|vm_compute; done].
  - vm_compute. by eexists.
Defined.
