(* ===== verification/Pages.v ===== *)
(** * The page allocator as the kernel heap sees it

    [alloc_kpages] and [free_kpages] (src/kern/include/vm.h) as an interface:
    blocks of whole pages, disjoint and mapped, which belong to the caller
    until they are freed. *)
From S2P Require Import Prelude Memory Copyinout.

Class PageAllocator (P : Type) : Type := {
  pa_machine : P → machine;
  pa_put : machine → P → P;
  pa_alloc : Z → K P Z;
  pa_free : Z → K P unit;
  (** [pa_owned s A]: the blocks handed out, by address and number of pages *)
  pa_owned : P → gmap Z nat → Prop;
  (** a request for [n] pages is answered *)
  pa_enough : P → nat → Prop;
}.

Definition page_block (m : machine) (a : Z) (n : nat) : Prop :=
  USERTOP < a ∧ a mod PAGE_SIZE = 0 ∧ (0 < n)%nat ∧ a + Z.of_nat n * PAGE_SIZE < 2 ^ 32 ∧
  mapped m a (Z.of_nat n * PAGE_SIZE).

Class PageLaws (P : Type) `{PageAllocator P} : Prop := {
  pa_machine_put m s : pa_machine (pa_put m s) = m;
  pa_put_machine s : pa_put (pa_machine s) s = s;
  pa_put_put m m' s : pa_put m (pa_put m' s) = pa_put m s;
  pa_block s A a n : pa_owned s A → A !! a = Some n → page_block (pa_machine s) a n;
  pa_disjoint s A a n b k :
    pa_owned s A → A !! a = Some n → A !! b = Some k → a ≠ b →
    a + Z.of_nat n * PAGE_SIZE ≤ b ∨ b + Z.of_nat k * PAGE_SIZE ≤ a;
  pa_enough_one s A : pa_owned s A → pa_enough s 1;
  pa_alloc_ok s A n o :
    pa_owned s A → 0 < Z.of_nat n ≤ 2 ^ 20 → pa_enough s n →
    wp (pa_alloc (Z.of_nat n)) (λ r s' o', o' = o ∧
      ((r = 0 ∧ s' = s) ∨
       (r ≠ 0 ∧ A !! r = None ∧ pa_owned s' (<[r := n]> A) ∧
        only_changes r (Z.of_nat n * PAGE_SIZE) (pa_machine s) (pa_machine s')))) s o;
  pa_free_ok s A a n o :
    pa_owned s A → A !! a = Some n →
    wp (pa_free a) (λ _ s' o', o' = o ∧ pa_owned s' (delete a A) ∧ pa_machine s' = pa_machine s) s o;
  pa_write s A a n b bs :
    pa_owned s A → A !! a = Some n →
    a ≤ b → b + Z.of_nat (length bs) ≤ a + Z.of_nat n * PAGE_SIZE →
    pa_owned (pa_put (with_mem (pa_machine s) (write_at (mem (pa_machine s)) b bs)) s) A;
}.
