(* ===== verification/Coremap.v ===== *)
(** * Physical memory: src/kern/vm/coremap.c, src/kern/arch/mips/mips/ram.c
    and [alloc_kpages]/[free_kpages] of src/kern/vm/vm_tlb.c *)
From S2P Require Import Prelude Memory Copyinout Uio Pages.

(** [struct coremap_entry] *)
Record coremap_entry : Type := mkEntry {
  paddr : Z;
  use : Z;
  csize : Z;
}.

(** The static variables of the two files, and memory. *)
Record core : Type := mkCore {
  cmach : machine;
  firstpaddr : Z;
  lastpaddr : Z;
  cm_size : Z;
  firstaddr : Z;
  lastaddr : Z;
  freeaddr : Z;
  cm_bootstrapped : Z;
  cm : list coremap_entry;
}.

Definition PADDR_TO_KVADDR (pa : Z) : Z := u32 (pa + MIPS_KSEG0).

(** ** ram.c *)
Definition ram_bootstrap (ramsize firstfree : Z) : K core unit :=
  let ramsize := if 508 * 1024 * 1024 <? ramsize then 508 * 1024 * 1024 else ramsize in
  modify (λ s, mkCore (cmach s) (u32 (firstfree - MIPS_KSEG0)) ramsize (cm_size s) (firstaddr s)
                 (lastaddr s) (freeaddr s) (cm_bootstrapped s) (cm s)).

Definition ram_stealmem (npages : Z) : K core Z :=
  let size := u32 (npages * PAGE_SIZE) in
  s <- kget;
  if lastpaddr s <? u32 (firstpaddr s + size) then ret 0
  else
    let paddr := firstpaddr s in
    _ <- kput (mkCore (cmach s) (u32 (firstpaddr s + size)) (lastpaddr s) (cm_size s) (firstaddr s)
                 (lastaddr s) (freeaddr s) (cm_bootstrapped s) (cm s));
    ret paddr.

(** The pair is [*lo], [*hi]; with [OPT_A3] the bounds are kept. *)
Definition ram_getsize : K core (Z * Z) := gets (λ s, (firstpaddr s, lastpaddr s)).

(** ** coremap.c *)
Definition set_cm (f : list coremap_entry → list coremap_entry) : K core unit :=
  modify (λ s, mkCore (cmach s) (firstpaddr s) (lastpaddr s) (cm_size s) (firstaddr s)
                 (lastaddr s) (freeaddr s) (cm_bootstrapped s) (f (cm s))).
Definition on_machine {A} (m : K machine A) : K core A :=
  zoom cmach (λ mc s, mkCore mc (firstpaddr s) (lastpaddr s) (cm_size s) (firstaddr s)
                 (lastaddr s) (freeaddr s) (cm_bootstrapped s) (cm s)) m.
(** [cm[i]], and [cm[i]->use = u; cm[i]->size = n;] *)
Definition cm_at (i : Z) : K core coremap_entry := s <- kget; deref (zlookup (cm s) i).
Definition cm_mark (i u n : Z) : K core unit :=
  e <- cm_at i;
  set_cm (λ c, <[Z.to_nat i := mkEntry (paddr e) u n]> c).

(** [for (i = 0; i <= cm_size; i++)]: the index of the block that was found,
    or [None] for the return of [0] *)
Fixpoint cm_scan (fuel : nat) (npages i cont_count : Z) : K core (option Z) :=
  s <- kget;
  if i <=? cm_size s then
    if cont_count =? 0 then ret (Some (u32 (i - npages)))
    else
      e <- cm_at i;
      match fuel with
      | O => halt Spin
      | Datatypes.S fuel' =>
          if use e =? 0 then cm_scan fuel' npages (i + 1) (u32 (cont_count - 1))
          else if i =? u32 (cm_size s - 1) then ret None
          else cm_scan fuel' npages (i + 1) npages
      end
  else ret None.

Section Pages.
  Context (zeros : Z).

Definition getppages (npages : Z) : K core Z :=
  s <- kget;
  if cm_bootstrapped s =? 0 then ram_stealmem npages
  else
    found <- cm_scan (Datatypes.S (Z.to_nat (cm_size s))) npages 0 (u32 npages);
    match found with
    | None => ret 0
    | Some cont_block_index =>
        e <- cm_at cont_block_index;
        let addr := paddr e in
        _ <- cm_mark cont_block_index 1 (s32 npages);
        _ <- on_machine (uiomovezeros None zeros (u32 (PAGE_SIZE * npages))
               (mk_kuio (PADDR_TO_KVADDR addr) (u32 (PAGE_SIZE * npages)) 0 UIO_READ));
        _ <- kfor (Z.to_nat (npages - 1)) (cont_block_index + 1) (λ i, cm_mark i 1 (-1));
        ret addr
    end.

(** [for (i = index + cm[index]->size - 1; i >= index; i--)], [i] unsigned *)
Fixpoint unget_loop (fuel : nat) (i index : Z) : K core unit :=
  if index <=? i then
    match fuel with
    | O => halt Spin
    | Datatypes.S fuel' =>
        _ <- cm_mark i 0 0;
        unget_loop fuel' (u32 (i - 1)) index
    end
  else ret tt.
Definition ungetppages (pa : Z) : K core unit :=
  s <- kget;
  let index := u32 (pa - firstaddr s) / PAGE_SIZE in
  e <- cm_at index;
  unget_loop (Datatypes.S (Z.to_nat (cm_size s))) (u32 (index + csize e - 1)) index.

(** ** vm_tlb.c *)
Definition alloc_kpages (npages : Z) : K core Z :=
  pa <- getppages (u32 npages);
  if pa =? 0 then ret 0 else ret (PADDR_TO_KVADDR pa).
Definition free_kpages (addr : Z) : K core unit := ungetppages (u32 (addr - MIPS_KSEG0)).

End Pages.

(** ** The scan against first fit *)
Fixpoint run_free (n : nat) (c : list coremap_entry) : bool :=
  match n with
  | O => true
  | Datatypes.S n' =>
      match c with
      | [] => false
      | e :: c' => (use e =? 0) && run_free n' c'
      end
  end.
(** The least index from [i] on at which [n] free frames start. *)
Fixpoint first_fit (n : nat) (c : list coremap_entry) (i : nat) : option nat :=
  if run_free n c then Some i
  else match c with [] => None | _ :: c' => first_fit n c' (Datatypes.S i) end.

Lemma run_free_true n c :
  run_free n c = true ↔ (n ≤ length c)%nat ∧ ∀ j e, (j < n)%nat → c !! j = Some e → use e = 0.
Proof.
  revert c. induction n as [|n IH]; intros c; simpl; [naive_solver lia|].
  destruct c as [|e c]; simpl; [naive_solver lia|].
  rewrite andb_true_iff, Z.eqb_eq, IH. split.
  - intros (He & Hlen & Hall). split; [lia|]. intros [|j] e' Hj; simpl; [naive_solver|].
    apply Hall. lia.
  - intros (Hlen & Hall). split_and!; [by apply (Hall 0%nat e); [lia|]|lia|].
    intros j e' Hj Hlk. apply (Hall (S j)); [lia|done].
Qed.
Lemma run_free_used n c j e :
  c !! j = Some e → use e ≠ 0 → (j < n)%nat → run_free n c = false.
Proof.
  intros Hj Hu Hlt. apply not_true_iff_false. rewrite run_free_true. naive_solver.
Qed.
Lemma run_free_short n c : (length c < n)%nat → run_free n c = false.
Proof. intros. apply not_true_iff_false. rewrite run_free_true. lia. Qed.

Lemma first_fit_Some n c i j :
  first_fit n c i = Some j → (i ≤ j)%nat ∧ run_free n (drop (j - i) c) = true ∧
  ∀ k, (i ≤ k < j)%nat → run_free n (drop (k - i) c) = false.
Proof.
  revert i. induction c as [|e c IH]; intros i; simpl; destruct (run_free _ _) eqn:Hr; intros Hf;
    simplify_eq.
  - split_and!; [lia|by rewrite Nat.sub_diag|lia].
  - split_and!; [lia|by rewrite Nat.sub_diag|lia].
  - apply IH in Hf as (Hle & Hrun & Hmin). split_and!; [lia| |].
    + by replace (j - i)%nat with (S (j - S i)) by lia.
    + intros k Hk. destruct (decide (k = i)) as [->|]; [by rewrite Nat.sub_diag|].
      replace (k - i)%nat with (S (k - S i)) by lia. apply Hmin. lia.
Qed.
Lemma first_fit_None n c i k :
  first_fit n c i = None → run_free n (drop k c) = false.
Proof.
  revert i k. induction c as [|e c IH]; intros i k; simpl; destruct (run_free _ _) eqn:Hr; intros Hf;
    simplify_eq; [by rewrite drop_nil|].
  destruct k as [|k]; [done|]. simpl. by eapply IH.
Qed.
(** No fit starts among the first [k]. *)
Lemma first_fit_skip n c i k :
  (k ≤ length c)%nat → (∀ j, (j < k)%nat → run_free n (drop j c) = false) →
  first_fit n c i = first_fit n (drop k c) (i + k).
Proof.
  revert c i. induction k as [|k IH]; intros c i Hk Hno; [by rewrite drop_0, Nat.add_0_r|].
  destruct c as [|e c]; simpl in Hk; [lia|].
  pose proof (Hno 0%nat ltac:(lia)) as H0. rewrite drop_0 in H0. cbn [first_fit]. rewrite H0.
  rewrite IH; [f_equal; lia|lia|]. intros j Hj. apply (Hno (S j)). lia.
Qed.

(** ** The state after bootstrap *)
Definition frame (s : core) (i : nat) : Z := firstaddr s + Z.of_nat i * PAGE_SIZE.
Definition core_ok (s : core) : Prop :=
  cm_bootstrapped s ≠ 0 ∧ cm_size s = Z.of_nat (length (cm s)) ∧ (0 < length (cm s))%nat ∧
  0 < firstaddr s ∧ frame s (length (cm s)) ≤ 508 * 1024 * 1024 ∧ firstaddr s mod PAGE_SIZE = 0 ∧
  (∀ i e, cm s !! i = Some e → paddr e = frame s i).
Definition last_free (s : core) : bool :=
  match last (cm s) with Some e => use e =? 0 | None => false end.

Lemma core_ok_small s : core_ok s → Z.of_nat (length (cm s)) ≤ 130048.
Proof.
  intros (_ & _ & _ & ? & Hf & _). unfold frame, PAGE_SIZE in Hf.
  lia.
Qed.

(** The scan finds the first fit.  Its last iteration, when the
    frames at the end are free but too few, reads beyond the coremap. *)
Lemma cm_scan_spec s n st k fuel o :
  core_ok s → 0 < Z.of_nat n ≤ 2 ^ 20 → (k ≤ n)%nat →
  (st + k ≤ length (cm s))%nat → (length (cm s) - (st + k) < fuel)%nat →
  (k = 0 → st + k < length (cm s))%nat →
  (∀ j e, (st ≤ j < st + k)%nat → cm s !! j = Some e → use e = 0) →
  cm_scan fuel (Z.of_nat n) (Z.of_nat (st + k)) (Z.of_nat (n - k)) s o =
  match first_fit n (drop st (cm s)) st with
  | Some j => Done (Some (Z.of_nat j), s, o)
  | None => if last_free s then Halt Fault else Done (None, s, o)
  end.
Proof.
  intros Hs Hn. pose proof (core_ok_small _ Hs) as Hsm. pose proof Hs as (_ & Hsize & Hpos & _).
  revert st k. induction fuel as [|fuel IH]; intros st k Hk Hlen Hfuel Hk0 Hfree; [lia|].
  cbn [cm_scan]. unfold bind at 1, kget at 1. rewrite Hsize.
  destruct (Z.leb_spec (Z.of_nat (st + k)) (Z.of_nat (length (cm s)))); [|lia].
  destruct (decide (k = n)) as [->|Hkn].
  { rewrite Nat.sub_diag. change (Z.of_nat 0 =? 0) with true. cbv match.
    assert (run_free n (drop st (cm s)) = true) as Hrun.
    { apply run_free_true. rewrite length_drop. split; [lia|]. intros j e Hj Hlk.
      rewrite lookup_drop in Hlk. apply (Hfree (st + j)%nat); [lia|done]. }
    assert (first_fit n (drop st (cm s)) st = Some st) as ->.
    { destruct (drop st (cm s)); simpl; by rewrite Hrun. }
    rewrite u32_small by lia.
    by replace (Z.of_nat (st + n) - Z.of_nat n) with (Z.of_nat st) by lia. }
  destruct (Z.eqb_spec (Z.of_nat (n - k)) 0); [lia|].
  unfold cm_at, bind at 1, bind at 1, kget at 1. rewrite zlookup_nat.
  destruct (cm s !! (st + k)%nat) as [e|] eqn:He.
  2: { (* beyond the end *)
    apply lookup_ge_None in He. simpl.
    assert (last_free s = true) as ->.
    { unfold last_free. rewrite last_lookup.
      destruct (lookup_lt_is_Some_2 (cm s) (pred (length (cm s)))) as [e Hl]; [lia|].
      rewrite Hl. apply Z.eqb_eq. apply (Hfree (pred (length (cm s)))); [lia|done]. }
    assert (first_fit n (drop st (cm s)) st = None) as ->; [|done].
    rewrite (first_fit_skip _ _ _ (length (drop st (cm s)))); [|done|].
    - rewrite drop_ge by done. by destruct n; [lia|].
    - intros j Hj. apply run_free_short. rewrite length_drop, length_drop in *. lia. }
  pose proof (lookup_lt_Some _ _ _ He) as Hlt. simpl.
  destruct (Z.eqb_spec (use e) 0) as [Hu|Hu].
  { (* one more free frame *)
    replace (Z.of_nat (st + k) + 1) with (Z.of_nat (st + S k)) by lia.
    replace (u32 (Z.of_nat (n - k) - 1)) with (Z.of_nat (n - S k))
      by (rewrite u32_small by lia; lia).
    apply IH; [lia..|]. intros j e' Hj Hlk. destruct (decide (j = (st + k)%nat)) as [->|].
    - by simplify_eq.
    - apply (Hfree j); [lia|done]. }
  (* a used frame: no fit starts at or before it *)
  assert (first_fit n (drop st (cm s)) st = first_fit n (drop (st + S k) (cm s)) (st + S k)) as ->.
  { rewrite (first_fit_skip _ _ _ (S k)).
    - by rewrite drop_drop.
    - rewrite length_drop. lia.
    - intros j Hj. apply (run_free_used _ _ (k - j) e); [|done|lia].
      rewrite drop_drop, lookup_drop. rewrite <- He. f_equal. lia. }
  rewrite u32_small by lia.
  destruct (Z.eqb_spec (Z.of_nat (st + k)) (Z.of_nat (length (cm s)) - 1)) as [Heq|Hne].
  - rewrite drop_ge by lia. assert (last_free s = false) as ->.
    { unfold last_free. rewrite last_lookup. replace (pred (length (cm s))) with (st + k)%nat by lia.
      rewrite He. by apply Z.eqb_neq. }
    by destruct n; [lia|].
  - replace (Z.of_nat (st + k) + 1) with (Z.of_nat (st + S k + 0)) by lia.
    replace (Z.of_nat n) with (Z.of_nat (n - 0)) at 2 by lia.
    apply IH; [lia..|]. intros j e' Hj. lia.
Qed.

(** ** Marking frames *)
Definition mark_range (c : list coremap_entry) (i n : nat) (u sz : Z) : list coremap_entry :=
  imap (λ k e, if decide (i ≤ k < i + n)%nat then mkEntry (paddr e) u sz else e) c.
Definition with_cm (s : core) (c : list coremap_entry) : core :=
  mkCore (cmach s) (firstpaddr s) (lastpaddr s) (cm_size s) (firstaddr s) (lastaddr s)
    (freeaddr s) (cm_bootstrapped s) c.

Lemma with_cm_id s : with_cm s (cm s) = s.
Proof. by destruct s. Qed.
Lemma mark_range_length c i n u sz : length (mark_range c i n u sz) = length c.
Proof. apply length_imap. Qed.
Lemma mark_range_lookup c i n u sz k :
  mark_range c i n u sz !! k =
  (λ e, if decide (i ≤ k < i + n)%nat then mkEntry (paddr e) u sz else e) <$> c !! k.
Proof. unfold mark_range. by rewrite list_lookup_imap. Qed.
Lemma mark_range_0 c i u sz : mark_range c i 0 u sz = c.
Proof.
  apply list_eq. intros k. rewrite mark_range_lookup. destruct (c !! k); [|done].
  simpl. by rewrite decide_False by lia.
Qed.
Lemma mark_range_insert c i e u sz :
  c !! i = Some e → <[i := mkEntry (paddr e) u sz]> c = mark_range c i 1 u sz.
Proof.
  intros He. apply list_eq. intros k. rewrite mark_range_lookup.
  destruct (decide (k = i)) as [->|].
  - rewrite list_lookup_insert_eq, He by (by eapply lookup_lt_Some). simpl.
    by rewrite decide_True by lia.
  - rewrite list_lookup_insert_ne by done. destruct (c !! k); [|done]. simpl.
    by rewrite decide_False by lia.
Qed.
Lemma mark_range_app c i n m u sz :
  mark_range (mark_range c i n u sz) (i + n) m u sz = mark_range c i (n + m) u sz.
Proof.
  apply list_eq. intros k. rewrite !mark_range_lookup. destruct (c !! k); [|done]. simpl.
  repeat case_decide; done || lia.
Qed.

Lemma cm_mark_spec s i u sz o :
  (i < length (cm s))%nat →
  wp (cm_mark (Z.of_nat i) u sz)
    (λ _ s' o', o' = o ∧ s' = with_cm s (mark_range (cm s) i 1 u sz)) s o.
Proof.
  intros [e He]%lookup_lt_is_Some_2. unfold cm_mark, cm_at, set_cm. wp_run.
  apply wp_deref. rewrite zlookup_nat. exists e. split; [done|]. wp_run.
  rewrite Nat2Z.id, (mark_range_insert _ _ e) by done. done.
Qed.
Lemma mark_loop_spec s n i u sz o :
  (i + n ≤ length (cm s))%nat →
  wp (kfor n (Z.of_nat i) (λ i, cm_mark i u sz))
    (λ _ s' o', o' = o ∧ s' = with_cm s (mark_range (cm s) i n u sz)) s o.
Proof.
  revert s i. induction n as [|n IH]; intros s i Hi; cbn [kfor].
  { wp_run. by rewrite mark_range_0, with_cm_id. }
  wp_step. eapply wp_mono; [apply cm_mark_spec; lia|]. cbn beta. intros _ s' o' (-> & ->).
  replace (Z.of_nat i + 1) with (Z.of_nat (i + 1)) by lia.
  eapply wp_mono; [apply IH; simpl; rewrite mark_range_length; lia|]. cbn beta.
  intros _ s' o' (-> & ->). split; [done|]. unfold with_cm. simpl.
  by rewrite (mark_range_app _ i 1 n).
Qed.
Lemma unget_loop_spec s n index fuel o :
  (0 < index)%nat → (index + n ≤ length (cm s))%nat → (n < fuel)%nat → Z.of_nat (length (cm s)) < 2 ^ 31 →
  wp (unget_loop fuel (Z.of_nat index + Z.of_nat n - 1) (Z.of_nat index))
    (λ _ s' o', o' = o ∧ s' = with_cm s (mark_range (cm s) index n 0 0)) s o.
Proof.
  intros Hidx. revert s fuel. induction n as [|n IH]; intros s fuel Hi Hf Hlen;
    (destruct fuel as [|fuel]; [lia|]); cbn [unget_loop].
  { destruct (Z.leb_spec (Z.of_nat index) (Z.of_nat index + Z.of_nat 0 - 1)); [lia|].
    wp_run. by rewrite mark_range_0, with_cm_id. }
  destruct (Z.leb_spec (Z.of_nat index) (Z.of_nat index + Z.of_nat (S n) - 1)); [|lia].
  replace (Z.of_nat index + Z.of_nat (S n) - 1) with (Z.of_nat (index + n)) by lia.
  wp_step. eapply wp_mono; [apply cm_mark_spec; lia|]. cbn beta. intros _ s' o' (-> & ->).
  rewrite u32_small by lia.
  replace (Z.of_nat (index + n) - 1) with (Z.of_nat index + Z.of_nat n - 1) by lia.
  eapply wp_mono; [apply IH; simpl; rewrite ?mark_range_length; lia|]. cbn beta.
  intros _ s' o' (-> & ->). split; [done|]. unfold with_cm. simpl. f_equal.
  apply list_eq. intros k. rewrite !mark_range_lookup. destruct (cm s !! k); [|done]. simpl.
  repeat case_decide; done || lia.
Qed.

(** ** Allocation *)
Section Alloc.
  Context (zeros : Z).

(** Physical memory is there, and the static array of zeros is zero. *)
Definition phys_ok (s : core) : Prop :=
  zeros_ok zeros (cmach s) ∧
  mapped (cmach s) (MIPS_KSEG0 + firstaddr s) (Z.of_nat (length (cm s)) * PAGE_SIZE).

Definition set_block (c : list coremap_entry) (j n : nat) : list coremap_entry :=
  mark_range (mark_range c j 1 1 (Z.of_nat n)) (j + 1) (n - 1) 1 (-1).
Definition clear_frames (s : core) (j n : nat) : machine :=
  with_mem (cmach s) (write_at (mem (cmach s)) (MIPS_KSEG0 + frame s j)
    (replicate (Z.to_nat (Z.of_nat n * PAGE_SIZE)) 0)).
Definition take_block (s : core) (j n : nat) : core :=
  mkCore (clear_frames s j n) (firstpaddr s) (lastpaddr s) (cm_size s) (firstaddr s) (lastaddr s)
    (freeaddr s) (cm_bootstrapped s) (set_block (cm s) j n).

Lemma frame_bounds s j n :
  core_ok s → (j + n ≤ length (cm s))%nat →
  0 < frame s j ∧ frame s j + Z.of_nat n * PAGE_SIZE ≤ 508 * 1024 * 1024.
Proof. intros (_ & _ & _ & ? & Hf & _) Hle. unfold frame, PAGE_SIZE in *. lia. Qed.

Lemma zero_frames_spec s j n o :
  core_ok s → phys_ok s → (j + n ≤ length (cm s))%nat →
  wp (on_machine (uiomovezeros None zeros (u32 (PAGE_SIZE * Z.of_nat n))
        (mk_kuio (PADDR_TO_KVADDR (frame s j)) (u32 (PAGE_SIZE * Z.of_nat n)) 0 UIO_READ)))
    (λ _ s' o', o' = o ∧ s' = mkCore (clear_frames s j n) (firstpaddr s) (lastpaddr s)
       (cm_size s) (firstaddr s) (lastaddr s) (freeaddr s) (cm_bootstrapped s) (cm s)) s o.
Proof.
  intros Hs [Hz Hmap] Hle. destruct (frame_bounds s j n Hs Hle) as [Hf1 Hf2].
  assert (PADDR_TO_KVADDR (frame s j) = MIPS_KSEG0 + frame s j) as ->.
  { unfold PADDR_TO_KVADDR, PAGE_SIZE in *. rewrite u32_small; unfold MIPS_KSEG0; lia. }
  unfold PAGE_SIZE in Hf2. rewrite u32_small by (unfold PAGE_SIZE; lia).
  set (len := PAGE_SIZE * Z.of_nat n). unfold on_machine. wp_step.
  assert (amount (mk_kuio (MIPS_KSEG0 + frame s j) len 0 UIO_READ) len = len) as Ham.
  { unfold amount. simpl. lia. }
  eapply wp_mono; [apply uiomovezeros_spec; try done|].
  - unfold uio_ok, no_wrap, len, PAGE_SIZE, MIPS_KSEG0. simpl. lia.
  - unfold len, PAGE_SIZE. lia.
  - unfold USERTOP. simpl. lia.
  - rewrite Ham. simpl. unfold mapped in *.
    replace (MIPS_KSEG0 + frame s j) with
      (MIPS_KSEG0 + firstaddr s + Z.of_nat (Z.to_nat (Z.of_nat j * PAGE_SIZE))).
    + apply (bytes_at_sub_is_Some _ _ _ _ _ Hmap). unfold len, PAGE_SIZE. lia.
    + unfold frame, PAGE_SIZE. lia.
  - cbn beta. rewrite Ham. intros r m' o' (_ & -> & ->). split; [done|].
    unfold clear_frames. simpl. by replace len with (Z.of_nat n * PAGE_SIZE) by (unfold len; lia).
Qed.

(** First fit, with the overrun of the scan. *)
Lemma getppages_eq s n o :
  core_ok s → phys_ok s → 0 < Z.of_nat n ≤ 2 ^ 20 →
  getppages zeros (Z.of_nat n) s o =
  match first_fit n (cm s) 0 with
  | Some j => Done (frame s j, take_block s j n, o)
  | None => if last_free s then Halt Fault else Done (0, s, o)
  end.
Proof.
  intros Hs Hp Hn. pose proof (core_ok_small _ Hs) as Hsm.
  pose proof Hs as (Hboot & Hsize & Hpos & _ & _ & _ & Hpa).
  unfold getppages, bind at 1, kget at 1. destruct (Z.eqb_spec (cm_bootstrapped s) 0); [done|].
  unfold bind at 1. rewrite (u32_small (Z.of_nat n)) by lia.
  pose proof (cm_scan_spec s n 0 0 (S (Z.to_nat (cm_size s))) o Hs Hn ltac:(lia) ltac:(lia)
    ltac:(lia) ltac:(lia) ltac:(lia)) as Hscan.
  rewrite Nat.sub_0_r, drop_0 in Hscan. change (Z.of_nat (0 + 0)) with 0 in Hscan. rewrite Hscan.
  destruct (first_fit n (cm s) 0) as [j|] eqn:Hff; [|by destruct (last_free s)].
  apply first_fit_Some in Hff as (_ & Hrun & _). rewrite Nat.sub_0_r in Hrun.
  apply run_free_true in Hrun as [Hlen _]. rewrite length_drop in Hlen.
  assert (j + n ≤ length (cm s))%nat as Hjn by lia.
  destruct (lookup_lt_is_Some_2 (cm s) j ltac:(lia)) as [e He].
  assert (wp (e <- cm_at (Z.of_nat j);
     let addr := paddr e in
     _ <- cm_mark (Z.of_nat j) 1 (s32 (Z.of_nat n));
     _ <- on_machine (uiomovezeros None zeros (u32 (PAGE_SIZE * Z.of_nat n))
            (mk_kuio (PADDR_TO_KVADDR addr) (u32 (PAGE_SIZE * Z.of_nat n)) 0 UIO_READ));
     _ <- kfor (Z.to_nat (Z.of_nat n - 1)) (Z.of_nat j + 1) (λ i, cm_mark i 1 (-1));
     ret addr) (λ r s' o', r = frame s j ∧ s' = take_block s j n ∧ o' = o) s o) as Hwp.
  { unfold cm_at at 1. wp_run. apply wp_deref. rewrite zlookup_nat. exists e. split; [done|].
    cbn zeta. rewrite (Hpa j e He). wp_step.
    eapply wp_mono; [apply cm_mark_spec; lia|]. cbn beta. intros _ s1 o1 (-> & ->). wp_step.
    set (s1 := with_cm s _).
    eapply wp_mono; [apply (zero_frames_spec s1 j n)|].
    - destruct Hs as (? & ? & ? & ? & ? & ? & ?).
      unfold core_ok, frame, s1. simpl. rewrite mark_range_length. split_and!; try done.
      intros i e' Hi. rewrite mark_range_lookup in Hi. destruct (cm s !! i) eqn:Hci; [|done].
      apply fmap_Some in Hi as (? & [= <-] & ->). case_decide; simpl; by apply Hpa.
    - destruct Hp. split; [done|]. unfold s1. simpl. by rewrite mark_range_length.
    - unfold s1. simpl. rewrite mark_range_length. lia.
    - cbn beta. intros _ s2 o2 (-> & ->). wp_step.
      replace (Z.to_nat (Z.of_nat n - 1)) with (n - 1)%nat by lia.
      replace (Z.of_nat j + 1) with (Z.of_nat (j + 1)) by lia.
      eapply wp_mono; [apply mark_loop_spec; simpl; rewrite mark_range_length; lia|].
      cbn beta. intros _ s3 o3 (-> & ->). wp_run. split_and!; [done| |done].
      unfold take_block, with_cm, set_block, s1. simpl. by rewrite s32_small by lia. }
  apply wp_run in Hwp as (r & s' & o' & Hrun & -> & -> & ->). exact Hrun.
Qed.

End Alloc.

(** ** The coremap as a set of blocks

    Every entry is free, or is fixed or inside of a block (size [-1]), or
    starts a block whose other entries are marked as such.  The first frame
    holds the coremap itself and is fixed. *)
Definition is_entry (c : list coremap_entry) (i : nat) (u sz : Z) : Prop :=
  ∃ e, c !! i = Some e ∧ use e = u ∧ csize e = sz.
Definition block_at (c : list coremap_entry) (j n : nat) : Prop :=
  (0 < n)%nat ∧ is_entry c j 1 (Z.of_nat n) ∧
  ∀ i, (j < i < j + n)%nat → is_entry c i 1 (-1).
Definition cm_wf (c : list coremap_entry) : Prop :=
  is_entry c 0 1 (-1) ∧
  ∀ j, (j < length c)%nat →
    is_entry c j 0 0 ∨ is_entry c j 1 (-1) ∨ ∃ n, block_at c j n.

Lemma is_entry_lt c i u sz : is_entry c i u sz → (i < length c)%nat.
Proof. intros (e & He & _). by eapply lookup_lt_Some. Qed.
Lemma is_entry_fun c i u sz u' sz' : is_entry c i u sz → is_entry c i u' sz' → u = u' ∧ sz = sz'.
Proof. intros (e & He & <- & <-) (e' & He' & <- & <-). by simplify_eq. Qed.
Lemma block_at_end c j n : block_at c j n → (j + n ≤ length c)%nat.
Proof.
  intros (Hn & Hj & Hin). destruct (decide (n = 1)%nat) as [->|].
  - apply is_entry_lt in Hj. lia.
  - specialize (Hin (j + n - 1)%nat ltac:(lia)). apply is_entry_lt in Hin. lia.
Qed.
Lemma block_at_use c j n i : block_at c j n → (j ≤ i < j + n)%nat → ∃ sz, is_entry c i 1 sz.
Proof.
  intros (Hn & Hj & Hin) Hi. destruct (decide (i = j)) as [->|]; [eauto|]. exists (-1).
  apply Hin. lia.
Qed.
Lemma block_at_fun c j n n' : block_at c j n → block_at c j n' → n = n'.
Proof. intros (_ & H1 & _) (_ & H2 & _). destruct (is_entry_fun _ _ _ _ _ _ H1 H2). lia. Qed.

(** Two blocks share no frame. *)
Lemma block_at_disjoint c j n j' n' i :
  block_at c j n → block_at c j' n' → (j ≤ i < j + n)%nat → (j' ≤ i < j' + n')%nat → j = j'.
Proof.
  intros (Hn & Hj & Hin) (Hn' & Hj' & Hin') Hi Hi'.
  destruct (Nat.lt_trichotomy j j') as [Hlt|[->|Hlt]]; [|done|].
  - destruct (is_entry_fun _ _ _ _ _ _ Hj' (Hin j' ltac:(lia))). lia.
  - destruct (is_entry_fun _ _ _ _ _ _ Hj (Hin' j ltac:(lia))). lia.
Qed.

Lemma is_entry_mark c i n u sz k u' sz' :
  (k < length c)%nat →
  is_entry (mark_range c i n u sz) k u' sz' ↔
  if decide (i ≤ k < i + n)%nat then u' = u ∧ sz' = sz else is_entry c k u' sz'.
Proof.
  intros [e He]%lookup_lt_is_Some_2. unfold is_entry. rewrite mark_range_lookup, He. simpl.
  case_decide; simpl; naive_solver.
Qed.
Lemma set_block_length c j n : length (set_block c j n) = length c.
Proof. unfold set_block. by rewrite !mark_range_length. Qed.
Lemma is_entry_set_block c j n k u sz :
  (0 < n)%nat → (k < length c)%nat →
  is_entry (set_block c j n) k u sz ↔
  if decide (k = j) then u = 1 ∧ sz = Z.of_nat n
  else if decide (j < k < j + n)%nat then u = 1 ∧ sz = -1 else is_entry c k u sz.
Proof.
  intros Hn Hk. unfold set_block. rewrite is_entry_mark by (by rewrite mark_range_length).
  destruct (decide (j + 1 ≤ k < j + 1 + (n - 1))%nat).
  - rewrite (decide_False (P := k = j)), decide_True by lia. done.
  - rewrite is_entry_mark by done. repeat case_decide; lia || done.
Qed.

(** A block that does not meet the frames from [j] to [j + n] stays one. *)
Lemma block_at_mono c c' j n :
  (∀ i u sz, (j ≤ i < j + n)%nat → is_entry c i u sz → is_entry c' i u sz) →
  block_at c j n → block_at c' j n.
Proof.
  intros Hsub (Hn & Hj & Hin). split_and!; [done| |].
  - apply Hsub; [lia|done].
  - intros i Hi. apply Hsub; [lia|by apply Hin].
Qed.

Lemma set_block_wf c j n :
  cm_wf c → (0 < n)%nat → run_free n (drop j c) = true →
  cm_wf (set_block c j n) ∧ block_at (set_block c j n) j n ∧
  ∀ j' n', j' ≠ j → block_at (set_block c j n) j' n' ↔ block_at c j' n'.
Proof.
  intros [H0 Hwf] Hn Hrun. apply run_free_true in Hrun as [Hlen Hfree]. rewrite length_drop in Hlen.
  assert (∀ i u sz, (j ≤ i < j + n)%nat → is_entry c i u sz → u = 0) as Hu.
  { intros i u sz Hi (e & He & <- & _). apply (Hfree (i - j)%nat); [lia|].
    rewrite lookup_drop. rewrite <- He. f_equal. lia. }
  assert (∀ i, (i < length c)%nat → ¬ (j ≤ i < j + n)%nat → ∀ u sz,
    is_entry (set_block c j n) i u sz ↔ is_entry c i u sz) as Hout.
  { intros i Hi Hni u sz. rewrite is_entry_set_block by done.
    by rewrite !decide_False by lia. }
  assert (block_at (set_block c j n) j n) as Hblk.
  { split_and!; [done| |].
    - apply is_entry_set_block; [done|lia|]. by rewrite decide_True.
    - intros i Hi. apply is_entry_set_block; [done|lia|].
      by rewrite decide_False, decide_True by lia. }
  assert (∀ j' n', j' ≠ j → block_at (set_block c j n) j' n' ↔ block_at c j' n') as Hiff.
  { intros j' n' Hne. split; intros Hb; (eapply block_at_mono; [|exact Hb]); intros i u sz Hi He.
    - apply Hout; [apply is_entry_lt in He; by rewrite set_block_length in He| |done].
      intros Hij. by apply Hne, (block_at_disjoint _ _ _ _ _ i Hb Hblk).
    - apply Hout; [by eapply is_entry_lt| |done]. intros Hij.
      destruct (block_at_use _ _ _ i Hb Hi) as [sz' He']. by specialize (Hu i 1 sz' Hij He'). }
  split_and!; [|done|done]. split.
  - apply Hout; [by eapply is_entry_lt| |done]. intros Hij. by specialize (Hu _ _ _ Hij H0).
  - intros k Hk. rewrite set_block_length in Hk.
    destruct (decide (k = j)) as [->|Hkj]; [by right; right; exists n|].
    destruct (decide (j < k < j + n)%nat) as [Hin|Hni].
    + right; left. apply Hblk. done.
    + destruct (Hwf k Hk) as [He|[He|[m Hm]]].
      * left. apply Hout; [done|lia|done].
      * right; left. apply Hout; [done|lia|done].
      * right; right. exists m. by apply Hiff.
Qed.

Lemma free_block_wf c j n :
  cm_wf c → block_at c j n →
  cm_wf (mark_range c j n 0 0) ∧
  ∀ j' n', block_at (mark_range c j n 0 0) j' n' ↔ j' ≠ j ∧ block_at c j' n'.
Proof.
  intros [H0 Hwf] Hblk. pose proof (block_at_end _ _ _ Hblk) as Hend.
  assert (j ≠ 0)%nat as Hj0.
  { intros ->. destruct Hblk as (_ & Hb & _). destruct (is_entry_fun _ _ _ _ _ _ H0 Hb). lia. }
  assert (∀ i, (i < length c)%nat → ∀ u sz, is_entry (mark_range c j n 0 0) i u sz ↔
    if decide (j ≤ i < j + n)%nat then u = 0 ∧ sz = 0 else is_entry c i u sz) as Hent.
  { intros i Hi u sz. by apply is_entry_mark. }
  assert (∀ j' n', block_at (mark_range c j n 0 0) j' n' ↔ j' ≠ j ∧ block_at c j' n') as Hiff.
  { intros j' n'. split.
    - intros Hb. pose proof (block_at_end _ _ _ Hb) as Hend'. rewrite mark_range_length in Hend'.
      assert (∀ i, (j' ≤ i < j' + n')%nat → ¬ (j ≤ i < j + n)%nat) as Hdis.
      { intros i Hi Hij. destruct (block_at_use _ _ _ i Hb Hi) as [sz He].
        rewrite Hent, decide_True in He by lia. lia. }
      split.
      + intros ->. destruct Hb as (? & _). destruct Hblk as (? & _). apply (Hdis j); lia.
      + eapply block_at_mono; [|exact Hb]. intros i u sz Hi He.
        rewrite Hent, decide_False in He; [done|by apply Hdis|lia].
    - intros [Hne Hb]. pose proof (block_at_end _ _ _ Hb) as Hend'.
      eapply block_at_mono; [|exact Hb]. intros i u sz Hi He.
      rewrite Hent, decide_False; [done| |lia]. intros Hij.
      by apply Hne, (block_at_disjoint _ _ _ _ _ i Hb Hblk). }
  split; [|done]. split.
  - rewrite Hent, decide_False; [done|lia|]. apply is_entry_lt in H0. lia.
  - intros k Hk. rewrite mark_range_length in Hk. destruct (decide (j ≤ k < j + n)%nat) as [Hin|Hni].
    + left. rewrite Hent, decide_True; done.
    + destruct (Hwf k Hk) as [He|[He|[m Hm]]].
      * left. by rewrite Hent, decide_False.
      * right; left. by rewrite Hent, decide_False.
      * right; right. exists m. apply Hiff. split; [|done]. intros ->.
        destruct Hblk as (? & _). lia.
Qed.

(** ** Freeing *)
Lemma frame_index s j :
  core_ok s → (j < length (cm s))%nat → u32 (frame s j - firstaddr s) / PAGE_SIZE = Z.of_nat j.
Proof.
  intros Hs Hj. pose proof (core_ok_small _ Hs). unfold frame.
  replace (firstaddr s + Z.of_nat j * PAGE_SIZE - firstaddr s) with (Z.of_nat j * PAGE_SIZE) by lia.
  unfold PAGE_SIZE. rewrite u32_small by lia. by rewrite Z.div_mul.
Qed.
Lemma ungetppages_spec s j n o :
  core_ok s → cm_wf (cm s) → block_at (cm s) j n →
  wp (ungetppages (frame s j))
    (λ _ s' o', o' = o ∧ s' = with_cm s (mark_range (cm s) j n 0 0)) s o.
Proof.
  intros Hs [H0 _] Hb. pose proof (block_at_end _ _ _ Hb) as Hend.
  pose proof (core_ok_small _ Hs) as Hsm. pose proof Hs as (_ & Hsize & _).
  destruct Hb as (Hn & (e & He & Hu & Hsz) & _).
  assert (0 < j)%nat as Hj.
  { destruct j; [|lia]. destruct H0 as (e' & He' & _ & ?). simplify_eq. lia. }
  unfold ungetppages, cm_at. wp_run. rewrite frame_index by (done || lia). apply wp_deref.
  rewrite zlookup_nat. exists e. split; [done|]. rewrite Hsz, u32_small by lia.
  apply unget_loop_spec; lia.
Qed.

Lemma core_ok_take_block s j n : core_ok s → core_ok (take_block s j n).
Proof.
  intros (? & ? & ? & ? & ? & ? & Hpa). unfold core_ok, frame in *. simpl.
  rewrite set_block_length. split_and!; try done. intros i e He.
  unfold set_block in He. rewrite !mark_range_lookup in He.
  destruct (cm s !! i) as [e0|] eqn:He0; [|done]. simplify_eq/=.
  repeat case_decide; simpl; by apply Hpa.
Qed.
Lemma core_ok_mark s j n u sz : core_ok s → core_ok (with_cm s (mark_range (cm s) j n u sz)).
Proof.
  intros (? & ? & ? & ? & ? & ? & Hpa). unfold core_ok, frame in *. simpl. rewrite mark_range_length. split_and!; try done.
  intros i e He. rewrite mark_range_lookup in He.
  destruct (cm s !! i) as [e0|] eqn:He0; [|done]. simplify_eq/=. case_decide; simpl; by apply Hpa.
Qed.
Lemma unset_block c j n :
  (0 < n)%nat → cm_wf c → run_free n (drop j c) = true → mark_range (set_block c j n) j n 0 0 = c.
Proof.
  intros Hn [_ Hwf] [Hlen Hfree]%run_free_true. apply list_eq. intros k.
  unfold set_block. rewrite !mark_range_lookup. destruct (c !! k) as [e|] eqn:He; [|done]. simpl.
  f_equal. destruct (decide (j ≤ k < j + n)%nat) as [Hin|Hni]; [|by rewrite !decide_False by lia].
  assert (use e = 0) as Hu0.
  { apply (Hfree (k - j)%nat); [lia|]. rewrite lookup_drop, <- He. f_equal. lia. }
  destruct (Hwf k ltac:(by eapply lookup_lt_Some)) as [H|[H|[m (_ & H & _)]]];
    destruct H as (e' & He' & Hu & Hsz); simplify_eq; [|lia..].
  destruct e as [pa u sz]. simpl in *. subst. by repeat case_decide.
Qed.

(** ** Properties *)
Section Properties.
  Context (zeros : Z).

(** after bootstrap [getppages] is first fit: it returns the lowest run
    of [n] free frames, marked as one block and cleared, all other frames and
    all other memory unchanged; when there is none it returns [0], except
    that the scan reads one entry beyond the coremap if the last frame is
    free. *)
Theorem getppages_first_fit (s : core) (n : nat) (o : oracle) :
  core_ok s → phys_ok zeros s → 0 < Z.of_nat n ≤ 2 ^ 20 →
  getppages zeros (Z.of_nat n) s o =
  match first_fit n (cm s) 0 with
  | Some j => Done (frame s j, take_block s j n, o)
  | None => if last_free s then Halt Fault else Done (0, s, o)
  end.
Proof. apply getppages_eq. Qed.


(** freeing a page from below the coremap, which [ram_stealmem] handed
    out before [vm_bootstrap], indexes the coremap out of its bounds. *)
Theorem free_stolen_page_faults (s : core) (pa : Z) (o : oracle) :
  core_ok s → 0 ≤ pa ≤ firstaddr s - PAGE_SIZE →
  free_kpages (PADDR_TO_KVADDR pa) s o = Halt Fault.
Proof.
  intros Hs Hpa. pose proof (core_ok_small _ Hs) as Hsm.
  pose proof Hs as (_ & _ & _ & ? & Hf & _). unfold frame, PAGE_SIZE in *.
  unfold free_kpages, ungetppages, cm_at, PADDR_TO_KVADDR, bind, kget.
  assert (u32 (u32 (pa + MIPS_KSEG0) - MIPS_KSEG0) = pa) as ->.
  { unfold MIPS_KSEG0. rewrite (u32_small (pa + _)) by lia. rewrite u32_small by lia. lia. }
  assert (u32 (pa - firstaddr s) = pa - firstaddr s + 2 ^ 32) as ->.
  { unfold u32. symmetry. apply (Z.mod_unique _ _ (-1)); lia. }
  unfold zlookup, PAGE_SIZE. rewrite decide_True by (apply Z.div_pos; lia).
  rewrite lookup_ge_None_2; [done|].
  assert (130048 ≤ (pa - firstaddr s + 2 ^ 32) / 4096); [|lia].
  apply Z.div_le_lower_bound; lia.
Qed.

End Properties.

(** ** Four frames: the coremap's own, two free ones, and a block of one *)
Definition sample_zeros : Z := MIPS_KSEG0 + 4096.
Definition sample_core : core :=
  mkCore (mkMachine (write_at (write_at ∅ sample_zeros (replicate 16 0)) (MIPS_KSEG0 + 8192)
                       (replicate (Z.to_nat (4 * PAGE_SIZE)) 7)) (λ _, AFault) (λ _, AFault) false)
         24576 24576 4 8192 24576 12288 1
         [mkEntry 8192 1 (-1); mkEntry 12288 0 0; mkEntry 16384 0 0; mkEntry 20480 1 1].
Lemma sample_core_ok : core_ok sample_core.
Proof.
  unfold core_ok, frame, PAGE_SIZE. simpl. split_and!; try done; try lia.
  intros [|[|[|[|i]]]] e [= <-]; done.
Qed.
Lemma sample_phys_ok : phys_ok sample_zeros sample_core.
Proof.
  split.
  - split_and!; [unfold USERTOP, sample_zeros; lia|unfold sample_zeros, MIPS_KSEG0; lia|].
    cbn [cmach sample_core mem]. rewrite bytes_at_write_ne.
    + exact (bytes_at_write_eq ∅ sample_zeros (replicate 16 0)).
    + intros k Hk. unfold sample_zeros. lia.
  - unfold mapped. change (Z.of_nat (length (cm sample_core)) * PAGE_SIZE) with (4 * PAGE_SIZE).
    cbn [cmach sample_core mem firstaddr].
    pose proof (bytes_at_write_eq (write_at ∅ sample_zeros (replicate 16 0)) (MIPS_KSEG0 + 8192)
      (replicate (Z.to_nat (4 * PAGE_SIZE)) 7)) as Heq.
    rewrite length_replicate in Heq. rewrite Heq. by eexists.
Qed.
Lemma sample_core_wf : cm_wf (cm sample_core).
Proof.
  split; [by eexists|]. intros [|[|[|[|j]]]] Hj; simpl in Hj; try lia.
  - right; left. by eexists.
  - left. by eexists.
  - left. by eexists.
  - right; right. exists 1%nat. split_and!; [lia|by eexists|lia].
Qed.

Lemma getppages_first_fit_witness :
  getppages sample_zeros 2 sample_core [] = Done (12288, take_block sample_core 1 2, []).
Proof.
  exact (getppages_first_fit sample_zeros sample_core 2 [] sample_core_ok sample_phys_ok ltac:(lia)).
Defined.
Lemma free_stolen_page_faults_witness :
  free_kpages (PADDR_TO_KVADDR 4096) sample_core [] = Halt Fault.
Proof.
  apply (free_stolen_page_faults sample_core 4096 []); [exact sample_core_ok|].
  unfold PAGE_SIZE. simpl. lia.
Defined.

(** ** The coremap as a page allocator *)
Section Instance.
  Context (zeros : Z).

Definition put_machine (m : machine) (s : core) : core :=
  mkCore m (firstpaddr s) (lastpaddr s) (cm_size s) (firstaddr s) (lastaddr s) (freeaddr s)
    (cm_bootstrapped s) (cm s).
Definition core_owned (s : core) (A : gmap Z nat) : Prop :=
  core_ok s ∧ phys_ok zeros s ∧ cm_wf (cm s) ∧ zeros + 16 ≤ MIPS_KSEG0 + firstaddr s ∧
  ∀ a n, A !! a = Some n ↔ ∃ j, a = MIPS_KSEG0 + frame s j ∧ block_at (cm s) j n.
Definition core_enough (s : core) (n : nat) : Prop :=
  is_Some (first_fit n (cm s) 0) ∨ last_free s = false.

#[export] Instance core_pages : PageAllocator core := {
  pa_machine := cmach;
  pa_put := put_machine;
  pa_alloc := alloc_kpages zeros;
  pa_free := free_kpages;
  pa_owned := core_owned;
  pa_enough := core_enough;
}.

Lemma frame_inj s j j' : frame s j = frame s j' → j = j'.
Proof. unfold frame, PAGE_SIZE. lia. Qed.

Lemma core_owned_block s A a n : core_owned s A → A !! a = Some n → page_block (cmach s) a n.
Proof.
  intros (Hs & (_ & Hmap) & _ & _ & HA) (j & -> & Hb)%HA.
  pose proof (block_at_end _ _ _ Hb) as Hend. pose proof (frame_bounds s j n Hs Hend) as [H1 H2].
  destruct Hs as (_ & _ & _ & ? & _ & Hal & _). destruct Hb as (Hn & _).
  split_and!; [unfold USERTOP; lia| |done|unfold MIPS_KSEG0; lia|].
  - unfold frame, MIPS_KSEG0, PAGE_SIZE in *.
    replace (2147483648 + (firstaddr s + Z.of_nat j * 4096))
      with (firstaddr s + (524288 + Z.of_nat j) * 4096) by lia.
    by rewrite Z.mod_add.
  - unfold mapped in *. replace (MIPS_KSEG0 + frame s j) with
      (MIPS_KSEG0 + firstaddr s + Z.of_nat (Z.to_nat (Z.of_nat j * PAGE_SIZE)))
      by (unfold frame, PAGE_SIZE; lia).
    apply (bytes_at_sub_is_Some _ _ _ _ _ Hmap). unfold PAGE_SIZE. lia.
Qed.

Lemma core_owned_write s A a n b bs :
  core_owned s A → A !! a = Some n → a ≤ b → b + Z.of_nat (length bs) ≤ a + Z.of_nat n * PAGE_SIZE →
  core_owned (put_machine (with_mem (cmach s) (write_at (mem (cmach s)) b bs)) s) A.
Proof.
  intros Ho Ha Hb Hbl. pose proof Ho as (Hs & ((Hz1 & Hz2 & Hz3) & Hmap) & Hwf & Hzl & HA).
  apply HA in Ha as (j & -> & Hblk). split_and!; try done.
  - split; [|by apply bytes_at_write_is_Some]. split_and!; [done..|].
    cbn [cmach put_machine with_mem mem]. rewrite bytes_at_write_ne; [done|].
    intros k Hk. unfold frame, PAGE_SIZE in *. lia.
Qed.

Lemma core_enough_one s A : core_owned s A → core_enough s 1.
Proof.
  intros ((_ & _ & Hpos & _) & _). unfold core_enough. destruct (last_free s) eqn:Hl; [left|by right].
  destruct (first_fit 1 (cm s) 0) eqn:Hff; [by eexists|].
  pose proof (first_fit_None _ _ _ (pred (length (cm s))) Hff) as Hr. exfalso.
  unfold last_free in Hl. rewrite last_lookup in Hl.
  destruct (cm s !! pred (length (cm s))) as [e|] eqn:He; [|done].
  apply not_true_iff_false in Hr. apply Hr, run_free_true. rewrite length_drop. split; [lia|].
  intros [|] e' Hj Hlk; [|lia]. rewrite lookup_drop, Nat.add_0_r in Hlk. simplify_eq.
  by apply Z.eqb_eq.
Qed.

Lemma core_alloc_ok s A n o :
  core_owned s A → 0 < Z.of_nat n ≤ 2 ^ 20 → core_enough s n →
  wp (alloc_kpages zeros (Z.of_nat n)) (λ r s' o', o' = o ∧
    ((r = 0 ∧ s' = s) ∨
     (r ≠ 0 ∧ A !! r = None ∧ core_owned s' (<[r := n]> A) ∧
      only_changes r (Z.of_nat n * PAGE_SIZE) (cmach s) (cmach s')))) s o.
Proof.
  intros (Hs & Hp & Hwf & Hzl & HA) Hn He.
  unfold alloc_kpages. rewrite (u32_small (Z.of_nat n)) by lia. wp_step.
  unfold wp at 1. rewrite (getppages_eq zeros s n o Hs Hp Hn).
  destruct (first_fit n (cm s) 0) as [j|] eqn:Hff.
  2: { destruct He as [[? He]|Hl]; [congruence|]. rewrite Hl. wp_cond. wp_run. eauto. }
  apply first_fit_Some in Hff as (_ & Hrun & _). rewrite Nat.sub_0_r in Hrun.
  destruct (set_block_wf (cm s) j n Hwf ltac:(lia) Hrun) as (Hwf' & Hb & Hiff).
  pose proof (block_at_end _ _ _ Hb) as Hend. rewrite set_block_length in Hend.
  destruct (frame_bounds s j n Hs Hend) as [H1 H2]. unfold PAGE_SIZE in H2.
  destruct (Z.eqb_spec (frame s j) 0); [lia|]. wp_run. split; [done|]. right.
  assert (PADDR_TO_KVADDR (frame s j) = MIPS_KSEG0 + frame s j) as ->.
  { unfold PADDR_TO_KVADDR. rewrite u32_small; unfold MIPS_KSEG0; lia. }
  split_and!.
  - unfold MIPS_KSEG0. lia.
  - apply eq_None_not_Some. intros [k (j' & Heq & Hb')%HA].
    assert (j = j') as <- by (apply (frame_inj s); lia).
    apply run_free_true in Hrun as [_ Hfree]. destruct Hb' as (_ & (e & He' & Hu & _) & _).
    specialize (Hfree 0%nat e ltac:(lia)). rewrite lookup_drop, Nat.add_0_r in Hfree.
    rewrite Hfree in Hu by done. lia.
  - destruct Hp as [Hz Hmap]. split_and!; [by apply core_ok_take_block| |done|done|].
    + split; [by apply zeros_ok_write|]. simpl. rewrite set_block_length.
      by apply bytes_at_write_is_Some.
    + intros a k. rewrite lookup_insert. case_decide as Ha.
      * subst a. split.
        -- intros [= <-]. by exists j.
        -- intros (j' & Heq & Hb'). change (frame (take_block s j n) j') with (frame s j') in Heq.
           assert (j = j') as <- by (apply (frame_inj s); lia).
           f_equal. by eapply block_at_fun.
      * rewrite HA. split; intros (j' & -> & Hb'); exists j'; (split; [done|]);
          apply Hiff; try done; intros ->; by apply Ha.
  - intros b Hbb. simpl. rewrite write_at_lookup, length_replicate, decide_False; [done|]. lia.
Qed.

Lemma core_free_ok s A a n o :
  core_owned s A → A !! a = Some n →
  wp (free_kpages a)
    (λ _ s' o', o' = o ∧ core_owned s' (delete a A) ∧ cmach s' = cmach s) s o.
Proof.
  intros (Hs & Hp & Hwf & Hzl & HA) Ha. apply HA in Ha as (j & -> & Hb).
  pose proof (block_at_end _ _ _ Hb) as Hend. destruct (frame_bounds s j n Hs Hend) as [H1 H2].
  unfold free_kpages, PAGE_SIZE in *.
  replace (u32 (MIPS_KSEG0 + frame s j - MIPS_KSEG0)) with (frame s j) by (rewrite u32_small; lia).
  eapply wp_mono; [by apply ungetppages_spec|]. cbn beta. intros _ s' o' (-> & ->).
  destruct (free_block_wf _ _ _ Hwf Hb) as [Hwf' Hiff]. split_and!; [done| |done].
  destruct Hp as [Hz Hmap].
  split_and!; [by apply core_ok_mark|split; [done|simpl; by rewrite mark_range_length]|done|done|].
  - intros a k. rewrite lookup_delete. case_decide as Ha.
    + subst a. split; [done|]. intros (j' & Heq & [Hne _]%Hiff).
      destruct Hne. symmetry. apply (frame_inj s).
      change (frame (with_cm s (mark_range (cm s) j n 0 0)) j') with (frame s j') in Heq. lia.
    + rewrite HA. split; intros (j' & -> & Hb'); exists j'; (split; [done|]).
      * apply Hiff. split; [|done]. intros ->. by apply Ha.
      * by apply Hiff in Hb' as [_ ?].
Qed.

#[export] Instance core_laws : PageLaws core.
Proof.
  split.
  - done.
  - by intros [].
  - done.
  - apply core_owned_block.
  - intros s A a n b k (Hs & _ & _ & _ & HA) (j & -> & Hb)%HA (j' & -> & Hb')%HA Hne.
    assert (j ≠ j') by congruence. destruct Hb as (? & Hb), Hb' as (? & Hb'). unfold frame, PAGE_SIZE.
    destruct (decide (j + n ≤ j' ∨ j' + k ≤ j)%nat) as [|Hov]; [lia|].
    exfalso. apply H. apply (block_at_disjoint (cm s) j n j' k (Nat.max j j')); done || lia.
  - apply core_enough_one.
  - apply core_alloc_ok.
  - apply core_free_ok.
  - apply core_owned_write.
Qed.

End Instance.
