(* ===== verification/Kheap.v ===== *)
(** * The kernel heap, src/kern/lib/kheap.c

    The allocator takes whole pages from a page allocator ([Pages]) and cuts
    them into blocks; the free blocks of a page are linked through their first
    words.  These links are words of the machine's memory, which the blocks
    themselves share, so what the heap relies on is that nobody writes to a
    block that is free.

    A [struct pageref] pointer is an index into the static array [pagerefs];
    the checks of [SLOW] and [SLOWER] are compiled out in the source. *)
From S2P Require Import Prelude Memory Copyinout Pages.

Definition NSIZES : Z := 8.
Definition sizes : list Z := [16; 32; 64; 128; 256; 512; 1024; 2048].
Definition LARGEST_SUBPAGE_SIZE : Z := 2048.
Definition NPAGEREFS : Z := 256.
Definition INUSE_WORDS : Z := 8.
Definition INVALID_OFFSET : Z := 65535.

Record pageref : Type := mkPageref {
  next_samesize : option nat;
  next_all : option nat;
  pageaddr_and_blocktype : Z;
  freelist_offset : Z;
  nfree : Z;
}.
Definition PR_PAGEADDR (pr : pageref) : Z := Z.land (pageaddr_and_blocktype pr) PAGE_FRAME.
Definition PR_BLOCKTYPE (pr : pageref) : Z := Z.land (pageaddr_and_blocktype pr) 4095.
Definition MKPAB (pa blk : Z) : Z := Z.lor (Z.land pa PAGE_FRAME) (Z.land blk 4095).

(** ** Words of memory, most significant byte first *)
Definition word_of (bs : list Z) : Z := foldl (λ acc b, acc * 256 + b) 0 bs.
Definition bytes_of (x : Z) : list Z :=
  [x / 2 ^ 24 mod 256; x / 2 ^ 16 mod 256; x / 2 ^ 8 mod 256; x mod 256].
Definition load_word (a : Z) : K machine Z :=
  r <- mload 4 a;
  bs <- deref r;
  ret (word_of bs).
Definition store_word (a x : Z) : K machine unit :=
  r <- mstore a (bytes_of x);
  deref r.

Lemma bytes_of_length x : length (bytes_of x) = 4%nat.
Proof. done. Qed.
Lemma word_of_bytes_of x : 0 ≤ x < 2 ^ 32 → word_of (bytes_of x) = x.
Proof.
  intros Hx. unfold word_of, bytes_of. simpl.
  change (2 ^ 24) with 16777216. change (2 ^ 16) with 65536. change (2 ^ 8) with 256.
  change (2 ^ 32) with 4294967296 in Hx.
  pose proof (Z.div_mod x 256 ltac:(lia)) as H0.
  pose proof (Z.div_mod (x / 256) 256 ltac:(lia)) as H1.
  pose proof (Z.div_mod (x / 256 / 256) 256 ltac:(lia)) as H2.
  rewrite !Z.div_div in H1, H2 by lia. change (256 * 256) with 65536 in *.
  change (65536 * 256) with 16777216 in *. rewrite Z.div_div in H2 by lia.
  change (65536 * 256) with 16777216 in *.
  rewrite (Z.mod_small (x / 16777216)); [lia|].
  split; [apply Z.div_pos; lia|apply Z.div_lt_upper_bound; lia].
Qed.

(** The word at an address *)
Definition word_at (h : gmap Z Z) (a : Z) : option Z := word_of <$> bytes_at h a 4.
Lemma word_at_write_eq h a x : 0 ≤ x < 2 ^ 32 → word_at (write_at h a (bytes_of x)) a = Some x.
Proof.
  intros Hx. unfold word_at. pose proof (bytes_at_write_eq h a (bytes_of x)) as Heq.
  rewrite bytes_of_length in Heq. rewrite Heq. simpl fmap. by rewrite <- (word_of_bytes_of x) at 2.
Qed.
Lemma word_at_write_ne h b bs a :
  a + 4 ≤ b ∨ b + Z.of_nat (length bs) ≤ a → word_at (write_at h b bs) a = word_at h a.
Proof. intros Hne. unfold word_at. rewrite bytes_at_write_ne; [done|]. intros k Hk. lia. Qed.

Lemma load_word_spec m a x o :
  USERTOP ≤ a → word_at (mem m) a = Some x →
  wp (load_word a) (λ r m' o', r = x ∧ m' = m ∧ o' = o) m o.
Proof.
  intros Ha Hx. unfold word_at in Hx. destruct (bytes_at (mem m) a 4) as [bs|] eqn:Hbs; [|done].
  unfold load_word. wp_step. eapply wp_mono; [eapply mload_spec; [exact Hbs|]|].
  { intros Hu. lia. }
  cbn beta. intros r m' o' (-> & -> & [(-> & _)|(_ & [] & _)]); [|intros Hu; lia].
  wp_run. simplify_eq/=. done.
Qed.
Lemma store_word_spec m a x o :
  USERTOP ≤ a → is_Some (bytes_at (mem m) a 4) →
  wp (store_word a x) (λ _ m' o', m' = with_mem m (write_at (mem m) a (bytes_of x)) ∧ o' = o) m o.
Proof.
  intros Ha [old Hold]. unfold store_word. wp_step.
  eapply wp_mono; [eapply mstore_spec; [exact Hold|]|].
  { intros Hu. lia. }
  cbn beta. intros r m' o' (-> & [(-> & -> & _)|(_ & _ & [] & _)]); [by wp_run|intros Hu; lia].
Qed.

Section Kheap.
  Context {P : Type} `{!PageAllocator P}.

(** The static variables of the file, and the page allocator. *)
Record kheap : Type := mkKheap {
  kpages : P;
  pagerefs : list pageref;
  pagerefs_inuse : list Z;
  sizebases : list (option nat);
  allbase : option nat;
}.

Definition on_pages {A} (m : K P A) : K kheap A :=
  zoom kpages (λ p h, mkKheap p (pagerefs h) (pagerefs_inuse h) (sizebases h) (allbase h)) m.
Definition on_mem {A} (m : K machine A) : K kheap A := on_pages (zoom pa_machine pa_put m).
Definition get_pr (j : nat) : K kheap pageref := h <- kget; deref (pagerefs h !! j).
Definition set_pr (j : nat) (pr : pageref) : K kheap unit :=
  _ <- get_pr j;
  modify (λ h, mkKheap (kpages h) (<[j := pr]> (pagerefs h)) (pagerefs_inuse h) (sizebases h) (allbase h)).
Definition set_inuse (i w : Z) : K kheap unit :=
  h <- kget;
  ws <- deref (zinsert i w (pagerefs_inuse h));
  kput (mkKheap (kpages h) (pagerefs h) ws (sizebases h) (allbase h)).
Definition get_base (t : Z) : K kheap (option nat) := h <- kget; deref (zlookup (sizebases h) t).
Definition set_base (t : Z) (p : option nat) : K kheap unit :=
  h <- kget;
  bs <- deref (zinsert t p (sizebases h));
  kput (mkKheap (kpages h) (pagerefs h) (pagerefs_inuse h) bs (allbase h)).
Definition set_allbase (p : option nat) : K kheap unit :=
  modify (λ h, mkKheap (kpages h) (pagerefs h) (pagerefs_inuse h) (sizebases h) p).

(** ** Page references *)

(** [for (k=1,j=0; k!=0; k<<=1,j++)]: the first clear bit *)
Fixpoint clear_bit (n : nat) (j w : Z) : option Z :=
  match n with
  | O => None
  | Datatypes.S n' =>
      if Z.land w (Z.shiftl 1 j) =? 0 then Some j else clear_bit n' (j + 1) w
  end.
Fixpoint alloc_word (n : nat) (i : Z) : K kheap (option nat) :=
  match n with
  | O => ret None
  | Datatypes.S n' =>
      h <- kget;
      w <- deref (zlookup (pagerefs_inuse h) i);
      if w =? 0xffffffff then alloc_word n' (i + 1)
      else
        match clear_bit 32 0 w with
        | Some j =>
            _ <- set_inuse i (Z.lor w (Z.shiftl 1 j));
            ret (Some (Z.to_nat (i * 32 + j)))
        | None => panic
        end
  end.
Definition allocpageref : K kheap (option nat) := alloc_word (Z.to_nat INUSE_WORDS) 0.

Definition freepageref (p : nat) : K kheap unit :=
  let j := Z.of_nat p in
  _ <- kassert (j <? NPAGEREFS);
  let i := j / 32 in
  let k := Z.shiftl 1 (j mod 32) in
  h <- kget;
  w <- deref (zlookup (pagerefs_inuse h) i);
  _ <- kassert (negb (Z.land w k =? 0));
  set_inuse i (Z.land w (u32 (Z.lnot k))).

(** The loops over [guy], a pointer to a pointer: it points to the base of the
    list or to the [next] field of a page reference. *)
Definition read_guy (base : K kheap (option nat)) (next : pageref → option nat)
    (guy : option nat) : K kheap (option nat) :=
  match guy with None => base | Some q => pr <- get_pr q; ret (next pr) end.
Fixpoint unlink (fuel : nat) (base : K kheap (option nat)) (next : pageref → option nat)
    (write : option nat → option nat → K kheap unit) (pr : nat) (guy : option nat) : K kheap unit :=
  cur <- read_guy base next guy;
  match cur with
  | None => ret tt
  | Some q =>
      if bool_decide (q = pr) then
        r <- get_pr pr;
        write guy (next r)
      else
        match fuel with
        | O => halt Spin
        | Datatypes.S fuel' => unlink fuel' base next write pr (Some q)
        end
  end.
Definition write_samesize (blktype : Z) (guy p : option nat) : K kheap unit :=
  match guy with
  | None => set_base blktype p
  | Some q => r <- get_pr q;
      set_pr q (mkPageref p (next_all r) (pageaddr_and_blocktype r) (freelist_offset r) (nfree r))
  end.
Definition write_all (guy p : option nat) : K kheap unit :=
  match guy with
  | None => set_allbase p
  | Some q => r <- get_pr q;
      set_pr q (mkPageref (next_samesize r) p (pageaddr_and_blocktype r) (freelist_offset r) (nfree r))
  end.
Definition remove_lists (pr : nat) (blktype : Z) : K kheap unit :=
  _ <- kassert ((0 <=? blktype) && (blktype <? NSIZES));
  _ <- unlink (Z.to_nat NPAGEREFS) (get_base blktype) next_samesize (write_samesize blktype) pr None;
  unlink (Z.to_nat NPAGEREFS) (gets allbase) next_all write_all pr None.

(** ** Blocks *)
Fixpoint blocktype_from (szs : list Z) (i sz : Z) : K kheap Z :=
  match szs with
  | [] => panic
  | s :: szs' => if sz <=? s then ret i else blocktype_from szs' (i + 1) sz
  end.
Definition blocktype (sz : Z) : K kheap Z := blocktype_from sizes 0 sz.

(** from the label [doalloc] on *)
Definition doalloc (p : nat) : K kheap Z :=
  pr <- get_pr p;
  _ <- kassert (freelist_offset pr <? PAGE_SIZE);
  let prpage := PR_PAGEADDR pr in
  let retptr := u32 (prpage + freelist_offset pr) in
  fl <- on_mem (load_word retptr);
  let nfree' := u16 (nfree pr - 1) in
  if negb (fl =? 0) then
    _ <- kassert (0 <? nfree');
    _ <- kassert (u32 (fl - prpage) <? PAGE_SIZE);
    _ <- set_pr p (mkPageref (next_samesize pr) (next_all pr) (pageaddr_and_blocktype pr)
                     (u16 (fl - prpage)) nfree');
    ret retptr
  else
    _ <- kassert (nfree' =? 0);
    _ <- set_pr p (mkPageref (next_samesize pr) (next_all pr) (pageaddr_and_blocktype pr)
                     INVALID_OFFSET nfree');
    ret retptr.

(** the search for a page with a free block *)
Fixpoint find_page (fuel : nat) (blktype : Z) (p : option nat) : K kheap (option nat) :=
  match p with
  | None => ret None
  | Some j =>
      pr <- get_pr j;
      _ <- kassert (PR_BLOCKTYPE pr =? blktype);
      if 0 <? nfree pr then ret (Some j)
      else
        match fuel with
        | O => halt Spin
        | Datatypes.S fuel' => find_page fuel' blktype (next_samesize pr)
        end
  end.

(** [for (i=1; i<pr->nfree; i++) { fl = fla + i*size; fl->next = fla + (i-1)*size; }] *)
Definition link_block (fla sz i : Z) : K kheap unit :=
  let fl := u32 (fla + i * sz) in
  let nx := u32 (fla + (i - 1) * sz) in
  _ <- on_mem (store_word fl nx);
  kassert (negb (fl =? nx)).

(** a fresh page: its blocks are linked from the last to the first, and its
    page reference joins both lists *)
Definition init_page (p : nat) (prpage blktype sz : Z) : K kheap unit :=
  let n := PAGE_SIZE / sz in
  let fla := prpage in
  _ <- on_mem (store_word fla 0);
  _ <- kfor (Z.to_nat (n - 1)) 1 (link_block fla sz);
  let fl := u32 (fla + (n - 1) * sz) in
  let offset := u16 (fl - prpage) in
  _ <- kassert (offset =? (n - 1) * sz);
  base <- get_base blktype;
  h <- kget;
  _ <- set_pr p (mkPageref base (allbase h) (MKPAB prpage blktype) offset (u16 n));
  _ <- set_base blktype (Some p);
  set_allbase (Some p).

Definition subpage_kmalloc (sz : Z) : K kheap Z :=
  blktype <- blocktype sz;
  sz <- deref (zlookup sizes blktype);
  base <- get_base blktype;
  found <- find_page (Z.to_nat NPAGEREFS) blktype base;
  match found with
  | Some p => doalloc p
  | None =>
      pr <- allocpageref;
      match pr with
      | None => ret 0
      | Some p =>
          prpage <- on_pages (pa_alloc 1);
          if prpage =? 0 then
            _ <- freepageref p;
            ret 0
          else
            _ <- init_page p prpage blktype sz;
            doalloc p
      end
  end.

(** the search for the page of a pointer: the page reference, its page and
    block type *)
Fixpoint find_owner (fuel : nat) (ptraddr : Z) (p : option nat) : K kheap (option (nat * Z * Z)) :=
  match p with
  | None => ret None
  | Some j =>
      pr <- get_pr j;
      let prpage := PR_PAGEADDR pr in
      let blktype := PR_BLOCKTYPE pr in
      _ <- kassert ((0 <=? blktype) && (blktype <? NSIZES));
      if (prpage <=? ptraddr) && (ptraddr <? u32 (prpage + PAGE_SIZE)) then ret (Some (j, prpage, blktype))
      else
        match fuel with
        | O => halt Spin
        | Datatypes.S fuel' => find_owner fuel' ptraddr (next_all pr)
        end
  end.

Definition fill_deadbeef (vptr len : Z) : K kheap unit :=
  kfor (Z.to_nat (len / 4)) 0 (λ i, on_mem (store_word (u32 (vptr + i * 4)) 0xdeadbeef)).

Definition subpage_kfree (ptr : Z) : K kheap Z :=
  base <- gets allbase;
  owner <- find_owner (Z.to_nat NPAGEREFS) ptr base;
  match owner with
  | None => ret (-1)
  | Some (p, prpage, blktype) =>
      let offset := u32 (ptr - prpage) in
      sz <- deref (zlookup sizes blktype);
      if (PAGE_SIZE <=? offset) || negb (offset mod sz =? 0) then panic
      else
        _ <- fill_deadbeef ptr sz;
        pr <- get_pr p;
        let fla := u32 (prpage + offset) in
        _ <- on_mem (store_word fla (if freelist_offset pr =? INVALID_OFFSET then 0
                                     else u32 (prpage + freelist_offset pr)));
        let n := u16 (nfree pr + 1) in
        _ <- set_pr p (mkPageref (next_samesize pr) (next_all pr) (pageaddr_and_blocktype pr)
                         (u16 offset) n);
        _ <- kassert (n <=? PAGE_SIZE / sz);
        _ <- (if n =? PAGE_SIZE / sz then
                _ <- remove_lists p blktype;
                _ <- on_pages (pa_free prpage);
                freepageref p
              else ret tt);
        ret 0
  end.

Definition kmalloc (sz : Z) : K kheap Z :=
  if LARGEST_SUBPAGE_SIZE <=? sz then
    let npages := u32 (u32 (sz + PAGE_SIZE) - 1) / PAGE_SIZE in
    on_pages (pa_alloc npages)
  else subpage_kmalloc sz.

Definition kfree (ptr : Z) : K kheap unit :=
  if ptr =? 0 then ret tt
  else
    r <- subpage_kfree ptr;
    if negb (r =? 0) then
      _ <- kassert (ptr mod PAGE_SIZE =? 0);
      on_pages (pa_free ptr)
    else ret tt.

End Kheap.
