(* ===== verification/KheapSpec.v ===== *)
(** * Correctness of the kernel heap

    The invariant of src/kern/lib/kheap.c and the contract of [kmalloc] and
    [kfree], for any page allocator that keeps the laws of [Pages]. *)
From S2P Require Import Prelude Memory Copyinout Pages Coremap Kheap.

(** ** Bits *)
Lemma land_bit w j : 0 ≤ j → (Z.land w (Z.shiftl 1 j) =? 0) = negb (Z.testbit w j).
Proof.
  intros Hj. rewrite Z.shiftl_1_l. destruct (Z.testbit w j) eqn:Hb; simpl.
  - apply Z.eqb_neq. intros H0. assert (Z.testbit (Z.land w (2 ^ j)) j = true) as Ht.
    { by rewrite Z.land_spec, Hb, Z.pow2_bits_true. }
    by rewrite H0, Z.testbit_0_l in Ht.
  - apply Z.eqb_eq. apply Z.bits_inj'. intros k Hk. rewrite Z.land_spec, Z.testbit_0_l.
    rewrite Z.pow2_bits_eqb by done. destruct (Z.eqb_spec j k) as [->|]; [by rewrite Hb|].
    by rewrite andb_false_r.
Qed.
Lemma testbit_set w j k : 0 ≤ j → Z.testbit (Z.lor w (Z.shiftl 1 j)) k = Z.testbit w k || (j =? k).
Proof. intros Hj. by rewrite Z.lor_spec, Z.shiftl_1_l, Z.pow2_bits_eqb. Qed.
Lemma testbit_clear w j k :
  0 ≤ j < 32 → 0 ≤ k < 32 →
  Z.testbit (Z.land w (u32 (Z.lnot (Z.shiftl 1 j)))) k = Z.testbit w k && negb (j =? k).
Proof.
  intros Hj Hk. unfold u32. rewrite Z.land_spec, Z.mod_pow2_bits_low by lia.
  by rewrite Z.lnot_spec, Z.shiftl_1_l, Z.pow2_bits_eqb by lia.
Qed.
Lemma word_range w : 0 ≤ w < 2 ^ 32 ↔ 0 ≤ w ∧ ∀ k, 32 ≤ k → Z.testbit w k = false.
Proof.
  split.
  - intros [H0 Hw]. split; [done|]. intros k Hk. destruct (decide (w = 0)) as [->|].
    + apply Z.testbit_0_l.
    + apply Z.bits_above_log2; [done|]. assert (Z.log2 w < 32) by (apply Z.log2_lt_pow2; lia). lia.
  - intros [H0 Hb]. split; [done|]. destruct (decide (w = 0)) as [->|]; [lia|].
    apply Z.log2_lt_pow2; [lia|]. apply Z.nle_gt. intros Hle.
    specialize (Hb (Z.log2 w) Hle). rewrite Z.bit_log2 in Hb by lia. done.
Qed.
Lemma full_word w : 0 ≤ w < 2 ^ 32 → (∀ k, 0 ≤ k < 32 → Z.testbit w k = true) → w = 0xffffffff.
Proof.
  intros Hw Hall. apply word_range in Hw as [H0 Hhi].
  apply Z.bits_inj'. intros k Hk. destruct (decide (k < 32)).
  - rewrite Hall by lia. change 0xffffffff with (Z.ones 32). by rewrite Z.ones_spec_low by lia.
  - rewrite Hhi by lia. change 0xffffffff with (Z.ones 32). by rewrite Z.ones_spec_high by lia.
Qed.
Lemma clear_bit_spec n j w :
  0 ≤ j →
  match clear_bit n j w with
  | Some k => j ≤ k < j + Z.of_nat n ∧ Z.testbit w k = false
  | None => ∀ k, j ≤ k < j + Z.of_nat n → Z.testbit w k = true
  end.
Proof.
  revert j. induction n as [|n IH]; intros j Hj; simpl; [lia|].
  rewrite land_bit by done. destruct (Z.testbit w j) eqn:Hb; simpl; [|split; [lia|done]].
  specialize (IH (j + 1) ltac:(lia)). destruct (clear_bit n (j + 1) w).
  - split; [lia|]. naive_solver.
  - intros k Hk. destruct (decide (k = j)) as [->|]; [done|]. apply IH. lia.
Qed.

(** ** Page addresses with a block type in their low bits *)
Lemma pab_split pa t :
  0 ≤ pa → pa + PAGE_SIZE ≤ 2 ^ 32 → pa mod PAGE_SIZE = 0 → 0 ≤ t < PAGE_SIZE →
  Z.land (pa + t) PAGE_FRAME = pa ∧ Z.land (pa + t) 4095 = t ∧ MKPAB pa t = pa + t.
Proof.
  intros H0 Hpa Hal Ht. unfold MKPAB. pose proof Hal as Hal'. unfold PAGE_SIZE in Hpa, Ht, Hal'.
  assert ((pa + t) mod PAGE_SIZE = t) as Hm.
  { unfold PAGE_SIZE. rewrite Z.add_mod, Hal' by lia. rewrite Z.add_0_l, Z.mod_mod by lia.
    by apply Z.mod_small. }
  rewrite !land_page_frame, !land_page_offset, Hm, Hal by lia.
  rewrite (Z.mod_small t) by (unfold PAGE_SIZE; lia). split_and!; [lia|done|].
  rewrite lor_page; unfold PAGE_SIZE; [lia|lia|]. by rewrite Z.sub_0_r.
Qed.

(** ** Lists of page references

    [pl_chain f prs p js]: following the field [f] from [p] visits [js]. *)
Section Chains.
  Implicit Types (prs : list pageref) (js : list nat) (f : pageref → option nat).

Fixpoint pl_chain f prs (p : option nat) js : Prop :=
  match js with
  | [] => p = None
  | j :: js' => p = Some j ∧ ∃ pr, prs !! j = Some pr ∧ pl_chain f prs (f pr) js'
  end.

Lemma pl_chain_ext f prs prs' p js :
  (∀ j pr, j ∈ js → prs !! j = Some pr → ∃ pr', prs' !! j = Some pr' ∧ f pr' = f pr) →
  pl_chain f prs p js → pl_chain f prs' p js.
Proof.
  revert p. induction js as [|j js IH]; intros p Hext; simpl; [done|].
  intros (-> & pr & Hj & Hc). split; [done|].
  destruct (Hext j pr ltac:(set_solver) Hj) as (pr' & Hj' & Hf). exists pr'. split; [done|].
  rewrite Hf. apply IH; [|done]. intros k pr0 Hk. apply Hext. set_solver.
Qed.
Lemma pl_chain_insert f prs p js j pr :
  j ∉ js → pl_chain f prs p js → pl_chain f (<[j := pr]> prs) p js.
Proof.
  intros Hj. apply pl_chain_ext. intros k pr0 Hk Hlk. exists pr0.
  rewrite list_lookup_insert_ne; [done|set_solver].
Qed.
Lemma pl_chain_update f prs p js j pr pr' :
  prs !! j = Some pr → f pr' = f pr → pl_chain f prs p js → pl_chain f (<[j := pr']> prs) p js.
Proof.
  intros Hj Hf. apply pl_chain_ext. intros k pr0 Hk Hlk.
  destruct (decide (k = j)) as [->|].
  - exists pr'. rewrite list_lookup_insert_eq by (by eapply lookup_lt_Some). by simplify_eq.
  - exists pr0. by rewrite list_lookup_insert_ne.
Qed.
Lemma pl_chain_lookup f prs p js j :
  pl_chain f prs p js → j ∈ js → is_Some (prs !! j).
Proof.
  revert p. induction js as [|k js IH]; intros p; simpl; [set_solver|].
  intros (_ & pr & Hk & Hc) [->|Hj]%elem_of_cons; [by eexists|]. by eapply IH.
Qed.
(** Taking [j] out of the middle of a list. *)
Lemma pl_chain_remove f prs p js1 q j js2 pq pj pq' :
  NoDup (js1 ++ q :: j :: js2) → pl_chain f prs p (js1 ++ q :: j :: js2) →
  prs !! q = Some pq → prs !! j = Some pj → f pq' = f pj →
  pl_chain f (<[q := pq']> prs) p (js1 ++ q :: js2).
Proof.
  revert p. induction js1 as [|k js1 IH]; intros p Hnd Hc Hq Hj Hf; simpl in *.
  - destruct Hc as (-> & pr & Hq' & _ & pr2 & Hj' & Hc). simplify_eq.
    split; [done|]. exists pq'. rewrite list_lookup_insert_eq by (by eapply lookup_lt_Some).
    split; [done|]. rewrite Hf. apply pl_chain_insert; [|done].
    apply NoDup_cons in Hnd as [Hn _]. set_solver.
  - destruct Hc as (-> & pr & Hk & Hc). apply NoDup_cons in Hnd as [Hn Hnd]. split; [done|].
    exists pr. rewrite list_lookup_insert_ne by set_solver. split; [done|]. by apply IH.
Qed.

End Chains.

Section Heap.
  Context {P : Type} `{!PageAllocator P, !PageLaws P}.
  Implicit Types (h : kheap (P := P)).

Definition with_prs h prs : kheap :=
  mkKheap (kpages h) prs (pagerefs_inuse h) (sizebases h) (allbase h).
Definition with_pages h (p : P) : kheap :=
  mkKheap p (pagerefs h) (pagerefs_inuse h) (sizebases h) (allbase h).
Definition kmem h : gmap Z Z := mem (pa_machine (kpages h)).
Definition with_kmem h (g : gmap Z Z) : kheap :=
  with_pages h (pa_put (with_mem (pa_machine (kpages h)) g) (kpages h)).

Lemma wp_get_pr h j pr o : 
  pagerefs h !! j = Some pr → wp (get_pr j) (λ r h' o', r = pr ∧ h' = h ∧ o' = o) h o.
Proof. intros Hj. unfold get_pr. wp_run. apply wp_deref. eauto. Qed.
Lemma wp_set_pr h j pr pr' o :
  pagerefs h !! j = Some pr →
  wp (set_pr j pr') (λ _ h' o', h' = with_prs h (<[j := pr']> (pagerefs h)) ∧ o' = o) h o.
Proof.
  intros Hj. unfold set_pr. wp_step. eapply wp_mono; [by apply wp_get_pr|]. cbn beta.
  intros _ h' o' (_ & -> & ->). by wp_run.
Qed.
Lemma wp_on_mem {A} (m : K machine A) Q h o :
  wp m (λ a m' o', Q a (with_pages h (pa_put m' (kpages h))) o') (pa_machine (kpages h)) o →
  wp (on_mem m) Q h o.
Proof. intros Hm. unfold on_mem, on_pages. by wp_run. Qed.
Lemma kmem_with_kmem h g : kmem (with_kmem h g) = g.
Proof. unfold kmem, with_kmem. simpl. by rewrite pa_machine_put. Qed.
Lemma with_pages_id h : with_pages h (kpages h) = h.
Proof. by destruct h. Qed.

Lemma wp_load h a x o :
  USERTOP ≤ a → word_at (kmem h) a = Some x →
  wp (on_mem (load_word a)) (λ r h' o', r = x ∧ h' = h ∧ o' = o) h o.
Proof.
  intros Ha Hx. apply wp_on_mem. eapply wp_mono; [by apply load_word_spec|]. cbn beta.
  intros r m' o' (-> & -> & ->). by rewrite pa_put_machine, with_pages_id.
Qed.
Lemma wp_store h a x o :
  USERTOP ≤ a → is_Some (bytes_at (kmem h) a 4) →
  wp (on_mem (store_word a x))
    (λ _ h' o', h' = with_kmem h (write_at (kmem h) a (bytes_of x)) ∧ o' = o) h o.
Proof.
  intros Ha Hx. apply wp_on_mem. eapply wp_mono; [by apply store_word_spec|]. cbn beta.
  intros r m' o' (-> & ->). done.
Qed.

(** *** Unlinking *)
Lemma unlink_eq f base write pr r js2 fuel h o js1 guy cur :
  read_guy base f guy h o = Done (cur, h, o) →
  pl_chain f (pagerefs h) cur (js1 ++ pr :: js2) → pr ∉ js1 → (length js1 ≤ fuel)%nat →
  pagerefs h !! pr = Some r →
  unlink fuel base f write pr guy h o =
  write (match last js1 with Some q => Some q | None => guy end) (f r) h o.
Proof.
  intros Hg Hc Hn Hf Hr. revert fuel guy cur Hg Hc Hn Hf.
  induction js1 as [|k js1 IH]; intros fuel guy cur Hg Hc Hn Hf; simpl in *.
  - destruct Hc as (-> & _). destruct fuel; simpl; unfold bind at 1; rewrite Hg;
      rewrite bool_decide_eq_true_2 by done; unfold bind, get_pr, bind, kget; by rewrite Hr.
  - destruct Hc as (-> & pk & Hk & Hc). destruct fuel as [|fuel]; [lia|]. simpl.
    unfold bind at 1. rewrite Hg. rewrite bool_decide_eq_false_2 by set_solver.
    rewrite (IH fuel (Some k) (f pk)); [|by unfold read_guy, get_pr, bind, kget; rewrite Hk|done|set_solver|lia].
    destruct js1 as [|k' js1]; [done|]. simpl. rewrite last_cons.
    by destruct (last js1).
Qed.

(** ** The invariant

    What the heap knows of a page: where it is, its block type, and the
    offsets of its free blocks in the order of the free list. *)
Record pinfo : Type := mkPinfo { pi_addr : Z; pi_type : nat; pi_free : list Z }.

Definition size_of (t : nat) : Z := default 0 (sizes !! t).
Definition blocks (t : nat) : Z := PAGE_SIZE / size_of t.

(** The words of the free blocks *)
Fixpoint fl_chain (g : gmap Z Z) (pa : Z) (fl : list Z) : Prop :=
  match fl with
  | [] => True
  | o :: fl' =>
      word_at g (pa + o) = Some (match fl' with [] => 0 | o' :: _ => pa + o' end) ∧
      fl_chain g pa fl'
  end.
Definition block_offset (t : nat) (o : Z) : Prop := 0 ≤ o < PAGE_SIZE ∧ o mod size_of t = 0.
Definition page_ok (g : gmap Z Z) (pr : pageref) (i : pinfo) : Prop :=
  (pi_type i < 8)%nat ∧ pageaddr_and_blocktype pr = pi_addr i + Z.of_nat (pi_type i) ∧
  nfree pr = Z.of_nat (length (pi_free i)) ∧
  freelist_offset pr = default INVALID_OFFSET (head (pi_free i)) ∧
  NoDup (pi_free i) ∧ Forall (block_offset (pi_type i)) (pi_free i) ∧
  fl_chain g (pi_addr i) (pi_free i).

Definition of_type (I : gmap nat pinfo) (t : nat) (j : nat) : Prop :=
  pi_type <$> I !! j = Some t.
#[local] Instance of_type_dec I t j : Decision (of_type I t j).
Proof. unfold of_type. solve_decision. Defined.

Definition inuse_bit (ws : list Z) (j : nat) : bool :=
  Z.testbit (default 0 (ws !! (j / 32)%nat)) (Z.of_nat (j mod 32)).

(** The page references, without the pages. *)
Record refs_ok (h : kheap (P := P)) (js : list nat) (I : gmap nat pinfo) : Prop := {
  ro_prs : length (pagerefs h) = 256%nat;
  ro_inuse : length (pagerefs_inuse h) = 8%nat;
  ro_words : Forall (λ w, 0 ≤ w < 2 ^ 32) (pagerefs_inuse h);
  ro_bases : length (sizebases h) = 8%nat;
  ro_nodup : NoDup js;
  ro_dom : ∀ j, j ∈ js ↔ is_Some (I !! j);
  ro_lt : ∀ j, j ∈ js → (j < 256)%nat;
  ro_bits : ∀ j, (j < 256)%nat → inuse_bit (pagerefs_inuse h) j = true ↔ j ∈ js;
  ro_all : pl_chain next_all (pagerefs h) (allbase h) js;
  ro_size : ∀ t, (t < 8)%nat → ∃ base, sizebases h !! t = Some base ∧
              pl_chain next_samesize (pagerefs h) base (filter (of_type I t) js);
}.

(** A page of the heap belongs to it and is not the page of another reference;
    between operations it is not full of free blocks. *)
Record pages_ok (h : kheap (P := P)) (A : gmap Z nat) (I : gmap nat pinfo) : Prop := {
  po_owned : pa_owned (kpages h) A;
  po_page : ∀ j i, I !! j = Some i → ∃ pr, pagerefs h !! j = Some pr ∧ page_ok (kmem h) pr i;
  po_block : ∀ j i, I !! j = Some i →
    A !! pi_addr i = Some 1%nat ∧ Z.of_nat (length (pi_free i)) ≤ blocks (pi_type i);
  po_inj : ∀ j j' i i', I !! j = Some i → I !! j' = Some i' → pi_addr i = pi_addr i' → j = j';
}.

Definition not_full (I : gmap nat pinfo) : Prop :=
  ∀ j i, I !! j = Some i → Z.of_nat (length (pi_free i)) < blocks (pi_type i).

(** *** Sizes *)
Lemma size_of_cases t : (t < 8)%nat → ∃ k, 4 ≤ k ≤ 11 ∧ size_of t = 2 ^ k ∧ blocks t = 2 ^ (12 - k) ∧
  size_of t * blocks t = PAGE_SIZE ∧ 16 ≤ size_of t ≤ 2048 ∧ 2 ≤ blocks t ≤ 256.
Proof.
  intros Ht. destruct t as [|[|[|[|[|[|[|[|t]]]]]]]]; [..|lia].
  - exists 4. split_and!; done.
  - exists 5. split_and!; done.
  - exists 6. split_and!; done.
  - exists 7. split_and!; done.
  - exists 8. split_and!; done.
  - exists 9. split_and!; done.
  - exists 10. split_and!; done.
  - exists 11. split_and!; done.
Qed.
Lemma size_of_lookup t : (t < 8)%nat → zlookup sizes (Z.of_nat t) = Some (size_of t).
Proof.
  intros Ht. rewrite zlookup_nat. unfold size_of.
  destruct (lookup_lt_is_Some_2 sizes t) as [x Hx]; [simpl; lia|]. by rewrite Hx.
Qed.
(** Distinct blocks of a page do not overlap, and none leaves the page. *)
Lemma block_offset_disjoint t o o' :
  (t < 8)%nat → block_offset t o → block_offset t o' → o ≠ o' →
  o + size_of t ≤ o' ∨ o' + size_of t ≤ o.
Proof.
  intros Ht [Ho Hm] [Ho' Hm'] Hne. destruct (size_of_cases t Ht) as (k & _ & _ & _ & _ & Hs & _).
  apply Z.mod_divide in Hm as [q ->]; [|lia]. apply Z.mod_divide in Hm' as [q' ->]; [|lia].
  destruct (Z.lt_trichotomy q q') as [|[->|]]; [left; nia|done|right; nia].
Qed.
Lemma block_offset_end t o : (t < 8)%nat → block_offset t o → o + size_of t ≤ PAGE_SIZE.
Proof.
  intros Ht [Ho Hm]. destruct (size_of_cases t Ht) as (k & _ & _ & _ & Hsb & Hs & _).
  apply Z.mod_divide in Hm as [q ->]; [|lia]. assert (q < blocks t) by nia. nia.
Qed.

(** *** The free list in memory *)
Lemma fl_chain_ext g g' pa fl :
  (∀ o, o ∈ fl → word_at g' (pa + o) = word_at g (pa + o)) → fl_chain g pa fl → fl_chain g' pa fl.
Proof.
  induction fl as [|o fl IH]; intros Hext; simpl; [done|]. intros [Ho Hc]. split.
  - rewrite Hext by set_solver. done.
  - apply IH; [|done]. intros o' Ho'. apply Hext. set_solver.
Qed.
(** A write to a block that is not free leaves it alone. *)
Lemma fl_chain_write g pa t fl o b bs :
  (t < 8)%nat → Forall (block_offset t) fl → block_offset t o → o ∉ fl →
  pa + o ≤ b → b + Z.of_nat (length bs) ≤ pa + o + size_of t →
  fl_chain g pa fl → fl_chain (write_at g b bs) pa fl.
Proof.
  intros Ht Hfl Ho Hn Hb Hbl. apply fl_chain_ext. intros o' Ho'.
  apply word_at_write_ne. rewrite Forall_forall in Hfl.
  destruct (size_of_cases t Ht) as (k & _ & _ & _ & _ & Hs & _).
  destruct (block_offset_disjoint t o o' Ht Ho (Hfl o' Ho')); [|lia..]. set_solver.
Qed.
Lemma fl_chain_outside g pa t fl b bs :
  (t < 8)%nat → Forall (block_offset t) fl →
  b + Z.of_nat (length bs) ≤ pa ∨ pa + PAGE_SIZE ≤ b →
  fl_chain g pa fl → fl_chain (write_at g b bs) pa fl.
Proof.
  intros Ht Hfl Hout. apply fl_chain_ext. intros o' Ho'. rewrite Forall_forall in Hfl.
  pose proof (block_offset_end t o' Ht (Hfl o' Ho')). destruct (Hfl o' Ho') as [? _].
  destruct (size_of_cases t Ht) as (k & _ & _ & _ & _ & Hs & _).
  apply word_at_write_ne. lia.
Qed.

(** *** Page references in use *)
Definition with_inuse h ws : kheap :=
  mkKheap (kpages h) (pagerefs h) ws (sizebases h) (allbase h).
Definition words_ok (ws : list Z) : Prop :=
  length ws = 8%nat ∧ Forall (λ w, 0 ≤ w < 2 ^ 32) ws.

Lemma wp_set_inuse h i w o :
  (i < length (pagerefs_inuse h))%nat →
  wp (set_inuse (Z.of_nat i) w)
    (λ _ h' o', h' = with_inuse h (<[i := w]> (pagerefs_inuse h)) ∧ o' = o) h o.
Proof.
  intros Hi. unfold set_inuse. wp_run. rewrite zinsert_ok, Nat2Z.id by lia. by wp_run.
Qed.
Lemma words_ok_insert ws i w : words_ok ws → 0 ≤ w < 2 ^ 32 → words_ok (<[i := w]> ws).
Proof.
  intros [Hl Hf] Hw. split; [by rewrite length_insert|]. by apply Forall_insert.
Qed.
Lemma inuse_bit_insert ws i w k :
  (i < length ws)%nat →
  inuse_bit (<[i := w]> ws) k =
  if decide (k / 32 = i)%nat then Z.testbit w (Z.of_nat (k mod 32)) else inuse_bit ws k.
Proof.
  intros Hi. unfold inuse_bit. case_decide as Hk.
  - rewrite Hk, list_lookup_insert_eq by done. done.
  - by rewrite list_lookup_insert_ne.
Qed.
Lemma bit_index j : Z.of_nat j = Z.of_nat (j / 32) * 32 + Z.of_nat (j mod 32).
Proof. pose proof (Nat.div_mod_eq j 32). lia. Qed.
Lemma bit_index_inj (i k j : nat) (b : Z) :
  0 ≤ b < 32 → j = Z.to_nat (Z.of_nat i * 32 + b) → (k / 32)%nat = i →
  (b =? Z.of_nat (k mod 32)) = bool_decide (k = j).
Proof.
  intros Hb -> Hi. pose proof (bit_index k) as Hk. rewrite Hi in Hk.
  destruct (Z.eqb_spec b (Z.of_nat (k mod 32))) as [Heq|Hne]; symmetry.
  - apply bool_decide_eq_true_2. lia.
  - apply bool_decide_eq_false_2. lia.
Qed.
Lemma index_div (i : nat) b : 0 ≤ b < 32 → (Z.to_nat (Z.of_nat i * 32 + b) / 32)%nat = i.
Proof. intros Hb. symmetry. apply (Nat.div_unique _ _ _ (Z.to_nat b)); lia. Qed.

Lemma alloc_word_spec n i h o :
  words_ok (pagerefs_inuse h) → (i + n = 8)%nat →
  wp (alloc_word n (Z.of_nat i)) (λ r h' o', o' = o ∧
    match r with
    | None => h' = h
    | Some j => (j < 256)%nat ∧ inuse_bit (pagerefs_inuse h) j = false ∧
        ∃ ws, h' = with_inuse h ws ∧ words_ok ws ∧
          ∀ k, inuse_bit ws k = inuse_bit (pagerefs_inuse h) k || bool_decide (k = j)
    end) h o.
Proof.
  intros Hws. revert i. induction n as [|n IH]; intros i Hi; cbn [alloc_word]; [by wp_run|].
  pose proof Hws as [Hlen Hall]. destruct (lookup_lt_is_Some_2 (pagerefs_inuse h) i ltac:(lia)) as [w Hw].
  wp_run. rewrite zlookup_nat, Hw. wp_run.
  destruct (Z.eqb_spec w 0xffffffff) as [->|Hne].
  { replace (Z.of_nat i + 1) with (Z.of_nat (S i)) by lia. apply IH. lia. }
  rewrite Forall_lookup in Hall. pose proof (Hall i w Hw) as Hwr.
  pose proof (clear_bit_spec 32 0 w ltac:(lia)) as Hcb.
  destruct (clear_bit 32 0 w) as [b|] eqn:Hc; [|by destruct Hne; apply full_word].
  destruct Hcb as [Hb Hbit]. change (0 + Z.of_nat 32) with 32 in Hb. wp_step.
  eapply wp_mono; [apply wp_set_inuse; lia|]. cbn beta. intros _ h' o' (-> & ->). wp_run.
  split; [done|]. pose proof (index_div i b Hb) as Hdiv. split_and!.
  - lia.
  - unfold inuse_bit. rewrite Hdiv, Hw. cbn [from_option id].
    assert (Z.of_nat (Z.to_nat (Z.of_nat i * 32 + b) mod 32) = b) as ->; [|done].
    pose proof (bit_index (Z.to_nat (Z.of_nat i * 32 + b))) as Hbi. rewrite Hdiv in Hbi. lia.
  - eexists. split_and!; [done| |].
    + apply words_ok_insert; [done|]. apply word_range. apply word_range in Hwr as [Hw0 Hwh].
      split; [apply Z.lor_nonneg; split; [done|by apply Z.shiftl_nonneg]|]. intros k Hk.
      rewrite testbit_set, Hwh by lia. apply Z.eqb_neq. lia.
    + intros k. rewrite inuse_bit_insert by lia. case_decide as Hki.
      * rewrite testbit_set by lia. unfold inuse_bit. rewrite Hki, Hw. cbn [from_option id]. f_equal.
        by apply (bit_index_inj i).
      * rewrite bool_decide_eq_false_2; [by rewrite orb_false_r|]. intros ->. by apply Hki.
Qed.

Lemma freepageref_spec j h o :
  words_ok (pagerefs_inuse h) → (j < 256)%nat → inuse_bit (pagerefs_inuse h) j = true →
  wp (freepageref j) (λ _ h' o', o' = o ∧
    ∃ ws, h' = with_inuse h ws ∧ words_ok ws ∧
      ∀ k, inuse_bit ws k = inuse_bit (pagerefs_inuse h) k && negb (bool_decide (k = j))) h o.
Proof.
  intros Hws Hj Hb. pose proof Hws as [Hlen Hall]. unfold freepageref, NPAGEREFS. wp_run.
  pose proof (bit_index j) as Hbi.
  assert (Z.of_nat j / 32 = Z.of_nat (j / 32)) as -> by (rewrite Nat2Z.inj_div; done).
  assert (Z.of_nat j mod 32 = Z.of_nat (j mod 32)) as -> by (rewrite Nat2Z.inj_mod; done).
  assert (j / 32 < 8)%nat as Hi by (apply Nat.Div0.div_lt_upper_bound; lia).
  assert (j mod 32 < 32)%nat as Hm by (apply Nat.mod_upper_bound; lia).
  destruct (lookup_lt_is_Some_2 (pagerefs_inuse h) (j / 32)%nat ltac:(lia)) as [w Hw].
  rewrite zlookup_nat, Hw. wp_step. wp_step. rewrite land_bit by lia.
  unfold inuse_bit in Hb. rewrite Hw in Hb. cbn [from_option id] in Hb. rewrite Hb. wp_step; [done|].
  eapply wp_mono; [apply wp_set_inuse; lia|]. cbn beta. intros _ h' o' (-> & ->).
  split; [done|]. eexists. split_and!; [done| |].
  - apply words_ok_insert; [done|]. rewrite Forall_lookup in Hall. apply word_range.
    pose proof (Hall _ w Hw) as Hwr. apply word_range in Hwr as [Hw0 Hwh].
    split; [apply Z.land_nonneg; by left|]. intros k Hk. by rewrite Z.land_spec, Hwh.
  - intros k. assert (k mod 32 < 32)%nat by (apply Nat.mod_upper_bound; lia).
    rewrite inuse_bit_insert by lia. case_decide as Hki.
    + rewrite testbit_clear by lia. unfold inuse_bit. rewrite Hki, Hw. cbn [from_option id]. f_equal. f_equal.
      apply (bit_index_inj (j / 32)); lia.
    + rewrite bool_decide_eq_false_2; [by rewrite andb_true_r|]. intros ->. by apply Hki.
Qed.

(** ** Steps that keep the invariant *)
Lemma with_kmem_twice h g g' : with_kmem (with_kmem h g) g' = with_kmem h g'.
Proof. unfold with_kmem, with_pages. simpl. by rewrite pa_machine_put, pa_put_put. Qed.

(** A page reference changes, but neither its links nor its block type. *)
Lemma refs_ok_update h js I j pr pr' i i' :
  refs_ok h js I → pagerefs h !! j = Some pr →
  next_all pr' = next_all pr → next_samesize pr' = next_samesize pr →
  I !! j = Some i → pi_type i' = pi_type i →
  refs_ok (with_prs h (<[j := pr']> (pagerefs h))) js (<[j := i']> I).
Proof.
  intros [] Hpr Hna Hns Hi Ht. split; simpl; try done.
  - by rewrite length_insert.
  - intros k. rewrite ro_dom0, lookup_insert_is_Some. split; [|naive_solver].
    destruct (decide (j = k)); [by left|by right].
  - by eapply pl_chain_update.
  - intros t Hlt. destruct (ro_size0 t Hlt) as (base & Hb & Hc). exists base. split; [done|].
    rewrite (list_filter_iff _ (of_type I t)).
    + by eapply pl_chain_update.
    + intros k. unfold of_type. rewrite lookup_insert. case_decide; [|done]. subst k.
      rewrite Hi. simpl. by rewrite Ht.
Qed.
Lemma refs_ok_pages h js I p : refs_ok h js I → refs_ok (with_pages h p) js I.
Proof. intros []. by split. Qed.

Lemma pages_ok_update h A I j pr' i i' :
  pages_ok h A I → (j < length (pagerefs h))%nat → I !! j = Some i → pi_addr i' = pi_addr i →
  page_ok (kmem h) pr' i' → Z.of_nat (length (pi_free i')) ≤ blocks (pi_type i') →
  pages_ok (with_prs h (<[j := pr']> (pagerefs h))) A (<[j := i']> I).
Proof.
  intros [] Hj Hi Ha Hok Hlen. split; simpl; [done|..].
  - intros k ik. rewrite lookup_insert. case_decide as Hjk.
    + subst k. intros [= <-]. exists pr'. by rewrite list_lookup_insert_eq.
    + intros Hk. destruct (po_page0 k ik Hk) as (pr & Hpr & ?). exists pr.
      by rewrite list_lookup_insert_ne.
  - intros k ik. rewrite lookup_insert. case_decide as Hjk; [|by apply po_block0].
    intros [= <-]. rewrite Ha. split; [by eapply po_block0|done].
  - intros k k' ik ik'. rewrite !lookup_insert.
    repeat case_decide; intros; simplify_eq; try done; eapply po_inj0; try done; congruence.
Qed.

(** Writing to memory, away from the links of the free blocks *)
Lemma pages_ok_write h A I a n b bs :
  pages_ok h A I → A !! a = Some n →
  a ≤ b → b + Z.of_nat (length bs) ≤ a + Z.of_nat n * PAGE_SIZE →
  (∀ j i o, I !! j = Some i → o ∈ pi_free i →
     pi_addr i + o + 4 ≤ b ∨ b + Z.of_nat (length bs) ≤ pi_addr i + o) →
  pages_ok (with_kmem h (write_at (kmem h) b bs)) A I.
Proof.
  intros [] Ha Hb Hbl Hout. split; [by eapply pa_write|..]; [|done..].
  intros j i Hi. destruct (po_page0 j i Hi) as (pr & Hpr & H1 & H2 & H3 & H4 & H5 & H6 & H7).
  exists pr. split; [done|]. split_and!; try done. rewrite kmem_with_kmem.
  eapply fl_chain_ext; [|exact H7]. intros o Ho. apply word_at_write_ne. by eapply Hout.
Qed.

(** The links of a free block lie inside of its page. *)
Lemma page_bounds h A I j i :
  pages_ok h A I → I !! j = Some i →
  USERTOP < pi_addr i ∧ pi_addr i mod PAGE_SIZE = 0 ∧ pi_addr i + PAGE_SIZE < 2 ^ 32 ∧
  mapped (pa_machine (kpages h)) (pi_addr i) PAGE_SIZE.
Proof.
  intros [] Hi. destruct (po_block0 j i Hi) as [Ha _].
  destruct (pa_block _ _ _ _ po_owned0 Ha) as (? & ? & _ & ? & ?).
  rewrite Z.mul_1_l in *. done.
Qed.
Lemma pages_disjoint h A I j i a n :
  pages_ok h A I → I !! j = Some i → A !! a = Some n → a ≠ pi_addr i →
  a + Z.of_nat n * PAGE_SIZE ≤ pi_addr i ∨ pi_addr i + PAGE_SIZE ≤ a.
Proof.
  intros [] Hi Ha Hne. destruct (po_block0 j i Hi) as [Hi' _].
  destruct (pa_disjoint _ _ _ _ _ _ po_owned0 Ha Hi' Hne); lia.
Qed.
Lemma page_lookup h A I j i :
  pages_ok h A I → I !! j = Some i →
  ∃ pr, pagerefs h !! j = Some pr ∧ page_ok (kmem h) pr i ∧
    PR_PAGEADDR pr = pi_addr i ∧ PR_BLOCKTYPE pr = Z.of_nat (pi_type i).
Proof.
  intros Hp Hi. destruct (po_page _ _ _ Hp j i Hi) as (pr & Hpr & Hok).
  destruct (page_bounds _ _ _ _ _ Hp Hi) as (H1 & H2 & H3 & _).
  destruct Hok as (Ht & Hpab & ?). exists pr. unfold PR_PAGEADDR, PR_BLOCKTYPE. rewrite Hpab.
  destruct (pab_split (pi_addr i) (Z.of_nat (pi_type i))) as (E1 & E2 & _);
    unfold USERTOP, MIPS_KSEG0, PAGE_SIZE in *; try lia; try done.
Qed.

(** *** Taking a block *)
Lemma free_offset_range A I h j i o :
  pages_ok h A I → I !! j = Some i → o ∈ pi_free i →
  (pi_type i < 8)%nat ∧ block_offset (pi_type i) o ∧ 0 ≤ o ≤ 4080.
Proof.
  intros Hp Hi Ho. destruct (po_page _ _ _ Hp j i Hi) as (pr & _ & Ht & _ & _ & _ & _ & Hfl & _).
  rewrite Forall_forall in Hfl. specialize (Hfl o Ho). split; [done|]. split; [done|].
  pose proof (block_offset_end _ _ Ht Hfl). destruct Hfl as [? _]. unfold PAGE_SIZE in *.
  destruct (size_of_cases _ Ht) as (k & _ & _ & _ & _ & ? & _). lia.
Qed.

Lemma doalloc_spec h A js I j i o fl or :
  refs_ok h js I → pages_ok h A I → I !! j = Some i → pi_free i = o :: fl →
  wp (doalloc j) (λ r h' or', or' = or ∧ r = pi_addr i + o ∧ ∃ pr',
    h' = with_prs h (<[j := pr']> (pagerefs h)) ∧
    refs_ok h' js (<[j := mkPinfo (pi_addr i) (pi_type i) fl]> I) ∧
    pages_ok h' A (<[j := mkPinfo (pi_addr i) (pi_type i) fl]> I)) h or.
Proof.
  intros Hr Hp Hi Hfree. destruct (page_lookup _ _ _ _ _ Hp Hi) as (pr & Hpr & Hok & Hpa & Hpt).
  pose proof Hok as (Ht & Hpab & Hnf & Hfo & Hnd & Hfl & Hch).
  assert (o ∈ pi_free i) as Hin by (rewrite Hfree; apply list_elem_of_here).
  destruct (free_offset_range _ _ _ _ _ o Hp Hi Hin) as (_ & _ & Ho).
  rewrite Hfree in Hnf, Hfo, Hnd, Hfl, Hch.
  destruct (page_bounds _ _ _ _ _ Hp Hi) as (B1 & B2 & B3 & _).
  destruct (po_block _ _ _ Hp _ _ Hi) as [_ Hlen]. rewrite Hfree in Hlen.
  destruct (size_of_cases _ Ht) as (_ & _ & _ & _ & _ & _ & Hb). simpl in Hlen.
  apply NoDup_cons in Hnd as [Hnin Hnd]. apply Forall_cons in Hfl as [Hoo Hfl].
  destruct Hch as [Hw Hch]. unfold USERTOP, MIPS_KSEG0, PAGE_SIZE in B1, B3.
  assert ((j < length (pagerefs h))%nat) as Hjl by (by eapply lookup_lt_Some).
  assert (∀ off nf, nf = Z.of_nat (length fl) → off = default INVALID_OFFSET (head fl) →
    refs_ok (with_prs h (<[j := mkPageref (next_samesize pr) (next_all pr)
       (pageaddr_and_blocktype pr) off nf]> (pagerefs h))) js
       (<[j := mkPinfo (pi_addr i) (pi_type i) fl]> I) ∧
    pages_ok (with_prs h (<[j := mkPageref (next_samesize pr) (next_all pr)
       (pageaddr_and_blocktype pr) off nf]> (pagerefs h))) A
       (<[j := mkPinfo (pi_addr i) (pi_type i) fl]> I)) as Hinv.
  { intros off nf -> ->. split.
    - by eapply refs_ok_update.
    - eapply pages_ok_update; [done..| |simpl; lia]. repeat split; done. }
  unfold doalloc. wp_step. eapply wp_mono; [by apply wp_get_pr|]. cbn beta.
  intros ? h' or' (-> & -> & ->). simpl in Hfo, Hnf. wp_step. wp_step.
  { rewrite Hfo. unfold PAGE_SIZE. lia. }
  cbn zeta. rewrite Hpa, Hfo, (u32_small (_ + o)) by lia.
  wp_step. eapply wp_mono; [apply wp_load; [|exact Hw]; unfold USERTOP, MIPS_KSEG0; lia|]. cbn beta.
  intros ? h' or' (-> & -> & ->).
  assert (u16 (nfree pr - 1) = Z.of_nat (length fl)) as Hn16.
  { unfold u16. rewrite Z.mod_small; lia. }
  rewrite Hn16. destruct fl as [|o' fl].
  - wp_cond. wp_step. wp_step; [done|]. wp_step.
    eapply wp_mono; [by eapply wp_set_pr|]. cbn beta. intros _ h' or' (-> & ->). wp_run.
    split_and!; [done..|]. eexists. split; [done|]. by apply Hinv.
  - apply Forall_cons in Hfl as [[Ho' _] _]. unfold PAGE_SIZE in Ho'.
    destruct (Z.eqb_spec (pi_addr i + o') 0); [lia|]. cbn [negb].
    assert (u32 (pi_addr i + o' - pi_addr i) = o') as -> by (rewrite u32_small; lia).
    wp_step. wp_step; [done|]. wp_step. wp_step; [unfold PAGE_SIZE; lia|]. wp_step.
    eapply wp_mono; [by eapply wp_set_pr|]. cbn beta. intros _ h' or' (-> & ->). wp_run.
    split_and!; [done..|]. eexists. split; [done|]. apply Hinv; [done|]. simpl.
    unfold u16. rewrite Z.mod_small; lia.
Qed.

Lemma find_page_spec h A I t fuel p ks o :
  pages_ok h A I → pl_chain next_samesize (pagerefs h) p ks → (length ks ≤ fuel)%nat →
  (∀ k, k ∈ ks → ∃ i, I !! k = Some i ∧ pi_type i = t) →
  wp (find_page fuel (Z.of_nat t) p) (λ r h' o', h' = h ∧ o' = o ∧
    match r with
    | None => True
    | Some j => ∃ i x fl, I !! j = Some i ∧ pi_type i = t ∧ pi_free i = x :: fl
    end) h o.
Proof.
  intros Hp. revert fuel p. induction ks as [|k ks IH]; intros fuel p Hc Hf Hty.
  { simpl in Hc. subst p. destruct fuel; simpl; by wp_run. }
  destruct Hc as (-> & pr & Hpr & Hc). destruct (Hty k ltac:(set_solver)) as (i & Hi & Hti).
  destruct (page_lookup _ _ _ _ _ Hp Hi) as (pr' & Hpr' & Hok & Hpa & Hpt). simplify_eq.
  destruct Hok as (_ & _ & Hnf & _). simpl in Hf.
  destruct fuel as [|fuel]; [lia|]. cbn [find_page]. wp_step.
  eapply wp_mono; [by apply wp_get_pr|]. cbn beta. intros ? h' o' (-> & -> & ->).
  wp_step. wp_step; [lia|]. rewrite Hnf. destruct (pi_free i) as [|x fl] eqn:Hfree.
  - wp_cond. apply IH; [done|lia|]. intros k' Hk'. apply Hty. set_solver.
  - destruct (Z.ltb_spec 0 (Z.of_nat (length (x :: fl)))); [|simpl in *; lia]. wp_run.
    split_and!; [done..|]. eauto 10.
Qed.

Lemma blocktype_from_spec sz n t0 h o :
  drop t0 sizes = n → sz ≤ 2048 → (t0 < 8)%nat →
  wp (blocktype_from n (Z.of_nat t0) sz) (λ r h' o', h' = h ∧ o' = o ∧
    ∃ t, r = Z.of_nat t ∧ (t < 8)%nat ∧ sz ≤ size_of t) h o.
Proof.
  revert t0. induction n as [|s n IH]; intros t0 Hd Hsz Ht0.
  { apply (f_equal length) in Hd. rewrite length_drop in Hd. simpl in Hd. lia. }
  cbn [blocktype_from]. assert (size_of t0 = s) as Hs.
  { unfold size_of. rewrite <- (Nat.add_0_r t0), <- lookup_drop, Hd. done. }
  destruct (Z.leb_spec sz s).
  - wp_run. split_and!; [done..|]. exists t0. split_and!; [done..|lia].
  - replace (Z.of_nat t0 + 1) with (Z.of_nat (S t0)) by lia.
    destruct (decide (t0 = 7)%nat) as [->|]; [unfold size_of in Hs; simpl in Hs; lia|].
    apply IH; [|done|lia]. replace (S t0) with (t0 + 1)%nat by lia.
    by rewrite <- drop_drop, Hd.
Qed.
Lemma blocktype_spec sz h o :
  sz ≤ 2048 → wp (blocktype sz) (λ r h' o', h' = h ∧ o' = o ∧
    ∃ t, r = Z.of_nat t ∧ (t < 8)%nat ∧ sz ≤ size_of t) h o.
Proof. intros Hsz. by apply (blocktype_from_spec sz sizes 0); [..|lia]. Qed.

(** *** A new page *)
Fixpoint desc (k : nat) (sz : Z) : list Z :=
  match k with O => [0] | S k' => Z.of_nat (S k') * sz :: desc k' sz end.
Lemma desc_elem k sz x : x ∈ desc k sz ↔ ∃ q, (q ≤ k)%nat ∧ x = Z.of_nat q * sz.
Proof.
  induction k as [|k IH]; simpl.
  - rewrite list_elem_of_singleton. split; [intros ->; by exists 0%nat|].
    intros (q & Hq & ->). replace q with 0%nat by lia. done.
  - rewrite elem_of_cons, IH. split.
    + intros [->|(q & Hq & ->)]; [by exists (S k)|exists q; split; [lia|done]].
    + intros (q & Hq & ->). destruct (decide (q = S k)) as [->|]; [by left|].
      right. exists q. split; [lia|done].
Qed.
Lemma desc_nodup k sz : 0 < sz → NoDup (desc k sz).
Proof.
  intros Hs. induction k as [|k IH]; simpl; [apply NoDup_singleton|]. constructor; [|done].
  rewrite desc_elem. intros (q & Hq & Heq). nia.
Qed.
Lemma desc_length k sz : length (desc k sz) = S k.
Proof. induction k; simpl; lia. Qed.
Lemma desc_head k sz : head (desc k sz) = Some (Z.of_nat k * sz).
Proof. by destruct k. Qed.
Lemma desc_offsets k t : (t < 8)%nat → Z.of_nat k < blocks t → Forall (block_offset t) (desc k (size_of t)).
Proof.
  intros Ht Hk. destruct (size_of_cases t Ht) as (_ & _ & _ & _ & Hsb & Hs & Hb).
  apply Forall_forall. intros x (q & Hq & ->)%desc_elem. split; [nia|]. by apply Z.mod_mul; lia.
Qed.

(** No page of the heap is the page at [pa]. *)
Definition not_ours (I : gmap nat pinfo) (pa : Z) : Prop := ∀ j i, I !! j = Some i → pi_addr i ≠ pa.

Lemma pages_ok_write_new h A I pa b bs :
  pages_ok h A I → A !! pa = Some 1%nat → not_ours I pa →
  pa ≤ b → b + Z.of_nat (length bs) ≤ pa + PAGE_SIZE →
  pages_ok (with_kmem h (write_at (kmem h) b bs)) A I.
Proof.
  intros Hp Ha Hn Hb Hbl. eapply (pages_ok_write h A I pa 1); [done..|].
  intros j i o Hi Ho. destruct (free_offset_range _ _ _ _ _ o Hp Hi Ho) as (_ & _ & Hor).
  assert (pa ≠ pi_addr i) as Hne by (intros ->; by eapply Hn).
  destruct (pages_disjoint _ _ _ _ _ _ _ Hp Hi Ha Hne); unfold PAGE_SIZE in *; lia.
Qed.

Lemma link_loop_spec A I pa t n k h o :
  (t < 8)%nat → pages_ok h A I → A !! pa = Some 1%nat → not_ours I pa →
  fl_chain (kmem h) pa (desc k (size_of t)) → Z.of_nat (k + n) < blocks t →
  wp (kfor n (Z.of_nat (S k)) (link_block pa (size_of t))) (λ _ h' o', o' = o ∧ ∃ p,
    h' = with_pages h p ∧ pages_ok h' A I ∧ fl_chain (kmem h') pa (desc (k + n) (size_of t)) ∧
    ∀ b, ¬ (pa ≤ b < pa + PAGE_SIZE) → kmem h' !! b = kmem h !! b) h o.
Proof.
  intros Ht. revert k h. induction n as [|n IH]; intros k h Hp Ha Hn Hc Hk; cbn [kfor].
  { wp_run. split; [done|]. exists (kpages h). rewrite with_pages_id, Nat.add_0_r. done. }
  destruct (size_of_cases t Ht) as (_ & _ & _ & _ & Hsb & Hs & Hb).
  destruct (pa_block _ _ _ _ (po_owned _ _ _ Hp) Ha) as (B1 & _ & _ & B2 & B3).
  rewrite Z.mul_1_l in *. unfold USERTOP, MIPS_KSEG0 in B1.
  assert (Z.of_nat (S k) * size_of t + size_of t ≤ PAGE_SIZE) as Hend by nia.
  assert (0 ≤ Z.of_nat k * size_of t) as Hk0 by nia.
  assert (Z.of_nat (S k) * size_of t = Z.of_nat k * size_of t + size_of t) as Hsk by lia.
  unfold PAGE_SIZE in *. unfold link_block. wp_step. wp_step.
  rewrite !u32_small by lia.
  replace (Z.of_nat (S k) - 1) with (Z.of_nat k) by lia.
  eapply wp_mono; [apply wp_store|].
  { unfold USERTOP, MIPS_KSEG0. lia. }
  { rewrite <- (Z2Nat.id (Z.of_nat (S k) * size_of t)) by lia.
    apply (bytes_at_sub_is_Some _ _ _ _ _ B3). lia. }
  cbn beta. intros _ h' o' (-> & ->).
  refine (proj2 (wp_assert _ _ _ _) (conj _ _)); [apply negb_true_iff, Z.eqb_neq; lia|].
  set (h1 := with_kmem h _).
  assert (pages_ok h1 A I) as Hp1.
  { apply (pages_ok_write_new h A I pa); try done; rewrite ?bytes_of_length; unfold PAGE_SIZE; lia. }
  assert (fl_chain (kmem h1) pa (desc (S k) (size_of t))) as Hc1.
  { unfold h1. rewrite kmem_with_kmem. cbn [desc fl_chain]. split.
    - rewrite word_at_write_eq by lia. f_equal. pose proof (desc_head k (size_of t)) as Hh.
      by destruct (desc k (size_of t)); simplify_eq/=.
    - apply (fl_chain_write _ _ t _ (Z.of_nat (S k) * size_of t)); try done.
      + apply desc_offsets; [done|lia].
      + split; [unfold PAGE_SIZE; lia|by apply Z.mod_mul; lia].
      + rewrite desc_elem. intros (q & Hq & Heq). nia.
      + rewrite bytes_of_length. lia. }
  replace (Z.of_nat (S k) + 1) with (Z.of_nat (S (S k))) by lia.
  eapply wp_mono; [apply IH; try done; lia|]. cbn beta.
  intros _ h' o' (-> & p & -> & Hp' & Hc' & Hm'). split; [done|]. exists p.
  split_and!; [done|done|by replace (k + S n)%nat with (S k + n)%nat by lia|].
  intros b Hbb. rewrite Hm' by done. unfold h1. rewrite kmem_with_kmem, write_at_lookup.
  rewrite bytes_of_length, decide_False; [done|lia].
Qed.

(** The new page joins both lists. *)
Lemma refs_ok_new h js I p j pr ws t base i :
  refs_ok h js I → (j < 256)%nat → j ∉ js → words_ok ws →
  (∀ k, inuse_bit ws k = inuse_bit (pagerefs_inuse h) k || bool_decide (k = j)) →
  (t < 8)%nat → pi_type i = t → sizebases h !! t = Some base →
  next_samesize pr = base → next_all pr = allbase h →
  refs_ok (mkKheap p (<[j := pr]> (pagerefs h)) ws (<[t := Some j]> (sizebases h)) (Some j))
    (j :: js) (<[j := i]> I).
Proof.
  intros [] Hj Hn [Hwl Hwf] Hbits Ht Hti Hbase Hns Hna.
  assert (∀ t', filter (of_type (<[j := i]> I) t') js = filter (of_type I t') js) as Hfil.
  { intros t'.
    clear -Hn. induction js as [|k js IH]; [done|]. rewrite !filter_cons.
    assert (of_type (<[j := i]> I) t' k ↔ of_type I t' k) as Hiff.
    { unfold of_type. rewrite lookup_insert_ne; [done|set_solver]. }
    rewrite IH by set_solver. repeat case_decide; tauto. }
  split; simpl; try done.
  - by rewrite length_insert.
  - by rewrite length_insert.
  - by constructor.
  - intros k. rewrite elem_of_cons, ro_dom0, lookup_insert_is_Some.
    destruct (decide (j = k)); naive_solver.
  - intros k [->|Hk]%elem_of_cons; [done|by apply ro_lt0].
  - intros k Hk. rewrite Hbits, orb_true_iff, bool_decide_eq_true, ro_bits0, elem_of_cons by done.
    tauto.
  - split; [done|]. exists pr. rewrite list_lookup_insert_eq by lia. split; [done|].
    rewrite Hna. by apply pl_chain_insert.
  - intros t' Ht'. rewrite filter_cons, Hfil. destruct (ro_size0 t' Ht') as (b' & Hb' & Hc').
    assert (j ∉ filter (of_type I t') js) as Hnf by (rewrite list_elem_of_filter; naive_solver).
    destruct (decide (t' = t)) as [->|Hne].
    + rewrite decide_True by (unfold of_type; rewrite lookup_insert_eq; simpl; by rewrite Hti).
      exists (Some j). rewrite list_lookup_insert_eq by lia. split; [done|]. split; [done|].
      exists pr. rewrite list_lookup_insert_eq by lia. split; [done|]. simplify_eq.
      by apply pl_chain_insert.
    + rewrite decide_False by (unfold of_type; rewrite lookup_insert_eq; simpl; congruence).
      exists b'. rewrite list_lookup_insert_ne by done. split; [done|]. by apply pl_chain_insert.
Qed.

(** ** Live blocks

    A block of a page that is not on its free list, or a run of whole pages
    that is not a page of the heap. *)
Definition live_sub (I : gmap nat pinfo) (a n : Z) : Prop :=
  ∃ j i o, I !! j = Some i ∧ a = pi_addr i + o ∧ n = size_of (pi_type i) ∧
    block_offset (pi_type i) o ∧ o ∉ pi_free i.
Definition live_big (A : gmap Z nat) (I : gmap nat pinfo) (a n : Z) : Prop :=
  ∃ k, A !! a = Some k ∧ n = Z.of_nat k * PAGE_SIZE ∧ not_ours I a.
Definition live (A : gmap Z nat) (I : gmap nat pinfo) (a n : Z) : Prop :=
  live_sub I a n ∨ live_big A I a n.

Lemma page_type h A I j i : pages_ok h A I → I !! j = Some i → (pi_type i < 8)%nat.
Proof. intros Hp Hi. by destruct (po_page _ _ _ Hp j i Hi) as (? & _ & ? & _). Qed.

(** A live block lies inside of one block of pages. *)
Lemma live_inside h A I a n :
  pages_ok h A I → live A I a n →
  ∃ b k, A !! b = Some k ∧ b ≤ a ∧ a + n ≤ b + Z.of_nat k * PAGE_SIZE ∧ 0 < n.
Proof.
  intros Hp [(j & i & o & Hi & -> & -> & Ho & _)|(k & Hk & -> & _)].
  - pose proof (page_type _ _ _ _ _ Hp Hi) as Ht. exists (pi_addr i), 1%nat.
    pose proof (block_offset_end _ _ Ht Ho). destruct Ho as [? _].
    destruct (size_of_cases _ Ht) as (_ & _ & _ & _ & _ & ? & _).
    split; [by eapply po_block|]. lia.
  - exists a, k. destruct (pa_block _ _ _ _ (po_owned _ _ _ Hp) Hk) as (_ & _ & ? & _).
    unfold PAGE_SIZE. split; [done|lia].
Qed.
Lemma live_sub_page h A I a n :
  pages_ok h A I → live_sub I a n →
  ∃ j i, I !! j = Some i ∧ pi_addr i ≤ a ∧ a + n ≤ pi_addr i + PAGE_SIZE ∧ 0 < n.
Proof.
  intros Hp (j & i & o & Hi & -> & -> & Ho & _). pose proof (page_type _ _ _ _ _ Hp Hi) as Ht.
  pose proof (block_offset_end _ _ Ht Ho). destruct Ho as [? _].
  destruct (size_of_cases _ Ht) as (_ & _ & _ & _ & _ & ? & _). exists j, i. split; [done|]. lia.
Qed.

Lemma live_sub_disjoint h A I a n b m :
  pages_ok h A I → live_sub I a n → live_sub I b m →
  (a = b ∧ n = m) ∨ a + n ≤ b ∨ b + m ≤ a.
Proof.
  intros Hp Ha Hb. pose proof (live_sub_page _ _ _ _ _ Hp Ha) as (j & i & Hi & Ha1 & Ha2 & Ha3).
  pose proof (live_sub_page _ _ _ _ _ Hp Hb) as (j' & i' & Hi' & Hb1 & Hb2 & Hb3).
  destruct Ha as (k & ik & o & Hk & -> & -> & Ho & _), Hb as (k' & ik' & o' & Hk' & -> & -> & Ho' & _).
  pose proof (page_type _ _ _ _ _ Hp Hk) as Ht. pose proof (page_type _ _ _ _ _ Hp Hk') as Ht'.
  destruct (decide (k = k')) as [->|Hne].
  - simplify_eq. destruct (decide (o = o')) as [->|Hoo]; [by left|]. right.
    destruct (block_offset_disjoint _ o o' Ht Ho Ho' Hoo); lia.
  - right. destruct (po_block _ _ _ Hp _ _ Hk) as [HA _].
    assert (pi_addr ik ≠ pi_addr ik') as Hadr by (intros Heq; by apply Hne, (po_inj _ _ _ Hp _ _ _ _ Hk Hk')).
    pose proof (block_offset_end _ _ Ht Ho). pose proof (block_offset_end _ _ Ht' Ho').
    destruct Ho as [? _], Ho' as [? _].
    destruct (pages_disjoint _ _ _ _ _ _ _ Hp Hk' HA Hadr); lia.
Qed.
Lemma live_big_disjoint h A I a n b m :
  pages_ok h A I → live_big A I a n → live A I b m →
  (a = b ∧ n = m) ∨ a + n ≤ b ∨ b + m ≤ a.
Proof.
  intros Hp (k & Hk & -> & Hno) [Hb|(k' & Hk' & -> & Hno')].
  - destruct (live_sub_page _ _ _ _ _ Hp Hb) as (j & i & Hi & Hb1 & Hb2 & Hb3).
    assert (a ≠ pi_addr i) as Hne by (intros ->; by eapply Hno).
    destruct (pages_disjoint _ _ _ _ _ _ _ Hp Hi Hk Hne); lia.
  - destruct (decide (a = b)) as [->|Hne]; [by simplify_eq; left|].
    destruct (pa_disjoint _ _ _ _ _ _ (po_owned _ _ _ Hp) Hk Hk' Hne); lia.
Qed.
(** Two live blocks are the same or do not overlap. *)
Lemma live_disjoint h A I a n b m :
  pages_ok h A I → live A I a n → live A I b m →
  (a = b ∧ n = m) ∨ a + n ≤ b ∨ b + m ≤ a.
Proof.
  intros Hp [Ha|Ha] Hb; [|by eapply live_big_disjoint].
  destruct Hb as [Hb|Hb]; [by eapply live_sub_disjoint|].
  destruct (live_big_disjoint _ _ _ _ _ _ _ Hp Hb (or_introl Ha)); naive_solver.
Qed.

(** *** How the live blocks change *)
Lemma live_sub_take h A I j i o fl a n :
  pages_ok h A I → I !! j = Some i → pi_free i = o :: fl →
  live_sub (<[j := mkPinfo (pi_addr i) (pi_type i) fl]> I) a n ↔
  live_sub I a n ∨ (a = pi_addr i + o ∧ n = size_of (pi_type i)).
Proof.
  intros Hp Hi Hfree. destruct (po_page _ _ _ Hp j i Hi) as (pr & _ & Ht & _ & _ & _ & Hnd & Hfl & _).
  rewrite Hfree in Hnd, Hfl. apply NoDup_cons in Hnd as [Hnin _]. apply Forall_cons in Hfl as [Ho _].
  unfold live_sub. split.
  - intros (k & ik & o' & Hk & -> & -> & Ho' & Hn'). rewrite lookup_insert in Hk. case_decide.
    + simplify_eq/=. destruct (decide (o' = o)) as [->|Hne]; [by right|]. left.
      exists k, i, o'. rewrite Hfree. split_and!; try done. set_solver.
    + left. by exists k, ik, o'.
  - intros [(k & ik & o' & Hk & -> & -> & Ho' & Hn')|(-> & ->)].
    + destruct (decide (j = k)) as [->|Hne].
      * simplify_eq. eexists k, _, o'. rewrite lookup_insert_eq. split_and!; [done..|].
        rewrite Hfree in Hn'. simpl. set_solver.
      * exists k, ik, o'. by rewrite lookup_insert_ne.
    + eexists j, _, o. rewrite lookup_insert_eq. done.
Qed.
Lemma not_ours_update I j i i' pa :
  I !! j = Some i → pi_addr i' = pi_addr i → not_ours (<[j := i']> I) pa ↔ not_ours I pa.
Proof.
  intros Hi Ha. split; intros Hn k ik.
  - intros Hk. destruct (decide (j = k)) as [->|Hne].
    + simplify_eq. rewrite <- Ha. apply (Hn k). apply lookup_insert_eq.
    + apply (Hn k). by rewrite lookup_insert_ne.
  - rewrite lookup_insert. case_decide; [|by apply Hn].
    intros [= <-]. rewrite Ha. by apply (Hn j).
Qed.

(** ** kmalloc *)

(** [h'] has one more live block than [h], of at least [sz] bytes, and the
    bytes of the other live blocks are as before. *)
Definition same_bytes (A : gmap Z nat) (I : gmap nat pinfo) h h' : Prop :=
  ∀ a n b, live A I a n → a ≤ b < a + n → kmem h' !! b = kmem h !! b.
Definition state_ok h (A : gmap Z nat) (js : list nat) (I : gmap nat pinfo) : Prop :=
  refs_ok h js I ∧ pages_ok h A I ∧ not_full I.
Definition kmalloc_post h A I sz (r : Z) h' : Prop :=
  ∃ A' js' I', state_ok h' A' js' I' ∧ same_bytes A I h h' ∧
    ((r = 0 ∧ ∀ a n, live A' I' a n ↔ live A I a n) ∨
     (r ≠ 0 ∧ (∀ n, ¬ live A I r n) ∧ ∃ n, sz ≤ n ∧
       ∀ a m, live A' I' a m ↔ live A I a m ∨ (a = r ∧ m = n))).

Lemma take_block_spec h A js I j i x fl o :
  refs_ok h js I → pages_ok h A I → I !! j = Some i → pi_free i = x :: fl →
  (∀ k ik, k ≠ j → I !! k = Some ik → Z.of_nat (length (pi_free ik)) < blocks (pi_type ik)) →
  wp (doalloc j) (λ r h' o', o' = o ∧ r ≠ 0 ∧ kmem h' = kmem h ∧ (∀ n, ¬ live A I r n) ∧
    ∃ I', state_ok h' A js I' ∧
      ∀ a n, live A I' a n ↔ live A I a n ∨ (a = r ∧ n = size_of (pi_type i))) h o.
Proof.
  intros Hr Hp Hi Hfree Hnf.
  eapply wp_mono; [by eapply doalloc_spec|]. cbn beta.
  intros r h' o' (-> & -> & pr' & -> & Hr' & Hp').
  destruct (page_bounds _ _ _ _ _ Hp Hi) as (B1 & _ & B2 & _). unfold USERTOP, MIPS_KSEG0 in B1.
  assert (x ∈ pi_free i) as Hx by (rewrite Hfree; apply list_elem_of_here).
  destruct (free_offset_range _ _ _ _ _ x Hp Hi Hx) as (Ht & Hxo & Hxr).
  destruct (po_block _ _ _ Hp _ _ Hi) as [HA Hlen]. rewrite Hfree in Hlen. simpl in Hlen.
  assert (∀ a n, live A (<[j := mkPinfo (pi_addr i) (pi_type i) fl]> I) a n ↔
    live A I a n ∨ (a = pi_addr i + x ∧ n = size_of (pi_type i))) as Hlive.
  { intros a n. unfold live. rewrite (live_sub_take h A I) by done.
    assert (live_big A (<[j := mkPinfo (pi_addr i) (pi_type i) fl]> I) a n ↔ live_big A I a n) as ->;
      [|tauto].
    unfold live_big. by setoid_rewrite (not_ours_update I j i). }
  split_and!; [done|lia|done| |].
  - intros n [(k & ik & o' & Hk & Heq & -> & Ho' & Hn')|Hb].
    + assert (k = j) as ->.
      { apply (po_inj _ _ _ Hp _ _ _ _ Hk Hi).
        destruct (decide (pi_addr ik = pi_addr i)) as [|Hne]; [done|].
        destruct (po_block _ _ _ Hp _ _ Hk) as [HAk _].
        pose proof (page_type _ _ _ _ _ Hp Hk) as Htk. pose proof (block_offset_end _ _ Htk Ho').
        destruct Ho' as [? _]. destruct (size_of_cases _ Htk) as (_ & _ & _ & _ & _ & ? & _).
        destruct (pages_disjoint _ _ _ _ _ _ _ Hp Hi HAk Hne); unfold PAGE_SIZE in *; lia. }
      simplify_eq. assert (o' = x) as -> by lia. done.
    + destruct Hb as (k & Hk & -> & Hno). assert (pi_addr i + x ≠ pi_addr i) as Hne.
      { intros Heq. by apply (Hno j i Hi). }
      destruct (pa_block _ _ _ _ (po_owned _ _ _ Hp) Hk) as (_ & _ & ? & _).
      destruct (pages_disjoint _ _ _ _ _ _ _ Hp Hi Hk Hne); unfold PAGE_SIZE in *; lia.
  - eexists. split; [|exact Hlive]. split_and!; [done..|]. intros k ik.
    rewrite lookup_insert. case_decide; [intros [= <-]; simpl; lia|]. intros Hk. by eapply Hnf.
Qed.

Lemma refs_ok_inuse h js I ws :
  refs_ok h js I → words_ok ws → (∀ k, inuse_bit ws k = inuse_bit (pagerefs_inuse h) k) →
  refs_ok (with_inuse h ws) js I.
Proof.
  intros [] [Hl Hf] Hbits. split; simpl; try done. intros j Hj. by rewrite Hbits, ro_bits0.
Qed.

(** The pages after one more has been taken from the page allocator *)
Lemma pages_ok_alloc h A I p pa n :
  pages_ok h A I → A !! pa = None → pa_owned p (<[pa := n]> A) →
  only_changes pa (Z.of_nat n * PAGE_SIZE) (pa_machine (kpages h)) (pa_machine p) →
  pages_ok (with_pages h p) (<[pa := n]> A) I ∧ not_ours I pa ∧ same_bytes A I h (with_pages h p).
Proof.
  intros Hp Hpa Hown Hoc.
  assert (not_ours I pa) as Hno.
  { intros j i Hi Heq. destruct (po_block _ _ _ Hp _ _ Hi) as [HA _]. by rewrite Heq, Hpa in HA. }
  assert (∀ b k c, A !! b = Some k → b ≤ c < b + Z.of_nat k * PAGE_SIZE →
    kmem (with_pages h p) !! c = kmem h !! c) as Hsame.
  { intros b k c Hb Hc. apply Hoc. assert (b ≠ pa) as Hne by congruence.
    assert ((<[pa:=n]> A) !! b = Some k) as Hb' by by rewrite lookup_insert_ne.
    assert ((<[pa:=n]> A) !! pa = Some n) as Hpa' by by rewrite lookup_insert_eq.
    destruct (pa_disjoint _ _ _ _ _ _ Hown Hb' Hpa' Hne); lia. }
  split_and!; [|done|].
  - pose proof Hp as []. split; [done|..].
    + intros j i Hi. destruct (po_page0 j i Hi) as (pr & Hpr & H1 & H2 & H3 & H4 & H5 & H6 & H7).
      exists pr. split; [done|]. repeat (split; [done|]). eapply fl_chain_ext; [|exact H7].
      intros o Ho. destruct (free_offset_range _ _ _ _ _ o Hp Hi Ho) as (_ & _ & Hor).
      destruct (po_block0 j i Hi) as [HA _]. unfold word_at. f_equal.
      destruct (bytes_at (kmem h) (pi_addr i + o) 4) as [bs|] eqn:Hbs.
      * apply bytes_at_Some in Hbs as [Hl Hb]. apply bytes_at_Some. split; [done|]. intros k Hk.
        rewrite <- Hb by done. apply (Hsame _ _ _ HA). unfold PAGE_SIZE. lia.
      * apply eq_None_not_Some. intros Hs. apply eq_None_not_Some in Hbs. apply Hbs.
        rewrite bytes_at_is_Some in *. intros k Hk.
        rewrite <- (Hsame _ _ (pi_addr i + o + Z.of_nat k) HA); [by apply Hs|unfold PAGE_SIZE; lia].
    + intros j i Hi. destruct (po_block0 j i Hi) as [HA ?]. split; [|done].
      rewrite lookup_insert_ne; [done|]. intros Heq. by apply (Hno j i Hi).
    + done.
  - intros a m b Hl Hb. destruct (live_inside _ _ _ _ _ Hp Hl) as (c & k & Hc & ? & ? & _).
    apply (Hsame c k); [done|lia].
Qed.

Lemma wp_get_base h t base o :
  sizebases h !! t = Some base →
  wp (get_base (Z.of_nat t)) (λ r h' o', r = base ∧ h' = h ∧ o' = o) h o.
Proof. intros Hb. unfold get_base. wp_run. apply wp_deref. rewrite zlookup_nat. eauto. Qed.
Lemma wp_set_base h t base p o :
  sizebases h !! t = Some base →
  wp (set_base (Z.of_nat t) p) (λ _ h' o', o' = o ∧
    h' = mkKheap (kpages h) (pagerefs h) (pagerefs_inuse h) (<[t := p]> (sizebases h)) (allbase h)) h o.
Proof.
  intros Hb. pose proof (lookup_lt_Some _ _ _ Hb). unfold set_base. wp_run.
  rewrite zinsert_ok, Nat2Z.id by lia. by wp_run.
Qed.

(** Linking the blocks of a fresh page. *)
Lemma init_page_spec h A js I ws j t base pa o :
  refs_ok h js I → sizebases h !! t = Some base → (t < 8)%nat →
  (j < 256)%nat → j ∉ js → words_ok ws →
  (∀ k, inuse_bit ws k = inuse_bit (pagerefs_inuse h) k || bool_decide (k = j)) →
  ∀ h1, pages_ok h1 A I → A !! pa = Some 1%nat → not_ours I pa →
  pagerefs h1 = pagerefs h → pagerefs_inuse h1 = ws → sizebases h1 = sizebases h →
  allbase h1 = allbase h →
  let i := mkPinfo pa t (desc (Z.to_nat (blocks t - 1)) (size_of t)) in
  wp (init_page j pa (Z.of_nat t) (size_of t)) (λ _ h' o', o' = o ∧
    refs_ok h' (j :: js) (<[j := i]> I) ∧ pages_ok h' A (<[j := i]> I) ∧
    ∀ b, ¬ (pa ≤ b < pa + PAGE_SIZE) → kmem h' !! b = kmem h1 !! b) h1 o.
Proof.
  intros Hr Hbase Ht Hj Hnj Hws Hbits h1 Hp Ha Hno E1 E2 E3 E4 i.
  destruct (size_of_cases t Ht) as (_ & _ & _ & _ & Hsb & Hs & Hb).
  destruct (pa_block _ _ _ _ (po_owned _ _ _ Hp) Ha) as (B1 & B2 & _ & B3 & B4).
  rewrite Z.mul_1_l in *. unfold USERTOP, MIPS_KSEG0 in B1. unfold PAGE_SIZE in B3.
  unfold init_page. fold (blocks t). wp_step.
  eapply wp_mono; [apply wp_store|].
  { unfold USERTOP, MIPS_KSEG0. lia. }
  { eapply bytes_at_prefix_is_Some; [exact B4|]. unfold PAGE_SIZE. lia. }
  cbn beta. intros _ h2 o' (-> & ->). set (h2 := with_kmem h1 _).
  assert (pages_ok h2 A I) as Hp2.
  { apply (pages_ok_write_new h1 A I pa); try done; rewrite ?bytes_of_length; unfold PAGE_SIZE; lia. }
  assert (fl_chain (kmem h2) pa (desc 0 (size_of t))) as Hc2.
  { unfold h2. rewrite kmem_with_kmem. split; [|done]. rewrite Z.add_0_r.
    apply word_at_write_eq. lia. }
  wp_step. eapply wp_mono.
  { apply (link_loop_spec A I pa t (Z.to_nat (blocks t - 1)) 0 h2); try done. lia. }
  cbn beta. intros _ h3 o' (-> & p3 & -> & Hp3 & Hc3 & Hm3). rewrite Nat.add_0_l in Hc3.
  set (h3 := with_pages h2 p3) in *.
  assert (0 ≤ (blocks t - 1) * size_of t < PAGE_SIZE) as Hoff by (unfold PAGE_SIZE in *; nia).
  unfold PAGE_SIZE in Hoff.
  assert (u16 (u32 (pa + (blocks t - 1) * size_of t) - pa) = (blocks t - 1) * size_of t) as Hu.
  { rewrite u32_small by lia. unfold u16. rewrite Z.mod_small; lia. }
  cbn zeta. rewrite Hu. wp_step. wp_step; [lia|]. wp_step.
  eapply wp_mono; [apply (wp_get_base h3 t base); simpl; by rewrite E3|]. cbn beta. intros ? h' o' (-> & -> & ->).
  wp_run. destruct (lookup_lt_is_Some_2 (pagerefs h) j) as [opr Hopr]; [by rewrite (ro_prs _ _ _ Hr)|].
  eapply wp_mono; [eapply (wp_set_pr h3 j opr); simpl; by rewrite E1|]. cbn beta.
  intros _ h' o' (-> & ->). wp_step.
  eapply wp_mono; [eapply (wp_set_base _ t base); simpl; by rewrite E3|]. cbn beta.
  intros _ h' o' (-> & ->). unfold set_allbase. wp_run. split; [done|]. simpl.
  rewrite E1, E2, E3, E4. set (pr := mkPageref _ _ _ _ _).
  assert (page_ok (kmem h3) pr i) as Hok.
  { destruct (pab_split pa (Z.of_nat t)) as (_ & _ & Epab);
      [lia|unfold PAGE_SIZE; lia|done|unfold PAGE_SIZE; lia|].
    unfold page_ok, i, pr; cbn [pi_addr pi_type pi_free pageaddr_and_blocktype nfree freelist_offset].
    rewrite desc_length, desc_head. repeat (split; [try done|]).
    - unfold u16. rewrite Z.mod_small; lia.
    - cbn [from_option id]. lia.
    - by apply desc_nodup; lia.
    - apply desc_offsets; [done|lia].
    - done. }
  split_and!.
  - by eapply (refs_ok_new h js I p3 j pr ws t base i).
  - destruct Hp3. split; simpl; [done|..].
    + intros k ik. rewrite lookup_insert. case_decide as Hjk.
      * subst k. intros [= <-]. exists pr. rewrite list_lookup_insert_eq by (rewrite (ro_prs _ _ _ Hr); lia).
        done.
      * intros Hk. destruct (po_page0 k ik Hk) as (pk & Hpk & Hok').
        exists pk. rewrite list_lookup_insert_ne by done. simpl in Hpk. rewrite E1 in Hpk. done.
    + intros k ik. rewrite lookup_insert. case_decide as Hjk; [|by apply po_block0].
      intros [= <-]. simpl. split; [done|]. rewrite desc_length. lia.
    + intros k k' ik ik'. rewrite !lookup_insert. repeat case_decide; intros; simplify_eq/=; try done.
      * by edestruct Hno.
      * by edestruct Hno.
      * by eapply po_inj0.
  - intros b Hbb. change (kmem h3 !! b = kmem h1 !! b). rewrite Hm3 by done. unfold h2.
    rewrite kmem_with_kmem, write_at_lookup, bytes_of_length, decide_False; [done|].
    unfold PAGE_SIZE in Hbb. lia.
Qed.

(** Every offset of a fresh page is on its list: it has no live block. *)
Lemma desc_full t x :
  (t < 8)%nat → block_offset t x → x ∈ desc (Z.to_nat (blocks t - 1)) (size_of t).
Proof.
  intros Ht [Hx Hm]. destruct (size_of_cases t Ht) as (_ & _ & _ & _ & Hsb & Hs & Hb).
  apply Z.mod_divide in Hm as [q ->]; [|lia]. apply desc_elem. exists (Z.to_nat q).
  assert (0 ≤ q) by nia. assert (q < blocks t) by nia. split; [lia|]. by rewrite Z2Nat.id.
Qed.
Lemma live_new_page A I j pa t a n :
  I !! j = None → (t < 8)%nat → A !! pa = None → not_ours I pa →
  let i := mkPinfo pa t (desc (Z.to_nat (blocks t - 1)) (size_of t)) in
  live (<[pa := 1%nat]> A) (<[j := i]> I) a n ↔ live A I a n.
Proof.
  intros Hj Ht Hpa Hno i. unfold live.
  assert (live_sub (<[j := i]> I) a n ↔ live_sub I a n) as ->.
  { unfold live_sub. split.
    - intros (k & ik & o & Hk & -> & -> & Ho & Hn). rewrite lookup_insert in Hk. case_decide.
      + simplify_eq/=. destruct Hn. by apply desc_full.
      + by exists k, ik, o.
    - intros (k & ik & o & Hk & -> & -> & Ho & Hn). exists k, ik, o.
      rewrite lookup_insert_ne; [done|congruence]. }
  assert (live_big (<[pa := 1%nat]> A) (<[j := i]> I) a n ↔ live_big A I a n) as ->; [|done].
  unfold live_big. split.
  - intros (k & Hk & -> & Hn). assert (a ≠ pa) as Hne.
    { intros ->. apply (Hn j i); [apply lookup_insert_eq|done]. }
    rewrite lookup_insert_ne in Hk by done. exists k. split_and!; [done..|]. intros k' ik Hk'.
    apply (Hn k'). rewrite lookup_insert_ne; [done|congruence].
  - intros (k & Hk & -> & Hn). exists k. assert (a ≠ pa) as Hne by congruence.
    rewrite lookup_insert_ne by done. split_and!; [done..|]. intros k' ik.
    rewrite lookup_insert. case_decide; [intros [= <-]; simpl; congruence|by apply Hn].
Qed.

(** The path that takes a new page *)
Lemma fresh_page_spec h A js I t base sz o :
  state_ok h A js I → sizebases h !! t = Some base → (t < 8)%nat → sz ≤ size_of t →
  wp (pr <- allocpageref;
      match pr with
      | None => ret 0
      | Some p =>
          prpage <- on_pages (pa_alloc 1);
          if prpage =? 0 then _ <- freepageref p; ret 0
          else _ <- init_page p prpage (Z.of_nat t) (size_of t); doalloc p
      end) (λ r h' o', o' = o ∧ kmalloc_post h A I sz r h') h o.
Proof.
  intros (Hr & Hp & Hnf) Hbase Ht Hsz.
  assert (words_ok (pagerefs_inuse h)) as Hwok by (by destruct Hr).
  wp_step. unfold allocpageref. eapply wp_mono; [apply (alloc_word_spec 8 0 h o Hwok eq_refl)|].
  cbn beta. intros [j|] h1 o1 [-> Hj]; wp_run.
  2: { subst h1. split; [done|]. exists A, js, I. split_and!; [by split_and!|by intros ?|left; done]. }
  destruct Hj as (Hj & Hbit & ws & -> & Hws & Hbits).
  assert (j ∉ js) as Hnj.
  { intros Hin. apply (ro_bits _ _ _ Hr j Hj) in Hin. congruence. }
  assert (I !! j = None) as HIj.
  { apply eq_None_not_Some. by rewrite <- (ro_dom _ _ _ Hr). }
  unfold on_pages. wp_run. eapply wp_mono.
  { apply (pa_alloc_ok (kpages h) A 1); [apply Hp|lia|eapply pa_enough_one, Hp]. }
  cbn beta. intros pa p o1 (-> & [(-> & ->)|(Hpa & HA & Hown & Hoc)]).
  - wp_cond. wp_step. eapply wp_mono; [apply freepageref_spec; try done|].
    { simpl. rewrite Hbits, bool_decide_eq_true_2 by done. apply orb_true_r. }
    cbn beta. intros _ h2 o1 (-> & ws' & -> & Hws' & Hbits'). wp_run. split; [done|].
    exists A, js, I. simpl. split_and!; [|by intros ?|by left]. split_and!; [|by destruct Hp|done].
    apply (refs_ok_inuse h js I ws'); [done..|]. intros k. rewrite Hbits'. simpl. rewrite Hbits.
    case_bool_decide as Hkj; [|by rewrite orb_false_r, andb_true_r]. subst k.
    by rewrite Hbit.
  - destruct (Z.eqb_spec pa 0); [done|].
    destruct (pages_ok_alloc h A I p pa 1 Hp HA Hown Hoc) as (Hp1 & Hno & Hsb). wp_step.
    eapply wp_mono.
    { apply (init_page_spec h (<[pa := 1%nat]> A) js I ws j t base pa); try done.
      - destruct Hp1. by split.
      - apply lookup_insert_eq. }
    cbn beta zeta. set (i := mkPinfo pa t _). intros _ h2 o1 (-> & Hr2 & Hp2 & Hm2).
    assert (∀ a n', live (<[pa:=1%nat]> A) (<[j:=i]> I) a n' ↔ live A I a n') as Hnew.
    { intros a n'. by apply live_new_page. }
    destruct (desc (Z.to_nat (blocks t - 1)) (size_of t)) as [|x fl] eqn:Hdesc.
    { pose proof (desc_length (Z.to_nat (blocks t - 1)) (size_of t)) as Hl. by rewrite Hdesc in Hl. }
    eapply wp_mono; [apply (take_block_spec h2 _ _ _ j i x fl o Hr2 Hp2)|].
    + apply lookup_insert_eq.
    + done.
    + intros k ik Hk. rewrite lookup_insert_ne by done. apply Hnf.
    + cbn beta. intros r h3 o1 (-> & Hr0 & Hkm & Hnl & I' & Hst & Hlive). split; [done|].
      exists (<[pa := 1%nat]> A), (j :: js), I'. split_and!; [done| |].
      * intros a n' b Hl Hb. rewrite Hkm.
        assert (¬ (pa ≤ b < pa + PAGE_SIZE)) as Hout.
        { destruct (live_inside _ _ _ _ _ Hp Hl) as (c & k & Hc & Hc1 & Hc2 & _).
          assert (c ≠ pa) as Hne by congruence.
          assert ((<[pa:=1%nat]> A) !! c = Some k) as Hc' by by rewrite lookup_insert_ne.
          destruct (pa_disjoint _ _ _ _ _ _ Hown Hc' (lookup_insert_eq A pa 1%nat) Hne); lia. }
        rewrite Hm2 by done. by apply (Hsb a n').
      * right. split_and!; [done| |].
        -- intros n' Hl. apply (Hnl n'). by apply Hnew.
        -- exists (size_of t). split; [done|]. intros a m. by rewrite Hlive, Hnew.
Qed.

Lemma subpage_kmalloc_spec h A js I sz o :
  state_ok h A js I → 0 ≤ sz ≤ 2048 →
  wp (subpage_kmalloc sz) (λ r h' o', o' = o ∧ kmalloc_post h A I sz r h') h o.
Proof.
  intros Hst Hsz. pose proof Hst as (Hr & Hp & Hnf). unfold subpage_kmalloc. wp_step.
  eapply wp_mono; [apply blocktype_spec; lia|]. cbn beta.
  intros ? h1 o1 (-> & -> & t & -> & Ht & Hszt). wp_step. apply wp_deref.
  exists (size_of t). split; [by apply size_of_lookup|]. wp_step.
  destruct (ro_size _ _ _ Hr t Ht) as (base & Hbase & Hc).
  eapply wp_mono; [by apply wp_get_base|]. cbn beta. intros ? h1 o1 (-> & -> & ->). wp_step.
  eapply wp_mono; [eapply (find_page_spec h A I t (Z.to_nat NPAGEREFS)); [done|exact Hc| |]|].
  - assert (length (filter (of_type I t) js) ≤ length js)%nat by apply length_filter.
    assert (length js ≤ 256)%nat; [|change (Z.to_nat NPAGEREFS) with 256%nat; lia].
    rewrite <- (length_seq 256 0). apply submseteq_length, NoDup_submseteq; [apply Hr|].
    intros k Hk. apply elem_of_seq. pose proof (ro_lt _ _ _ Hr k Hk). lia.
  - intros k [Hty _]%list_elem_of_filter. unfold of_type in Hty.
    destruct (I !! k) as [i|]; [|done]. exists i. by injection Hty.
  - cbn beta. intros [j|] h1 o1 (-> & -> & Hj).
    + destruct Hj as (i & x & fl & Hi & Hti & Hfree).
      eapply wp_mono; [eapply (take_block_spec h A js I j i x fl o Hr Hp Hi Hfree)|].
      { intros k ik _. apply Hnf. }
      cbn beta. intros r h2 o1 (-> & Hr0 & Hkm & Hnl & I' & Hst' & Hlive). split; [done|].
      exists A, js, I'. split_and!; [done|intros a n b _ _; by rewrite Hkm|]. right.
      split_and!; [done..|]. exists (size_of t). rewrite <- Hti. split; [by rewrite Hti|done].
    + by apply (fresh_page_spec h A js I t base).
Qed.

(** Whole pages *)
Lemma live_alloc h A I pa n a m :
  pages_ok h A I → A !! pa = None → (0 < n)%nat →
  live (<[pa := n]> A) I a m ↔ live A I a m ∨ (a = pa ∧ m = Z.of_nat n * PAGE_SIZE).
Proof.
  intros Hp Hpa Hn. unfold live, live_big.
  assert (not_ours I pa) as Hno.
  { intros j i Hi Heq. destruct (po_block _ _ _ Hp _ _ Hi) as [HA _]. by rewrite Heq, Hpa in HA. }
  split.
  - intros [Hs|(k & Hk & -> & Hka)]; [by left; left|].
    rewrite lookup_insert in Hk. case_decide; [simplify_eq; by right|]. left. right. by exists k.
  - intros [[Hs|(k & Hk & -> & Hka)]|(-> & ->)]; [by left|right..].
    + exists k. rewrite lookup_insert_ne by congruence. done.
    + exists n. by rewrite lookup_insert_eq.
Qed.

(** The number of pages of a large block *)
Definition pages_for (sz : Z) : nat := Z.to_nat ((sz + PAGE_SIZE - 1) / PAGE_SIZE).

Lemma kmalloc_spec h A js I sz o :
  state_ok h A js I → 0 ≤ sz → sz + PAGE_SIZE ≤ 2 ^ 32 →
  (LARGEST_SUBPAGE_SIZE ≤ sz → pa_enough (kpages h) (pages_for sz)) →
  wp (kmalloc sz) (λ r h' o', o' = o ∧ kmalloc_post h A I sz r h') h o.
Proof.
  intros Hst Hsz Hov Hen. unfold kmalloc. destruct (Z.leb_spec LARGEST_SUBPAGE_SIZE sz) as [Hbig|Hsmall].
  2: { apply subpage_kmalloc_spec with js; [done|]. unfold LARGEST_SUBPAGE_SIZE in *. lia. }
  pose proof Hst as (Hr & Hp & Hnf). specialize (Hen Hbig).
  unfold LARGEST_SUBPAGE_SIZE, PAGE_SIZE in *. cbn zeta.
  assert (u32 (u32 (sz + 4096) - 1) / 4096 = Z.of_nat (pages_for sz)) as ->.
  { unfold pages_for, PAGE_SIZE. rewrite Z2Nat.id by (apply Z.div_pos; lia). f_equal.
    destruct (decide (sz + 4096 = 2 ^ 32)) as [He|].
    - replace (sz + 4096 - 1) with (2 ^ 32 - 1) by lia. rewrite He. done.
    - rewrite (u32_small (sz + 4096)), u32_small; lia. }
  assert (0 < Z.of_nat (pages_for sz) ≤ 2 ^ 20) as Hn.
  { unfold pages_for, PAGE_SIZE. rewrite Z2Nat.id by (apply Z.div_pos; lia). split.
    - apply Z.div_str_pos. lia.
    - apply Z.div_le_upper_bound; lia. }
  unfold on_pages. wp_run.
  eapply wp_mono; [apply (pa_alloc_ok (kpages h) A (pages_for sz)); [apply Hp|done..]|].
  cbn beta. intros r p o' (-> & [(-> & ->)|(Hr0 & HA & Hown & Hoc)]); (split; [done|]).
  - change (kmalloc_post h A I sz 0 (with_pages h (kpages h))). rewrite with_pages_id.
    exists A, js, I. split_and!; [done|by intros ?|by left].
  - destruct (pages_ok_alloc h A I p r _ Hp HA Hown Hoc) as (Hp1 & Hno & Hsb).
    exists (<[r := pages_for sz]> A), js, I. split_and!; [|done|].
    + split; [by apply refs_ok_pages|done].
    + right. split; [done|]. split.
      * intros n Hl. destruct (live_inside _ _ _ _ _ Hp Hl) as (b & k & Hb & H1 & H2 & H3).
        assert (b ≠ r) as Hne by congruence.
        assert ((<[r:=pages_for sz]> A) !! b = Some k) as Hb' by by rewrite lookup_insert_ne.
        destruct (pa_disjoint _ _ _ _ _ _ Hown Hb' (lookup_insert_eq A r (pages_for sz)) Hne);
          unfold PAGE_SIZE in *; lia.
      * exists (Z.of_nat (pages_for sz) * PAGE_SIZE). split.
        -- unfold pages_for, PAGE_SIZE. rewrite Z2Nat.id by (apply Z.div_pos; lia).
           pose proof (Z.div_mod (sz + 4096 - 1) 4096 ltac:(lia)).
           pose proof (Z.mod_pos_bound (sz + 4096 - 1) 4096 ltac:(lia)). lia.
        -- intros a m. apply (live_alloc h); [done..|lia].
Qed.

(** ** kfree *)
Lemma find_owner_spec h A I ptr fuel p ks o :
  pages_ok h A I → pl_chain next_all (pagerefs h) p ks → (length ks ≤ fuel)%nat →
  (∀ k, k ∈ ks → is_Some (I !! k)) →
  wp (find_owner fuel ptr p) (λ r h' o', h' = h ∧ o' = o ∧
    match r with
    | None => ∀ k i, k ∈ ks → I !! k = Some i → ¬ (pi_addr i ≤ ptr < pi_addr i + PAGE_SIZE)
    | Some (j, pa, t) => ∃ i, I !! j = Some i ∧ pa = pi_addr i ∧ t = Z.of_nat (pi_type i) ∧
        pa ≤ ptr < pa + PAGE_SIZE
    end) h o.
Proof.
  intros Hp. revert fuel p. induction ks as [|k ks IH]; intros fuel p Hc Hf Hty.
  { simpl in Hc. subst p. destruct fuel; simpl; wp_run; (split_and!; [done..|set_solver]). }
  destruct Hc as (-> & pr & Hpr & Hc). destruct (Hty k ltac:(set_solver)) as (i & Hi).
  destruct (page_lookup _ _ _ _ _ Hp Hi) as (pr' & Hpr' & Hok & Hpa & Hpt). simplify_eq.
  destruct Hok as (Ht & _). simpl in Hf. destruct fuel as [|fuel]; [lia|]. cbn [find_owner]. wp_step.
  eapply wp_mono; [by apply wp_get_pr|]. cbn beta. intros ? h' o' (-> & -> & ->).
  cbn zeta. rewrite Hpa, Hpt. unfold NSIZES. wp_step. wp_step; [lia|].
  destruct (page_bounds _ _ _ _ _ Hp Hi) as (B1 & _ & B2 & _). unfold USERTOP, MIPS_KSEG0 in B1.
  rewrite u32_small by (unfold PAGE_SIZE in *; lia).
  destruct (Z.leb_spec (pi_addr i) ptr), (Z.ltb_spec ptr (pi_addr i + PAGE_SIZE)); cbn [andb].
  1: { wp_run. split_and!; [done..|]. exists i. split_and!; [done..|lia|lia]. }
  all: eapply wp_mono; [apply IH; [done|lia|set_solver]|]; cbn beta;
    intros r h' o' (-> & -> & Hres); split_and!; [done..|];
    destruct r as [[[j pa] t]|]; [done|];
    intros k' i' [->|Hk']%elem_of_cons Hi'; [simplify_eq; lia|by eapply Hres].
Qed.

(** Writing inside of a block that is not free *)
Lemma pages_ok_write_block h A I j i o b bs :
  pages_ok h A I → I !! j = Some i → block_offset (pi_type i) o → o ∉ pi_free i →
  pi_addr i + o ≤ b → b + Z.of_nat (length bs) ≤ pi_addr i + o + size_of (pi_type i) →
  pages_ok (with_kmem h (write_at (kmem h) b bs)) A I.
Proof.
  intros Hp Hi Ho Hn Hb Hbl. pose proof (page_type _ _ _ _ _ Hp Hi) as Ht.
  pose proof (block_offset_end _ _ Ht Ho) as Hend. pose proof Ho as [Hor _].
  destruct (po_block _ _ _ Hp _ _ Hi) as [HA _].
  eapply (pages_ok_write h A I (pi_addr i) 1); [done..|lia|lia|].
  intros k ik o' Hk Ho'. destruct (free_offset_range _ _ _ _ _ o' Hp Hk Ho') as (Htk & Hok & Hr).
  destruct (decide (k = j)) as [->|Hne].
  - simplify_eq. destruct (size_of_cases _ Ht) as (_ & _ & _ & _ & _ & ? & _).
    destruct (block_offset_disjoint _ o o' Ht Ho Hok); [set_solver|lia..].
  - assert (pi_addr i ≠ pi_addr ik) as Hadr.
    { intros Heq. apply Hne. symmetry. by apply (po_inj _ _ _ Hp _ _ _ _ Hi Hk). }
    destruct (pages_disjoint _ _ _ _ _ _ _ Hp Hk HA Hadr); unfold PAGE_SIZE in *; lia.
Qed.

Lemma store_block_spec h A I j i o b x or :
  pages_ok h A I → I !! j = Some i → block_offset (pi_type i) o → o ∉ pi_free i →
  pi_addr i + o ≤ b → b + 4 ≤ pi_addr i + o + size_of (pi_type i) →
  wp (on_mem (store_word b x)) (λ _ h' o', o' = or ∧
    h' = with_kmem h (write_at (kmem h) b (bytes_of x)) ∧ pages_ok h' A I) h or.
Proof.
  intros Hp Hi Ho Hn Hb Hbl. destruct (page_bounds _ _ _ _ _ Hp Hi) as (B1 & _ & B2 & B3).
  pose proof (page_type _ _ _ _ _ Hp Hi) as Ht. pose proof (block_offset_end _ _ Ht Ho) as Hend.
  pose proof Ho as [Hor _]. eapply wp_mono; [apply wp_store; [lia|]|].
  { replace b with (pi_addr i + Z.of_nat (Z.to_nat (b - pi_addr i))) by lia.
    apply (bytes_at_sub_is_Some _ _ _ _ _ B3). unfold PAGE_SIZE in *. lia. }
  cbn beta. intros _ h' o' (-> & ->). split_and!; [done..|].
  by eapply (pages_ok_write_block h A I j i o).
Qed.

Lemma fill_loop_spec A I j i o n k h or :
  pages_ok h A I → I !! j = Some i → block_offset (pi_type i) o → o ∉ pi_free i →
  (Z.of_nat k + Z.of_nat n) * 4 ≤ size_of (pi_type i) →
  wp (kfor n (Z.of_nat k) (λ q, on_mem (store_word (u32 (pi_addr i + o + q * 4)) 0xdeadbeef)))
    (λ _ h' o', o' = or ∧ ∃ p, h' = with_pages h p ∧ pages_ok h' A I ∧
      ∀ b, ¬ (pi_addr i + o ≤ b < pi_addr i + o + size_of (pi_type i)) → kmem h' !! b = kmem h !! b) h or.
Proof.
  revert k h. induction n as [|n IH]; intros k h Hp Hi Ho Hn Hk; cbn [kfor].
  { wp_run. split; [done|]. exists (kpages h). by rewrite with_pages_id. }
  destruct (page_bounds _ _ _ _ _ Hp Hi) as (B1 & _ & B2 & _). unfold USERTOP, MIPS_KSEG0 in B1.
  pose proof (page_type _ _ _ _ _ Hp Hi) as Ht. pose proof (block_offset_end _ _ Ht Ho) as Hend.
  pose proof Ho as [Hor _]. wp_step. rewrite u32_small by lia.
  eapply wp_mono; [apply (store_block_spec h A I j i o); try done; lia|]. cbn beta.
  intros _ h' o' (-> & -> & Hp'). set (h1 := with_kmem _ _) in *.
  replace (Z.of_nat k + 1) with (Z.of_nat (S k)) by lia.
  eapply wp_mono; [apply IH; try done; lia|]. cbn beta.
  intros _ h' o' (-> & p & -> & Hp'' & Hm). split; [done|]. exists p. split_and!; [done..|].
  intros b Hb. rewrite Hm by done. unfold h1. rewrite kmem_with_kmem, write_at_lookup.
  rewrite bytes_of_length, decide_False; [done|lia].
Qed.
Lemma fill_deadbeef_spec A I j i o h or :
  pages_ok h A I → I !! j = Some i → block_offset (pi_type i) o → o ∉ pi_free i →
  wp (fill_deadbeef (pi_addr i + o) (size_of (pi_type i)))
    (λ _ h' o', o' = or ∧ ∃ p, h' = with_pages h p ∧ pages_ok h' A I ∧
      ∀ b, ¬ (pi_addr i + o ≤ b < pi_addr i + o + size_of (pi_type i)) → kmem h' !! b = kmem h !! b) h or.
Proof.
  intros Hp Hi Ho Hn. apply (fill_loop_spec A I j i o _ 0); try done.
  pose proof (page_type _ _ _ _ _ Hp Hi) as Ht.
  destruct (size_of_cases _ Ht) as (_ & _ & _ & _ & _ & ? & _).
  pose proof (Z.div_mod (size_of (pi_type i)) 4 ltac:(lia)).
  pose proof (Z.mod_pos_bound (size_of (pi_type i)) 4 ltac:(lia)).
  rewrite Z2Nat.id by (apply Z.div_pos; lia). lia.
Qed.

(** *** Taking a page reference off its lists *)
Lemma pl_chain_unlink f prs p ks1 j ks2 r :
  pl_chain f prs p (ks1 ++ j :: ks2) → NoDup (ks1 ++ j :: ks2) → prs !! j = Some r →
  match last ks1 with
  | None => ks1 = [] ∧ pl_chain f prs (f r) ks2
  | Some q => q ∈ ks1 ∧ ∃ pq, prs !! q = Some pq ∧
      ∀ pq', f pq' = f r → pl_chain f (<[q := pq']> prs) p (ks1 ++ ks2)
  end.
Proof.
  intros Hc Hnd Hr. destruct (last ks1) as [q|] eqn:Hl.
  - apply last_Some in Hl as [l ->]. split; [set_solver|].
    rewrite <- app_assoc in Hc, Hnd. simpl in Hc, Hnd.
    destruct (pl_chain_lookup _ _ _ _ q Hc) as [pq Hq]; [set_solver|].
    exists pq. split; [done|]. intros pq' Hf. rewrite <- app_assoc. simpl.
    by eapply pl_chain_remove.
  - apply last_None in Hl as ->. simpl in Hc. destruct Hc as (-> & pr & Hpr & Hc). by simplify_eq.
Qed.

(** What unlinking leaves alone: the pages, and the other list *)
Definition same_page (pr pr' : pageref) : Prop :=
  pageaddr_and_blocktype pr' = pageaddr_and_blocktype pr ∧
  freelist_offset pr' = freelist_offset pr ∧ nfree pr' = nfree pr.
Definition relinked (f : pageref → option nat) (ks : list nat) (prs prs' : list pageref) : Prop :=
  length prs' = length prs ∧
  ∀ k pr, prs !! k = Some pr → ∃ pr', prs' !! k = Some pr' ∧ same_page pr pr' ∧ f pr' = f pr ∧
    (k ∉ ks → pr' = pr).
Lemma relinked_refl f ks prs : relinked f ks prs prs.
Proof. split; [done|]. intros k pr Hk. by exists pr. Qed.
Lemma relinked_insert f ks prs q pq pq' :
  prs !! q = Some pq → same_page pq pq' → f pq' = f pq → q ∈ ks → relinked f ks prs (<[q := pq']> prs).
Proof.
  intros Hq Hs Hf Hin. split; [apply length_insert|]. intros k pr Hk.
  destruct (decide (k = q)) as [->|Hne].
  - exists pq'. rewrite list_lookup_insert_eq by (by eapply lookup_lt_Some). simplify_eq.
    split_and!; done.
  - exists pr. by rewrite list_lookup_insert_ne.
Qed.

Lemma unlink_samesize_spec h t base ks1 j ks2 r o :
  sizebases h !! t = Some base → pl_chain next_samesize (pagerefs h) base (ks1 ++ j :: ks2) →
  NoDup (ks1 ++ j :: ks2) → (length ks1 ≤ 256)%nat → pagerefs h !! j = Some r →
  wp (unlink (Z.to_nat NPAGEREFS) (get_base (Z.of_nat t)) next_samesize (write_samesize (Z.of_nat t)) j None)
    (λ _ h' o', o' = o ∧ ∃ prs' base',
      h' = mkKheap (kpages h) prs' (pagerefs_inuse h) (<[t := base']> (sizebases h)) (allbase h) ∧
      pl_chain next_samesize prs' base' (ks1 ++ ks2) ∧ relinked next_all ks1 (pagerefs h) prs') h o.
Proof.
  intros Hb Hc Hnd Hl Hr. unfold wp.
  assert (read_guy (get_base (Z.of_nat t)) next_samesize None h o = Done (base, h, o)) as Hg.
  { cbn [read_guy]. unfold get_base, bind, kget. by rewrite zlookup_nat, Hb. }
  rewrite (unlink_eq _ _ _ _ r ks2 _ h o ks1 None base Hg Hc); [|by apply NoDup_app in Hnd; set_solver|done|done].
  pose proof (pl_chain_unlink _ _ _ _ _ _ _ Hc Hnd Hr) as Hu. destruct (last ks1) as [q|].
  - destruct Hu as (Hq & pq & Hpq & Hu). cbn [write_samesize].
    change (wp (r0 <- get_pr q; set_pr q (mkPageref (next_samesize r) (next_all r0)
      (pageaddr_and_blocktype r0) (freelist_offset r0) (nfree r0))) (λ _ h' o', o' = o ∧ ∃ prs' base',
      h' = mkKheap (kpages h) prs' (pagerefs_inuse h) (<[t := base']> (sizebases h)) (allbase h) ∧
      pl_chain next_samesize prs' base' (ks1 ++ ks2) ∧ relinked next_all ks1 (pagerefs h) prs') h o).
    wp_step. eapply wp_mono; [by apply wp_get_pr|]. cbn beta. intros ? h' o' (-> & -> & ->).
    eapply wp_mono; [by eapply wp_set_pr|]. cbn beta. intros _ h' o' (-> & ->). split; [done|].
    eexists _, base. split_and!; [by rewrite (list_insert_id _ _ _ Hb)|by apply Hu|by eapply relinked_insert].
  - destruct Hu as [-> Hu]. cbn [write_samesize].
    pose proof (wp_set_base h t base (next_samesize r) o Hb) as Hw. unfold wp in Hw.
    destruct (set_base _ _ h o) as [[[[] h'] o']|]; [|done]. destruct Hw as [-> ->].
    split; [done|]. eexists _, _. split_and!; [done..|apply relinked_refl].
Qed.

Lemma unlink_all_spec h ks1 j ks2 r o :
  pl_chain next_all (pagerefs h) (allbase h) (ks1 ++ j :: ks2) →
  NoDup (ks1 ++ j :: ks2) → (length ks1 ≤ 256)%nat → pagerefs h !! j = Some r →
  wp (unlink (Z.to_nat NPAGEREFS) (gets allbase) next_all write_all j None)
    (λ _ h' o', o' = o ∧ ∃ prs' base',
      h' = mkKheap (kpages h) prs' (pagerefs_inuse h) (sizebases h) base' ∧
      pl_chain next_all prs' base' (ks1 ++ ks2) ∧ relinked next_samesize ks1 (pagerefs h) prs') h o.
Proof.
  intros Hc Hnd Hl Hr. unfold wp.
  rewrite (unlink_eq _ _ _ _ r ks2 _ h o ks1 None (allbase h) eq_refl Hc);
    [|by apply NoDup_app in Hnd; set_solver|done|done].
  pose proof (pl_chain_unlink _ _ _ _ _ _ _ Hc Hnd Hr) as Hu. destruct (last ks1) as [q|].
  - destruct Hu as (Hq & pq & Hpq & Hu). cbn [write_all].
    change (wp (r0 <- get_pr q; set_pr q (mkPageref (next_samesize r0) (next_all r)
      (pageaddr_and_blocktype r0) (freelist_offset r0) (nfree r0))) (λ _ h' o', o' = o ∧ ∃ prs' base',
      h' = mkKheap (kpages h) prs' (pagerefs_inuse h) (sizebases h) base' ∧
      pl_chain next_all prs' base' (ks1 ++ ks2) ∧ relinked next_samesize ks1 (pagerefs h) prs') h o).
    wp_step. eapply wp_mono; [by apply wp_get_pr|]. cbn beta. intros ? h' o' (-> & -> & ->).
    eapply wp_mono; [by eapply wp_set_pr|]. cbn beta. intros _ h' o' (-> & ->). split; [done|].
    eexists _, (allbase h). split_and!; [done|by apply Hu|by eapply relinked_insert].
  - destruct Hu as [-> Hu]. cbn [write_all]. unfold set_allbase, modify. split; [done|].
    eexists _, _. split_and!; [done..|apply relinked_refl].
Qed.

Lemma relinked_chain f ks prs prs' p js :
  relinked f ks prs prs' → pl_chain f prs p js → pl_chain f prs' p js.
Proof.
  intros [_ Hrel]. apply pl_chain_ext. intros k pr _ Hk.
  destruct (Hrel k pr Hk) as (pr' & Hk' & _ & Hf & _). eauto.
Qed.
Lemma relinked_chain_off f f' ks prs prs' p js :
  relinked f ks prs prs' → (∀ k, k ∈ js → k ∉ ks) → pl_chain f' prs p js → pl_chain f' prs' p js.
Proof.
  intros [_ Hrel] Hoff. apply pl_chain_ext. intros k pr Hin Hk.
  destruct (Hrel k pr Hk) as (pr' & Hk' & _ & _ & Heq). exists pr'. split; [done|].
  by rewrite Heq by by apply Hoff.
Qed.

(** Both lists are left without [j]. *)
Definition lists_without (h h' : kheap (P := P)) (js : list nat) (I : gmap nat pinfo) : Prop :=
  length (pagerefs h') = length (pagerefs h) ∧ length (sizebases h') = length (sizebases h) ∧
  (∀ k pr, pagerefs h !! k = Some pr → ∃ pr', pagerefs h' !! k = Some pr' ∧ same_page pr pr') ∧
  pl_chain next_all (pagerefs h') (allbase h') js ∧
  ∀ t, (t < 8)%nat → ∃ base, sizebases h' !! t = Some base ∧
    pl_chain next_samesize (pagerefs h') base (filter (of_type I t) js).

Lemma remove_lists_spec h js I j i o :
  refs_ok h js I → I !! j = Some i → (pi_type i < 8)%nat →
  wp (remove_lists j (Z.of_nat (pi_type i))) (λ _ h' o', o' = o ∧
    kpages h' = kpages h ∧ pagerefs_inuse h' = pagerefs_inuse h ∧
    ∃ js1 js2, js = js1 ++ j :: js2 ∧ lists_without h h' (js1 ++ js2) I) h o.
Proof.
  intros Hr Hi Ht. assert (j ∈ js) as Hj by (apply (ro_dom _ _ _ Hr); eauto).
  apply list_elem_of_split in Hj as (js1 & js2 & ->). pose proof (ro_nodup _ _ _ Hr) as Hnd.
  assert (length (js1 ++ j :: js2) ≤ 256)%nat as Hlen.
  { rewrite <- (length_seq 256 0). apply submseteq_length, NoDup_submseteq; [done|].
    intros k Hk. apply elem_of_seq. pose proof (ro_lt _ _ _ Hr k Hk). lia. }
  rewrite length_app in Hlen. simpl in Hlen.
  destruct (ro_size _ _ _ Hr _ Ht) as (base & Hb & Hc).
  rewrite filter_app, filter_cons, decide_True in Hc by (unfold of_type; by rewrite Hi).
  set (t := pi_type i) in *. set (ks1 := filter (of_type I t) js1) in *.
  set (ks2 := filter (of_type I t) js2) in *.
  assert (NoDup (ks1 ++ j :: ks2)) as Hndk.
  { assert (ks1 ++ j :: ks2 = filter (of_type I t) (js1 ++ j :: js2)) as ->.
    { rewrite filter_app, filter_cons, decide_True; [done|]. unfold of_type. by rewrite Hi. }
    by apply NoDup_filter. }
  destruct (pl_chain_lookup _ _ _ _ j (ro_all _ _ _ Hr)) as [r Hpr]; [set_solver|].
  unfold remove_lists, NSIZES. wp_step. wp_step; [lia|]. wp_step.
  eapply wp_mono; [eapply (unlink_samesize_spec h t base ks1 j ks2 r); try done|].
  { assert (length ks1 ≤ length js1)%nat by apply length_filter. lia. }
  cbn beta. intros _ h1 o' (-> & prs1 & base1 & -> & Hc1 & Hrel1).
  pose proof Hrel1 as [Hl1 Hk1]. destruct (Hk1 j r Hpr) as (r1 & Hpr1 & _ & Hna & _).
  eapply wp_mono; [eapply (unlink_all_spec _ js1 j js2 r1); simpl; try done; [|lia]|].
  { eapply relinked_chain; [done|apply Hr]. }
  cbn beta. intros _ h2 o' (-> & prs2 & ab & -> & Hc2 & Hrel2). simpl in *.
  split_and!; [done..|]. exists js1, js2. split; [done|]. pose proof Hrel2 as [Hl2 Hk2].
  split; simpl; [lia|]. split; [by rewrite length_insert|]. split_and!.
  - intros k pr Hk. destruct (Hk1 k pr Hk) as (pr1 & E1 & (S1 & S2 & S3) & _).
    destruct (Hk2 k pr1 E1) as (pr2 & E2 & (S1' & S2' & S3') & _).
    exists pr2. split; [done|]. split_and!; congruence.
  - done.
  - intros t' Ht'. destruct (decide (t' = t)) as [->|Hne].
    + exists base1. rewrite list_lookup_insert_eq by (rewrite (ro_bases _ _ _ Hr); lia).
      split; [done|]. rewrite filter_app. by eapply relinked_chain.
    + destruct (ro_size _ _ _ Hr _ Ht') as (b' & Hb' & Hc'). exists b'.
      rewrite list_lookup_insert_ne by done. split; [done|]. eapply relinked_chain; [done|].
      rewrite filter_app, filter_cons, decide_False in Hc'
        by (unfold of_type; rewrite Hi; simpl; unfold t in *; congruence).
      rewrite filter_app. eapply (relinked_chain_off next_all next_samesize ks1); [done| |done].
      intros k Hk Hk'. apply list_elem_of_filter in Hk' as [Hk' _].
      rewrite elem_of_app, !list_elem_of_filter in Hk. unfold of_type in *. naive_solver.
Qed.

Lemma refs_ok_delete h h' js1 j js2 I p ws :
  refs_ok h (js1 ++ j :: js2) I → lists_without h h' (js1 ++ js2) I → words_ok ws →
  (∀ k, inuse_bit ws k = inuse_bit (pagerefs_inuse h) k && negb (bool_decide (k = j))) →
  refs_ok (mkKheap p (pagerefs h') ws (sizebases h') (allbase h')) (js1 ++ js2) (delete j I).
Proof.
  intros Hr (Hl1 & Hl2 & Hsame & Hall & Hsz) [Hwl Hwf] Hbits. pose proof Hr as [].
  assert (j ∉ js1 ++ js2) as Hnj.
  { apply NoDup_app in ro_nodup0 as (_ & H1 & H2). apply NoDup_cons in H2 as [H2 _]. set_solver. }
  split; simpl; try done.
  - congruence.
  - congruence.
  - apply NoDup_app in ro_nodup0 as (H0 & H1 & H2). apply NoDup_cons in H2 as [H2 H3].
    apply NoDup_app. split_and!; [done| |done]. intros k Hk. set_solver.
  - intros k. destruct (decide (k = j)) as [->|Hne].
    + rewrite lookup_delete_eq. split; [done|by intros []].
    + rewrite lookup_delete_ne, <- ro_dom0 by done. set_solver.
  - intros k Hk. apply ro_lt0. set_solver.
  - intros k Hk. rewrite Hbits, andb_true_iff, negb_true_iff, bool_decide_eq_false, ro_bits0 by done.
    set_solver.
  - intros t Ht. destruct (Hsz t Ht) as (base & Hb & Hc). exists base. split; [done|].
    assert (filter (of_type (delete j I) t) (js1 ++ js2) = filter (of_type I t) (js1 ++ js2)) as ->; [|done].
    clear -Hnj. induction (js1 ++ js2) as [|k ks IH]; [done|]. rewrite !filter_cons.
    assert (of_type (delete j I) t k ↔ of_type I t k) as Hiff.
    { unfold of_type. rewrite lookup_delete_ne; [done|set_solver]. }
    rewrite IH by set_solver. repeat case_decide; tauto.
Qed.

Lemma pages_ok_delete h h' A I j i p ws js :
  pages_ok h A I → I !! j = Some i → lists_without h h' js I →
  pa_owned p (delete (pi_addr i) A) → pa_machine p = pa_machine (kpages h) →
  pages_ok (mkKheap p (pagerefs h') ws (sizebases h') (allbase h')) (delete (pi_addr i) A) (delete j I).
Proof.
  intros [] Hi (_ & _ & Hsame & _) Hown Hm. split; simpl; [done|..].
  - intros k ik Hk. apply lookup_delete_Some in Hk as [Hne Hk].
    destruct (po_page0 k ik Hk) as (pr & Hpr & Hok). destruct (Hsame k pr Hpr) as (pr' & Hpr' & S1 & S2 & S3).
    exists pr'. split; [done|]. unfold page_ok, kmem in *. simpl. rewrite S1, S2, S3, Hm. done.
  - intros k ik Hk. apply lookup_delete_Some in Hk as [Hne Hk].
    destruct (po_block0 k ik Hk) as [HA Hl]. split; [|done].
    rewrite lookup_delete_ne; [done|]. intros Heq. by apply Hne, (po_inj0 j k i ik).
  - intros k k' ik ik' Hk Hk'. apply lookup_delete_Some in Hk as [_ Hk], Hk' as [_ Hk']. by eapply po_inj0.
Qed.

(** *** Giving a block back *)
Lemma live_sub_give h A I j i o a n :
  pages_ok h A I → I !! j = Some i → block_offset (pi_type i) o → o ∉ pi_free i →
  live_sub (<[j := mkPinfo (pi_addr i) (pi_type i) (o :: pi_free i)]> I) a n ↔
  live_sub I a n ∧ a ≠ pi_addr i + o.
Proof.
  intros Hp Hi Ho Hn. pose proof (page_type _ _ _ _ _ Hp Hi) as Ht.
  destruct (size_of_cases _ Ht) as (_ & _ & _ & _ & _ & Hs & _).
  assert (live_sub I (pi_addr i + o) (size_of (pi_type i))) as Hlo by by exists j, i, o.
  split.
  - intros (k & ik & o' & Hk & -> & -> & Ho' & Hn'). rewrite lookup_insert in Hk. case_decide as Hjk.
    + simplify_eq/=. apply not_elem_of_cons in Hn' as [? ?]. split; [by exists k, i, o'|lia].
    + assert (live_sub I (pi_addr ik + o') (size_of (pi_type ik))) as Hl' by by exists k, ik, o'.
      split; [done|]. intros Heq. destruct Ho as [Ho _], Ho' as [Ho' _].
      assert (pi_addr i ≠ pi_addr ik) as Hne by (intros ?; by apply Hjk, (po_inj _ _ _ Hp j k i ik)).
      destruct (po_block _ _ _ Hp _ _ Hi) as [HA _].
      destruct (pages_disjoint _ _ _ _ _ _ _ Hp Hk HA Hne); lia.
  - intros [(k & ik & o' & Hk & -> & -> & Ho' & Hn') Hne]. destruct (decide (j = k)) as [->|Hjk].
    + simplify_eq. eexists k, _, o'. rewrite lookup_insert_eq. split_and!; [done..|].
      simpl. apply not_elem_of_cons. split; [by intros ->|done].
    + exists k, ik, o'. by rewrite lookup_insert_ne.
Qed.
Lemma live_give h A I j i o a n :
  pages_ok h A I → I !! j = Some i → block_offset (pi_type i) o → o ∉ pi_free i →
  live A (<[j := mkPinfo (pi_addr i) (pi_type i) (o :: pi_free i)]> I) a n ↔
  live A I a n ∧ a ≠ pi_addr i + o.
Proof.
  intros Hp Hi Ho Hn. unfold live. rewrite (live_sub_give h A) by done.
  assert (live_big A (<[j:=mkPinfo (pi_addr i) (pi_type i) (o :: pi_free i)]> I) a n ↔ live_big A I a n) as ->.
  { unfold live_big. by setoid_rewrite (not_ours_update I j i). }
  split; [|tauto]. intros [?|Hb]; [tauto|]. split; [by right|]. intros ->.
  assert (live_sub I (pi_addr i + o) (size_of (pi_type i))) as Hlo by by exists j, i, o.
  destruct Hb as (k & Hk & -> & Hno). assert (pi_addr i + o ≠ pi_addr i) as Hne.
  { intros Heq. by apply (Hno j i). }
  destruct (pages_disjoint _ _ _ _ _ _ _ Hp Hi Hk Hne) as [?|?].
  - destruct Ho as [? _]. destruct (pa_block _ _ _ _ (po_owned _ _ _ Hp) Hk) as (_ & _ & ? & _).
    unfold PAGE_SIZE in *. lia.
  - destruct Ho as [? _]. lia.
Qed.

(** A page whose blocks are all free has no live block. *)
Lemma all_free h A I j i o :
  pages_ok h A I → I !! j = Some i → Z.of_nat (length (pi_free i)) = blocks (pi_type i) →
  block_offset (pi_type i) o → o ∈ pi_free i.
Proof.
  intros Hp Hi Hl Ho. destruct (po_page _ _ _ Hp j i Hi) as (pr & _ & Ht & _ & _ & _ & Hnd & Hfl & _).
  destruct (size_of_cases _ Ht) as (_ & _ & _ & _ & _ & _ & Hb).
  assert (pi_free i ≡ₚ desc (Z.to_nat (blocks (pi_type i) - 1)) (size_of (pi_type i))) as ->.
  { apply submseteq_length_Permutation.
    - apply NoDup_submseteq; [done|]. intros x Hx. rewrite Forall_forall in Hfl. apply desc_full; auto.
    - rewrite desc_length. lia. }
  by apply desc_full.
Qed.
Lemma live_release h A I j i a n :
  pages_ok h A I → I !! j = Some i → Z.of_nat (length (pi_free i)) = blocks (pi_type i) →
  live (delete (pi_addr i) A) (delete j I) a n ↔ live A I a n.
Proof.
  intros Hp Hi Hl. unfold live.
  assert (live_sub (delete j I) a n ↔ live_sub I a n) as ->.
  { unfold live_sub. split; intros (k & ik & o & Hk & -> & -> & Ho & Hn).
    - apply lookup_delete_Some in Hk as [_ Hk]. by exists k, ik, o.
    - exists k, ik, o. rewrite lookup_delete_ne; [done|]. intros ->. simplify_eq.
      destruct Hn. by eapply all_free. }
  assert (live_big (delete (pi_addr i) A) (delete j I) a n ↔ live_big A I a n) as ->; [|done].
  unfold live_big. split; intros (k & Hk & -> & Hn); exists k.
  - apply lookup_delete_Some in Hk as [Hne Hk]. split_and!; [done..|]. intros k' ik Hk'.
    destruct (decide (k' = j)) as [->|]; [by simplify_eq|]. apply (Hn k'). by rewrite lookup_delete_ne.
  - assert (pi_addr i ≠ a) as Hne by by apply (Hn j). rewrite lookup_delete_ne by done.
    split_and!; [done..|]. intros k' ik Hk'. apply lookup_delete_Some in Hk' as [_ Hk']. by apply (Hn k').
Qed.
Lemma live_free_big h A I pa k a n :
  pages_ok h A I → A !! pa = Some k → not_ours I pa →
  live (delete pa A) I a n ↔ live A I a n ∧ a ≠ pa.
Proof.
  intros Hp Hk Hno. unfold live.
  assert (live_sub I a n → a ≠ pa) as Hsub.
  { intros Hs ->. destruct (live_sub_page _ _ _ _ _ Hp Hs) as (j & i & Hi & ? & ? & ?).
    assert (pa ≠ pi_addr i) as Hne by (intros ->; by eapply Hno).
    destruct (pa_block _ _ _ _ (po_owned _ _ _ Hp) Hk) as (_ & _ & ? & _).
    destruct (pages_disjoint _ _ _ _ _ _ _ Hp Hi Hk Hne); unfold PAGE_SIZE in *; lia. }
  split.
  - intros [Hs|(k' & Hk' & -> & Hn)]; [by split; [left|auto]|].
    apply lookup_delete_Some in Hk' as [? Hk']. split; [|done]. right. by exists k'.
  - intros [[Hs|(k' & Hk' & -> & Hn)] Hne]; [by left|]. right. exists k'.
    by rewrite lookup_delete_ne.
Qed.

(** [h'] has the live blocks of [h] but the one at [a]. *)
Definition kfree_post h A I (a : Z) h' : Prop :=
  ∃ A' js' I', state_ok h' A' js' I' ∧ same_bytes A' I' h h' ∧
    ∀ b n, live A' I' b n ↔ live A I b n ∧ b ≠ a.

(** The page keeps a live block, or it is returned. *)
Definition give_back (p : nat) (prpage : Z) (blktype : Z) (n sz : Z) : K (kheap (P := P)) unit :=
  if n =? PAGE_SIZE / sz then
    _ <- remove_lists p blktype;
    _ <- on_pages (pa_free prpage);
    freepageref p
  else ret tt.
Lemma give_back_spec h A js I j i o :
  refs_ok h js I → pages_ok h A I → I !! j = Some i →
  (∀ k ik, k ≠ j → I !! k = Some ik → Z.of_nat (length (pi_free ik)) < blocks (pi_type ik)) →
  wp (give_back j (pi_addr i) (Z.of_nat (pi_type i)) (Z.of_nat (length (pi_free i))) (size_of (pi_type i)))
    (λ _ h' o', o' = o ∧ kmem h' = kmem h ∧ ∃ A' js' I', state_ok h' A' js' I' ∧
      ∀ b n, live A' I' b n ↔ live A I b n) h o.
Proof.
  intros Hr Hp Hi Hnf. unfold give_back. fold (blocks (pi_type i)).
  destruct (po_block _ _ _ Hp _ _ Hi) as [HA Hle].
  destruct (Z.eqb_spec (Z.of_nat (length (pi_free i))) (blocks (pi_type i))) as [Heq|Hne].
  - pose proof (page_type _ _ _ _ _ Hp Hi) as Ht. wp_step.
    eapply wp_mono; [by eapply remove_lists_spec|]. cbn beta.
    intros _ h1 o' (-> & E1 & E2 & js1 & js2 & -> & Hl). wp_step. unfold on_pages. wp_step.
    rewrite E1. eapply wp_mono; [by apply (pa_free_ok _ A (pi_addr i) 1); [apply Hp|]|].
    cbn beta. intros _ p o' (-> & Hown & Hm).
    assert (j < 256)%nat as Hj by (apply (ro_lt _ _ _ Hr); set_solver).
    eapply wp_mono; [apply freepageref_spec; simpl; rewrite ?E2|].
    + by destruct Hr.
    + done.
    + apply (ro_bits _ _ _ Hr); [done|set_solver].
    + cbn beta. intros _ h2 o' (-> & ws & -> & Hws & Hbits). simpl in Hbits. rewrite E2 in Hbits.
      split; [done|]. split; [unfold kmem; simpl; by rewrite Hm|].
      exists (delete (pi_addr i) A), (js1 ++ js2), (delete j I).
      unfold with_inuse. simpl. split; [split_and!|].
      * by eapply refs_ok_delete.
      * by eapply pages_ok_delete.
      * intros k ik Hk. apply lookup_delete_Some in Hk as [? Hk]. by eapply Hnf.
      * intros b n. by eapply live_release.
  - wp_run. split_and!; [done..|]. exists A, js, I. split; [|done]. split_and!; [done..|].
    intros k ik Hk. destruct (decide (k = j)) as [->|]; [simplify_eq; lia|by eapply Hnf].
Qed.

(** The free list with the block in front *)
Lemma page_ok_give g pr i o :
  page_ok g pr i → block_offset (pi_type i) o → o ∉ pi_free i →
  Z.of_nat (length (pi_free i)) < blocks (pi_type i) → USERTOP < pi_addr i → pi_addr i + PAGE_SIZE < 2 ^ 32 →
  page_ok (write_at g (pi_addr i + o)
             (bytes_of (if freelist_offset pr =? INVALID_OFFSET then 0 else u32 (pi_addr i + freelist_offset pr))))
    (mkPageref (next_samesize pr) (next_all pr) (pageaddr_and_blocktype pr) (u16 o) (u16 (nfree pr + 1)))
    (mkPinfo (pi_addr i) (pi_type i) (o :: pi_free i)).
Proof.
  intros (Ht & Hpab & Hnf & Hfo & Hnd & Hfl & Hch) Ho Hn Hlen B1 B2.
  destruct (size_of_cases _ Ht) as (_ & _ & _ & _ & _ & Hs & Hb). pose proof Ho as [Hor _].
  unfold USERTOP, MIPS_KSEG0 in B1. unfold PAGE_SIZE in B2, Hor.
  split; [done|]. split; [done|]. cbn [nfree freelist_offset pi_free pi_type pi_addr length list.head].
  split; [unfold u16; rewrite Z.mod_small; lia|].
  split; [cbn [from_option id]; unfold u16; rewrite Z.mod_small; lia|].
  split; [by constructor|]. split; [by constructor|]. cbn [fl_chain]. split.
  - assert (∀ x, x ∈ pi_free i → 0 ≤ x < 4096) as Hx.
    { intros x Hx. rewrite Forall_forall in Hfl. by destruct (Hfl x Hx). }
    destruct (pi_free i) as [|x fl] eqn:Hfree; cbn [list.head from_option id] in Hfo; rewrite Hfo.
    + by apply word_at_write_eq.
    + specialize (Hx x ltac:(apply list_elem_of_here)).
      destruct (Z.eqb_spec x INVALID_OFFSET) as [->|]; [unfold INVALID_OFFSET in Hx; lia|].
      rewrite u32_small by lia. apply word_at_write_eq. lia.
  - eapply (fl_chain_write _ _ (pi_type i) _ o); try done. rewrite bytes_of_length. lia.
Qed.

Lemma subpage_kfree_spec h A js I j i o or :
  state_ok h A js I → I !! j = Some i → block_offset (pi_type i) o → o ∉ pi_free i →
  wp (subpage_kfree (pi_addr i + o)) (λ r h' o', o' = or ∧ r = 0 ∧
    kfree_post h A I (pi_addr i + o) h') h or.
Proof.
  intros (Hr & Hp & Hnf) Hi Ho Hn. pose proof Ho as [Hor Hmod].
  pose proof (page_type _ _ _ _ _ Hp Hi) as Ht. pose proof (block_offset_end _ _ Ht Ho) as Hend.
  destruct (size_of_cases _ Ht) as (_ & _ & _ & _ & _ & Hs & Hb).
  destruct (page_bounds _ _ _ _ _ Hp Hi) as (B1 & B2 & B3 & _). pose proof B1 as B1'.
  unfold USERTOP, MIPS_KSEG0 in B1'. pose proof B3 as B3'. unfold PAGE_SIZE in B3'.
  assert (length js ≤ 256)%nat as Hlen.
  { rewrite <- (length_seq 256 0). apply submseteq_length, NoDup_submseteq; [apply Hr|].
    intros k Hk. apply elem_of_seq. pose proof (ro_lt _ _ _ Hr k Hk). lia. }
  unfold subpage_kfree. wp_step. wp_step. wp_step.
  eapply wp_mono; [eapply (find_owner_spec h A I _ _ _ js); [done|apply Hr|done|]|].
  { intros k Hk. by apply (ro_dom _ _ _ Hr). }
  cbn beta. intros [[[j' pa] t]|] h' o' (-> & -> & Hown).
  2: { exfalso. apply (Hown j i); [apply (ro_dom _ _ _ Hr); eauto|done|lia]. }
  assert (j' = j ∧ pa = pi_addr i ∧ t = Z.of_nat (pi_type i)) as (-> & -> & ->).
  { destruct Hown as (i' & Hi' & -> & -> & Hin). destruct (po_block _ _ _ Hp _ _ Hi') as [HA' _].
    destruct (decide (pi_addr i' = pi_addr i)) as [Heq|Hne].
    - assert (j' = j) as -> by by apply (po_inj _ _ _ Hp _ _ _ _ Hi' Hi). by simplify_eq.
    - destruct (pages_disjoint _ _ _ _ _ _ _ Hp Hi HA' Hne); lia. }
  clear Hown. cbn match. cbn zeta. rewrite (u32_small (pi_addr i + o - pi_addr i)) by (unfold PAGE_SIZE in *; lia).
  replace (pi_addr i + o - pi_addr i) with o by lia. rewrite size_of_lookup by done. wp_step. wp_step.
  rewrite Hmod. destruct (Z.leb_spec PAGE_SIZE o); [lia|]. rewrite Z.eqb_refl. cbn [orb negb].
  wp_step. eapply wp_mono; [by eapply (fill_deadbeef_spec A I j i o)|]. cbn beta.
  intros _ h1 o' (-> & p1 & -> & Hp1 & Hm1). set (h1 := with_pages h p1) in *.
  assert (refs_ok h1 js I) as Hr1 by by apply refs_ok_pages.
  destruct (page_lookup _ _ _ _ _ Hp1 Hi) as (pr & Hpr & Hok & Hpa & Hpt).
  wp_step. eapply wp_mono; [by apply wp_get_pr|]. cbn beta. intros ? h' o' (-> & -> & ->).
  rewrite (u32_small (pi_addr i + o)) by (unfold PAGE_SIZE in *; lia).
  wp_step. eapply wp_mono; [eapply (store_block_spec h1 A I j i o); try done; lia|]. cbn beta.
  intros _ h2 o' (-> & -> & Hp2). set (h2 := with_kmem h1 _) in *. wp_step.
  eapply wp_mono; [eapply (wp_set_pr h2 j pr); done|]. cbn beta. intros _ h' o' (-> & ->).
  set (i' := mkPinfo (pi_addr i) (pi_type i) (o :: pi_free i)).
  pose proof (Hnf j i Hi) as Hlt.
  assert (u16 (nfree pr + 1) = Z.of_nat (length (pi_free i'))) as Hn16.
  { destruct Hok as (_ & _ & -> & _). unfold u16. rewrite Z.mod_small; simpl; lia. }
  fold (blocks (pi_type i)).
  wp_step. wp_step; [rewrite Hn16; apply Z.leb_le; cbn [i' pi_free length]; clear -Hlt; lia|]. wp_step. rewrite Hn16.
  match goal with |- context[<[j := ?q]> (pagerefs h2)] => set (pr' := q) end.
  set (h3 := with_prs h2 _).
  change (wp (give_back j (pi_addr i) (Z.of_nat (pi_type i)) (Z.of_nat (length (pi_free i'))) (size_of (pi_type i)))
    (λ _ s o'0, wp (ret 0) (λ r h' o', o' = or ∧ r = 0 ∧ kfree_post h A I (pi_addr i + o) h') s o'0) h3 or).
  assert (refs_ok h3 js (<[j := i']> I)) as Hr3.
  { apply (refs_ok_update h2 js I j pr pr' i i'); [by apply refs_ok_pages|done..]. }
  assert (pages_ok h3 A (<[j := i']> I)) as Hp3.
  { eapply (pages_ok_update h2 A I j pr' i i'); try done; [by eapply lookup_lt_Some| |simpl; lia].
    unfold pr', h2. rewrite kmem_with_kmem, <- Hn16. by apply page_ok_give. }
  eapply wp_mono; [apply (give_back_spec h3 A js (<[j := i']> I) j i'); try done|].
  { by rewrite lookup_insert_eq. }
  { intros k ik Hk. rewrite lookup_insert_ne by done. apply Hnf. }
  cbn beta. intros _ h4 o' (-> & Hm4 & A' & js' & I' & Hst & Hlive). wp_run. split_and!; [done..|].
  assert (∀ b n, live A' I' b n ↔ live A I b n ∧ b ≠ pi_addr i + o) as Hlive'.
  { intros b n. rewrite Hlive. unfold i'. by rewrite (live_give h A I j i). }
  exists A', js', I'. split_and!; [done| |done].
  intros a n b Hl Hbb. rewrite Hm4. change (kmem h3) with (kmem h2). unfold h2.
  apply Hlive' in Hl as [Hl Hne].
  assert (live A I (pi_addr i + o) (size_of (pi_type i))) as Hlo by (left; by exists j, i, o).
  destruct (live_disjoint _ _ _ _ _ _ _ Hp Hl Hlo) as [[? _]|Hdis]; [done|].
  rewrite kmem_with_kmem, write_at_lookup, bytes_of_length, decide_False by lia. apply Hm1. lia.
Qed.

Lemma kfree_spec h A js I a n o :
  state_ok h A js I → live A I a n →
  wp (kfree a) (λ _ h' o', o' = o ∧ kfree_post h A I a h') h o.
Proof.
  intros Hst Hl. pose proof Hst as (Hr & Hp & Hnf). unfold kfree.
  assert (USERTOP < a) as Ha.
  { destruct (live_inside _ _ _ _ _ Hp Hl) as (b & k & Hb & ? & _).
    destruct (pa_block _ _ _ _ (po_owned _ _ _ Hp) Hb) as (? & _). lia. }
  unfold USERTOP, MIPS_KSEG0 in Ha. destruct (Z.eqb_spec a 0); [lia|]. wp_step.
  destruct Hl as [(j & i & x & Hi & -> & _ & Ho & Hn)|(k & Hk & _ & Hno)].
  - eapply wp_mono; [by eapply subpage_kfree_spec|]. cbn beta. intros ? h' o' (-> & -> & Hpost). by wp_run.
  - destruct (pa_block _ _ _ _ (po_owned _ _ _ Hp) Hk) as (_ & Hal & ? & _).
    assert (length js ≤ 256)%nat as Hlen.
    { rewrite <- (length_seq 256 0). apply submseteq_length, NoDup_submseteq; [apply Hr|].
      intros j Hj. apply elem_of_seq. pose proof (ro_lt _ _ _ Hr j Hj). lia. }
    unfold subpage_kfree. wp_step. wp_step. wp_step.
    eapply wp_mono; [eapply (find_owner_spec h A I _ _ _ js); [done|apply Hr|done|]|].
    { intros j Hj. by apply (ro_dom _ _ _ Hr). }
    cbn beta. intros [[[j' pa] t]|] h' o' (-> & -> & Hown).
    { destruct Hown as (i & Hi & -> & _ & Hin). assert (a ≠ pi_addr i) as Hne by (intros ->; by eapply Hno).
      destruct (pages_disjoint _ _ _ _ _ _ _ Hp Hi Hk Hne); unfold PAGE_SIZE in *; lia. }
    wp_step. wp_cond. wp_step. wp_step; [lia|]. unfold on_pages. wp_step.
    eapply wp_mono; [apply (pa_free_ok _ A a k); [apply Hp|done]|]. cbn beta.
    intros _ p o' (-> & Hown' & Hm). split; [done|]. fold (with_pages h p).
    exists (delete a A), js, I. split_and!; [split_and!| |].
    + by apply refs_ok_pages.
    + pose proof Hp as []. split; simpl; [done| | |done].
      * intros j i Hi. destruct (po_page0 j i Hi) as (pr & Hpr & Hok). exists pr. split; [done|].
        unfold kmem in *. simpl. by rewrite Hm.
      * intros j i Hi. destruct (po_block0 j i Hi) as [HA ?]. split; [|done].
        rewrite lookup_delete_ne; [done|]. intros ->. by eapply Hno.
    + done.
    + intros b m c _ _. unfold kmem. simpl. by rewrite Hm.
    + intros b m. by eapply live_free_big.
Qed.

(** ** The contract

    The heap [h] has exactly the blocks of [L] in use, by address and size. *)
Definition kheap_inv h (L : gmap Z Z) : Prop :=
  ∃ A js I, state_ok h A js I ∧ ∀ a n, L !! a = Some n ↔ live A I a n.
Definition keeps_blocks (L : gmap Z Z) h h' : Prop :=
  ∀ a n b, L !! a = Some n → a ≤ b < a + n → kmem h' !! b = kmem h !! b.
Definition kmalloc_ensures h (L : gmap Z Z) (sz r : Z) h' : Prop :=
  keeps_blocks L h h' ∧
  ((r = 0 ∧ kheap_inv h' L) ∨
   (r ≠ 0 ∧ ∃ n, sz ≤ n ∧ 0 < n ∧ (∀ a m, L !! a = Some m → a + m ≤ r ∨ r + n ≤ a) ∧
      mapped (pa_machine (kpages h')) r n ∧ kheap_inv h' (<[r := n]> L))).

Lemma live_mapped h A I a n :
  pages_ok h A I → live A I a n → mapped (pa_machine (kpages h)) a n.
Proof.
  intros Hp Hl. destruct (live_inside _ _ _ _ _ Hp Hl) as (b & k & Hb & H1 & H2 & H3).
  destruct (pa_block _ _ _ _ (po_owned _ _ _ Hp) Hb) as (_ & _ & _ & _ & Hm).
  replace a with (b + Z.of_nat (Z.to_nat (a - b))) by lia.
  apply (bytes_at_sub_is_Some _ _ _ _ _ Hm). lia.
Qed.
Lemma kmalloc_inv h L sz o :
  kheap_inv h L → 0 ≤ sz → sz + PAGE_SIZE ≤ 2 ^ 32 →
  (LARGEST_SUBPAGE_SIZE ≤ sz → pa_enough (kpages h) (pages_for sz)) →
  wp (kmalloc sz) (λ r h' o', o' = o ∧ kmalloc_ensures h L sz r h') h o.
Proof.
  intros (A & js & I & Hst & HL) H1 H2 H3. eapply wp_mono; [by eapply kmalloc_spec|]. cbn beta.
  intros r h' o' (-> & A' & js' & I' & Hst' & Hsb & Hres). split; [done|]. split.
  - intros a n b Ha Hb. apply (Hsb a n b); [by apply HL|done].
  - destruct Hres as [(-> & Hl)|(Hr & Hnew & n & Hn & Hl)].
    + left. split; [done|]. exists A', js', I'. split; [done|]. intros a n. by rewrite HL, Hl.
    + right. split; [done|]. destruct Hst' as (Hr' & Hp' & Hnf').
      assert (live A' I' r n) as Hlr by (apply Hl; by right). exists n.
      destruct (live_inside _ _ _ _ _ Hp' Hlr) as (_ & _ & _ & _ & _ & Hpos). split_and!; [done..| | |].
      * intros a m Ha. apply HL in Ha. assert (live A' I' a m) as Hl' by (apply Hl; by left).
        destruct (live_disjoint _ _ _ _ _ _ _ Hp' Hl' Hlr) as [[-> _]|?]; [|lia]. by destruct (Hnew m).
      * by eapply live_mapped.
      * exists A', js', I'. split; [done|]. intros a m. rewrite Hl, <- HL, lookup_insert.
        case_decide as Har; [|naive_solver]. subst a. split; [intros [= ->]; by right|].
        intros [Hm|[_ ->]]; [|done]. apply HL in Hm. by destruct (Hnew m).
Qed.

(** The heap before the first allocation *)
Definition kheap_boot (p : P) : kheap :=
  mkKheap p (replicate 256 (mkPageref None None 0 0 0)) (replicate 8 0) (replicate 8 None) None.
Lemma kheap_boot_inv p A :
  pa_owned p A → kheap_inv (kheap_boot p) ((λ k : nat, Z.of_nat k * PAGE_SIZE) <$> A).
Proof.
  intros Hown. exists A, [], ∅. split; [split_and!|].
  - split; simpl; try done.
    + repeat constructor; lia.
    + constructor.
    + intros j. rewrite lookup_empty. split; [set_solver|by intros []].
    + set_solver.
    + intros j Hj. split; [|set_solver]. unfold inuse_bit.
      assert (default 0 ([0; 0; 0; 0; 0; 0; 0; 0] !! (j / 32)%nat) = 0) as ->; [|by rewrite Z.testbit_0_l].
      destruct (_ !! (j / 32)%nat) eqn:Hx; [|done]. apply (lookup_replicate_1 8) in Hx as [-> _]. done.
    + intros t Ht. exists None. split; [|done]. change (replicate 8 (@None nat) !! t = Some None).
      by rewrite lookup_replicate_2.
  - split; simpl; try done.
  - intros j i. by rewrite lookup_empty.
  - intros a n. rewrite lookup_fmap, fmap_Some. unfold live. split.
    + intros (k & Hk & ->). right. exists k. split_and!; [done..|]. intros j i. by rewrite lookup_empty.
    + intros [(j & i & x & Hi & _)|(k & Hk & -> & _)]; [by rewrite lookup_empty in Hi|]. by exists k.
Qed.

(** C4: [kmalloc] gives out a mapped block of at least the size asked for,
    which overlaps no block in use, or NULL; no byte of a block in use
    changes, and the heap stays well-formed with exactly that block added. *)
Theorem kmalloc_fresh h L sz o :
  kheap_inv h L → 0 ≤ sz → sz + PAGE_SIZE ≤ 2 ^ 32 →
  (LARGEST_SUBPAGE_SIZE ≤ sz → pa_enough (kpages h) (pages_for sz)) →
  wp (kmalloc sz) (λ r h' o', o' = o ∧ kmalloc_ensures h L sz r h') h o.
Proof. apply kmalloc_inv. Qed.

(** C5: [kfree] of a block in use ends normally, takes exactly that block out
    of use and changes no byte of the others. *)
Theorem kfree_exact h L a n o :
  kheap_inv h L → L !! a = Some n →
  wp (kfree a) (λ _ h' o', o' = o ∧ keeps_blocks (delete a L) h h' ∧ kheap_inv h' (delete a L)) h o.
Proof.
  intros (A & js & I & Hst & HL) Ha. apply HL in Ha.
  eapply wp_mono; [by eapply kfree_spec|]. cbn beta.
  intros _ h' o' (-> & A' & js' & I' & Hst' & Hsb & Hl). split; [done|].
  assert (∀ b m, delete a L !! b = Some m ↔ live A' I' b m) as HL'.
  { intros b m. rewrite Hl, <- HL, lookup_delete_Some. naive_solver. }
  split.
  - intros b m c Hb Hc. apply (Hsb b m c); [by apply HL'|done].
  - by exists A', js', I'.
Qed.

End Heap.

(** ** The heap over the coremap *)
Lemma sample_core_owned : core_owned sample_zeros sample_core {[ MIPS_KSEG0 + 20480 := 1%nat ]}.
Proof.
  split; [apply sample_core_ok|]. split; [apply sample_phys_ok|]. split; [apply sample_core_wf|].
  split; [unfold sample_zeros, MIPS_KSEG0; simpl; lia|]. intros a n. rewrite lookup_singleton_Some. split.
  - intros [<- <-]. exists 3%nat. split; [done|]. split_and!; [lia|by eexists|].
    intros i Hi. lia.
  - intros (j & -> & Hn & (e & He & Hu & Hc) & _). destruct j as [|[|[|[|j]]]]; simplify_eq/=; try lia.
    split; [done|lia].
Qed.
#[local] Instance sample_pages : PageAllocator core := core_pages sample_zeros.
#[local] Instance sample_laws : PageLaws core := core_laws sample_zeros.
Definition sample_heap : kheap := kheap_boot sample_core.
Definition sample_blocks : gmap Z Z := (λ k : nat, Z.of_nat k * PAGE_SIZE) <$> {[ MIPS_KSEG0 + 20480 := 1%nat ]}.
Lemma sample_heap_inv : kheap_inv sample_heap sample_blocks.
Proof. apply kheap_boot_inv, sample_core_owned. Qed.

Lemma kmalloc_fresh_witness :
  wp (kmalloc 100) (λ r h' o', o' = [] ∧ kmalloc_ensures sample_heap sample_blocks 100 r h') sample_heap [].
Proof.
  apply (kmalloc_fresh sample_heap sample_blocks 100 [] sample_heap_inv).
  - lia.
  - unfold PAGE_SIZE. lia.
  - unfold LARGEST_SUBPAGE_SIZE. lia.
Defined.
Lemma kfree_exact_witness :
  sample_blocks !! (MIPS_KSEG0 + 20480) = Some 4096 ∧
  wp (kfree (MIPS_KSEG0 + 20480)) (λ _ h' o', o' = [] ∧
    keeps_blocks (delete (MIPS_KSEG0 + 20480) sample_blocks) sample_heap h' ∧
    kheap_inv h' (delete (MIPS_KSEG0 + 20480) sample_blocks)) sample_heap [].
Proof.
  split; [reflexivity|].
  apply (kfree_exact sample_heap sample_blocks (MIPS_KSEG0 + 20480) 4096 [] sample_heap_inv). reflexivity.
Defined.
