(* ===== verification/Thread.v ===== *)
(** * Threads, src/kern/thread/thread.c and scheduler.c

    The thread lists are those of the source: an array of sleepers, an array
    of zombies and a queue of runnable threads.  Code that can lose the
    processor is not a function of the state, so it is written in a second
    monad [T]: the continuation of a thread, its saved stack and registers, is
    a value [code], made of pieces that run on the state and of the points
    where [md_switch] leaves the thread.  A [world] is the state with the code
    of all threads; interrupts arrive whenever [curspl] is zero. *)
From S2P Require Import Prelude Array Queue.

Abbreviation tid := nat.

(** What a thread sleeps on: the address of a semaphore, of a thread, of
    [lbolt] or of another object. *)
Inductive chan : Set := WSem (s : Z) | WThread (t : tid) | WObj (a : Z) | WLbolt.
#[export] Instance chan_eq_dec : EqDecision chan.
Proof. solve_decision. Defined.

Definition SPL_HIGH : Z := 15.
Definition HZ : Z := 100.

(** [struct thread]; a stack is the magic number at its bottom. *)
Record thread : Type := mkThread {
  t_sleepaddr : option chan;
  t_stack : option (list Z);
  t_vmspace : option Z;
  t_cwd : option Z;
  t_pid : option Z;
  pcb_ininterrupt : Z;
}.
Definition stack_magic : list Z := [0xae; 0x11; 0xda; 0x33].

(** What the thread system calls in other parts of the kernel, on their state. *)
Class ThreadEnv (X : Type) : Type := {
  env_as_copy : Z → K X (Z * Z);
  env_as_activate : Z → K X unit;
  env_as_destroy : Z → K X unit;
  env_incref : Z → K X unit;
  env_decref : Z → K X unit;
  (** the new process gets its parent and its thread, and answers with its pid *)
  env_assign_thread : Z → option Z → tid → K X (option Z);
}.

Inductive threadstate_t : Set := S_RUN | S_READY | S_SLEEP | S_ZOMB.

Section Thread.
  Context {X : Type} `{!ThreadEnv X}.

Record tsys : Type := mkTsys {
  curthread : option tid;
  sleepers : option (array tid);
  zombies : option (array tid);
  numthreads : Z;
  runqueue : option (queue tid);
  threads : gmap tid thread;
  curspl : Z;
  in_interrupt : Z;
  lbolt_counter : Z;
  ext : X;
}.

(** ** Access to the fields *)
Definition set_curthread (c : option tid) (s : tsys) : tsys :=
  mkTsys c (sleepers s) (zombies s) (numthreads s) (runqueue s) (threads s) (curspl s)
    (in_interrupt s) (lbolt_counter s) (ext s).
Definition set_sleepers (a : option (array tid)) (s : tsys) : tsys :=
  mkTsys (curthread s) a (zombies s) (numthreads s) (runqueue s) (threads s) (curspl s)
    (in_interrupt s) (lbolt_counter s) (ext s).
Definition set_zombies (a : option (array tid)) (s : tsys) : tsys :=
  mkTsys (curthread s) (sleepers s) a (numthreads s) (runqueue s) (threads s) (curspl s)
    (in_interrupt s) (lbolt_counter s) (ext s).
Definition set_numthreads (n : Z) (s : tsys) : tsys :=
  mkTsys (curthread s) (sleepers s) (zombies s) n (runqueue s) (threads s) (curspl s)
    (in_interrupt s) (lbolt_counter s) (ext s).
Definition set_runqueue (q : option (queue tid)) (s : tsys) : tsys :=
  mkTsys (curthread s) (sleepers s) (zombies s) (numthreads s) q (threads s) (curspl s)
    (in_interrupt s) (lbolt_counter s) (ext s).
Definition set_threads (m : gmap tid thread) (s : tsys) : tsys :=
  mkTsys (curthread s) (sleepers s) (zombies s) (numthreads s) (runqueue s) m (curspl s)
    (in_interrupt s) (lbolt_counter s) (ext s).
Definition set_curspl (z : Z) (s : tsys) : tsys :=
  mkTsys (curthread s) (sleepers s) (zombies s) (numthreads s) (runqueue s) (threads s) z
    (in_interrupt s) (lbolt_counter s) (ext s).
Definition set_in_interrupt (z : Z) (s : tsys) : tsys :=
  mkTsys (curthread s) (sleepers s) (zombies s) (numthreads s) (runqueue s) (threads s) (curspl s)
    z (lbolt_counter s) (ext s).
Definition set_lbolt (z : Z) (s : tsys) : tsys :=
  mkTsys (curthread s) (sleepers s) (zombies s) (numthreads s) (runqueue s) (threads s) (curspl s)
    (in_interrupt s) z (ext s).
Definition set_ext (x : X) (s : tsys) : tsys :=
  mkTsys (curthread s) (sleepers s) (zombies s) (numthreads s) (runqueue s) (threads s) (curspl s)
    (in_interrupt s) (lbolt_counter s) x.

(** Operations on an object behind a pointer that may be [NULL] *)
Definition on_sleepers {A} (m : K (array tid) A) : K tsys A :=
  a <- gets sleepers;
  a <- deref a;
  r <- run_on m a;
  _ <- modify (set_sleepers (Some (snd r)));
  ret (fst r).
Definition on_zombies {A} (m : K (array tid) A) : K tsys A :=
  a <- gets zombies;
  a <- deref a;
  r <- run_on m a;
  _ <- modify (set_zombies (Some (snd r)));
  ret (fst r).
Definition on_runqueue {A} (m : K (queue tid) A) : K tsys A :=
  q <- gets runqueue;
  q <- deref q;
  r <- run_on m q;
  _ <- modify (set_runqueue (Some (snd r)));
  ret (fst r).
Definition on_ext {A} (m : K X A) : K tsys A := zoom ext set_ext m.
Definition get_thread (t : tid) : K tsys thread := s <- kget; deref (threads s !! t).
Definition put_thread (t : tid) (th : thread) : K tsys unit :=
  _ <- get_thread t;
  modify (λ s, set_threads (<[t := th]> (threads s)) s).
Definition get_curthread : K tsys tid := c <- gets curthread; deref c.
Definition set_sleepaddr (t : tid) (a : option chan) : K tsys unit :=
  th <- get_thread t;
  put_thread t (mkThread a (t_stack th) (t_vmspace th) (t_cwd th) (t_pid th) (pcb_ininterrupt th)).
Definition set_vmspace (t : tid) (a : option Z) : K tsys unit :=
  th <- get_thread t;
  put_thread t (mkThread (t_sleepaddr th) (t_stack th) a (t_cwd th) (t_pid th) (pcb_ininterrupt th)).
Definition set_cwd (t : tid) (a : option Z) : K tsys unit :=
  th <- get_thread t;
  put_thread t (mkThread (t_sleepaddr th) (t_stack th) (t_vmspace th) a (t_pid th) (pcb_ininterrupt th)).
Definition set_pid (t : tid) (a : option Z) : K tsys unit :=
  th <- get_thread t;
  put_thread t (mkThread (t_sleepaddr th) (t_stack th) (t_vmspace th) (t_cwd th) a (pcb_ininterrupt th)).

(** ** spl.c *)
Definition splx (newspl : Z) : K tsys Z :=
  oldspl <- gets curspl;
  _ <- modify (set_curspl newspl);
  ret oldspl.
Definition splhigh : K tsys Z := splx SPL_HIGH.
Definition spl0 : K tsys Z := splx 0.
Definition assert_spl : K tsys unit := s <- gets curspl; kassert (0 <? s).

(** ** scheduler.c *)
Definition scheduler_bootstrap : K tsys unit :=
  q <- q_create 32;
  match q with
  | None => panic
  | Some _ => modify (set_runqueue q)
  end.
Definition scheduler_preallocate (nthreads : Z) : K tsys Z :=
  _ <- assert_spl;
  on_runqueue (q_preallocate nthreads).
Fixpoint killall_loop (fuel : nat) : K tsys unit :=
  e <- on_runqueue q_empty;
  if negb e then
    match fuel with
    | O => halt Spin
    | S fuel' => _ <- on_runqueue q_remhead; killall_loop fuel'
    end
  else ret tt.
Definition scheduler_killall : K tsys unit :=
  _ <- assert_spl;
  q <- gets runqueue;
  killall_loop (match q with Some q => Z.to_nat (size q) | None => O end).
Definition scheduler_shutdown : K tsys unit :=
  _ <- scheduler_killall;
  _ <- assert_spl;
  _ <- on_runqueue q_destroy;
  modify (set_runqueue None).
(** One turn of the loop of [scheduler]: [None] when there is nothing to run,
    and [cpu_idle] is called. *)
Definition scheduler : K tsys (option tid) :=
  _ <- assert_spl;
  e <- on_runqueue q_empty;
  if e then ret None
  else
    t <- on_runqueue q_remhead;
    ret (Some t).
Definition make_runnable (t : tid) : K tsys Z :=
  _ <- assert_spl;
  on_runqueue (q_addtail t).

(** ** thread.c: what never gives up the processor *)
Definition thread_create : K tsys (option tid) :=
  ok <- kmalloc_ok;
  if negb ok then ret None
  else
    ok <- kmalloc_ok;
    if negb ok then ret None
    else
      s <- kget;
      let t := fresh (dom (threads s)) in
      _ <- modify (λ s, set_threads (<[t := mkThread None None None None None 0]> (threads s)) s);
      ret (Some t).
Definition free_thread (t : tid) : K tsys unit :=
  _ <- get_thread t;
  modify (λ s, set_threads (delete t (threads s)) s).
Definition thread_destroy (t : tid) : K tsys unit :=
  c <- gets curthread;
  _ <- kassert (bool_decide (c ≠ Some t));
  th <- get_thread t;
  _ <- kassert (bool_decide (t_vmspace th = None));
  _ <- kassert (bool_decide (t_cwd th = None));
  free_thread t.
Definition exorcise_one (i : Z) : K tsys unit :=
  z <- on_zombies (array_getguy i);
  c <- gets curthread;
  _ <- kassert (bool_decide (c ≠ Some z));
  thread_destroy z.
Definition exorcise : K tsys unit :=
  _ <- assert_spl;
  n <- on_zombies array_getnum;
  _ <- kfor (Z.to_nat n) 0 exorcise_one;
  result <- on_zombies (array_setsize 0);
  kassert (result =? 0).
Definition thread_killall : K tsys unit :=
  _ <- assert_spl;
  n <- on_sleepers array_getnum;
  _ <- kfor (Z.to_nat n) 0 (λ i, t <- on_sleepers (array_getguy i); _ <- get_thread t; ret tt);
  result <- on_sleepers (array_setsize 0);
  kassert (result =? 0).
Definition thread_panic : K tsys unit :=
  _ <- assert_spl;
  _ <- thread_killall;
  scheduler_killall.
Definition one_thread_only : K tsys bool :=
  s <- splhigh;
  n <- gets numthreads;
  _ <- splx s;
  ret (n =? 1).
Definition thread_bootstrap : K tsys tid :=
  a <- array_create;
  _ <- modify (set_sleepers a);
  _ <- kassert (bool_decide (a ≠ None));
  z <- array_create;
  _ <- modify (set_zombies z);
  _ <- kassert (bool_decide (z ≠ None));
  me <- thread_create;
  match me with
  | None => panic
  | Some t =>
      _ <- modify (set_curthread (Some t));
      _ <- modify (set_numthreads 1);
      ret t
  end.
Definition thread_shutdown : K tsys unit :=
  _ <- on_sleepers array_destroy;
  _ <- modify (set_sleepers None);
  _ <- on_zombies array_destroy;
  modify (set_zombies None).

(** [for (i=0; i<array_getnum(sleepers); i++)], with [i--] after a removal *)
Fixpoint wakeup_loop (fuel : nat) (addr : chan) (i : Z) : K tsys unit :=
  n <- on_sleepers array_getnum;
  if i <? n then
    match fuel with
    | O => halt Spin
    | S fuel' =>
        t <- on_sleepers (array_getguy i);
        th <- get_thread t;
        if bool_decide (t_sleepaddr th = Some addr) then
          _ <- on_sleepers (array_remove i);
          result <- make_runnable t;
          _ <- kassert (result =? 0);
          wakeup_loop fuel' addr i
        else wakeup_loop fuel' addr (i + 1)
    end
  else ret tt.
Definition thread_wakeup (addr : chan) : K tsys unit :=
  _ <- assert_spl;
  n <- on_sleepers array_getnum;
  wakeup_loop (Z.to_nat n) addr 0.

Fixpoint hassleepers_loop (n : nat) (addr : chan) (i : Z) : K tsys bool :=
  match n with
  | O => ret false
  | S n' =>
      t <- on_sleepers (array_getguy i);
      th <- get_thread t;
      if bool_decide (t_sleepaddr th = Some addr) then ret true
      else hassleepers_loop n' addr (i + 1)
  end.
Definition thread_hassleepers (addr : chan) : K tsys bool :=
  _ <- assert_spl;
  n <- on_sleepers array_getnum;
  hassleepers_loop (Z.to_nat n) addr 0.

Definition check_stack (t : tid) : K tsys unit :=
  th <- get_thread t;
  match t_stack th with
  | None => ret tt
  | Some st => kassert (bool_decide (st = stack_magic))
  end.

(** [mi_switch] up to the call of the scheduler: the current thread, which is
    on the list for its next state, or [None] when there is none. *)
Definition mi_switch_out (nextstate : threadstate_t) : K tsys (option tid) :=
  _ <- assert_spl;
  c <- gets curthread;
  match c with
  | None => ret None
  | Some cur =>
      _ <- check_stack cur;
      _ <- modify (set_curthread None);
      result <-
        match nextstate with
        | S_READY => make_runnable cur
        | S_SLEEP => on_sleepers (array_add cur)
        | S_ZOMB => on_zombies (array_add cur)
        | S_RUN => panic
        end;
      _ <- kassert (result =? 0);
      ret (Some cur)
  end.

(** [curthread = next], and the globals [md_switch] exchanges *)
Definition md_switch (cur next : tid) : K tsys unit :=
  _ <- modify (set_curthread (Some next));
  if bool_decide (cur = next) then ret tt
  else
    old <- get_thread cur;
    i <- gets in_interrupt;
    _ <- put_thread cur (mkThread (t_sleepaddr old) (t_stack old) (t_vmspace old) (t_cwd old) (t_pid old) i);
    nu <- get_thread next;
    modify (set_in_interrupt (pcb_ininterrupt nu)).

(** ** Code that can lose the processor *)
#[warnings="-register-all"]
Inductive code : Type :=
| CExit
| Step (m : K tsys code)
| Switch (cur : tid) (k : code)
| Fork (t : tid) (c k : code).

Definition T (A : Type) : Type := (A → code) → code.
Definition tret {A} (a : A) : T A := λ k, k a.
Definition tbind {A B} (m : T A) (f : A → T B) : T B := λ k, m (λ a, f a k).
Definition lift {A} (m : K tsys A) : T A := λ k, Step (a <- m; ret (k a)).

End Thread.
Arguments tsys : clear implicits.
Arguments code : clear implicits.
Arguments T : clear implicits.

Declare Scope thread_scope.
Delimit Scope thread_scope with thread.
Notation "x ← m ; k" := (tbind m (λ x, k))
  (at level 20, m at level 100, k at level 200, only parsing) : thread_scope.
#[global] Open Scope thread_scope.

Section Code.
  Context {X : Type} `{!ThreadEnv X}.
  Abbreviation tsys := (tsys X).
  Abbreviation code := (code X).
  Abbreviation T := (T X).

(** the switch itself: the thread goes on at [k] when it is scheduled again *)
Definition t_switch (cur : tid) : T unit := λ k, Switch cur (k tt).
(** [md_initpcb]: when [t] is first scheduled it runs [c] *)
Definition md_initpcb (t : tid) (c : code) : T unit := λ k, Fork t c (k tt).

Definition mi_switch (nextstate : threadstate_t) : T unit :=
  cur ← lift (mi_switch_out nextstate);
  match cur with
  | None => tret tt
  | Some cur =>
      _ ← t_switch cur;
      lift exorcise
  end.

Definition thread_exit : T unit :=
  _ ← lift (cur <- get_curthread; check_stack cur);
  _ ← lift splhigh;
  _ ← lift (
    cur <- get_curthread;
    th <- get_thread cur;
    match t_vmspace th with
    | Some a => _ <- set_vmspace cur None; on_ext (env_as_destroy a)
    | None => ret tt
    end);
  _ ← lift (
    cur <- get_curthread;
    th <- get_thread cur;
    match t_cwd th with
    | Some v => _ <- on_ext (env_decref v); set_cwd cur None
    | None => ret tt
    end);
  _ ← lift (
    n <- gets numthreads;
    _ <- kassert (0 <? n);
    modify (set_numthreads (n - 1)));
  _ ← mi_switch S_ZOMB;
  lift panic.

Definition thread_yield : T unit :=
  spl ← lift splhigh;
  _ ← lift (a <- gets sleepers; kassert (bool_decide (a ≠ None)));
  _ ← mi_switch S_READY;
  _ ← lift (splx spl);
  tret tt.

Definition thread_sleep (addr : chan) : T unit :=
  _ ← lift (i <- gets in_interrupt; kassert (i =? 0));
  _ ← lift (cur <- get_curthread; set_sleepaddr cur (Some addr));
  _ ← mi_switch S_SLEEP;
  lift (cur <- get_curthread; set_sleepaddr cur None).

Definition mi_threadstart (func : T unit) : T unit :=
  _ ← lift (
    cur <- get_curthread;
    th <- get_thread cur;
    match t_vmspace th with
    | Some a => on_ext (env_as_activate a)
    | None => ret tt
    end);
  _ ← lift spl0;
  _ ← func;
  thread_exit.

(** the part of [thread_fork] that runs with interrupts off *)
Definition fork_admit (t : tid) : K tsys Z :=
  n <- gets numthreads;
  result <- on_sleepers (array_preallocate (n + 1));
  if negb (result =? 0) then ret result
  else
    result <- on_zombies (array_preallocate (n + 1));
    if negb (result =? 0) then ret result
    else
      result <- scheduler_preallocate (n + 1);
      if negb (result =? 0) then ret result
      else
        result <- make_runnable t;
        if negb (result =? 0) then ret result
        else
          _ <- modify (set_numthreads (n + 1));
          ret 0.

Definition thread_fork (func : T unit) (proc : option Z) : T (Z * option tid) :=
  newguy ← lift thread_create;
  match newguy with
  | None => tret (ENOMEM, None)
  | Some t =>
      ok ← lift kmalloc_ok;
      if negb ok then
        _ ← lift (free_thread t);
        tret (ENOMEM, None)
      else
        _ ← lift (
          th <- get_thread t;
          put_thread t (mkThread (t_sleepaddr th) (Some stack_magic) (t_vmspace th) (t_cwd th)
                          (t_pid th) (pcb_ininterrupt th)));
        _ ← lift (
          cur <- get_curthread;
          th <- get_thread cur;
          match t_cwd th with
          | Some v => _ <- on_ext (env_incref v); set_cwd t (Some v)
          | None => ret tt
          end);
        result ← lift (
          cur <- get_curthread;
          th <- get_thread cur;
          match t_vmspace th with
          | None => ret 0
          | Some a =>
              r <- on_ext (env_as_copy a);
              if negb (fst r =? 0) then ret (fst r)
              else
                _ <- set_vmspace t (Some (snd r));
                _ <- match proc with
                     | Some p => pid <- on_ext (env_assign_thread p (t_pid th) t); set_pid t pid
                     | None => ret tt
                     end;
                _ <- on_ext (env_as_activate (snd r));
                ret 0
          end);
        if negb (result =? 0) then tret (result, None)
        else
          _ ← md_initpcb t (mi_threadstart func (λ _, CExit));
          s ← lift splhigh;
          result ← lift (fork_admit t);
          _ ← lift (splx s);
          if negb (result =? 0) then
            _ ← lift (
              th <- get_thread t;
              match t_cwd th with Some v => on_ext (env_decref v) | None => ret tt end);
            _ ← lift (free_thread t);
            tret (result, None)
          else tret (0, Some t)
  end.

(** ** Interrupts: hardclock.c, interrupt.c and the path of an interrupt through trap.c *)
Definition hardclock : T unit :=
  _ ← lift (
    n <- gets lbolt_counter;
    let n := n + 1 in
    if HZ <=? n then
      _ <- modify (set_lbolt 0);
      thread_wakeup WLbolt
    else modify (set_lbolt n));
  thread_yield.
Definition mips_interrupt (handler : T unit) : T unit :=
  old_in ← lift (gets in_interrupt);
  _ ← lift (modify (set_in_interrupt 1));
  _ ← lift assert_spl;
  _ ← handler;
  lift (modify (set_in_interrupt old_in)).
(** The processor has turned interrupts off when it enters [mips_trap]. *)
Definition mips_trap_irq (handler : T unit) : T unit :=
  savespl ← lift (
    savespl <- gets curspl;
    _ <- modify (set_curspl SPL_HIGH);
    ret savespl);
  _ ← mips_interrupt handler;
  _ ← lift splhigh;
  lift (modify (set_curspl savespl)).

(** [clocksleep(num_secs)] *)
Fixpoint clocksleep_loop (num_secs : nat) : T unit :=
  match num_secs with
  | O => tret tt
  | S n => _ ← thread_sleep WLbolt; clocksleep_loop n
  end.
Definition clocksleep (num_secs : Z) : T unit :=
  s ← lift splhigh;
  _ ← clocksleep_loop (Z.to_nat num_secs);
  _ ← lift (splx s);
  tret tt.

(** ** Runs

    Code runs up to the next point where it can be interrupted or where it
    leaves the processor. *)
Record world : Type := mkWorld {
  sys : tsys;
  conts : gmap tid code;
  running : code;
  worc : oracle;
}.

Fixpoint exec (c : code) (s : tsys) (cs : gmap tid code) (o : oracle) : outcome world :=
  match c with
  | Step m =>
      match m s o with
      | Done (c', s', o') =>
          if curspl s' =? 0 then Done (mkWorld s' cs c' o') else exec c' s' cs o'
      | Halt e => Halt e
      end
  | Fork t c' k => if curspl s =? 0 then Done (mkWorld s (<[t := c']> cs) k o) else exec k s (<[t := c']> cs) o
  | _ => Done (mkWorld s cs c o)
  end.

(** The handlers that may run are [hardclock] and those of the devices. *)
Definition handler (devices : list (K tsys unit)) (h : T unit) : Prop :=
  h = hardclock ∨ ∃ d, d ∈ devices ∧ h = lift d.

Inductive step (devices : list (K tsys unit)) : world → world → Prop :=
| step_run w w' :
    (∀ cur k, running w ≠ Switch cur k) →
    exec (running w) (sys w) (conts w) (worc w) = Done w' → step devices w w'
| step_irq w h :
    (∀ cur k, running w ≠ Switch cur k) → curspl (sys w) = 0 → handler devices h →
    step devices w (mkWorld (sys w) (conts w) (mips_trap_irq h (λ _, running w)) (worc w))
| step_switch w cur k next s1 o1 s2 o2 c :
    running w = Switch cur k →
    scheduler (sys w) (worc w) = Done (Some next, s1, o1) →
    md_switch cur next s1 o1 = Done (tt, s2, o2) →
    <[cur := k]> (conts w) !! next = Some c →
    step devices w (mkWorld s2 (<[cur := k]> (conts w)) c o2)
| step_idle w cur k s1 o1 h :
    running w = Switch cur k →
    scheduler (sys w) (worc w) = Done (None, s1, o1) → handler devices h →
    step devices w (mkWorld s1 (conts w) (mips_trap_irq h (λ _, Switch cur k)) o1).

End Code.
