(* ===== verification/Synch.v ===== *)
(** * Semaphores, locks and condition variables, src/kern/thread/synch.c

    The objects live in the part of the state that the thread system leaves
    to others, next to the data [U] of the code that uses them. *)
From S2P Require Import Prelude Queue Thread.

Definition MAXTHREADS : Z := 10.

Record lock : Type := mkLock { held : option tid; lock_queue : option (queue tid) }.
Record cv : Type := mkCv { cv_queue : option (queue tid) }.

Record synch (U : Type) : Type := mkSynch {
  sems : gmap Z Z;
  locks : gmap Z lock;
  cvs : gmap Z cv;
  user : U;
}.
Arguments mkSynch {U} _ _ _ _.
Arguments sems {U} _.
Arguments locks {U} _.
Arguments cvs {U} _.
Arguments user {U} _.

Section Synch.
  Context {U : Type} `{!ThreadEnv U}.

Definition set_sems (m : gmap Z Z) (x : synch U) : synch U := mkSynch m (locks x) (cvs x) (user x).
Definition set_locks (m : gmap Z lock) (x : synch U) : synch U := mkSynch (sems x) m (cvs x) (user x).
Definition set_cvs (m : gmap Z cv) (x : synch U) : synch U := mkSynch (sems x) (locks x) m (user x).
Definition set_user (u : U) (x : synch U) : synch U := mkSynch (sems x) (locks x) (cvs x) u.

(** The rest of the kernel works on [U]. *)
#[export] Instance synch_env : ThreadEnv (synch U) := {
  env_as_copy a := zoom user set_user (env_as_copy a);
  env_as_activate a := zoom user set_user (env_as_activate a);
  env_as_destroy a := zoom user set_user (env_as_destroy a);
  env_incref v := zoom user set_user (env_incref v);
  env_decref v := zoom user set_user (env_decref v);
  env_assign_thread p pid t := zoom user set_user (env_assign_thread p pid t);
}.
Abbreviation ksys := (tsys (synch U)).
Abbreviation kcode := (code (synch U)).
Abbreviation KT := (T (synch U)).

(** ** The objects *)
Definition get_sem (sem : Z) : K ksys Z := on_ext (x <- kget; deref (sems x !! sem)).
Definition put_sem (sem count : Z) : K ksys unit :=
  on_ext (modify (λ x, set_sems (<[sem := count]> (sems x)) x)).
Definition get_lock (l : Z) : K ksys lock := on_ext (x <- kget; deref (locks x !! l)).
Definition put_lock (l : Z) (lk : lock) : K ksys unit :=
  on_ext (modify (λ x, set_locks (<[l := lk]> (locks x)) x)).
Definition get_cv (c : Z) : K ksys cv := on_ext (x <- kget; deref (cvs x !! c)).
Definition put_cv (c : Z) (v : cv) : K ksys unit :=
  on_ext (modify (λ x, set_cvs (<[c := v]> (cvs x)) x)).
Definition on_lock_queue {A} (l : Z) (m : K (queue tid) A) : K ksys A :=
  lk <- get_lock l;
  q <- deref (lock_queue lk);
  r <- run_on m q;
  _ <- put_lock l (mkLock (held lk) (Some (snd r)));
  ret (fst r).
Definition on_cv_queue {A} (c : Z) (m : K (queue tid) A) : K ksys A :=
  v <- get_cv c;
  q <- deref (cv_queue v);
  r <- run_on m q;
  _ <- put_cv c (mkCv (Some (snd r)));
  ret (fst r).
Definition set_held (l : Z) (t : option tid) : K ksys unit :=
  lk <- get_lock l;
  put_lock l (mkLock t (lock_queue lk)).

(** ** Creation and destruction *)
Definition sem_create (initial_count : Z) : K ksys (option Z) :=
  _ <- kassert (0 <=? initial_count);
  ok <- kmalloc_ok;
  if negb ok then ret None
  else
    ok <- kmalloc_ok;
    if negb ok then ret None
    else
      x <- gets ext;
      let sem := fresh (dom (sems x)) in
      _ <- put_sem sem initial_count;
      ret (Some sem).
Definition sem_destroy (sem : Z) : K ksys unit :=
  _ <- get_sem sem;
  spl <- splhigh;
  b <- thread_hassleepers (WSem sem);
  _ <- kassert (negb b);
  _ <- splx spl;
  on_ext (modify (λ x, set_sems (delete sem (sems x)) x)).
(** The result of [q_create] is not checked. *)
Definition lock_create : K ksys (option Z) :=
  ok <- kmalloc_ok;
  if negb ok then ret None
  else
    ok <- kmalloc_ok;
    if negb ok then ret None
    else
      x <- gets ext;
      let l := fresh (dom (locks x)) in
      q <- q_create MAXTHREADS;
      _ <- put_lock l (mkLock None q);
      ret (Some l).
Definition lock_destroy (l : Z) : K ksys unit :=
  _ <- get_lock l;
  spl <- splhigh;
  b <- thread_hassleepers (WObj l);
  _ <- kassert (negb b);
  _ <- splx spl;
  lk <- get_lock l;
  _ <- kassert (bool_decide (held lk = None));
  _ <- on_lock_queue l q_destroy;
  on_ext (modify (λ x, set_locks (delete l (locks x)) x)).
Definition cv_create : K ksys (option Z) :=
  ok <- kmalloc_ok;
  if negb ok then ret None
  else
    ok <- kmalloc_ok;
    if negb ok then ret None
    else
      x <- gets ext;
      let c := fresh (dom (cvs x)) in
      q <- q_create MAXTHREADS;
      _ <- put_cv c (mkCv q);
      ret (Some c).
Definition cv_destroy (c : Z) : K ksys unit :=
  _ <- get_cv c;
  spl <- splhigh;
  b <- thread_hassleepers (WObj c);
  _ <- kassert (negb b);
  _ <- splx spl;
  _ <- on_cv_queue c q_destroy;
  on_ext (modify (λ x, set_cvs (delete c (cvs x)) x)).

(** ** Semaphores *)

(** [while (sem->count==0) thread_sleep(sem);] *)
Fixpoint P_loop (fuel : nat) (sem : Z) : KT unit :=
  count ← lift (get_sem sem);
  if count =? 0 then
    match fuel with
    | O => lift (halt Spin)
    | S fuel' => _ ← thread_sleep (WSem sem); P_loop fuel' sem
    end
  else tret tt.
Definition P (fuel : nat) (sem : Z) : KT unit :=
  _ ← lift (_ <- get_sem sem; ret tt);
  _ ← lift (i <- gets in_interrupt; kassert (i =? 0));
  spl ← lift splhigh;
  _ ← P_loop fuel sem;
  _ ← lift (
    count <- get_sem sem;
    _ <- kassert (0 <? count);
    put_sem sem (s32 (count - 1)));
  _ ← lift (splx spl);
  tret tt.
Definition V (sem : Z) : K ksys unit :=
  _ <- get_sem sem;
  spl <- splhigh;
  count <- get_sem sem;
  let count := s32 (count + 1) in
  _ <- put_sem sem count;
  _ <- kassert (0 <? count);
  _ <- thread_wakeup (WSem sem);
  _ <- splx spl;
  ret tt.

(** ** Locks *)
Definition lock_do_i_hold (l : Z) : K ksys bool :=
  lk <- get_lock l;
  c <- gets curthread;
  ret (bool_decide (held lk = c)).

(** [kill_process] belongs to the process code, which itself uses locks. *)
Definition lock_acquire (kill_process : Z → KT unit) (l : Z) : KT unit :=
  _ ← lift (_ <- get_lock l; ret tt);
  _ ← lift (i <- gets in_interrupt; kassert (i =? 0));
  spl ← lift splhigh;
  lk ← lift (get_lock l);
  _ ← (if bool_decide (held lk ≠ None) then
         cur ← lift get_curthread;
         err ← lift (on_lock_queue l (q_addtail cur));
         _ ← (if negb (err =? 0) then _ ← lift (splx spl); kill_process 0 else tret tt);
         thread_sleep (WThread cur)
       else tret tt);
  _ ← lift (c <- gets curthread; set_held l c);
  _ ← lift (splx spl);
  tret tt.
(** what [lock_release] does once it has checked that the lock is held *)
Definition lock_pass (l : Z) : K ksys unit :=
  e <- on_lock_queue l q_empty;
  if negb e then
    t <- on_lock_queue l q_remhead;
    _ <- set_held l (Some t);
    thread_wakeup (WThread t)
  else set_held l None.
Definition lock_release (l : Z) : KT unit :=
  _ ← lift (b <- lock_do_i_hold l; kassert b);
  spl ← lift splhigh;
  _ ← lift (lock_pass l);
  _ ← lift (splx spl);
  tret tt.

(** ** Condition variables *)
Definition cv_wait (kill_process : Z → KT unit) (c l : Z) : KT unit :=
  _ ← lift (_ <- get_cv c; b <- lock_do_i_hold l; kassert b);
  _ ← lock_release l;
  spl ← lift splhigh;
  cur ← lift get_curthread;
  err ← lift (on_cv_queue c (q_addtail cur));
  _ ← lift (kassert (err =? 0));
  _ ← thread_sleep (WThread cur);
  _ ← lift (splx spl);
  lock_acquire kill_process l.
Definition cv_signal_one (c : Z) : K ksys unit :=
  e <- on_cv_queue c q_empty;
  if negb e then
    t <- on_cv_queue c q_remhead;
    thread_wakeup (WThread t)
  else ret tt.
Definition cv_signal (c l : Z) : KT unit :=
  _ ← lift (_ <- get_cv c; b <- lock_do_i_hold l; kassert b);
  spl ← lift splhigh;
  _ ← lift (cv_signal_one c);
  _ ← lift (splx spl);
  tret tt.
(** [while (!q_empty(cv->wait_queue)) ...] *)
Fixpoint broadcast_loop (fuel : nat) (c : Z) : K ksys unit :=
  e <- on_cv_queue c q_empty;
  if negb e then
    match fuel with
    | O => halt Spin
    | S fuel' =>
        t <- on_cv_queue c q_remhead;
        _ <- thread_wakeup (WThread t);
        broadcast_loop fuel' c
    end
  else ret tt.
Definition cv_broadcast (c l : Z) : KT unit :=
  _ ← lift (_ <- get_cv c; b <- lock_do_i_hold l; kassert b);
  spl ← lift splhigh;
  n ← lift (on_cv_queue c q_getsize);
  _ ← lift (broadcast_loop (Z.to_nat n) c);
  _ ← lift (splx spl);
  tret tt.

End Synch.
