(* ===== verification/ThreadSpec.v ===== *)
(** * The thread lists

    What the operations of thread.c and scheduler.c do to the lists of
    runnable, sleeping and dead threads, and how far the memory that
    [thread_fork] preallocates goes. *)
From S2P Require Import Prelude Array Queue Thread.

Section Lists.
  Context {X : Type} `{!ThreadEnv X}.
  Implicit Types (s : tsys X) (rq sl zb : list tid).

(** The three lists of a state *)
Definition tlists s rq sl zb : Prop :=
  (∃ q, runqueue s = Some q ∧ queue_rep q rq) ∧
  (∃ a, sleepers s = Some a ∧ array_rep a sl) ∧
  (∃ z, zombies s = Some z ∧ array_rep z zb).

Lemma wp_on_runqueue {A} (m : K (queue tid) A) Q s q o :
  runqueue s = Some q → wp m (λ a q' o', Q a (set_runqueue (Some q') s) o') q o →
  wp (on_runqueue m) Q s o.
Proof. intros Hq Hm. unfold on_runqueue. wp_step. wp_step. rewrite Hq. wp_run. done. Qed.
Lemma wp_on_sleepers {A} (m : K (array tid) A) Q s a o :
  sleepers s = Some a → wp m (λ r a' o', Q r (set_sleepers (Some a') s) o') a o →
  wp (on_sleepers m) Q s o.
Proof. intros Hq Hm. unfold on_sleepers. wp_step. wp_step. rewrite Hq. wp_run. done. Qed.
Lemma wp_on_zombies {A} (m : K (array tid) A) Q s a o :
  zombies s = Some a → wp m (λ r a' o', Q r (set_zombies (Some a') s) o') a o →
  wp (on_zombies m) Q s o.
Proof. intros Hq Hm. unfold on_zombies. wp_step. wp_step. rewrite Hq. wp_run. done. Qed.
Lemma wp_assert_spl Q s o : 0 < curspl s → Q tt s o → wp assert_spl Q s o.
Proof. intros Hs HQ. unfold assert_spl. by wp_run. Qed.
Lemma wp_get_thread Q s t th o : threads s !! t = Some th → Q th s o → wp (get_thread t) Q s o.
Proof. intros Ht HQ. unfold get_thread. wp_run. apply wp_deref. eauto. Qed.
Lemma wp_put_thread Q s t th th' o :
  threads s !! t = Some th → Q tt (set_threads (<[t := th']> (threads s)) s) o → wp (put_thread t th') Q s o.
Proof. intros Ht HQ. unfold put_thread. wp_step. eapply wp_get_thread; [done|]. by wp_run. Qed.
Lemma wp_set_sleepaddr Q s t th a o :
  threads s !! t = Some th →
  Q tt (set_threads (<[t := mkThread a (t_stack th) (t_vmspace th) (t_cwd th) (t_pid th)
                           (pcb_ininterrupt th)]> (threads s)) s) o →
  wp (set_sleepaddr t a) Q s o.
Proof.
  intros Ht HQ. unfold set_sleepaddr. wp_step. eapply wp_get_thread; [done|]. by eapply wp_put_thread.
Qed.
Lemma wp_get_curthread Q s t o : curthread s = Some t → Q t s o → wp get_curthread Q s o.
Proof. intros Ht HQ. unfold get_curthread. wp_run. rewrite Ht. by wp_run. Qed.
Lemma wp_check_stack Q s t th o :
  threads s !! t = Some th → (t_stack th = None ∨ t_stack th = Some stack_magic) → Q tt s o →
  wp (check_stack t) Q s o.
Proof.
  intros Ht Hst HQ. unfold check_stack. wp_step. eapply wp_get_thread; [done|].
  destruct Hst as [->| ->]; wp_run; [done|]. done.
Qed.

(** *** Run queue *)
Lemma make_runnable_spec s q rq t o :
  0 < curspl s → runqueue s = Some q → queue_rep q rq → Z.of_nat (length rq) + 1 < 2 ^ 29 →
  wp (make_runnable t) (λ r s' o',
    ∃ q', s' = set_runqueue (Some q') s ∧
    ((r = 0 ∧ queue_rep q' (rq ++ [t]) ∧ (o' = o ∨ o' = tail o)) ∨
     (r = ENOMEM ∧ Z.of_nat (length rq) + 1 = size q ∧ fails o ∧ q' = q))) s o.
Proof.
  intros Hs Hq Hrep Hlen. unfold make_runnable. wp_step. apply wp_assert_spl; [done|].
  eapply wp_on_runqueue; [done|]. eapply wp_mono; [by apply q_addtail_spec|]. cbn beta.
  intros r q' o' [(-> & Hq' & _ & _ & Ho)|(-> & Hfull & Hf & -> & _)]; eexists; (split; [done|]).
  - left. done.
  - right. done.
Qed.
(** With memory to spare *)
Lemma make_runnable_ok s q rq t :
  0 < curspl s → runqueue s = Some q → queue_rep q rq → Z.of_nat (length rq) + 1 < 2 ^ 29 →
  wp (make_runnable t) (λ r s' o', r = 0 ∧ o' = [] ∧
    ∃ q', s' = set_runqueue (Some q') s ∧ queue_rep q' (rq ++ [t])) s [].
Proof.
  intros Hs Hq Hrep Hlen. eapply wp_mono; [by eapply (make_runnable_spec s q rq t)|]. cbn beta.
  intros r s' o' (q' & -> & [(-> & Hq' & [->| ->])|(_ & _ & Hf & _)]); [by eauto..|].
  by apply not_fails_nil in Hf.
Qed.

(** *** Waking up *)
Definition sleeps_on (m : gmap tid thread) (addr : chan) (t : tid) : Prop :=
  (t_sleepaddr <$> m !! t) = Some (Some addr).
#[export] Instance sleeps_on_dec m addr t : Decision (sleeps_on m addr t).
Proof. unfold sleeps_on. solve_decision. Defined.

Lemma array_rep_num (a : array tid) xs : array_rep a xs → num a = Z.of_nat (length xs).
Proof. intros (Hn & _). by rewrite length_fmap in Hn. Qed.
Lemma getnum_spec s a sl o :
  sleepers s = Some a → array_rep a sl →
  wp (on_sleepers array_getnum) (λ r s' o', r = Z.of_nat (length sl) ∧ s' = s ∧ o' = o) s o.
Proof.
  intros Ha Hrep. eapply wp_on_sleepers; [done|]. unfold array_getnum. wp_run.
  split; [by apply array_rep_num|]. split; [|done]. destruct s; simpl in *. by subst.
Qed.

Lemma wakeup_loop_spec addr fuel s q a rq pre sl :
  0 < curspl s → runqueue s = Some q → queue_rep q rq → sleepers s = Some a →
  array_rep a (pre ++ sl) → Z.of_nat (length rq + length sl) + 1 < 2 ^ 29 →
  (∀ t, t ∈ sl → is_Some (threads s !! t)) → (length sl ≤ fuel)%nat →
  wp (wakeup_loop fuel addr (Z.of_nat (length pre))) (λ _ s' o', o' = [] ∧ ∃ q' a',
    s' = set_runqueue (Some q') (set_sleepers (Some a') s) ∧
    queue_rep q' (rq ++ filter (sleeps_on (threads s) addr) sl) ∧
    array_rep a' (pre ++ filter (λ t, ¬ sleeps_on (threads s) addr t) sl)) s [].
Proof.
  revert fuel s q a rq pre. induction sl as [|t sl IH]; intros fuel s q a rq pre Hs Hq Hrq Ha Hsl Hlen Hth Hf.
  { assert (∀ n, wp (wakeup_loop n addr (Z.of_nat (length pre))) (λ _ s' o', o' = [] ∧ s' = s) s []) as Hn.
    { intros n. rewrite app_nil_r in Hsl. destruct n; cbn [wakeup_loop]; wp_step;
        (eapply wp_mono; [by eapply getnum_spec|]); cbn beta; intros ? s' o' (-> & -> & ->);
        rewrite Z.ltb_irrefl; by wp_run. }
    eapply wp_mono; [apply Hn|]. cbn beta. intros _ s' o' (-> & ->). split; [done|].
    exists q, a. split; [destruct s; simpl in *; by subst|]. rewrite !filter_nil, !app_nil_r. split; [done|].
    by rewrite app_nil_r in Hsl. }
  destruct fuel as [|fuel]; [simpl in Hf; lia|]. cbn [wakeup_loop]. wp_step.
  eapply wp_mono; [by eapply getnum_spec|]. cbn beta. intros ? s' o' (-> & -> & ->).
  rewrite length_app. cbn [length]. destruct (Z.ltb_spec (Z.of_nat (length pre)) (Z.of_nat (length pre + S (length sl)))); [|lia].
  wp_step. eapply wp_on_sleepers; [done|].
  eapply wp_mono; [eapply (array_getguy_spec a _ _ t); [done|]|].
  { rewrite zlookup_nat. apply list_lookup_middle. done. }
  cbn beta. intros ? a' o' (-> & -> & ->). assert (set_sleepers (Some a) s = s) as -> by (destruct s; simpl in *; by subst).
  destruct (Hth t ltac:(set_solver)) as [th Hth']. wp_step. eapply wp_get_thread; [done|].
  simpl in Hlen, Hf. rewrite !filter_cons. case_bool_decide as Haddr.
  - rewrite decide_True, decide_False by (unfold sleeps_on; rewrite Hth'; simpl; (congruence || intros []; congruence)).
    wp_step. eapply wp_on_sleepers; [done|]. eapply wp_mono; [apply array_remove_spec; [done|rewrite length_app; simpl; lia]|].
    cbn beta. intros _ a1 o' (-> & Ha1). rewrite Nat2Z.id, delete_middle in Ha1. wp_step.
    eapply wp_mono; [eapply (make_runnable_ok _ q rq); simpl; try done; lia|]. cbn beta.
    intros ? s' o' (-> & -> & q1 & -> & Hq1). wp_step. wp_step; [done|].
    eapply wp_mono; [eapply (IH fuel _ q1 a1 (rq ++ [t]) pre); simpl; try done|].
    + rewrite length_app. simpl. lia.
    + intros t' Ht'. apply Hth. set_solver.
    + lia.
    + cbn beta. intros _ s' o' (-> & q2 & a2 & -> & Hq2 & Ha2). split; [done|]. exists q2, a2. simpl in *.
      rewrite <- app_assoc in Hq2. done.
  - rewrite decide_False, decide_True by (unfold sleeps_on; rewrite Hth'; simpl; congruence).
    replace (Z.of_nat (length pre) + 1) with (Z.of_nat (length (pre ++ [t]))) by (rewrite length_app; simpl; lia).
    eapply wp_mono; [eapply (IH fuel s q a rq (pre ++ [t])); try done|].
    + by rewrite <- app_assoc.
    + lia.
    + intros t' Ht'. apply Hth. set_solver.
    + lia.
    + cbn beta. intros _ s' o' (-> & q2 & a2 & -> & Hq2 & Ha2). split; [done|]. exists q2, a2.
      rewrite <- app_assoc in Ha2. done.
Qed.

(** [thread_wakeup] moves exactly the threads that sleep on the address to
    the end of the run queue, in their order. *)
Lemma thread_wakeup_spec addr s q a rq sl :
  0 < curspl s → runqueue s = Some q → queue_rep q rq → sleepers s = Some a → array_rep a sl →
  Z.of_nat (length rq + length sl) + 1 < 2 ^ 29 → (∀ t, t ∈ sl → is_Some (threads s !! t)) →
  wp (thread_wakeup addr) (λ _ s' o', o' = [] ∧ ∃ q' a',
    s' = set_runqueue (Some q') (set_sleepers (Some a') s) ∧
    queue_rep q' (rq ++ filter (sleeps_on (threads s) addr) sl) ∧
    array_rep a' (filter (λ t, ¬ sleeps_on (threads s) addr t) sl)) s [].
Proof.
  intros Hs Hq Hrq Ha Hsl Hlen Hth. unfold thread_wakeup. wp_step. apply wp_assert_spl; [done|]. wp_step.
  eapply wp_mono; [by eapply getnum_spec|]. cbn beta. intros ? s' o' (-> & -> & ->).
  eapply (wakeup_loop_spec addr _ s q a rq []); try done. lia.
Qed.

(** *** Zombies *)
Lemma exorcise_loop_spec s z pre zb o :
  zombies s = Some z → array_rep z (pre ++ zb) → NoDup zb → curthread s ∉ Some <$> zb →
  (∀ t, t ∈ zb → ∃ th, threads s !! t = Some th ∧ t_vmspace th = None ∧ t_cwd th = None) →
  wp (kfor (length zb) (Z.of_nat (length pre)) exorcise_one) (λ _ s' o', o' = o ∧ ∃ m,
    s' = set_threads m s ∧ ∀ t, m !! t = if decide (t ∈ zb) then None else threads s !! t) s o.
Proof.
  revert s pre. induction zb as [|t zb IH]; intros s pre Hz Hrep Hnd Hc Hth; cbn [length kfor].
  { wp_run. split; [done|]. exists (threads s). split; [by destruct s|]. done. }
  apply NoDup_cons in Hnd as [Hn Hnd]. destruct (Hth t ltac:(set_solver)) as (th & Ht & Hv & Hcw).
  wp_step. unfold exorcise_one. wp_step. eapply wp_on_zombies; [done|].
  eapply wp_mono; [eapply (array_getguy_spec z _ _ t); [done|rewrite zlookup_nat; by apply list_lookup_middle]|].
  cbn beta. intros ? z' o' (-> & -> & ->). assert (set_zombies (Some z) s = s) as -> by (destruct s; simpl in *; by subst).
  assert (curthread s ≠ Some t) as Hct by set_solver.
  wp_step. wp_step. wp_step. wp_step; [by apply bool_decide_eq_true|].
  unfold thread_destroy. wp_step. wp_step. wp_step. wp_step; [by apply bool_decide_eq_true|].
  wp_step. eapply wp_get_thread; [done|]. wp_step. wp_step; [by apply bool_decide_eq_true|].
  wp_step. wp_step; [by apply bool_decide_eq_true|]. unfold free_thread. wp_step.
  eapply wp_get_thread; [done|]. wp_step.
  replace (Z.of_nat (length pre) + 1) with (Z.of_nat (length (pre ++ [t]))) by (rewrite length_app; simpl; lia).
  eapply wp_mono; [apply (IH _ (pre ++ [t])); simpl; try done|].
  - by rewrite <- app_assoc.
  - set_solver.
  - intros t' Ht'. rewrite lookup_delete_ne by set_solver. apply Hth. set_solver.
  - cbn beta. intros _ s' o' (-> & m & -> & Hm). split; [done|]. exists m. split; [done|].
    intros t'. rewrite Hm. simpl. destruct (decide (t' = t)) as [->|Hne].
    + rewrite lookup_delete_eq. repeat case_decide; set_solver.
    + rewrite lookup_delete_ne by done. repeat case_decide; set_solver.
Qed.
Lemma exorcise_spec s z zb o :
  0 < curspl s → zombies s = Some z → array_rep z zb → NoDup zb → curthread s ∉ Some <$> zb →
  (∀ t, t ∈ zb → ∃ th, threads s !! t = Some th ∧ t_vmspace th = None ∧ t_cwd th = None) →
  wp exorcise (λ _ s' o', o' = o ∧ ∃ m z',
    s' = set_zombies (Some z') (set_threads m s) ∧ array_rep z' [] ∧
    ∀ t, m !! t = if decide (t ∈ zb) then None else threads s !! t) s o.
Proof.
  intros Hs Hz Hrep Hnd Hc Hth. unfold exorcise. wp_step. apply wp_assert_spl; [done|]. wp_step.
  eapply wp_on_zombies; [done|]. unfold array_getnum. wp_step.
  assert (set_zombies (Some z) s = s) as -> by (destruct s; simpl in *; by subst).
  rewrite (array_rep_num _ _ Hrep), Nat2Z.id. wp_step.
  eapply wp_mono; [by apply (exorcise_loop_spec s z [])|]. cbn beta. intros _ s' o' (-> & m & -> & Hm). wp_step.
  eapply wp_on_zombies; [done|].
  eapply wp_mono; [apply (array_setsize_spec z (Some <$> zb) 0); [done|lia]|]. cbn beta.
  pose proof (array_cells_bound _ _ Hrep) as Hb.
  intros r z' o' (Ho & [(-> & _ & cs & Hcs & Hl & _)|(_ & Hlt & _)]); [|lia].
  destruct (Z.ltb_spec (max z) 0); [lia|]. subst o'. wp_run. split; [done|].
  exists m, z'. split; [done|]. split; [|done]. assert (cs = []) as ->; [|done].
  destruct cs; [done|simpl in Hl; lia].
Qed.

(** *** Leaving the processor *)
Lemma mi_switch_ready_spec s q rq t th :
  0 < curspl s → curthread s = Some t → threads s !! t = Some th →
  (t_stack th = None ∨ t_stack th = Some stack_magic) →
  runqueue s = Some q → queue_rep q rq → Z.of_nat (length rq) + 1 < 2 ^ 29 →
  wp (mi_switch_out S_READY) (λ r s' o', r = Some t ∧ o' = [] ∧
    ∃ q', s' = set_runqueue (Some q') (set_curthread None s) ∧ queue_rep q' (rq ++ [t])) s [].
Proof.
  intros Hs Hc Ht Hst Hq Hrq Hlen. unfold mi_switch_out. wp_step. apply wp_assert_spl; [done|].
  wp_step. wp_step. rewrite Hc. wp_step. eapply wp_check_stack; [done..|]. wp_step. wp_step. wp_step.
  eapply wp_mono; [eapply (make_runnable_ok _ q rq); done|]. cbn beta.
  intros ? s' o' (-> & -> & q' & -> & Hq'). wp_run. eauto.
Qed.
Lemma array_add_ok (a : array tid) xs x :
  array_rep a xs → Z.of_nat (length xs) < 2 ^ 29 →
  wp (array_add x) (λ r a' o', r = 0 ∧ o' = [] ∧ array_rep a' (xs ++ [x])) a [].
Proof.
  intros Ha Hlen. eapply wp_mono; [by apply array_add_spec|]. cbn beta.
  intros r a' o' (-> & [(-> & _ & Ha')|(_ & _ & Hf & _)]); [|by apply not_fails_nil in Hf].
  split; [done|]. split; [by destruct (_ <? _)|done].
Qed.
Lemma mi_switch_sleep_spec s a sl t th :
  0 < curspl s → curthread s = Some t → threads s !! t = Some th →
  (t_stack th = None ∨ t_stack th = Some stack_magic) →
  sleepers s = Some a → array_rep a sl → Z.of_nat (length sl) < 2 ^ 29 →
  wp (mi_switch_out S_SLEEP) (λ r s' o', r = Some t ∧ o' = [] ∧
    ∃ a', s' = set_sleepers (Some a') (set_curthread None s) ∧ array_rep a' (sl ++ [t])) s [].
Proof.
  intros Hs Hc Ht Hst Hq Hrq Hlen. unfold mi_switch_out. wp_step. apply wp_assert_spl; [done|].
  wp_step. wp_step. rewrite Hc. wp_step. eapply wp_check_stack; [done..|]. wp_step. wp_step. wp_step.
  eapply wp_on_sleepers; [done|]. eapply wp_mono; [by apply array_add_ok|]. cbn beta.
  intros ? a' o' (-> & -> & Ha'). wp_run. eauto.
Qed.
Lemma mi_switch_zomb_spec s a zb t th :
  0 < curspl s → curthread s = Some t → threads s !! t = Some th →
  (t_stack th = None ∨ t_stack th = Some stack_magic) →
  zombies s = Some a → array_rep a zb → Z.of_nat (length zb) < 2 ^ 29 →
  wp (mi_switch_out S_ZOMB) (λ r s' o', r = Some t ∧ o' = [] ∧
    ∃ a', s' = set_zombies (Some a') (set_curthread None s) ∧ array_rep a' (zb ++ [t])) s [].
Proof.
  intros Hs Hc Ht Hst Hq Hrq Hlen. unfold mi_switch_out. wp_step. apply wp_assert_spl; [done|].
  wp_step. wp_step. rewrite Hc. wp_step. eapply wp_check_stack; [done..|]. wp_step. wp_step. wp_step.
  eapply wp_on_zombies; [done|]. eapply wp_mono; [by apply array_add_ok|]. cbn beta.
  intros ? a' o' (-> & -> & Ha'). wp_run. eauto.
Qed.

End Lists.
