(* ===== verification/SynchSpec.v ===== *)
(** * Correctness of the synchronization primitives

    Threads run arbitrary disciplined programs over semaphores, locks and
    condition variables and are interrupted anywhere.  An invariant [J] holds
    whenever a thread can be interrupted or leaves the processor; the code of
    every thread is shown to keep it ([okR]), and so it holds in every world
    that can be reached. *)
From S2P Require Import Prelude Array Queue Thread ThreadSpec Synch.

(** What a thread is doing, as far as others are concerned *)
Inductive mode : Set := Run | Irq | InLock (l : Z) | InCv (c : Z) | InSem (k : Z) | Dead.
#[export] Instance mode_eq_dec : EqDecision mode.
Proof. solve_decision. Defined.

(** ... with the locks it has, and those it has taken note of *)
Record ghost : Set := G { gm : mode; own : gset Z; lg : gset Z }.
Definition flag (md : mode) : Z := match md with Irq => 1 | _ => 0 end.
Definition addr_of (t : tid) (md : mode) : option chan :=
  match md with
  | InLock _ | InCv _ => Some (WThread t)
  | InSem k => Some (WSem k)
  | _ => None
  end.

(** The processor belongs to a thread, or a thread is leaving it. *)
Inductive who : Set := Running (t : tid) | Leaving (t : tid).
Definition who_tid (w : who) : tid := match w with Running t | Leaving t => t end.
Definition on_cpu (w : who) : list tid := match w with Running t => [t] | Leaving _ => [] end.

Section Synch.
  Context {D : Type}.
  Abbreviation U := (gmap tid (gset Z) * D)%type.
  Context `{!ThreadEnv U}.
  Context (N : Z) (DL DC DS : gset Z).
  Abbreviation ksys := (tsys (synch U)).
  Abbreviation kcode := (code (synch U)).
  Abbreviation KT := (T (synch U)).
  Implicit Types (s : ksys) (μ : gmap tid ghost) (rq sl zb : list tid).

(** ** The invariant *)
Definition lock_ok (μ : gmap tid ghost) (sl : list tid) (l : Z) (lk : lock) : Prop :=
  ∃ q W, lock_queue lk = Some q ∧ queue_rep q W ∧ NoDup W ∧ (held lk = None → W = []) ∧
    ∀ t, t ∈ W ↔ t ∈ sl ∧ gm <$> μ !! t = Some (InLock l).
Definition cv_ok (μ : gmap tid ghost) (sl : list tid) (c : Z) (v : cv) : Prop :=
  ∃ q W, cv_queue v = Some q ∧ queue_rep q W ∧ NoDup W ∧
    ∀ t, t ∈ W ↔ t ∈ sl ∧ gm <$> μ !! t = Some (InCv c).

(** The objects *)
Record objs_ok (x : synch U) (μ : gmap tid ghost) (sl : list tid) (B : Z) : Prop := {
  ob_lock : ∀ l lk, locks x !! l = Some lk → lock_ok μ sl l lk;
  ob_grant : ∀ t l, gm <$> μ !! t = Some (InLock l) → t ∉ sl →
    ∃ lk, locks x !! l = Some lk ∧ held lk = Some t;
  ob_cv : ∀ c v, cvs x !! c = Some v → cv_ok μ sl c v;
  ob_sem : ∀ k n, sems x !! k = Some n → 0 ≤ n ≤ B;
  ob_semsleep : ∀ t k, t ∈ sl → gm <$> μ !! t = Some (InSem k) → sems x !! k = Some 0;
  ob_log : ∀ t g, μ !! t = Some g → (user x).1 !! t = Some (lg g) ∧ lg g ⊆ own g;
  ob_own : ∀ t g l, μ !! t = Some g → l ∈ own g →
    ∃ lk, locks x !! l = Some lk ∧ held lk = Some t;
  ob_dom : dom (locks x) = DL ∧ dom (cvs x) = DC ∧ dom (sems x) = DS;
}.

(** The threads *)
Record threads_ok (w : who) s μ rq sl zb : Prop := {
  th_cur : curthread s = head (on_cpu w);
  th_lists : tlists s rq sl zb;
  th_nodup : NoDup (on_cpu w ++ rq ++ sl ++ zb);
  th_dom : ∀ t, is_Some (threads s !! t) ↔ t ∈ on_cpu w ++ rq ++ sl ++ zb;
  th_len : Z.of_nat (length (on_cpu w ++ rq ++ sl ++ zb)) ≤ N;
  th_num : numthreads s = Z.of_nat (length (on_cpu w ++ rq ++ sl));
  th_wf : ∀ t th, threads s !! t = Some th →
    t_vmspace th = None ∧ t_cwd th = None ∧ (t_stack th = None ∨ t_stack th = Some stack_magic);
  th_who : who_tid w ∈ on_cpu w ++ rq ++ sl ++ zb;
  th_pcb : ∀ t th g, threads s !! t = Some th → μ !! t = Some g → t ≠ who_tid w →
    pcb_ininterrupt th = flag (gm g);
  th_mode : ∀ t, t ∈ on_cpu w ++ rq ++ sl ++ zb → is_Some (μ !! t);
  th_dead : ∀ t, gm <$> μ !! t = Some Dead → t ∉ on_cpu w ++ rq ++ sl;
  th_sleep : ∀ t, t ∈ sl → ∃ g th, μ !! t = Some g ∧ threads s !! t = Some th ∧
    t_sleepaddr th = addr_of t (gm g) ∧ is_Some (addr_of t (gm g));
}.

(** Whether the thread is in an interrupt *)
Definition int_ok (w : who) s μ : Prop :=
  ∃ g, μ !! who_tid w = Some g ∧ in_interrupt s = flag (gm g).

Definition J0 (w : who) s μ (B : Z) : Prop :=
  ∃ rq sl zb, threads_ok w s μ rq sl zb ∧ objs_ok (ext s) μ sl B.
Definition J (w : who) s μ (B : Z) : Prop := J0 w s μ B ∧ int_ok w s μ.

(** ** Code that keeps the invariant

    [okR c t s μ B o]: thread [t], running [c] from the state [s], gets to a
    point where it can be interrupted or leaves the processor with the
    invariant, and will do so again whenever it is resumed. *)
Fixpoint okR (c : kcode) (t : tid) (s : ksys) (μ : gmap tid ghost) (B : Z) (o : oracle) : Prop :=
  match c with
  | CExit => False
  | Fork _ _ _ => False
  | Step m =>
      match m s o with
      | Done (c', s', o') =>
          if curspl s' =? 0 then
            o' = [] ∧ ∃ O L, J (Running t) s' (<[t := G Run O L]> μ) (B + 1) ∧
              ∀ s2 μ2 B2, J (Running t) s2 μ2 B2 → μ2 !! t = Some (G Run O L) → curspl s2 = 0 →
                B2 + 1 < 2 ^ 31 → okR c' t s2 μ2 B2 []
          else okR c' t s' μ B o'
      | Halt e => e = Spin
      end
  | Switch cur k =>
      cur = t ∧ o = [] ∧ curspl s = SPL_HIGH ∧ ∃ g, J (Leaving t) s (<[t := g]> μ) (B + 1) ∧
        ∀ s2 μ2 B2, J (Running t) s2 μ2 B2 → μ2 !! t = Some g → curspl s2 = SPL_HIGH →
          B2 + 1 < 2 ^ 31 → okR k t s2 μ2 B2 []
  end.

(** [c] keeps the invariant from every point where [t] can be interrupted ... *)
Definition stable (t : tid) (O L : gset Z) (c : kcode) : Prop :=
  ∀ s μ B, J (Running t) s μ B → μ !! t = Some (G Run O L) → curspl s = 0 → B + 1 < 2 ^ 31 →
    okR c t s μ B [].
(** ... and from every point where it gets the processor back. *)
Definition resumable (t : tid) (g : ghost) (c : kcode) : Prop :=
  ∀ s μ B, J (Running t) s μ B → μ !! t = Some g → curspl s = SPL_HIGH → B + 1 < 2 ^ 31 →
    okR c t s μ B [].

Lemma okR_lift {A} (m : K ksys A) (k : A → kcode) t s μ B o :
  wp m (λ a s' o', if curspl s' =? 0 then
      o' = [] ∧ ∃ O L, J (Running t) s' (<[t := G Run O L]> μ) (B + 1) ∧ stable t O L (k a)
    else okR (k a) t s' μ B o') s o →
  okR (lift m k) t s μ B o.
Proof.
  unfold wp, lift, bind. cbn [okR]. intros Hm. destruct (m s o) as [[[a s'] o']|e]; [|done].
  cbn [ret]. unfold ret. destruct (curspl s' =? 0); [|done]. destruct Hm as (-> & O & L & HJ & Hst). eauto.
Qed.
(** A step that leaves interrupts off *)
Lemma okR_off {A} (m : K ksys A) (k : A → kcode) t s μ B o :
  wp m (λ a s' o', curspl s' ≠ 0 ∧ okR (k a) t s' μ B o') s o → okR (lift m k) t s μ B o.
Proof.
  intros Hm. apply okR_lift. eapply wp_mono; [exact Hm|]. cbn beta. intros a s' o' [Hc Hok].
  by destruct (Z.eqb_spec (curspl s') 0).
Qed.
(** A step that leaves interrupts on *)
Lemma okR_on {A} (m : K ksys A) (k : A → kcode) t s μ B o :
  wp m (λ a s' o', curspl s' = 0 ∧ o' = [] ∧
    ∃ O L, J (Running t) s' (<[t := G Run O L]> μ) (B + 1) ∧ stable t O L (k a)) s o →
  okR (lift m k) t s μ B o.
Proof.
  intros Hm. apply okR_lift. eapply wp_mono; [exact Hm|]. cbn beta. intros a s' o' [Hc Hok].
  by rewrite Hc, Z.eqb_refl.
Qed.
Lemma okR_tbind {A C} (m : KT A) (f : A → KT C) k t s μ B o :
  okR (m (λ a, f a k)) t s μ B o → okR (tbind m f k) t s μ B o.
Proof. done. Qed.

(** Only the ghost state of the others matters. *)
Lemma okR_ghost c t s μ g B o : okR c t s (<[t := g]> μ) B o ↔ okR c t s μ B o.
Proof.
  revert c s B o. fix IH 1. intros [|m|cur k|t' c' k] s B o; cbn [okR]; try done.
  - destruct (m s o) as [[[c' s'] o']|e]; [|done]. destruct (curspl s' =? 0); [|apply IH].
    by setoid_rewrite insert_insert_eq.
  - by setoid_rewrite insert_insert_eq.
Qed.

Lemma okR_switch k t s μ B g :
  curspl s = SPL_HIGH → J (Leaving t) s (<[t := g]> μ) (B + 1) → resumable t g k →
  okR (Switch t k) t s μ B [].
Proof. intros Hs HJ Hk. cbn [okR]. split_and!; [done..|]. by exists g. Qed.
#[local] Opaque okR.

(** ** How the invariant moves *)
Lemma objs_ok_mono x μ sl B B' : B ≤ B' → objs_ok x μ sl B → objs_ok x μ sl B'.
Proof. intros HB []. split; try done. intros k n Hn. specialize (ob_sem0 k n Hn). lia. Qed.
Lemma J_mono w s μ B B' : B ≤ B' → J w s μ B → J w s μ B'.
Proof.
  intros HB ((rq & sl & zb & H1 & H2) & Hi). split; [|done]. exists rq, sl, zb. split; [done|].
  by eapply objs_ok_mono.
Qed.

(** The fields that it does not mention *)
Lemma threads_ok_frame w s s' μ rq sl zb :
  curthread s' = curthread s → runqueue s' = runqueue s → sleepers s' = sleepers s →
  zombies s' = zombies s → threads s' = threads s → numthreads s' = numthreads s →
  threads_ok w s μ rq sl zb → threads_ok w s' μ rq sl zb.
Proof. intros E1 E2 E3 E4 E5 E6 []. split; unfold tlists in *; rewrite ?E1, ?E2, ?E3, ?E4, ?E5, ?E6; done. Qed.
Lemma J_curspl w s μ B z : J w s μ B → J w (set_curspl z s) μ B.
Proof.
  intros ((rq & sl & zb & H1 & H2) & Hi). split; [|done]. exists rq, sl, zb. split; [|done].
  by eapply threads_ok_frame; [..|exact H1].
Qed.
Lemma J_lbolt w s μ B z : J w s μ B → J w (set_lbolt z s) μ B.
Proof.
  intros ((rq & sl & zb & H1 & H2) & Hi). split; [|done]. exists rq, sl, zb. split; [|done].
  by eapply threads_ok_frame; [..|exact H1].
Qed.

Lemma th_cpu w s μ rq sl zb t :
  threads_ok w s μ rq sl zb → t ∈ on_cpu w → (t ∉ rq) ∧ (t ∉ sl) ∧ (t ∉ zb).
Proof. intros [] Ht. apply NoDup_app in th_nodup0 as (_ & H1 & _). specialize (H1 t Ht). set_solver. Qed.
Lemma J_lookup w s μ B t :
  J w s μ B → is_Some (threads s !! t) → is_Some (μ !! t).
Proof. intros ((rq & sl & zb & [] & _) & _) Ht. apply th_mode0. by apply th_dom0. Qed.

(** *** The thread leaves the processor *)
Lemma threads_ok_ready s μ rq sl zb t q' :
  threads_ok (Running t) s μ rq sl zb → queue_rep q' (rq ++ [t]) →
  threads_ok (Leaving t) (set_runqueue (Some q') (set_curthread None s)) μ (rq ++ [t]) sl zb.
Proof.
  intros [] Hq. assert ([t] ++ rq ++ sl ++ zb ≡ₚ (rq ++ [t]) ++ sl ++ zb) as Hp.
  { rewrite (Permutation_app_comm rq [t]). by rewrite <- !app_assoc. }
  assert ([t] ++ rq ++ sl ≡ₚ (rq ++ [t]) ++ sl) as Hp'.
  { rewrite (Permutation_app_comm rq [t]). by rewrite <- !app_assoc. }
  split; simpl in *; try done.
  - destruct th_lists0 as (_ & ? & ?). split_and!; [by eauto|done..].
  - by rewrite <- Hp.
  - intros t'. rewrite th_dom0. by rewrite <- Hp.
  - rewrite <- Hp. done.
  - rewrite <- Hp'. done.
  - set_solver.
  - intros t' Ht'. apply th_mode0. by rewrite <- Hp in Ht'.
  - intros t' Ht'. rewrite <- Hp'. by apply th_dead0.
Qed.
Definition with_addr (th : thread) (a : option chan) : thread :=
  mkThread a (t_stack th) (t_vmspace th) (t_cwd th) (t_pid th) (pcb_ininterrupt th).
Definition asleep s t (th : thread) (addr : chan) (a' : array tid) : ksys :=
  set_sleepers (Some a') (set_curthread None
    (set_threads (<[t := with_addr th (Some addr)]> (threads s)) s)).
Lemma threads_ok_sleep s μ rq sl zb t th g g' addr a' :
  threads_ok (Running t) s μ rq sl zb → threads s !! t = Some th → μ !! t = Some g →
  addr_of t (gm g') = Some addr → array_rep a' (sl ++ [t]) →
  threads_ok (Leaving t) (asleep s t th addr a') (<[t := g']> μ) rq (sl ++ [t]) zb.
Proof.
  intros Hth Ht Hg Ha Hrep. destruct (th_cpu _ _ _ _ _ _ t Hth) as (Hr & Hs & Hz); [set_solver|].
  destruct Hth. assert ([t] ++ rq ++ sl ++ zb ≡ₚ rq ++ (sl ++ [t]) ++ zb) as Hp by solve_Permutation.
  assert ([t] ++ rq ++ sl ≡ₚ rq ++ (sl ++ [t])) as Hp' by solve_Permutation.
  split; simpl in *; try done.
  - destruct th_lists0 as (? & _ & ?). split_and!; [done|by eauto|done].
  - by rewrite <- Hp.
  - intros t'. rewrite lookup_insert_is_Some, th_dom0, <- Hp. destruct (decide (t = t')); set_solver.
  - rewrite <- Hp. done.
  - rewrite <- Hp'. done.
  - intros t' th'. rewrite lookup_insert. case_decide; [|by eauto]. intros [= <-]. simpl. eauto.
  - set_solver.
  - intros t' th' g'' Ht' Hg'' Hne. rewrite lookup_insert_ne in Ht' by done. rewrite lookup_insert_ne in Hg'' by done. by eapply th_pcb0.
  - intros t' Ht'. rewrite <- Hp in Ht'. rewrite lookup_insert_is_Some.
    destruct (decide (t = t')); [by left|right; eauto].
  - intros t'. rewrite lookup_insert. case_decide as Heq.
    + subst t'. simpl. intros [= Hd]. by rewrite Hd in Ha.
    + intros Hd. rewrite <- Hp'. by apply th_dead0.
  - intros t' [Ht'|Ht']%elem_of_app.
    + assert (t' ≠ t) by set_solver. rewrite !lookup_insert_ne by done. by apply th_sleep0.
    + apply list_elem_of_singleton in Ht' as ->. eexists g', _. rewrite !lookup_insert_eq.
      split_and!; [done..|]. by rewrite Ha.
Qed.
Lemma threads_ok_zomb s μ rq sl zb t O L a' :
  threads_ok (Running t) s μ rq sl zb → array_rep a' (zb ++ [t]) →
  threads_ok (Leaving t) (set_zombies (Some a') (set_curthread None
    (set_numthreads (numthreads s - 1) s))) (<[t := G Dead O L]> μ) rq sl (zb ++ [t]).
Proof.
  intros Hth Hrep. destruct (th_cpu _ _ _ _ _ _ t Hth) as (Hr & Hs & Hz); [set_solver|].
  destruct Hth. assert ([t] ++ rq ++ sl ++ zb ≡ₚ rq ++ sl ++ (zb ++ [t])) as Hp by solve_Permutation.
  split; simpl in *; try done.
  - destruct th_lists0 as (? & ? & _). split_and!; [done|done|by eauto].
  - by rewrite <- Hp.
  - intros t'. by rewrite th_dom0, <- Hp.
  - rewrite <- Hp. done.
  - lia.
  - set_solver.
  - intros t' th' g'' Ht' Hg'' Hne. rewrite lookup_insert_ne in Hg'' by done. by eapply th_pcb0.
  - intros t' Ht'. rewrite <- Hp in Ht'. rewrite lookup_insert_is_Some.
    destruct (decide (t = t')); [by left|right; eauto].
  - intros t'. rewrite lookup_insert. case_decide as Heq; [subst t'; set_solver|].
    intros Hd. apply th_dead0 in Hd. set_solver.
  - intros t' Ht'. assert (t' ≠ t) by set_solver. rewrite !lookup_insert_ne by done. by apply th_sleep0.
Qed.

(** *** Another thread gets it *)
Definition switched s cur next (old nu : thread) : ksys :=
  set_in_interrupt (pcb_ininterrupt nu)
    (set_threads (<[cur := mkThread (t_sleepaddr old) (t_stack old) (t_vmspace old) (t_cwd old)
                            (t_pid old) (in_interrupt s)]> (threads s))
       (set_curthread (Some next) s)).
Lemma threads_ok_resume s μ rq sl zb cur next q' old nu :
  threads_ok (Leaving cur) s μ (next :: rq) sl zb → int_ok (Leaving cur) s μ → queue_rep q' rq → cur ≠ next →
  threads s !! cur = Some old → threads s !! next = Some nu →
  threads_ok (Running next) (switched (set_runqueue (Some q') s) cur next old nu) μ rq sl zb.
Proof.
  intros [] (g0 & Hg0 & Hi) Hq Hne Hold Hnu. split; simpl in *; try done.
  - destruct th_lists0 as (_ & ? & ?). split_and!; [by eauto|done..].
  - intros t. rewrite lookup_insert_is_Some, th_dom0. destruct (decide (cur = t)); [subst; set_solver|tauto].
  - intros t th. rewrite lookup_insert. case_decide; [|by eauto]. intros [= <-]. simpl. eauto.
  - set_solver.
  - intros t th g. rewrite lookup_insert. case_decide as Heq.
    + intros [= <-] Hg _. simpl. subst t. simpl in Hg0. by simplify_eq.
    + intros Ht Hg _. by eapply th_pcb0.
  - intros t Ht. destruct (th_sleep0 t Ht) as (g & th & Hg & Ht' & Ha & Hs). rewrite lookup_insert.
    case_decide as Heq; [|by eauto]. subst t. simplify_eq. eauto 10.
Qed.
Lemma threads_ok_resume_same s μ rq sl zb next q' :
  threads_ok (Leaving next) s μ (next :: rq) sl zb → queue_rep q' rq →
  threads_ok (Running next) (set_curthread (Some next) (set_runqueue (Some q') s)) μ rq sl zb.
Proof.
  intros [] Hq. split; simpl in *; try done.
  destruct th_lists0 as (_ & ? & ?). split_and!; [by eauto|done..].
Qed.

(** *** Waking up *)
Lemma filter_split (Q : tid → Prop) `{!∀ t, Decision (Q t)} (l : list tid) :
  filter Q l ++ filter (λ t, ¬ Q t) l ≡ₚ l.
Proof.
  induction l as [|t l IH]; [done|]. rewrite !filter_cons. destruct (decide (Q t)) as [HQ|HQ].
  - rewrite decide_False by tauto. simpl. by rewrite IH.
  - rewrite decide_True by done. by rewrite <- Permutation_middle, IH.
Qed.
Lemma filter_none (Q : tid → Prop) `{!∀ t, Decision (Q t)} (l : list tid) :
  (∀ t, t ∈ l → ¬ Q t) → filter Q l = [].
Proof.
  induction l as [|t l IH]; intros Hl; [done|]. rewrite filter_cons, decide_False by (apply Hl; set_solver).
  apply IH. set_solver.
Qed.
Lemma filter_all (Q : tid → Prop) `{!∀ t, Decision (Q t)} (l : list tid) :
  (∀ t, t ∈ l → Q t) → filter Q l = l.
Proof.
  induction l as [|t l IH]; intros Hl; [done|]. rewrite filter_cons, decide_True by (apply Hl; set_solver).
  f_equal. apply IH. set_solver.
Qed.
Lemma threads_ok_wakeup w s μ rq sl zb q' a' (Q : tid → Prop) `{!∀ t, Decision (Q t)} :
  threads_ok w s μ rq sl zb → queue_rep q' (rq ++ filter Q sl) →
  array_rep a' (filter (λ t, ¬ Q t) sl) →
  threads_ok w (set_runqueue (Some q') (set_sleepers (Some a') s)) μ (rq ++ filter Q sl)
    (filter (λ t, ¬ Q t) sl) zb.
Proof.
  intros [] Hq Ha. pose proof (filter_split Q sl) as Hf.
  assert (on_cpu w ++ (rq ++ filter Q sl) ++ filter (λ t, ¬ Q t) sl ++ zb ≡ₚ on_cpu w ++ rq ++ sl ++ zb) as Hp.
  { rewrite <- Hf at 3. by rewrite <- !app_assoc. }
  assert (on_cpu w ++ (rq ++ filter Q sl) ++ filter (λ t, ¬ Q t) sl ≡ₚ on_cpu w ++ rq ++ sl) as Hp'.
  { rewrite <- Hf at 3. by rewrite <- !app_assoc. }
  split; simpl; try done.
  - destruct th_lists0 as (_ & _ & ?). split_and!; [by eauto..|done].
  - by rewrite Hp.
  - intros t. by rewrite th_dom0, Hp.
  - by rewrite Hp.
  - by rewrite Hp'.
  - by rewrite Hp.
  - intros t Ht. apply th_mode0. by rewrite Hp in Ht.
  - intros t Ht. rewrite Hp'. by apply th_dead0.
  - intros t [_ Ht]%list_elem_of_filter. by apply th_sleep0.
Qed.
Lemma thread_wakeup_ok addr w s μ rq sl zb :
  threads_ok w s μ rq sl zb → N < 2 ^ 28 → 0 < curspl s →
  wp (thread_wakeup addr) (λ _ s' o', o' = [] ∧ ext s' = ext s ∧ curspl s' = curspl s ∧
    in_interrupt s' = in_interrupt s ∧
    threads_ok w s' μ (rq ++ filter (sleeps_on (threads s) addr) sl)
      (filter (λ t, ¬ sleeps_on (threads s) addr t) sl) zb) s [].
Proof.
  intros Hth HN Hs. pose proof Hth as []. destruct th_lists0 as ((q & Hq & Hrq) & (a & Ha & Hsl) & _).
  rewrite !length_app in th_len0.
  eapply wp_mono; [eapply (thread_wakeup_spec addr s q a rq sl); try done|].
  - lia.
  - intros t Ht. apply th_dom0. set_solver.
  - cbn beta. intros _ s' o' (-> & q' & a' & -> & Hq' & Ha'). split_and!; [done..|].
    by apply threads_ok_wakeup.
Qed.
(** Who sleeps on what *)
Lemma sleeps_on_iff w s μ rq sl zb addr t :
  threads_ok w s μ rq sl zb → t ∈ sl →
  sleeps_on (threads s) addr t ↔ ∃ g, μ !! t = Some g ∧ addr_of t (gm g) = Some addr.
Proof.
  intros [] Ht. destruct (th_sleep0 t Ht) as (g & th & Hg & Hth & Ha & _).
  unfold sleeps_on. rewrite Hth. simpl. rewrite Ha. split.
  - intros [= Heq]. by exists g.
  - intros (g' & Hg' & Heq). simplify_eq. by rewrite Heq.
Qed.

(** *** Zombies are removed. *)
Lemma zombies_apart (t : tid) (rq sl zb : list tid) :
  NoDup ([t] ++ rq ++ sl ++ zb) →
  NoDup zb ∧ NoDup ([t] ++ rq ++ sl ++ []) ∧ ∀ t', t' ∈ zb → t' ∉ [t] ++ rq ++ sl.
Proof.
  rewrite app_nil_r. intros Hnd. rewrite !app_assoc in Hnd. apply NoDup_app in Hnd as (H1 & H2 & H3).
  rewrite <- app_assoc in *. split_and!; [done..|]. intros t' Hz Hin. by apply (H2 t').
Qed.
Lemma exorcise_ok t s μ B :
  J (Running t) s μ B → 0 < curspl s →
  wp exorcise (λ _ s' o', o' = [] ∧ curspl s' = curspl s ∧ J (Running t) s' μ B) s [].
Proof.
  intros ((rq & sl & zb & Hth & Hob) & Hi) Hs. pose proof Hth as [].
  destruct th_lists0 as (Hq & Ha & (z & Hz' & Hrep)). cbn [on_cpu who_tid head] in *.
  destruct (zombies_apart _ _ _ _ th_nodup0) as (Hnd & Hnd' & Hapart).
  assert (∀ t', t' ∈ zb → t' ∈ [t] ++ rq ++ sl ++ zb) as Hzin by (clear; set_solver).
  assert (∀ t', t' ∈ [t] ++ rq ++ sl ++ [] → t' ∈ [t] ++ rq ++ sl ++ zb) as Hrest by (clear; set_solver).
  eapply wp_mono; [eapply (exorcise_spec s z zb); try done|].
  - rewrite th_cur0. intros (t' & Heq & Ht')%list_elem_of_fmap. simplify_eq.
    apply (Hapart _ Ht'). apply list_elem_of_here.
  - intros t' Ht'. destruct (proj2 (th_dom0 t') (Hzin t' Ht')) as [th Hth']. exists th.
    split; [done|]. destruct (th_wf0 t' th Hth') as (? & ? & _). done.
  - cbn beta. intros _ s' o' (-> & m & z' & -> & Hz0 & Hm). split_and!; [done..|].
    split; [|done]. exists rq, sl, []. split; [|done].
    assert (∀ t' th, m !! t' = Some th → threads s !! t' = Some th) as Hsub.
    { intros t' th. rewrite Hm. by case_decide. }
    split; cbn [on_cpu who_tid head] in *; try done.
    + split_and!; [done..|by eauto].
    + intros t'. simpl. rewrite Hm. case_decide as Ht'.
      * split; [by intros []|]. intros Hin. exfalso. apply (Hapart t' Ht'). clear -Hin. set_solver.
      * rewrite th_dom0. clear -Ht'. set_solver.
    + rewrite !length_app in *. simpl in *. lia.
    + intros t' th Ht'. by eapply th_wf0, Hsub.
    + clear. set_solver.
    + intros t' th g Ht'. by eapply th_pcb0, Hsub.
    + intros t' Ht'. by apply th_mode0, Hrest.
    + intros t' Ht'. destruct (th_sleep0 t' Ht') as (g & th & Hg & Ht & ?). exists g, th. simpl. rewrite Hm.
      rewrite decide_False; [done|]. intros Hin. apply (Hapart t' Hin). clear -Ht'. set_solver.
Qed.

(** ** The code of the thread system keeps the invariant. *)
Context (HN : N < 2 ^ 28).

Lemma J_running t s μ B :
  J (Running t) s μ B →
  curthread s = Some t ∧
  (∃ th, threads s !! t = Some th ∧ t_vmspace th = None ∧ t_cwd th = None ∧ (t_stack th = None ∨ t_stack th = Some stack_magic)) ∧
  ∃ g, μ !! t = Some g ∧ in_interrupt s = flag (gm g).
Proof.
  intros ((rq & sl & zb & [] & _) & Hi). split; [done|]. split; [|done].
  destruct (proj2 (th_dom0 t)) as [th Hth]; [clear; set_solver|]. exists th. split; [done|]. by eapply th_wf0.
Qed.
Lemma bound_rq w s μ rq sl zb : threads_ok w s μ rq sl zb → Z.of_nat (length rq) + 1 < 2 ^ 29.
Proof. intros []. rewrite !length_app in *. lia. Qed.
Lemma bound_sl w s μ rq sl zb : threads_ok w s μ rq sl zb → Z.of_nat (length sl) < 2 ^ 29.
Proof. intros []. rewrite !length_app in *. lia. Qed.
Lemma bound_zb w s μ rq sl zb : threads_ok w s μ rq sl zb → Z.of_nat (length zb) < 2 ^ 29.
Proof. intros []. rewrite !length_app in *. lia. Qed.

(** After a switch the zombies are removed. *)
Lemma resume_exorcise t g k : resumable t g (k tt) → resumable t g (lift exorcise k).
Proof.
  intros Hk s μ B HJ Hg Hs HB. apply okR_off. eapply wp_mono; [by apply (exorcise_ok t s μ B); [|rewrite Hs]|].
  cbn beta. intros [] s' o' (-> & Hs' & HJ'). rewrite Hs', Hs. split; [done|].
  apply Hk; try done. congruence.
Qed.

Lemma mi_switch_ready_ok k t s μ g B :
  J (Running t) s (<[t := g]> μ) B → curspl s = SPL_HIGH → resumable t g (k tt) →
  okR (mi_switch S_READY k) t s μ B [].
Proof.
  intros HJ Hs Hk. destruct (J_running _ _ _ _ HJ) as (Hc & (th & Ht & _ & _ & Hst) & _).
  pose proof HJ as ((rq & sl & zb & Hth & Hob) & Hint). pose proof (th_lists _ _ _ _ _ _ Hth) as ((q & Hq & Hrq) & _).
  unfold mi_switch. apply okR_tbind, okR_off.
  eapply wp_mono; [eapply (mi_switch_ready_spec s q rq t th); try done|].
  - by rewrite Hs.
  - by eapply bound_rq.
  - cbn beta. intros ? s' o' (-> & -> & q' & -> & Hq'). simpl. rewrite Hs. split; [done|].
    unfold tbind, t_switch. apply (okR_switch _ _ _ _ _ g); [done| |].
    + split; [|done]. exists (rq ++ [t]), sl, zb. split; [by apply threads_ok_ready|].
      eapply objs_ok_mono; [|exact Hob]. lia.
    + by apply resume_exorcise.
Qed.

Lemma spl_ok s (z : Z) (Q : Z → ksys → oracle → Prop) o :
  Q (curspl s) (set_curspl z s) o → wp (splx z) Q s o.
Proof. intros HQ. unfold splx. by wp_run. Qed.
Lemma set_curspl_id s z : curspl s = z → set_curspl z s = s.
Proof. intros <-. by destruct s. Qed.

(** Giving up the processor from a point where interrupts are on *)
Lemma thread_yield_ok k t O L : stable t O L (k tt) → stable t O L (thread_yield k).
Proof.
  intros Hk s μ B HJ Hg Hs HB. unfold thread_yield. apply okR_tbind, okR_off. apply spl_ok.
  split; [done|]. apply okR_tbind, okR_off.
  pose proof HJ as ((rq & sl & zb & Hth & _) & _).
  pose proof (th_lists _ _ _ _ _ _ Hth) as (_ & (a & Ha & _) & _).
  wp_run. simpl. rewrite Ha. wp_run. split; [done|]. apply okR_tbind.
  apply (mi_switch_ready_ok _ t _ μ (G Run O L)); [|done|].
  - rewrite insert_id by done. by apply J_curspl.
  - intros s2 μ2 B2 HJ2 Hg2 Hs2 HB2. apply okR_tbind, okR_on, spl_ok. rewrite Hs. split_and!; [done..|].
    exists O, L. rewrite insert_id by done. split; [|done].
    apply J_curspl. eapply J_mono; [|done]. lia.
Qed.

(** A thread goes to sleep; [Hsleep] is the invariant while it sleeps. *)
Lemma thread_sleep_ok addr k t s μ B th a sl g :
  curspl s = SPL_HIGH → in_interrupt s = 0 → curthread s = Some t → threads s !! t = Some th →
  (t_stack th = None ∨ t_stack th = Some stack_magic) → sleepers s = Some a → array_rep a sl → Z.of_nat (length sl) < 2 ^ 29 →
  (∀ a', array_rep a' (sl ++ [t]) → J (Leaving t) (asleep s t th addr a') (<[t := g]> μ) (B + 1)) →
  resumable t g (k tt) → okR (thread_sleep addr k) t s μ B [].
Proof.
  intros Hs Hi Hc Ht Hst Ha Hrep Hlen Hsleep Hk. unfold thread_sleep. apply okR_tbind, okR_off.
  wp_run. rewrite Hs. split; [done|]. apply okR_tbind, okR_off. wp_step.
  eapply wp_get_curthread; [done|]. eapply wp_set_sleepaddr; [done|]. simpl. rewrite Hs. split; [done|].
  fold (with_addr th (Some addr)). apply okR_tbind. unfold mi_switch. apply okR_tbind, okR_off.
  eapply wp_mono; [eapply (mi_switch_sleep_spec _ a sl t (with_addr th (Some addr))); simpl; try done|].
  - by rewrite Hs.
  - by rewrite lookup_insert_eq.
  - cbn beta. intros ? s' o' (-> & -> & a' & -> & Ha'). simpl. rewrite Hs. split; [done|].
    unfold tbind, t_switch. apply (okR_switch _ _ _ _ _ g); [done|by apply Hsleep|].
    apply resume_exorcise. intros s2 μ2 B2 HJ2 Hg2 Hs2 HB2.
    destruct (J_running _ _ _ _ HJ2) as (Hc2 & (th2 & Ht2 & Hw2) & _). apply okR_off. wp_step.
    eapply wp_get_curthread; [done|]. eapply wp_set_sleepaddr; [done|]. simpl. rewrite Hs2. split; [done|].
    apply Hk; try done. destruct HJ2 as ((rq2 & sl2 & zb2 & Hth2 & Hob2) & Hi2). split; [|done].
    exists rq2, sl2, zb2. split; [|done].
    destruct (th_cpu _ _ _ _ _ _ t Hth2) as (_ & Hnsl & _); [clear; set_solver|].
    destruct Hth2. split; simpl; try done.
    + intros t'. rewrite lookup_insert_is_Some, th_dom0. destruct (decide (t = t')) as [->|]; [|tauto].
      split; [intros _; clear; set_solver|by left].
    + intros t' th'. rewrite lookup_insert. case_decide; [|by eauto]. by intros [= <-].
    + intros t' th' g' Ht' Hg' Hne. rewrite lookup_insert_ne in Ht' by done. by eapply th_pcb0.
    + intros t' Ht'. assert (t ≠ t') by by intros ->. rewrite lookup_insert_ne by done. by apply th_sleep0.
Qed.

(** *** The objects, when the ghost state of an awake thread changes *)
Lemma gm_insert μ t (g' : ghost) t' md :
  t' ≠ t → gm <$> <[t := g']> μ !! t' = Some md ↔ gm <$> μ !! t' = Some md.
Proof. intros Hne. by rewrite lookup_insert_ne. Qed.
Lemma lock_ok_ghost μ sl l lk t g' :
  t ∉ sl → lock_ok μ sl l lk → lock_ok (<[t := g']> μ) sl l lk.
Proof.
  intros Hn (q & W & H1 & H2 & H3 & H4 & H5). exists q, W. split_and!; [done..|].
  intros t'. rewrite H5. destruct (decide (t' = t)) as [->|Hne]; [split; by intros [? _]|]. by rewrite gm_insert.
Qed.
Lemma cv_ok_ghost μ sl c v t g' :
  t ∉ sl → cv_ok μ sl c v → cv_ok (<[t := g']> μ) sl c v.
Proof.
  intros Hn (q & W & H1 & H2 & H3 & H5). exists q, W. split_and!; [done..|].
  intros t'. rewrite H5. destruct (decide (t' = t)) as [->|Hne]; [split; by intros [? _]|]. by rewrite gm_insert.
Qed.
Lemma objs_ok_ghost x μ sl B t g g' :
  objs_ok x μ sl B → μ !! t = Some g → t ∉ sl → (∀ l, gm g' ≠ InLock l) →
  lg g' = lg g → lg g' ⊆ own g' → own g' ⊆ own g → objs_ok x (<[t := g']> μ) sl B.
Proof.
  intros [] Hg Hn Hm Hl Hlo Ho. split; try done.
  - intros l lk Hlk. by apply lock_ok_ghost, ob_lock0.
  - intros t' l. destruct (decide (t' = t)) as [->|Hne].
    + rewrite lookup_insert_eq. simpl. intros [= Heq]. by destruct (Hm l).
    + rewrite gm_insert by done. by apply ob_grant0.
  - intros c v Hv. by apply cv_ok_ghost, ob_cv0.
  - intros t' k Ht'. assert (t' ≠ t) by by intros ->. rewrite gm_insert by done. by apply ob_semsleep0.
  - intros t' g''. destruct (decide (t' = t)) as [->|Hne].
    + rewrite lookup_insert_eq. intros [= <-]. destruct (ob_log0 t g Hg) as [-> _]. by rewrite <- Hl.
    + rewrite lookup_insert_ne by done. by apply ob_log0.
  - intros t' g'' l. destruct (decide (t' = t)) as [->|Hne].
    + rewrite lookup_insert_eq. intros [= <-] Hin. apply (ob_own0 t g); [done|set_solver].
    + rewrite lookup_insert_ne by done. by apply ob_own0.
Qed.
(** The running thread enters or leaves an interrupt, or is done waiting. *)
Lemma J_flag t s μ B g md :
  J (Running t) s μ B → μ !! t = Some g → md = Run ∨ md = Irq →
  J (Running t) (set_in_interrupt (flag md) s) (<[t := G md (own g) (lg g)]> μ) B.
Proof.
  intros ((rq & sl & zb & Hth & Hob) & Hi) Hg Hmd.
  split; [|eexists; simpl; rewrite lookup_insert_eq; done]. exists rq, sl, zb.
  destruct (th_cpu _ _ _ _ _ _ t Hth) as (Hr & Hs & Hz); [clear; set_solver|]. split.
  - destruct Hth. split; simpl in *; try done.
    + intros t' th' g'' Ht' Hg'' Hne. rewrite lookup_insert_ne in Hg'' by done. by eapply th_pcb0.
    + intros t' Ht'. rewrite lookup_insert_is_Some. destruct (decide (t = t')); [by left|right; eauto].
    + intros t'. rewrite lookup_insert. case_decide; [|by apply th_dead0]. simpl. by destruct Hmd as [->| ->].
    + intros t' Ht'. assert (t' ≠ t) by by intros ->. rewrite lookup_insert_ne by done. by apply th_sleep0.
  - eapply objs_ok_ghost; try done.
    + by destruct Hmd as [->| ->].
    + simpl. by apply (ob_log _ _ _ _ Hob t).
Qed.
Lemma set_in_interrupt_id s : set_in_interrupt (in_interrupt s) s = s.
Proof. by destruct s. Qed.
Lemma J_run t s μ B g :
  J (Running t) s μ B → μ !! t = Some g → flag (gm g) = 0 →
  J (Running t) s (<[t := G Run (own g) (lg g)]> μ) B.
Proof.
  intros HJ Hg Hf. destruct (J_running _ _ _ _ HJ) as (_ & _ & (g' & Hg' & Hi)). simplify_eq.
  pose proof (J_flag t s μ B g Run HJ Hg ltac:(by left)) as HJ'. simpl in HJ'.
  by rewrite <- Hf, <- Hi, set_in_interrupt_id in HJ'.
Qed.

(** *** The end of a thread *)
Lemma thread_exit_ok k t O L : stable t O L (thread_exit k).
Proof.
  intros s μ B HJ Hg Hs HB. destruct (J_running _ _ _ _ HJ) as (Hc & (th & Ht & Hv & Hcw & Hst) & _).
  unfold thread_exit. apply okR_tbind, okR_on. wp_step. eapply wp_get_curthread; [done|].
  eapply wp_check_stack; [done|done|]. split_and!; [done..|]. exists O, L. rewrite insert_id by done.
  split; [eapply J_mono; [|done]; lia|]. clear -HN.
  intros s μ B HJ Hg Hs HB. destruct (J_running _ _ _ _ HJ) as (Hc & (th & Ht & Hv & Hcw & Hst) & (g & Hg' & Hi)).
  simplify_eq. apply okR_tbind, okR_off, spl_ok. split; [done|]. apply okR_tbind, okR_off. wp_step.
  eapply wp_get_curthread; [done|]. wp_step. eapply wp_get_thread; [done|]. rewrite Hv. wp_run. split; [done|].
  apply okR_tbind, okR_off. wp_step. eapply wp_get_curthread; [done|]. wp_step. eapply wp_get_thread; [done|].
  rewrite Hcw. wp_run. split; [done|]. pose proof HJ as ((rq & sl & zb & Hth & Hob) & Hint).
  pose proof (th_num _ _ _ _ _ _ Hth) as Hnum. simpl in Hnum.
  apply okR_tbind, okR_off. wp_step. wp_step. wp_step. wp_step; [cbn [numthreads set_curspl]; lia|]. wp_step.
  split; [done|]. apply okR_tbind. unfold mi_switch. apply okR_tbind, okR_off.
  pose proof (th_lists _ _ _ _ _ _ Hth) as (_ & _ & (z & Hz & Hzb)).
  eapply wp_mono; [eapply (mi_switch_zomb_spec _ z zb t th); simpl; try done|].
  - by eapply bound_zb.
  - cbn beta. intros ? s' o' (-> & -> & z' & -> & Hz'). split; [done|]. unfold tbind, t_switch.
    apply (okR_switch _ _ _ _ _ (G Dead O L)); [done| |].
    + split; [|exists (G Dead O L); simpl; rewrite lookup_insert_eq; done]. exists rq, sl, (zb ++ [t]). split.
      * eapply (threads_ok_frame _ (set_zombies (Some z') (set_curthread None (set_numthreads (numthreads s - 1) s))));
          [..|by eapply threads_ok_zomb]; done.
      * destruct (th_cpu _ _ _ _ _ _ t Hth) as (_ & Hnsl & _); [clear; set_solver|].
        apply (objs_ok_mono _ _ _ B); [lia|]. eapply objs_ok_ghost; try done. simpl.
        by apply (ob_log _ _ _ _ Hob t (G Run O L)).
    + intros s2 μ2 B2 ((rq2 & sl2 & zb2 & Hth2 & _) & _) Hg2. destruct Hth2. exfalso.
      apply (th_dead0 t); [by rewrite Hg2|]. clear. set_solver.
Qed.

(** *** Access to the objects *)
Lemma wp_get_sem k n (Q : Z → ksys → oracle → Prop) s o :
  sems (ext s) !! k = Some n → Q n s o → wp (get_sem k) Q s o.
Proof. intros Hk HQ. unfold get_sem, on_ext. wp_run. apply wp_deref. exists n. split; [done|]. by destruct s. Qed.
Lemma wp_put_sem k n (Q : unit → ksys → oracle → Prop) s o :
  Q tt (set_ext (set_sems (<[k := n]> (sems (ext s))) (ext s)) s) o → wp (put_sem k n) Q s o.
Proof. intros HQ. unfold put_sem, on_ext. by wp_run. Qed.
Lemma wp_get_lock l lk (Q : lock → ksys → oracle → Prop) s o :
  locks (ext s) !! l = Some lk → Q lk s o → wp (get_lock l) Q s o.
Proof. intros Hk HQ. unfold get_lock, on_ext. wp_run. apply wp_deref. exists lk. split; [done|]. by destruct s. Qed.
Lemma wp_put_lock l lk (Q : unit → ksys → oracle → Prop) s o :
  Q tt (set_ext (set_locks (<[l := lk]> (locks (ext s))) (ext s)) s) o → wp (put_lock l lk) Q s o.
Proof. intros HQ. unfold put_lock, on_ext. by wp_run. Qed.
Lemma wp_get_cv c v (Q : cv → ksys → oracle → Prop) s o :
  cvs (ext s) !! c = Some v → Q v s o → wp (get_cv c) Q s o.
Proof. intros Hk HQ. unfold get_cv, on_ext. wp_run. apply wp_deref. exists v. split; [done|]. by destruct s. Qed.
Lemma wp_put_cv c v (Q : unit → ksys → oracle → Prop) s o :
  Q tt (set_ext (set_cvs (<[c := v]> (cvs (ext s))) (ext s)) s) o → wp (put_cv c v) Q s o.
Proof. intros HQ. unfold put_cv, on_ext. by wp_run. Qed.
Lemma wp_on_lock_queue {A} l lk q (m : K (queue tid) A) (Q : A → ksys → oracle → Prop) s o :
  locks (ext s) !! l = Some lk → lock_queue lk = Some q →
  wp m (λ a q' o', Q a (set_ext (set_locks (<[l := mkLock (held lk) (Some q')]> (locks (ext s))) (ext s)) s) o') q o →
  wp (on_lock_queue l m) Q s o.
Proof.
  intros Hl Hq Hm. unfold on_lock_queue. wp_step. eapply wp_get_lock; [done|]. wp_step. rewrite Hq. wp_step.
  wp_step. wp_step. eapply wp_mono; [exact Hm|]. cbn beta. intros a q' o' HQ. wp_step. apply wp_put_lock. by wp_run.
Qed.
Lemma wp_on_cv_queue {A} c v q (m : K (queue tid) A) (Q : A → ksys → oracle → Prop) s o :
  cvs (ext s) !! c = Some v → cv_queue v = Some q →
  wp m (λ a q' o', Q a (set_ext (set_cvs (<[c := mkCv (Some q')]> (cvs (ext s))) (ext s)) s) o') q o →
  wp (on_cv_queue c m) Q s o.
Proof.
  intros Hl Hq Hm. unfold on_cv_queue. wp_step. eapply wp_get_cv; [done|]. wp_step. rewrite Hq. wp_step.
  wp_step. wp_step. eapply wp_mono; [exact Hm|]. cbn beta. intros a q' o' HQ. wp_step. apply wp_put_cv. by wp_run.
Qed.
Lemma wp_set_held l lk t (Q : unit → ksys → oracle → Prop) s o :
  locks (ext s) !! l = Some lk →
  Q tt (set_ext (set_locks (<[l := mkLock t (lock_queue lk)]> (locks (ext s))) (ext s)) s) o →
  wp (set_held l t) Q s o.
Proof. intros Hl HQ. unfold set_held. wp_step. eapply wp_get_lock; [done|]. by apply wp_put_lock. Qed.

Lemma threads_ok_ext w s μ rq sl zb x :
  threads_ok w s μ rq sl zb → threads_ok w (set_ext x s) μ rq sl zb.
Proof. intros H. by eapply threads_ok_frame; [..|exact H]. Qed.
Lemma threads_ok_curspl w s μ rq sl zb z :
  threads_ok w s μ rq sl zb → threads_ok w (set_curspl z s) μ rq sl zb.
Proof. intros H. by eapply threads_ok_frame; [..|exact H]. Qed.
Lemma J_sem_dom w s μ B k : J0 w s μ B → k ∈ DS → ∃ n, sems (ext s) !! k = Some n ∧ 0 ≤ n ≤ B.
Proof.
  intros (rq & sl & zb & _ & []) Hk. destruct ob_dom0 as (_ & _ & HD). rewrite <- HD in Hk.
  apply elem_of_dom in Hk as [n Hn]. eauto.
Qed.
Lemma J_lock_dom w s μ B l : J0 w s μ B → l ∈ DL → ∃ lk, locks (ext s) !! l = Some lk.
Proof.
  intros (rq & sl & zb & _ & []) Hk. destruct ob_dom0 as (HD & _ & _). rewrite <- HD in Hk.
  by apply elem_of_dom in Hk.
Qed.
Lemma J_cv_dom w s μ B c : J0 w s μ B → c ∈ DC → ∃ v, cvs (ext s) !! c = Some v.
Proof.
  intros (rq & sl & zb & _ & []) Hk. destruct ob_dom0 as (_ & HD & _). rewrite <- HD in Hk.
  by apply elem_of_dom in Hk.
Qed.

Lemma sleeps_on_sem w s μ rq sl zb k t :
  threads_ok w s μ rq sl zb → t ∈ sl →
  sleeps_on (threads s) (WSem k) t ↔ gm <$> μ !! t = Some (InSem k).
Proof.
  intros Hth Ht. rewrite (sleeps_on_iff _ _ _ _ _ _ _ _ Hth Ht). split.
  - intros (g & -> & Ha). simpl. by destruct (gm g); simplify_eq/=.
  - intros Hm. destruct (μ !! t) as [g|]; [|done]. simpl in Hm. exists g. split; [done|]. injection Hm as ->. done.
Qed.
Lemma sleeps_on_thread w s μ rq sl zb t' t :
  threads_ok w s μ rq sl zb → t ∈ sl →
  sleeps_on (threads s) (WThread t') t ↔ t = t' ∧ ∀ k, gm <$> μ !! t ≠ Some (InSem k).
Proof.
  intros Hth Ht. rewrite (sleeps_on_iff _ _ _ _ _ _ _ _ Hth Ht). split.
  - intros (g & -> & Ha). simpl. by destruct (gm g); simplify_eq/=.
  - intros [-> Hm]. destruct (th_sleep _ _ _ _ _ _ Hth t' Ht) as (g & th & Hg & _ & _ & Hsome).
    exists g. split; [done|]. rewrite Hg in Hm. simpl in Hm. destruct (gm g) eqn:E; simpl in *; try done;
      try (by destruct Hsome). by destruct (Hm k).
Qed.

(** *** V *)
Lemma V_ok k w s μ B :
  J0 w s μ B → k ∈ DS → B + 1 < 2 ^ 31 →
  wp (V k) (λ _ s' o', o' = [] ∧ curspl s' = curspl s ∧ in_interrupt s' = in_interrupt s ∧
    J0 w s' μ (B + 1)) s [].
Proof.
  intros HJ Hk HB. destruct (J_sem_dom _ _ _ _ _ HJ Hk) as (n & Hn & Hnb).
  destruct HJ as (rq & sl & zb & Hth & Hob). unfold V. wp_step. eapply wp_get_sem; [done|]. wp_step. apply spl_ok.
  wp_step. eapply wp_get_sem; [done|]. rewrite s32_small by lia. wp_step. apply wp_put_sem.
  wp_step. wp_step; [lia|]. set (s2 := set_ext _ _).
  assert (threads_ok w s2 μ rq sl zb) as Hth2 by by apply threads_ok_ext, threads_ok_curspl.
  wp_step. eapply wp_mono; [by apply (thread_wakeup_ok (WSem k) w s2 μ rq sl zb)|]. cbn beta.
  intros _ s3 o' (-> & He & _ & Hi3 & Hth3). wp_step. apply spl_ok. wp_run. split_and!; [done..|].
  eexists _, _, zb. split; [by apply threads_ok_curspl|]. cbn [set_curspl ext]. rewrite He.
  set (sl' := filter (λ t, ¬ sleeps_on (threads s2) (WSem k) t) sl).
  assert (∀ t, t ∈ sl' ↔ t ∈ sl ∧ gm <$> μ !! t ≠ Some (InSem k)) as Hin.
  { intros t. unfold sl'. rewrite list_elem_of_filter. split.
    - intros [Hs Ht]. split; [done|]. intros Hm. apply Hs. by apply (sleeps_on_sem _ _ _ _ _ _ _ _ Hth2 Ht).
    - intros [Ht Hm]. split; [|done]. intros Hs. apply Hm. by apply (sleeps_on_sem _ _ _ _ _ _ _ _ Hth2 Ht). }
  clearbody sl'. destruct Hob. split; simpl; try done.
  - intros l lk Hlk. destruct (ob_lock0 l lk Hlk) as (q & W & H1 & H2 & H3 & H4 & H5). exists q, W.
    split_and!; [done..|]. intros t. rewrite H5, Hin. split; [|tauto]. intros [? Hm]. rewrite Hm. done.
  - intros t l Hm Hn'. apply (ob_grant0 t l Hm). intros Ht. apply Hn', Hin. rewrite Hm. done.
  - intros c v Hv. destruct (ob_cv0 c v Hv) as (q & W & H1 & H2 & H3 & H5). exists q, W.
    split_and!; [done..|]. intros t. rewrite H5, Hin. split; [|tauto]. intros [? Hm]. rewrite Hm. done.
  - intros k' n'. rewrite lookup_insert. case_decide; [intros [= <-]; lia|]. intros Hk'.
    specialize (ob_sem0 k' n' Hk'). lia.
  - intros t k' [Ht Hne]%Hin Hm. rewrite lookup_insert_ne; [by eapply ob_semsleep0|]. congruence.
  - destruct ob_dom0 as (? & ? & HD). split_and!; [done..|]. rewrite dom_insert_L, HD. set_solver.
Qed.

Lemma J_same w s s' μ B B' : J w s μ B → in_interrupt s' = in_interrupt s → J0 w s' μ B' → J w s' μ B'.
Proof. intros [_ (g & Hg & Hi)] Hi' HJ. split; [done|]. exists g. split; [done|]. congruence. Qed.

(** *** Interrupts *)
Context (dv : list Z) (Hdv : ∀ k, k ∈ dv → k ∈ DS).

(** the tick of the clock, but for [thread_yield] *)
Definition tick : K ksys unit :=
  n <- gets lbolt_counter;
  let n := n + 1 in
  if HZ <=? n then
    _ <- modify (set_lbolt 0);
    thread_wakeup WLbolt
  else modify (set_lbolt n).
Lemma tick_ok w s μ B :
  J0 w s μ B → 0 < curspl s →
  wp tick (λ _ s' o', o' = [] ∧ curspl s' = curspl s ∧ in_interrupt s' = in_interrupt s ∧ J0 w s' μ B) s [].
Proof.
  intros (rq & sl & zb & Hth & Hob) Hs. unfold tick. wp_step. wp_step.
  assert (∀ z, threads_ok w (set_lbolt z s) μ rq sl zb) as Hz.
  { intros z. by eapply threads_ok_frame; [..|exact Hth]. }
  destruct (HZ <=? lbolt_counter s + 1).
  2: { wp_run. split_and!; [done..|]. by exists rq, sl, zb. }
  wp_step. wp_step. specialize (Hz 0).
  eapply wp_mono; [by apply (thread_wakeup_ok WLbolt w _ μ rq sl zb)|]. cbn beta.
  intros _ s' o' (-> & He & Hs' & Hi & Hth').
  assert (filter (sleeps_on (threads (set_lbolt 0 s)) WLbolt) sl = []) as E1.
  { apply filter_none. intros t Ht Hsl. apply (sleeps_on_iff _ _ _ _ _ _ _ _ Hz Ht) in Hsl as (g & _ & Ha).
    by destruct (gm g). }
  assert (filter (λ t, ¬ sleeps_on (threads (set_lbolt 0 s)) WLbolt t) sl = sl) as E2.
  { apply filter_all. intros t Ht Hsl. apply (sleeps_on_iff _ _ _ _ _ _ _ _ Hz Ht) in Hsl as (g & _ & Ha).
    by destruct (gm g). }
  rewrite E1, E2, app_nil_r in Hth'. split_and!; [done..|]. exists rq, sl, zb. split; [done|]. by rewrite He.
Qed.

(** The end of an interrupt *)
Lemma irq_return t O L c :
  stable t O L c →
  resumable t (G Irq O L) (lift (modify (set_in_interrupt 0)) (λ _,
    tbind (lift splhigh) (λ _, lift (modify (set_curspl 0))) (λ _, c))).
Proof.
  intros Hc s μ B HJ Hg Hs HB. apply okR_off. wp_step. simpl. rewrite Hs. split; [done|].
  apply okR_tbind, okR_off, spl_ok. split; [done|]. apply okR_on. wp_step. split_and!; [done..|].
  exists O, L. split; [|done]. apply J_curspl, J_curspl. eapply J_mono; [|by apply (J_flag t s μ B (G Irq O L) Run); [..|left]].
  lia.
Qed.
Lemma irq_ok t O L c h :
  stable t O L c → handler (V <$> dv) h → stable t O L (mips_trap_irq h (λ _, c)).
Proof.
  intros Hc Hh s μ B HJ Hg Hs HB. destruct (J_running _ _ _ _ HJ) as (_ & _ & (g & Hg' & Hi)). simplify_eq.
  simpl in Hi. unfold mips_trap_irq. apply okR_tbind, okR_off. wp_run. split; [done|]. rewrite Hs.
  apply okR_tbind. unfold mips_interrupt. apply okR_tbind, okR_off. wp_run. split; [done|].
  apply okR_tbind, okR_off. wp_run. split; [done|]. apply okR_tbind, okR_off. apply wp_assert_spl; [done|].
  split; [done|]. apply okR_tbind. cbn [in_interrupt set_curspl]. rewrite Hi.
  set (s1 := set_in_interrupt 1 _).
  assert (J (Running t) s1 (<[t := G Irq O L]> μ) B) as HJ1.
  { apply (J_flag t _ μ B (G Run O L) Irq); [by apply J_curspl|done|by right]. }
  destruct Hh as [->|(d & Hd & ->)].
  - unfold hardclock. apply okR_tbind, okR_off. fold tick.
    eapply wp_mono; [by apply (tick_ok (Running t) s1 _ B (proj1 HJ1))|]. cbn beta.
    intros _ s2 o' (-> & Hs2 & Hi2 & HJ2'). pose proof (J_same (Running t) s1 s2 _ _ _ HJ1 Hi2 HJ2') as HJ2. clear HJ2'. rewrite Hs2. split; [done|].
    unfold thread_yield. apply okR_tbind, okR_off, spl_ok. split; [done|]. apply okR_tbind, okR_off.
    pose proof HJ2 as ((rq & sl & zb & Hth & _) & _). pose proof (th_lists _ _ _ _ _ _ Hth) as (_ & (a & Ha & _) & _).
    wp_run. simpl. rewrite Ha. wp_run. split; [done|]. apply okR_tbind.
    apply (mi_switch_ready_ok _ t _ μ (G Irq O L)); [by apply J_curspl|done|].
    intros s3 μ3 B3 HJ3 Hg3 Hs3 HB3. apply okR_tbind, okR_off, spl_ok. rewrite Hs2. split; [done|].
    rewrite set_curspl_id by done. by apply (irq_return t O L c Hc s3 μ3 B3).
  - apply list_elem_of_fmap in Hd as (k & -> & Hk). apply okR_off.
    eapply wp_mono; [by apply (V_ok k (Running t) s1 _ B (proj1 HJ1)); [apply Hdv|]|]. cbn beta.
    intros r s2 o' (-> & Hs2 & Hi2 & HJ2'). pose proof (J_same (Running t) s1 s2 _ _ _ HJ1 Hi2 HJ2') as HJ2. clear HJ2'. rewrite Hs2. split; [done|].
    apply okR_off. wp_step. simpl. rewrite Hs2. split; [done|]. apply okR_tbind, okR_off, spl_ok. split; [done|].
    apply okR_on. wp_step. split_and!; [done..|]. exists O, L. split; [|done]. apply J_curspl, J_curspl.
    pose proof (J_flag t s2 _ (B + 1) (G Irq O L) Run HJ2) as HJ3. rewrite lookup_insert_eq, insert_insert_eq in HJ3.
    by apply HJ3; [|left].
Qed.
(** while the processor is idle *)
Lemma exec_off {A} (m : K ksys A) (k : A → kcode) s cs o (R : outcome world → Prop) :
  wp m (λ a s' o', curspl s' ≠ 0 ∧ R (exec (k a) s' cs o')) s o → R (exec (lift m k) s cs o).
Proof.
  unfold wp, lift, bind, ret. cbn [exec]. destruct (m s o) as [[[a s'] o']|]; [|done].
  intros [Hs HR]. by destruct (Z.eqb_spec (curspl s') 0).
Qed.
Lemma exec_tbind {A C} (m : KT A) (f : A → KT C) k s cs o (R : outcome world → Prop) :
  R (exec (m (λ a, f a k)) s cs o) → R (exec (tbind m f k) s cs o).
Proof. done. Qed.
Lemma exec_switch cur (k : kcode) s cs o : exec (Switch cur k) s cs o = Done (mkWorld s cs (Switch cur k) o).
Proof. done. Qed.
#[local] Opaque exec.
Lemma idle_ok cur k s μ B cs h :
  J (Leaving cur) s μ B → curspl s = SPL_HIGH → B + 1 < 2 ^ 31 → handler (V <$> dv) h →
  ∃ s', exec (mips_trap_irq h (λ _, Switch cur k)) s cs [] = Done (mkWorld s' cs (Switch cur k) []) ∧
    curspl s' = SPL_HIGH ∧ J (Leaving cur) s' μ (B + 1).
Proof.
  intros HJ Hs HB Hh. set (R := λ r : outcome world, ∃ s', r = Done (mkWorld s' cs (Switch cur k) []) ∧
    curspl s' = SPL_HIGH ∧ J (Leaving cur) s' μ (B + 1)). change (R (exec (mips_trap_irq h (λ _, Switch cur k)) s cs [])).
  assert (∃ g, μ !! cur = Some g ∧ in_interrupt s = flag (gm g)) as (g & Hg & Hi).
  { by destruct HJ as [_ Hi]. }
  unfold mips_trap_irq. apply exec_tbind, exec_off. wp_run. split; [done|]. rewrite Hs.
  rewrite set_curspl_id by done. apply exec_tbind. unfold mips_interrupt. apply exec_tbind, exec_off. wp_run.
  split; [by rewrite Hs|]. apply exec_tbind, exec_off. wp_run. split; [by simpl; rewrite Hs|].
  apply exec_tbind, exec_off, wp_assert_spl; [by simpl; rewrite Hs|]. split; [by simpl; rewrite Hs|]. apply exec_tbind.
  (* what remains after the handler *)
  assert (∀ s2, curspl s2 = SPL_HIGH → J (Leaving cur) (set_in_interrupt (in_interrupt s) s2) μ (B + 1) →
    R (exec (lift (modify (set_in_interrupt (in_interrupt s)))
      (λ _, tbind (lift splhigh) (λ _, lift (modify (set_curspl SPL_HIGH))) (λ _, Switch cur k))) s2 cs [])) as Hend.
  { intros s2 Hs2 HJ2. apply exec_off. wp_step. split; [by simpl; rewrite Hs2|].
    apply exec_tbind, exec_off, spl_ok. split; [done|]. apply exec_off. wp_step. split; [done|].
    rewrite exec_switch. eexists. split; [done|]. split; [done|]. by apply J_curspl, J_curspl. }
  set (s1 := set_in_interrupt 1 s).
  assert (∀ z s2, J0 (Leaving cur) s2 μ (B + 1) → J0 (Leaving cur) (set_in_interrupt z s2) μ (B + 1)) as Hint.
  { intros z s2 (rq & sl & zb & Hth & Hob). exists rq, sl, zb. split; [|done]. by eapply threads_ok_frame; [..|exact Hth]. }
  assert (J0 (Leaving cur) s1 μ B) as HJ1.
  { destruct HJ as ((rq & sl & zb & Hth & Hob) & _). exists rq, sl, zb. split; [|done].
    by eapply threads_ok_frame; [..|exact Hth]. }
  destruct Hh as [->|(d & Hd & ->)].
  - unfold hardclock. apply exec_tbind, exec_off. fold tick.
    eapply wp_mono; [by apply (tick_ok (Leaving cur) s1 _ B HJ1); simpl; rewrite Hs|]. cbn beta.
    intros _ s2 o' (-> & Hs2 & Hi2 & HJ2). simpl in Hs2. rewrite Hs in Hs2. rewrite Hs2. split; [done|].
    unfold thread_yield. apply exec_tbind, exec_off, spl_ok. split; [done|]. apply exec_tbind, exec_off.
    pose proof HJ2 as (rq & sl & zb & Hth & Hob). pose proof (th_lists _ _ _ _ _ _ Hth) as (_ & (a & Ha & _) & _).
    wp_run. simpl. rewrite Ha. wp_run. split; [done|]. apply exec_tbind. unfold mi_switch. apply exec_tbind, exec_off.
    unfold mi_switch_out. wp_step. apply wp_assert_spl; [done|]. wp_step. wp_step. simpl.
    rewrite (th_cur _ _ _ _ _ _ Hth). simpl. wp_run. split; [done|]. unfold tret. apply exec_tbind, exec_off, spl_ok.
    rewrite Hs2. split; [done|]. apply Hend; [done|]. split; [|by exists g]. apply Hint.
    exists rq, sl, zb. split; [by apply threads_ok_curspl, threads_ok_curspl|]. eapply objs_ok_mono; [|done]. lia.
  - apply list_elem_of_fmap in Hd as (q & -> & Hq). apply exec_off.
    eapply wp_mono; [by apply (V_ok q (Leaving cur) s1 _ B HJ1); [apply Hdv|]|]. cbn beta.
    intros r s2 o' (-> & Hs2 & Hi2 & HJ2). simpl in Hs2. rewrite Hs in Hs2. rewrite Hs2. split; [done|].
    apply Hend; [done|]. split; [|by exists g]. by apply Hint.
Qed.

(** ** Locks *)
Lemma okR_here {A} (m : K ksys A) (k : A → kcode) t s μ B O L :
  J (Running t) s μ B → μ !! t = Some (G Run O L) → curspl s = 0 →
  wp m (λ a s' o', s' = s ∧ o' = [] ∧ stable t O L (k a)) s [] → okR (lift m k) t s μ B [].
Proof.
  intros HJ Hg Hs Hm. apply okR_on. eapply wp_mono; [exact Hm|]. cbn beta. intros a s' o' (-> & -> & Hk).
  split_and!; [done..|]. exists O, L. rewrite insert_id by done. split; [|done]. eapply J_mono; [|done]. lia.
Qed.
Lemma not_asleep t s μ B : J0 (Running t) s μ B → ∃ rq sl zb,
  threads_ok (Running t) s μ rq sl zb ∧ objs_ok (ext s) μ sl B ∧ (t ∉ sl).
Proof.
  intros (rq & sl & zb & Hth & Hob). exists rq, sl, zb. split_and!; [done..|].
  by destruct (th_cpu _ _ _ _ _ _ t Hth) as (_ & ? & _); [clear; set_solver|].
Qed.

(** The lock is taken by [t], which has it already or finds it free. *)
Lemma objs_ok_take x μ sl B l lk t :
  objs_ok x μ sl B → locks x !! l = Some lk → held lk = None ∨ held lk = Some t →
  objs_ok (set_locks (<[l := mkLock (Some t) (lock_queue lk)]> (locks x)) x) μ sl B.
Proof.
  intros [] Hl Hh. assert (∀ l' t', (∃ lk', locks x !! l' = Some lk' ∧ held lk' = Some t') →
    ∃ lk', <[l := mkLock (Some t) (lock_queue lk)]> (locks x) !! l' = Some lk' ∧ held lk' = Some t') as Hkeep.
  { intros l' t' (lk' & Hl' & Ht'). destruct (decide (l' = l)) as [->|Hne].
    - simplify_eq. eexists. rewrite lookup_insert_eq. split; [done|]. destruct Hh; simplify_eq/=; done.
    - exists lk'. by rewrite lookup_insert_ne. }
  split; simpl; try done.
  - intros l' lk'. rewrite lookup_insert. case_decide as Heq; [|by apply ob_lock0]. intros [= <-]. subst l'.
    destruct (ob_lock0 l lk Hl) as (q & W & H1 & H2 & H3 & H4 & H5). exists q, W. done.
  - intros t' l' Hm Hn. by apply Hkeep, ob_grant0.
  - intros t' g l' Hg Hin. by eapply Hkeep, ob_own0.
  - destruct ob_dom0 as (HD & ? & ?). split_and!; [|done..]. rewrite dom_insert_L, HD.
    assert (l ∈ DL) by (rewrite <- HD; by eapply elem_of_dom_2). set_solver.
Qed.
Lemma J_own t s μ B g l lk :
  J (Running t) s μ B → μ !! t = Some g → flag (gm g) = 0 →
  locks (ext s) !! l = Some lk → held lk = Some t →
  J (Running t) s (<[t := G Run (own g ∪ {[l]}) (lg g)]> μ) B.
Proof.
  intros HJ Hg Hf Hl Hh. pose proof (J_run _ _ _ _ _ HJ Hg Hf) as [(rq & sl & zb & Hth & Hob) (g' & Hg' & Hi)].
  split.
  2: { simpl in *. rewrite lookup_insert_eq in Hg'. simplify_eq. eexists. rewrite lookup_insert_eq. done. }
  exists rq, sl, zb. split.
  - destruct Hth. split; try done.
    + intros t' th g'' Ht' Hg'' Hne. rewrite lookup_insert_ne in Hg'' by done. eapply th_pcb0; [done| |done].
      by rewrite lookup_insert_ne.
    + intros t' Ht'. specialize (th_mode0 t' Ht'). rewrite lookup_insert_is_Some in *. done.
    + intros t'. destruct (decide (t' = t)) as [->|Hne]; [by rewrite lookup_insert_eq|].
      rewrite gm_insert by done. intros Hd. apply th_dead0. by rewrite gm_insert.
    + intros t' Ht'. destruct (th_sleep0 t' Ht') as (g0 & th & Hg0 & ?). destruct (decide (t' = t)) as [->|Hne].
      * rewrite lookup_insert_eq in Hg0. simplify_eq. naive_solver.
      * exists g0, th. rewrite lookup_insert_ne in Hg0 by done. by rewrite lookup_insert_ne.
  - assert (∀ t' md, gm <$> <[t := G Run (own g ∪ {[l]}) (lg g)]> μ !! t' = Some md ↔
      gm <$> <[t := G Run (own g) (lg g)]> μ !! t' = Some md) as Hgm.
    { intros t' md. rewrite !lookup_insert. by case_decide. }
    destruct Hob. split; try done.
    + intros l' lk' Hlk'. destruct (ob_lock0 l' lk' Hlk') as (q & W & H1 & H2 & H3 & H4 & H5). exists q, W.
      split_and!; [done..|]. intros t'. by rewrite H5, Hgm.
    + intros t' l' Hm. apply ob_grant0. by apply Hgm.
    + intros c v Hv. destruct (ob_cv0 c v Hv) as (q & W & H1 & H2 & H3 & H5). exists q, W.
      split_and!; [done..|]. intros t'. by rewrite H5, Hgm.
    + intros t' k Ht' Hm. apply (ob_semsleep0 t' k Ht'). by apply Hgm.
    + intros t' g''. destruct (decide (t' = t)) as [->|Hne].
      * rewrite lookup_insert_eq. intros [= <-]. destruct (ob_log0 t (G Run (own g) (lg g))) as [? ?];
          [apply lookup_insert_eq|]. simpl in *. split; [done|]. set_solver.
      * rewrite lookup_insert_ne by done. intros Hg''. apply ob_log0. by rewrite lookup_insert_ne.
    + intros t' g'' l'. destruct (decide (t' = t)) as [->|Hne].
      * rewrite lookup_insert_eq. intros [= <-]. simpl. rewrite elem_of_union, elem_of_singleton.
        intros [Hin| ->]; [|by eauto]. apply (ob_own0 t (G Run (own g) (lg g))); [apply lookup_insert_eq|done].
      * rewrite lookup_insert_ne by done. intros Hg''. apply ob_own0. by rewrite lookup_insert_ne.
Qed.

(** *** A thread falls asleep. *)
Lemma elem_snoc (t t' : tid) (l : list tid) : t' ∈ l ++ [t] ↔ t' ∈ l ∨ t' = t.
Proof. rewrite elem_of_app, list_elem_of_singleton. done. Qed.
Lemma lock_ok_sleep μ sl l lk t g' :
  t ∉ sl → gm g' ≠ InLock l → lock_ok μ sl l lk → lock_ok (<[t := g']> μ) (sl ++ [t]) l lk.
Proof.
  intros Hn Hm (q & W & H1 & H2 & H3 & H4 & H5). exists q, W. split_and!; [done..|]. intros t'.
  rewrite H5, elem_snoc. destruct (decide (t' = t)) as [->|Hne].
  - rewrite lookup_insert_eq. simpl. split; [by intros [? _]|]. intros [_ [= Heq]]. done.
  - rewrite gm_insert by done. naive_solver.
Qed.
Lemma cv_ok_sleep μ sl c v t g' :
  t ∉ sl → gm g' ≠ InCv c → cv_ok μ sl c v → cv_ok (<[t := g']> μ) (sl ++ [t]) c v.
Proof.
  intros Hn Hm (q & W & H1 & H2 & H3 & H5). exists q, W. split_and!; [done..|]. intros t'.
  rewrite H5, elem_snoc. destruct (decide (t' = t)) as [->|Hne].
  - rewrite lookup_insert_eq. simpl. split; [by intros [? _]|]. intros [_ [= Heq]]. done.
  - rewrite gm_insert by done. naive_solver.
Qed.
(** on a list of waiting threads that it joins *)
Lemma waiters_snoc μ sl t g' md (W : list tid) :
  t ∉ sl → gm g' = md → (∀ t', t' ∈ W ↔ t' ∈ sl ∧ gm <$> μ !! t' = Some md) →
  ∀ t', t' ∈ W ++ [t] ↔ t' ∈ sl ++ [t] ∧ gm <$> <[t := g']> μ !! t' = Some md.
Proof.
  intros Hn Hm HW t'. rewrite !elem_snoc, HW. destruct (decide (t' = t)) as [->|Hne].
  - rewrite lookup_insert_eq. simpl. split; [intros _; split; [by right|by rewrite Hm]|by right].
  - rewrite gm_insert by done. naive_solver.
Qed.
Lemma waiters_nodup μ sl t md (W : list tid) :
  t ∉ sl → (∀ t', t' ∈ W ↔ t' ∈ sl ∧ gm <$> μ !! t' = Some md) → NoDup W → NoDup (W ++ [t]).
Proof.
  intros Hn HW Hnd. apply NoDup_app. split_and!; [done| |apply NoDup_singleton].
  intros t' Ht' ->%list_elem_of_singleton. by apply HW in Ht' as [? _].
Qed.
(** everything but the object it waits for *)
Lemma objs_ok_sleep x x' μ sl B t g g' :
  objs_ok x μ sl B → μ !! t = Some g → t ∉ sl → own g' = own g → lg g' = lg g →
  (∀ l lk, locks x' !! l = Some lk → lock_ok (<[t := g']> μ) (sl ++ [t]) l lk) →
  (∀ c v, cvs x' !! c = Some v → cv_ok (<[t := g']> μ) (sl ++ [t]) c v) →
  (∀ k, gm g' = InSem k → sems x !! k = Some 0) →
  sems x' = sems x → user x' = user x → dom (locks x') = dom (locks x) → dom (cvs x') = dom (cvs x) →
  held <$> locks x' = held <$> locks x →
  objs_ok x' (<[t := g']> μ) (sl ++ [t]) B.
Proof.
  intros [] Hg Hn Ho Hlg Hlocks Hcvs Hsem Es Eu Ed1 Ed2 Eh.
  assert (∀ l t', (∃ lk, locks x !! l = Some lk ∧ held lk = Some t') →
    ∃ lk, locks x' !! l = Some lk ∧ held lk = Some t') as Hkeep.
  { intros l t' (lk & Hl & Ht'). assert ((held <$> locks x') !! l = Some (Some t')) as Hl'.
    { by rewrite Eh, lookup_fmap, Hl; simpl; rewrite Ht'. }
    rewrite lookup_fmap in Hl'. apply fmap_Some in Hl' as (lk' & Hl' & Heq). by exists lk'. }
  split; rewrite ?Es, ?Eu, ?Ed1, ?Ed2; try done.
  - intros t' l. rewrite elem_snoc. destruct (decide (t' = t)) as [->|Hne]; [naive_solver|].
    rewrite gm_insert by done. intros Hm Hn'. apply Hkeep, ob_grant0; [done|tauto].
  - intros t' k. rewrite elem_snoc. destruct (decide (t' = t)) as [->|Hne].
    + rewrite lookup_insert_eq. simpl. intros _ [= Heq]. by apply Hsem.
    + rewrite gm_insert by done. intros [Ht'|?]; [|done]. by apply ob_semsleep0.
  - intros t' g''. destruct (decide (t' = t)) as [->|Hne].
    + rewrite lookup_insert_eq. intros [= <-]. rewrite Ho, Hlg. by apply ob_log0.
    + rewrite lookup_insert_ne by done. by apply ob_log0.
  - intros t' g'' l. destruct (decide (t' = t)) as [->|Hne].
    + rewrite lookup_insert_eq. intros [= <-]. rewrite Ho. intros Hin. by eapply Hkeep, ob_own0.
    + rewrite lookup_insert_ne by done. intros Hg' Hin. by eapply Hkeep, ob_own0.
Qed.
Lemma held_insert (m : gmap Z lock) l lk lk' :
  m !! l = Some lk → held lk' = held lk → held <$> <[l := lk']> m = held <$> m.
Proof.
  intros Hl Hh. rewrite fmap_insert, Hh. apply insert_id. by rewrite lookup_fmap, Hl.
Qed.

(** *** A thread is woken up. *)
Lemma wake_one t' w s μ rq sl zb :
  threads_ok w s μ rq sl zb → t' ∈ sl → (∀ k, gm <$> μ !! t' ≠ Some (InSem k)) → 0 < curspl s →
  wp (thread_wakeup (WThread t')) (λ _ s' o', o' = [] ∧ ext s' = ext s ∧ curspl s' = curspl s ∧
    in_interrupt s' = in_interrupt s ∧
    ∃ rq' sl', threads_ok w s' μ rq' sl' zb ∧ ∀ t, t ∈ sl' ↔ t ∈ sl ∧ t ≠ t') s [].
Proof.
  intros Hth Ht' Hm Hs. eapply wp_mono; [by apply (thread_wakeup_ok (WThread t') w s μ rq sl zb)|]. cbn beta.
  intros _ s' o' (-> & He & Hs' & Hi & Hth'). split_and!; [done..|]. eexists _, _. split; [exact Hth'|].
  intros t. rewrite list_elem_of_filter. split.
  - intros [Hsl Ht]. split; [done|]. intros ->. apply Hsl. by apply (sleeps_on_thread _ _ _ _ _ _ _ _ Hth Ht).
  - intros [Ht Hne]. split; [|done]. intros [? _]%(sleeps_on_thread _ _ _ _ _ _ _ _ Hth Ht). done.
Qed.
Lemma lock_ok_wake μ sl sl' l lk t' :
  (∀ t, t ∈ sl' ↔ t ∈ sl ∧ t ≠ t') → gm <$> μ !! t' ≠ Some (InLock l) →
  lock_ok μ sl l lk → lock_ok μ sl' l lk.
Proof.
  intros Hin Hm (q & W & H1 & H2 & H3 & H4 & H5). exists q, W. split_and!; [done..|]. intros t.
  rewrite H5, Hin. split; [|tauto]. intros [? Ht]. split_and!; [done| |done]. by intros ->.
Qed.
Lemma cv_ok_wake μ sl sl' c v t' :
  (∀ t, t ∈ sl' ↔ t ∈ sl ∧ t ≠ t') → gm <$> μ !! t' ≠ Some (InCv c) →
  cv_ok μ sl c v → cv_ok μ sl' c v.
Proof.
  intros Hin Hm (q & W & H1 & H2 & H3 & H5). exists q, W. split_and!; [done..|]. intros t.
  rewrite H5, Hin. split; [|tauto]. intros [? Ht]. split_and!; [done| |done]. by intros ->.
Qed.

(** *** The lock is given up: it is passed on, or it is free. *)
Lemma objs_ok_pass x μ sl sl' B l lk t g to q' W :
  objs_ok x μ sl B → μ !! t = Some g → (t ∉ sl) → gm g = Run → l ∉ lg g →
  locks x !! l = Some lk → held lk = Some t → queue_rep q' W → NoDup W →
  (∀ t', t' ∈ sl' → t' ∈ sl) →
  (∀ t', t' ∈ W ↔ t' ∈ sl' ∧ gm <$> μ !! t' = Some (InLock l)) →
  (∀ t', t' ∈ sl → t' ∉ sl' → to = Some t' ∧ gm <$> μ !! t' = Some (InLock l)) →
  (to = None → W = []) →
  objs_ok (set_locks (<[l := mkLock to (Some q')]> (locks x)) x) (<[t := G Run (own g ∖ {[l]}) (lg g)]> μ) sl' B.
Proof.
  intros [] Hg Hn Hm Hll Hl Hh Hq' HndW Hsub HW Hto HtoW.
  assert (∀ t' l', t' ≠ t ∨ l' ≠ l → (∃ lk', locks x !! l' = Some lk' ∧ held lk' = Some t') →
    ∃ lk', <[l := mkLock to (Some q')]> (locks x) !! l' = Some lk' ∧ held lk' = Some t') as Hkeep.
  { intros t' l' Hne (lk' & Hl' & Ht'). exists lk'. rewrite lookup_insert_ne; [done|]. intros <-.
    destruct Hne as [Hne|?]; [|done]. simplify_eq. }
  assert (∀ t' md, gm <$> <[t := G Run (own g ∖ {[l]}) (lg g)]> μ !! t' = Some md ↔ gm <$> μ !! t' = Some md) as Hgm.
  { intros t' md. destruct (decide (t' = t)) as [->|Hne]; [|by rewrite gm_insert].
    rewrite lookup_insert_eq, Hg. simpl. by rewrite Hm. }
  assert (∀ t' md, t' ∈ sl → md ≠ InLock l → gm <$> μ !! t' = Some md → t' ∈ sl') as Hstay.
  { intros t' md Ht' Hmd Hm'. destruct (decide (t' ∈ sl')) as [|Hn']; [done|].
    destruct (Hto t' Ht' Hn') as [_ Hm'']. congruence. }
  split; simpl; try done.
  - intros l' lk'. rewrite lookup_insert. case_decide as Heq.
    + intros [= <-]. subst l'. exists q', W. simpl. split_and!; [done..|]. intros t'. by rewrite HW, Hgm.
    + intros Hl'. destruct (ob_lock0 l' lk' Hl') as (q & W' & H1 & H2 & H3 & H4 & H5). exists q, W'.
      split_and!; [done..|]. intros t'. rewrite H5, Hgm. split; [|naive_solver].
      intros [Ht' Hm']. split; [|done]. by apply (Hstay t' (InLock l')); [|congruence|].
  - intros t' l' Hm' Hn'. apply Hgm in Hm'. destruct (decide (t' ∈ sl)) as [Ht'|Hnt].
    + destruct (Hto t' Ht' Hn') as [-> Hm'']. assert (l' = l) as -> by congruence.
      eexists. rewrite lookup_insert_eq. done.
    + apply Hkeep; [|by apply ob_grant0]. left. intros ->. rewrite Hg in Hm'. simpl in Hm'. congruence.
  - intros c v Hv. destruct (ob_cv0 c v Hv) as (q & W' & H1 & H2 & H3 & H5). exists q, W'.
    split_and!; [done..|]. intros t'. rewrite H5, Hgm. split; [|naive_solver].
    intros [Ht' Hm']. split; [|done]. by apply (Hstay t' (InCv c)).
  - intros t' k Ht' Hm'. apply (ob_semsleep0 t' k); [by apply Hsub|]. by apply Hgm.
  - intros t' g''. destruct (decide (t' = t)) as [->|Hne].
    + rewrite lookup_insert_eq. intros [= <-]. simpl. destruct (ob_log0 t g Hg). split; [done|]. set_solver.
    + rewrite lookup_insert_ne by done. by apply ob_log0.
  - intros t' g'' l'. destruct (decide (t' = t)) as [->|Hne].
    + rewrite lookup_insert_eq. intros [= <-]. simpl. intros Hin. apply Hkeep; [set_solver|].
      apply (ob_own0 t g); [done|set_solver].
    + rewrite lookup_insert_ne by done. intros Hg' Hin. apply Hkeep; [by left|]. by eapply ob_own0.
  - destruct ob_dom0 as (HD & ? & ?). split_and!; [|done..]. rewrite dom_insert_L, HD.
    assert (l ∈ DL) by (rewrite <- HD; by eapply elem_of_dom_2). set_solver.
Qed.

Lemma threads_ok_own s μ rq sl zb t g O L :
  threads_ok (Running t) s μ rq sl zb → μ !! t = Some g → (t ∉ sl) →
  threads_ok (Running t) s (<[t := G (gm g) O L]> μ) rq sl zb.
Proof.
  intros [] Hg Hn. assert (∀ t' md, gm <$> <[t := G (gm g) O L]> μ !! t' = Some md ↔ gm <$> μ !! t' = Some md) as Hgm.
  { intros t' md. destruct (decide (t' = t)) as [->|Hne]; [|by rewrite gm_insert].
    by rewrite lookup_insert_eq, Hg. }
  split; try done.
  - intros t' th g'' Ht' Hg'' Hne. rewrite lookup_insert_ne in Hg'' by done. by eapply th_pcb0.
  - intros t' Ht'. rewrite lookup_insert_is_Some. destruct (decide (t = t')); [by left|right; eauto].
  - intros t' Hd. apply th_dead0. by apply Hgm.
  - intros t' Ht'. assert (t' ≠ t) by by intros ->. rewrite lookup_insert_ne by done. by apply th_sleep0.
Qed.
Lemma lock_pass_ok t s μ B O L l :
  J (Running t) s μ B → μ !! t = Some (G Run O L) → curspl s = SPL_HIGH → l ∈ O → l ∉ L →
  wp (lock_pass l) (λ _ s' o', o' = [] ∧ curspl s' = SPL_HIGH ∧
    J (Running t) s' (<[t := G Run (O ∖ {[l]}) L]> μ) B) s [].
Proof.
  intros [HJ Hint] Hg Hs Hl Hll. destruct (not_asleep _ _ _ _ HJ) as (rq & sl & zb & Hth & Hob & Hns).
  destruct (ob_own _ _ _ _ Hob t _ l Hg Hl) as (lk & Hlk & Hh).
  destruct (ob_lock _ _ _ _ Hob l lk Hlk) as (q & W & Hq & HqW & HndW & _ & HW).
  assert (∀ s', in_interrupt s' = in_interrupt s → int_ok (Running t) s' (<[t := G Run (O ∖ {[l]}) L]> μ)) as Hint'.
  { intros s' Hi. destruct Hint as (g & Hg' & Hi'). simpl in *. simplify_eq. eexists. simpl.
    rewrite lookup_insert_eq. split; [done|]. simpl in *. congruence. }
  unfold lock_pass. wp_step. eapply wp_on_lock_queue; [done..|]. unfold q_empty. wp_step.
  rewrite (queue_rep_empty _ _ HqW).
  assert (<[l := mkLock (held lk) (Some q)]> (locks (ext s)) = locks (ext s)) as Eid.
  { apply insert_id. rewrite Hlk. f_equal. destruct lk; simpl in *. by subst. }
  rewrite Eid. assert (set_ext (set_locks (locks (ext s)) (ext s)) s = s) as -> by (destruct s as [????????? []]; done).
  destruct W as [|t' W].
  - rewrite bool_decide_eq_true_2 by done. cbn [negb]. eapply wp_set_held; [done|]. split_and!; [done..|].
    split; [|by apply Hint']. exists rq, sl, zb. split; [by apply threads_ok_ext; apply (threads_ok_own _ _ _ _ _ _ (G Run O L))|].
    simpl. rewrite Hq. eapply (objs_ok_pass (ext s) μ sl sl B l lk t (G Run O L) None q []); try done.
  - rewrite bool_decide_eq_false_2 by done. cbn [negb]. wp_step. eapply wp_on_lock_queue; [done..|].
    eapply wp_mono; [by apply q_remhead_spec|]. cbn beta. intros ? q' o' (-> & -> & Hq' & _). wp_step.
    eapply wp_set_held; [simpl; by rewrite lookup_insert_eq|]. cbn [lock_queue].
    destruct (proj1 (HW t')) as [Ht' Hm']; [apply list_elem_of_here|].
    apply NoDup_cons in HndW as [Hn' HndW].
    match goal with |- wp _ _ ?st _ => set (s2 := st) end.
    assert (threads_ok (Running t) s2 μ rq sl zb) as Hth2 by by do 2 apply threads_ok_ext.
    eapply wp_mono; [apply (wake_one t' (Running t) s2 μ rq sl zb); try done|].
    { intros k. rewrite Hm'. done. }
    { simpl. by rewrite Hs. }
    cbn beta. intros _ s3 o' (-> & He & Hs3 & Hi3 & rq' & sl' & Hth3 & Hin). split_and!; [done|by rewrite Hs3|].
    split; [|by apply Hint']. exists rq', sl', zb. split.
    { apply (threads_ok_own _ _ _ _ _ _ (G Run O L)); [done..|]. rewrite Hin. tauto. }
    rewrite He. unfold s2. simpl. rewrite insert_insert_eq.
    eapply (objs_ok_pass (ext s) μ sl sl' B l lk t (G Run O L) (Some t') q' W); try done.
    + intros t2 Ht2. by apply Hin in Ht2 as [? _].
    + intros t2. rewrite Hin. specialize (HW t2). rewrite elem_of_cons in HW. split.
      * intros Ht2. destruct HW as [HW _]. destruct HW as [? ?]; [by right|]. split_and!; [done| |done]. by intros ->.
      * intros [[? Hne] ?]. destruct HW as [_ HW]. destruct HW as [->|?]; done.
    + intros t2 Ht2 Hn2. assert (t2 = t') as ->; [|done]. destruct (decide (t2 = t')); [done|].
      destruct Hn2. by apply Hin.
Qed.
Lemma J_holds t s μ B g l :
  J (Running t) s μ B → μ !! t = Some g → l ∈ own g →
  wp (lock_do_i_hold l) (λ r s' o', r = true ∧ s' = s ∧ o' = []) s [].
Proof.
  intros HJ Hg Hl. destruct (J_running _ _ _ _ HJ) as (Hc & _).
  destruct HJ as [(rq & sl & zb & _ & Hob) _]. destruct (ob_own _ _ _ _ Hob t g l Hg Hl) as (lk & Hlk & Hh).
  unfold lock_do_i_hold. wp_step. eapply wp_get_lock; [done|]. wp_run. split_and!; [|done..].
  apply bool_decide_eq_true. congruence.
Qed.
Lemma lock_release_ok k t O L l :
  l ∈ O → l ∉ L → stable t (O ∖ {[l]}) L (k tt) → stable t O L (lock_release l k).
Proof.
  intros Hl Hll Hk s μ B HJ Hg Hs HB. unfold lock_release. apply okR_tbind. eapply okR_here; [done..|].
  wp_step. eapply wp_mono; [by apply (J_holds t s μ B (G Run O L))|]. cbn beta. intros ? s' o' (-> & -> & ->).
  wp_run. split_and!; [done..|]. clear s μ B HJ Hg Hs HB. intros s μ B HJ Hg Hs HB.
  apply okR_tbind, okR_off, spl_ok. rewrite Hs. split; [done|]. apply okR_tbind, okR_off.
  eapply wp_mono; [apply (lock_pass_ok t _ μ B O L l); try done; by apply J_curspl|]. cbn beta.
  intros _ s' o' (-> & Hs' & HJ'). rewrite Hs'. split; [done|]. apply okR_tbind, okR_on, spl_ok.
  split_and!; [done..|]. exists (O ∖ {[l]}), L. split; [|done]. apply J_curspl. eapply J_mono; [|done]. lia.
Qed.

(** ** Condition variables *)
Lemma cv_id s c v (q : queue tid) :
  cvs (ext s) !! c = Some v → cv_queue v = Some q →
  set_ext (set_cvs (<[c := mkCv (Some q)]> (cvs (ext s))) (ext s)) s = s.
Proof.
  intros Hv Hq. rewrite insert_id; [by destruct s as [????????? []]|]. rewrite Hv. f_equal.
  destruct v; simpl in *. by subst.
Qed.
(** One waiting thread, the first, is woken up. *)
Lemma signal_head_ok t s μ B rq sl zb c v q t' W :
  threads_ok (Running t) s μ rq sl zb → objs_ok (ext s) μ sl B → int_ok (Running t) s μ →
  curspl s = SPL_HIGH → cvs (ext s) !! c = Some v → cv_queue v = Some q → queue_rep q (t' :: W) →
  NoDup (t' :: W) → (∀ t2, t2 ∈ t' :: W ↔ t2 ∈ sl ∧ gm <$> μ !! t2 = Some (InCv c)) →
  wp (t <- on_cv_queue c q_remhead; thread_wakeup (WThread t)) (λ _ s' o', o' = [] ∧ curspl s' = SPL_HIGH ∧
    int_ok (Running t) s' μ ∧ ∃ rq' sl' q' , threads_ok (Running t) s' μ rq' sl' zb ∧ objs_ok (ext s') μ sl' B ∧
      cvs (ext s') !! c = Some (mkCv (Some q')) ∧ queue_rep q' W ∧ size q' = size q ∧
      ∀ t2, t2 ∈ W ↔ t2 ∈ sl' ∧ gm <$> μ !! t2 = Some (InCv c)) s [].
Proof.
  intros Hth Hob Hint Hs Hv Hq HqW HndW HW. wp_step. eapply wp_on_cv_queue; [done..|].
  eapply wp_mono; [by apply q_remhead_spec|]. cbn beta. intros ? q' o' (-> & -> & Hq' & Hsz).
  destruct (proj1 (HW t')) as [Ht' Hm']; [apply list_elem_of_here|]. apply NoDup_cons in HndW as [Hn' HndW].
  match goal with |- wp _ _ ?st _ => set (s2 := st) end.
  assert (threads_ok (Running t) s2 μ rq sl zb) as Hth2 by by apply threads_ok_ext.
  eapply wp_mono; [apply (wake_one t' (Running t) s2 μ rq sl zb); try done|].
  { intros k. rewrite Hm'. done. }
  { simpl. by rewrite Hs. }
  cbn beta. intros _ s3 o' (-> & He & Hs3 & Hi3 & rq' & sl' & Hth3 & Hin).
  split; [done|]. split; [by rewrite Hs3|]. split.
  { destruct Hint as (g & Hg & Hi). exists g. split; [done|]. by rewrite Hi3. }
  assert (∀ t2, t2 ∈ W ↔ t2 ∈ sl' ∧ gm <$> μ !! t2 = Some (InCv c)) as HW'.
  { intros t2. rewrite Hin. specialize (HW t2). rewrite elem_of_cons in HW. split.
    - intros Ht2. destruct (proj1 HW) as [? ?]; [by right|]. split_and!; [done| |done]. by intros ->.
    - intros [[? Hne] ?]. by destruct (proj2 HW) as [->|?]. }
  exists rq', sl', q'. split; [done|]. rewrite He. split.
  2: { simpl. rewrite lookup_insert_eq. done. }
  destruct Hob. split; simpl; try done.
  - intros l lk Hlk. eapply (lock_ok_wake μ sl sl' l lk t'); [done|by rewrite Hm'|by apply ob_lock0].
  - intros t2 l Hm2 Hn2. apply (ob_grant0 t2 l Hm2). intros Ht2. apply Hn2, Hin. split; [done|].
    intros ->. congruence.
  - intros c' v'. rewrite lookup_insert. case_decide as Heq.
    + intros [= <-]. subst c'. exists q', W. done.
    + intros Hv'. eapply (cv_ok_wake μ sl sl' c' v' t'); [done|rewrite Hm'; congruence|by apply ob_cv0].
  - intros t2 k [Ht2 _]%Hin. by apply ob_semsleep0.
  - destruct ob_dom0 as (? & HD & ?). split_and!; [done| |done]. rewrite dom_insert_L, HD.
    assert (c ∈ DC) by (rewrite <- HD; by eapply elem_of_dom_2). set_solver.
Qed.
Lemma cv_signal_one_ok t s μ B c :
  J (Running t) s μ B → curspl s = SPL_HIGH → c ∈ DC →
  wp (cv_signal_one c) (λ _ s' o', o' = [] ∧ curspl s' = SPL_HIGH ∧ J (Running t) s' μ B) s [].
Proof.
  intros [HJ Hint] Hs Hc. destruct (J_cv_dom _ _ _ _ _ HJ Hc) as (v & Hv). destruct HJ as (rq & sl & zb & Hth & Hob).
  destruct (ob_cv _ _ _ _ Hob c v Hv) as (q & W & Hq & HqW & HndW & HW).
  unfold cv_signal_one. wp_step. eapply wp_on_cv_queue; [done..|]. unfold q_empty. wp_step.
  rewrite (queue_rep_empty _ _ HqW), (cv_id _ _ _ _ Hv Hq). destruct W as [|t' W].
  - rewrite bool_decide_eq_true_2 by done. cbn [negb]. wp_run. split_and!; [done..|]. split; [|done]. by exists rq, sl, zb.
  - rewrite bool_decide_eq_false_2 by done. cbn [negb].
    eapply wp_mono; [by eapply (signal_head_ok t s μ B rq sl zb c v q t' W)|]. cbn beta.
    intros _ s' o' (-> & Hs' & Hint' & rq' & sl' & q' & Hth' & Hob' & _). split_and!; [done..|].
    split; [|done]. by exists rq', sl', zb.
Qed.
Lemma broadcast_ok fuel t s μ B rq sl zb c v q W :
  threads_ok (Running t) s μ rq sl zb → objs_ok (ext s) μ sl B → int_ok (Running t) s μ →
  curspl s = SPL_HIGH → cvs (ext s) !! c = Some v → cv_queue v = Some q → queue_rep q W →
  NoDup W → (∀ t2, t2 ∈ W ↔ t2 ∈ sl ∧ gm <$> μ !! t2 = Some (InCv c)) → (length W ≤ fuel)%nat →
  wp (broadcast_loop fuel c) (λ _ s' o', o' = [] ∧ curspl s' = SPL_HIGH ∧ J (Running t) s' μ B) s [].
Proof.
  revert s rq sl v q W. induction fuel as [|fuel IH]; intros s rq sl v q W Hth Hob Hint Hs Hv Hq HqW HndW HW Hf;
    cbn [broadcast_loop]; wp_step; (eapply wp_on_cv_queue; [done..|]); unfold q_empty; wp_step;
    rewrite (queue_rep_empty _ _ HqW), (cv_id _ _ _ _ Hv Hq).
  { destruct W; [|simpl in Hf; lia]. rewrite bool_decide_eq_true_2 by done. cbn [negb]. wp_run.
    split_and!; [done..|]. split; [|done]. by exists rq, sl, zb. }
  destruct W as [|t' W].
  { rewrite bool_decide_eq_true_2 by done. cbn [negb]. wp_run.
    split_and!; [done..|]. split; [|done]. by exists rq, sl, zb. }
  rewrite bool_decide_eq_false_2 by done. cbn [negb].
  pose proof (signal_head_ok t s μ B rq sl zb c v q t' W Hth Hob Hint Hs Hv Hq HqW HndW HW) as Hone.
  apply wp_bind in Hone. wp_step. eapply wp_mono; [exact Hone|]. cbn beta. intros t2 s2 o2 Hw. wp_step.
  eapply wp_mono; [exact Hw|]. cbn beta. intros _ s' o' (-> & Hs' & Hint' & rq' & sl' & q' & Hth' & Hob' & Hv' & Hq' & _ & HW').
  apply NoDup_cons in HndW as [_ HndW]. simpl in Hf.
  eapply (IH s' rq' sl' (mkCv (Some q')) q' W); try done. lia.
Qed.
(** signal and broadcast check the lock and turn interrupts off *)
Lemma cv_enter_ok (f : Z → KT unit) k t O L c l :
  c ∈ DC → l ∈ O →
  (∀ s μ B, J (Running t) s μ B → μ !! t = Some (G Run O L) → curspl s = SPL_HIGH → B + 1 < 2 ^ 31 →
     okR (f 0 k) t s μ B []) →
  stable t O L (tbind (lift (_ <- get_cv c; b <- lock_do_i_hold l; kassert b)) (λ _, tbind (lift splhigh) f) k).
Proof.
  intros Hc Hl Hf s μ B HJ Hg Hs HB. destruct (J_cv_dom _ _ _ _ _ (proj1 HJ) Hc) as (v & Hv).
  apply okR_tbind. eapply okR_here; [done..|]. wp_step. eapply wp_get_cv; [done|]. wp_step.
  eapply wp_mono; [by apply (J_holds t s μ B (G Run O L))|]. cbn beta. intros ? s' o' (-> & -> & ->).
  wp_run. split_and!; [done..|]. clear s μ B HJ Hg Hs HB v Hv. intros s μ B HJ Hg Hs HB.
  apply okR_tbind, okR_off, spl_ok. rewrite Hs. split; [done|]. apply Hf; try done. by apply J_curspl.
Qed.
(** and on again *)
Lemma leave_ok k t s μ B O L :
  J (Running t) s μ B → μ !! t = Some (G Run O L) → stable t O L (k tt) →
  okR (tbind (lift (splx 0)) (λ _, tret tt) k) t s μ B [].
Proof.
  intros HJ Hg Hk. apply okR_tbind, okR_on, spl_ok. split_and!; [done..|].
  exists O, L. rewrite insert_id by done. split; [|done]. apply J_curspl. eapply J_mono; [|done]. lia.
Qed.
Lemma cv_signal_ok k t O L c l :
  c ∈ DC → l ∈ O → stable t O L (k tt) → stable t O L (cv_signal c l k).
Proof.
  intros Hc Hl Hk. apply cv_enter_ok; [done..|]. intros s μ B HJ Hg Hs HB. apply okR_tbind, okR_off.
  eapply wp_mono; [by apply (cv_signal_one_ok t s μ B)|]. cbn beta. intros _ s' o' (-> & Hs' & HJ').
  rewrite Hs'. split; [done|]. by eapply leave_ok.
Qed.
Lemma cv_broadcast_ok k t O L c l :
  c ∈ DC → l ∈ O → stable t O L (k tt) → stable t O L (cv_broadcast c l k).
Proof.
  intros Hc Hl Hk. apply cv_enter_ok; [done..|]. intros s μ B [HJ Hint] Hg Hs HB.
  destruct (J_cv_dom _ _ _ _ _ HJ Hc) as (v & Hv). destruct HJ as (rq & sl & zb & Hth & Hob).
  destruct (ob_cv _ _ _ _ Hob c v Hv) as (q & W & Hq & HqW & HndW & HW).
  apply okR_tbind, okR_off. eapply wp_on_cv_queue; [done..|]. unfold q_getsize. wp_step.
  rewrite (cv_id _ _ _ _ Hv Hq), Hs. split; [done|]. apply okR_tbind, okR_off.
  eapply wp_mono; [eapply (broadcast_ok _ t s μ B rq sl zb c v q W); try done|].
  { destruct HqW as (? & _ & _ & _ & ? & _). lia. }
  cbn beta. intros _ s' o' (-> & Hs' & HJ'). rewrite Hs'. split; [done|]. by eapply leave_ok.
Qed.

Section Kill.
  Context (kill_process : Z → KT unit).

(** the end of [lock_acquire]: the lock is free or was passed on to [t] *)
Lemma acquire_end k t s μ B g l lk :
  J (Running t) s μ B → μ !! t = Some g → flag (gm g) = 0 → curspl s = SPL_HIGH →
  locks (ext s) !! l = Some lk → held lk = None ∨ held lk = Some t →
  stable t (own g ∪ {[l]}) (lg g) (k tt) →
  okR (tbind (lift (c <- gets curthread; set_held l c)) (λ _, tbind (lift (splx 0)) (λ _, tret tt)) k) t s μ B [].
Proof.
  intros HJ Hg Hf Hs Hl Hh Hk. destruct (J_running _ _ _ _ HJ) as (Hc & _). apply okR_tbind, okR_off.
  wp_step. wp_step. eapply wp_set_held; [done|]. rewrite Hc. simpl. rewrite Hs. split; [done|].
  apply okR_tbind, okR_on, spl_ok. split_and!; [done..|]. exists (own g ∪ {[l]}), (lg g). split; [|done].
  apply J_curspl. eapply J_mono; [|eapply (J_own t _ μ B g l); try done; [|simpl; by rewrite lookup_insert_eq|done]]; [lia|].
  destruct HJ as ((rq & sl & zb & Hth & Hob) & Hi). split; [|done]. exists rq, sl, zb.
  split; [by apply threads_ok_ext|]. by apply objs_ok_take.
Qed.

Lemma q_addtail_ok (q : queue tid) W t :
  queue_rep q W → Z.of_nat (length W) + 1 < 2 ^ 29 →
  wp (q_addtail t) (λ r q' o', r = 0 ∧ o' = [] ∧ queue_rep q' (W ++ [t])) q [].
Proof.
  intros Hq Hl. eapply wp_mono; [by apply q_addtail_spec|]. cbn beta.
  intros r q' o' [(-> & Hq' & _ & _ & [->| ->])|(_ & _ & Hf & _)]; [done..|by apply not_fails_nil in Hf].
Qed.
Lemma waiters_bound w s μ rq sl zb md (W : list tid) :
  threads_ok w s μ rq sl zb → NoDup W → (∀ t, t ∈ W ↔ t ∈ sl ∧ gm <$> μ !! t = Some md) →
  Z.of_nat (length W) + 1 < 2 ^ 29.
Proof.
  intros Hth Hnd HW. pose proof (bound_sl _ _ _ _ _ _ Hth). destruct Hth. rewrite !length_app in *.
  assert (length W ≤ length sl)%nat; [|lia]. apply submseteq_length, NoDup_submseteq; [done|].
  intros t Ht. by apply HW in Ht as [? _].
Qed.

Lemma lock_acquire_ok k t O L l :
  l ∈ DL → stable t (O ∪ {[l]}) L (k tt) → stable t O L (lock_acquire kill_process l k).
Proof.
  intros Hl Hk s μ B HJ Hg Hs HB. destruct (J_lock_dom _ _ _ _ _ (proj1 HJ) Hl) as (lk & Hlk).
  unfold lock_acquire. apply okR_tbind. eapply okR_here; [done..|]. wp_step. eapply wp_get_lock; [done|]. wp_run.
  split_and!; [done..|]. clear s μ B HJ Hg Hs HB lk Hlk.
  intros s μ B HJ Hg Hs HB. destruct (J_running _ _ _ _ HJ) as (_ & _ & (g & Hg' & Hi)). simplify_eq. simpl in Hi.
  apply okR_tbind. eapply okR_here; [done..|]. wp_run. split_and!; [done..|]. clear s μ B HJ Hg Hs HB Hi.
  intros s μ B HJ Hg Hs HB. destruct (J_lock_dom _ _ _ _ _ (proj1 HJ) Hl) as (lk & Hlk).
  destruct (J_running _ _ _ _ HJ) as (Hc & (th & Ht & _ & _ & Hst) & (g & Hg' & Hi)). simplify_eq. simpl in Hi.
  apply okR_tbind, okR_off, spl_ok. rewrite Hs. split; [done|].
  pose proof (J_curspl _ _ _ _ SPL_HIGH HJ) as HJ1.
  apply okR_tbind, okR_off. eapply wp_get_lock; [done|]. split; [done|].
  destruct (held lk) as [h|] eqn:Hh.
  2: { rewrite bool_decide_eq_false_2 by tauto. unfold tret at 1. apply okR_tbind. unfold tret at 1.
       eapply (acquire_end _ t _ μ B (G Run O L) l lk); try done. by left. }
  rewrite bool_decide_eq_true_2 by done. destruct HJ1 as [(rq & sl & zb & Hth & Hob) Hint].
  destruct (th_cpu _ _ _ _ _ _ t Hth) as (_ & Hns & _); [clear; set_solver|].
  destruct (ob_lock _ _ _ _ Hob l lk Hlk) as (q & W & Hq & HqW & HndW & _ & HW).
  apply okR_tbind, okR_tbind, okR_off. eapply wp_get_curthread; [done|]. split; [done|].
  apply okR_tbind, okR_off. eapply wp_on_lock_queue; [done..|].
  eapply wp_mono; [apply q_addtail_ok; [done|by eapply waiters_bound]|]. cbn beta.
  intros ? q' o' (-> & -> & Hq'). split; [done|]. apply okR_tbind. simpl negb. cbv match. unfold tret at 1.
  pose proof (th_lists _ _ _ _ _ _ Hth) as (_ & (a & Ha & Hsl) & _).
  eapply (thread_sleep_ok _ _ t _ μ B th a sl (G (InLock l) O L)); try done; [by eapply bound_sl| |].
  - intros a' Ha'. split; [|exists (G (InLock l) O L); simpl; rewrite lookup_insert_eq; done].
    exists rq, (sl ++ [t]), zb. split.
    + eapply (threads_ok_sleep _ μ rq sl zb t th (G Run O L)); try done. by apply threads_ok_ext.
    + apply (objs_ok_mono _ _ _ B); [lia|]. eapply (objs_ok_sleep (ext s)); simpl; try done.
      * intros l' lk'. rewrite lookup_insert. case_decide as Heq.
        -- intros [= <-]. subst l'. exists q', (W ++ [t]). simpl. split_and!; [done..| | |].
           ++ by eapply waiters_nodup.
           ++ by rewrite Hh.
           ++ by apply waiters_snoc.
        -- intros Hl'. apply lock_ok_sleep; [done|simpl; congruence|]. by apply (ob_lock _ _ _ _ Hob).
      * intros c v Hv. apply cv_ok_sleep; [done..|]. by apply (ob_cv _ _ _ _ Hob).
      * rewrite dom_insert_L. apply elem_of_dom_2 in Hlk. set_solver.
      * by eapply held_insert.
  - clear -HN Hdv Hk Hl. intros s μ B HJ Hg Hs HB. destruct (not_asleep _ _ _ _ (proj1 HJ)) as (rq & sl & zb & _ & Hob & Hn).
    destruct (ob_grant _ _ _ _ Hob t l) as (lk & Hlk & Hh); [by rewrite Hg|done|].
    eapply (acquire_end _ t s μ B (G (InLock l) O L) l lk); try done. by right.
Qed.

Lemma cv_wait_ok k t O L c l :
  c ∈ DC → l ∈ DL → l ∈ O → l ∉ L → stable t O L (k tt) → stable t O L (cv_wait kill_process c l k).
Proof.
  intros Hc Hld Hl Hll Hk s μ B HJ Hg Hs HB. destruct (J_cv_dom _ _ _ _ _ (proj1 HJ) Hc) as (v & Hv).
  unfold cv_wait. apply okR_tbind. eapply okR_here; [done..|]. wp_step. eapply wp_get_cv; [done|]. wp_step.
  eapply wp_mono; [by apply (J_holds t s μ B (G Run O L))|]. cbn beta. intros ? s' o' (-> & -> & ->).
  wp_run. split_and!; [done..|]. clear s μ B HJ Hg Hs HB v Hv.
  apply (lock_release_ok _ t O L l); [done..|].
  intros s μ B HJ Hg Hs HB. destruct (J_cv_dom _ _ _ _ _ (proj1 HJ) Hc) as (v & Hv).
  destruct (J_running _ _ _ _ HJ) as (Hcur & (th & Ht & _ & _ & Hst) & (g & Hg' & Hi)). simplify_eq. simpl in Hi.
  apply okR_tbind, okR_off, spl_ok. rewrite Hs. split; [done|].
  destruct (J_curspl _ _ _ _ SPL_HIGH HJ) as [(rq & sl & zb & Hth & Hob) _].
  destruct (th_cpu _ _ _ _ _ _ t Hth) as (_ & Hns & _); [clear; set_solver|].
  destruct (ob_cv _ _ _ _ Hob c v Hv) as (q & W & Hq & HqW & HndW & HW).
  apply okR_tbind, okR_off. eapply wp_get_curthread; [done|]. split; [done|].
  apply okR_tbind, okR_off. eapply wp_on_cv_queue; [done..|].
  eapply wp_mono; [apply q_addtail_ok; [done|by eapply waiters_bound]|]. cbn beta.
  intros ? q' o' (-> & -> & Hq'). split; [done|]. apply okR_tbind, okR_off. wp_run. split; [done|].
  pose proof (th_lists _ _ _ _ _ _ Hth) as (_ & (a & Ha & Hsl) & _). apply okR_tbind.
  eapply (thread_sleep_ok _ _ t _ μ B th a sl (G (InCv c) (O ∖ {[l]}) L)); try done; [by eapply bound_sl| |].
  - intros a' Ha'. split; [|exists (G (InCv c) (O ∖ {[l]}) L); simpl; rewrite lookup_insert_eq; done].
    exists rq, (sl ++ [t]), zb. split.
    + eapply (threads_ok_sleep _ μ rq sl zb t th (G Run (O ∖ {[l]}) L)); try done. by apply threads_ok_ext.
    + apply (objs_ok_mono _ _ _ B); [lia|]. eapply (objs_ok_sleep (ext s)); simpl; try done.
      * intros l' lk' Hl'. apply lock_ok_sleep; [done..|]. by apply (ob_lock _ _ _ _ Hob).
      * intros c' v'. rewrite lookup_insert. case_decide as Heq.
        -- intros [= <-]. subst c'. exists q', (W ++ [t]). simpl. split_and!; [done..| |].
           ++ by eapply waiters_nodup.
           ++ by apply waiters_snoc.
        -- intros Hv'. apply cv_ok_sleep; [done|simpl; congruence|]. by apply (ob_cv _ _ _ _ Hob).
      * rewrite dom_insert_L. apply elem_of_dom_2 in Hv. set_solver.
  - clear -HN Hdv Hk Hld Hl. intros s μ B HJ Hg Hs HB. apply okR_tbind, okR_on, spl_ok. split_and!; [done..|].
    exists (O ∖ {[l]}), L. split.
    + apply J_curspl. eapply J_mono; [|by apply (J_run _ _ _ _ _ HJ Hg)]. lia.
    + apply lock_acquire_ok; [done|]. assert (O ∖ {[l]} ∪ {[l]} = O) as ->; [|done].
      apply set_eq. intros x. destruct (decide (x = l)); set_solver.
Qed.

(** ** P *)
Lemma P_loop_ok fuel k t s μ B g kk :
  J (Running t) s μ B → μ !! t = Some g → gm g = Run ∨ gm g = InSem k → curspl s = SPL_HIGH → B + 1 < 2 ^ 31 →
  k ∈ DS →
  (∀ s2 μ2 B2 md n, J (Running t) s2 μ2 B2 → μ2 !! t = Some (G md (own g) (lg g)) → md = Run ∨ md = InSem k →
     curspl s2 = SPL_HIGH → B2 + 1 < 2 ^ 31 → sems (ext s2) !! k = Some n → 0 < n →
     okR (kk tt) t s2 μ2 B2 []) →
  okR (P_loop fuel k kk) t s μ B [].
Proof.
  revert s μ B g. induction fuel as [|fuel IH]; intros s μ B g HJ Hg Hm Hs HB Hk Hkk;
    destruct (J_sem_dom _ _ _ _ _ (proj1 HJ) Hk) as (n & Hn & Hnb);
    cbn [P_loop]; apply okR_tbind, okR_off; (eapply wp_get_sem; [done|]); rewrite Hs; (split; [done|]);
    destruct (Z.eqb_spec n 0) as [->|Hne].
  2, 4: unfold tret; destruct g as [md O L]; eapply (Hkk s μ B md n); simpl in *; try done; lia.
  { Transparent okR. cbn. done. Opaque okR. }
  destruct (J_running _ _ _ _ HJ) as (Hcur & (th & Ht & _ & _ & Hst) & (g' & Hg' & Hi)). simplify_eq.
  assert (flag (gm g) = 0) as Hf by by destruct Hm as [->| ->].
  destruct HJ as [(rq & sl & zb & Hth & Hob) _].
  destruct (th_cpu _ _ _ _ _ _ t Hth) as (_ & Hns & _); [clear; set_solver|].
  pose proof (th_lists _ _ _ _ _ _ Hth) as (_ & (a & Ha & Hsl) & _). apply okR_tbind.
  eapply (thread_sleep_ok _ _ t _ μ B th a sl (G (InSem k) (own g) (lg g))); try done; [by rewrite Hi|by eapply bound_sl| |].
  - intros a' Ha'. split; [|exists (G (InSem k) (own g) (lg g)); simpl; rewrite lookup_insert_eq, Hi; done].
    exists rq, (sl ++ [t]), zb. split.
    + by eapply (threads_ok_sleep _ μ rq sl zb t th g).
    + apply (objs_ok_mono _ _ _ B); [lia|]. eapply (objs_ok_sleep (ext s)); simpl; try done.
      * intros l' lk' Hl'. apply lock_ok_sleep; [done..|]. by apply (ob_lock _ _ _ _ Hob).
      * intros c' v' Hv'. apply cv_ok_sleep; [done..|]. by apply (ob_cv _ _ _ _ Hob).
      * intros k' [= <-]. done.
  - intros s2 μ2 B2 HJ2 Hg2 Hs2 HB2. apply (IH s2 μ2 B2 (G (InSem k) (own g) (lg g))); try done. by right.
Qed.
Lemma P_ok fuel kk t O L k :
  k ∈ DS → stable t O L (kk tt) → stable t O L (P fuel k kk).
Proof.
  intros Hk Hkk s μ B HJ Hg Hs HB. destruct (J_sem_dom _ _ _ _ _ (proj1 HJ) Hk) as (n & Hn & _).
  unfold P. apply okR_tbind. eapply okR_here; [done..|]. wp_step. eapply wp_get_sem; [done|]. wp_run.
  split_and!; [done..|]. clear s μ B HJ Hg Hs HB n Hn. intros s μ B HJ Hg Hs HB.
  destruct (J_running _ _ _ _ HJ) as (_ & _ & (g & Hg' & Hi)). simplify_eq. simpl in Hi.
  apply okR_tbind. eapply okR_here; [done..|]. wp_run. split_and!; [done..|]. clear s μ B HJ Hg Hs HB Hi.
  intros s μ B HJ Hg Hs HB. apply okR_tbind, okR_off, spl_ok. rewrite Hs. split; [done|]. apply okR_tbind.
  eapply (P_loop_ok fuel k t _ μ B (G Run O L)); try done; [by apply J_curspl|by left|]. simpl.
  clear s μ B HJ Hg Hs HB. intros s μ B md n HJ Hg Hmd Hs HB Hn Hpos.
  destruct (J_sem_dom _ _ _ _ _ (proj1 HJ) Hk) as (n' & Hn' & Hb). simplify_eq.
  apply okR_tbind, okR_off. wp_step. eapply wp_get_sem; [done|]. wp_step. wp_step; [lia|]. apply wp_put_sem.
  rewrite s32_small by lia. simpl. rewrite Hs. split; [done|]. apply okR_tbind, okR_on, spl_ok. split_and!; [done..|].
  exists O, L. split; [|done]. apply J_curspl.
  assert (J (Running t) (set_ext (set_sems (<[k := n - 1]> (sems (ext s))) (ext s)) s) μ (B + 1)) as HJ'.
  { destruct HJ as [(rq & sl & zb & Hth & Hob) Hint]. split; [|done]. exists rq, sl, zb.
    split; [by apply threads_ok_ext|]. destruct Hob. split; simpl; try done.
    - intros k' m. rewrite lookup_insert. case_decide; [intros [= <-]; lia|]. intros Hm.
      specialize (ob_sem0 k' m Hm). lia.
    - intros t' k' Ht' Hm'. specialize (ob_semsleep0 t' k' Ht' Hm'). rewrite lookup_insert_ne; [done|].
      intros ->. simplify_eq. lia.
    - destruct ob_dom0 as (? & ? & HD). split_and!; [done..|]. rewrite dom_insert_L, HD. set_solver. }
  apply (J_run _ _ _ _ _ HJ' Hg). by destruct Hmd as [->| ->].
Qed.

End Kill.

End Synch.
