(* ===== verification/SynchRuns.v ===== *)
(** * Runs of threads that use the synchronization primitives

    Threads run programs over locks, condition variables and semaphores.  A
    program is disciplined when it acquires only locks it does not hold and
    releases, waits with and signals with only locks it does.  Every world
    that is reached from a start with disciplined programs satisfies the
    invariant of SynchSpec: no assertion fails, at most one thread is in the
    critical section of a lock, and nobody sleeps on a semaphore that is not
    zero.  A run of [cv_wait] in which a signal gets lost ends the file. *)
From S2P Require Import Prelude Array Queue Thread ThreadSpec Synch SynchSpec.

Section Programs.
  Context {D : Type}.
  Abbreviation U := (gmap tid (gset Z) * D)%type.
  Context `{!ThreadEnv U}.
  Abbreviation ksys := (tsys (synch U)).
  Abbreviation kcode := (code (synch U)).
  Abbreviation KT := (T (synch U)).

(** ** Programs of threads *)
Inductive op : Type :=
| OpAcquire (l : Z)
| OpRelease (l : Z)
| OpWait (c l : Z)
| OpSignal (c l : Z)
| OpBroadcast (c l : Z)
| OpP (fuel : nat) (k : Z)
| OpV (k : Z)
| OpYield
| OpWork (f : D → D).
Inductive prog : Type :=
| PHalt
| PDo (o : op) (p : prog)
| PIf (b : D → bool) (p q : prog).

(** A thread writes down the locks whose critical sections it is in. *)
Definition note (f : gset Z → gset Z) : K ksys unit :=
  cur <- get_curthread;
  on_ext (modify (λ x, set_user (alter f cur (user x).1, (user x).2) x)).
Definition work (f : D → D) : K ksys unit :=
  on_ext (modify (λ x, set_user ((user x).1, f (user x).2) x)).

Section Run.
  Context (kill_process : Z → KT unit).
Definition run_op (o : op) : KT unit :=
  match o with
  | OpAcquire l =>
      _ ← lock_acquire kill_process l;
      lift (note (λ L, L ∪ {[l]}))
  | OpRelease l =>
      _ ← lift (note (λ L, L ∖ {[l]}));
      lock_release l
  | OpWait c l =>
      _ ← lift (note (λ L, L ∖ {[l]}));
      _ ← cv_wait kill_process c l;
      lift (note (λ L, L ∪ {[l]}))
  | OpSignal c l => cv_signal c l
  | OpBroadcast c l => cv_broadcast c l
  | OpP fuel k => P fuel k
  | OpV k => lift (V k)
  | OpYield => thread_yield
  | OpWork f => lift (work f)
  end.
Fixpoint run_prog (p : prog) : KT unit :=
  match p with
  | PHalt => tret tt
  | PDo o p => _ ← run_op o; run_prog p
  | PIf b p q => x ← lift (gets ext); if b (user x).2 then run_prog p else run_prog q
  end.
End Run.

(** [O] is what the thread holds. *)
Section Discipline.
  Context (DL DC DS : gset Z).
Definition op_ok (O : gset Z) (o : op) : bool :=
  match o with
  | OpAcquire l => bool_decide (l ∈ DL) && bool_decide (l ∉ O)
  | OpRelease l => bool_decide (l ∈ O)
  | OpWait c l => bool_decide (c ∈ DC) && bool_decide (l ∈ DL) && bool_decide (l ∈ O)
  | OpSignal c l | OpBroadcast c l => bool_decide (c ∈ DC) && bool_decide (l ∈ O)
  | OpP _ k | OpV k => bool_decide (k ∈ DS)
  | OpYield | OpWork _ => true
  end.
Definition op_own (O : gset Z) (o : op) : gset Z :=
  match o with
  | OpAcquire l => O ∪ {[l]}
  | OpRelease l => O ∖ {[l]}
  | _ => O
  end.
Fixpoint disciplined (O : gset Z) (p : prog) : bool :=
  match p with
  | PHalt => true
  | PDo o p => op_ok O o && disciplined (op_own O o) p
  | PIf _ p q => disciplined O p && disciplined O q
  end.
End Discipline.
End Programs.
Arguments op : clear implicits.
Arguments prog : clear implicits.

Section Runs.
  Context {D : Type}.
  Abbreviation U := (gmap tid (gset Z) * D)%type.
  Context `{!ThreadEnv U}.
  Context (N : Z) (DL DC DS : gset Z) (HN : N < 2 ^ 28).
  Context (dv : list Z) (Hdv : ∀ k, k ∈ dv → k ∈ DS).
  Context (kill_process : Z → T (synch U) unit).
  Abbreviation ksys := (tsys (synch U)).
  Abbreviation kcode := (code (synch U)).
  Abbreviation KT := (T (synch U)).
  Abbreviation world := (@world (synch U)).
  Abbreviation J := (@J D N DL DC DS).
  Abbreviation okR := (@okR D N DL DC DS).
  Abbreviation stable := (@stable D N DL DC DS).
  Abbreviation resumable := (@resumable D N DL DC DS).
  Implicit Types (s : ksys) (μ : gmap tid ghost).

(** ** Programs keep the invariant. *)
Lemma objs_ok_note (x : synch U) μ sl B t O L f :
  objs_ok DL DC DS x μ sl B → μ !! t = Some (G Run O L) → t ∉ sl → f L ⊆ O →
  objs_ok DL DC DS (set_user (alter f t (user x).1, (user x).2) x) (<[t := G Run O (f L)]> μ) sl B.
Proof.
  intros [] Hg Hn Hf. split; simpl; try done.
  - intros l lk Hlk. by apply lock_ok_ghost, ob_lock.
  - intros t' l. destruct (decide (t' = t)) as [->|Hne]; [by rewrite lookup_insert_eq|].
    rewrite gm_insert by done. by apply ob_grant.
  - intros c v Hv. by apply cv_ok_ghost, ob_cv.
  - intros t' k Ht'. assert (t' ≠ t) by by intros ->. rewrite gm_insert by done. by apply ob_semsleep.
  - intros t' g. destruct (decide (t' = t)) as [->|Hne].
    + rewrite lookup_insert_eq. intros [= <-]. destruct (ob_log t _ Hg) as [Hl _]. simpl in *.
      by rewrite lookup_alter_eq, Hl.
    + rewrite lookup_insert_ne, lookup_alter_ne by done. by apply ob_log.
  - intros t' g l. destruct (decide (t' = t)) as [->|Hne].
    + rewrite lookup_insert_eq. intros [= <-]. by apply (ob_own t _ l Hg).
    + rewrite lookup_insert_ne by done. by apply ob_own.
Qed.
Lemma note_ok f k t O L : f L ⊆ O → stable t O (f L) (k tt) → stable t O L (lift (note f) k).
Proof.
  intros Hf Hk s μ B HJ Hg Hs HB. destruct (J_running _ _ _ _ _ _ _ _ HJ) as (Hc & _).
  apply okR_on. unfold note. wp_step. eapply wp_get_curthread; [done|]. unfold on_ext. wp_step. wp_step.
  split_and!; [done..|]. exists O, (f L). split; [|done].
  pose proof HJ as [HJ0 Hint]. destruct (not_asleep _ _ _ _ _ _ _ _ HJ0) as (rq & sl & zb & Hth & Hob & Hns).
  eapply J_mono; [|split].
  - instantiate (1 := B). lia.
  - exists rq, sl, zb. split; [apply threads_ok_ext; by apply (threads_ok_own _ _ _ _ _ _ _ (G Run O L))|].
    by apply objs_ok_note.
  - destruct Hint as (g & Hg' & Hi). simpl in *. simplify_eq. eexists. simpl. by rewrite lookup_insert_eq.
Qed.
(** A step that does not concern the invariant *)
Lemma objs_ok_user (x : synch U) μ sl B d :
  objs_ok DL DC DS x μ sl B → objs_ok DL DC DS (set_user ((user x).1, d) x) μ sl B.
Proof. by intros []. Qed.
Lemma work_ok f k t O L : stable t O L (k tt) → stable t O L (lift (work f) k).
Proof.
  intros Hk s μ B HJ Hg Hs HB. apply okR_on. unfold work, on_ext. wp_step. wp_step.
  split_and!; [done..|]. exists O, L. rewrite insert_id by done. split; [|done].
  destruct HJ as ((rq & sl & zb & Hth & Hob) & Hint). eapply J_mono; [|split; [|exact Hint]].
  - instantiate (1 := B). lia.
  - exists rq, sl, zb. split; [by apply threads_ok_ext|by apply objs_ok_user].
Qed.
Lemma lift_V_ok (k : unit → kcode) t O L i :
  i ∈ DS → stable t O L (k tt) → stable t O L (lift (V i) k).
Proof.
  intros Hi Hk s μ B HJ Hg Hs HB. apply okR_on.
  eapply wp_mono; [by apply (V_ok N DL DC DS HN i (Running t) s μ B (proj1 HJ))|]. cbn beta.
  intros [] s' o' (-> & Hs' & Hi' & HJ'). split_and!; [congruence|done|]. exists O, L. rewrite insert_id by done.
  split; [|done]. by eapply J_same.
Qed.

Lemma run_op_ok o k t O :
  op_ok DL DC DS O o = true → stable t (op_own O o) (op_own O o) (k tt) →
  stable t O O (run_op kill_process o k).
Proof.
  destruct o; cbn [op_ok op_own run_op]; rewrite ?andb_true_iff, ?bool_decide_eq_true; intros Ho Hk.
  - destruct Ho. apply (lock_acquire_ok N DL DC DS HN dv Hdv); [done..|]. apply (note_ok (λ L, L ∪ {[l]})); [done|done].
  - apply (note_ok (λ L, L ∖ {[l]})); [set_solver|]. apply (lock_release_ok N DL DC DS HN dv Hdv); [done..|set_solver|done].
  - destruct Ho as [[? ?] ?]. apply (note_ok (λ L, L ∖ {[l]})); [set_solver|].
    apply (cv_wait_ok N DL DC DS HN dv Hdv); [done..|set_solver|].
    apply (note_ok (λ L, L ∪ {[l]})); [set_solver|]. assert (O ∖ {[l]} ∪ {[l]} = O) as ->; [|done].
    apply set_eq. intros x. destruct (decide (x = l)); set_solver.
  - destruct Ho. by apply (cv_signal_ok N DL DC DS HN dv Hdv).
  - destruct Ho. by apply (cv_broadcast_ok N DL DC DS HN dv Hdv).
  - by apply (P_ok N DL DC DS HN dv Hdv).
  - by apply lift_V_ok.
  - by apply thread_yield_ok.
  - by apply work_ok.
Qed.
Lemma run_prog_ok p k t O :
  disciplined DL DC DS O p = true → (∀ O', stable t O' O' (k tt)) →
  stable t O O (run_prog kill_process p k).
Proof.
  revert O. induction p as [|o p IH|b p IHp q IHq]; intros O Hd Hk; cbn [run_prog disciplined] in *.
  - apply Hk.
  - apply andb_true_iff in Hd as [Ho Hd]. apply (run_op_ok o (λ _, run_prog kill_process p k)); [done|]. by apply IH.
  - apply andb_true_iff in Hd as [Hp Hq]. intros s μ B HJ Hg Hs HB. apply okR_tbind.
    eapply okR_here; [done..|]. wp_step. split_and!; [done..|]. destruct (b _); [by apply IHp|by apply IHq].
Qed.
(** A thread starts with interrupts off, having just been switched to. *)
Lemma mi_threadstart_ok p t :
  disciplined DL DC DS ∅ p = true →
  resumable t (G Run ∅ ∅) (mi_threadstart (run_prog kill_process p) (λ _, CExit)).
Proof.
  intros Hd s μ B HJ Hg Hs HB. destruct (J_running _ _ _ _ _ _ _ _ HJ) as (Hc & (th & Ht & Hv & _) & _).
  unfold mi_threadstart. apply okR_tbind, okR_off. wp_step. eapply wp_get_curthread; [done|]. wp_step.
  eapply wp_get_thread; [done|]. rewrite Hv. wp_step. rewrite Hs. split; [done|].
  apply okR_tbind, okR_on, spl_ok. split_and!; [done..|]. exists ∅, ∅. rewrite insert_id by done.
  split; [apply J_curspl; eapply J_mono; [|done]; lia|].
  apply (run_prog_ok p (λ _, thread_exit (λ _, CExit))); [done|]. intros O. by apply thread_exit_ok.
Qed.

(** ** Scheduling keeps the invariant. *)
Lemma scheduler_ok cur s μ B :
  J (Leaving cur) s μ B → curspl s = SPL_HIGH →
  wp scheduler (λ r s' o', o' = [] ∧
    match r with
    | None => s' = s
    | Some next =>
        is_Some (μ !! next) ∧
        wp (md_switch cur next) (λ _ s2 o2, o2 = [] ∧ curspl s2 = SPL_HIGH ∧ J (Running next) s2 μ B) s' o'
    end) s [].
Proof.
  intros [(rq & sl & zb & Hth & Hob) Hint] Hs. pose proof (th_lists _ _ _ _ _ _ _ Hth) as ((q & Hq & Hrq) & _).
  unfold scheduler. wp_step. apply wp_assert_spl; [by rewrite Hs|]. wp_step. eapply wp_on_runqueue; [done|].
  unfold q_empty. wp_step. rewrite (queue_rep_empty _ _ Hrq).
  assert (set_runqueue (Some q) s = s) as -> by (destruct s; simpl in *; by subst).
  destruct rq as [|next rq].
  { rewrite bool_decide_eq_true_2 by done. wp_step. done. }
  rewrite bool_decide_eq_false_2 by done. wp_step. eapply wp_on_runqueue; [done|].
  eapply wp_mono; [by apply q_remhead_spec|]. cbn beta. intros ? q' o' (-> & -> & Hq' & _). wp_step.
  split; [done|]. assert (next ∈ on_cpu (Leaving cur) ++ (next :: rq) ++ sl ++ zb) as Hin by (simpl; apply list_elem_of_here).
  split; [by apply (th_mode _ _ _ _ _ _ _ Hth)|]. unfold md_switch. wp_step. wp_step.
  destruct (decide (cur = next)) as [->|Hne].
  - rewrite bool_decide_eq_true_2 by done. wp_step. split_and!; [done..|]. split; [|done].
    exists rq, sl, zb. split; [|done]. by apply threads_ok_resume_same.
  - rewrite bool_decide_eq_false_2 by done.
    destruct (proj2 (th_dom _ _ _ _ _ _ _ Hth cur) (th_who _ _ _ _ _ _ _ Hth)) as [old Hold].
    destruct (proj2 (th_dom _ _ _ _ _ _ _ Hth next) Hin) as [nu Hnu].
    wp_step. eapply wp_get_thread; [done|]. wp_step. wp_step. wp_step. eapply wp_put_thread; [done|]. wp_step.
    eapply wp_get_thread; [simpl; by rewrite lookup_insert_ne|]. wp_step. split_and!; [done..|].
    destruct (th_mode _ _ _ _ _ _ _ Hth next Hin) as [g Hg]. split.
    + exists rq, sl, zb. split; [|done]. by apply (threads_ok_resume _ _ _ _ _ _ _ _ q' old nu).
    + exists g. split; [done|]. simpl. by eapply (th_pcb _ _ _ _ _ _ _ Hth).
Qed.

(** ** The invariant of worlds *)
Definition parked μ (cs : gmap tid kcode) (t0 : tid) : Prop :=
  ∀ t g, μ !! t = Some g → t ≠ t0 → ∃ c, cs !! t = Some c ∧ resumable t g c.
Definition winv (B : Z) (w : world) : Prop :=
  worc w = [] ∧ ∃ μ a, (∀ t, Z.of_nat t < N → is_Some (μ !! t)) ∧ J a (sys w) μ B ∧ parked μ (conts w) (who_tid a) ∧
  match a with
  | Running t =>
      (curspl (sys w) = 0 ∧ ∃ O L, μ !! t = Some (G Run O L) ∧ stable t O L (running w)) ∨
      (curspl (sys w) = SPL_HIGH ∧ ∃ g, μ !! t = Some g ∧ resumable t g (running w))
  | Leaving t =>
      curspl (sys w) = SPL_HIGH ∧ ∃ g k, μ !! t = Some g ∧ resumable t g k ∧
      (running w = Switch t k ∨
       ∃ h, handler (V <$> dv) h ∧ running w = mips_trap_irq h (λ _, Switch t k))
  end.

Lemma exec_okR c t s μ B o cs :
  okR c t s μ B o →
  match exec c s cs o with
  | Halt e => e = Spin
  | Done w => conts w = cs ∧ worc w = [] ∧ ∃ g,
      (curspl (sys w) = 0 ∧ gm g = Run ∧ J (Running t) (sys w) (<[t := g]> μ) (B + 1) ∧
       stable t (own g) (lg g) (running w)) ∨
      (curspl (sys w) = SPL_HIGH ∧ J (Leaving t) (sys w) (<[t := g]> μ) (B + 1) ∧
       ∃ k, running w = Switch t k ∧ resumable t g k)
  end.
Proof.
  revert c s o. fix IH 1. intros [|m|cur k|t' c' k] s o; cbn [SynchSpec.okR exec]; try done.
  - destruct (m s o) as [[[c' s'] o']|e]; [|done].
    destruct (Z.eqb_spec (curspl s') 0) as [Hz|Hz]; [|apply IH].
    intros (-> & O & L & HJ & Hst). simpl. split_and!; [done..|]. exists (G Run O L). by left.
  - intros (-> & -> & Hs & g & HJ & Hk). simpl. split_and!; [done..|]. exists g. right. eauto.
Qed.
Lemma parked_insert μ cs t g : parked μ cs t → parked (<[t := g]> μ) cs t.
Proof. intros Hp t' g' Hg' Hne. rewrite lookup_insert_ne in Hg' by done. by apply Hp. Qed.
(** the result of running a thread *)
Lemma winv_exec c t s μ B cs w :
  (∀ t, Z.of_nat t < N → is_Some (μ !! t)) →
  okR c t s μ B [] → parked μ cs t → exec c s cs [] = Done w → winv (B + 1) w.
Proof.
  intros Hall Hok Hp He. apply (exec_okR c t s μ B [] cs) in Hok. rewrite He in Hok.
  destruct Hok as (<- & Ho & [md O L] & [(Hs & Hg & HJ & Hst)|(Hs & HJ & k & Hk & Hr)]); (split; [done|]).
  - simpl in *. subst md. exists (<[t := G Run O L]> μ), (Running t).
    split; [by intros; apply lookup_insert_is_Some'; right; auto|]. split; [done|]; split; [by apply parked_insert|].
    left. split; [done|]. exists O, L. by rewrite lookup_insert_eq.
  - eexists _, (Leaving t).
    split; [by intros; apply lookup_insert_is_Some'; right; auto|]. split; [done|]; split; [by apply parked_insert|]. simpl. split; [done|].
    eexists _, k. rewrite lookup_insert_eq. eauto.
Qed.

Lemma winv_mono B B' w : B ≤ B' → winv B w → winv B' w.
Proof.
  intros HB (Ho & μ & a & Hall & HJ & H). split; [done|]. exists μ, a. split; [done|]. split; [by eapply J_mono|done].
Qed.
(** An interrupt, when a thread can be interrupted *)
Lemma winv_irq B w h :
  winv B w → (∀ cur k, running w ≠ Switch cur k) → curspl (sys w) = 0 → handler (V <$> dv) h →
  winv B (mkWorld (sys w) (conts w) (mips_trap_irq h (λ _, running w)) (worc w)).
Proof.
  intros (Ho & μ & a & Hall & HJ & Hp & Ha) Hns Hs Hh. split; [done|]. exists μ, a. do 3 (split; [done|]).
  destruct a as [t|t].
  - destruct Ha as [(_ & O & L & Hg & Hst)|(Hs' & _)]; [|by rewrite Hs in Hs'].
    left. split; [done|]. exists O, L. split; [done|]. by apply (irq_ok N DL DC DS HN dv Hdv).
  - destruct Ha as (Hs' & _). by rewrite Hs in Hs'.
Qed.
(** A thread that leaves the processor *)
Lemma winv_leaving B w cur k :
  winv B w → B + 1 < 2 ^ 31 → running w = Switch cur k →
  worc w = [] ∧ curspl (sys w) = SPL_HIGH ∧ ∃ μ g, (∀ t, Z.of_nat t < N → is_Some (μ !! t)) ∧
    J (Leaving cur) (sys w) μ B ∧ parked μ (conts w) cur ∧
    μ !! cur = Some g ∧ resumable cur g k.
Proof.
  intros (Ho & μ & a & Hall & HJ & Hp & Ha) HB Hr. split; [done|]. destruct a as [t|t].
  - exfalso. assert (okR (Switch cur k) t (sys w) μ B []) as (-> & _ & _ & g & [(rq & sl & zb & Hth & _) _] & _).
    { rewrite <- Hr. destruct Ha as [(Hs & O & L & Hg & Hst)|(Hs & g & Hg & Hst)]; by apply Hst. }
    destruct (J_running _ _ _ _ _ _ _ _ HJ) as (Hc & _). pose proof (th_cur _ _ _ _ _ _ _ Hth) as Hc'.
    by rewrite Hc in Hc'.
  - destruct Ha as (Hs & g & k' & Hg & Hk & [Hr'|(h & _ & Hr')]); [|by rewrite Hr in Hr'].
    rewrite Hr in Hr'. injection Hr' as -> ->. split; [done|]. exists μ, g. done.
Qed.
(** The thread that [md_switch] switches to *)
Lemma winv_switch B w cur k next s1 o1 s2 o2 c :
  winv B w → B + 1 < 2 ^ 31 → running w = Switch cur k →
  scheduler (sys w) (worc w) = Done (Some next, s1, o1) → md_switch cur next s1 o1 = Done (tt, s2, o2) →
  <[cur := k]> (conts w) !! next = Some c →
  winv B (mkWorld s2 (<[cur := k]> (conts w)) c o2).
Proof.
  intros Hw HB Hr Hsch Hmd Hc. destruct (winv_leaving _ _ _ _ Hw HB Hr) as (Ho & Hs & μ & g & Hall & HJ & Hp & Hg & Hk).
  pose proof (scheduler_ok cur (sys w) μ B HJ Hs) as Hwp. rewrite Ho in Hsch. unfold wp in Hwp.
  rewrite Hsch in Hwp. destruct Hwp as (-> & [gn Hgn] & Hwp). rewrite Hmd in Hwp. destruct Hwp as (-> & Hs2 & HJ2).
  split; [done|]. exists μ, (Running next). cbn [sys conts running who_tid]. split; [done|]. split; [done|]. split.
  - intros t g' Hg' Hne. rewrite lookup_insert. case_decide as Heq; [|by apply Hp].
    subst t. simplify_eq. eauto.
  - right. split; [done|]. exists gn. split; [done|]. rewrite lookup_insert in Hc.
    case_decide as Heq; [by simplify_eq|]. destruct (Hp next gn Hgn) as (c' & Hc' & Hres); [done|]. by simplify_eq.
Qed.
Lemma winv_step B w w' : winv B w → B + 1 < 2 ^ 31 → step (V <$> dv) w w' → winv (B + 1) w'.
Proof.
  intros Hw HB Hstep. destruct Hstep as [w w' Hns He|w h Hns Hs Hh|w cur k next s1 o1 s2 o2 c Hr H1 H2 H3|w cur k s1 o1 h Hr H1 Hh].
  - destruct Hw as (Ho & μ & a & Hall & HJ & Hp & Ha). rewrite Ho in He. destruct a as [t|t].
    + eapply (winv_exec _ t _ μ); [done| |done..].
      destruct Ha as [(Hs & O & L & Hg & Hst)|(Hs & g & Hg & Hst)]; by apply Hst.
    + destruct Ha as (Hs & g & k & Hg & Hk & [Hr|(h & Hh & Hr)]); [by destruct (Hns _ _ Hr)|]. rewrite Hr in He.
      destruct (idle_ok N DL DC DS HN dv Hdv t k _ μ B (conts w) h HJ Hs HB Hh) as (s' & He' & Hs' & HJ').
      rewrite He in He'. injection He' as ->. split; [done|]. exists μ, (Leaving t). cbn. eauto 10.
  - eapply winv_mono; [|by apply winv_irq]. lia.
  - eapply winv_mono; [|by eapply winv_switch]. lia.
  - destruct (winv_leaving _ _ _ _ Hw HB Hr) as (Ho & Hs & μ & g & Hall & HJ & Hp & Hg & Hk).
    pose proof (scheduler_ok cur (sys w) μ B HJ Hs) as Hwp. rewrite Ho in H1. unfold wp in Hwp.
    rewrite H1 in Hwp. destruct Hwp as (-> & ->). apply (winv_mono B); [lia|]. split; [done|].
    exists μ, (Leaving cur). cbn [sys conts running who_tid]. split_and!; [done..|]. exists g, k. split; [done|]. split; [done|]. right. eauto.
Qed.
Lemma winv_steps n B w w' :
  winv B w → B + Z.of_nat n < 2 ^ 31 → nsteps (step (V <$> dv)) n w w' → winv (B + Z.of_nat n) w'.
Proof.
  intros Hw HB Hn. revert B Hw HB. induction Hn as [w|n w w1 w2 Hs Hn IH]; intros B Hw HB.
  - by rewrite Z.add_0_r.
  - replace (B + Z.of_nat (S n)) with (B + 1 + Z.of_nat n) by lia. apply IH; [|lia].
    apply (winv_step B w); [done|lia|done].
Qed.

(** ** What can go wrong *)
Definition crash (w : world) (e : stop) : Prop :=
  match running w with
  | Switch cur k =>
      scheduler (sys w) (worc w) = Halt e ∨
      ∃ next s1 o1, scheduler (sys w) (worc w) = Done (Some next, s1, o1) ∧ md_switch cur next s1 o1 = Halt e
  | c => exec c (sys w) (conts w) (worc w) = Halt e
  end.
Lemma winv_runs B w e :
  winv B w → B + 1 < 2 ^ 31 → (∀ cur k, running w ≠ Switch cur k) →
  exec (running w) (sys w) (conts w) (worc w) = Halt e → e = Spin.
Proof.
  intros (-> & μ & a & Hall & HJ & Hp & Ha) HB Hns He. destruct a as [t|t].
  - assert (okR (running w) t (sys w) μ B []) as Hok.
    { destruct Ha as [(Hs & O & L & Hg & Hst)|(Hs & g & Hg & Hst)]; by apply Hst. }
    apply (exec_okR _ _ _ _ _ _ (conts w)) in Hok. by rewrite He in Hok.
  - destruct Ha as (Hs & g & k & Hg & Hk & [Hr|(h & Hh & Hr)]); [by destruct (Hns _ _ Hr)|]. rewrite Hr in He.
    destruct (idle_ok N DL DC DS HN dv Hdv t k _ μ B (conts w) h HJ Hs HB Hh) as (s' & He' & _). by rewrite He in He'.
Qed.
Lemma winv_safe B w :
  winv B w → B + 1 < 2 ^ 31 → (∀ e, crash w e → e = Spin) ∧ ((∃ w', step (V <$> dv) w w') ∨ crash w Spin).
Proof.
  intros Hw HB. unfold crash. destruct (running w) as [|m|cur k|t c k] eqn:Hr.
  1, 2, 4: rewrite <- Hr; assert (∀ cur k, running w ≠ Switch cur k) as Hns by (intros ??; by rewrite Hr);
    (split; [by intros e; apply (winv_runs B)|]);
    destruct (exec (running w) (sys w) (conts w) (worc w)) as [w'|e] eqn:He;
    [left; exists w'; by apply step_run|right; f_equal; by apply (winv_runs B w)].
  destruct (winv_leaving _ _ _ _ Hw HB Hr) as (Ho & Hs & μ & g & Hall & HJ & Hp & Hg & Hk).
  pose proof (scheduler_ok cur (sys w) μ B HJ Hs) as Hwp. rewrite Ho. unfold wp in Hwp.
  destruct (scheduler (sys w) []) as [[[[next|] s1] o1]|e] eqn:Hsch; [..|done].
  - destruct Hwp as (-> & [gn Hgn] & Hwp). destruct (md_switch cur next s1 []) as [[[[] s2] o2]|e] eqn:Hmd; [|done].
    split.
    + intros e [?|(n & s1' & o1' & [= <- <- <-] & He)]; [done|]. by rewrite Hmd in He.
    + left. assert (∃ c, <[cur := k]> (conts w) !! next = Some c) as [c Hc].
      { rewrite lookup_insert. case_decide; [by eauto|]. destruct (Hp next gn Hgn) as (c & Hc & _); eauto. }
      eexists. eapply step_switch; [done|by rewrite Ho|done..].
  - split; [by intros e [?|(? & ? & ? & ? & _)]|]. left. eexists. eapply step_idle; [done|by rewrite Ho|by left].
Qed.

End Runs.

(** ** Starts

    The first thread of [progs] runs, the others have been forked; the locks
    are free.  The devices that interrupt do [V] on the semaphores [dv]. *)
Section Start.
  Context {D : Type}.
  Abbreviation U := (gmap tid (gset Z) * D)%type.
  Context `{!ThreadEnv U}.
  Context (kill_process : Z → T (synch U) unit).
  Abbreviation world := (@world (synch U)).

Record booted (dv : list Z) (progs : list (prog D)) (w : world) : Prop := {
  bt_worc : worc w = [];
  bt_run : ∃ p, progs !! 0%nat = Some p ∧
    running w = tbind (run_prog kill_process p) (λ _, thread_exit) (λ _, CExit);
  bt_conts : ∀ t p, progs !! t = Some p → t ≠ 0%nat →
    conts w !! t = Some (mi_threadstart (run_prog kill_process p) (λ _, CExit));
  bt_cpu : curthread (sys w) = Some 0%nat ∧ curspl (sys w) = 0 ∧ in_interrupt (sys w) = 0;
  bt_lists : tlists (sys w) (seq 1 (length progs - 1)) [] [];
  bt_num : numthreads (sys w) = Z.of_nat (length progs);
  bt_dom : ∀ t, is_Some (threads (sys w) !! t) ↔ (t < length progs)%nat;
  bt_thread : ∀ t th, threads (sys w) !! t = Some th →
    t_vmspace th = None ∧ t_cwd th = None ∧ (t_stack th = None ∨ t_stack th = Some stack_magic) ∧
    pcb_ininterrupt th = 0;
  bt_locks : ∀ l lk, locks (ext (sys w)) !! l = Some lk →
    held lk = None ∧ ∃ q, lock_queue lk = Some q ∧ queue_rep q [];
  bt_cvs : ∀ c v, cvs (ext (sys w)) !! c = Some v → ∃ q, cv_queue v = Some q ∧ queue_rep q [];
  bt_sems : ∀ k n, sems (ext (sys w)) !! k = Some n → 0 ≤ n ≤ 2 ^ 30;
  bt_log : ∀ t, (t < length progs)%nat → (user (ext (sys w))).1 !! t = Some ∅;
  bt_dv : ∀ k, k ∈ dv → k ∈ dom (sems (ext (sys w)));
  bt_few : Z.of_nat (length progs) < 2 ^ 28;
  bt_disciplined : ∀ p, p ∈ progs →
    disciplined (dom (locks (ext (sys w)))) (dom (cvs (ext (sys w)))) (dom (sems (ext (sys w)))) ∅ p = true;
}.

Section Booted.
  Context (dv : list Z) (progs : list (prog D)) (w0 : world) (Hboot : booted dv progs w0).
Let N := Z.of_nat (length progs).
Let DL := dom (locks (ext (sys w0))).
Let DC := dom (cvs (ext (sys w0))).
Let DS := dom (sems (ext (sys w0))).
Let μ0 : gmap tid ghost := list_to_map ((λ t, (t, G Run ∅ ∅)) <$> seq 0 (length progs)).

Lemma ghost0 t g : μ0 !! t = Some g ↔ (t < length progs)%nat ∧ g = G Run ∅ ∅.
Proof.
  unfold μ0. rewrite <- elem_of_list_to_map.
  - rewrite list_elem_of_fmap. setoid_rewrite elem_of_seq. naive_solver lia.
  - rewrite <- list_fmap_compose. change (fst ∘ (λ t : nat, (t, G Run ∅ ∅))) with (@id nat).
    rewrite list_fmap_id. apply NoDup_seq.
Qed.
Lemma seq_progs : [0%nat] ++ seq 1 (length progs - 1) ++ [] ++ [] = seq 0 (length progs).
Proof.
  destruct Hboot as [_ (p & Hp & _)]. destruct progs; [done|]. simpl. by rewrite Nat.sub_0_r, app_nil_r.
Qed.
Lemma booted_threads : threads_ok N (Running 0%nat) (sys w0) μ0 (seq 1 (length progs - 1)) [] [].
Proof.
  pose proof seq_progs as Hseq. rewrite !app_nil_r in Hseq. destruct Hboot.
  split; cbn [on_cpu who_tid] in *; rewrite ?app_nil_r; try done.
  - by destruct bt_cpu0 as [-> _].
  - rewrite Hseq. apply NoDup_seq.
  - intros t. rewrite bt_dom0, Hseq, elem_of_seq. lia.
  - rewrite Hseq, length_seq. done.
  - rewrite bt_num0, Hseq, length_seq. done.
  - intros t th Ht. destruct (bt_thread0 t th Ht) as (? & ? & ? & _). done.
  - clear. set_solver.
  - intros t th g Ht Hg _. destruct (bt_thread0 t th Ht) as (_ & _ & _ & ->). by apply ghost0 in Hg as [_ ->].
  - intros t. rewrite Hseq, elem_of_seq. intros Ht. exists (G Run ∅ ∅). apply ghost0. split; [lia|done].
  - intros t Hd. apply fmap_Some in Hd as (g & Hg & Hd). apply ghost0 in Hg as [_ ->]. done.
  - intros t Ht. by apply not_elem_of_nil in Ht.
Qed.
Lemma booted_objs : objs_ok DL DC DS (ext (sys w0)) μ0 [] (2 ^ 30).
Proof.
  assert (∀ t md, gm <$> μ0 !! t = Some md → md = Run) as Hrun.
  { intros t md Hd. apply fmap_Some in Hd as (g & Hg & ->). by apply ghost0 in Hg as [_ ->]. }
  assert (∀ t md, md ≠ Run → t ∈ ([] : list tid) ↔ (t ∈ ([] : list tid)) ∧ gm <$> μ0 !! t = Some md) as Hnil.
  { intros t md _. split; [|by intros []]. intros Ht. by apply not_elem_of_nil in Ht. }
  destruct Hboot. split.
  - intros l lk Hl. destruct (bt_locks0 l lk Hl) as (Hh & q & Hq & Hrep). exists q, [].
    split_and!; [done..|constructor|done|]. intros t. by apply Hnil.
  - intros t l Hd. by apply Hrun in Hd.
  - intros c v Hv. destruct (bt_cvs0 c v Hv) as (q & Hq & Hrep). exists q, [].
    split_and!; [done..|constructor|]. intros t. by apply Hnil.
  - done.
  - intros t k Ht. by apply not_elem_of_nil in Ht.
  - intros t g Hg. apply ghost0 in Hg as [Ht ->]. by split; [apply bt_log0|].
  - intros t g l Hg. apply ghost0 in Hg as [_ ->]. simpl. intros Hl. by apply not_elem_of_empty in Hl.
  - done.
Qed.
Lemma booted_winv : winv N DL DC DS dv (2 ^ 30) w0.
Proof.
  split; [by destruct Hboot|]. exists μ0, (Running 0%nat). destruct (bt_run _ _ _ Hboot) as (p0 & Hp0 & Hr).
  assert (μ0 !! 0%nat = Some (G Run ∅ ∅)) as H0.
  { apply ghost0. split; [by eapply lookup_lt_Some|done]. }
  destruct (bt_cpu _ _ _ Hboot) as (Hc & Hs & Hi). pose proof (bt_few _ _ _ Hboot) as HN. fold N in HN.
  split; [|split; [|split]].
  - intros t Ht. exists (G Run ∅ ∅). apply ghost0. split; [unfold N in Ht; lia|done].
  - split; [|eexists; simpl; by rewrite H0, Hi]. eexists _, [], []. split; [apply booted_threads|apply booted_objs].
  - intros t g Hg Hne. apply ghost0 in Hg as [Ht ->]. destruct (lookup_lt_is_Some_2 _ _ Ht) as [p Hp].
    eexists. split; [by apply (bt_conts _ _ _ Hboot)|].
    apply (mi_threadstart_ok N DL DC DS HN dv (bt_dv _ _ _ Hboot)).
    apply (bt_disciplined _ _ _ Hboot). by eapply list_elem_of_lookup_2.
  - left. split; [done|]. exists ∅, ∅. split; [done|]. rewrite Hr.
    apply (run_prog_ok N DL DC DS HN dv (bt_dv _ _ _ Hboot) kill_process p0 (λ _, thread_exit (λ _, CExit))).
    + apply (bt_disciplined _ _ _ Hboot). by eapply list_elem_of_lookup_2.
    + intros O. by apply thread_exit_ok.
Qed.
(** Every world that is reached satisfies the invariant. *)
Lemma reached_winv n w :
  nsteps (step (V <$> dv)) n w0 w → Z.of_nat n < 2 ^ 30 → winv N DL DC DS dv (2 ^ 30 + Z.of_nat n) w.
Proof.
  intros Hn Hb. eapply (winv_steps N DL DC DS); [by apply (bt_few _ _ _ Hboot)|by apply (bt_dv _ _ _ Hboot)|exact booted_winv| |done].
  lia.
Qed.
(** Whoever is in the critical section of a lock holds it. *)
Lemma reached_holds n w t L l :
  nsteps (step (V <$> dv)) n w0 w → Z.of_nat n < 2 ^ 30 → (t < length progs)%nat →
  (user (ext (sys w))).1 !! t = Some L → l ∈ L →
  ∃ lk, locks (ext (sys w)) !! l = Some lk ∧ held lk = Some t.
Proof.
  intros Hn Hb Ht HL Hl. destruct (reached_winv n w Hn Hb) as (_ & μ & a & Hall & HJ & _).
  destruct HJ as ((rq & sl & zb & _ & Hob) & _). destruct (Hall t) as [g Hg]; [unfold N; lia|].
  destruct (ob_log _ _ _ _ _ _ _ Hob t g Hg) as [HL' Hsub]. simplify_eq.
  apply (ob_own _ _ _ _ _ _ _ Hob t g l Hg). set_solver.
Qed.
End Booted.


(** C2: Mutual exclusion.  Threads write down that they are in the critical
    section of a lock after [lock_acquire], or [cv_wait], has returned, and
    cross it out before they call [lock_release] or [cv_wait].  Whatever the
    schedule, no two threads are in the critical section of the same lock,
    and the one that is in it is the holder. *)
Theorem lock_exclusion dv progs w0 n w l t1 L1 t2 L2 :
  booted dv progs w0 → nsteps (step (V <$> dv)) n w0 w → Z.of_nat n < 2 ^ 30 →
  (t1 < length progs)%nat → (t2 < length progs)%nat →
  (user (ext (sys w))).1 !! t1 = Some L1 → l ∈ L1 → (user (ext (sys w))).1 !! t2 = Some L2 → l ∈ L2 →
  t1 = t2 ∧ held <$> locks (ext (sys w)) !! l = Some (Some t1).
Proof.
  intros Hb Hn Hlt H1 H2 HL1 Hl1 HL2 Hl2.
  destruct (reached_holds dv progs w0 Hb n w t1 L1 l) as (lk1 & Hlk1 & Hh1); [done..|].
  destruct (reached_holds dv progs w0 Hb n w t2 L2 l) as (lk2 & Hlk2 & Hh2); [done..|].
  rewrite Hlk1 in Hlk2. injection Hlk2 as <-. rewrite Hlk1. simpl. split; [congruence|by f_equal].
Qed.

(** C3: No wakeup of a semaphore or a lock is lost.  Whatever the schedule, a
    thread that sleeps on a semaphore sleeps on one whose count is zero, and
    a thread that waits for a lock is asleep and the lock is held; a free
    lock has nobody waiting. *)
Theorem no_lost_wakeup dv progs w0 n w :
  booted dv progs w0 → nsteps (step (V <$> dv)) n w0 w → Z.of_nat n < 2 ^ 30 →
  ∃ a sl, sleepers (sys w) = Some a ∧ array_rep a sl ∧
    (∀ t th k, t ∈ sl → threads (sys w) !! t = Some th → t_sleepaddr th = Some (WSem k) →
       sems (ext (sys w)) !! k = Some 0) ∧
    (∀ l lk, locks (ext (sys w)) !! l = Some lk → ∃ q W, lock_queue lk = Some q ∧ queue_rep q W ∧
       (held lk = None → W = []) ∧ ∀ t, t ∈ W → t ∈ sl).
Proof.
  intros Hb Hn Hlt. destruct (reached_winv dv progs w0 Hb n w Hn Hlt) as (_ & μ & a & _ & HJ & _).
  destruct HJ as ((rq & sl & zb & Hth & Hob) & _). pose proof (th_lists _ _ _ _ _ _ _ Hth) as (_ & (arr & Ha & Hsl) & _).
  exists arr, sl. split_and!; [done..| |].
  - intros t th k Ht Hth' Hk. destruct (th_sleep _ _ _ _ _ _ _ Hth t Ht) as (g & th' & Hg & Ht' & Haddr & _).
    simplify_eq. rewrite Hk in Haddr. apply (ob_semsleep _ _ _ _ _ _ _ Hob t); [done|]. rewrite Hg. simpl.
    destruct (gm g); simpl in Haddr; by simplify_eq.
  - intros l lk Hl. destruct (ob_lock _ _ _ _ _ _ _ Hob l lk Hl) as (q & W & Hq & Hrep & _ & Hh & HW).
    exists q, W. split_and!; [done..|]. intros t Ht. by apply HW in Ht as [? _].
Qed.
End Start.

(** ** Schedules

    A step with the code that runs, and a clock interrupt *)
Section Schedule.
  Context {X : Type} `{!ThreadEnv X}.
Definition go (w : @world X) : option world :=
  match running w with
  | Switch cur k =>
      match scheduler (sys w) (worc w) with
      | Done (Some next, s1, o1) =>
          match md_switch cur next s1 o1 with
          | Done (_, s2, o2) =>
              (λ c, mkWorld s2 (<[cur := k]> (conts w)) c o2) <$> <[cur := k]> (conts w) !! next
          | Halt _ => None
          end
      | _ => None
      end
  | _ =>
      match exec (running w) (sys w) (conts w) (worc w) with
      | Done w' => Some w'
      | Halt _ => None
      end
  end.
Definition tick (w : @world X) : option world :=
  match running w with
  | Switch cur k => None
  | _ =>
      if curspl (sys w) =? 0 then
        Some (mkWorld (sys w) (conts w) (mips_trap_irq hardclock (λ _, running w)) (worc w))
      else None
  end.
Fixpoint run_sched (l : list bool) (w : world) : option world :=
  match l with
  | [] => Some w
  | b :: l => (if b then tick w else go w) ≫= run_sched l
  end.
Lemma go_step ds w w' : go w = Some w' → step ds w w'.
Proof.
  unfold go. destruct (running w) as [|m|cur k|] eqn:Hr; intros Hg.
  3: { destruct (scheduler _ _) as [[[[next|] s1] o1]|] eqn:Hs; try done.
       destruct (md_switch _ _ _ _) as [[[[] s2] o2]|] eqn:Hm; try done.
       destruct (_ !! next) as [c|] eqn:Hc; simplify_eq/=. by eapply step_switch. }
  all: rewrite <- Hr in Hg; destruct (exec _ _ _ _) eqn:He; simplify_eq; apply step_run; [|done]; by rewrite Hr.
Qed.
Lemma tick_step ds w w' : tick w = Some w' → step ds w w'.
Proof.
  unfold tick. destruct (running w) as [|m|cur k|] eqn:Hr; [| |done|]; destruct (Z.eqb_spec (curspl (sys w)) 0);
    try done; intros [= <-]; rewrite <- Hr; (apply step_irq; [by rewrite Hr|done|by left]).
Qed.
Lemma run_sched_steps ds l w w' : run_sched l w = Some w' → nsteps (step ds) (length l) w w'.
Proof.
  revert w. induction l as [|b l IH]; intros w; simpl; [intros [= <-]; constructor|].
  intros (w1 & H1 & H2)%bind_Some. econstructor; [|by apply IH].
  destruct b; [by apply tick_step|by apply go_step].
Qed.
End Schedule.

Module Sample.
#[local] Instance env : ThreadEnv (gmap tid (gset Z) * Z) := {
  env_as_copy _ := ret (0, 0);
  env_as_activate _ := ret tt;
  env_as_destroy _ := ret tt;
  env_incref _ := ret tt;
  env_decref _ := ret tt;
  env_assign_thread _ _ _ := ret None;
}.
Definition kill_process (code : Z) : T (synch (gmap tid (gset Z) * Z)) unit := thread_exit.
(** one lock, one condition variable and one semaphore, two threads *)
Definition objects : synch (gmap tid (gset Z) * Z) :=
  mkSynch {[0 := 0]} {[0 := mkLock None (Some (mkQueue 10 0 0 (replicate 10 None)))]}
    {[0 := mkCv (Some (mkQueue 10 0 0 (replicate 10 None)))]} (<[0%nat := ∅]> {[1%nat := ∅]}, 0).
Definition start (p q : prog Z) : world :=
  mkWorld
    (mkTsys (Some 0%nat) (Some (mkArray 0 0 None)) (Some (mkArray 0 0 None)) 2
       (Some (mkQueue 32 1 0 (Some 1%nat :: replicate 31 None)))
       (<[0%nat := mkThread None None None None None 0]>
          {[1%nat := mkThread None (Some stack_magic) None None None 0]}) 0 0 0 objects)
    {[1%nat := mi_threadstart (run_prog kill_process q) (λ _, CExit)]}
    (tbind (run_prog kill_process p) (λ _, thread_exit) (λ _, CExit)) [].

(** [lock_acquire(l); if (d == 0) cv_wait(c, l); lock_release(l);] *)
Definition waiter : prog Z :=
  PDo (OpAcquire 0)
    (PIf (λ d, d =? 0) (PDo (OpWait 0 0) (PDo (OpRelease 0) PHalt)) (PDo (OpRelease 0) PHalt)).
(** [lock_acquire(l); d = 1; cv_signal(c, l); lock_release(l);] *)
Definition signaller : prog Z :=
  PDo (OpAcquire 0) (PDo (OpWork (λ _, 1)) (PDo (OpSignal 0 0) (PDo (OpRelease 0) PHalt))).

Lemma queue_new : queue_rep (mkQueue 10 0 0 (replicate 10 None) : queue tid) [].
Proof. repeat split; try done. Qed.
Lemma start_booted : booted kill_process [0] [waiter; signaller] (start waiter signaller).
Proof.
  split; try done.
  - by exists waiter.
  - intros t p Hp Ht. destruct t as [|[|t]]; simplify_eq/=; done.
  - split_and!; eexists; (split; [reflexivity|]).
    + repeat split; try done. intros [|i] x Hx; simplify_eq/=; done.
    + by repeat split.
    + by repeat split.
  - intros t. simpl. destruct t as [|[|t]].
    + split; [lia|by eexists].
    + split; [lia|by eexists].
    + rewrite lookup_insert_ne, lookup_singleton_ne by done. split; [by intros []|lia].
  - intros t th Ht. simpl in Ht. apply lookup_insert_Some in Ht as [[<- <-]|[_ Ht]]; [by split_and!; [..|left|]|].
    apply lookup_singleton_Some in Ht as [<- <-]. by split_and!; [..|right|].
  - intros l lk Hl. simpl in Hl. apply lookup_singleton_Some in Hl as [<- <-]. eauto using queue_new.
  - intros c v Hv. simpl in Hv. apply lookup_singleton_Some in Hv as [<- <-]. eauto using queue_new.
  - intros k n Hn. simpl in Hn. apply lookup_singleton_Some in Hn as [<- <-]. lia.
  - intros t Ht. simpl in Ht. destruct t as [|[|t]]; [done..|lia].
  - intros k Hk. by apply list_elem_of_singleton in Hk as ->.
  - intros p Hp. rewrite !elem_of_cons in Hp. destruct Hp as [->|[->|Hp]]; [by vm_compute..|].
    by apply not_elem_of_nil in Hp.
Qed.

(** [cv_wait] is interrupted after it has released the lock. *)
Definition interrupted : list bool := replicate 9 false ++ [true] ++ replicate 18 false.
Definition at_sched (l : list bool) : world := default (start waiter signaller) (run_sched l (start waiter signaller)).
Lemma at_sched_steps ds l :
  bool_decide (is_Some (run_sched l (start waiter signaller))) = true →
  nsteps (step ds) (length l) (start waiter signaller) (at_sched l).
Proof.
  intros Hs%bool_decide_eq_true. apply run_sched_steps. unfold at_sched. by destruct Hs as [w ->].
Qed.
Lemma at_sched_reached ds : nsteps (step ds) (length interrupted) (start waiter signaller) (at_sched interrupted).
Proof. apply at_sched_steps. by vm_compute. Qed.
(** Here the first thread is in the critical section. *)
Definition entered : list bool := replicate 4 false.
Lemma entered_reached ds : nsteps (step ds) (length entered) (start waiter signaller) (at_sched entered).
Proof. apply at_sched_steps. by vm_compute. Qed.
End Sample.

Lemma no_lost_wakeup_witness : ∃ (a : array tid) (sl : list tid),
  sleepers (sys (Sample.at_sched Sample.interrupted)) = Some a ∧ array_rep a sl.
Proof.
  destruct (no_lost_wakeup _ _ _ _ _ _ Sample.start_booted (Sample.at_sched_reached _) eq_refl) as (a & sl & Ha & Hsl & _).
  eauto.
Defined.
Lemma lock_exclusion_witness :
  held <$> locks (ext (sys (Sample.at_sched Sample.entered))) !! 0 = Some (Some 0%nat).
Proof.
  apply (lock_exclusion _ _ _ _ _ _ 0 0%nat {[0]} 0%nat {[0]} Sample.start_booted (Sample.entered_reached _));
    [done|simpl; lia..|vm_compute; reflexivity|set_solver|vm_compute; reflexivity|set_solver].
Defined.

(** C38: [cv_wait] releases the lock before it puts the thread on the queue of
    the condition variable, with interrupts on in between, so a signal that is
    sent with the lock held can get lost.  One thread waits under the lock for
    a condition that the other makes true and signals under the same lock;
    there is a run after which the second thread is gone, the condition is
    true, and the first is asleep on the condition variable with no thread
    left to wake it. *)
Theorem cv_wait_loses_signal :
  ∃ w, rtc (step []) (Sample.start Sample.waiter Sample.signaller) w ∧
    (user (ext (sys w))).2 = 1 ∧ held <$> locks (ext (sys w)) !! 0 = Some None ∧
    numthreads (sys w) = 1 ∧ curthread (sys w) = None ∧
    (∃ q, runqueue (sys w) = Some q ∧ queue_rep q []) ∧
    (∃ a, sleepers (sys w) = Some a ∧ array_rep a [0%nat]) ∧
    ∃ v q, cvs (ext (sys w)) !! 0 = Some v ∧ cv_queue v = Some q ∧ queue_rep q [0%nat].
Proof.
  exists (Sample.at_sched Sample.interrupted).
  split; [eapply rtc_nsteps_2, Sample.at_sched_reached|].
  split_and!; [by vm_compute..| | |].
  - eexists. split; [vm_compute; reflexivity|]. by repeat split.
  - eexists. split; [vm_compute; reflexivity|]. repeat split; try done. 
  - do 2 eexists. split; [vm_compute; reflexivity|]. split; [done|]. repeat split; try done.
    intros [|i] x Hx; simplify_eq/=; done.
Qed.
