(* ===== verification/CString.v ===== *)
(** * Strings, src/lib/libc/str*.c and atoi.c

    The kernel is linked with these files.  A pointer into a string is a
    buffer with an offset; a buffer is a list of bytes, and reading or writing
    outside of it is a fault.  [char] is signed. *)
From S2P Require Import Prelude.

Definition schar (b : Z) : Z := if b <? 128 then b else b - 256.

Section CString.
  Context {S : Type}.

(** [while (s[ret]) ret++;]; every iteration stays in the buffer. *)
Fixpoint strlen_loop (fuel : nat) (s : list Z) (off ret' : Z) : K S Z :=
  c <- deref (zlookup s (off + ret'));
  if c =? 0 then ret ret'
  else match fuel with O => halt Spin | Datatypes.S fuel' => strlen_loop fuel' s off (ret' + 1) end.
Definition strlen (s : list Z) (off : Z) : K S Z := strlen_loop (length s) s off 0.

(** [for (i=0; a[i]!=0 && a[i]==b[i]; i++);] *)
Fixpoint strcmp_loop (fuel : nat) (a : list Z) (aoff : Z) (b : list Z) (boff i : Z) : K S Z :=
  x <- deref (zlookup a (aoff + i));
  if x =? 0 then ret i
  else
    y <- deref (zlookup b (boff + i));
    if x =? y then
      match fuel with O => halt Spin | Datatypes.S fuel' => strcmp_loop fuel' a aoff b boff (i + 1) end
    else ret i.
Definition strcmp (a : list Z) (aoff : Z) (b : list Z) (boff : Z) : K S Z :=
  i <- strcmp_loop (length a) a aoff b boff 0;
  x <- deref (zlookup a (aoff + i));
  y <- deref (zlookup b (boff + i));
  if schar y <? schar x then ret 1 else if x =? y then ret 0 else ret (-1).

(** [for (i=0; src[i]; i++) dest[i] = src[i]; dest[i] = 0;] *)
Fixpoint strcpy_loop (fuel : nat) (dest : list Z) (doff : Z) (src : list Z) (soff i : Z) : K S (list Z) :=
  c <- deref (zlookup src (soff + i));
  d <- deref (zinsert (doff + i) c dest);
  if c =? 0 then ret d
  else match fuel with O => halt Spin | Datatypes.S fuel' => strcpy_loop fuel' d doff src soff (i + 1) end.
Definition strcpy (dest : list Z) (doff : Z) (src : list Z) (soff : Z) : K S (list Z) :=
  strcpy_loop (length src) dest doff src soff 0.
Definition strcat (dest : list Z) (src : list Z) (soff : Z) : K S (list Z) :=
  offset <- strlen dest 0;
  strcpy dest offset src soff.

(** The offset of the character, [None] being [NULL] *)
Fixpoint strchr_loop (fuel : nat) (s : list Z) (off ch : Z) : K S (option Z) :=
  c <- deref (zlookup s off);
  if c =? 0 then ret (if schar c =? ch then Some off else None)
  else if schar c =? ch then ret (Some off)
  else match fuel with O => halt Spin | Datatypes.S fuel' => strchr_loop fuel' s (off + 1) ch end.
Definition strchr (s : list Z) (off ch : Z) : K S (option Z) := strchr_loop (length s) s off ch.

(** [while (i>0) { i--; if (s[i]==ch) return s+i; }] *)
Fixpoint strrchr_loop (i : nat) (s : list Z) (off ch : Z) : K S (option Z) :=
  match i with
  | O => ret None
  | Datatypes.S i' =>
      c <- deref (zlookup s (off + Z.of_nat i'));
      if schar c =? ch then ret (Some (off + Z.of_nat i')) else strrchr_loop i' s off ch
  end.
Definition strrchr (s : list Z) (off ch : Z) : K S (option Z) :=
  n <- strlen s off;
  strrchr_loop (Z.to_nat (n + 1)) s off ch.

(** [while ( *head && strchr(seps, *head)) head++;] and, with [b] false,
    [while ( *tail && !strchr(seps, *tail)) tail++;] *)
Fixpoint skip_while (fuel : nat) (b : bool) (s seps : list Z) (off : Z) : K S Z :=
  c <- deref (zlookup s off);
  if c =? 0 then ret off
  else
    w <- strchr seps 0 (schar c);
    if Bool.eqb (bool_decide (w ≠ None)) b then
      match fuel with O => halt Spin | Datatypes.S fuel' => skip_while fuel' b s seps (off + 1) end
    else ret off.
(** The context points into the string that is being taken apart; the result
    is the word, the string and the context afterwards. *)
Definition strtok_r (string : option Z) (s seps : list Z) (context : option Z) : K S (option Z * list Z * option Z) :=
  let context := match string with Some p => Some p | None => context end in
  match context with
  | None => ret (None, s, None)
  | Some head =>
      head <- skip_while (length s) true s seps head;
      c <- deref (zlookup s head);
      if c =? 0 then ret (None, s, None)
      else
        tail <- skip_while (length s) false s seps head;
        c <- deref (zlookup s tail);
        if c =? 0 then ret (Some head, s, None)
        else
          s' <- deref (zinsert tail 0 s);
          ret (Some head, s', Some (tail + 1))
  end.

(** ** atoi *)
Definition digits : list Z := [48; 49; 50; 51; 52; 53; 54; 55; 56; 57; 0].
Fixpoint skip_blanks (fuel : nat) (s : list Z) (off : Z) : K S Z :=
  c <- deref (zlookup s off);
  if (c =? 32) || (c =? 9) then
    match fuel with O => halt Spin | Datatypes.S fuel' => skip_blanks fuel' s (off + 1) end
  else ret off.
Fixpoint atoi_loop (fuel : nat) (s : list Z) (off val : Z) : K S Z :=
  c <- deref (zlookup s off);
  if c =? 0 then ret val
  else
    where_ <- strchr digits 0 (schar c);
    match where_ with
    | None => ret val
    | Some digit =>
        match fuel with
        | O => halt Spin
        | Datatypes.S fuel' => atoi_loop fuel' s (off + 1) (u32 (u32 (val * 10) + digit))
        end
    end.
Definition atoi (s : list Z) (off : Z) : K S Z :=
  off <- skip_blanks (length s) s off;
  c <- deref (zlookup s off);
  let neg := c =? 45 in
  let off := if neg then off + 1 else if c =? 43 then off + 1 else off in
  val <- atoi_loop (length s) s off 0;
  ret (s32 (if neg then u32 (- val) else val)).

End CString.

(** ** Strings

    [has_str s off xs]: the characters [xs], none of them zero, are in the
    buffer at [off], with a zero behind them. *)
Definition has_str (s : list Z) (off : Z) (xs : list Z) : Prop :=
  0 ≤ off ∧ (∀ i x, xs !! i = Some x → zlookup s (off + Z.of_nat i) = Some x ∧ x ≠ 0) ∧
  zlookup s (off + Z.of_nat (length xs)) = Some 0.

Lemma has_str_nil s off : has_str s off [] ↔ zlookup s off = Some 0.
Proof.
  unfold has_str. simpl. rewrite Z.add_0_r. split; [tauto|]. intros H. split_and!; [|done..].
  by apply zlookup_lt in H as [? _].
Qed.
Lemma has_str_cons s off x xs :
  has_str s off (x :: xs) ↔ zlookup s off = Some x ∧ x ≠ 0 ∧ has_str s (off + 1) xs.
Proof.
  unfold has_str. split.
  - intros (H0 & H1 & H2). destruct (H1 0%nat x eq_refl) as [Hx Hnz]. rewrite Z.add_0_r in Hx.
    split_and!; [done..|lia| |].
    + intros i y Hy. destruct (H1 (Datatypes.S i) y Hy) as [? ?]. split; [|done].
      rewrite <- Z.add_assoc. by replace (1 + Z.of_nat i) with (Z.of_nat (Datatypes.S i)) by lia.
    + simpl in H2. rewrite <- Z.add_assoc. by replace (1 + Z.of_nat (length xs)) with (Z.of_nat (Datatypes.S (length xs))) by lia.
  - intros (Hx & Hnz & H0 & H1 & H2). apply zlookup_lt in Hx as Hlt. split_and!; [lia| |].
    + intros [|i] y Hy; simplify_eq/=; [by rewrite Z.add_0_r|]. destruct (H1 i y Hy). split; [|done].
      replace (off + Z.of_nat (Datatypes.S i)) with (off + 1 + Z.of_nat i) by lia. done.
    + simpl. replace (off + Z.of_nat (Datatypes.S (length xs))) with (off + 1 + Z.of_nat (length xs)) by lia. done.
Qed.
(** A string is shorter than its buffer. *)
Lemma has_str_fits s off xs : has_str s off xs → off + Z.of_nat (length xs) < Z.of_nat (length s).
Proof. intros (_ & _ & H). apply zlookup_lt in H. lia. Qed.
Lemma has_str_tail s off xs ys : has_str s off (xs ++ ys) → has_str s (off + Z.of_nat (length xs)) ys.
Proof.
  revert off. induction xs as [|x xs IH]; intros off; simpl; [by rewrite Z.add_0_r|].
  rewrite has_str_cons. intros (_ & _ & H). apply IH in H.
  replace (off + Z.of_nat (Datatypes.S (length xs))) with (off + 1 + Z.of_nat (length xs)) by lia. done.
Qed.
Lemma has_str_unique s off xs ys : has_str s off xs → has_str s off ys → xs = ys.
Proof.
  revert off ys. induction xs as [|x xs IH]; intros off [|y ys]; rewrite ?has_str_nil, ?has_str_cons.
  - done.
  - intros Hs (Hy & ? & _). by simplify_eq.
  - intros (Hy & ? & _) Hs. by simplify_eq.
  - intros (Hx & _ & Hxs) (Hy & _ & Hys). simplify_eq. f_equal. by eapply IH.
Qed.

Lemma strlen_loop_spec {S} xs fuel s off n (st : S) o :
  has_str s (off + n) xs → (length xs ≤ fuel)%nat →
  strlen_loop fuel s off n st o = Done (n + Z.of_nat (length xs), st, o).
Proof.
  revert fuel n. induction xs as [|x xs IH]; intros fuel n Hs Hf.
  - apply has_str_nil in Hs. destruct fuel; cbn [strlen_loop]; unfold bind; rewrite Hs; simpl; by rewrite Z.add_0_r.
  - apply has_str_cons in Hs as (Hx & Hnz & Hs). destruct fuel; simpl in Hf; [lia|]. cbn [strlen_loop]. unfold bind.
    rewrite Hx. simpl. destruct (Z.eqb_spec x 0); [done|]. rewrite IH; [f_equal; f_equal; f_equal; lia| |lia].
    by rewrite Z.add_assoc.
Qed.
Lemma strlen_spec {S} xs s off (st : S) o :
  has_str s off xs → strlen s off st o = Done (Z.of_nat (length xs), st, o).
Proof.
  intros Hs. unfold strlen. rewrite (strlen_loop_spec xs); [done|by rewrite Z.add_0_r|].
  apply has_str_fits in Hs as Hf. destruct Hs as (? & _). lia.
Qed.

(** ** strcmp and strcpy *)
Lemma strcmp_loop_spec {S} xs ys fuel a ao b bo i (st : S) o :
  has_str a (ao + i) xs → has_str b (bo + i) ys → (length xs ≤ fuel)%nat →
  ∃ n x y, strcmp_loop fuel a ao b bo i st o = Done (n, st, o) ∧
    zlookup a (ao + n) = Some x ∧ zlookup b (bo + n) = Some y ∧ (x = y ↔ xs = ys).
Proof.
  revert fuel i ys. induction xs as [|x xs IH]; intros fuel i ys Ha Hb Hf.
  - apply has_str_nil in Ha. exists i, 0. destruct ys as [|y ys].
    + apply has_str_nil in Hb. exists 0. split_and!; try done.
      destruct fuel; cbn [strcmp_loop]; unfold bind; by rewrite Ha.
    + apply has_str_cons in Hb as (Hy & Hnz & _). exists y. split_and!; try done.
      destruct fuel; cbn [strcmp_loop]; unfold bind; by rewrite Ha.
  - apply has_str_cons in Ha as (Hx & Hnz & Ha). destruct fuel as [|fuel]; simpl in Hf; [lia|].
    assert (∃ y, zlookup b (bo + i) = Some y) as [y Hy].
    { destruct ys; [apply has_str_nil in Hb|apply has_str_cons in Hb as (? & _)]; eauto. }
    destruct (decide (x = y)) as [->|Hne].
    + destruct ys as [|y' ys]; [apply has_str_nil in Hb; by simplify_eq|].
      apply has_str_cons in Hb as (Hy' & _ & Hb). simplify_eq.
      destruct (IH fuel (i + 1) ys) as (n & u & w & He & Hu & Hw & Hiff); [by rewrite Z.add_assoc..|lia|].
      exists n, u, w. split_and!; try done; [|rewrite Hiff; naive_solver].
      cbn [strcmp_loop]. unfold bind. rewrite Hx. simpl. destruct (Z.eqb_spec y' 0); [done|].
      unfold bind. rewrite Hy'. simpl. by rewrite Z.eqb_refl.
    + exists i, x, y. split_and!; try done.
      * cbn [strcmp_loop]. unfold bind. rewrite Hx. simpl. destruct (Z.eqb_spec x 0); [done|].
        unfold bind. rewrite Hy. simpl. by destruct (Z.eqb_spec x y).
      * split; [done|]. intros <-. apply has_str_cons in Hb as (Hy' & _). by simplify_eq.
Qed.
Lemma strcmp_spec {S} xs ys a ao b bo (st : S) o :
  has_str a ao xs → has_str b bo ys →
  ∃ r, strcmp a ao b bo st o = Done (r, st, o) ∧ (r = 0 ↔ xs = ys).
Proof.
  intros Ha Hb. apply has_str_fits in Ha as Hf. pose proof Ha as (? & _).
  destruct (strcmp_loop_spec xs ys (length a) a ao b bo 0 st o) as (n & x & y & He & Hx & Hy & Hiff);
    [by rewrite Z.add_0_r..|lia|].
  unfold strcmp, bind. rewrite He, Hx. simpl. rewrite Hy. simpl. unfold schar.
  destruct (Z.eqb_spec x y) as [<-|Hne].
  - exists 0. rewrite Z.ltb_irrefl. naive_solver.
  - destruct (_ <? _); eexists; (split; [done|]); rewrite <- Hiff; lia.
Qed.

(** [put s off xs]: the bytes [xs] are written at [off]. *)
Definition put (s : list Z) (off : Z) (xs : list Z) : list Z :=
  take (Z.to_nat off) s ++ xs ++ drop (Z.to_nat off + length xs) s.
Lemma length_put s off xs : 0 ≤ off → off + Z.of_nat (length xs) ≤ Z.of_nat (length s) → length (put s off xs) = length s.
Proof. intros. unfold put. rewrite !length_app, length_take, length_drop. lia. Qed.
Lemma put_cons s off x xs s' :
  0 ≤ off → zinsert off x s = Some s' → put s' (off + 1) xs = put s off (x :: xs).
Proof.
  intros H0 Hi. apply zinsert_Some in Hi as [Hlt ->]. unfold put.
  replace (Z.to_nat (off + 1)) with (Datatypes.S (Z.to_nat off)) by lia.
  rewrite (take_S_r _ _ x) by (rewrite list_lookup_insert_eq; [done|lia]).
  rewrite take_insert_ge, drop_insert_lt by lia. rewrite <- app_assoc. simpl. repeat f_equal. lia.
Qed.
Lemma put_nil s off : put s off [] = s.
Proof. unfold put. simpl. rewrite Nat.add_0_r. apply take_drop. Qed.
Lemma put_lookup s off xs i :
  0 ≤ off → off + Z.of_nat (length xs) ≤ Z.of_nat (length s) →
  zlookup (put s off xs) i =
    if decide (off ≤ i < off + Z.of_nat (length xs)) then xs !! Z.to_nat (i - off) else zlookup s i.
Proof.
  intros H0 Hf. unfold put, zlookup. destruct (decide (off ≤ i < off + Z.of_nat (length xs))) as [Hi|Hi].
  - rewrite decide_True by lia. rewrite lookup_app_r by (rewrite length_take; lia).
    rewrite length_take, Nat.min_l by lia. rewrite lookup_app_l by lia. f_equal. lia.
  - case_decide; [|done]. destruct (decide (i < off)).
    + rewrite lookup_app_l, lookup_take_lt by (rewrite ?length_take; lia). done.
    + rewrite lookup_app_r by (rewrite length_take; lia). rewrite length_take, Nat.min_l by lia.
      rewrite lookup_app_r by lia. rewrite lookup_drop. f_equal. lia.
Qed.
Lemma put_has_str s off xs :
  0 ≤ off → off + Z.of_nat (length xs) < Z.of_nat (length s) → Forall (λ x, x ≠ 0) xs →
  has_str (put s off (xs ++ [0])) off xs.
Proof.
  intros H0 Hf Hnz. split_and!; [done| |].
  - intros i x Hx. apply lookup_lt_Some in Hx as Hlt. rewrite put_lookup by (rewrite ?length_app; simpl; lia).
    rewrite length_app. simpl. rewrite decide_True by lia. split; [|by eapply Forall_lookup_1 in Hnz].
    rewrite lookup_app_l by lia. rewrite <- Hx. f_equal. lia.
  - rewrite put_lookup by (rewrite ?length_app; simpl; lia). rewrite length_app. simpl. rewrite decide_True by lia.
    rewrite lookup_app_r by lia. replace (_ - _)%nat with 0%nat by lia. done.
Qed.
Lemma strcpy_loop_spec {S} xs fuel dest doff src soff i (st : S) o :
  has_str src (soff + i) xs → (length xs ≤ fuel)%nat → 0 ≤ doff + i →
  doff + i + Z.of_nat (length xs) < Z.of_nat (length dest) →
  strcpy_loop fuel dest doff src soff i st o = Done (put dest (doff + i) (xs ++ [0]), st, o).
Proof.
  revert fuel i dest. induction xs as [|x xs IH]; intros fuel i dest Hs Hf H0 Hd; simpl in Hd.
  - apply has_str_nil in Hs. assert (∃ d, zinsert (doff + i) 0 dest = Some d) as [d Hi].
    { rewrite zinsert_ok by lia. eauto. }
    destruct fuel; cbn [strcpy_loop]; unfold bind; rewrite Hs; simpl; unfold bind; rewrite Hi; simpl;
      by rewrite <- (put_cons _ _ _ _ d), put_nil.
  - apply has_str_cons in Hs as (Hx & Hnz & Hs). destruct fuel as [|fuel]; simpl in Hf; [lia|].
    assert (∃ d, zinsert (doff + i) x dest = Some d) as [d Hi]. { rewrite zinsert_ok by lia. eauto. }
    cbn [strcpy_loop]. unfold bind. rewrite Hx. simpl. unfold bind. rewrite Hi. simpl.
    destruct (Z.eqb_spec x 0); [done|]. rewrite IH; [|by rewrite Z.add_assoc|lia|lia|].
    + rewrite Z.add_assoc. by rewrite (put_cons dest _ x _ d).
    + apply zinsert_Some in Hi as [_ ->]. rewrite length_insert. lia.
Qed.
Lemma strcpy_spec {S} xs dest doff src soff (st : S) o :
  has_str src soff xs → 0 ≤ doff → doff + Z.of_nat (length xs) < Z.of_nat (length dest) →
  strcpy dest doff src soff st o = Done (put dest doff (xs ++ [0]), st, o).
Proof.
  intros Hs H0 Hd. apply has_str_fits in Hs as Hf. pose proof Hs as (? & _). unfold strcpy.
  rewrite (strcpy_loop_spec xs); rewrite ?Z.add_0_r; try done; lia.
Qed.

(** ** Searching *)
Definition char (x : Z) : Prop := 0 < x < 256.
Lemma schar_inj x y : 0 ≤ x < 256 → 0 ≤ y < 256 → (schar x =? schar y) = (x =? y).
Proof. intros. unfold schar. destruct (Z.ltb_spec x 128), (Z.ltb_spec y 128); lia. Qed.
Lemma strchr_loop_spec {S} xs fuel s off c (st : S) o :
  has_str s off xs → Forall char xs → char c → (length xs ≤ fuel)%nat →
  ∃ r, strchr_loop fuel s off (schar c) st o = Done (r, st, o) ∧
    match r with
    | Some p => ∃ i, p = off + Z.of_nat i ∧ xs !! i = Some c ∧ c ∉ take i xs
    | None => c ∉ xs
    end.
Proof.
  revert fuel off. unfold char. induction xs as [|x xs IH]; intros fuel off Hs Hxs Hc Hf.
  - apply has_str_nil in Hs. exists None. split; [|apply not_elem_of_nil].
    assert ((0 =? schar c) = false) as Hz.
    { change 0 with (schar 0). rewrite schar_inj by lia. lia. }
    destruct fuel; cbn [strchr_loop]; unfold bind, deref, ret; rewrite Hs, Z.eqb_refl; change (schar 0) with 0; by rewrite Hz.
  - apply has_str_cons in Hs as (Hx & Hnz & Hs). apply Forall_cons in Hxs as [Hxc Hxs]. destruct fuel as [|fuel]; simpl in Hf; [lia|].
    cbn [strchr_loop]. unfold bind. rewrite Hx. simpl. destruct (Z.eqb_spec x 0); [done|].
    rewrite schar_inj by lia. destruct (Z.eqb_spec x c) as [->|Hne].
    + exists (Some off). split; [done|]. exists 0%nat. rewrite Z.add_0_r. split_and!; [done..|]. apply not_elem_of_nil.
    + destruct (IH fuel (off + 1)) as (r & -> & Hr); [done..|lia|]. exists r. split; [done|].
      destruct r as [p|]; [|by apply not_elem_of_cons].
      destruct Hr as (i & -> & Hi & Hn). exists (Datatypes.S i). split_and!; [lia|done|].
      simpl. by apply not_elem_of_cons.
Qed.
Lemma strchr_spec {S} xs s off c (st : S) o :
  has_str s off xs → Forall char xs → char c →
  ∃ r, strchr s off (schar c) st o = Done (r, st, o) ∧
    match r with
    | Some p => ∃ i, p = off + Z.of_nat i ∧ xs !! i = Some c ∧ c ∉ take i xs
    | None => c ∉ xs
    end.
Proof.
  intros Hs Hxs Hc. apply strchr_loop_spec; [done..|]. apply has_str_fits in Hs as Hf. destruct Hs as (? & _). lia.
Qed.

(** The longest prefix of separators, or of other characters *)
Fixpoint span (P : Z → bool) (xs : list Z) : list Z * list Z :=
  match xs with
  | [] => ([], [])
  | x :: xs' => if P x then let '(a, b) := span P xs' in (x :: a, b) else ([], xs)
  end.
Lemma span_app P xs : (span P xs).1 ++ (span P xs).2 = xs.
Proof. induction xs as [|x xs IH]; [done|]. simpl. destruct (P x); [|done]. destruct (span P xs). simpl in *. by rewrite IH. Qed.
Lemma span_stop P xs a x b : span P xs = (a, x :: b) → P x = false.
Proof.
  revert a. induction xs as [|y xs IH]; intros a; simpl; [done|]. destruct (P y) eqn:Hy.
  - destruct (span P xs) as [a' b'] eqn:Hs. intros [= <- ->]. by eapply IH.
  - by intros [= <- <- <-].
Qed.
Lemma skip_while_spec {S} xs fuel b s seps ss off (st : S) o :
  has_str s off xs → Forall char xs → has_str seps 0 ss → Forall char ss → (length xs ≤ fuel)%nat →
  skip_while fuel b s seps off st o =
    Done (off + Z.of_nat (length (span (λ c, Bool.eqb (bool_decide (c ∈ ss)) b) xs).1), st, o).
Proof.
  revert fuel off. induction xs as [|x xs IH]; intros fuel off Hs Hxs Hss Hc Hf.
  - apply has_str_nil in Hs. destruct fuel; cbn [skip_while]; unfold bind; rewrite Hs; simpl; by rewrite Z.add_0_r.
  - apply has_str_cons in Hs as (Hx & Hnz & Hs). apply Forall_cons in Hxs as [Hxc Hxs]. destruct fuel as [|fuel]; simpl in Hf; [lia|].
    cbn [skip_while span]. unfold bind. rewrite Hx. simpl. destruct (Z.eqb_spec x 0); [done|].
    destruct (strchr_spec ss seps 0 x st o) as (r & He & Hr); [done..|]. unfold bind. rewrite He.
    assert (bool_decide (r ≠ None) = bool_decide (x ∈ ss)) as ->.
    { apply bool_decide_ext. destruct r as [p|]; [|naive_solver]. destruct Hr as (i & _ & Hi & _).
      split; [|done]. intros _. by eapply list_elem_of_lookup_2. }
    destruct (Bool.eqb _ _) eqn:Hb.
    + rewrite IH by (done || lia). destruct (span _ xs) as [a r']. simpl. do 3 f_equal. lia.
    + simpl. by rewrite Z.add_0_r.
Qed.

(** ** Taking a string apart *)
Definition is_sep (ss : list Z) (c : Z) : bool := bool_decide (c ∈ ss).
(** the first word of a string, and what follows it *)
Definition first_word (ss xs : list Z) : list Z * list Z * list Z :=
  let '(blank, rest) := span (is_sep ss) xs in
  let '(word, rest') := span (λ c, negb (is_sep ss c)) rest in
  (blank, word, rest').
Lemma span_ext (P Q : Z → bool) xs : (∀ x, P x = Q x) → span P xs = span Q xs.
Proof. intros H. induction xs as [|x xs IH]; [done|]. simpl. by rewrite H, IH. Qed.
Lemma has_str_insert s off xs tl c :
  has_str s off (xs ++ c :: tl) →
  ∃ s', zinsert (off + Z.of_nat (length xs)) 0 s = Some s' ∧ has_str s' off xs ∧
    has_str s' (off + Z.of_nat (length xs) + 1) tl.
Proof.
  intros Hs. apply has_str_tail in Hs as Htl. apply has_str_cons in Htl as (Hc & Hnz & Htl).
  apply zlookup_lt in Hc as Hlt. rewrite zinsert_ok by lia. eexists. split; [done|].
  destruct Hs as (H0 & H1 & _).
  assert (∀ j, j ≠ off + Z.of_nat (length xs) → zlookup (<[Z.to_nat (off + Z.of_nat (length xs)):=0]> s) j = zlookup s j) as Hne.
  { intros j Hj. unfold zlookup. case_decide; [|done]. apply list_lookup_insert_ne. lia. }
  split.
  - split_and!; [done| |].
    + intros i x Hx. apply lookup_lt_Some in Hx as Hi. rewrite Hne by lia. apply H1. rewrite lookup_app_l by lia. done.
    + unfold zlookup. rewrite decide_True by lia. apply list_lookup_insert_eq. lia.
  - destruct Htl as (? & Ht1 & Ht2). split_and!; [done| |].
    + intros i x Hx. rewrite Hne by lia. by apply Ht1.
    + rewrite Hne by lia. done.
Qed.

(** [strtok_r] takes the first word off a string: it skips separators,
    and returns [NULL] when nothing else is left; otherwise it returns a
    pointer to the word, which has become a string of its own, and leaves the
    context at the rest of the string behind the separator, or at [NULL] when
    the word was the last.  The fuel of its loops always suffices. *)
Theorem strtok_r_first_word {S} (string context : option Z) s seps ss off xs (st : S) o :
  (match string with Some p => Some p | None => context end) = Some off →
  has_str s off xs → Forall char xs → has_str seps 0 ss → Forall char ss →
  let '(blank, word, rest) := first_word ss xs in
  ∃ r s' c', strtok_r string s seps context st o = Done ((r, s', c'), st, o) ∧
    length s' = length s ∧
    match word with
    | [] => r = None ∧ s' = s ∧ c' = None
    | _ => r = Some (off + Z.of_nat (length blank)) ∧ has_str s' (off + Z.of_nat (length blank)) word ∧
           match rest with
           | [] => c' = None ∧ s' = s
           | _ :: rest' => ∃ p, c' = Some p ∧ has_str s' p rest'
           end
    end.
Proof.
  intros Hctx Hs Hxs Hss Hc. unfold first_word.
  pose proof (span_app (is_sep ss) xs) as Happ. destruct (span (is_sep ss) xs) as [blank rest] eqn:Hsp1. simpl in Happ.
  pose proof (span_app (λ c, negb (is_sep ss c)) rest) as Happ2.
  destruct (span (λ c, negb (is_sep ss c)) rest) as [word rest'] eqn:Hsp2. simpl in Happ2.
  rewrite <- Happ in Hs, Hxs. apply Forall_app in Hxs as [Hb Hr]. apply has_str_tail in Hs as Hs2.
  apply has_str_fits in Hs as Hfit. pose proof Hs as (H0 & _). rewrite length_app in Hfit.
  unfold strtok_r. rewrite Hctx. unfold bind.
  rewrite (skip_while_spec (blank ++ rest) _ true s seps ss off); [|done|by apply Forall_app|done..|rewrite length_app; lia].
  rewrite (span_ext _ (is_sep ss)), Happ, Hsp1 by (intros; unfold is_sep; by destruct (bool_decide _)). cbn [fst].
  destruct rest as [|c rest].
  { simpl in Hsp2. injection Hsp2 as <- <-. apply has_str_nil in Hs2. rewrite Hs2. simpl. eauto 10. }
  apply has_str_cons in Hs2 as Hs3. destruct Hs3 as (Hx & Hnz & _). rewrite Hx. simpl. destruct (Z.eqb_spec c 0); [done|].
  assert (is_sep ss c = false) as Hsep by by eapply span_stop.
  rewrite (skip_while_spec (c :: rest) _ false s seps ss); [|done..|rewrite length_cons in Hfit; simpl; lia].
  rewrite (span_ext _ (λ c, negb (is_sep ss c))), Hsp2 by (intros; unfold is_sep; by destruct (bool_decide _)). cbn [fst].
  destruct word as [|w0 word]; [simpl in Hsp2; rewrite Hsep in Hsp2; by destruct (span _ rest)|].
  rewrite <- Happ2 in Hs2. destruct rest' as [|c' rest'].
  - rewrite app_nil_r in Hs2. pose proof Hs2 as (_ & _ & Hz). rewrite Hz. simpl. eexists _, _, _. split; [done|]. eauto.
  - destruct (has_str_insert _ _ _ _ _ Hs2) as (s' & Hins & Hw & Ht). apply has_str_tail in Hs2 as Hs4.
    apply has_str_cons in Hs4 as (Hc' & Hnz' & _). unfold deref at 1. rewrite Hc'. unfold ret at 1.
    destruct (Z.eqb_spec c' 0); [done|]. rewrite Hins. simpl. eexists _, _, _. split; [done|].
    apply zinsert_Some in Hins as [_ ->]. rewrite length_insert. eauto 10.
Qed.
Lemma strtok_r_first_word_witness :
  ∃ s', strtok_r (Some 0) [32; 97; 98; 32; 99; 0] [32; 9; 0] None tt [] = Done ((Some 1, s', Some 4), tt, []) ∧
    has_str s' 1 [97; 98].
Proof.
  assert (Forall char [32; 97; 98; 32; 99]) as Hc1 by (repeat (apply Forall_cons; split; [unfold char; lia|]); done).
  assert (Forall char [32; 9]) as Hc2 by (repeat (apply Forall_cons; split; [unfold char; lia|]); done).
  assert (has_str [32; 97; 98; 32; 99; 0] 0 [32; 97; 98; 32; 99]) as H1.
  { repeat (apply has_str_cons; split; [done|]; split; [done|]). by apply has_str_nil. }
  assert (has_str [32; 9; 0] 0 [32; 9]) as H2.
  { repeat (apply has_str_cons; split; [done|]; split; [done|]). by apply has_str_nil. }
  pose proof (strtok_r_first_word (Some 0) None _ _ _ 0 _ tt [] eq_refl H1 Hc1 H2 Hc2) as H.
  vm_compute first_word in H. destruct H as (r & s' & c' & He & _ & -> & Hw & p & -> & _).
  exists s'. split; [|exact Hw]. rewrite He. vm_compute in He. by simplify_eq.
Defined.

(** ** Decimal numbers *)
Definition digit (c : Z) : Prop := 48 ≤ c ≤ 57.
Definition dec (v : Z) (ds : list Z) : Z := foldl (λ v c, v * 10 + (c - 48)) v ds.

Lemma strchr_digit {S} c (st : S) o : digit c → strchr digits 0 (schar c) st o = Done (Some (c - 48), st, o).
Proof.
  unfold digit. intros Hc. assert (∃ n : nat, c = 48 + Z.of_nat n ∧ (n < 10)%nat) as (n & -> & Hn).
  { exists (Z.to_nat (c - 48)). lia. }
  do 10 (destruct n as [|n]; [done|]). lia.
Qed.
Lemma dec_ge v ds : 0 ≤ v → Forall digit ds → v ≤ dec v ds.
Proof.
  revert v. induction ds as [|d ds IH]; intros v Hv Hd; [simpl; lia|]. apply Forall_cons in Hd as [Hd Hds].
  unfold digit in Hd. change (dec v (d :: ds)) with (dec (v * 10 + (d - 48)) ds).
  assert (v * 10 + (d - 48) ≤ dec (v * 10 + (d - 48)) ds) by (apply IH; [lia|done]). lia.
Qed.
Lemma atoi_loop_spec {S} ds fuel s off v (st : S) o :
  has_str s off ds → Forall digit ds → (length ds ≤ fuel)%nat → 0 ≤ v → dec v ds < 2 ^ 32 →
  atoi_loop fuel s off v st o = Done (dec v ds, st, o).
Proof.
  revert fuel off v. induction ds as [|d ds IH]; intros fuel off v Hs Hd Hf Hv Hlt.
  - apply has_str_nil in Hs. destruct fuel; cbn [atoi_loop]; unfold bind; by rewrite Hs.
  - apply has_str_cons in Hs as (Hx & Hnz & Hs). apply Forall_cons in Hd as [Hdd Hds]. destruct fuel as [|fuel]; simpl in Hf; [lia|].
    cbn [atoi_loop]. unfold bind at 1, deref. rewrite Hx. unfold ret at 1. destruct (Z.eqb_spec d 0); [done|].
    unfold bind. rewrite strchr_digit by done. unfold digit in Hdd. change (dec v (d :: ds)) with (dec (v * 10 + (d - 48)) ds) in *.
    assert (v * 10 + (d - 48) ≤ dec (v * 10 + (d - 48)) ds) by (apply dec_ge; [lia|done]).
    rewrite (u32_small (v * 10)), u32_small by lia. apply IH; try done; lia.
Qed.
Lemma skip_blanks_none {S} s off c (st : S) o :
  zlookup s off = Some c → c ≠ 32 → c ≠ 9 → skip_blanks (length s) s off st o = Done (off, st, o).
Proof.
  intros Hc H1 H2. destruct s; cbn [skip_blanks length]; unfold bind, deref, ret; rewrite Hc;
    by destruct (Z.eqb_spec c 32), (Z.eqb_spec c 9).
Qed.
Lemma atoi_number {S} (neg : bool) ds s off (st : S) o :
  has_str s off ((if neg then [45] else []) ++ ds) → ds ≠ [] → Forall digit ds → dec 0 ds < 2 ^ 32 →
  atoi s off st o = Done (s32 (if neg then u32 (- dec 0 ds) else dec 0 ds), st, o).
Proof.
  intros Hs Hne Hd Hlt. apply has_str_fits in Hs as Hfit. pose proof Hs as (H0 & _). rewrite length_app in Hfit.
  destruct ds as [|d ds]; [done|]. apply Forall_cons in Hd as Hd'. destruct Hd' as [Hdd _]. unfold digit in Hdd.
  unfold atoi, bind, deref, ret. destruct neg; simpl in Hs.
  - apply has_str_cons in Hs as (Hc & _ & Hs). rewrite (skip_blanks_none _ _ 45) by done. rewrite Hc. simpl (45 =? 45).
    cbv iota. rewrite (atoi_loop_spec (d :: ds)); [done..|simpl in *; lia|lia|done].
  - pose proof Hs as Hs'. apply has_str_cons in Hs' as (Hc & _ & _). rewrite (skip_blanks_none _ _ d) by (done || lia). rewrite Hc.
    destruct (Z.eqb_spec d 45); [lia|]. destruct (Z.eqb_spec d 43); [lia|].
    rewrite (atoi_loop_spec (d :: ds)); [done..|simpl in *; lia|lia|done].
Qed.
