(* ===== verification/Printf.v ===== *)
(** * printf, src/lib/libc/__printf.c and snprintf.c

    The text goes to a send function that works on the state of its client.
    The arguments are the list that [va_arg] takes apart; taking one of the
    wrong kind, or one too many, is a fault. *)
From S2P Require Import Prelude CString.

(** ** The state of printf *)
Inductive pf_size : Set := INTSZ | LONGSZ.
Inductive va : Type :=
| AInt (z : Z)
| APtr (a : Z)
| AStr (s : option (list Z * Z)).

Definition NUMBER_BUF_SIZE : Z := 12.

Record PF (C : Type) : Type := mkPF {
  clientdata : C;
  ap : list va;
  charcount : Z;
  in_pct : bool;
  size : pf_size;
  num : Z;
  sign : bool;
  spacing : Z;
  rightspc : bool;
  fillchar : Z;
  base : Z;
  baseprefix : bool;
  altformat : bool;
}.
Arguments mkPF {C}.
Arguments clientdata {C} _.
Arguments ap {C} _.
Arguments charcount {C} _.
Arguments in_pct {C} _.
Arguments size {C} _.
Arguments num {C} _.
Arguments sign {C} _.
Arguments spacing {C} _.
Arguments rightspc {C} _.
Arguments fillchar {C} _.
Arguments base {C} _.
Arguments baseprefix {C} _.
Arguments altformat {C} _.

Section Printf.
  Context {C : Type} (sendfunc : list Z → K C unit).
  Abbreviation pf := (PF C).
  Implicit Types (p : pf).

Definition set_client (c : C) p : pf :=
  mkPF c (ap p) (charcount p) (in_pct p) (size p) (num p) (sign p) (spacing p) (rightspc p) (fillchar p) (base p) (baseprefix p) (altformat p).
Definition set_ap (l : list va) p : pf :=
  mkPF (clientdata p) l (charcount p) (in_pct p) (size p) (num p) (sign p) (spacing p) (rightspc p) (fillchar p) (base p) (baseprefix p) (altformat p).
Definition set_charcount (n : Z) p : pf :=
  mkPF (clientdata p) (ap p) n (in_pct p) (size p) (num p) (sign p) (spacing p) (rightspc p) (fillchar p) (base p) (baseprefix p) (altformat p).
Definition set_in_pct (b : bool) p : pf :=
  mkPF (clientdata p) (ap p) (charcount p) b (size p) (num p) (sign p) (spacing p) (rightspc p) (fillchar p) (base p) (baseprefix p) (altformat p).
Definition set_size (z : pf_size) p : pf :=
  mkPF (clientdata p) (ap p) (charcount p) (in_pct p) z (num p) (sign p) (spacing p) (rightspc p) (fillchar p) (base p) (baseprefix p) (altformat p).
Definition set_num (sg : bool) (n : Z) p : pf :=
  mkPF (clientdata p) (ap p) (charcount p) (in_pct p) (size p) n sg (spacing p) (rightspc p) (fillchar p) (base p) (baseprefix p) (altformat p).
Definition set_spacing (n : Z) p : pf :=
  mkPF (clientdata p) (ap p) (charcount p) (in_pct p) (size p) (num p) (sign p) n (rightspc p) (fillchar p) (base p) (baseprefix p) (altformat p).
Definition set_rightspc p : pf :=
  mkPF (clientdata p) (ap p) (charcount p) (in_pct p) (size p) (num p) (sign p) (spacing p) true (fillchar p) (base p) (baseprefix p) (altformat p).
Definition set_fillchar (c : Z) p : pf :=
  mkPF (clientdata p) (ap p) (charcount p) (in_pct p) (size p) (num p) (sign p) (spacing p) (rightspc p) c (base p) (baseprefix p) (altformat p).
Definition set_base (b : Z) p : pf :=
  mkPF (clientdata p) (ap p) (charcount p) (in_pct p) (size p) (num p) (sign p) (spacing p) (rightspc p) (fillchar p) b (baseprefix p) (altformat p).
Definition set_baseprefix p : pf :=
  mkPF (clientdata p) (ap p) (charcount p) (in_pct p) (size p) (num p) (sign p) (spacing p) (rightspc p) (fillchar p) (base p) true (altformat p).
Definition set_altformat p : pf :=
  mkPF (clientdata p) (ap p) (charcount p) (in_pct p) (size p) (num p) (sign p) (spacing p) (rightspc p) (fillchar p) (base p) (baseprefix p) true.

(** ** Operations *)
Definition __pf_print (txt : list Z) : K pf unit :=
  _ <- zoom clientdata set_client (sendfunc txt);
  modify (λ p, set_charcount (s32 (charcount p + Z.of_nat (length txt))) p).
Definition __pf_endfield : K pf unit :=
  modify (λ p, mkPF (clientdata p) (ap p) (charcount p) false INTSZ 0 false 0 false 32 0 false false).

Definition __pf_modifier (ch : Z) : K pf unit :=
  if ch =? 35 then modify set_altformat (* # *)
  else if ch =? 45 then modify set_rightspc (* - *)
  else if ch =? 108 then modify (set_size LONGSZ) (* l *)
  else if ch =? 113 then modify (set_size LONGSZ) (* q *)
  else if ch =? 48 then (* 0 *)
    modify (λ p, if 0 <? spacing p then set_spacing (s32 (spacing p * 10)) p else set_fillchar 48 p)
  else
    _ <- kassert ((48 <? ch) && (ch <=? 57));
    modify (λ p, set_spacing (s32 (spacing p * 10 + (ch - 48))) p).

(** [va_arg] *)
Definition va_int : K pf Z :=
  p <- kget;
  match ap p with
  | AInt z :: l => _ <- kput (set_ap l p); ret z
  | _ => halt Fault
  end.
Definition va_ptr : K pf Z :=
  p <- kget;
  match ap p with
  | APtr z :: l => _ <- kput (set_ap l p); ret z
  | _ => halt Fault
  end.
Definition va_str : K pf (option (list Z * Z)) :=
  p <- kget;
  match ap p with
  | AStr s :: l => _ <- kput (set_ap l p); ret s
  | _ => halt Fault
  end.

Definition __pf_getnum (ch : Z) : K pf unit :=
  if ch =? 112 then (* p *)
    a <- va_ptr;
    modify (λ p, set_num (sign p) (u32 a) p)
  else if ch =? 100 then (* d *)
    z <- va_int;
    let signednum := s32 z in
    if signednum <? 0 then modify (set_num true (u32 (- signednum)))
    else modify (λ p, set_num (sign p) (u32 signednum) p)
  else
    z <- va_int;
    modify (λ p, set_num (sign p) (u32 z) p).

Definition __pf_setbase (ch : Z) : K pf unit :=
  _ <- (if (ch =? 100) || (ch =? 117) then modify (set_base 10) (* d, u *)
        else if (ch =? 120) || (ch =? 112) then modify (set_base 16) (* x, p *)
        else if ch =? 111 then modify (set_base 8) (* o *)
        else ret tt);
  p <- kget;
  if altformat p || (ch =? 112) then modify set_baseprefix else ret tt.

Definition __pf_fill (spc : Z) : K pf unit :=
  p <- kget;
  kfor (Z.to_nat spc) 0 (λ _, __pf_print [fillchar p]).

(** The prefixes are literals; [stuff] is a string in a buffer. *)
Definition __pf_printstuff (prefix prefix2 : list Z) (stuff : list Z) (off : Z) : K pf unit :=
  n <- strlen stuff off;
  let len := s32 (Z.of_nat (length prefix) + Z.of_nat (length prefix2) + n) in
  p <- kget;
  let spc := if len <? spacing p then s32 (spacing p - len) else 0 in
  _ <- (if (0 <? spc) && negb (rightspc p) && negb (fillchar p =? 48) then __pf_fill spc else ret tt);
  _ <- __pf_print prefix;
  _ <- __pf_print prefix2;
  _ <- (if (0 <? spc) && negb (rightspc p) && (fillchar p =? 48) then __pf_fill spc else ret tt);
  _ <- __pf_print (take (Z.to_nat n) (drop (Z.to_nat off) stuff));
  if (0 <? spc) && rightspc p then __pf_fill spc else ret tt.

Definition hexdigits : list Z := [48; 49; 50; 51; 52; 53; 54; 55; 56; 57; 97; 98; 99; 100; 101; 102; 0].
(** [do { *x = digits[xnum % base]; x--; xnum = xnum / base; } while (xnum > 0)] *)
Fixpoint number_loop (fuel : nat) (b : Z) (buf : list Z) (x xnum : Z) : K pf (list Z * Z) :=
  d <- (if b =? 0 then halt Fault else deref (zlookup hexdigits (xnum mod b)));
  buf <- deref (zinsert x d buf);
  let xnum := xnum / b in
  if 0 <? xnum then
    match fuel with O => halt Spin | S fuel' => number_loop fuel' b buf (x - 1) xnum end
  else ret (buf, x - 1).
Definition __pf_printnum : K pf unit :=
  p <- kget;
  let buf := replicate (Z.to_nat NUMBER_BUF_SIZE) 0 in
  let x := NUMBER_BUF_SIZE - 1 in
  buf <- deref (zinsert x 0 buf);
  '(buf, x) <- number_loop (Z.to_nat NUMBER_BUF_SIZE) (base p) buf (x - 1) (num p);
  let bprefix := if baseprefix p && (base p =? 16) then [48; 120] else if baseprefix p && (base p =? 8) then [48] else [] in
  let sprefix := if sign p then [45] else [] in
  __pf_printstuff sprefix bprefix buf (x + 1).

Definition modifiers : list Z := [35; 45; 113; 108; 48; 49; 50; 51; 52; 53; 54; 55; 56; 57; 0].
Definition inttypes : list Z := [100; 111; 117; 112; 120; 0].
Definition null_text : list Z := [40; 110; 117; 108; 108; 41; 0].
Definition __pf_send (ch : Z) : K pf unit :=
  _ <- kassert (negb (ch =? 0));
  p <- kget;
  if negb (in_pct p) && negb (ch =? 37) then __pf_print [u8 ch]
  else if negb (in_pct p) then modify (set_in_pct true)
  else
    w <- strchr modifiers 0 ch;
    if bool_decide (w ≠ None) then __pf_modifier ch
    else
      w <- strchr inttypes 0 ch;
      if bool_decide (w ≠ None) then
        _ <- __pf_getnum ch;
        _ <- __pf_setbase ch;
        _ <- __pf_printnum;
        __pf_endfield
      else if ch =? 115 then
        str <- va_str;
        _ <- match str with
             | None => __pf_printstuff [] [] null_text 0
             | Some (s, off) => __pf_printstuff [] [] s off
             end;
        __pf_endfield
      else
        x <- (if ch =? 99 then va_int else ret ch);
        _ <- __pf_printstuff [] [] [u8 x; 0] 0;
        __pf_endfield.

(** [for (i=0; format[i]; i++) __pf_send(&pf, format[i]);] *)
Fixpoint vprintf_loop (fuel : nat) (format : list Z) (i : Z) : K pf unit :=
  c <- deref (zlookup format i);
  if c =? 0 then ret tt
  else
    _ <- __pf_send (schar c);
    match fuel with O => halt Spin | S fuel' => vprintf_loop fuel' format (i + 1) end.
Definition __vprintf (format : list Z) (args : list va) : K C Z :=
  c <- kget;
  r <- run_on (vprintf_loop (length format) format 0) (mkPF c args 0 false INTSZ 0 false 0 false 32 0 false false);
  _ <- kput (clientdata (snd r));
  ret (charcount (snd r)).
End Printf.

(** ** snprintf *)
Record SNP : Type := mkSNP { sn_buf : list Z; buflen : Z; bufpos : Z }.
Definition snp_put (c : Z) : K SNP unit :=
  s <- kget;
  if bufpos s <? buflen s then
    b <- deref (zinsert (bufpos s) c (sn_buf s));
    kput (mkSNP b (buflen s) (bufpos s + 1))
  else ret tt.
Fixpoint __snprintf_send (data : list Z) : K SNP unit :=
  match data with
  | [] => ret tt
  | c :: data => _ <- snp_put c; __snprintf_send data
  end.
(** The result and the buffer *)
Definition vsnprintf {S} (buf : list Z) (len : Z) (fmt : list Z) (args : list va) : K S (Z * list Z) :=
  let buflen := if len =? 0 then 0 else u32 (len - 1) in
  '(chars, snp) <- run_on (__vprintf __snprintf_send fmt args) (mkSNP buf buflen 0);
  if 0 <? len then
    b <- deref (zinsert (bufpos snp) 0 (sn_buf snp));
    ret (chars, b)
  else ret (chars, sn_buf snp).
Definition snprintf {S} (buf : list Z) (len : Z) (fmt : list Z) (args : list va) : K S (Z * list Z) :=
  vsnprintf buf len fmt args.

(** ** What is sent does not depend on the client. *)
Section Sim.
  Context {C1 C2 : Type} (send1 : list Z → K C1 unit) (send2 : list Z → K C2 unit) (R : Z → C1 → C2 → Prop).

Definition sim_out {A S1 S2} (Q : S1 → S2 → Prop) (r1 : outcome (A * S1 * oracle)) (r2 : outcome (A * S2 * oracle)) : Prop :=
  match r1, r2 with
  | Done (a1, s1, o1), Done (a2, s2, o2) => a1 = a2 ∧ Q s1 s2 ∧ o1 = o2
  | Halt e1, Halt e2 => e1 = e2
  | _, _ => False
  end.
Definition sim {A S1 S2} (Q : S1 → S2 → Prop) (m1 : K S1 A) (m2 : K S2 A) : Prop :=
  ∀ s1 s2 o, Q s1 s2 → sim_out Q (m1 s1 o) (m2 s2 o).
(** [R n] relates the clients after [n] characters. *)
Context (Hsend : ∀ txt n c1 c2 o, R n c1 c2 →
  sim_out (R (s32 (n + Z.of_nat (length txt)))) (send1 txt c1 o) (send2 txt c2 o)).

Lemma sim_ret {A S1 S2} (Q : S1 → S2 → Prop) (a : A) : sim Q (ret a) (ret a).
Proof. intros s1 s2 o H. done. Qed.
Lemma sim_halt {A S1 S2} (Q : S1 → S2 → Prop) e : sim (A := A) Q (halt e) (halt e).
Proof. intros s1 s2 o H. done. Qed.
Lemma sim_bind {A B S1 S2} (Q : S1 → S2 → Prop) (m1 : K S1 A) m2 (k1 : A → K S1 B) k2 :
  sim Q m1 m2 → (∀ a, sim Q (k1 a) (k2 a)) → sim Q (bind m1 k1) (bind m2 k2).
Proof.
  intros Hm Hk s1 s2 o H. specialize (Hm s1 s2 o H). unfold sim_out, bind in *.
  destruct (m1 s1 o) as [[[a1 t1] o1]|], (m2 s2 o) as [[[a2 t2] o2]|]; try done.
  destruct Hm as (-> & Ht & ->). by apply Hk.
Qed.
Lemma sim_get {B S1 S2} (Q : S1 → S2 → Prop) (k1 : S1 → K S1 B) (k2 : S2 → K S2 B) :
  (∀ s1 s2, Q s1 s2 → sim Q (k1 s1) (k2 s2)) → sim Q (bind kget k1) (bind kget k2).
Proof. intros Hk s1 s2 o H. by apply Hk. Qed.
Lemma sim_modify {S1 S2} (Q : S1 → S2 → Prop) f1 f2 :
  (∀ s1 s2, Q s1 s2 → Q (f1 s1) (f2 s2)) → sim Q (modify f1) (modify f2).
Proof. intros Hf s1 s2 o H. simpl. auto. Qed.
Lemma sim_put {S1 S2} (Q : S1 → S2 → Prop) t1 t2 : Q t1 t2 → sim Q (kput t1) (kput t2).
Proof. intros Ht s1 s2 o H. done. Qed.
Lemma sim_deref {A S1 S2} (Q : S1 → S2 → Prop) (x : option A) : sim Q (deref x) (deref x).
Proof. intros s1 s2 o H. by destruct x. Qed.
Lemma sim_assert {S1 S2} (Q : S1 → S2 → Prop) b : sim Q (kassert b) (kassert b).
Proof. intros s1 s2 o H. by destruct b. Qed.
Lemma sim_kfor {S1 S2} (Q : S1 → S2 → Prop) n i b1 b2 :
  (∀ i, sim Q (b1 i) (b2 i)) → sim Q (kfor n i b1) (kfor n i b2).
Proof. intros Hb. revert i. induction n; intros i; simpl; [apply sim_ret|by apply sim_bind]. Qed.

(** The states agree but for the client. *)
Definition Rpf (p1 : PF C1) (p2 : PF C2) : Prop :=
  R (charcount p1) (clientdata p1) (clientdata p2) ∧
  p2 = mkPF (clientdata p2) (ap p1) (charcount p1) (in_pct p1) (size p1) (num p1) (sign p1) (spacing p1)
         (rightspc p1) (fillchar p1) (base p1) (baseprefix p1) (altformat p1).
Ltac sim_get_pf :=
  apply sim_get; intros [c1 ? ? ? ? ? ? ? ? ? ? ? ?] [c2 ? ? ? ? ? ? ? ? ? ? ? ?] [HR Heq];
  cbn [clientdata ap charcount in_pct size num sign spacing rightspc fillchar base baseprefix altformat] in HR, Heq |- *;
  injection Heq as -> -> -> -> -> -> -> -> -> -> -> ->.
Ltac sim_auto :=
  repeat first
    [ apply sim_ret | apply sim_halt | apply sim_deref | apply sim_assert
    | apply sim_modify; intros ?? [? ->]; split; [done|reflexivity]
    | apply sim_put; split; [done|reflexivity]
    | progress sim_get_pf
    | apply sim_bind; [|intros] ].

Lemma sim_strlen fuel s off n : sim Rpf (strlen_loop fuel s off n) (strlen_loop fuel s off n).
Proof. revert n. induction fuel; intros n; simpl; sim_auto; destruct (_ =? _); sim_auto; auto. Qed.
Lemma sim_strchr fuel s off ch : sim Rpf (strchr_loop fuel s off ch) (strchr_loop fuel s off ch).
Proof. revert off. induction fuel; intros off; simpl; sim_auto; destruct (_ =? 0); sim_auto; destruct (_ =? _); sim_auto; auto. Qed.
Lemma sim_print txt : sim Rpf (__pf_print send1 txt) (__pf_print send2 txt).
Proof.
  unfold __pf_print, bind, zoom, modify. intros p1 p2 o [HR ->]. specialize (Hsend txt _ _ _ o HR).
  unfold sim_out in *. simpl.
  destruct (send1 txt (clientdata p1) o) as [[[[] c1] o1]|], (send2 txt (clientdata p2) o) as [[[[] c2] o2]|]; try done.
  destruct Hsend as (_ & Hc & ->). by split_and!.
Qed.
Lemma sim_fill spc : sim Rpf (__pf_fill send1 spc) (__pf_fill send2 spc).
Proof. unfold __pf_fill. sim_auto. apply sim_kfor. intros. apply sim_print. Qed.
Lemma sim_if {A S1 S2} (Q : S1 → S2 → Prop) (b : bool) (m1 n1 : K S1 A) m2 n2 :
  sim Q m1 m2 → sim Q n1 n2 → sim Q (if b then m1 else n1) (if b then m2 else n2).
Proof. by destruct b. Qed.
Lemma sim_printstuff a b s off : sim Rpf (__pf_printstuff send1 a b s off) (__pf_printstuff send2 a b s off).
Proof.
  unfold __pf_printstuff. apply sim_bind; [apply sim_strlen|intros n]. sim_get_pf.
  repeat first [apply sim_if; [apply sim_fill|apply sim_ret] | apply sim_print | apply sim_bind; [|intros _]].
Qed.
Lemma sim_number fuel b buf x n :
  sim Rpf (number_loop (C := C1) fuel b buf x n) (number_loop (C := C2) fuel b buf x n).
Proof.
  revert buf x n. induction fuel; intros buf x n; simpl; (apply sim_bind; [apply sim_if; sim_auto|intros d]); sim_auto;
    apply sim_if; sim_auto; auto.
Qed.
Lemma sim_printnum : sim Rpf (__pf_printnum send1) (__pf_printnum send2).
Proof.
  unfold __pf_printnum. sim_get_pf. apply sim_bind; [apply sim_deref|intros buf]. apply sim_bind; [apply sim_number|].
  intros [buf' x]. apply sim_printstuff.
Qed.
Lemma sim_modifier ch : sim Rpf (__pf_modifier (C := C1) ch) (__pf_modifier (C := C2) ch).
Proof.
  unfold __pf_modifier. do 4 (apply sim_if; [sim_auto|]). apply sim_if; [|sim_auto].
  apply sim_modify. intros p1 p2 [HR ->]. cbn [spacing]. by destruct (0 <? spacing p1); split.
Qed.
Lemma sim_va_int : sim Rpf (va_int (C := C1)) (va_int (C := C2)).
Proof. unfold va_int. sim_get_pf. destruct ap0 as [|[]]; sim_auto. Qed.
Lemma sim_va_ptr : sim Rpf (va_ptr (C := C1)) (va_ptr (C := C2)).
Proof. unfold va_ptr. sim_get_pf. destruct ap0 as [|[]]; sim_auto. Qed.
Lemma sim_va_str : sim Rpf (va_str (C := C1)) (va_str (C := C2)).
Proof. unfold va_str. sim_get_pf. destruct ap0 as [|[]]; sim_auto. Qed.
Lemma sim_getnum ch : sim Rpf (__pf_getnum (C := C1) ch) (__pf_getnum (C := C2) ch).
Proof.
  unfold __pf_getnum. repeat apply sim_if; (apply sim_bind; [first [apply sim_va_ptr|apply sim_va_int]|intros z]);
    try (destruct (_ <? _)); sim_auto.
Qed.
Lemma sim_setbase ch : sim Rpf (__pf_setbase (C := C1) ch) (__pf_setbase (C := C2) ch).
Proof.
  unfold __pf_setbase. apply sim_bind; [repeat (apply sim_if; [sim_auto|]); sim_auto|intros _].
  sim_get_pf. apply sim_if; sim_auto.
Qed.
Lemma sim_send ch : sim Rpf (__pf_send send1 ch) (__pf_send send2 ch).
Proof.
  unfold __pf_send. apply sim_bind; [apply sim_assert|intros _]. sim_get_pf.
  apply sim_if; [apply sim_print|]. apply sim_if; [sim_auto|]. apply sim_bind; [apply sim_strchr|intros w].
  apply sim_if; [apply sim_modifier|]. apply sim_bind; [apply sim_strchr|intros w']. apply sim_if.
  { apply sim_bind; [apply sim_getnum|intros _]. apply sim_bind; [apply sim_setbase|intros _].
    apply sim_bind; [apply sim_printnum|intros _]. unfold __pf_endfield. sim_auto. }
  apply sim_if; (apply sim_bind; [first [apply sim_va_str|apply sim_if; [apply sim_va_int|sim_auto]]|intros x]);
    (apply sim_bind; [|intros _; unfold __pf_endfield; sim_auto]).
  - destruct x as [[s off]|]; apply sim_printstuff.
  - apply sim_printstuff.
Qed.
Lemma sim_vprintf fuel fmt i : sim Rpf (vprintf_loop send1 fuel fmt i) (vprintf_loop send2 fuel fmt i).
Proof.
  revert i. induction fuel; intros i; simpl; (apply sim_bind; [apply sim_deref|intros c]); (apply sim_if; [apply sim_ret|]);
    (apply sim_bind; [apply sim_send|intros _]); [apply sim_halt|auto].
Qed.
Lemma sim__vprintf fmt args c1 c2 o :
  R 0 c1 c2 →
  match __vprintf send1 fmt args c1 o, __vprintf send2 fmt args c2 o with
  | Done (n1, c1', o1), Done (n2, c2', o2) => n1 = n2 ∧ R n1 c1' c2' ∧ o1 = o2
  | Halt e1, Halt e2 => e1 = e2
  | _, _ => False
  end.
Proof.
  intros HR. unfold __vprintf, bind, kget, run_on.
  pose proof (sim_vprintf (length fmt) fmt 0 (mkPF c1 args 0 false INTSZ 0 false 0 false 32 0 false false)
    (mkPF c2 args 0 false INTSZ 0 false 0 false 32 0 false false) o) as Hs. unfold sim_out in *.
  destruct (vprintf_loop send1 _ _ _ _ _) as [[[[] p1] o1]|], (vprintf_loop send2 _ _ _ _ _) as [[[[] p2] o2]|];
    try (by apply Hs). destruct Hs as (_ & [Hc ->] & ->); [by split|]. simpl. done.
Qed.
End Sim.

(** ** snprintf against the whole text *)
Definition collect (txt : list Z) : K (list Z) unit := modify (λ l, l ++ txt).
(** the text and the number of its characters, as printf would send it *)
Definition printf_text (fmt : list Z) (args : list va) (o : oracle) : outcome (Z * list Z * oracle) :=
  __vprintf collect fmt args [] o.

Lemma s32_add a b : s32 (s32 a + b) = s32 (a + b).
Proof.
  unfold s32. replace ((a + 2 ^ 31) mod 2 ^ 32 - 2 ^ 31 + b + 2 ^ 31) with ((a + 2 ^ 31) mod 2 ^ 32 + b) by lia.
  rewrite Zplus_mod_idemp_l. do 2 f_equal. lia.
Qed.
Lemma put_snoc (b : list Z) xs x :
  Z.of_nat (length xs) < Z.of_nat (length b) →
  zinsert (Z.of_nat (length xs)) x (put b 0 xs) = Some (put b 0 (xs ++ [x])).
Proof.
  intros Hlt. rewrite zinsert_ok by (rewrite length_put; lia). f_equal. unfold put. simpl. rewrite Nat2Z.id. simpl.
  rewrite insert_app_r_alt, Nat.sub_diag by lia. rewrite length_app. simpl. rewrite <- app_assoc. f_equal.
  destruct (lookup_lt_is_Some_2 b (length xs)) as [y Hy]; [lia|].
  rewrite (drop_S b y) by done. simpl. repeat f_equal. lia.
Qed.
Section Snprintf.
  Context (buf : list Z) (m : Z) (Hm : 0 ≤ m ≤ Z.of_nat (length buf)).
Definition snp_rel (n : Z) (s : SNP) (text : list Z) : Prop :=
  n = s32 (Z.of_nat (length text)) ∧ buflen s = m ∧ bufpos s = Z.min m (Z.of_nat (length text)) ∧
  sn_buf s = put buf 0 (take (Z.to_nat m) text).
Lemma snp_put_spec c s text o :
  snp_rel (s32 (Z.of_nat (length text))) s text →
  ∃ s', snp_put c s o = Done (tt, s', o) ∧ snp_rel (s32 (Z.of_nat (length (text ++ [c])))) s' (text ++ [c]).
Proof.
  intros (_ & Hl & Hp & Hb). unfold snp_put, bind, kget. rewrite Hl, Hp. rewrite length_app. simpl.
  destruct (Z.ltb_spec (Z.min m (Z.of_nat (length text))) m).
  - assert (length text < Z.to_nat m)%nat by lia. rewrite Z.min_r by lia. rewrite Hb, take_ge by lia.
    rewrite put_snoc by lia. simpl. eexists. split; [done|]. split_and!; simpl; try done.
    + f_equal. rewrite length_app. simpl. lia.
    + rewrite length_app. simpl. lia.
    + rewrite take_ge; [done|rewrite length_app; simpl; lia].
  - simpl. eexists. split; [done|]. split_and!; try done.
    + f_equal. rewrite length_app. simpl. lia.
    + rewrite length_app. simpl. lia.
    + rewrite Hb, take_app_le by lia. done.
Qed.
Lemma snp_send_spec txt s text o :
  snp_rel (s32 (Z.of_nat (length text))) s text →
  ∃ s', __snprintf_send txt s o = Done (tt, s', o) ∧ snp_rel (s32 (Z.of_nat (length (text ++ txt)))) s' (text ++ txt).
Proof.
  revert s text. induction txt as [|c txt IH]; intros s text Hr.
  - exists s. rewrite app_nil_r. done.
  - destruct (snp_put_spec c s text o Hr) as (s1 & He & Hr1). cbn [__snprintf_send]. unfold bind. rewrite He.
    destruct (IH s1 (text ++ [c]) Hr1) as (s2 & He2 & Hr2). exists s2. rewrite He2, <- app_assoc in *. done.
Qed.
Lemma snp_sim txt n s text o :
  snp_rel n s text → sim_out (snp_rel (s32 (n + Z.of_nat (length txt)))) (__snprintf_send txt s o) (collect txt text o).
Proof.
  intros Hr. pose proof Hr as (-> & _). destruct (snp_send_spec txt s text o Hr) as (s' & -> & Hr'). simpl.
  split_and!; [done| |done]. rewrite length_app in Hr'. destruct Hr' as (H1 & H2). split; [|done].
  by rewrite length_app, Nat2Z.inj_add, s32_add.
Qed.
End Snprintf.

Lemma snprintf_run {S} buf len fmt args (st : S) o :
  0 ≤ len < 2 ^ 32 → len ≤ Z.of_nat (length buf) →
  match printf_text fmt args o with
  | Done (n, text, o') =>
      n = s32 (Z.of_nat (length text)) ∧
      snprintf buf len fmt args st o =
        Done ((n, if len =? 0 then buf else put buf 0 (take (Z.to_nat (len - 1)) text ++ [0])), st, o')
  | Halt e => snprintf buf len fmt args st o = Halt e
  end.
Proof.
  intros Hlen Hbuf. set (m := if len =? 0 then 0 else u32 (len - 1)).
  assert (0 ≤ m ≤ Z.of_nat (length buf) ∧ (0 < len → m = len - 1)) as [Hm Hm'].
  { unfold m. destruct (Z.eqb_spec len 0); [lia|]. rewrite u32_small; lia. }
  pose proof (sim__vprintf __snprintf_send collect (snp_rel buf m) (snp_sim buf m Hm) fmt args (mkSNP buf m 0) [] o) as Hsim.
  assert (snp_rel buf m 0 (mkSNP buf m 0) []) as H0.
  { split_and!; simpl; [done..|lia|by rewrite take_nil, put_nil]. }
  specialize (Hsim H0). unfold printf_text, snprintf, vsnprintf, run_on, bind. fold m.
  destruct (__vprintf collect fmt args [] o) as [[[n text] o']|e],
    (__vprintf __snprintf_send fmt args (mkSNP buf m 0) o) as [[[n' s] o'']|e']; try done; [|by subst].
  destruct Hsim as (-> & (-> & Hl & Hp & Hb) & ->). split; [done|]. simpl.
  destruct (Z.ltb_spec 0 len), (Z.eqb_spec len 0); try lia.
  - assert (Z.of_nat (length (take (Z.to_nat m) text)) = Z.min m (Z.of_nat (length text))) as Hlt.
    { rewrite length_take. lia. }
    specialize (Hm' H). rewrite Hp, Hb, <- Hlt, put_snoc by lia. simpl. by rewrite Hm'.
  - unfold ret. rewrite Hb. replace m with 0 by (unfold m; subst; done). by rewrite take_0, put_nil.
Qed.
(** C31: [snprintf] prints what [printf] would send: the buffer gets as much of
    that text as fits, with a zero behind it, and is not touched beyond
    [len]; the result is the length of the whole text. *)
Theorem snprintf_text {S} buf len fmt args (st : S) o :
  0 ≤ len < 2 ^ 32 → len ≤ Z.of_nat (length buf) →
  match printf_text fmt args o with
  | Done (n, text, o') =>
      n = s32 (Z.of_nat (length text)) ∧
      snprintf buf len fmt args st o =
        Done ((n, if len =? 0 then buf else put buf 0 (take (Z.to_nat (len - 1)) text ++ [0])), st, o')
  | Halt e => snprintf buf len fmt args st o = Halt e
  end.
Proof. apply snprintf_run. Qed.
Lemma snprintf_text_witness :
  snprintf (replicate 4 7) 4 [97; 37; 117; 0] [AInt 1234] tt [] = Done ((5, [97; 49; 50; 0]), tt, []).
Proof.
  pose proof (snprintf_text (replicate 4 7) 4 [97; 37; 117; 0] [AInt 1234] tt [] ltac:(lia) ltac:(simpl; lia)) as H.
  assert (printf_text [97; 37; 117; 0] [AInt 1234] [] = Done (5, [97; 49; 50; 51; 52], [])) as E.
  { vm_compute. reflexivity. }
  rewrite E in H. destruct H as [_ H]. rewrite H. reflexivity.
Defined.

(** ** Numbers *)
Definition digit_char (d : Z) : Z := default 0 (zlookup hexdigits d).
Fixpoint ndigits (fuel : nat) (b n : Z) (acc : list Z) : list Z :=
  let acc := digit_char (n mod b) :: acc in
  if 0 <? n / b then match fuel with O => acc | S fuel' => ndigits fuel' b (n / b) acc end else acc.
Lemma digit_char_spec d : 0 ≤ d < 16 → zlookup hexdigits d = Some (digit_char d) ∧ digit_char d ≠ 0.
Proof.
  intros Hd. unfold digit_char. assert (∃ n : nat, d = Z.of_nat n ∧ (n < 16)%nat) as (n & -> & Hn).
  { exists (Z.to_nat d). lia. }
  do 16 (destruct n as [|n]; [done|]). lia.
Qed.
Lemma digit_char_dec d : 0 ≤ d < 10 → digit_char d = 48 + d.
Proof.
  intros Hd. assert (∃ n : nat, d = Z.of_nat n ∧ (n < 10)%nat) as (n & -> & Hn). { exists (Z.to_nat d). lia. }
  do 10 (destruct n as [|n]; [done|]). lia.
Qed.
(** The digits fit in the buffer in front of what is there. *)
Lemma number_loop_spec {C} fuel b buf x n acc (p : PF C) o :
  2 ≤ b ≤ 16 → 0 ≤ n < b ^ (x + 1) → 0 ≤ x < Z.of_nat fuel → x < Z.of_nat (length buf) → has_str buf (x + 1) acc →
  ∃ buf' x', number_loop fuel b buf x n p o = Done ((buf', x'), p, o) ∧ -1 ≤ x' ∧ length buf' = length buf ∧
    has_str buf' (x' + 1) (ndigits fuel b n acc).
Proof.
  revert buf x n acc. induction fuel as [|fuel IH]; intros buf x n acc Hb Hn Hx Hl Hs; [lia|].
  assert (0 ≤ n mod b < b) as Hmod by (apply Z.mod_pos_bound; lia).
  destruct (digit_char_spec (n mod b)) as [Hd Hnz]; [lia|]. cbn [number_loop ndigits]. unfold bind at 1.
  destruct (Z.eqb_spec b 0); [lia|]. unfold deref at 1. rewrite Hd. unfold ret at 1. unfold bind at 1, deref.
  rewrite zinsert_ok by lia. unfold ret at 1. set (buf1 := <[_ := _]> buf).
  assert (has_str buf1 x (digit_char (n mod b) :: acc)) as Hs1.
  { apply has_str_cons. assert (∀ j, j ≠ x → zlookup buf1 j = zlookup buf j) as Hne.
    { intros j Hj. unfold zlookup, buf1. case_decide; [|done]. apply list_lookup_insert_ne. lia. }
    split_and!; [|done|].
    - unfold zlookup, buf1. rewrite decide_True by lia. apply list_lookup_insert_eq. lia.
    - destruct Hs as (? & Hs1 & Hs2). split_and!; [done| |].
      + intros i y Hy. rewrite Hne by lia. by apply Hs1.
      + rewrite Hne by lia. done. }
  destruct (Z.ltb_spec 0 (n / b)).
  - assert (0 < x).
    { destruct (decide (x = 0)) as [->|]; [|lia]. rewrite Z.pow_1_r in Hn. rewrite Z.div_small in * by lia. lia. }
    destruct (IH buf1 (x - 1) (n / b) (digit_char (n mod b) :: acc)) as (buf' & x' & He & Hx' & Hl' & Hs').
    + done.
    + split; [apply Z.div_pos; lia|]. apply Z.div_lt_upper_bound; [lia|]. rewrite <- Z.pow_succ_r by lia.
      replace (Z.succ (x - 1 + 1)) with (x + 1) by lia. apply Hn.
    + lia.
    + unfold buf1. rewrite length_insert. lia.
    + by replace (x - 1 + 1) with x by lia.
    + exists buf', x'. split_and!; try done. rewrite Hl'. unfold buf1. by rewrite length_insert.
  - exists buf1, (x - 1). split_and!; [done|lia|unfold buf1; by rewrite length_insert|].
    by replace (x - 1 + 1) with x by lia.
Qed.
(** Their value, in base ten *)
Lemma ndigits_dec fuel n acc :
  0 ≤ n < 10 ^ Z.of_nat (S fuel) → Forall digit acc →
  Forall digit (ndigits fuel 10 n acc) ∧ ndigits fuel 10 n acc ≠ [] ∧ dec 0 (ndigits fuel 10 n acc) = dec n acc.
Proof.
  revert n acc. induction fuel as [|fuel IH]; intros n acc Hn Hacc; cbn [ndigits];
    assert (0 ≤ n mod 10 < 10) as Hmod by (apply Z.mod_pos_bound; lia); pose proof (Z.div_mod n 10 ltac:(lia)) as Hdm.
  - rewrite Z.pow_1_r in Hn. rewrite Z.div_small, Z.mod_small by lia. simpl. rewrite digit_char_dec by lia.
    split_and!; [|done|]; [constructor; [unfold digit; lia|done]|]. unfold dec. simpl. f_equal. lia.
  - assert (Forall digit (digit_char (n mod 10) :: acc)) as Hacc'.
    { constructor; [|done]. rewrite digit_char_dec by lia. unfold digit. lia. }
    assert (dec (n / 10) (digit_char (n mod 10) :: acc) = dec n acc) as Hdec.
    { unfold dec. simpl. f_equal. rewrite digit_char_dec by lia. lia. }
    destruct (Z.ltb_spec 0 (n / 10)).
    + destruct (IH (n / 10) (digit_char (n mod 10) :: acc)) as (H1 & H2 & H3).
      * split; [lia|]. apply Z.div_lt_upper_bound; [lia|]. rewrite <- Z.pow_succ_r by lia.
        replace (Z.succ (Z.of_nat (S fuel))) with (Z.of_nat (S (S fuel))) by lia. apply Hn.
      * done.
      * split_and!; [done..|]. by rewrite H3.
    + split_and!; [done..|]. rewrite <- Hdec. by replace (n / 10) with 0 by lia.
Qed.
Lemma length_ndigits fuel k b n acc :
  2 ≤ b → 0 ≤ n < b ^ Z.of_nat (S k) → (length (ndigits fuel b n acc) ≤ length acc + S k)%nat.
Proof.
  revert k n acc. induction fuel as [|fuel IH]; intros k n acc Hb Hn; cbn [ndigits].
  - destruct (0 <? n / b); simpl; lia.
  - destruct (Z.ltb_spec 0 (n / b)); [|simpl; lia]. destruct k as [|k].
    { rewrite Z.pow_1_r in Hn. rewrite Z.div_small in * by lia. lia. }
    etransitivity; [apply (IH k); [done|]|simpl; lia]. split; [apply Z.div_pos; lia|].
    apply Z.div_lt_upper_bound; [lia|]. rewrite <- Z.pow_succ_r by lia.
    replace (Z.succ (Z.of_nat (S k))) with (Z.of_nat (S (S k))) by lia. apply Hn.
Qed.
Lemma has_str_take s off xs : has_str s off xs → take (length xs) (drop (Z.to_nat off) s) = xs.
Proof.
  revert off. induction xs as [|x xs IH]; intros off Hs; [done|]. pose proof Hs as (H0 & _).
  apply has_str_cons in Hs as (Hx & _ & Hs). unfold zlookup in Hx. rewrite decide_True in Hx by done.
  rewrite (drop_S s x) by done. simpl. f_equal. replace (S (Z.to_nat off)) with (Z.to_nat (off + 1)) by lia. by apply IH.
Qed.
(** In the three bases the numbers of the kernel fit in the buffer. *)
Lemma printnum_spec (p : PF (list Z)) o :
  2 ≤ base p ≤ 16 → 0 ≤ num p < base p ^ 11 → spacing p = 0 →
  ∃ p', __pf_printnum collect p o = Done (tt, p', o) ∧
    clientdata p' = clientdata p ++ (if sign p then [45] else []) ++
      (if baseprefix p && (base p =? 16) then [48; 120] else if baseprefix p && (base p =? 8) then [48] else []) ++
      ndigits 12 (base p) (num p) [].
Proof.
  intros Hb Hn Hsp. unfold __pf_printnum, bind at 1, kget. unfold NUMBER_BUF_SIZE. unfold bind at 1, deref at 1.
  destruct (zinsert (12 - 1) 0 (replicate (Z.to_nat 12) 0)) as [buf|] eqn:Hbuf; [|done].
  assert (buf = replicate 12 0) as -> by (by vm_compute in Hbuf; injection Hbuf as <-). clear Hbuf.
  destruct (number_loop_spec 12 (base p) (replicate 12 0) 10 (num p) [] p o) as (buf & x & He & Hx & Hl & Hs);
    [done..|lia|simpl; lia|by apply has_str_nil|].
  unfold ret at 1. unfold bind at 1. change (Z.to_nat 12) with 12%nat. change (12 - 1 - 1) with 10. rewrite He.
  set (bpre := if baseprefix p && (base p =? 16) then _ else _). set (spre := if sign p then _ else _).
  unfold __pf_printstuff, bind at 1. rewrite (strlen_spec _ _ _ _ _ Hs). unfold bind at 1, kget. rewrite Hsp.
  set (ds := ndigits 12 (base p) (num p) []) in *.
  assert (length ds ≤ 11)%nat by (apply has_str_fits in Hs; rewrite Hl in Hs; simpl in Hs; lia).
  assert (length spre ≤ 1)%nat by (unfold spre; destruct (sign p); simpl; lia).
  assert (length bpre ≤ 2)%nat by (unfold bpre; destruct (_ && _); simpl; [lia|]; destruct (_ && _); simpl; lia).
  rewrite s32_small by lia. destruct (Z.ltb_spec (Z.of_nat (length spre) + Z.of_nat (length bpre) + Z.of_nat (length ds)) 0); [lia|].
  simpl. eexists. split; [done|]. simpl. rewrite Nat2Z.id, has_str_take by done. by rewrite !app_assoc.
Qed.
Lemma send_decimal z o :
  - 2 ^ 31 ≤ z < 2 ^ 31 →
  __pf_send collect 100 (mkPF [] [AInt z] 0 true INTSZ 0 false 0 false 32 0 false false) o =
  bind (__pf_printnum collect) (λ _, __pf_endfield)
    (mkPF [] [] 0 true INTSZ (Z.abs z) (z <? 0) 0 false 32 10 false false) o.
Proof.
  intros Hz. unfold __pf_send. unfold bind at 1. change (kassert (negb (100 =? 0)) ?p ?o) with (Done (tt, p, o)).
  cbv iota beta. unfold bind at 1, kget. cbn [in_pct negb andb]. unfold bind at 1.
  change (strchr modifiers 0 100 ?p ?o) with (Done (@None Z, p, o)). cbv iota beta. rewrite bool_decide_false by tauto.
  unfold bind at 1. change (strchr inttypes 0 100 ?p ?o) with (Done (Some 0, p, o)). cbv iota beta.
  rewrite bool_decide_true by done. unfold bind at 1, __pf_getnum. cbn [Z.eqb Pos.eqb]. unfold bind at 1.
  unfold va_int. unfold bind at 1, kget. cbn [ap]. unfold bind at 1, kput, ret. rewrite s32_small by lia.
  destruct (Z.ltb_spec z 0).
  - unfold modify. cbn. rewrite u32_small, <- Z.abs_neq by lia. reflexivity.
  - unfold modify. cbn. rewrite u32_small, Z.abs_eq by lia. reflexivity.
Qed.
Lemma printf_decimal z o :
  - 2 ^ 31 ≤ z < 2 ^ 31 →
  ∃ k, printf_text [37; 100; 0] [AInt z] o =
    Done (k, (if z <? 0 then [45] else []) ++ ndigits 12 10 (Z.abs z) [], o).
Proof.
  intros Hz. set (p := mkPF ([] : list Z) [] 0 true INTSZ (Z.abs z) (z <? 0) 0 false 32 10 false false).
  destruct (printnum_spec p o) as (p' & He & Hc); [simpl; lia..|done|]. exists (charcount p').
  unfold printf_text, __vprintf. unfold bind at 1, kget, bind at 1, run_on. cbn [length vprintf_loop].
  unfold bind at 1. change (deref (zlookup [37; 100; 0] 0) ?p ?o) with (Done (37, p, o)). cbv iota beta.
  change (37 =? 0) with false. cbv iota. unfold bind at 1.
  change (__pf_send collect (schar 37) (mkPF ?c ?a ?n false ?sz ?nu ?sg ?sp ?r ?f ?b ?bp ?al) ?o)
    with (Done (tt, mkPF c a n true sz nu sg sp r f b bp al, o)). cbv iota beta.
  unfold bind at 1. change (deref (zlookup [37; 100; 0] (0 + 1)) ?p ?o) with (Done (100, p, o)). cbv iota beta.
  change (100 =? 0) with false. cbv iota. unfold bind at 1. change (schar 100) with 100.
  rewrite send_decimal by done. unfold bind at 1. fold p. rewrite He. cbn. rewrite Hc. done.
Qed.

Lemma printf_string s off xs o :
  has_str s off xs → Z.of_nat (length xs) < 2 ^ 31 →
  ∃ k, printf_text [37; 115; 0] [AStr (Some (s, off))] o = Done (k, xs, o).
Proof.
  intros Hs Hl. unfold printf_text, __vprintf. unfold bind at 1, kget, bind at 1, run_on. cbn [length vprintf_loop].
  unfold bind at 1. change (deref (zlookup [37; 115; 0] 0) ?p ?o) with (Done (37, p, o)). cbv iota beta.
  change (37 =? 0) with false. cbv iota. unfold bind at 1.
  change (__pf_send collect (schar 37) (mkPF ?c ?a ?n false ?sz ?nu ?sg ?sp ?r ?f ?b ?bp ?al) ?o)
    with (Done (tt, mkPF c a n true sz nu sg sp r f b bp al, o)). cbv iota beta.
  unfold bind at 1. change (deref (zlookup [37; 115; 0] (0 + 1)) ?p ?o) with (Done (115, p, o)). cbv iota beta.
  change (115 =? 0) with false. cbv iota. unfold bind at 1. change (schar 115) with 115.
  unfold __pf_send. unfold bind at 1. change (kassert (negb (115 =? 0)) ?p ?o) with (Done (tt, p, o)).
  cbv iota beta. unfold bind at 1, kget. cbn [in_pct negb andb]. unfold bind at 1.
  change (strchr modifiers 0 115 ?p ?o) with (Done (@None Z, p, o)). cbv iota beta. rewrite bool_decide_false by tauto.
  unfold bind at 1. change (strchr inttypes 0 115 ?p ?o) with (Done (@None Z, p, o)). cbv iota beta. rewrite bool_decide_false by tauto.
  cbn [Z.eqb Pos.eqb]. unfold bind at 1, va_str. unfold bind at 1, kget. cbn [ap]. unfold bind at 1, kput, ret.
  unfold bind at 1, __pf_printstuff, bind at 1. rewrite (strlen_spec _ _ _ _ _ Hs). unfold bind at 1, kget. cbn [spacing set_ap length].
  rewrite s32_small by lia. destruct (Z.ltb_spec (Z.of_nat 0 + Z.of_nat 0 + Z.of_nat (length xs)) 0); [lia|].
  cbn. rewrite Nat2Z.id, has_str_take by done. by eexists.
Qed.

(** [printf("%d")] and [atoi] are inverse: every [int] printed into a
    buffer of twelve bytes or more reads back as itself. *)
Theorem printf_atoi_roundtrip {S} z buf len (st : S) o :
  - 2 ^ 31 ≤ z < 2 ^ 31 → 12 ≤ len < 2 ^ 32 → len ≤ Z.of_nat (length buf) →
  ∃ k buf', snprintf buf len [37; 100; 0] [AInt z] st o = Done ((k, buf'), st, o) ∧
    atoi buf' 0 st o = Done (z, st, o).
Proof.
  intros Hz Hlen Hbuf. destruct (printf_decimal z o Hz) as [k Hp].
  pose proof (snprintf_run buf len [37; 100; 0] [AInt z] st o ltac:(lia) Hbuf) as Hs. rewrite Hp in Hs.
  destruct Hs as [_ Hs]. eexists _, _. split; [exact Hs|]. destruct (Z.eqb_spec len 0); [lia|].
  destruct (ndigits_dec 12 (Z.abs z) []) as (Hd & Hne & Hv); [change (Z.of_nat 13) with 13; lia|done|].
  pose proof (length_ndigits 12 9 10 (Z.abs z) [] ltac:(lia) ltac:(change (Z.of_nat 10) with 10; lia)) as Hl.
  set (ds := ndigits 12 10 (Z.abs z) []) in *. change (dec (Z.abs z) []) with (Z.abs z) in Hv.
  cbn [length Nat.add] in Hl. clearbody ds.
  rewrite take_ge by (rewrite length_app; destruct (z <? 0); simpl; lia).
  rewrite (atoi_number (z <? 0) ds).
  - rewrite Hv. destruct (Z.ltb_spec z 0).
    + rewrite Z.abs_neq, Z.opp_involutive by lia. unfold s32, u32. rewrite Zplus_mod_idemp_l. fold (s32 z).
      by rewrite s32_small.
    + rewrite s32_small by lia. by rewrite Z.abs_eq.
  - apply put_has_str; [lia|rewrite length_app; destruct (z <? 0); simpl; lia|].
    apply Forall_app. split; [by destruct (z <? 0); repeat constructor|].
    eapply Forall_impl; [exact Hd|]. unfold digit. intros; lia.
  - done.
  - done.
  - rewrite Hv. lia.
Qed.
Lemma printf_atoi_roundtrip_witness :
  ∃ k buf', snprintf (replicate 12 7) 12 [37; 100; 0] [AInt (- 2 ^ 31)] tt [] = Done ((k, buf'), tt, []) ∧
    atoi buf' 0 tt [] = Done (- 2 ^ 31, tt, []).
Proof. apply printf_atoi_roundtrip; simpl; lia. Defined.
