(* ===== verification/Request.v ===== *)
(** * Transfer requests as the file system sees them

    [struct uio] names a region of memory, of the kernel or of a user.  What
    moves data through it only sees how much is left, the offset, and the
    bytes that come out of the region or go into it; a copy to or from a user
    may fail.  [uiomove_request] shows that [uiomove] of src/kern/userprog/uio.c
    does to a [uio] what [rq_uiomove] does to the request. *)
From S2P Require Import Prelude Memory Copyinout Uio.

Record request : Type := mkRequest {
  rq_rw : uio_rw;
  rq_offset : Z;
  rq_resid : Z;
  rq_in : list Z; (** a write: what the region still has to give *)
  rq_out : list Z; (** a read: what has been put into the region *)
  rq_faults : list bool; (** which of the next copies fail *)
}.
Definition set_offset (z : Z) (r : request) : request :=
  mkRequest (rq_rw r) z (rq_resid r) (rq_in r) (rq_out r) (rq_faults r).
Definition set_resid (z : Z) (r : request) : request :=
  mkRequest (rq_rw r) (rq_offset r) z (rq_in r) (rq_out r) (rq_faults r).

(** [uiomove(buf, n, uio)] with the [n] bytes of [buf]: the error, and what is
    in the buffer afterwards *)
Definition rq_uiomove (buf : list Z) : K request (Z * list Z) :=
  r <- kget;
  let t := Z.min (Z.of_nat (length buf)) (rq_resid r) in
  if t <=? 0 then ret (0, buf)
  else if default false (head (rq_faults r)) then
    _ <- kput (mkRequest (rq_rw r) (rq_offset r) (rq_resid r) (rq_in r) (rq_out r) (tail (rq_faults r)));
    ret (EFAULT, buf)
  else
    match rq_rw r with
    | UIO_READ =>
        _ <- kput (mkRequest UIO_READ (s32 (rq_offset r + t)) (u32 (rq_resid r - t)) (rq_in r)
                     (rq_out r ++ take (Z.to_nat t) buf) (tail (rq_faults r)));
        ret (0, buf)
    | UIO_WRITE =>
        if Z.of_nat (length (rq_in r)) <? t then halt Fault
        else
          _ <- kput (mkRequest UIO_WRITE (s32 (rq_offset r + t)) (u32 (rq_resid r - t))
                       (drop (Z.to_nat t) (rq_in r)) (rq_out r) (tail (rq_faults r)));
          ret (0, take (Z.to_nat t) (rq_in r) ++ drop (Z.to_nat t) buf)
    end.
(** [uiomovezeros(n, uio)] *)
Fixpoint rq_zeros (fuel : nat) (n : Z) : K request Z :=
  if 0 <? n then
    match fuel with
    | O => halt Spin
    | S fuel' =>
        let amt := if n <? 16 then n else 16 in
        '(result, _) <- rq_uiomove (replicate (Z.to_nat amt) 0);
        if negb (result =? 0) then ret result else rq_zeros fuel' (n - amt)
    end
  else ret 0.
Definition rq_uiomovezeros (n : Z) : K request Z :=
  r <- kget;
  _ <- kassert (bool_decide (rq_rw r = UIO_READ));
  rq_zeros (Z.to_nat n) n.
(** [mk_kuio(uio, kbuf, len, pos, rw)]: the region is in the kernel. *)
Definition rq_kuio (data : list Z) (len pos : Z) (rw : uio_rw) : request :=
  mkRequest rw pos len data [] [].

(** ** Moving whole buffers *)
Definition no_faults (r : request) : Prop := ∀ b, b ∈ rq_faults r → b = false.
Lemma no_faults_head r : no_faults r → default false (head (rq_faults r)) = false.
Proof. unfold no_faults. destruct (rq_faults r) as [|b l]; [done|]. intros H. simpl. apply H. left. Qed.
Lemma no_faults_tail r rw off res i out : no_faults r → no_faults (mkRequest rw off res i out (tail (rq_faults r))).
Proof.
  unfold no_faults. simpl. destruct (rq_faults r) as [|b l]; [done|]. intros H c Hc. apply H. by right.
Qed.

Lemma rq_read buf r o :
  rq_rw r = UIO_READ → no_faults r → Z.of_nat (length buf) ≤ rq_resid r < 2 ^ 32 →
  0 ≤ rq_offset r → rq_offset r + Z.of_nat (length buf) < 2 ^ 31 →
  wp (rq_uiomove buf) (λ res r' o', res = (0, buf) ∧ o' = o ∧ no_faults r' ∧ rq_rw r' = UIO_READ ∧
    rq_offset r' = rq_offset r + Z.of_nat (length buf) ∧ rq_resid r' = rq_resid r - Z.of_nat (length buf) ∧
    rq_in r' = rq_in r ∧ rq_out r' = rq_out r ++ buf) r o.
Proof.
  intros Hrw Hnf Hres H0 H1. unfold rq_uiomove. wp_step. wp_step. rewrite Z.min_l by lia.
  destruct (Z.leb_spec (Z.of_nat (length buf)) 0).
  - wp_step. assert (buf = []) as -> by (apply length_zero_iff_nil; lia). simpl. rewrite app_nil_r.
    split_and!; try done; lia.
  - rewrite no_faults_head by done. rewrite Hrw. wp_run. simpl. split_and!; try done.
    + by apply no_faults_tail.
    + rewrite s32_small by lia. done.
    + rewrite u32_small by lia. done.
    + rewrite take_ge; [done|lia].
Qed.
Lemma rq_write buf r o :
  rq_rw r = UIO_WRITE → no_faults r → Z.of_nat (length buf) ≤ rq_resid r < 2 ^ 32 →
  rq_resid r ≤ Z.of_nat (length (rq_in r)) →
  0 ≤ rq_offset r → rq_offset r + Z.of_nat (length buf) < 2 ^ 31 →
  wp (rq_uiomove buf) (λ res r' o', res = (0, take (length buf) (rq_in r)) ∧ o' = o ∧ no_faults r' ∧
    rq_rw r' = UIO_WRITE ∧
    rq_offset r' = rq_offset r + Z.of_nat (length buf) ∧ rq_resid r' = rq_resid r - Z.of_nat (length buf) ∧
    rq_in r' = drop (length buf) (rq_in r) ∧ rq_out r' = rq_out r) r o.
Proof.
  intros Hrw Hnf Hres Hin H0 H1. unfold rq_uiomove. wp_step. wp_step. rewrite Z.min_l by lia.
  destruct (Z.leb_spec (Z.of_nat (length buf)) 0).
  - wp_step. assert (buf = []) as -> by (apply length_zero_iff_nil; lia). simpl.
    rewrite drop_0. split_and!; try done; lia.
  - rewrite no_faults_head by done. rewrite Hrw.
    destruct (Z.ltb_spec (Z.of_nat (length (rq_in r))) (Z.of_nat (length buf))); [lia|]. wp_run. simpl.
    rewrite !Nat2Z.id. split_and!; try done.
    + by rewrite drop_all, app_nil_r.
    + by apply no_faults_tail.
    + rewrite s32_small by lia. done.
    + rewrite u32_small by lia. done.
Qed.

(** Zeros *)
Lemma rq_zeros_spec fuel n r o :
  rq_rw r = UIO_READ → no_faults r → 0 ≤ n ≤ rq_resid r → rq_resid r < 2 ^ 32 → n ≤ Z.of_nat fuel →
  0 ≤ rq_offset r → rq_offset r + n < 2 ^ 31 →
  wp (rq_zeros fuel n) (λ res r' o', res = 0 ∧ o' = o ∧ no_faults r' ∧ rq_rw r' = UIO_READ ∧
    rq_offset r' = rq_offset r + n ∧ rq_resid r' = rq_resid r - n ∧
    rq_in r' = rq_in r ∧ rq_out r' = rq_out r ++ replicate (Z.to_nat n) 0) r o.
Proof.
  revert n r. induction fuel as [|fuel IH]; intros n r Hrw Hnf Hn Hres Hf Ho He; cbn [rq_zeros].
  { assert (n = 0) as -> by lia. wp_cond. wp_step. simpl. rewrite app_nil_r. split_and!; try done; lia. }
  destruct (Z.ltb_spec 0 n).
  2: { assert (n = 0) as -> by lia. wp_step. simpl. rewrite app_nil_r. split_and!; try done; lia. }
  set (amt := if n <? 16 then n else 16).
  assert (amt = Z.min n 16) as Hamt by (unfold amt; destruct (Z.ltb_spec n 16); lia). wp_step.
  wp_call rq_read; [done..|rewrite length_replicate; lia|lia|rewrite length_replicate; lia|]. rewrite length_replicate.
  intros [res b] r' o' ([= -> ->] & -> & Hnf' & Hrw' & Ho' & Hre' & Hi' & Hou'). wp_cond.
  eapply wp_mono; [apply (IH (n - amt) r'); try done; lia|]. cbn beta.
  intros res r2 o2 (-> & -> & ? & ? & ? & ? & ? & ->). split_and!; try done; try lia; try congruence.
  rewrite Hou', <- app_assoc, <- replicate_add. do 2 f_equal. lia.
Qed.

(** ** The requests of memory

    [uio_request u m r]: the request [r] stands for the kernel [uio] [u] in
    memory [m]; what a read has put into the region lies below its base. *)
Definition uio_request (u : uio) (m : machine) (r : request) : Prop :=
  rq_rw r = uio_rw_ u ∧ rq_offset r = uio_offset u ∧ rq_resid r = uio_resid u ∧
  (uio_rw_ u = UIO_WRITE → bytes_at (mem m) (iov_base u) (Z.to_nat (uio_resid u)) = Some (rq_in r)) ∧
  (uio_rw_ u = UIO_READ →
     bytes_at (mem m) (iov_base u - Z.of_nat (length (rq_out r))) (length (rq_out r)) = Some (rq_out r)).

Lemma bytes_at_overwrite h a n buf bs :
  bytes_at h a n = Some buf → (length bs ≤ n)%nat →
  bytes_at (write_at h a bs) a n = Some (bs ++ drop (length bs) buf).
Proof.
  intros [Hl Hk]%bytes_at_Some Hle. apply bytes_at_Some. split; [rewrite length_app, length_drop; lia|].
  intros k Hlt. rewrite write_at_lookup. case_decide as Hin.
  - rewrite lookup_app_l by lia. f_equal. lia.
  - rewrite lookup_app_r, lookup_drop by lia. rewrite Hk by lia. f_equal. lia.
Qed.
Lemma bytes_at_extend h a xs ys :
  bytes_at h a (length xs) = Some xs → bytes_at (write_at h (a + Z.of_nat (length xs)) ys) a (length (xs ++ ys)) = Some (xs ++ ys).
Proof.
  intros [_ Hk]%bytes_at_Some. apply bytes_at_Some. split; [done|]. intros k Hlt. rewrite length_app in Hlt.
  rewrite write_at_lookup. case_decide as Hin.
  - rewrite lookup_app_r by lia. f_equal. lia.
  - rewrite lookup_app_l by lia. apply Hk. lia.
Qed.

Section UioRequest.
  Context (t_vmspace : option nat) (u : uio) (ptr n : Z) (buf : list Z) (r : request) (m : machine) (o : oracle).
  Context (Hu : uio_ok u n) (Hn : 0 ≤ n) (Hseg : uio_segflg u = UIO_SYSSPACE) (Hsp : uio_space u = None).
  Context (Hr : uio_request u m r) (Hnf : rq_faults r = []).
  Context (Hp : USERTOP ≤ ptr) (Hpn : ptr + n < 2 ^ 32) (Hb : USERTOP ≤ iov_base u - Z.of_nat (length (rq_out r))).
  Context (Hdis : iov_base u + uio_resid u ≤ ptr ∨ ptr + n ≤ iov_base u - Z.of_nat (length (rq_out r))).
  Context (Hmap : mapped m (iov_base u) (uio_resid u)) (Hbuf : bytes_at (mem m) ptr (Z.to_nat n) = Some buf).
Let t := amount u n.
Lemma request_amount :
  0 ≤ t ≤ n ∧ t ≤ uio_resid u ∧ 0 ≤ uio_offset u ∧ uio_offset u + uio_resid u < 2 ^ 31 ∧ 0 ≤ iov_base u ∧
  iov_base u + t < 2 ^ 32 ∧ Z.of_nat (length buf) = n ∧ Z.min (Z.of_nat (length buf)) (rq_resid r) = t.
Proof using All.
  pose proof Hu as ((? & ? & ?) & ? & ? & ? & ? & ?). apply bytes_at_length in Hbuf as Hlen.
  destruct Hr as (_ & _ & Hres & _). unfold t, amount. lia.
Qed.
Lemma request_read :
  uio_rw_ u = UIO_READ →
  wp (uiomove t_vmspace ptr n u) (λ '(e, u') m' _,
    wp (rq_uiomove buf) (λ '(e', buf') r' _,
      e' = e ∧ uio_request u' m' r' ∧ bytes_at (mem m') ptr (Z.to_nat n) = Some buf') r o) m o.
Proof using All.
  intros Hrwu. destruct Hr as (Hrw & Hoff & Hres & _ & Hout). specialize (Hout Hrwu).
  pose proof request_amount as (Ht & Htr & H1 & H2 & H3 & H4 & Hlen & Hmin).
  pose proof (uiomove_kernel t_vmspace u ptr n m (take (Z.to_nat t) buf) o Hu Hn Hseg Hsp) as Hmv.
  unfold mover in Hmv. rewrite Hrwu in Hmv.
  eapply wp_mono; [apply Hmv; try (unfold t, no_wrap, USERTOP, MIPS_KSEG0 in *; lia)|].
  { eapply bytes_at_prefix; [exact Hbuf|fold t; lia]. }
  { eapply bytes_at_prefix_is_Some; [exact Hmap|fold t; lia]. }
  fold t. clear Hmv. cbn beta. intros [e u'] m' o' ([= -> ->] & _ & ->).
  rewrite (advance_eq u t n Hu) by lia. unfold with_mem. cbn [mem].
  assert (length (take (Z.to_nat t) buf) = Z.to_nat t) as Hlt by (rewrite length_take; lia).
  assert (bytes_at (write_at (mem m) (iov_base u) (take (Z.to_nat t) buf)) ptr (Z.to_nat n) = Some buf) as Hkeep.
  { rewrite bytes_at_write_ne; [done|]. intros k Hk. rewrite Hlt. lia. }
  pose proof (bytes_at_extend (mem m) (iov_base u - Z.of_nat (length (rq_out r))) _ (take (Z.to_nat t) buf) Hout) as He.
  rewrite Z.sub_add in He. unfold rq_uiomove. wp_step. wp_step. rewrite Hmin, Hnf. simpl. destruct (Z.leb_spec t 0).
  - wp_step. assert (t = 0) as Ht0 by lia. rewrite Ht0 in *. change (take (Z.to_nat 0) buf) with (@nil Z) in *.
    rewrite app_nil_r in He. unfold uio_request. split_and!; try done; simpl; rewrite ?Z.add_0_r, ?Z.sub_0_r; try done; congruence.
  - rewrite Hrw, Hrwu. wp_run. unfold uio_request. split_and!; simpl; try done.
    + rewrite s32_small by lia. lia.
    + rewrite u32_small by lia. lia.
    + intros _. rewrite <- He. f_equal. rewrite length_app, Hlt. lia.
Qed.
Lemma request_write :
  uio_rw_ u = UIO_WRITE →
  wp (uiomove t_vmspace ptr n u) (λ '(e, u') m' _,
    wp (rq_uiomove buf) (λ '(e', buf') r' _,
      e' = e ∧ uio_request u' m' r' ∧ bytes_at (mem m') ptr (Z.to_nat n) = Some buf') r o) m o.
Proof using All.
  intros Hrwu. destruct Hr as (Hrw & Hoff & Hres & Hin & _). specialize (Hin Hrwu).
  apply bytes_at_length in Hin as Hlin.
  pose proof request_amount as (Ht & Htr & H1 & H2 & H3 & H4 & Hlen & Hmin).
  pose proof (uiomove_kernel t_vmspace u ptr n m (take (Z.to_nat t) (rq_in r)) o Hu Hn Hseg Hsp) as Hmv.
  unfold mover in Hmv. rewrite Hrwu in Hmv.
  eapply wp_mono; [apply Hmv; try (unfold t, no_wrap, USERTOP, MIPS_KSEG0 in *; lia)|].
  { eapply bytes_at_prefix; [exact Hin|fold t; lia]. }
  { eapply bytes_at_prefix_is_Some; [by eexists|fold t; lia]. }
  fold t. clear Hmv. cbn beta. intros [e u'] m' o' ([= -> ->] & _ & ->).
  rewrite (advance_eq u t n Hu) by lia. unfold with_mem. cbn [mem].
  assert (length (take (Z.to_nat t) (rq_in r)) = Z.to_nat t) as Hlt by (rewrite length_take; lia).
  assert (bytes_at (write_at (mem m) ptr (take (Z.to_nat t) (rq_in r))) (iov_base u + t) (Z.to_nat (uio_resid u - t)) =
            Some (drop (Z.to_nat t) (rq_in r))) as Hrest.
  { rewrite bytes_at_write_ne by (intros k Hk; rewrite Hlt; lia).
    pose proof (bytes_at_slice _ _ _ _ (Z.to_nat t) (Z.to_nat (uio_resid u - t)) Hin ltac:(lia)) as Hsl.
    rewrite Z2Nat.id in Hsl by lia. rewrite Hsl. f_equal. rewrite take_ge; [done|rewrite length_drop; lia]. }
  pose proof (bytes_at_overwrite _ _ _ _ (take (Z.to_nat t) (rq_in r)) Hbuf ltac:(lia)) as Hover.
  rewrite Hlt in Hover. unfold rq_uiomove. wp_step. wp_step. rewrite Hmin, Hnf. simpl. destruct (Z.leb_spec t 0).
  - wp_step. assert (t = 0) as Ht0 by lia. rewrite Ht0 in *. simpl in Hrest, Hover. rewrite drop_0 in *.
    unfold uio_request. split_and!; try done; simpl; rewrite ?Z.add_0_r, ?Z.sub_0_r in *; try done; congruence.
  - rewrite Hrw, Hrwu. destruct (Z.ltb_spec (Z.of_nat (length (rq_in r))) t); [lia|]. wp_run. unfold uio_request. split_and!; simpl; try done.
    + rewrite s32_small by lia. lia.
    + rewrite u32_small by lia. lia.
Qed.
End UioRequest.

(** [uiomove] does to a kernel request what [rq_uiomove] does to the
    request that stands for it: the same error, the same residue and offset,
    the same bytes in the buffer and in the region. *)
Theorem uiomove_request t_vmspace (u : uio) (ptr n : Z) (buf : list Z) (r : request) (m : machine) (o : oracle) :
  uio_ok u n → 0 ≤ n → uio_segflg u = UIO_SYSSPACE → uio_space u = None → uio_request u m r → rq_faults r = [] →
  USERTOP ≤ ptr → ptr + n < 2 ^ 32 → USERTOP ≤ iov_base u - Z.of_nat (length (rq_out r)) →
  iov_base u + uio_resid u ≤ ptr ∨ ptr + n ≤ iov_base u - Z.of_nat (length (rq_out r)) →
  mapped m (iov_base u) (uio_resid u) → bytes_at (mem m) ptr (Z.to_nat n) = Some buf →
  wp (uiomove t_vmspace ptr n u) (λ '(e, u') m' _,
    wp (rq_uiomove buf) (λ '(e', buf') r' _,
      e' = e ∧ uio_request u' m' r' ∧ bytes_at (mem m') ptr (Z.to_nat n) = Some buf') r o) m o.
Proof. intros. destruct (uio_rw_ u) eqn:Hrw; [by apply request_read|by apply request_write]. Qed.
Definition request_machine : machine :=
  mkMachine (write_at ∅ MIPS_KSEG0 [1; 2; 3; 4; 5; 6; 7; 8]) (λ _, AFault) (λ _, AFault) false.
Lemma uiomove_request_witness :
  wp (uiomove None MIPS_KSEG0 3 (mk_kuio (MIPS_KSEG0 + 4) 4 100 UIO_WRITE)) (λ '(e, u') m' _,
    wp (rq_uiomove [1; 2; 3]) (λ '(e', buf') r' _,
      e' = e ∧ uio_request u' m' r' ∧ bytes_at (mem m') MIPS_KSEG0 3 = Some buf')
      (mkRequest UIO_WRITE 100 4 [5; 6; 7; 8] [] []) []) request_machine [].
Proof.
  apply (uiomove_request None (mk_kuio (MIPS_KSEG0 + 4) 4 100 UIO_WRITE) MIPS_KSEG0 3 [1; 2; 3]);
    try (unfold uio_ok, no_wrap, USERTOP, MIPS_KSEG0; simpl; lia); try done.
  vm_compute. by eexists.
Defined.
