(* ===== verification/Disk.v ===== *)
(** * The hard disk driver, src/kern/dev/lamebus/lhd.c

    The hardware is behind the class [LhdHw]: an operation on a sector works
    on the on-card buffer and ends with a status code in an interrupt.  The
    driver is run by one thread at a time: a [P] that would have to wait for
    another thread does not come back. *)
From S2P Require Import Prelude Printf Uio Request.

(** ** Registers and status codes *)
Definition LHD_SECTSIZE : Z := 512.
Definition LHD_IDLE : Z := 0.
Definition LHD_WORKING : Z := 1.
Definition LHD_OK : Z := 4.
Definition LHD_INVSECT : Z := 12.
Definition LHD_MEDIA : Z := 20.
Definition LHD_ISWRITE : Z := 2.
Definition LHD_STATEMASK : Z := 0x1d.

(** [hw_io statval sector buf h]: an operation is started by writing
    [statval] to the status register; it ends with a new status, and the
    contents of the buffer. *)
Class LhdHw (H : Type) : Type := {
  hw_nsect : H → Z;
  hw_io : Z → Z → list Z → H → Z * list Z * H;
}.

(** A sector: 512 bytes *)
Definition byte_block (b : list Z) : Prop := length b = 512%nat ∧ Forall (λ x, 0 ≤ x < 256) b.

(** What the driver relies on: a read that ends with [LHD_OK] leaves the
    sector in the buffer, a write that ends with it puts the buffer in the
    sector, and no other sector changes; on a sector of the disk the other
    possible end is a media error, which reliable hardware does not report. *)
Class LhdLaws (H : Type) `{!LhdHw H} : Type := {
  hw_wf : H → Prop;
  hw_reliable : H → Prop;
  hw_sector : H → Z → list Z;
  hw_sector_block h i : hw_wf h → byte_block (hw_sector h i);
  hw_io_wf st i b h : hw_wf h → byte_block b →
    hw_wf (hw_io st i b h).2 ∧ byte_block (hw_io st i b h).1.2 ∧
    hw_nsect (hw_io st i b h).2 = hw_nsect h;
  hw_io_other st i b h j : j ≠ i → hw_sector (hw_io st i b h).2 j = hw_sector h j;
  hw_io_status st i b h : 0 ≤ i < hw_nsect h →
    Z.land (hw_io st i b h).1.1 LHD_STATEMASK = LHD_OK ∨
    Z.land (hw_io st i b h).1.1 LHD_STATEMASK = LHD_MEDIA;
  hw_io_reliable st i b h : hw_reliable h → 0 ≤ i < hw_nsect h →
    hw_reliable (hw_io st i b h).2 ∧ Z.land (hw_io st i b h).1.1 LHD_STATEMASK = LHD_OK;
  hw_read_keeps i b h : hw_sector (hw_io LHD_WORKING i b h).2 i = hw_sector h i;
  hw_read_ok i b h : Z.land (hw_io LHD_WORKING i b h).1.1 LHD_STATEMASK = LHD_OK →
    (hw_io LHD_WORKING i b h).1.2 = hw_sector h i;
  hw_write_ok i b h : byte_block b →
    Z.land (hw_io (Z.lor LHD_WORKING LHD_ISWRITE) i b h).1.1 LHD_STATEMASK = LHD_OK →
    hw_sector (hw_io (Z.lor LHD_WORKING LHD_ISWRITE) i b h).2 i = b;
}.

(** [struct lhd_softc] with its [struct device] *)
Record lhd_softc (H : Type) : Type := mkLhd {
  lh_hw : H;
  lh_buf : list Z;
  lh_result : Z;
  lh_clear : Z;
  lh_done : Z;
  d_blocks : Z;
}.
Arguments mkLhd {H} _ _ _ _ _ _.
Arguments lh_hw {H} _.
Arguments lh_buf {H} _.
Arguments lh_result {H} _.
Arguments lh_clear {H} _.
Arguments lh_done {H} _.
Arguments d_blocks {H} _.

Section Lhd.
  Context {H : Type} `{!LhdHw H}.
  Abbreviation lhd := (lhd_softc H).
  Implicit Types (d : lhd).

Definition set_hw (h : H) (b : list Z) d : lhd := mkLhd h b (lh_result d) (lh_clear d) (lh_done d) (d_blocks d).
Definition set_lhbuf (b : list Z) d : lhd := mkLhd (lh_hw d) b (lh_result d) (lh_clear d) (lh_done d) (d_blocks d).
Definition set_result (z : Z) d : lhd := mkLhd (lh_hw d) (lh_buf d) z (lh_clear d) (lh_done d) (d_blocks d).
Definition set_clear (z : Z) d : lhd := mkLhd (lh_hw d) (lh_buf d) (lh_result d) z (lh_done d) (d_blocks d).
Definition set_done (z : Z) d : lhd := mkLhd (lh_hw d) (lh_buf d) (lh_result d) (lh_clear d) z (d_blocks d).

Definition P_clear : K lhd unit := d <- kget; if lh_clear d =? 0 then halt Spin else kput (set_clear (lh_clear d - 1) d).
Definition V_clear : K lhd unit := d <- kget; kput (set_clear (lh_clear d + 1) d).
Definition P_done : K lhd unit := d <- kget; if lh_done d =? 0 then halt Spin else kput (set_done (lh_done d - 1) d).
Definition V_done : K lhd unit := d <- kget; kput (set_done (lh_done d + 1) d).

Definition lhd_code_to_errno (code : Z) : Z :=
  let c := Z.land code LHD_STATEMASK in
  if c =? LHD_OK then 0 else if c =? LHD_INVSECT then EINVAL else if c =? LHD_MEDIA then EIO else EAGAIN.
Definition lhd_iodone (err : Z) : K lhd unit :=
  _ <- modify (set_result err);
  V_done.
(** [val] is the status register. *)
Definition lhd_irq (val : Z) : K lhd unit :=
  let c := Z.land val LHD_STATEMASK in
  if (c =? LHD_OK) || (c =? LHD_INVSECT) || (c =? LHD_MEDIA)
  then lhd_iodone (lhd_code_to_errno val)
  else ret tt.
(** The operation is started and ends with an interrupt. *)
Definition lhd_operate (statval sector : Z) : K lhd unit :=
  d <- kget;
  let '(st, b, h) := hw_io statval sector (lh_buf d) (lh_hw d) in
  _ <- kput (set_hw h b d);
  lhd_irq st.

(** The request, next to the device *)
Definition on_dev {A} (m : K lhd A) : K (lhd * request) A := zoom fst (λ d s, (d, s.2)) m.
Definition on_req {S A} (m : K request A) : K (S * request) A := zoom snd (λ r s, (s.1, r)) m.

(** One sector: the body of the loop *)
Definition lhd_sector (statval sector : Z) : K (lhd * request) Z :=
  _ <- on_dev P_clear;
  s <- kget;
  result <-
    (if bool_decide (rq_rw s.2 = UIO_WRITE) then
       '(result, b) <- on_req (rq_uiomove (lh_buf s.1));
       _ <- on_dev (modify (set_lhbuf b));
       ret result
     else ret 0);
  if negb (result =? 0) then
    _ <- on_dev V_clear;
    ret result
  else
    _ <- on_dev (lhd_operate statval sector);
    _ <- on_dev P_done;
    result <- on_dev (gets lh_result);
    s <- kget;
    result <-
      (if (result =? 0) && bool_decide (rq_rw s.2 = UIO_READ) then
         '(result, _) <- on_req (rq_uiomove (lh_buf s.1));
         ret result
       else ret result);
    _ <- on_dev V_clear;
    ret result.
Fixpoint lhd_sectors (n : nat) (statval sector : Z) : K (lhd * request) Z :=
  match n with
  | O => ret 0
  | S n' =>
      result <- lhd_sector statval (u32 sector);
      if negb (result =? 0) then ret result else lhd_sectors n' statval (sector + 1)
  end.
Definition lhd_io : K (lhd * request) Z :=
  s <- kget;
  let sector := u32 (Z.quot (rq_offset s.2) LHD_SECTSIZE) in
  let sectoff := u32 (Z.rem (rq_offset s.2) LHD_SECTSIZE) in
  let len := rq_resid s.2 / LHD_SECTSIZE in
  let lenoff := rq_resid s.2 mod LHD_SECTSIZE in
  if negb (sectoff =? 0) || negb (lenoff =? 0) then ret EINVAL
  else if d_blocks s.1 <? u32 (sector + len) then ret EINVAL
  else
    let statval := if bool_decide (rq_rw s.2 = UIO_WRITE) then Z.lor LHD_WORKING LHD_ISWRITE else LHD_WORKING in
    lhd_sectors (Z.to_nat len) statval sector.

(** The device when it is idle *)
Definition idle_lhd (h : H) (buf : list Z) : lhd := mkLhd h buf 0 1 0 (hw_nsect h).
(** [sem_create] takes a block and a copy of the name. *)
Definition lhd_sem {S} (count : Z) : K S (option Z) :=
  ok <- kmalloc_ok;
  if negb ok then ret None
  else
    ok <- kmalloc_ok;
    if negb ok then ret None else ret (Some count).
(** "lhd%d" *)
Definition lhd_name : list Z := [108; 104; 100; 37; 100; 0].
(** [buf] is what is in the on-card buffer; the device is handed to
    [vfs_adddev] under its name. *)
Definition config_lhd {S} (h : H) (buf : list Z) (vfs_adddev : list Z → lhd → bool → K S Z) (lhdno : Z) : K S Z :=
  '(_, name) <- snprintf (replicate 32 0) 32 lhd_name [AInt lhdno];
  clear <- lhd_sem 1;
  match clear with
  | None => ret ENOMEM
  | Some clear =>
      done <- lhd_sem 0;
      match done with
      | None => ret ENOMEM
      | Some done => vfs_adddev name (mkLhd h buf 0 clear done (hw_nsect h)) true
      end
  end.
Definition lhd_open (openflags : Z) : Z := 0.
Definition lhd_close : Z := 0.
Definition lhd_ioctl (op : Z) : Z := EIOCTL.
End Lhd.

(** ** Requests for one sector *)
Section Spec.
  Context {H : Type} `{!LhdHw H, !LhdLaws H}.
  Abbreviation lhd := (lhd_softc H).
  Implicit Types (d : lhd).

Definition sec d (i : Z) : list Z := hw_sector (lh_hw d) i.
Definition reliable d : Prop := hw_reliable (lh_hw d).
(** An idle device, small enough for a signed offset *)
Record dev_ok d : Prop := {
  dv_wf : hw_wf (lh_hw d);
  dv_buf : byte_block (lh_buf d);
  dv_idle : lh_clear d = 1 ∧ lh_done d = 0;
  dv_blocks : d_blocks d = hw_nsect (lh_hw d);
  dv_small : 512 * d_blocks d < 2 ^ 31;
}.

Lemma sec_block d i : dev_ok d → byte_block (sec d i).
Proof. intros []. by apply hw_sector_block. Qed.

(** The hardware does an operation and the interrupt handler reports it. *)
Lemma wp_operate {A} st i d r (k : Z → K (lhd * request) A) Q o :
  lh_done d = 0 → 0 ≤ i < hw_nsect (lh_hw d) →
  (let '(st', b', h') := hw_io st i (lh_buf d) (lh_hw d) in
   ∀ res, (Z.land st' LHD_STATEMASK = LHD_OK ∧ res = 0) ∨ (Z.land st' LHD_STATEMASK = LHD_MEDIA ∧ res = EIO) →
     wp (k res) Q (mkLhd h' b' res (lh_clear d) 0 (d_blocks d), r) o) →
  wp (_ <- on_dev (lhd_operate st i); _ <- on_dev P_done; res <- on_dev (gets lh_result); k res) Q (d, r) o.
Proof.
  intros Hd Hi Hk. pose proof (hw_io_status st i (lh_buf d) (lh_hw d) Hi) as Hst.
  destruct (hw_io st i (lh_buf d) (lh_hw d)) as [[st' b'] h'] eqn:He. simpl in Hst.
  unfold on_dev, lhd_operate, lhd_irq, lhd_iodone, V_done, P_done, lhd_code_to_errno. do 4 wp_step. simpl.
  rewrite He. wp_step. wp_step. destruct Hst as [Hst|Hst]; rewrite Hst; simpl; wp_run; simpl; rewrite Hd; simpl; wp_run;
    apply Hk; [left|right]; done.
Qed.
Lemma wp_P_clear {A} (k : K (lhd * request) A) d r Q o :
  lh_clear d = 1 → wp k Q (set_clear 0 d, r) o → wp (_ <- on_dev P_clear; k) Q (d, r) o.
Proof. intros Hc Hk. unfold on_dev, P_clear. do 4 wp_step. simpl. rewrite Hc. simpl. by wp_run. Qed.

Lemma lhd_io_nothing d r o : dev_ok d → rq_resid r = 0 → 0 ≤ rq_offset r → rq_offset r mod 512 = 0 →
  rq_offset r ≤ 512 * d_blocks d →
  lhd_io (d, r) o = Done (0, (d, r), o).
Proof.
  intros [] Hr Ho Hm Hle. unfold lhd_io, kget, bind. simpl. rewrite Hr.
  rewrite Z.quot_div_nonneg, Z.rem_mod_nonneg by (unfold LHD_SECTSIZE; lia). unfold LHD_SECTSIZE. rewrite Hm. simpl.
  rewrite Z.add_0_r. assert (0 ≤ rq_offset r / 512 ≤ d_blocks d).
  { split; [apply Z.div_pos; lia|]. apply Z.div_le_upper_bound; lia. }
  rewrite !u32_small by (rewrite ?u32_small; lia). destruct (Z.ltb_spec (d_blocks d) (rq_offset r / 512)); [lia|done].
Qed.
(** A request for sector [i] goes to the loop with one sector. *)
Lemma lhd_io_one d r i (Q : Z → lhd * request → oracle → Prop) o :
  dev_ok d → rq_resid r = 512 → rq_offset r = 512 * i → 0 ≤ i < d_blocks d →
  wp (lhd_sector (if bool_decide (rq_rw r = UIO_WRITE) then 3 else 1) i) Q (d, r) o → wp lhd_io Q (d, r) o.
Proof.
  intros [] Hr Ho Hi HQ. unfold lhd_io. wp_step. wp_step. simpl. rewrite Hr, Ho.
  rewrite Z.quot_div_nonneg, Z.rem_mod_nonneg by (unfold LHD_SECTSIZE; lia). unfold LHD_SECTSIZE.
  rewrite (Z.mul_comm 512 i), Z.mod_mul, Z.div_mul by lia. simpl. change (512 / 512) with 1.
  rewrite (u32_small i) by lia. rewrite (u32_small i), (u32_small (i + 1)) by lia.
  destruct (Z.ltb_spec (d_blocks d) (i + 1)); [lia|]. wp_step. change (Z.lor LHD_WORKING LHD_ISWRITE) with 3. change LHD_WORKING with 1.
  eapply wp_mono; [exact HQ|]. cbn beta. intros res s' o' HQ'. destruct (Z.eqb_spec res 0) as [->|]; simpl; wp_step; done.
Qed.

Lemma lhd_io_read d r i o :
  dev_ok d → rq_rw r = UIO_READ → no_faults r → rq_resid r = 512 → rq_offset r = 512 * i → 0 ≤ i < d_blocks d →
  wp lhd_io (λ res s' o', o' = o ∧ dev_ok s'.1 ∧ d_blocks s'.1 = d_blocks d ∧ (∀ j, sec s'.1 j = sec d j) ∧
    (reliable d → reliable s'.1 ∧ res = 0) ∧
    ((res = 0 ∧ no_faults s'.2 ∧ rq_rw s'.2 = UIO_READ ∧ rq_offset s'.2 = rq_offset r + 512 ∧ rq_resid s'.2 = 0 ∧
      rq_in s'.2 = rq_in r ∧ rq_out s'.2 = rq_out r ++ sec d i) ∨
     (res = EIO ∧ s'.2 = r))) (d, r) o.
Proof.
  intros Hd Hrw Hnf Hres Hoff Hi. eapply lhd_io_one; [done..|]. rewrite Hrw. cbn [bool_decide].
  pose proof Hd as [Hwf Hbuf [Hcl Hdn] Hbl Hsm]. unfold lhd_sector. apply wp_P_clear; [done|].
  wp_step. wp_step. simpl. rewrite Hrw. cbn [bool_decide]. wp_step. wp_step. cbn [Z.eqb negb].
  apply wp_operate; [done|simpl; lia|]. simpl.
  pose proof (hw_io_wf 1 i (lh_buf d) (lh_hw d) Hwf Hbuf) as (Hwf' & Hbuf' & Hns).
  pose proof (hw_read_keeps i (lh_buf d) (lh_hw d)) as Hsame. pose proof (hw_io_other 1 i (lh_buf d) (lh_hw d)) as Hother.
  pose proof (hw_read_ok i (lh_buf d) (lh_hw d)) as Hok. pose proof (hw_io_reliable 1 i (lh_buf d) (lh_hw d)) as Hrel.
  change LHD_WORKING with 1 in *. destruct (hw_io 1 i (lh_buf d) (lh_hw d)) as [[st b] h]. simpl in *.
  assert (∀ res, dev_ok (mkLhd h b res 1 0 (d_blocks d))) as Hdev by (intros; split; simpl; try done; congruence).
  assert (∀ res j, sec (mkLhd h b res 1 0 (d_blocks d)) j = sec d j) as Hsec.
  { intros res j. unfold sec. simpl. destruct (decide (j = i)) as [->|]; [done|by apply Hother]. }
  intros res [[Hst ->]|[Hst ->]].
  - rewrite (Hok Hst) in *. wp_step. wp_step. simpl. rewrite Hrw. cbn [bool_decide]. unfold on_req. wp_step. wp_step. wp_step.
    assert (byte_block (hw_sector (lh_hw d) i)) as [Hlen _] by by apply hw_sector_block.
    cbn [fst snd]. wp_call rq_read; [done..|rewrite Hlen; lia|lia|rewrite Hlen; lia|]. intros [res bf] r' o' ([= -> ->] & -> & Hr').
    unfold on_dev, V_clear. wp_run. cbn [fst snd set_clear lh_hw lh_buf lh_result lh_clear lh_done d_blocks].
    change (0 + 1) with 1. split_and!; try done; try apply Hdev; try apply Hsec.
    + intros Hre. destruct Hrel as [? _]; [done|lia|]. done.
    + left. rewrite Hlen, Hoff in Hr'. destruct Hr' as (? & ? & ? & ? & ? & ?). split_and!; try done; lia.
  - wp_step. wp_step. cbn [Z.eqb EIO andb]. wp_step. wp_step. unfold on_dev, V_clear. wp_run. cbn [fst snd set_clear lh_hw lh_buf lh_result lh_clear lh_done d_blocks].
    change (0 + 1) with 1. split_and!; try done; try apply Hdev; try apply Hsec.
    + intros Hre. destruct Hrel as [_ Hst']; [done|lia|]. by rewrite Hst in Hst'.
    + by right.
Qed.
Lemma lhd_io_write d r i o :
  dev_ok d → rq_rw r = UIO_WRITE → no_faults r → rq_resid r = 512 → rq_offset r = 512 * i → 0 ≤ i < d_blocks d →
  512 ≤ Z.of_nat (length (rq_in r)) → Forall (λ x, 0 ≤ x < 256) (take 512 (rq_in r)) →
  wp lhd_io (λ res s' o', o' = o ∧ dev_ok s'.1 ∧ d_blocks s'.1 = d_blocks d ∧ (∀ j, j ≠ i → sec s'.1 j = sec d j) ∧
    (reliable d → reliable s'.1 ∧ res = 0) ∧
    no_faults s'.2 ∧ rq_rw s'.2 = UIO_WRITE ∧ rq_offset s'.2 = rq_offset r + 512 ∧ rq_resid s'.2 = 0 ∧
    rq_in s'.2 = drop 512 (rq_in r) ∧ rq_out s'.2 = rq_out r ∧
    lh_hw s'.1 = (hw_io 3 i (take 512 (rq_in r)) (lh_hw d)).2 ∧
    (Z.land (hw_io 3 i (take 512 (rq_in r)) (lh_hw d)).1.1 LHD_STATEMASK = LHD_MEDIA → res = EIO) ∧
    ((res = 0 ∧ sec s'.1 i = take 512 (rq_in r)) ∨ res = EIO)) (d, r) o.
Proof.
  intros Hd Hrw Hnf Hres Hoff Hi Hin Hby. eapply lhd_io_one; [done..|]. rewrite Hrw. cbn [bool_decide].
  pose proof Hd as [Hwf Hbuf [Hcl Hdn] Hbl Hsm]. unfold lhd_sector. apply wp_P_clear; [done|].
  wp_step. wp_step. simpl. rewrite Hrw. cbn [bool_decide]. wp_step. wp_step. unfold on_req. wp_step.
  pose proof Hbuf as [Hlen _].
  cbn [fst snd]. wp_call rq_write; [done..|rewrite Hlen; lia|lia|lia|rewrite Hlen; lia|]. intros [res bf] r' o' ([= -> ->] & -> & Hr').
  rewrite Hlen, Hoff in *. unfold on_dev at 1. wp_run. cbn [Z.eqb negb]. simpl.
  set (b0 := take 512 (rq_in r)) in *.
  assert (byte_block b0) as Hb0. { split; [|done]. unfold b0. rewrite length_take. lia. }
  apply wp_operate; [done|simpl; lia|]. simpl.
  pose proof (hw_io_wf 3 i b0 (lh_hw d) Hwf Hb0) as (Hwf' & Hbuf' & Hns).
  pose proof (hw_io_other 3 i b0 (lh_hw d)) as Hother.
  pose proof (hw_write_ok i b0 (lh_hw d) Hb0) as Hok. pose proof (hw_io_reliable 3 i b0 (lh_hw d)) as Hrel.
  change (Z.lor LHD_WORKING LHD_ISWRITE) with 3 in *. destruct (hw_io 3 i b0 (lh_hw d)) as [[st b] h]. simpl in *.
  assert (∀ res, dev_ok (mkLhd h b res 1 0 (d_blocks d))) as Hdev by (intros; split; simpl; try done; congruence).
  destruct Hr' as (? & Hrw' & ? & ? & ? & ?).
  assert (∀ res, res = 0 ∨ res = EIO → ((res =? 0) && bool_decide (UIO_WRITE = UIO_READ)) = false) as Hno.
  { intros. by rewrite bool_decide_eq_false_2, andb_false_r. }
  intros res Hcase. wp_step. wp_step. simpl. rewrite Hrw', Hno by naive_solver. wp_step. wp_step.
  unfold on_dev, V_clear. wp_run. cbn [fst snd set_clear lh_hw lh_buf lh_result lh_clear lh_done d_blocks].
    change (0 + 1) with 1. split_and!; try done; try apply Hdev; try apply Hsec; try lia.
  - intros Hre. destruct Hrel as [? Hst']; [done|lia|]. destruct Hcase as [[_ ->]|[Hst _]]; [done|]. by rewrite Hst in Hst'.
  - intros Hst'. destruct Hcase as [[Hst ->]|[_ ->]]; [|done]. by rewrite Hst in Hst'.
  - destruct Hcase as [[Hst ->]|[_ ->]]; [left|by right]. split; [done|]. by apply Hok.
Qed.
End Spec.

(** ** A disk that answers as it is told

    The statuses to come are part of its state; after them all is well. *)
Module SimDisk.
Record simdisk : Type := mkSim { sd_sectors : gmap Z (list Z); sd_nsect : Z; sd_status : list Z }.
Definition sd_sector (h : simdisk) (i : Z) : list Z := default (replicate 512 0) (sd_sectors h !! i).
Definition sd_io (statval i : Z) (b : list Z) (h : simdisk) : Z * list Z * simdisk :=
  let st := default LHD_OK (head (sd_status h)) in
  let st := if bool_decide (st = LHD_MEDIA) then LHD_MEDIA else LHD_OK in
  if st =? LHD_OK then
    if statval =? LHD_WORKING
    then (st, sd_sector h i, mkSim (sd_sectors h) (sd_nsect h) (tail (sd_status h)))
    else (st, b, mkSim (<[i := b]> (sd_sectors h)) (sd_nsect h) (tail (sd_status h)))
  else (st, b, mkSim (sd_sectors h) (sd_nsect h) (tail (sd_status h))).
#[export] Instance simdisk_hw : LhdHw simdisk := { hw_nsect := sd_nsect; hw_io := sd_io }.

Definition sd_wf (h : simdisk) : Prop := ∀ i b, sd_sectors h !! i = Some b → byte_block b.
Definition sd_reliable (h : simdisk) : Prop := Forall (λ st, st = LHD_OK) (sd_status h).
Lemma zero_block : byte_block (replicate 512 0).
Proof. split; [by rewrite length_replicate|]. apply Forall_replicate. lia. Qed.
Lemma sd_sector_block h i : sd_wf h → byte_block (sd_sector h i).
Proof.
  unfold sd_sector. intros Hwf. destruct (sd_sectors h !! i) eqn:Hi; simpl; [by eapply Hwf|apply zero_block].
Qed.
Lemma sd_io_cases st i b h (R : Z * list Z * simdisk → Prop) :
  (st = LHD_WORKING → R (LHD_OK, sd_sector h i, mkSim (sd_sectors h) (sd_nsect h) (tail (sd_status h)))) →
  (st ≠ LHD_WORKING → R (LHD_OK, b, mkSim (<[i := b]> (sd_sectors h)) (sd_nsect h) (tail (sd_status h)))) →
  (¬ sd_reliable h → R (LHD_MEDIA, b, mkSim (sd_sectors h) (sd_nsect h) (tail (sd_status h)))) →
  R (sd_io st i b h).
Proof.
  intros H1 H2 H3. unfold sd_io. destruct (decide (default LHD_OK (head (sd_status h)) = LHD_MEDIA)) as [He|Hne].
  - rewrite bool_decide_eq_true_2 by done. apply H3. unfold sd_reliable. destruct (sd_status h); [done|].
    simpl in He. intros Hr. apply Forall_cons in Hr as [-> _]. done.
  - rewrite bool_decide_eq_false_2 by done. simpl. destruct (Z.eqb_spec st LHD_WORKING); auto.
Qed.
#[local] Ltac by_cases :=
  cbn [hw_io hw_nsect simdisk_hw];
  match goal with |- context [sd_io ?st ?i ?b ?h] => pattern (sd_io st i b h) end;
  apply sd_io_cases; cbn [fst snd].
#[export, refine] Instance simdisk_laws : LhdLaws simdisk := {
  hw_wf := sd_wf;
  hw_reliable := sd_reliable;
  hw_sector := sd_sector;
}.
Proof.
  - intros h i. apply sd_sector_block.
  - intros st i b h Hwf Hb. by_cases; intros _; split_and!; try done.
    + by apply sd_sector_block.
    + intros j c. simpl. rewrite lookup_insert. case_decide; [by intros [= <-]|apply Hwf].
  - intros st i b h j Hne. by_cases; intros; try done. unfold sd_sector. simpl. by rewrite lookup_insert_ne.
  - intros st i b h _. by_cases; intros; [by left|by left|by right].
  - intros st i b h Hr _. assert (∀ m n, sd_reliable (mkSim m n (tail (sd_status h)))) as Ht.
    { unfold sd_reliable in *. simpl. destruct (sd_status h); [done|]. by apply Forall_cons in Hr as [_ ?]. }
    by_cases; intros; done.
  - intros i b h. by_cases; intros; done.
  - intros i b h. by_cases; intros; done.
  - intros i b h Hb. by_cases; intros; try done. unfold sd_sector. simpl. by rewrite lookup_insert_eq.
Defined.
End SimDisk.
