(* ===== verification/SfsFormat.v ===== *)
(** * What is on an SFS disk, src/kern/include/kern/sfs.h

    The structures that are read and written as blocks, in the byte order of
    the machine (big-endian), with their sizes and round trips. *)
From S2P Require Import Prelude Uio Request Disk.

Definition SFS_MAGIC : Z := 0xabadf001.
Definition SFS_BLOCKSIZE : Z := 512.
Definition SFS_VOLNAME_SIZE : Z := 32.
Definition SFS_NDIRECT : Z := 15.
Definition SFS_DBPERIDB : Z := 128.
Definition SFS_NAMELEN : Z := 60.
Definition SFS_SB_LOCATION : Z := 0.
Definition SFS_ROOT_LOCATION : Z := 1.
Definition SFS_MAP_LOCATION : Z := 2.
Definition SFS_NOINO : Z := 0.
Definition SFS_BLOCKBITS : Z := 4096.
Definition SFS_TYPE_INVAL : Z := 0.
Definition SFS_TYPE_FILE : Z := 1.
Definition SFS_TYPE_DIR : Z := 2.
Definition SFS_ROUNDUP (a b : Z) : Z := u32 (u32 (u32 (a + b) - 1) / b * b).
Definition SFS_BITMAPSIZE (nblocks : Z) : Z := SFS_ROUNDUP nblocks SFS_BLOCKBITS.
Definition SFS_BITBLOCKS (nblocks : Z) : Z := SFS_BITMAPSIZE nblocks / SFS_BLOCKBITS.

Record sfs_super : Type := mkSuper {
  sp_magic : Z;
  sp_nblocks : Z;
  sp_volname : list Z;
  sp_reserved : list Z;
}.
Record sfs_inode : Type := mkInode {
  sfi_size : Z;
  sfi_type : Z;
  sfi_linkcount : Z;
  sfi_direct : list Z;
  sfi_indirect : Z;
  sfi_waste : list Z;
}.
Record sfs_dir : Type := mkDir {
  sfd_ino : Z;
  sfd_name : list Z;
}.
(** [sizeof(struct sfs_dir)] *)
Definition SFS_DIRSIZE : Z := 64.

(** ** Words *)
Fixpoint be_bytes (n : nat) (z : Z) : list Z :=
  match n with
  | O => []
  | S n' => (z / 256 ^ Z.of_nat n') mod 256 :: be_bytes n' z
  end.
Definition be_value (bs : list Z) : Z := foldl (λ acc b, acc * 256 + b) 0 bs.
Fixpoint words_of (bs : list Z) : list Z :=
  match bs with
  | a :: b :: c :: d :: bs' => be_value [a; b; c; d] :: words_of bs'
  | _ => []
  end.
Fixpoint bytes_of (ws : list Z) : list Z :=
  match ws with
  | [] => []
  | w :: ws' => be_bytes 4 w ++ bytes_of ws'
  end.

(** ** The structures as blocks *)
Definition encode_inode (i : sfs_inode) : list Z :=
  bytes_of (sfi_size i :: sfi_type i * 65536 + sfi_linkcount i :: sfi_direct i ++ sfi_indirect i :: sfi_waste i).
Definition decode_inode (b : list Z) : sfs_inode :=
  let ws := words_of b in
  let tl := default 0 (ws !! 1%nat) in
  mkInode (default 0 (ws !! 0%nat)) (tl / 65536) (tl mod 65536) (take 15 (drop 2 ws))
    (default 0 (ws !! 17%nat)) (drop 18 ws).
Definition encode_super (s : sfs_super) : list Z :=
  be_bytes 4 (sp_magic s) ++ be_bytes 4 (sp_nblocks s) ++ sp_volname s ++ sp_reserved s.
Definition decode_super (b : list Z) : sfs_super :=
  mkSuper (be_value (take 4 b)) (be_value (take 4 (drop 4 b))) (take 32 (drop 8 b)) (drop 40 b).
Definition encode_dir (d : sfs_dir) : list Z := be_bytes 4 (sfd_ino d) ++ sfd_name d.
Definition decode_dir (b : list Z) : sfs_dir := mkDir (be_value (take 4 b)) (take 60 (drop 4 b)).

#[global] Arguments encode_inode : simpl never.
#[global] Arguments decode_inode : simpl never.
#[global] Arguments encode_dir : simpl never.
#[global] Arguments decode_dir : simpl never.

Definition word (z : Z) : Prop := 0 ≤ z < 2 ^ 32.
Definition half (z : Z) : Prop := 0 ≤ z < 2 ^ 16.
Definition byte (z : Z) : Prop := 0 ≤ z < 256.
Record inode_ok (i : sfs_inode) : Prop := {
  io_size : word (sfi_size i);
  io_type : half (sfi_type i);
  io_linkcount : half (sfi_linkcount i);
  io_direct : length (sfi_direct i) = 15%nat ∧ Forall word (sfi_direct i);
  io_indirect : word (sfi_indirect i);
  io_waste : length (sfi_waste i) = 110%nat ∧ Forall word (sfi_waste i);
}.
Definition dir_ok (d : sfs_dir) : Prop := word (sfd_ino d) ∧ length (sfd_name d) = 60%nat ∧ Forall byte (sfd_name d).

(** ** Round trips *)
Lemma length_be_bytes n z : length (be_bytes n z) = n.
Proof. induction n; simpl; congruence. Qed.
Lemma be_bytes_range n z : Forall byte (be_bytes n z).
Proof. induction n; simpl; constructor; [|done]. unfold byte. apply Z.mod_pos_bound. lia. Qed.
Lemma be_word z : word z → be_value (be_bytes 4 z) = z.
Proof.
  unfold word, be_value. intros Hz. cbn [be_bytes foldl].
  change (256 ^ Z.of_nat 3) with 16777216. change (256 ^ Z.of_nat 2) with 65536.
  change (256 ^ Z.of_nat 1) with 256. change (256 ^ Z.of_nat 0) with 1. rewrite Z.div_1_r.
  Z.to_euclidean_division_equations; lia.
Qed.
Lemma be_unword a b c d :
  byte a → byte b → byte c → byte d → be_bytes 4 (be_value [a; b; c; d]) = [a; b; c; d] ∧ word (be_value [a; b; c; d]).
Proof.
  unfold word, byte, be_value. intros. cbn [be_bytes foldl].
  change (256 ^ Z.of_nat 3) with 16777216. change (256 ^ Z.of_nat 2) with 65536.
  change (256 ^ Z.of_nat 1) with 256. change (256 ^ Z.of_nat 0) with 1. rewrite Z.div_1_r.
  split; [|lia]. repeat f_equal; Z.to_euclidean_division_equations; lia.
Qed.
Lemma words_bytes ws : Forall word ws → words_of (bytes_of ws) = ws.
Proof.
  induction 1 as [|w ws Hw Hws IH]; [done|]. cbn [bytes_of].
  change (words_of (be_bytes 4 w ++ bytes_of ws)) with (be_value (be_bytes 4 w) :: words_of (bytes_of ws)).
  by rewrite be_word, IH.
Qed.
Lemma length_bytes_of ws : length (bytes_of ws) = (4 * length ws)%nat.
Proof. induction ws as [|w ws IH]; [done|]. simpl in *. lia. Qed.
Lemma bytes_of_range ws : Forall byte (bytes_of ws).
Proof. induction ws; [done|]. cbn [bytes_of]. apply Forall_app. split; [apply be_bytes_range|done]. Qed.
Lemma bytes_words n bs :
  length bs = (4 * n)%nat → Forall byte bs →
  bytes_of (words_of bs) = bs ∧ length (words_of bs) = n ∧ Forall word (words_of bs).
Proof.
  revert bs. induction n as [|n IH]; intros bs Hl Hb.
  { destruct bs; [done|]. simpl in Hl. lia. }
  destruct bs as [|a [|b [|c [|d bs]]]]; simpl in Hl; try lia.
  rewrite !Forall_cons in Hb. destruct Hb as (Ha & Hb & Hc & Hd & Hbs).
  destruct (IH bs) as (IH1 & IH2 & IH3); [lia|done|]. destruct (be_unword a b c d) as [Hw1 Hw2]; [done..|].
  cbn [words_of bytes_of length]. rewrite IH1, IH2, Hw1. split_and!; [done..|]. by constructor.
Qed.

Lemma half_word t l : half t → half l → word (t * 65536 + l).
Proof. unfold half, word. lia. Qed.
Lemma decode_encode_inode i : inode_ok i → decode_inode (encode_inode i) = i ∧ byte_block (encode_inode i).
Proof.
  intros [Hs Ht Hl [Hd1 Hd2] Hi [Hw1 Hw2]]. unfold encode_inode.
  set (ws := sfi_size i :: _ :: _ ++ _).
  assert (Forall word ws) as Hws.
  { unfold ws. rewrite !Forall_cons, Forall_app, Forall_cons. do 3 (split; [done || by apply half_word|]). done. }
  split.
  - unfold decode_inode. rewrite (words_bytes ws Hws). unfold ws. simpl. rewrite drop_0.
    rewrite take_app_le, take_ge by lia.
    rewrite lookup_app_r, Hd1 by lia. simpl. rewrite drop_app_ge, Hd1 by lia. simpl. rewrite drop_0.
    rewrite Z.div_add_l, (Z.div_small (sfi_linkcount i)), Z.add_0_r by (done || unfold half in *; lia).
    rewrite Z.add_comm, Z.mod_add, Z.mod_small by (done || unfold half in *; lia). by destruct i.
  - split; [|apply bytes_of_range]. rewrite length_bytes_of. unfold ws. simpl. rewrite length_app. simpl. lia.
Qed.
Lemma decode_inode_ok b : byte_block b → inode_ok (decode_inode b) ∧ encode_inode (decode_inode b) = b.
Proof.
  intros [Hl Hb]. destruct (bytes_words 128 b) as (H1 & H2 & H3); [done..|]. unfold decode_inode, encode_inode.
  set (ws := words_of b) in *. destruct ws as [|w0 [|w1 ws']] eqn:Hws; try done.
  assert (length ws' = 126%nat) as Hl' by (simpl in H2; lia). rewrite !Forall_cons in H3. destruct H3 as (Hw0 & Hw1 & Hws').
  destruct (lookup_lt_is_Some_2 ws' 15) as [w17 H17]; [lia|]. 
  assert (ws' = take 15 ws' ++ w17 :: drop 16 ws') as Hsplit by (symmetry; by apply take_drop_middle).
  assert ((w0 :: w1 :: ws') !! 17%nat = Some w17) as -> by done.
  change ((w0 :: w1 :: ws') !! 0%nat) with (Some w0). change ((w0 :: w1 :: ws') !! 1%nat) with (Some w1).
  change (drop 2 (w0 :: w1 :: ws')) with (drop 0 ws'). change (drop 18 (w0 :: w1 :: ws')) with (drop 16 ws').
  rewrite drop_0. cbn [default from_option id]. unfold word in Hw1. split.
  - split; cbn [sfi_size sfi_type sfi_linkcount sfi_direct sfi_indirect sfi_waste]; try done.
    + unfold half. split; [apply Z.div_pos; lia|]. apply Z.div_lt_upper_bound; lia.
    + unfold half. apply Z.mod_pos_bound. lia.
    + split; [rewrite length_take; lia|by apply Forall_take].
    + by eapply Forall_lookup_1 in H17.
    + split; [rewrite length_drop; lia|by apply Forall_drop].
  - rewrite <- H1. cbn [sfi_size sfi_type sfi_linkcount sfi_direct sfi_indirect sfi_waste]. f_equal. f_equal. f_equal; [|by rewrite <- Hsplit].
    pose proof (Z.div_mod w1 65536). lia.
Qed.
Lemma decode_encode_dir d : dir_ok d → decode_dir (encode_dir d) = d ∧ length (encode_dir d) = 64%nat ∧ Forall byte (encode_dir d).
Proof.
  intros (Hi & Hn & Hb). unfold encode_dir, decode_dir. split_and!.
  - rewrite take_app_length', drop_app_length' by by rewrite length_be_bytes. rewrite be_word, take_ge by (done || lia).
    by destruct d.
  - rewrite length_app, length_be_bytes. lia.
  - apply Forall_app. split; [apply be_bytes_range|done].
Qed.
Lemma decode_dir_ok b : length b = 64%nat → Forall byte b → dir_ok (decode_dir b) ∧ encode_dir (decode_dir b) = b.
Proof.
  intros Hl Hb. destruct b as [|b0 [|b1 [|b2 [|b3 b]]]]; try done. simpl in Hl.
  rewrite !Forall_cons in Hb. destruct Hb as (? & ? & ? & ? & Hb). destruct (be_unword b0 b1 b2 b3) as [Hu1 Hu2]; [done..|].
  unfold decode_dir, encode_dir. cbn [take drop sfd_ino sfd_name]. rewrite take_0, Hu1, drop_0, take_ge by lia.
  split; [|done]. split_and!; simpl; [done|lia|done].
Qed.
