(* ===== verification/Vnode.v ===== *)
(** * Vnodes, src/kern/fs/vfs/vnode.c, and the locks of one thread

    The file system code is run by one thread at a time.  A [ulock] is a lock
    of src/kern/thread/synch.c as that thread sees it: nobody else holds it or
    waits for it, and to acquire it twice is to wait forever. *)
From S2P Require Import Prelude Queue.

(** ** Locks *)
Record ulock : Type := mkUlock {
  ul_held : bool;
  ul_queue : bool; (** [wait_queue] is not [NULL] *)
}.
(** [kmalloc] and [kstrdup]; the result of [q_create] is not checked. *)
Definition ulock_create {S} : K S (option ulock) :=
  ok <- kmalloc_ok;
  if negb ok then ret None
  else
    ok <- kmalloc_ok;
    if negb ok then ret None
    else
      q <- q_create (V := Z) 10;
      ret (Some (mkUlock false (bool_decide (is_Some q)))).
Definition ulock_acquire : K ulock unit :=
  l <- kget;
  if ul_held l then halt Spin else kput (mkUlock true (ul_queue l)).
Definition ulock_release : K ulock unit :=
  l <- kget;
  _ <- kassert (ul_held l);
  if ul_queue l then kput (mkUlock false (ul_queue l)) else halt Fault.
Definition ulock_destroy : K ulock unit :=
  l <- kget;
  _ <- kassert (negb (ul_held l));
  if ul_queue l then ret tt else halt Fault.

(** ** Vnodes *)
Inductive vnode_ops : Set := sfs_fileops | sfs_dirops | dev_vnode_ops.
#[global] Instance vnode_ops_eq : EqDecision vnode_ops.
Proof. solve_decision. Defined.

Record vnode : Type := mkVnode {
  vn_refcount : Z;
  vn_opencount : Z;
  vn_countlock : option ulock;
  vn_ops : option vnode_ops;
}.
Definition set_refcount (z : Z) (v : vnode) : vnode := mkVnode z (vn_opencount v) (vn_countlock v) (vn_ops v).
Definition set_opencount (z : Z) (v : vnode) : vnode := mkVnode (vn_refcount v) z (vn_countlock v) (vn_ops v).
Definition set_countlock (l : option ulock) (v : vnode) : vnode :=
  mkVnode (vn_refcount v) (vn_opencount v) l (vn_ops v).
Definition on_countlock {A} (m : K ulock A) : K vnode A :=
  v <- kget;
  l <- deref (vn_countlock v);
  '(a, l') <- run_on m l;
  _ <- kput (set_countlock (Some l') v);
  ret a.

(** The result, and the vnode *)
Definition vnode_init {S} (ops : vnode_ops) : K S (Z * vnode) :=
  l <- ulock_create;
  ret (if bool_decide (l = None) then ENOMEM else 0, mkVnode 1 0 l (Some ops)).
Definition vnode_kill : K vnode unit :=
  v <- kget;
  _ <- kassert (vn_refcount v =? 1);
  _ <- kassert (vn_opencount v =? 0);
  _ <- kassert (bool_decide (vn_countlock v ≠ None));
  _ <- on_countlock ulock_destroy;
  kput (mkVnode 0 0 None None).
Definition vnode_incref : K vnode unit :=
  _ <- on_countlock ulock_acquire;
  _ <- modify (λ v, set_refcount (s32 (vn_refcount v + 1)) v);
  on_countlock ulock_release.
(** the part of [vnode_decref] under the lock: is the vnode to be reclaimed? *)
Definition vnode_drop : K vnode bool :=
  _ <- on_countlock ulock_acquire;
  v <- kget;
  _ <- kassert (0 <? vn_refcount v);
  let actually_do_it := negb (1 <? vn_refcount v) in
  _ <- (if 1 <? vn_refcount v then modify (set_refcount (vn_refcount v - 1)) else ret tt);
  _ <- on_countlock ulock_release;
  ret actually_do_it.
Definition vnode_incopen : K vnode unit :=
  _ <- on_countlock ulock_acquire;
  _ <- modify (λ v, set_opencount (s32 (vn_opencount v + 1)) v);
  on_countlock ulock_release.
(** the part of [vnode_decopen] under the lock: the new count *)
Definition vnode_dropopen : K vnode Z :=
  _ <- on_countlock ulock_acquire;
  v <- kget;
  _ <- kassert (0 <? vn_opencount v);
  let opencount := vn_opencount v - 1 in
  _ <- modify (set_opencount opencount);
  _ <- on_countlock ulock_release;
  ret opencount.
(** [reclaim]: the operation is [reclaim]; what is only reported is left out. *)
Definition vnode_check (reclaim : bool) : K vnode unit :=
  v <- kget;
  _ <- kassert (bool_decide (vn_ops v ≠ None));
  _ <- on_countlock ulock_acquire;
  _ <- kassert (negb (vn_refcount v <? 0));
  _ <- kassert (negb ((vn_refcount v =? 0) && negb reclaim));
  _ <- kassert (negb (vn_opencount v <? 0));
  on_countlock ulock_release.

(** The operations that may call back into the file system: [on] runs the
    part that works on the vnode, [VOP_RECLAIM] and [VOP_CLOSE] are its
    operations. *)
Section Callbacks.
  Context {S : Type} (on : ∀ A, K vnode A → K S A).
Definition vnode_decref (VOP_RECLAIM : K S Z) : K S unit :=
  actually_do_it <- on _ vnode_drop;
  if actually_do_it : bool then
    _ <- VOP_RECLAIM;
    ret tt
  else ret tt.
Definition vnode_decopen (VOP_CLOSE : K S Z) : K S unit :=
  opencount <- on _ vnode_dropopen;
  if 0 <? opencount then ret tt
  else
    _ <- VOP_CLOSE;
    ret tt.
End Callbacks.

(** ** A vnode in use *)
Record vnode_live (v : vnode) : Prop := {
  vl_refs : 0 < vn_refcount v < 2 ^ 31 - 1;
  vl_opens : 0 ≤ vn_opencount v < 2 ^ 31 - 1;
  vl_lock : vn_countlock v = Some (mkUlock false true);
  vl_ops : vn_ops v ≠ None;
}.
Lemma wp_countlock {A} (m : K ulock A) v l Q o :
  vn_countlock v = Some l →
  wp m (λ a l' o', Q a (set_countlock (Some l') v) o') l o → wp (on_countlock m) Q v o.
Proof.
  intros Hl Hm. unfold on_countlock, wp, bind, kget, run_on, deref in *. rewrite Hl. simpl.
  by destruct (m l o) as [[[a l'] o']|].
Qed.
(** Under the lock: it is taken and given back. *)
Lemma wp_locked {A} (m : K vnode A) v Q o :
  vn_countlock v = Some (mkUlock false true) →
  wp m (λ a v' o', vn_countlock v' = Some (mkUlock true true) ∧ Q a (set_countlock (Some (mkUlock false true)) v') o')
    (set_countlock (Some (mkUlock true true)) v) o →
  wp (_ <- on_countlock ulock_acquire; a <- m; _ <- on_countlock ulock_release; ret a) Q v o.
Proof.
  intros Hl Hm. wp_step. eapply wp_countlock; [done|]. unfold ulock_acquire. wp_run. simpl. wp_step. wp_step.
  eapply wp_mono; [exact Hm|]. cbn beta. intros a v' o' [Hl' HQ]. wp_step. eapply wp_countlock; [done|].
  unfold ulock_release. wp_run. simpl. wp_run. done.
Qed.
