(* ===== verification/Sfs.v ===== *)
(** * The SFS file system: src/kern/fs/sfs/

    The state of a mounted file system, with the device it is on and the
    vnodes that are in memory, named by their addresses.  The operations on a
    file or a directory run with one thread in the file system.  The static
    buffers of the source are filled before they are used, so their old
    contents do not matter; here they start out as zeros.  An operation that
    hands back a value next to its error number returns both. *)
From S2P Require Import Prelude Bitmap Array CString Uio Request Disk SfsFormat Vnode.

Record sfs_vnode : Type := mkSv {
  sv_v : vnode;
  sv_i : sfs_inode;
  sv_ino : Z;
  sv_dirty : bool;
}.
Record sfs_fs (H : Type) : Type := mkSfs {
  sfs_super_ : sfs_super;
  sfs_superdirty : bool;
  sfs_device : lhd_softc H;
  sfs_vnodes : array Z;
  sfs_freemap : bitmap;
  sfs_freemapdirty : bool;
  sfs_mem : gmap Z sfs_vnode; (** the vnodes that have been allocated *)
}.
Arguments mkSfs {H} _ _ _ _ _ _ _.
Arguments sfs_super_ {H} _.
Arguments sfs_superdirty {H} _.
Arguments sfs_device {H} _.
Arguments sfs_vnodes {H} _.
Arguments sfs_freemap {H} _.
Arguments sfs_freemapdirty {H} _.
Arguments sfs_mem {H} _.

(** *** Inodes and vnodes *)
Definition set_size (z : Z) (i : sfs_inode) : sfs_inode :=
  mkInode z (sfi_type i) (sfi_linkcount i) (sfi_direct i) (sfi_indirect i) (sfi_waste i).
Definition set_type (z : Z) (i : sfs_inode) : sfs_inode :=
  mkInode (sfi_size i) z (sfi_linkcount i) (sfi_direct i) (sfi_indirect i) (sfi_waste i).
Definition set_linkcount (z : Z) (i : sfs_inode) : sfs_inode :=
  mkInode (sfi_size i) (sfi_type i) z (sfi_direct i) (sfi_indirect i) (sfi_waste i).
Definition set_direct (l : list Z) (i : sfs_inode) : sfs_inode :=
  mkInode (sfi_size i) (sfi_type i) (sfi_linkcount i) l (sfi_indirect i) (sfi_waste i).
Definition set_indirect (z : Z) (i : sfs_inode) : sfs_inode :=
  mkInode (sfi_size i) (sfi_type i) (sfi_linkcount i) (sfi_direct i) z (sfi_waste i).
Definition set_v (v : vnode) (x : sfs_vnode) : sfs_vnode := mkSv v (sv_i x) (sv_ino x) (sv_dirty x).
Definition set_dirty (b : bool) (x : sfs_vnode) : sfs_vnode := mkSv (sv_v x) (sv_i x) (sv_ino x) b.
(** an inode that has been changed *)
Definition set_i (i : sfs_inode) (x : sfs_vnode) : sfs_vnode := mkSv (sv_v x) i (sv_ino x) true.

Section Sfs.
  Context {H : Type} `{!LhdHw H}.
  Abbreviation fs := (sfs_fs H).
  Implicit Types (s : fs).

Definition set_device (d : lhd_softc H) s : fs :=
  mkSfs (sfs_super_ s) (sfs_superdirty s) d (sfs_vnodes s) (sfs_freemap s) (sfs_freemapdirty s) (sfs_mem s).
Definition set_vnodes (a : array Z) s : fs :=
  mkSfs (sfs_super_ s) (sfs_superdirty s) (sfs_device s) a (sfs_freemap s) (sfs_freemapdirty s) (sfs_mem s).
Definition set_freemap (b : bitmap) s : fs :=
  mkSfs (sfs_super_ s) (sfs_superdirty s) (sfs_device s) (sfs_vnodes s) b (sfs_freemapdirty s) (sfs_mem s).
Definition set_freemapdirty (b : bool) s : fs :=
  mkSfs (sfs_super_ s) (sfs_superdirty s) (sfs_device s) (sfs_vnodes s) (sfs_freemap s) b (sfs_mem s).
Definition set_superdirty (b : bool) s : fs :=
  mkSfs (sfs_super_ s) b (sfs_device s) (sfs_vnodes s) (sfs_freemap s) (sfs_freemapdirty s) (sfs_mem s).
Definition set_smem (m : gmap Z sfs_vnode) s : fs :=
  mkSfs (sfs_super_ s) (sfs_superdirty s) (sfs_device s) (sfs_vnodes s) (sfs_freemap s) (sfs_freemapdirty s) m.
Definition on_freemap {A} (m : K bitmap A) : K fs A := zoom sfs_freemap set_freemap m.
Definition on_vnodes {A} (m : K (array Z) A) : K fs A := zoom sfs_vnodes set_vnodes m.

(** [sv->...] *)
Definition get_sv (sv : Z) : K fs sfs_vnode :=
  s <- kget;
  deref (sfs_mem s !! sv).
Definition upd_sv (sv : Z) (f : sfs_vnode → sfs_vnode) : K fs unit :=
  x <- get_sv sv;
  modify (λ s, set_smem (<[sv := f x]> (sfs_mem s)) s).
Definition on_vnode (sv : Z) (A : Type) (m : K vnode A) : K fs A :=
  x <- get_sv sv;
  '(a, v) <- run_on m (sv_v x);
  _ <- upd_sv sv (set_v v);
  ret a.

(** With a request: of the caller, or one that is set up for the call *)
Definition on_fs {A} (m : K fs A) : K (fs * request) A := zoom fst (λ s t, (s, t.2)) m.
Definition with_uio {A} (m : K (fs * request) A) (r : request) : K fs (A * request) := λ s o,
  match m (s, r) o with
  | Done (a, (s', r'), o') => Done ((a, r'), s', o')
  | Halt e => Halt e
  end.

(** ** Blocks, sfs_io.c *)
Definition d_io : K (fs * request) Z :=
  zoom (λ t, (sfs_device t.1, t.2)) (λ u t, (set_device u.1 t.1, u.2)) lhd_io.
(** the code from the label [retry], with [n] more tries to come *)
Fixpoint retry (n : nat) : K (fs * request) Z :=
  result <- d_io;
  if result =? EINVAL then panic
  else if result =? EIO then
    match n with
    | O => ret result
    | S n' => retry n'
    end
  else ret result.
Definition sfs_rwblock : K (fs * request) Z := retry 10.
(** The block that is read is put into [data]. *)
Definition sfs_rblock (data : list Z) (block : Z) : K fs (Z * list Z) :=
  '(result, ku) <- with_uio sfs_rwblock (rq_kuio [] SFS_BLOCKSIZE (s32 (s32 block * SFS_BLOCKSIZE)) UIO_READ);
  ret (result, put data 0 (rq_out ku)).
Definition sfs_wblock (data : list Z) (block : Z) : K fs Z :=
  '(result, _) <- with_uio sfs_rwblock (rq_kuio data SFS_BLOCKSIZE (s32 (s32 block * SFS_BLOCKSIZE)) UIO_WRITE);
  ret result.

(** ** Simple stuff, sfs_vnode.c *)
Definition zero_buffer : list Z := replicate 512 0.
Definition sfs_clearblock (block : Z) : K fs Z := sfs_wblock zero_buffer block.
Definition sfs_sync_inode (sv : Z) : K fs Z :=
  x <- get_sv sv;
  if sv_dirty x then
    result <- sfs_wblock (encode_inode (sv_i x)) (sv_ino x);
    if negb (result =? 0) then ret result
    else
      _ <- upd_sv sv (set_dirty false);
      ret 0
  else ret 0.

(** ** Space allocation *)
Definition sfs_balloc : K fs (Z * Z) :=
  r <- on_freemap bitmap_alloc;
  match r with
  | inl result => ret (result, 0)
  | inr diskblock =>
      _ <- modify (set_freemapdirty true);
      s <- kget;
      if sp_nblocks (sfs_super_ s) <=? diskblock then panic
      else
        result <- sfs_clearblock diskblock;
        ret (result, diskblock)
  end.
Definition sfs_bfree (diskblock : Z) : K fs unit :=
  _ <- on_freemap (bitmap_unmark diskblock);
  modify (set_freemapdirty true).
Definition sfs_bused (diskblock : Z) : K fs Z :=
  s <- kget;
  if sp_nblocks (sfs_super_ s) <=? diskblock then panic
  else on_freemap (bitmap_isset diskblock).
(** [if (block != 0 && !sfs_bused(sfs, block)) panic(...)] *)
Definition check_used (block : Z) : K fs unit :=
  if block =? 0 then ret tt
  else
    u <- sfs_bused block;
    if u =? 0 then panic else ret tt.

(** ** Block mapping *)
Definition sfs_bmap_direct (sv fileblock : Z) (doalloc : bool) : K fs (Z * Z) :=
  x <- get_sv sv;
  block <- deref (zlookup (sfi_direct (sv_i x)) fileblock);
  '(result, block) <-
    (if (block =? 0) && doalloc then
       '(result, block) <- sfs_balloc;
       if negb (result =? 0) then ret (result, 0)
       else
         x <- get_sv sv;
         direct <- deref (zinsert fileblock block (sfi_direct (sv_i x)));
         _ <- upd_sv sv (λ x, set_i (set_direct direct (sv_i x)) x);
         ret (0, block)
     else ret (0, block));
  if negb (result =? 0) then ret (result, 0)
  else
    _ <- check_used block;
    ret (0, block).
(** with the indirect block in [idbuf] *)
Definition sfs_bmap_entry (idblock : Z) (idbuf : list Z) (idoff : Z) (doalloc : bool) : K fs (Z * Z) :=
  block <- deref (zlookup idbuf idoff);
  '(result, block) <-
    (if (block =? 0) && doalloc then
       '(result, block) <- sfs_balloc;
       if negb (result =? 0) then ret (result, 0)
       else
         idbuf <- deref (zinsert idoff block idbuf);
         result <- sfs_wblock (bytes_of idbuf) idblock;
         ret (result, block)
     else ret (0, block));
  if negb (result =? 0) then ret (result, 0)
  else
    _ <- check_used block;
    ret (0, block).
Definition sfs_bmap_indirect (sv idoff : Z) (doalloc : bool) : K fs (Z * Z) :=
  x <- get_sv sv;
  let idblock := sfi_indirect (sv_i x) in
  if (idblock =? 0) && negb doalloc then ret (0, 0)
  else if idblock =? 0 then
    '(result, idblock) <- sfs_balloc;
    if negb (result =? 0) then ret (result, 0)
    else
      _ <- upd_sv sv (λ x, set_i (set_indirect idblock (sv_i x)) x);
      sfs_bmap_entry idblock (words_of zero_buffer) idoff doalloc
  else
    '(result, data) <- sfs_rblock zero_buffer idblock;
    if negb (result =? 0) then ret (result, 0)
    else sfs_bmap_entry idblock (words_of data) idoff doalloc.
Definition sfs_bmap (sv fileblock : Z) (doalloc : bool) : K fs (Z * Z) :=
  if fileblock <? SFS_NDIRECT then sfs_bmap_direct sv fileblock doalloc
  else
    let fileblock := fileblock - SFS_NDIRECT in
    let idnum := fileblock / SFS_DBPERIDB in
    let idoff := fileblock mod SFS_DBPERIDB in
    if 0 <? idnum then ret (EINVAL, 0)
    else sfs_bmap_indirect sv idoff doalloc.

(** ** File-level I/O *)
Definition sfs_partialio (sv skipstart len : Z) : K (fs * request) Z :=
  t <- kget;
  let write := bool_decide (rq_rw t.2 = UIO_WRITE) in
  _ <- kassert (u32 (skipstart + len) <=? SFS_BLOCKSIZE);
  let fileblock := u32 (Z.quot (rq_offset t.2) SFS_BLOCKSIZE) in
  '(result, diskblock) <- on_fs (sfs_bmap sv fileblock write);
  if negb (result =? 0) then ret result
  else
    '(result, iobuf) <-
      (if diskblock =? 0 then
         _ <- kassert (negb write);
         ret (0, zero_buffer)
       else on_fs (sfs_rblock zero_buffer diskblock));
    if negb (result =? 0) then ret result
    else
      '(result, part) <- on_req (rq_uiomove (take (Z.to_nat len) (drop (Z.to_nat skipstart) iobuf)));
      if negb (result =? 0) then ret result
      else if write then on_fs (sfs_wblock (put iobuf skipstart part) diskblock)
      else ret 0.
Definition sfs_blockio (sv : Z) : K (fs * request) Z :=
  t <- kget;
  let write := bool_decide (rq_rw t.2 = UIO_WRITE) in
  let fileblock := u32 (Z.quot (rq_offset t.2) SFS_BLOCKSIZE) in
  '(result, diskblock) <- on_fs (sfs_bmap sv fileblock write);
  if negb (result =? 0) then ret result
  else if diskblock =? 0 then
    _ <- kassert (negb write);
    on_req (rq_uiomovezeros SFS_BLOCKSIZE)
  else
    let saveoff := rq_offset t.2 in
    let diskoff := s32 (diskblock * SFS_BLOCKSIZE) in
    _ <- on_req (modify (set_offset diskoff));
    _ <- kassert (SFS_BLOCKSIZE <=? rq_resid t.2);
    let saveres := s32 (rq_resid t.2) in
    let diskres := SFS_BLOCKSIZE in
    _ <- on_req (modify (set_resid diskres));
    result <- sfs_rwblock;
    _ <- on_req (modify (λ r, set_offset (s32 (s32 (rq_offset r - diskoff) + saveoff)) r));
    _ <- on_req (modify (λ r, set_resid (u32 (u32 (rq_resid r - diskres) + saveres)) r));
    ret result.
(** [for (i=0; i<nblocks; i++)] *)
Fixpoint blockio_loop (n : nat) (sv : Z) : K (fs * request) Z :=
  match n with
  | O => ret 0
  | S n' =>
      result <- sfs_blockio sv;
      if negb (result =? 0) then ret result else blockio_loop n' sv
  end.
(** from the leading partial block to the label [out] *)
Definition sfs_io_blocks (sv : Z) : K (fs * request) Z :=
  t <- kget;
  let blkoff := u32 (Z.rem (rq_offset t.2) SFS_BLOCKSIZE) in
  result <-
    (if negb (blkoff =? 0) then
       let len := u32 (SFS_BLOCKSIZE - blkoff) in
       let len := if rq_resid t.2 <? len then rq_resid t.2 else len in
       sfs_partialio sv blkoff len
     else ret 0);
  if negb (result =? 0) then ret result
  else
    t <- kget;
    if rq_resid t.2 =? 0 then ret 0
    else
      _ <- kassert (Z.rem (rq_offset t.2) SFS_BLOCKSIZE =? 0);
      let nblocks := rq_resid t.2 / SFS_BLOCKSIZE in
      result <- blockio_loop (Z.to_nat nblocks) sv;
      if negb (result =? 0) then ret result
      else
        t <- kget;
        _ <- kassert (rq_resid t.2 <? SFS_BLOCKSIZE);
        if 0 <? rq_resid t.2 then sfs_partialio sv 0 (rq_resid t.2) else ret 0.
(** the code from the label [out] *)
Definition sfs_io_out (sv extraresid result : Z) : K (fs * request) Z :=
  t <- kget;
  x <- on_fs (get_sv sv);
  _ <- (if bool_decide (rq_rw t.2 = UIO_WRITE) && (s32 (sfi_size (sv_i x)) <? rq_offset t.2)
        then on_fs (upd_sv sv (λ x, set_i (set_size (u32 (rq_offset t.2)) (sv_i x)) x))
        else ret tt);
  _ <- on_req (modify (λ r, set_resid (u32 (rq_resid r + extraresid)) r));
  ret result.
Definition sfs_io (sv : Z) : K (fs * request) Z :=
  t <- kget;
  x <- on_fs (get_sv sv);
  if bool_decide (rq_rw t.2 = UIO_READ) then
    let size := s32 (sfi_size (sv_i x)) in
    let endpos := s32 (rq_offset t.2 + rq_resid t.2) in
    if size <=? rq_offset t.2 then ret 0
    else if size <? endpos then
      let extraresid := u32 (endpos - size) in
      _ <- kassert (extraresid <? rq_resid t.2);
      _ <- on_req (modify (λ r, set_resid (u32 (rq_resid r - extraresid)) r));
      result <- sfs_io_blocks sv;
      sfs_io_out sv extraresid result
    else
      result <- sfs_io_blocks sv;
      sfs_io_out sv 0 result
  else
    result <- sfs_io_blocks sv;
    sfs_io_out sv 0 result.
End Sfs.
