(* ===== verification/SfsVnode.v ===== *)
(** * Directories, vnode operations and mounting of SFS

    The rest of src/kern/fs/sfs/sfs_vnode.c, and src/kern/fs/sfs/sfs_fs.c.  A
    name is a buffer with a string at its start. *)
From S2P Require Import Prelude Bitmap Array CString Uio Request Disk SfsFormat Vnode Sfs.

Definition O_RDONLY : Z := 0.
Definition O_WRONLY : Z := 1.
Definition O_RDWR : Z := 2.
Definition O_CREAT : Z := 4.
Definition O_EXCL : Z := 8.
Definition O_TRUNC : Z := 16.
Definition O_APPEND : Z := 32.
Definition O_ACCMODE : Z := 3.
Definition S_IFREG : Z := 4096.
Definition S_IFDIR : Z := 8192.

Record stat : Type := mkStat { st_mode : Z; st_nlink : Z; st_size : Z; st_blocks : Z }.

Section SfsVnode.
  Context {H : Type} `{!LhdHw H}.
  Abbreviation fs := (sfs_fs H).
  Implicit Types (s : fs).

(** ** Directory I/O *)
Definition sfs_readdir (sv slot : Z) : K fs (Z * sfs_dir) :=
  let actualpos := s32 (slot * SFS_DIRSIZE) in
  '(result, ku) <- with_uio (sfs_io sv) (rq_kuio [] SFS_DIRSIZE actualpos UIO_READ);
  if negb (result =? 0) then ret (result, decode_dir (rq_out ku))
  else if 0 <? rq_resid ku then panic
  else ret (0, decode_dir (rq_out ku)).
Definition sfs_writedir (sv : Z) (sd : sfs_dir) (slot : Z) : K fs Z :=
  _ <- kassert (0 <=? slot);
  let actualpos := s32 (slot * SFS_DIRSIZE) in
  '(result, ku) <- with_uio (sfs_io sv) (rq_kuio (encode_dir sd) SFS_DIRSIZE actualpos UIO_WRITE);
  if negb (result =? 0) then ret result
  else if 0 <? rq_resid ku then panic
  else ret 0.
Definition sfs_dir_nentries (sv : Z) : K fs Z :=
  x <- get_sv sv;
  _ <- kassert (sfi_type (sv_i x) =? SFS_TYPE_DIR);
  let size := sfi_size (sv_i x) in
  if negb (size mod SFS_DIRSIZE =? 0) then panic
  else ret (size / SFS_DIRSIZE).

(** What [sfs_dir_findname] hands back: the inode number and the slot of the
    name, and an empty slot *)
Record found_name : Type := mkFound { fn_ino : option Z; fn_slot : option Z; fn_empty : option Z }.
(** [for (i=0; i<nentries; i++)] *)
Fixpoint findname_loop (n : nat) (sv : Z) (name : list Z) (i : Z) (found : bool) (f : found_name) :
    K fs (Z * found_name) :=
  match n with
  | O => ret (if found then 0 else ENOENT, f)
  | S n' =>
      '(result, tsd) <- sfs_readdir sv i;
      if negb (result =? 0) then ret (result, f)
      else if sfd_ino tsd =? SFS_NOINO then
        findname_loop n' sv name (i + 1) found (mkFound (fn_ino f) (fn_slot f) (Some i))
      else
        sfd_name <- deref (zinsert (SFS_NAMELEN - 1) 0 (sfd_name tsd));
        c <- strcmp sfd_name 0 name 0;
        if c =? 0 then
          _ <- kassert (negb found);
          findname_loop n' sv name (i + 1) true (mkFound (Some (sfd_ino tsd)) (Some i) (fn_empty f))
        else findname_loop n' sv name (i + 1) found f
  end.
Definition sfs_dir_findname (sv : Z) (name : list Z) : K fs (Z * found_name) :=
  nentries <- sfs_dir_nentries sv;
  findname_loop (Z.to_nat nentries) sv name 0 false (mkFound None None None).
(** The error, and the slot *)
Definition sfs_dir_link (sv : Z) (name : list Z) (ino : Z) : K fs (Z * Z) :=
  '(result, f) <- sfs_dir_findname sv name;
  if negb (result =? 0) && negb (result =? ENOENT) then ret (result, 0)
  else if result =? 0 then ret (EEXIST, 0)
  else
    n <- strlen name 0;
    if SFS_NAMELEN <? u32 (n + 1) then ret (ENAMETOOLONG, 0)
    else
      emptyslot <- match fn_empty f with Some e => ret e | None => sfs_dir_nentries sv end;
      sfd_name <- strcpy (replicate 60 0) 0 name 0;
      result <- sfs_writedir sv (mkDir ino sfd_name) emptyslot;
      ret (result, emptyslot).
Definition sfs_dir_unlink (sv slot : Z) : K fs Z :=
  sfs_writedir sv (mkDir SFS_NOINO (replicate 60 0)) slot.

(** ** Vnodes in memory *)
(** [for (i=0; i<num; i++)]: the vnode of inode [ino] *)
Fixpoint loaded_loop (n : nat) (i ino : Z) : K fs (option Z) :=
  match n with
  | O => ret None
  | S n' =>
      sv <- on_vnodes (array_getguy i);
      x <- get_sv sv;
      u <- sfs_bused (sv_ino x);
      if u =? 0 then panic
      else if sv_ino x =? ino then ret (Some sv)
      else loaded_loop n' (i + 1) ino
  end.
(** the vnode is read in *)
Definition load_new (ino forcetype : Z) : K fs (Z * Z) :=
  ok <- kmalloc_ok;
  if negb ok then ret (ENOMEM, 0)
  else
    u <- sfs_bused ino;
    if u =? 0 then panic
    else
      '(result, data) <- sfs_rblock zero_buffer ino;
      if negb (result =? 0) then ret (result, 0)
      else
        let i := decode_inode data in
        _ <- (if negb (forcetype =? SFS_TYPE_INVAL) then kassert (sfi_type i =? SFS_TYPE_INVAL) else ret tt);
        let i := if negb (forcetype =? SFS_TYPE_INVAL) then set_type (u16 forcetype) i else i in
        let dirty := negb (forcetype =? SFS_TYPE_INVAL) in
        ops <- (if sfi_type i =? SFS_TYPE_FILE then ret sfs_fileops
                else if sfi_type i =? SFS_TYPE_DIR then ret sfs_dirops
                else panic);
        '(result, v) <- vnode_init ops;
        if negb (result =? 0) then ret (result, 0)
        else
          s <- kget;
          let sv := fresh (dom (sfs_mem s)) in
          result <- on_vnodes (array_add sv);
          if negb (result =? 0) then
            _ <- run_on vnode_kill v;
            ret (result, 0)
          else
            _ <- modify (λ s, set_smem (<[sv := mkSv v i ino dirty]> (sfs_mem s)) s);
            ret (0, sv).
Definition sfs_loadvnode (ino forcetype : Z) : K fs (Z * Z) :=
  num <- on_vnodes array_getnum;
  r <- loaded_loop (Z.to_nat num) 0 ino;
  match r with
  | Some sv =>
      _ <- kassert (forcetype =? SFS_TYPE_INVAL);
      _ <- on_vnode sv _ vnode_incref;
      ret (0, sv)
  | None => load_new ino forcetype
  end.
(** The error, the vnode and the slot *)
Definition sfs_lookonce (sv : Z) (name : list Z) : K fs (Z * Z * Z) :=
  '(result, f) <- sfs_dir_findname sv name;
  if negb (result =? 0) then ret (result, 0, 0)
  else
    ino <- deref (fn_ino f);
    slot <- deref (fn_slot f);
    '(result, r) <- sfs_loadvnode ino SFS_TYPE_INVAL;
    if negb (result =? 0) then ret (result, 0, 0)
    else
      x <- get_sv r;
      if sfi_linkcount (sv_i x) =? 0 then panic
      else ret (0, r, slot).
Definition sfs_makeobj (type : Z) : K fs (Z * Z) :=
  '(result, ino) <- sfs_balloc;
  if negb (result =? 0) then ret (result, 0)
  else sfs_loadvnode ino type.

(** ** Vnode operations *)
Definition sfs_notdir : Z := ENOTDIR.
Definition sfs_isdir : Z := EISDIR.
Definition sfs_unimp : Z := EUNIMP.
Definition sfs_open (openflags : Z) : Z := if negb (Z.land openflags O_APPEND =? 0) then EUNIMP else 0.
Definition sfs_opendir (openflags : Z) : Z :=
  if negb (Z.land openflags O_ACCMODE =? O_RDONLY) then EISDIR
  else if negb (Z.land openflags O_APPEND =? 0) then EISDIR
  else 0.
Definition sfs_fsync (v : Z) : K fs Z := sfs_sync_inode v.
Definition sfs_read (v : Z) : K (fs * request) Z :=
  t <- kget;
  _ <- kassert (bool_decide (rq_rw t.2 = UIO_READ));
  sfs_io v.
Definition sfs_write (v : Z) : K (fs * request) Z :=
  t <- kget;
  _ <- kassert (bool_decide (rq_rw t.2 = UIO_WRITE));
  sfs_io v.
Definition sfs_ioctl (op : Z) : Z := EINVAL.
Definition sfs_gettype (v : Z) : K fs (Z * Z) :=
  x <- get_sv v;
  if sfi_type (sv_i x) =? SFS_TYPE_FILE then ret (0, S_IFREG)
  else if sfi_type (sv_i x) =? SFS_TYPE_DIR then ret (0, S_IFDIR)
  else panic.
Definition sfs_tryseek (pos : Z) : Z := if pos <? 0 then EINVAL else 0.
Definition sfs_mmap : Z := EUNIMP.

(** [for (i=0; i<SFS_NDIRECT; i++)] *)
Definition truncate_direct (sv blocklen i : Z) : K fs unit :=
  x <- get_sv sv;
  block <- deref (zlookup (sfi_direct (sv_i x)) i);
  if (blocklen <=? i) && negb (block =? 0) then
    _ <- sfs_bfree block;
    direct <- deref (zinsert i 0 (sfi_direct (sv_i x)));
    upd_sv sv (λ x, set_i (set_direct direct (sv_i x)) x)
  else ret tt.
(** [for (j=0; j<SFS_DBPERIDB; j++)], with [hasnonzero] and [iddirty] *)
Fixpoint truncate_indirect (n : nat) (blocklen j : Z) (idbuf : list Z) (hasnonzero iddirty : bool) :
    K fs (list Z * bool * bool) :=
  match n with
  | O => ret (idbuf, hasnonzero, iddirty)
  | S n' =>
      block <- deref (zlookup idbuf j);
      '(idbuf, iddirty) <-
        (if (blocklen <? SFS_NDIRECT + j) && negb (block =? 0) then
           _ <- sfs_bfree block;
           idbuf <- deref (zinsert j 0 idbuf);
           ret (idbuf, true)
         else ret (idbuf, iddirty));
      block <- deref (zlookup idbuf j);
      truncate_indirect n' blocklen (j + 1) idbuf (hasnonzero || negb (block =? 0)) iddirty
  end.
(** the indirect block, when it has blocks past the proposed end *)
Definition truncate_idblock (sv blocklen idblock : Z) : K fs Z :=
  '(result, data) <- sfs_rblock zero_buffer idblock;
  if negb (result =? 0) then ret result
  else
    '(idbuf, hasnonzero, iddirty) <-
      truncate_indirect (Z.to_nat SFS_DBPERIDB) blocklen 0 (words_of data) false false;
    if negb hasnonzero then
      _ <- sfs_bfree idblock;
      _ <- upd_sv sv (λ x, set_i (set_indirect 0 (sv_i x)) x);
      ret 0
    else if iddirty : bool then sfs_wblock (bytes_of idbuf) idblock
    else ret 0.
Definition sfs_truncate (sv len : Z) : K fs Z :=
  let blocklen := u32 (Z.quot (s32 (s32 (len + SFS_BLOCKSIZE) - 1)) SFS_BLOCKSIZE) in
  _ <- kfor (Z.to_nat SFS_NDIRECT) 0 (truncate_direct sv blocklen);
  x <- get_sv sv;
  let idblock := sfi_indirect (sv_i x) in
  let baseblock := SFS_NDIRECT in
  let highblock := baseblock + SFS_DBPERIDB - 1 in
  result <-
    (if (blocklen <? highblock) && negb (idblock =? 0) then truncate_idblock sv blocklen idblock else ret 0);
  if negb (result =? 0) then ret result
  else
    _ <- upd_sv sv (λ x, set_i (set_size (u32 len) (sv_i x)) x);
    ret 0.
(** [VOP_TRUNCATE], [VOP_FSYNC], [VOP_GETTYPE]: the vnode is checked and the
    function of its table called. *)
Definition vn_table (v : Z) (reclaim : bool) : K fs vnode_ops :=
  _ <- on_vnode v _ (vnode_check reclaim);
  x <- get_sv v;
  deref (vn_ops (sv_v x)).
Definition VOP_TRUNCATE (v len : Z) : K fs Z :=
  ops <- vn_table v false;
  match ops with
  | sfs_fileops => sfs_truncate v len
  | _ => ret sfs_isdir
  end.
Definition VOP_FSYNC (v : Z) : K fs Z :=
  _ <- vn_table v false;
  sfs_fsync v.
Definition VOP_GETTYPE (v : Z) : K fs (Z * Z) :=
  _ <- vn_table v false;
  sfs_gettype v.
Definition sfs_close (v : Z) : K fs Z := VOP_FSYNC v.
Definition sfs_stat (v : Z) : K fs (Z * stat) :=
  '(result, mode) <- VOP_GETTYPE v;
  if negb (result =? 0) then ret (result, mkStat 0 0 0 0)
  else
    x <- get_sv v;
    ret (0, mkStat mode 0 (s32 (sfi_size (sv_i x))) 0).

(** [for (i=0; i<num; i++) if (sv2==sv) { ix = i; break; }] *)
Fixpoint vnode_index (n : nat) (i sv : Z) : K fs (option Z) :=
  match n with
  | O => ret None
  | S n' =>
      sv2 <- on_vnodes (array_getguy i);
      if sv2 =? sv then ret (Some i) else vnode_index n' (i + 1) sv
  end.
(** the check at the start of [sfs_reclaim]: is the reference the last one? *)
Definition reclaim_last : K vnode bool :=
  _ <- on_countlock ulock_acquire;
  v <- kget;
  if negb (vn_refcount v =? 1) then
    _ <- kassert (1 <? vn_refcount v);
    _ <- modify (set_refcount (vn_refcount v - 1));
    _ <- on_countlock ulock_release;
    ret false
  else
    _ <- on_countlock ulock_release;
    ret true.
Definition sfs_reclaim (v : Z) : K fs Z :=
  last <- on_vnode v _ reclaim_last;
  if negb last then ret EBUSY
  else
    x <- get_sv v;
    result <- (if sfi_linkcount (sv_i x) =? 0 then VOP_TRUNCATE v 0 else ret 0);
    if negb (result =? 0) then ret result
    else
      result <- sfs_sync_inode v;
      if negb (result =? 0) then ret result
      else
        x <- get_sv v;
        _ <- (if sfi_linkcount (sv_i x) =? 0 then sfs_bfree (sv_ino x) else ret tt);
        num <- on_vnodes array_getnum;
        ix <- vnode_index (Z.to_nat num) 0 v;
        match ix with
        | None => panic
        | Some ix =>
            _ <- on_vnodes (array_remove ix);
            _ <- on_vnode v _ vnode_kill;
            _ <- modify (λ s, set_smem (delete v (sfs_mem s)) s);
            ret 0
        end.
Definition VOP_RECLAIM (v : Z) : K fs Z :=
  _ <- vn_table v true;
  sfs_reclaim v.
Definition VOP_INCREF (v : Z) : K fs unit := on_vnode v _ vnode_incref.
Definition VOP_DECREF (v : Z) : K fs unit := vnode_decref (on_vnode v) (VOP_RECLAIM v).

Definition sfs_namefile (v : Z) : K fs Z :=
  x <- get_sv v;
  _ <- kassert (sv_ino x =? SFS_ROOT_LOCATION);
  ret 0.
(** [newguy->sv_i.sfi_linkcount++; newguy->sv_dirty = 1;] and the reverse *)
Definition add_links (v k : Z) : K fs unit :=
  upd_sv v (λ x, set_i (set_linkcount (u16 (sfi_linkcount (sv_i x) + k)) (sv_i x)) x).
Definition sfs_creat (v : Z) (name : list Z) (excl : bool) : K fs (Z * Z) :=
  '(result, f) <- sfs_dir_findname v name;
  if negb (result =? 0) && negb (result =? ENOENT) then ret (result, 0)
  else if (result =? 0) && excl then ret (EEXIST, 0)
  else if result =? 0 then
    ino <- deref (fn_ino f);
    sfs_loadvnode ino SFS_TYPE_INVAL
  else
    '(result, newguy) <- sfs_makeobj SFS_TYPE_FILE;
    if negb (result =? 0) then ret (result, 0)
    else
      x <- get_sv newguy;
      '(result, _) <- sfs_dir_link v name (sv_ino x);
      if negb (result =? 0) then
        _ <- VOP_DECREF newguy;
        ret (result, 0)
      else
        _ <- add_links newguy 1;
        ret (0, newguy).
Definition sfs_link (dir : Z) (name : list Z) (file : Z) : K fs Z :=
  f <- get_sv file;
  '(result, _) <- sfs_dir_link dir name (sv_ino f);
  if negb (result =? 0) then ret result
  else
    _ <- add_links file 1;
    ret 0.
Definition sfs_remove (dir : Z) (name : list Z) : K fs Z :=
  '(result, victim, slot) <- sfs_lookonce dir name;
  if negb (result =? 0) then ret result
  else
    result <- sfs_dir_unlink dir slot;
    _ <- (if result =? 0 then
            x <- get_sv victim;
            _ <- kassert (0 <? sfi_linkcount (sv_i x));
            add_links victim (-1)
          else ret tt);
    _ <- VOP_DECREF victim;
    ret result.
Definition sfs_rename (d1 : Z) (n1 : list Z) (d2 : Z) (n2 : list Z) : K fs Z :=
  _ <- kassert (d1 =? d2);
  x <- get_sv d1;
  _ <- kassert (sv_ino x =? SFS_ROOT_LOCATION);
  '(result, g1, slot1) <- sfs_lookonce d1 n1;
  if negb (result =? 0) then ret result
  else
    y <- get_sv g1;
    _ <- kassert (sfi_type (sv_i y) =? SFS_TYPE_FILE);
    '(result, slot2) <- sfs_dir_link d1 n2 (sv_ino y);
    if negb (result =? 0) then
      _ <- VOP_DECREF g1;
      ret result
    else
      _ <- add_links g1 1;
      result <- sfs_dir_unlink d1 slot1;
      if negb (result =? 0) then
        result2 <- sfs_dir_unlink d1 slot2;
        if negb (result2 =? 0) then panic
        else
          _ <- upd_sv g1 (λ x, mkSv (sv_v x) (set_linkcount (u16 (sfi_linkcount (sv_i x) - 1)) (sv_i x)) (sv_ino x) (sv_dirty x));
          _ <- VOP_DECREF g1;
          ret result
      else
        y <- get_sv g1;
        _ <- kassert (0 <? sfi_linkcount (sv_i y));
        _ <- add_links g1 (-1);
        _ <- VOP_DECREF g1;
        ret 0.
(** The error, the directory, and the name in [buf] *)
Definition sfs_lookparent (v : Z) (path buf : list Z) : K fs (Z * Z * list Z) :=
  x <- get_sv v;
  if negb (sfi_type (sv_i x) =? SFS_TYPE_DIR) then ret (ENOTDIR, 0, buf)
  else
    n <- strlen path 0;
    if Z.of_nat (length buf) <? u32 (n + 1) then ret (ENAMETOOLONG, 0, buf)
    else
      buf <- strcpy buf 0 path 0;
      _ <- VOP_INCREF v;
      ret (0, v, buf).
Definition sfs_lookup (v : Z) (path : list Z) : K fs (Z * Z) :=
  x <- get_sv v;
  if negb (sfi_type (sv_i x) =? SFS_TYPE_DIR) then ret (ENOTDIR, 0)
  else
    '(result, final, _) <- sfs_lookonce v path;
    if negb (result =? 0) then ret (result, 0)
    else ret (0, final).
Definition sfs_getroot : K fs Z :=
  '(result, sv) <- sfs_loadvnode SFS_ROOT_LOCATION SFS_TYPE_INVAL;
  if negb (result =? 0) then panic else ret sv.

(** ** The file system, sfs_fs.c *)
(** [for (j=0; j<mapsize; j++)] *)
Fixpoint mapio_loop (n : nat) (rw : uio_rw) (j : Z) : K fs Z :=
  match n with
  | O => ret 0
  | S n' =>
      bitdata <- on_freemap bitmap_getdata;
      let ptr := take 512 (drop (Z.to_nat (j * SFS_BLOCKSIZE)) bitdata) in
      result <-
        (match rw with
         | UIO_READ =>
             '(result, data) <- sfs_rblock ptr (SFS_MAP_LOCATION + j);
             _ <- on_freemap (modify (λ b, mkBitmap (nbits b) (put (Bitmap.v b) (j * SFS_BLOCKSIZE) data)));
             ret result
         | UIO_WRITE => sfs_wblock ptr (SFS_MAP_LOCATION + j)
         end);
      if negb (result =? 0) then ret result else mapio_loop n' rw (j + 1)
  end.
Definition sfs_mapio (rw : uio_rw) : K fs Z :=
  s <- kget;
  mapio_loop (Z.to_nat (SFS_BITBLOCKS (sp_nblocks (sfs_super_ s)))) rw 0.
Definition sync_vnode (i : Z) : K fs unit :=
  sv <- on_vnodes (array_getguy i);
  _ <- VOP_FSYNC sv;
  ret tt.
Definition sfs_sync : K fs Z :=
  num <- on_vnodes array_getnum;
  _ <- kfor (Z.to_nat num) 0 sync_vnode;
  s <- kget;
  result <-
    (if sfs_freemapdirty s then
       result <- sfs_mapio UIO_WRITE;
       if negb (result =? 0) then ret result
       else
         _ <- modify (set_freemapdirty false);
         ret 0
     else ret 0);
  if negb (result =? 0) then ret result
  else
    s <- kget;
    if sfs_superdirty s then
      result <- sfs_wblock (encode_super (sfs_super_ s)) SFS_SB_LOCATION;
      if negb (result =? 0) then ret result
      else
        _ <- modify (set_superdirty false);
        ret 0
    else ret 0.
Definition sfs_getvolname : K fs (list Z) := gets (λ s, sp_volname (sfs_super_ s)).
Definition sfs_unmount : K fs Z :=
  num <- on_vnodes array_getnum;
  if 0 <? num then ret EBUSY
  else
    s <- kget;
    _ <- kassert (negb (sfs_superdirty s));
    _ <- kassert (negb (sfs_freemapdirty s));
    _ <- on_vnodes array_destroy;
    _ <- on_freemap bitmap_destroy;
    ret 0.
(** The device, next to the error, or the file system with the device in it *)
Definition sfs_domount {S} (dev : lhd_softc H) : K S ((Z * lhd_softc H) + fs) :=
  if negb (LHD_SECTSIZE =? SFS_BLOCKSIZE) then ret (inl (ENXIO, dev))
  else
    ok <- kmalloc_ok;
    if negb ok then ret (inl (ENOMEM, dev))
    else
      a <- array_create;
      match a with
      | None => ret (inl (ENOMEM, dev))
      | Some a =>
          '((result, data), sfs) <-
            run_on (sfs_rblock zero_buffer SFS_SB_LOCATION)
              (mkSfs (mkSuper 0 0 [] []) false dev a (mkBitmap 0 []) false ∅);
          if negb (result =? 0) then ret (inl (result, sfs_device sfs))
          else
            let super := decode_super data in
            if negb (sp_magic super =? SFS_MAGIC) then ret (inl (EINVAL, sfs_device sfs))
            else
              volname <- deref (zinsert (SFS_VOLNAME_SIZE - 1) 0 (sp_volname super));
              let super := mkSuper (sp_magic super) (sp_nblocks super) volname (sp_reserved super) in
              freemap <- bitmap_create (SFS_BITMAPSIZE (sp_nblocks super));
              match freemap with
              | None => ret (inl (ENOMEM, sfs_device sfs))
              | Some freemap =>
                  '(result, sfs) <-
                    run_on (sfs_mapio UIO_READ)
                      (mkSfs super false (sfs_device sfs) a freemap false ∅);
                  if negb (result =? 0) then ret (inl (result, sfs_device sfs))
                  else ret (inr sfs)
              end
      end.
End SfsVnode.
