(* ===== verification/SfsSpec.v ===== *)
(** * Files of SFS

    What [sfs_bmap] and [sfs_io] do on a disk that works: a file is an array
    of bytes, block by block, and reading and writing it does what it would
    do to the array, without touching a block that is not its own. *)
From S2P Require Import Prelude Bitmap Array CString Uio Request Disk SfsFormat Vnode Sfs.

(** The number of blocks of a file *)
Definition NBLOCKS : Z := 143.

Section SfsSpec.
  Context {H : Type} `{!LhdHw H, !LhdLaws H}.
  Abbreviation fs := (sfs_fs H).
  Implicit Types (s : fs) (x : sfs_vnode) (i : sfs_inode) (W : Z → list Z).

(** ** The file system *)
Definition nblocks s : Z := sp_nblocks (sfs_super_ s).
Definition blk s (b : Z) : list Z := sec (sfs_device s) b.
Definition taken s (b : Z) : bool := bit (Bitmap.v (sfs_freemap s)) b.
(** A block that is in use, other than the superblock *)
Definition used s (b : Z) : Prop := 0 < b < nblocks s ∧ taken s b = true.
(** The disk works, and the free map has the blocks of the disk. *)
Record fs_ok s : Prop := {
  fo_dev : dev_ok (sfs_device s) ∧ reliable (sfs_device s);
  fo_map : bitmap_ok (sfs_freemap s);
  fo_blocks : 0 < nblocks s ≤ d_blocks (sfs_device s);
  fo_bits : nblocks s ≤ nbits (sfs_freemap s);
  fo_beyond : ∀ b, nblocks s ≤ b < nbits (sfs_freemap s) → taken s b = true;
  fo_super : taken s 0 = true;
}.

(** Only the device has changed, and it has the contents [W]. *)
Definition disk_is s s' W : Prop :=
  ∃ d, s' = set_device d s ∧ dev_ok d ∧ reliable d ∧ d_blocks d = d_blocks (sfs_device s) ∧ ∀ b, sec d b = W b.
Lemma fs_ok_disk s s' W : fs_ok s → disk_is s s' W → fs_ok s' ∧ ∀ b, blk s' b = W b.
Proof.
  intros [[Hd Hr] Hm Hb Hn Ht H0] (d & -> & Hd' & Hr' & Hbl & HW). split; [|done].
  split; simpl; try done. unfold nblocks in *. simpl. by rewrite Hbl.
Qed.
Lemma blk_block s b : fs_ok s → byte_block (blk s b).
Proof. intros [[Hd _]]. by apply sec_block. Qed.
Lemma used_disk s s' W b : disk_is s s' W → used s b → used s' b.
Proof. intros (d & -> & _) Hu. done. Qed.
Lemma used_range s b : fs_ok s → used s b → 0 ≤ b < d_blocks (sfs_device s).
Proof. intros [_ _ Hb _ _ _] [? _]. lia. Qed.

(** *** Reading and writing blocks *)
Lemma retry_S n :
  retry (S n) = (result <- d_io;
    if result =? EINVAL then panic else if result =? EIO then retry n else ret result : K (fs * request) Z).
Proof. done. Qed.
Lemma retry_done n s r (Q : Z → fs * request → oracle → Prop) o :
  wp d_io (λ res t o', res = 0 ∧ Q 0 t o') (s, r) o → wp (retry n) Q (s, r) o.
Proof.
  intros Hd. destruct n; cbn [retry]; wp_step; (eapply wp_mono; [exact Hd|]); cbn beta; intros res t o' [-> HQ];
    by wp_cond.
Qed.
Lemma rwblock_read s r b o :
  fs_ok s → rq_rw r = UIO_READ → no_faults r → rq_resid r = 512 → rq_offset r = 512 * b →
  0 ≤ b < d_blocks (sfs_device s) →
  wp sfs_rwblock (λ res t o', o' = o ∧ res = 0 ∧ disk_is s t.1 (blk s) ∧
    no_faults t.2 ∧ rq_rw t.2 = UIO_READ ∧ rq_offset t.2 = rq_offset r + 512 ∧ rq_resid t.2 = 0 ∧
    rq_in t.2 = rq_in r ∧ rq_out t.2 = rq_out r ++ blk s b) (s, r) o.
Proof.
  intros [[Hd Hr] _ _ _ _ _] Hrw Hnf Hres Hoff Hb. unfold sfs_rwblock. apply retry_done. unfold d_io.
  wp_step. cbn [fst snd]. wp_call lhd_io_read; [done..|]. cbn beta. intros res [d' r'] o' (-> & Hd' & Hbl & Hs & Hrel & Hc).
  cbn [fst snd] in *. destruct (Hrel Hr) as [Hr' ->]. destruct Hc as [(_ & Hc)|[Hc _]]; [|done].
  split_and!; try done; try apply Hc.
  exists d'. done.
Qed.
Lemma rwblock_write s r b o :
  fs_ok s → rq_rw r = UIO_WRITE → no_faults r → rq_resid r = 512 → rq_offset r = 512 * b →
  0 ≤ b < d_blocks (sfs_device s) → 512 ≤ Z.of_nat (length (rq_in r)) → Forall byte (take 512 (rq_in r)) →
  wp sfs_rwblock (λ res t o', o' = o ∧ res = 0 ∧
    disk_is s t.1 (λ j, if j =? b then take 512 (rq_in r) else blk s j) ∧
    no_faults t.2 ∧ rq_rw t.2 = UIO_WRITE ∧ rq_offset t.2 = rq_offset r + 512 ∧ rq_resid t.2 = 0 ∧
    rq_in t.2 = drop 512 (rq_in r) ∧ rq_out t.2 = rq_out r) (s, r) o.
Proof.
  intros [[Hd Hr] _ _ _ _ _] Hrw Hnf Hres Hoff Hb Hin Hby. unfold sfs_rwblock. apply retry_done. unfold d_io.
  wp_step. cbn [fst snd]. wp_call lhd_io_write; [done..|]. cbn beta.
  intros res [d' r'] o' (-> & Hd' & Hbl & Hs & Hrel & Hnf' & Hrw' & Ho' & Hre' & Hi' & Hou' & _ & _ & Hc).
  cbn [fst snd] in *. destruct (Hrel Hr) as [Hr' ->]. destruct Hc as [(_ & Hc)|Hc]; [|done].
  split_and!; try done.
  exists d'. split_and!; try done. intros j. destruct (Z.eqb_spec j b) as [->|]; [done|by apply Hs].
Qed.
Lemma wp_with_uio {A} (m : K (fs * request) A) r Q s o :
  wp m (λ a t o', Q (a, t.2) t.1 o') (s, r) o → wp (with_uio m r) Q s o.
Proof. unfold wp, with_uio. by destruct (m (s, r) o) as [[[a [s' r']] o']|]. Qed.

Lemma block_offset b : 0 ≤ b → 512 * b < 2 ^ 31 → s32 (s32 b * SFS_BLOCKSIZE) = 512 * b.
Proof. intros. unfold SFS_BLOCKSIZE. rewrite (s32_small b), s32_small by lia. lia. Qed.
Lemma sfs_rblock_spec s data b o :
  fs_ok s → length data = 512%nat → 0 ≤ b < d_blocks (sfs_device s) →
  wp (sfs_rblock data b) (λ r s' o', o' = o ∧ r = (0, blk s b) ∧ disk_is s s' (blk s)) s o.
Proof.
  intros Hok Hl Hb. pose proof (dv_small _ (proj1 (fo_dev _ Hok))). unfold sfs_rblock. wp_step. apply wp_with_uio.
  rewrite block_offset by lia.
  eapply wp_mono; [apply (rwblock_read s _ b); try done; simpl; intros ? Hx; by inversion Hx|]. cbn beta.
  intros res [s' r'] o' (-> & -> & Hd & _ & _ & _ & _ & _ & Ho). cbn [fst snd] in *. wp_step. split_and!; [done| |done].
  rewrite Ho. simpl. destruct (blk_block s b Hok) as [Hlb _]. unfold put. simpl.
  rewrite Hlb, drop_ge, app_nil_r by lia. done.
Qed.
Lemma sfs_wblock_spec s data b o :
  fs_ok s → byte_block data → 0 ≤ b < d_blocks (sfs_device s) →
  wp (sfs_wblock data b) (λ r s' o', o' = o ∧ r = 0 ∧ disk_is s s' (λ j, if j =? b then data else blk s j)) s o.
Proof.
  intros Hok [Hl Hby] Hb. pose proof (dv_small _ (proj1 (fo_dev _ Hok))). unfold sfs_wblock. wp_step. apply wp_with_uio.
  rewrite block_offset by lia.
  eapply wp_mono; [apply (rwblock_write s _ b); try done; simpl|].
  - intros ? Hx. by inversion Hx.
  - lia.
  - by apply Forall_take.
  - cbn beta. intros res [s' r'] o' (-> & -> & Hd & _). cbn [fst snd] in *. wp_step. split_and!; [done..|].
    simpl in Hd. by rewrite take_ge in Hd by lia.
Qed.

(** ** Allocation *)
Lemma sfs_balloc_spec s o :
  fs_ok s →
  wp sfs_balloc (λ '(res, b) s' o', o' = o ∧ fs_ok s' ∧ sfs_super_ s' = sfs_super_ s ∧
    sfs_superdirty s' = sfs_superdirty s ∧ sfs_vnodes s' = sfs_vnodes s ∧ sfs_mem s' = sfs_mem s ∧
    ((res = 0 ∧ used s' b ∧ taken s b = false ∧ (∀ j, 0 ≤ j → taken s' j = if j =? b then true else taken s j) ∧
      ∀ j, blk s' j = if j =? b then zero_buffer else blk s j) ∨
     (res = ENOSPC ∧ s' = s))) s o.
Proof.
  intros Hok. pose proof Hok as [[Hd Hr] Hm Hb Hn Ht H0]. unfold sfs_balloc, on_freemap. wp_step. wp_step.
  wp_call bitmap_alloc_spec; [done|]. intros [e|b] m o' [-> Hc].
  - destruct Hc as (-> & -> & _). wp_step. assert (set_freemap (sfs_freemap s) s = s) as -> by by destruct s.
    split_and!; try done. by right.
  - destruct Hc as (Hbr & Hbf & _ & Hm' & Hnb & Hbits). do 4 wp_step. cbn [sfs_super_ set_freemapdirty set_freemap].
    fold (nblocks s). destruct (Z.leb_spec (nblocks s) b).
    { fold (taken s b) in Hbf. by rewrite (Ht b) in Hbf by (unfold nblocks in *; lia). }
    assert (b ≠ 0) by (intros ->; unfold taken in H0; congruence).
    set (s1 := set_freemapdirty true (set_freemap m s)). wp_step.
    assert (fs_ok s1) as Hok1.
    { split; try done; unfold nblocks, taken in *; simpl; [lia| |].
      - intros j Hj. rewrite Hbits by lia. destruct (j =? b); [done|]. apply Ht. lia.
      - rewrite Hbits by lia. by destruct (0 =? b). }
    unfold sfs_clearblock. wp_call sfs_wblock_spec; [done|apply SimDisk.zero_block|simpl; lia|].
    intros r s' o' (-> & -> & Hdisk). wp_step. destruct (fs_ok_disk s1 s' _ Hok1 Hdisk) as [Hok' Hblk].
    destruct Hdisk as (d & -> & _). split_and!; try done. left.
    assert (∀ j, 0 ≤ j → taken (set_device d s1) j = if j =? b then true else taken s j) as Hbits'.
    { intros j Hj. unfold taken. simpl. by apply Hbits. }
    split_and!; [done| |exact Hbf|done|done]. split; [unfold nblocks in *; simpl; lia|].
    rewrite Hbits' by lia. by rewrite Z.eqb_refl.
Qed.
Lemma check_used_spec s b o :
  fs_ok s → (b ≠ 0 → used s b) → wp (check_used b) (λ _ s' o', o' = o ∧ s' = s) s o.
Proof.
  intros Hok Hu. unfold check_used. destruct (Z.eqb_spec b 0); [by wp_step|]. destruct (Hu ltac:(done)) as [Hr Ht].
  unfold sfs_bused, on_freemap. do 3 wp_step. fold (nblocks s). destruct (Z.leb_spec (nblocks s) b); [lia|]. wp_step.
  pose proof (fo_bits _ Hok). wp_call bitmap_isset_spec; [apply Hok|lia|]. intros u m o' (-> & -> & Hu').
  unfold taken in Ht. rewrite Hu', Ht. simpl. wp_step. split; [done|]. by destruct s.
Qed.

(** ** The blocks of a file

    [bptr W i k] is the block on the disk with contents [W] that holds block
    [k] of the file with inode [i]; 0 stands for a block of zeros. *)
Definition bptr W i (k : Z) : Z :=
  if k <? SFS_NDIRECT then default 0 (zlookup (sfi_direct i) k)
  else if sfi_indirect i =? 0 then 0
  else default 0 (zlookup (words_of (W (sfi_indirect i))) (k - SFS_NDIRECT)).
Definition fblock W i (k : Z) : list Z := if bptr W i k =? 0 then zero_buffer else W (bptr W i k).
Definition owned W i (b : Z) : Prop := b ≠ 0 ∧ (b = sfi_indirect i ∨ ∃ k, 0 ≤ k < NBLOCKS ∧ bptr W i k = b).
Record file_ok (U : Z → Prop) W i : Prop := {
  fk_inode : inode_ok i;
  fk_used : ∀ b, owned W i b → U b;
  fk_inj : ∀ k l, 0 ≤ k < NBLOCKS → 0 ≤ l < NBLOCKS → bptr W i k ≠ 0 → bptr W i k = bptr W i l → k = l;
  fk_ind : ∀ k, 0 ≤ k < NBLOCKS → bptr W i k ≠ 0 → bptr W i k ≠ sfi_indirect i;
}.

Lemma bptr_disk W W' i k : (sfi_indirect i ≠ 0 → W' (sfi_indirect i) = W (sfi_indirect i)) → bptr W' i k = bptr W i k.
Proof. intros Hi. unfold bptr. destruct (_ <? _); [done|]. destruct (Z.eqb_spec (sfi_indirect i) 0); [done|]. by rewrite Hi. Qed.
Lemma bptr_direct W i l k0 b k :
  inode_ok i → zinsert k0 b (sfi_direct i) = Some l →
  bptr W (set_direct l i) k = if k =? k0 then b else bptr W i k.
Proof.
  intros Hi Hl. apply zinsert_Some in Hl as [Hk0 ->]. destruct (io_direct _ Hi) as [Hlen _]. unfold bptr. simpl. unfold SFS_NDIRECT.
  destruct (Z.ltb_spec k 15), (Z.eqb_spec k k0) as [->|Hne]; try done; try lia.
  - unfold zlookup. rewrite decide_True by lia. by rewrite list_lookup_insert_eq by lia.
  - unfold zlookup. case_decide; [|done]. rewrite list_lookup_insert_ne by lia. done.
Qed.
Lemma zero_word k : default 0 (zlookup (words_of zero_buffer) k) = 0.
Proof.
  assert (words_of zero_buffer = replicate 128 0) as -> by (vm_compute; reflexivity).
  destruct (zlookup _ k) as [w|] eqn:Hw; [|done]. apply zlookup_Some in Hw as [_ Hw]. by apply lookup_replicate in Hw as [-> _].
Qed.
Lemma bptr_indirect W i b k :
  sfi_indirect i = 0 → W b = zero_buffer → bptr W (set_indirect b i) k = bptr W i k.
Proof.
  intros H0 Hb. unfold bptr. simpl. destruct (k <? SFS_NDIRECT); [done|]. rewrite H0, Hb, zero_word. simpl. by destruct (b =? 0).
Qed.
Lemma bptr_indirect_write W W' i ws k0 b k :
  sfi_indirect i ≠ 0 → byte_block (W (sfi_indirect i)) → word b → 15 ≤ k0 →
  zinsert (k0 - 15) b (words_of (W (sfi_indirect i))) = Some ws → W' (sfi_indirect i) = bytes_of ws → 0 ≤ k →
  bptr W' i k = if k =? k0 then b else bptr W i k.
Proof.
  intros Hi [Hl Hby] Hb Hk0 Hws HW Hk. destruct (bytes_words 128 _ Hl Hby) as (_ & Hlen & Hwds).
  apply zinsert_Some in Hws as [Hr ->]. unfold bptr, SFS_NDIRECT. destruct (Z.eqb_spec (sfi_indirect i) 0); [done|].
  rewrite HW, words_bytes by by apply Forall_insert. destruct (Z.ltb_spec k 15), (Z.eqb_spec k k0) as [->|]; try done; try lia.
  - unfold zlookup. rewrite decide_True by lia. by rewrite list_lookup_insert_eq by lia.
  - unfold zlookup. rewrite !decide_True by lia. by rewrite list_lookup_insert_ne by lia.
Qed.

(** *** A file that changes

    The vnode [sv] goes from [x] to [x'] while the file system goes from [s]
    to [s']: everything stays in order, no block is freed, the blocks of
    others keep their contents, and nothing of others is taken over. *)
Record live (sv : Z) x s : Prop := {
  lv_fs : fs_ok s;
  lv_file : file_ok (used s) (blk s) (sv_i x);
  lv_mem : sfs_mem s !! sv = Some x;
}.
Record advances (sv : Z) x s x' s' : Prop := {
  ad_mem : sfs_mem s' = <[sv := x']> (sfs_mem s);
  ad_vnode : sv_v x' = sv_v x ∧ sv_ino x' = sv_ino x ∧ (x' = x ∨ sv_dirty x' = true);
  ad_meta : sfi_type (sv_i x') = sfi_type (sv_i x) ∧ sfi_linkcount (sv_i x') = sfi_linkcount (sv_i x);
  ad_fs : sfs_super_ s' = sfs_super_ s ∧ sfs_superdirty s' = sfs_superdirty s ∧ sfs_vnodes s' = sfs_vnodes s;
  ad_used : ∀ c, used s c → used s' c;
  ad_frame : ∀ c, used s c → ¬ owned (blk s) (sv_i x) c → blk s' c = blk s c ∧ ¬ owned (blk s') (sv_i x') c;
}.
Lemma advances_refl sv x s : sfs_mem s !! sv = Some x → advances sv x s x s.
Proof. intros Hm. split; try done; [by rewrite insert_id|]. split_and!; try done. by left. Qed.
Lemma advances_trans sv x s x1 s1 x2 s2 : advances sv x s x1 s1 → advances sv x1 s1 x2 s2 → advances sv x s x2 s2.
Proof.
  intros [M1 (V1 & I1 & D1) (T1 & L1) (A1 & B1 & C1) U1 F1] [M2 (V2 & I2 & D2) (T2 & L2) (A2 & B2 & C2) U2 F2]. split.
  - by rewrite M2, M1, insert_insert_eq.
  - split_and!; try congruence. destruct D2 as [->|]; [done|by right].
  - split; congruence.
  - split_and!; congruence.
  - auto.
  - intros c Hc Ho. destruct (F1 c Hc Ho) as [Hb1 Ho1]. destruct (F2 c) as [Hb2 Ho2]; [auto..|]. split; [congruence|done].
Qed.
Definition same_data s i s' i' : Prop := ∀ k, 0 ≤ k < NBLOCKS → fblock (blk s') i' k = fblock (blk s) i k.

(** A block that was free becomes block [k0] of the file. *)
Lemma fresh_block (U U' : Z → Prop) W W' i i' k0 b :
  file_ok U W i → inode_ok i' → sfi_indirect i' = sfi_indirect i → b ≠ 0 → ¬ U b → 0 ≤ k0 < NBLOCKS → bptr W i k0 = 0 →
  (∀ k, 0 ≤ k < NBLOCKS → bptr W' i' k = if k =? k0 then b else bptr W i k) →
  (∀ c, U c → U' c) → U' b → W' b = zero_buffer → (∀ c, U c → c ≠ sfi_indirect i → W' c = W c) →
  file_ok U' W' i' ∧ (∀ k, 0 ≤ k < NBLOCKS → fblock W' i' k = fblock W i k) ∧
  ∀ c, U c → ¬ owned W i c → (c = sfi_indirect i ∨ W' c = W c) ∧ ¬ owned W' i' c.
Proof.
  intros [_ Hu Hinj Hind] Hi' Hsame Hb HU Hk0 H0 Hp HU' Hb' Hz HW.
  assert (∀ k, 0 ≤ k < NBLOCKS → bptr W i k ≠ 0 → U (bptr W i k)) as Hused.
  { intros k Hk Hne. apply Hu. split; [done|]. right. by exists k. }
  split_and!.
  - split; [done|..].
    + intros c [Hc [->|(k & Hk & <-)]].
      * apply HU', Hu. rewrite Hsame in *. split; [done|]. by left.
      * rewrite Hp in * by done. destruct (k =? k0); [done|]. by apply HU', Hused.
    + intros k l Hk Hl. rewrite !Hp by done. destruct (Z.eqb_spec k k0), (Z.eqb_spec l k0); subst; try done.
      * intros _ ->. destruct HU. by apply Hused.
      * intros Hne Heq. destruct HU. rewrite <- Heq. by apply Hused.
      * by apply Hinj.
    + intros k Hk. rewrite Hp, Hsame by done. destruct (k =? k0); [|by apply Hind].
      intros _ ->. apply HU, Hu. split; [done|by left].
  - intros k Hk. unfold fblock. rewrite Hp by done. destruct (Z.eqb_spec k k0) as [->|].
    + rewrite H0. simpl. by destruct (Z.eqb_spec b 0).
    + destruct (Z.eqb_spec (bptr W i k) 0); [done|]. apply HW; [by apply Hused|by apply Hind].
  - intros c Hc Ho. split.
    + destruct (decide (c = sfi_indirect i)); [by left|]. right. by apply HW.
    + intros [Hc0 [->|(k & Hk & Hkc)]].
      * rewrite Hsame in *. apply Ho. split; [done|by left].
      * rewrite Hp in Hkc by done. destruct (k =? k0); [congruence|]. apply Ho. split; [done|]. right. by exists k.
Qed.
(** A block that was free becomes the indirect block. *)
Lemma fresh_indirect (U U' : Z → Prop) W W' i b :
  file_ok U W i → sfi_indirect i = 0 → word b → b ≠ 0 → ¬ U b → (∀ c, U c → U' c) → U' b →
  W' b = zero_buffer → (∀ c, U c → W' c = W c) →
  file_ok U' W' (set_indirect b i) ∧ (∀ k, 0 ≤ k < NBLOCKS → fblock W' (set_indirect b i) k = fblock W i k) ∧
  (∀ c, U c → ¬ owned W i c → W' c = W c ∧ ¬ owned W' (set_indirect b i) c) ∧
  ∀ k, bptr W' (set_indirect b i) k = bptr W i k.
Proof.
  intros [[] Hu Hinj Hind] H0 Hw Hb HU HU' Hb' Hz HW.
  assert (∀ k, bptr W' (set_indirect b i) k = bptr W i k) as Hp.
  { intros k. rewrite bptr_indirect by done. apply bptr_disk. done. }
  assert (∀ k, 0 ≤ k < NBLOCKS → bptr W i k ≠ 0 → U (bptr W i k)) as Hused.
  { intros k Hk Hne. apply Hu. split; [done|]. right. by exists k. }
  split_and!; [| | |done].
  - split; [by split|..].
    + intros c [Hc [->|(k & Hk & <-)]]; [done|]. rewrite Hp in *. by apply HU', Hused.
    + intros k l Hk Hl. rewrite !Hp. by apply Hinj.
    + intros k Hk. rewrite Hp. intros Hne Heq. apply HU. simpl in Heq. rewrite <- Heq. by apply Hused.
  - intros k Hk. unfold fblock. rewrite Hp. destruct (Z.eqb_spec (bptr W i k) 0); [done|]. by apply HW, Hused.
  - intros c Hc Ho. split; [by apply HW|]. intros [Hc0 [->|(k & Hk & Hkc)]]; [done|]. rewrite Hp in Hkc.
    apply Ho. split; [done|]. right. by exists k.
Qed.

(** ** Block mapping *)
Definition bmap_post (sv : Z) x s (k : Z) (doalloc : bool) (o : oracle) (r : Z * Z) s' (o' : oracle) : Prop :=
  o' = o ∧ ∃ x', live sv x' s' ∧ advances sv x s x' s' ∧ same_data s (sv_i x) s' (sv_i x') ∧
    sfi_size (sv_i x') = sfi_size (sv_i x) ∧ (doalloc = false → x' = x) ∧
    ((r.1 = 0 ∧ r.2 = bptr (blk s') (sv_i x') k ∧ (doalloc = true → r.2 ≠ 0)) ∨ (r.1 = ENOSPC ∧ doalloc = true)).
Lemma wp_get_sv sv x s Q o : sfs_mem s !! sv = Some x → Q x s o → wp (get_sv sv) Q s o.
Proof. intros Hx HQ. unfold get_sv. do 2 wp_step. by rewrite Hx. Qed.
Lemma wp_upd_sv sv f x s Q o :
  sfs_mem s !! sv = Some x → Q tt (set_smem (<[sv := f x]> (sfs_mem s)) s) o → wp (upd_sv sv f) Q s o.
Proof. intros Hx HQ. unfold upd_sv. wp_step. eapply wp_get_sv; [done|]. by wp_step. Qed.
Lemma fs_ok_smem s m : fs_ok s → fs_ok (set_smem m s).
Proof. by intros []. Qed.
Lemma not_taken_used s b : taken s b = false → ¬ used s b.
Proof. intros Hf [_ Ht]. congruence. Qed.
Lemma live_ptr sv x s k : live sv x s → 0 ≤ k < NBLOCKS → bptr (blk s) (sv_i x) k ≠ 0 → used s (bptr (blk s) (sv_i x) k).
Proof. intros [_ [_ Hu _ _] _] Hk Hne. apply Hu. split; [done|]. right. by exists k. Qed.
Lemma balloc_used s s' b :
  sfs_super_ s' = sfs_super_ s → (∀ j, 0 ≤ j → taken s' j = if j =? b then true else taken s j) → ∀ c, used s c → used s' c.
Proof.
  intros Hsup Ht c [Hc1 Hc2]. unfold used, nblocks in *. rewrite Hsup. split; [done|]. rewrite Ht by lia. by destruct (c =? b).
Qed.
Lemma direct_insert i k b l : inode_ok i → word b → zinsert k b (sfi_direct i) = Some l → inode_ok (set_direct l i).
Proof.
  intros [? ? ? [Hl Hw] ? ?] Hb Hz. apply zinsert_Some in Hz as [_ ->]. split; simpl; try done.
  split; [by rewrite length_insert|by apply Forall_insert].
Qed.

(** A free block has become block [k0] of the file. *)
Lemma fresh_live sv x s x' s' k0 b :
  live sv x s → fs_ok s' → sfs_mem s' = <[sv := x']> (sfs_mem s) →
  sv_v x' = sv_v x ∧ sv_ino x' = sv_ino x ∧ (x' = x ∨ sv_dirty x' = true) →
  sfi_type (sv_i x') = sfi_type (sv_i x) ∧ sfi_linkcount (sv_i x') = sfi_linkcount (sv_i x) →
  sfs_super_ s' = sfs_super_ s ∧ sfs_superdirty s' = sfs_superdirty s ∧ sfs_vnodes s' = sfs_vnodes s →
  (∀ j, 0 ≤ j → taken s' j = if j =? b then true else taken s j) → used s' b → taken s b = false →
  0 ≤ k0 < NBLOCKS → bptr (blk s) (sv_i x) k0 = 0 → inode_ok (sv_i x') → sfi_indirect (sv_i x') = sfi_indirect (sv_i x) →
  (∀ k, 0 ≤ k < NBLOCKS → bptr (blk s') (sv_i x') k = if k =? k0 then b else bptr (blk s) (sv_i x) k) →
  blk s' b = zero_buffer → (∀ c, c ≠ b → c ≠ sfi_indirect (sv_i x) → blk s' c = blk s c) →
  live sv x' s' ∧ advances sv x s x' s' ∧ same_data s (sv_i x) s' (sv_i x').
Proof.
  intros [Hok Hf Hm] Hok' Hm' Hv Hmeta Hfs Ht Hu Hnt Hk0 H0 Hi' Hind Hp Hz HW.
  assert (∀ c, used s c → c ≠ b) as Hne by (intros c [_ Hc] ->; congruence).
  destruct (fresh_block (used s) (used s') (blk s) (blk s') (sv_i x) (sv_i x') k0 b) as (Hf' & Hd & Hfr); try done.
  - destruct Hu; lia.
  - by apply not_taken_used.
  - eapply balloc_used; [apply Hfs|exact Ht].
  - intros c Hc Hci. apply HW; [by apply Hne|done].
  - split_and!; [split|split|]; try done.
    + by rewrite Hm', lookup_insert_eq.
    + eapply balloc_used; [apply Hfs|exact Ht].
    + intros c Hc Ho. destruct (Hfr c Hc Ho) as [[->|Hbb] Ho']; [|done]. destruct Ho. split; [|by left]. destruct Hc; lia.
Qed.
Lemma owned_not_fresh sv x s b : live sv x s → taken s b = false → sfi_indirect (sv_i x) ≠ 0 → sfi_indirect (sv_i x) ≠ b.
Proof.
  intros [_ Hf _] Hnt Hne <-. apply (not_taken_used s (sfi_indirect (sv_i x))); [done|]. apply (fk_used _ _ _ Hf).
  split; [done|by left].
Qed.
Lemma used_word s b : fs_ok s → used s b → word b.
Proof. intros [[Hd _] _ Hb _ _ _] [Hr _]. pose proof (dv_small _ Hd). unfold word. lia. Qed.

Lemma bmap_direct_spec sv x s k doalloc o :
  live sv x s → 0 ≤ k < 15 → wp (sfs_bmap_direct sv k doalloc) (bmap_post sv x s k doalloc o) s o.
Proof.
  intros Hl Hk. pose proof Hl as [Hok Hf Hm]. pose proof (fk_inode _ _ _ Hf) as Hi. destruct (io_direct _ Hi) as [Hlen _].
  destruct (proj2 (zlookup_is_Some (sfi_direct (sv_i x)) k)) as [b0 Hb0]; [lia|].
  assert (bptr (blk s) (sv_i x) k = b0) as Hp by (unfold bptr, SFS_NDIRECT; destruct (Z.ltb_spec k 15); [by rewrite Hb0|lia]).
  unfold sfs_bmap_direct. wp_step. eapply wp_get_sv; [done|]. rewrite Hb0. do 3 wp_step.
  destruct ((b0 =? 0) && doalloc) eqn:Hc.
  - apply andb_true_iff in Hc as [Hz ->]. apply Z.eqb_eq in Hz. wp_step. wp_call sfs_balloc_spec; [done|].
    intros [res b] s1 o1 (-> & Hok1 & Hs1 & Hs2 & Hs3 & Hs4 & [(-> & Hu & Hnt & Ht & HW)|(-> & ->)]).
    2: { wp_cond. wp_step. cbv beta iota. wp_cond. wp_step. split; [done|]. exists x.
         split_and!; try done; [by apply advances_refl|by right]. }
    assert (∃ l, zinsert k b (sfi_direct (sv_i x)) = Some l) as [l Hl'] by (eexists; apply zinsert_ok; lia).
    wp_cond. wp_step. eapply wp_get_sv; [by rewrite Hs4|]. rewrite Hl'. wp_step. wp_step. wp_step.
    eapply wp_upd_sv; [by rewrite Hs4|]. wp_step. cbv beta iota. wp_cond. wp_step.
    set (x' := set_i _ _). set (s' := set_smem _ _).
    assert (∀ j, bptr (blk s') (sv_i x') j = if j =? k then b else bptr (blk s) (sv_i x) j) as Hp'.
    { intros j. unfold x'. simpl. erewrite bptr_direct by done. destruct (j =? k); [done|]. apply bptr_disk. intros Hne.
      change (blk s') with (blk s1). rewrite HW. destruct (Z.eqb_spec (sfi_indirect (sv_i x)) b) as [He|]; [|done].
      by eapply owned_not_fresh in He. }
    destruct (fresh_live sv x s x' s' k b) as (Hlive & Hadv & Hdata); try done.
    { by apply fs_ok_smem. }
    { simpl. by rewrite Hs4. }
    { split_and!; try done. by right. }
    { unfold NBLOCKS. lia. }
    { congruence. }
    { eapply direct_insert; [done| |done]. by eapply used_word. }
    { change (blk s') with (blk s1). by rewrite HW, Z.eqb_refl. }
    { intros c Hc _. change (blk s') with (blk s1). rewrite HW. by destruct (Z.eqb_spec c b). }
    wp_call check_used_spec; [by apply fs_ok_smem|done|]. intros _ s2 o2 [-> ->]. wp_step.
    split; [done|]. exists x'. split_and!; try done. left. rewrite Hp', Z.eqb_refl. split_and!; try done. simpl.
    destruct Hu. lia.
  - wp_step. cbv beta iota. wp_cond. wp_step. wp_call check_used_spec; [done| |].
    { rewrite <- Hp. eapply live_ptr; [done|unfold NBLOCKS; lia]. }
    intros _ s2 o2 [-> ->]. wp_step. split; [done|]. exists x. split_and!; try done; [by apply advances_refl|].
    left. split_and!; try done. intros ->. rewrite andb_true_r in Hc. simpl. lia.
Qed.
Lemma indirect_block s b ws k w :
  fs_ok s → word w → zinsert k w (words_of (blk s b)) = Some ws → byte_block (bytes_of ws).
Proof.
  intros Hok Hw Hz. destruct (blk_block s b Hok) as [Hl Hby]. destruct (bytes_words 128 _ Hl Hby) as (_ & Hlen & Hwds).
  apply zinsert_Some in Hz as [_ ->]. split; [|apply bytes_of_range]. rewrite length_bytes_of, length_insert, Hlen. done.
Qed.
Lemma bmap_entry_spec sv x s idoff doalloc o :
  live sv x s → sfi_indirect (sv_i x) ≠ 0 → 0 ≤ idoff < 128 →
  wp (sfs_bmap_entry (sfi_indirect (sv_i x)) (words_of (blk s (sfi_indirect (sv_i x)))) idoff doalloc)
    (bmap_post sv x s (idoff + 15) doalloc o) s o.
Proof.
  intros Hl Hne Hk. pose proof Hl as [Hok Hf Hm]. set (idblock := sfi_indirect (sv_i x)) in *.
  pose proof (blk_block s idblock Hok) as Hbb. destruct (bytes_words 128 _ (proj1 Hbb) (proj2 Hbb)) as (_ & Hlen & _).
  destruct (proj2 (zlookup_is_Some (words_of (blk s idblock)) idoff)) as [b0 Hb0]; [lia|].
  assert (bptr (blk s) (sv_i x) (idoff + 15) = b0) as Hp.
  { unfold bptr, SFS_NDIRECT. destruct (Z.ltb_spec (idoff + 15) 15); [lia|]. fold idblock. destruct (Z.eqb_spec idblock 0); [done|].
    by rewrite Z.add_simpl_r, Hb0. }
  assert (used s idblock) as Huid by (apply (fk_used _ _ _ Hf); split; [done|by left]).
  unfold sfs_bmap_entry. rewrite Hb0. do 3 wp_step. destruct ((b0 =? 0) && doalloc) eqn:Hc.
  - apply andb_true_iff in Hc as [Hz ->]. apply Z.eqb_eq in Hz. wp_step. wp_call sfs_balloc_spec; [done|].
    intros [res b] s1 o1 (-> & Hok1 & Hs1 & Hs2 & Hs3 & Hs4 & [(-> & Hu & Hnt & Ht & HW)|(-> & ->)]).
    2: { wp_cond. wp_step. cbv beta iota. wp_cond. wp_step. split; [done|]. exists x.
         split_and!; try done; [by apply advances_refl|by right]. }
    assert (∃ ws, zinsert idoff b (words_of (blk s idblock)) = Some ws) as [ws Hws] by (eexists; apply zinsert_ok; lia).
    wp_cond. rewrite Hws. wp_step. wp_step. wp_step. assert (idblock ≠ b) as Hib by by eapply owned_not_fresh.
    assert (word b) as Hwb by by eapply used_word.
    wp_call sfs_wblock_spec; [done|by eapply (indirect_block s)| |].
    { apply used_range; [done|]. by eapply (balloc_used s s1). }
    intros r s' o' (-> & -> & Hdisk). destruct (fs_ok_disk _ _ _ Hok1 Hdisk) as [Hok' Hblk].
    assert (∀ j, 0 ≤ j → bptr (blk s') (sv_i x) j = if j =? idoff + 15 then b else bptr (blk s) (sv_i x) j) as Hp'.
    { intros j Hj. eapply bptr_indirect_write; try done; [lia| |].
      - rewrite Z.add_simpl_r. exact Hws.
      - rewrite Hblk. by rewrite Z.eqb_refl. }
    destruct Hdisk as (d & -> & _). wp_step. cbv beta iota. wp_cond. wp_step. set (s' := set_device d s1) in *.
    destruct (fresh_live sv x s x s' (idoff + 15) b) as (Hlive & Hadv & Hdata); try done.
    { simpl. rewrite Hs4. by rewrite insert_id. }
    { split_and!; try done. by left. }
    { unfold NBLOCKS. lia. }
    { congruence. }
    { apply Hf. }
    { intros j Hj. apply Hp'. lia. }
    { rewrite Hblk. destruct (Z.eqb_spec b idblock); [congruence|]. by rewrite HW, Z.eqb_refl. }
    { intros c Hc Hci. rewrite Hblk. destruct (Z.eqb_spec c idblock); [done|]. rewrite HW. by destruct (Z.eqb_spec c b). }
    wp_call check_used_spec; [done..|]. intros _ s2 o2 [-> ->]. wp_step.
    split; [done|]. exists x. split_and!; try done. left. rewrite Hp', Z.eqb_refl by lia. split_and!; try done. simpl.
    destruct Hu. lia.
  - wp_step. cbv beta iota. wp_cond. wp_step. wp_call check_used_spec; [done| |].
    { rewrite <- Hp. eapply live_ptr; [done|unfold NBLOCKS; lia]. }
    intros _ s2 o2 [-> ->]. wp_step. split; [done|]. exists x. split_and!; try done; [by apply advances_refl|].
    left. split_and!; try done. intros ->. rewrite andb_true_r in Hc. simpl. lia.
Qed.
(** Results compose. *)
Lemma bmap_post_trans sv x s x1 s1 k d o r s2 o2 :
  advances sv x s x1 s1 → same_data s (sv_i x) s1 (sv_i x1) → sfi_size (sv_i x1) = sfi_size (sv_i x) →
  (d = false → x1 = x) → bmap_post sv x1 s1 k d o r s2 o2 → bmap_post sv x s k d o r s2 o2.
Proof.
  intros Ha Hd Hs Hx (-> & x2 & Hl & Ha2 & Hd2 & Hs2 & Hx2 & Hr). split; [done|]. exists x2. split_and!; try done.
  - by eapply advances_trans.
  - intros j Hj. rewrite Hd2, Hd by done. done.
  - congruence.
  - intros Hf. rewrite Hx2, Hx by done. done.
Qed.
(** Reading the disk changes nothing that matters. *)
Lemma live_disk sv x s s' :
  live sv x s → disk_is s s' (blk s) → live sv x s' ∧ advances sv x s x s' ∧ same_data s (sv_i x) s' (sv_i x).
Proof.
  intros [Hok Hf Hm] Hd. destruct (fs_ok_disk _ _ _ Hok Hd) as [Hok' Hblk].
  assert (∀ k, bptr (blk s') (sv_i x) k = bptr (blk s) (sv_i x) k) as Hp by (intros; by apply bptr_disk).
  assert (∀ b, owned (blk s') (sv_i x) b ↔ owned (blk s) (sv_i x) b) as Ho by (intros; unfold owned; by setoid_rewrite Hp).
  assert (∀ b, used s b → used s' b) as Hu by (intros b; by eapply used_disk).
  destruct Hf as [Hi Hus Hinj Hind]. destruct Hd as (d & -> & _). split_and!.
  - split; try done. split; try done.
    + intros b Hb. apply Hu, Hus. by apply Ho.
    + intros k l. rewrite !Hp. apply Hinj.
    + intros k. rewrite !Hp. apply Hind.
  - split; try done; simpl; [by rewrite insert_id|split_and!; try done; by left|].
    intros c Hc Hn. rewrite Hblk, Ho. done.
  - intros k Hk. unfold fblock. by rewrite Hp, Hblk.
Qed.
Lemma bmap_indirect_spec sv x s idoff doalloc o :
  live sv x s → 0 ≤ idoff < 128 → wp (sfs_bmap_indirect sv idoff doalloc) (bmap_post sv x s (idoff + 15) doalloc o) s o.
Proof.
  intros Hl Hk. pose proof Hl as [Hok Hf Hm]. unfold sfs_bmap_indirect. wp_step. eapply wp_get_sv; [done|].
  destruct (Z.eqb_spec (sfi_indirect (sv_i x)) 0) as [H0|H0].
  - destruct doalloc; cbn [negb andb].
    2: { wp_step. split; [done|]. exists x. split_and!; try done; [by apply advances_refl|]. left. split_and!; try done.
         unfold bptr, SFS_NDIRECT. destruct (Z.ltb_spec (idoff + 15) 15); [lia|]. by rewrite H0. }
    wp_step. wp_call sfs_balloc_spec; [done|].
    intros [res b] s1 o1 (-> & Hok1 & Hs1 & Hs2 & Hs3 & Hs4 & [(-> & Hu & Hnt & Ht & HW)|(-> & ->)]).
    2: { wp_cond. wp_step. split; [done|]. exists x. split_and!; try done; [by apply advances_refl|by right]. }
    wp_cond. wp_step. eapply wp_upd_sv; [by rewrite Hs4|]. set (x' := set_i _ _). set (s' := set_smem _ _).
    assert (∀ c, used s c → used s' c) as Hus by by eapply (balloc_used s s1).
    assert (b ≠ 0) as Hb by (destruct Hu; lia).
    destruct (fresh_indirect (used s) (used s') (blk s) (blk s') (sv_i x) b) as (Hf' & Hd & Hfr & Hp); try done.
    { by eapply used_word. }
    { by apply not_taken_used. }
    { change (blk s') with (blk s1). by rewrite HW, Z.eqb_refl. }
    { intros c [_ Hc]. change (blk s') with (blk s1). rewrite HW. destruct (Z.eqb_spec c b); [congruence|done]. }
    assert (live sv x' s') as Hl'.
    { split; [by apply fs_ok_smem|done|]. simpl. by rewrite lookup_insert_eq. }
    assert (words_of zero_buffer = words_of (blk s' (sfi_indirect (sv_i x')))) as ->.
    { change (blk s') with (blk s1). simpl. by rewrite HW, Z.eqb_refl. }
    eapply wp_mono; [apply (bmap_entry_spec sv x' s' idoff true o Hl' Hb Hk)|]. cbn beta. intros r s2 o2.
    apply bmap_post_trans; try done. split; try done; simpl; [by rewrite Hs4|]. split_and!; try done. by right.
  - cbn [andb]. wp_step. assert (used s (sfi_indirect (sv_i x))) as Hu by (apply (fk_used _ _ _ Hf); split; [done|by left]).
    wp_call sfs_rblock_spec; [done|done|by apply used_range|]. intros [res data] s1 o1 (-> & [= -> ->] & Hd). wp_cond.
    destruct (live_disk sv x s s1 Hl Hd) as (Hl1 & Ha1 & Hd1). destruct (fs_ok_disk _ _ _ Hok Hd) as [_ Hblk].
    rewrite <- Hblk. eapply wp_mono; [by apply (bmap_entry_spec sv x s1)|]. cbn beta. intros r s2 o2. by apply bmap_post_trans.
Qed.
Lemma sfs_bmap_spec sv x s k doalloc o :
  live sv x s → 0 ≤ k → 
  wp (sfs_bmap sv k doalloc) (λ r s' o',
    if k <? NBLOCKS then bmap_post sv x s k doalloc o r s' o' else r = (EINVAL, 0) ∧ s' = s ∧ o' = o) s o.
Proof.
  intros Hl Hk. unfold sfs_bmap, SFS_NDIRECT, SFS_DBPERIDB, NBLOCKS. destruct (Z.ltb_spec k 15).
  { destruct (Z.ltb_spec k 143); [|lia]. by apply bmap_direct_spec. }
  destruct (Z.ltb_spec k 143).
  - rewrite Z.div_small, Z.mod_small by lia. wp_cond.
    pose proof (bmap_indirect_spec sv x s (k - 15) doalloc o Hl ltac:(lia)) as Hb. by rewrite Z.sub_add in Hb.
  - destruct (Z.ltb_spec 0 ((k - 15) / 128)) as [|Hd]; [by wp_step|]. assert (1 ≤ (k - 15) / 128); [|lia].
    apply Z.div_le_lower_bound; lia.
Qed.

(** ** Writing to a bad spot *)
(** C32: when the disk reports a media error, [sfs_wblock] reports success
    although the write is never repeated: the data of the request was
    consumed by the first attempt, so the retry asks for nothing.  Exactly
    one operation has reached the disk, the one that failed. *)
Theorem sfs_wblock_media_error s (data : list Z) (b : Z) (o : oracle) :
  dev_ok (sfs_device s) → byte_block data → 0 ≤ b < d_blocks (sfs_device s) →
  Z.land (hw_io 3 b data (lh_hw (sfs_device s))).1.1 LHD_STATEMASK = LHD_MEDIA →
  wp (sfs_wblock data b) (λ res s' _, res = 0 ∧
    lh_hw (sfs_device s') = (hw_io 3 b data (lh_hw (sfs_device s))).2) s o.
Proof.
  intros Hd [Hl Hby] Hb Hst. pose proof (dv_small _ Hd). assert (take 512 data = data) as Htk by (apply take_ge; lia).
  unfold sfs_wblock. wp_step. apply wp_with_uio. rewrite block_offset by lia. unfold sfs_rwblock.
  rewrite retry_S. unfold d_io. wp_step. wp_step. cbn [fst snd].
  wp_call (lhd_io_write (sfs_device s) (rq_kuio data SFS_BLOCKSIZE (512 * b) UIO_WRITE) b); try done;
    cbn [rq_kuio rq_rw rq_offset rq_resid rq_in rq_out rq_faults].
  - intros ? Hx. by inversion Hx.
  - lia.
  - by rewrite Htk.
  - rewrite Htk. intros res [d' r'] o' (-> & Hd' & Hbl & _ & _ & Hnf' & Hrw' & Ho' & Hre' & _ & _ & Hhw & Hio & _). cbn [fst snd] in *.
    rewrite (Hio Hst). wp_cond. wp_cond. rewrite retry_S. unfold wp at 1, bind. unfold d_io, zoom. cbn [fst snd].
    rewrite lhd_io_nothing; [|done..|lia| |]; cbn [sfs_device set_device].
    + by split.
    + rewrite Ho'. replace (512 * b + 512) with ((b + 1) * 512) by lia. apply Z.mod_mul. lia.
    + lia.
Qed.
End SfsSpec.

(** A disk whose next operation fails: nothing is written. *)
Module BadDisk.
Import SimDisk.
Definition disk : sfs_fs simdisk :=
  mkSfs (mkSuper SFS_MAGIC 13 (replicate 32 0) (replicate 472 0)) false
    (idle_lhd (mkSim ∅ 13 [LHD_MEDIA]) zero_buffer) (mkArray 0 0 None) (mkBitmap 13 [255; 237]) false ∅.
Definition data : list Z := replicate 512 7.
Lemma data_block : byte_block data.
Proof. split; [done|]. apply Forall_replicate. lia. Qed.
End BadDisk.
Import SimDisk.
Lemma sfs_wblock_media_error_witness :
  wp (sfs_wblock BadDisk.data 5) (λ res s' _, res = 0 ∧ lh_hw (sfs_device s') = mkSim ∅ 13 []) BadDisk.disk [].
Proof.
  eapply wp_mono; [apply (sfs_wblock_media_error BadDisk.disk BadDisk.data 5 [])|].
  - split; simpl; try done. apply zero_block.
  - exact BadDisk.data_block.
  - simpl. lia.
  - vm_compute. reflexivity.
  - intros res s' o' [-> Hhw]. split; [reflexivity|]. rewrite Hhw. vm_compute. reflexivity.
Defined.
