(* ===== verification/SfsIoSpec.v ===== *)
(** * Reading and writing files of SFS *)
From S2P Require Import Prelude Bitmap Array CString Uio Request Disk SfsFormat Vnode Sfs SfsVnode SfsSpec.

(** The size of the largest file *)
Definition MAXSIZE : Z := 73216.
Definition byte_in (B : list Z) (p : Z) : Z := default 0 (B !! Z.to_nat (p mod 512)).

Section SfsIoSpec.
  Context {H : Type} `{!LhdHw H, !LhdLaws H}.
  Abbreviation fs := (sfs_fs H).
  Implicit Types (s : fs) (x : sfs_vnode) (i : sfs_inode) (W : Z → list Z) (r : request).

(** ** The bytes of a file *)
Definition byte_at W i (p : Z) : Z := byte_in (fblock W i (p / 512)) p.

Lemma fblock_block s i k : fs_ok s → byte_block (fblock (blk s) i k).
Proof. intros Hok. unfold fblock. destruct (_ =? _); [apply SimDisk.zero_block|by apply blk_block]. Qed.
Lemma byte_at_same s i s' i' : same_data s i s' i' → ∀ p, 0 ≤ p < MAXSIZE → byte_at (blk s') i' p = byte_at (blk s) i p.
Proof.
  intros Hd p Hp. unfold byte_at. rewrite Hd; [done|]. unfold MAXSIZE, NBLOCKS in *.
  split; [apply Z.div_pos; lia|apply Z.div_lt_upper_bound; lia].
Qed.
Lemma same_block off p n : 0 ≤ off → off mod 512 + n ≤ 512 → off ≤ p < off + n →
  p / 512 = off / 512 ∧ p mod 512 = off mod 512 + (p - off).
Proof. intros. Z.to_euclidean_division_equations. lia. Qed.
(** A part of a block, as bytes of the file *)
Lemma slice_bytes (B : list Z) off n :
  length B = 512%nat → 0 ≤ off → 0 ≤ n → off mod 512 + n ≤ 512 →
  take (Z.to_nat n) (drop (Z.to_nat (off mod 512)) B) = byte_in B <$> seqZ off n.
Proof.
  intros Hl Hoff Hn Hle. pose proof (Z.mod_pos_bound off 512 ltac:(lia)) as Hm. apply list_eq. intros j.
  rewrite list_lookup_fmap. destruct (decide (j < Z.to_nat n)%nat) as [Hj|Hj].
  - rewrite lookup_take_lt, lookup_drop by done. rewrite lookup_seqZ_lt by lia. simpl. unfold byte_in.
    destruct (same_block off (off + Z.of_nat j) n) as [_ ->]; [lia..|].
    replace (Z.to_nat (off mod 512 + (off + Z.of_nat j - off))) with (Z.to_nat (off mod 512) + j)%nat by lia.
    destruct (lookup_lt_is_Some_2 B (Z.to_nat (off mod 512) + j)) as [y Hy]; [lia|]. by rewrite Hy.
  - rewrite lookup_take_ge, lookup_seqZ_ge by lia. done.
Qed.
(** A part of a block is replaced. *)
Lemma put_byte (B part : list Z) off n p :
  length B = 512%nat → 0 ≤ off → Z.of_nat (length part) = n → off mod 512 + n ≤ 512 → p / 512 = off / 512 →
  byte_in (put B (off mod 512) part) p =
    if decide (off ≤ p < off + n) then default 0 (part !! Z.to_nat (p - off)) else byte_in B p.
Proof.
  intros Hl Hoff Hn Hle Hp. pose proof (Z.mod_pos_bound off 512 ltac:(lia)) as Hm. pose proof (Z.mod_pos_bound p 512 ltac:(lia)) as Hpm.
  pose proof (Z.div_mod off 512 ltac:(lia)). pose proof (Z.div_mod p 512 ltac:(lia)).
  pose proof (put_lookup B (off mod 512) part (p mod 512) ltac:(lia) ltac:(lia)) as Hput. unfold zlookup in Hput.
  rewrite !(decide_True (P := 0 ≤ p mod 512)) in Hput by lia. unfold byte_in. rewrite Hput.
  destruct (decide (off ≤ p < off + n)).
  - rewrite decide_True by lia. do 2 f_equal. lia.
  - rewrite decide_False by lia. done.
Qed.
(** The data of one block is replaced. *)
Lemma live_write sv x s s' k data :
  live sv x s → 0 ≤ k < NBLOCKS → bptr (blk s) (sv_i x) k ≠ 0 →
  disk_is s s' (λ j, if j =? bptr (blk s) (sv_i x) k then data else blk s j) →
  live sv x s' ∧ advances sv x s x s' ∧
  ∀ l, 0 ≤ l < NBLOCKS → fblock (blk s') (sv_i x) l = if l =? k then data else fblock (blk s) (sv_i x) l.
Proof.
  intros [Hok Hf Hm] Hk Hb Hd. destruct (fs_ok_disk _ _ _ Hok Hd) as [Hok' Hblk]. destruct Hf as [Hi Hus Hinj Hind].
  set (b := bptr (blk s) (sv_i x) k) in *.
  assert (∀ l, bptr (blk s') (sv_i x) l = bptr (blk s) (sv_i x) l) as Hp.
  { intros l. apply bptr_disk. intros Hne. rewrite Hblk. destruct (Z.eqb_spec (sfi_indirect (sv_i x)) b) as [He|]; [|done].
    by apply (Hind k) in Hb. }
  assert (∀ c, owned (blk s') (sv_i x) c ↔ owned (blk s) (sv_i x) c) as Ho by (intros; unfold owned; by setoid_rewrite Hp).
  assert (∀ c, used s c → used s' c) as Hu by (intros c; by eapply used_disk).
  destruct Hd as (d & -> & _). split_and!.
  - split; try done. split; try done.
    + intros c Hc. apply Hu, Hus. by apply Ho.
    + intros l m. rewrite !Hp. apply Hinj.
    + intros l. rewrite !Hp. apply Hind.
  - split; try done; simpl; [by rewrite insert_id|split_and!; try done; by left|].
    intros c Hc Hn. rewrite Hblk, Ho. split; [|done]. destruct (Z.eqb_spec c b) as [->|]; [|done].
    destruct Hn. split; [done|]. right. by exists k.
  - intros l Hl. unfold fblock. rewrite Hp, Hblk. destruct (Z.eqb_spec l k) as [->|Hne].
    + fold b. destruct (Z.eqb_spec b 0); [done|]. by rewrite Z.eqb_refl.
    + destruct (Z.eqb_spec (bptr (blk s) (sv_i x) l) 0); [done|].
      destruct (Z.eqb_spec (bptr (blk s) (sv_i x) l) b) as [He|]; [|done]. by apply Hinj in He.
Qed.

(** ** What a transfer has done *)
Record request_ok r : Prop := {
  rk_faults : no_faults r;
  rk_offset : 0 ≤ rq_offset r;
  rk_resid : 0 ≤ rq_resid r;
  rk_end : rq_offset r + rq_resid r < 2 ^ 31;
  rk_in : rq_rw r = UIO_WRITE → rq_resid r ≤ Z.of_nat (length (rq_in r)) ∧ Forall byte (rq_in r);
}.
(** [m] bytes have been moved. *)
Record moved s x r s' x' r' (m : Z) : Prop := {
  mv_ok : request_ok r';
  mv_rw : rq_rw r' = rq_rw r;
  mv_offset : rq_offset r' = rq_offset r + m;
  mv_resid : rq_resid r' = rq_resid r - m;
  mv_range : 0 ≤ m ∧ (0 < m → rq_offset r + m ≤ MAXSIZE);
  mv_read : rq_rw r = UIO_READ → rq_out r' = rq_out r ++ (byte_at (blk s) (sv_i x) <$> seqZ (rq_offset r) m);
  mv_write : rq_rw r = UIO_WRITE → rq_in r' = drop (Z.to_nat m) (rq_in r) ∧ rq_out r' = rq_out r;
  mv_data : ∀ p, 0 ≤ p < MAXSIZE → byte_at (blk s') (sv_i x') p =
    if bool_decide (rq_rw r = UIO_WRITE ∧ rq_offset r ≤ p < rq_offset r + m)
    then default 0 (rq_in r !! Z.to_nat (p - rq_offset r)) else byte_at (blk s) (sv_i x) p;
}.
(** A transfer that fails does so at the start of a block. *)
Definition stops r (m : Z) : Prop := m = 0 ∨ (rq_offset r + m) mod 512 = 0.
Definition io_post (sv : Z) x s r (n : Z) (o : oracle) (res : Z) (t : fs * request) (o' : oracle) : Prop :=
  o' = o ∧ ∃ x' m, live sv x' t.1 ∧ advances sv x s x' t.1 ∧ sfi_size (sv_i x') = sfi_size (sv_i x) ∧
    (rq_rw r = UIO_READ → x' = x) ∧ moved s x r t.1 x' t.2 m ∧
    ((res = 0 ∧ m = n) ∨
     (res = ENOSPC ∧ m < n ∧ stops r m ∧ rq_rw r = UIO_WRITE) ∨
     (res = EINVAL ∧ m < n ∧ stops r m ∧ MAXSIZE ≤ rq_offset r + m)).

Lemma moved_none s x r s' x' : request_ok r → same_data s (sv_i x) s' (sv_i x') → moved s x r s' x' r 0.
Proof.
  intros Hr Hd. split; try done; try lia.
  - intros _. by rewrite app_nil_r.
  - intros p Hp. rewrite bool_decide_eq_false_2 by lia. by apply byte_at_same.
Qed.
Lemma moved_trans s x r s1 x1 r1 s2 x2 r2 m1 m2 :
  moved s x r s1 x1 r1 m1 → moved s1 x1 r1 s2 x2 r2 m2 → request_ok r → moved s x r s2 x2 r2 (m1 + m2).
Proof.
  intros [K1 W1 O1 R1 [P1 G1] A1 B1 D1] [K2 W2 O2 R2 [P2 G2] A2 B2 D2] Hr.
  assert (0 ≤ rq_offset r) by apply Hr. split; try done; try lia; try congruence.
  - intros Hrw. rewrite A2, A1 by congruence. rewrite <- app_assoc, seqZ_app, fmap_app by lia. f_equal. f_equal. rewrite O1.
    apply list_fmap_ext. intros j y [Hy Hj]%lookup_seqZ. rewrite D1 by lia. rewrite bool_decide_eq_false_2; [done|].
    intros [Hw _]. congruence.
  - intros Hrw. destruct (B2 ltac:(congruence)) as [-> ->], (B1 Hrw) as [-> ->]. split; [|done].
    rewrite drop_drop. f_equal. lia.
  - intros p Hp. rewrite D2, D1 by done. rewrite W1, O1. destruct (decide (rq_rw r = UIO_WRITE)) as [Hw|Hw].
    2: { rewrite !bool_decide_eq_false_2; [done|tauto..]. }
    destruct (B1 Hw) as [-> _]. destruct (decide (rq_offset r + m1 ≤ p < rq_offset r + m1 + m2)).
    + rewrite !bool_decide_eq_true_2 by (split; [done|lia]). rewrite lookup_drop. f_equal. f_equal. lia.
    + rewrite (bool_decide_eq_false_2 (_ ∧ rq_offset r + m1 ≤ p < _)) by tauto.
      destruct (decide (rq_offset r ≤ p < rq_offset r + m1)).
      * rewrite !bool_decide_eq_true_2 by (split; [done|lia]). done.
      * rewrite !bool_decide_eq_false_2 by (intros [_ ?]; lia). done.
Qed.

(** ** One block or a part of it *)
Lemma chunk_block off : 0 ≤ off < 2 ^ 31 → u32 (Z.quot off SFS_BLOCKSIZE) = off / 512.
Proof.
  intros Ho. unfold SFS_BLOCKSIZE. rewrite Z.quot_div_nonneg by lia. apply u32_small. Z.to_euclidean_division_equations. lia.
Qed.
Lemma in_file off n : 0 ≤ off → 0 < n → off mod 512 + n ≤ 512 → off / 512 < NBLOCKS → off + n ≤ MAXSIZE.
Proof. unfold NBLOCKS, MAXSIZE. intros. Z.to_euclidean_division_equations. lia. Qed.
Lemma out_of_file off : 0 ≤ off → NBLOCKS ≤ off / 512 → MAXSIZE ≤ off.
Proof. unfold NBLOCKS, MAXSIZE. intros. Z.to_euclidean_division_equations. lia. Qed.

(** [n] bytes of block [B] of the file are put into the region. *)
Lemma moved_read s x r s' x' r' n :
  request_ok r → rq_rw r = UIO_READ → fs_ok s → same_data s (sv_i x) s' (sv_i x') →
  0 < n ≤ rq_resid r → rq_offset r mod 512 + n ≤ 512 → rq_offset r / 512 < NBLOCKS →
  no_faults r' → rq_rw r' = UIO_READ → rq_offset r' = rq_offset r + n → rq_resid r' = rq_resid r - n → rq_in r' = rq_in r →
  rq_out r' = rq_out r ++ take (Z.to_nat n) (drop (Z.to_nat (rq_offset r mod 512)) (fblock (blk s) (sv_i x) (rq_offset r / 512))) →
  moved s x r s' x' r' n.
Proof.
  intros [] Hrw Hok Hd Hn Hle Hk Hnf Hrw' Ho Hre Hin Hout. split; try congruence.
  - split; try done; try lia. congruence.
  - split; [lia|]. intros _. apply in_file; lia.
  - intros _. rewrite Hout. f_equal. destruct (fblock_block s (sv_i x) (rq_offset r / 512) Hok) as [Hl _].
    rewrite slice_bytes by lia. apply list_fmap_ext. intros j p [-> Hj]%lookup_seqZ. unfold byte_at.
    destruct (same_block (rq_offset r) (rq_offset r + Z.of_nat j) n) as [-> _]; [lia..|]. done.
  - intros p Hp. rewrite bool_decide_eq_false_2 by (intros [? _]; congruence). by apply byte_at_same.
Qed.
(** [n] bytes of the region are put into block [k]. *)
Lemma moved_write s x r s' x' r' n k :
  request_ok r → rq_rw r = UIO_WRITE → fs_ok s → k = rq_offset r / 512 → k < NBLOCKS →
  0 < n ≤ rq_resid r → rq_offset r mod 512 + n ≤ 512 →
  (∀ l, 0 ≤ l < NBLOCKS → fblock (blk s') (sv_i x') l =
     if l =? k then put (fblock (blk s) (sv_i x) k) (rq_offset r mod 512) (take (Z.to_nat n) (rq_in r))
     else fblock (blk s) (sv_i x) l) →
  no_faults r' → rq_rw r' = UIO_WRITE → rq_offset r' = rq_offset r + n → rq_resid r' = rq_resid r - n →
  rq_in r' = drop (Z.to_nat n) (rq_in r) → rq_out r' = rq_out r →
  moved s x r s' x' r' n.
Proof.
  intros [] Hrw Hok -> Hk Hn Hle Hd Hnf Hrw' Ho Hre Hin Hout. destruct (rk_in0 Hrw) as [Hlin Hby].
  assert (length (take (Z.to_nat n) (rq_in r)) = Z.to_nat n) as Hlen by (rewrite length_take; lia).
  split; try congruence; try done.
  - split; try done; try lia. intros _. rewrite Hin, length_drop. split; [lia|by apply Forall_drop].
  - split; [lia|]. intros _. apply in_file; lia.
  - intros p Hp. unfold byte_at. rewrite Hd.
    2: { unfold MAXSIZE, NBLOCKS in *. split; [apply Z.div_pos; lia|apply Z.div_lt_upper_bound; lia]. }
    destruct (fblock_block s (sv_i x) (rq_offset r / 512) Hok) as [Hl _].
    destruct (Z.eqb_spec (p / 512) (rq_offset r / 512)) as [He|Hne].
    + rewrite (put_byte _ _ _ n) by (done || lia). destruct (decide (rq_offset r ≤ p < rq_offset r + n)).
      * rewrite bool_decide_eq_true_2 by done. rewrite lookup_take_lt by lia. done.
      * rewrite bool_decide_eq_false_2 by tauto. by rewrite He.
    + rewrite bool_decide_eq_false_2; [done|]. intros [_ Hin']. apply Hne.
      by destruct (same_block (rq_offset r) p n) as [-> _]; [lia..|].
Qed.
(** The block is looked up; when it is missing the transfer ends. *)
Lemma chunk_bmap sv x s r n o (k : Z → K (fs * request) Z) :
  live sv x s → request_ok r → 0 < n ≤ rq_resid r →
  (∀ x1 s1 b, live sv x1 s1 → advances sv x s x1 s1 → same_data s (sv_i x) s1 (sv_i x1) →
     sfi_size (sv_i x1) = sfi_size (sv_i x) → (rq_rw r = UIO_READ → x1 = x) → rq_offset r / 512 < NBLOCKS → b = bptr (blk s1) (sv_i x1) (rq_offset r / 512) →
     (rq_rw r = UIO_WRITE → b ≠ 0) → wp (k b) (io_post sv x s r n o) (s1, r) o) →
  wp ('(result, b) <- on_fs (sfs_bmap sv (u32 (Z.quot (rq_offset r) SFS_BLOCKSIZE)) (bool_decide (rq_rw r = UIO_WRITE)));
      if negb (result =? 0) then ret result else k b) (io_post sv x s r n o) (s, r) o.
Proof.
  intros Hl Hr Hn Hk. pose proof Hr as [_ Ho Hre He _]. rewrite chunk_block by lia. unfold on_fs. wp_step. wp_step. cbn [fst snd].
  wp_call sfs_bmap_spec; [done|apply Z.div_pos; lia|]. intros [res b] s1 o1. destruct (Z.ltb_spec (rq_offset r / 512) NBLOCKS) as [Hin|Hout].
  - intros (-> & x1 & Hl1 & Ha & Hd & Hs & Hx1 & [(Hres & Hb & Hal)|[Hres Hal]]); cbn [fst snd] in *; subst res.
    + wp_cond. apply (Hk x1 s1); try done.
      * intros Hrd. apply Hx1. apply bool_decide_eq_false_2. congruence.
      * intros Hw. apply Hal. by apply bool_decide_eq_true_2.
    + wp_cond. wp_step. split; [done|]. exists x1, 0. apply bool_decide_eq_true_1 in Hal as Hal'.
      split_and!; try done; [congruence|by apply moved_none|]. right. left.
      split_and!; [done|lia|by left|done].
  - intros ([= -> ->] & -> & ->). wp_cond. wp_step. split; [done|]. exists x, 0. split_and!; try done.
    + apply advances_refl, Hl.
    + by apply moved_none.
    + right. right. split_and!; [done|lia|by left|]. rewrite Z.add_0_r. by apply out_of_file.
Qed.

Lemma same_data_trans s i s1 i1 s2 i2 : same_data s i s1 i1 → same_data s1 i1 s2 i2 → same_data s i s2 i2.
Proof. intros H1 H2 k Hk. by rewrite H2, H1. Qed.
Lemma chunk_done sv x s r n o x' t :
  live sv x' t.1 → advances sv x s x' t.1 → sfi_size (sv_i x') = sfi_size (sv_i x) →
  (rq_rw r = UIO_READ → x' = x) → moved s x r t.1 x' t.2 n →
  io_post sv x s r n o 0 t o.
Proof. intros. split; [done|]. exists x', n. split_and!; try done. by left. Qed.
Lemma live_range sv x s k :
  live sv x s → 0 ≤ k < NBLOCKS → bptr (blk s) (sv_i x) k ≠ 0 → 0 ≤ bptr (blk s) (sv_i x) k < d_blocks (sfs_device s).
Proof. intros Hl Hk Hb. apply used_range; [apply Hl|]. by eapply live_ptr. Qed.

Section Chunk.
  Context (sv : Z) (x : sfs_vnode) (s : fs) (r : request) (n : Z) (o : oracle).
  Context (Hl : live sv x s) (Hr : request_ok r) (Hn : 0 < n ≤ rq_resid r) (Hle : rq_offset r mod 512 + n ≤ 512).

(** The block is read into the buffer. *)
Lemma fetch_block x1 s1 b B (k : Z * list Z → K (fs * request) Z) :
  live sv x1 s1 → b = bptr (blk s1) (sv_i x1) (rq_offset r / 512) → fblock (blk s1) (sv_i x1) (rq_offset r / 512) = B →
  rq_offset r / 512 < NBLOCKS → (rq_rw r = UIO_WRITE → b ≠ 0) →
  (∀ s2, live sv x1 s2 → advances sv x1 s1 x1 s2 → same_data s1 (sv_i x1) s2 (sv_i x1) →
     (rq_rw r = UIO_WRITE → blk s2 b = B ∧ bptr (blk s2) (sv_i x1) (rq_offset r / 512) = b) →
     wp (k (0, B)) (io_post sv x s r n o) (s2, r) o) →
  wp (iobuf <- (if b =? 0 then _ <- kassert (negb (bool_decide (rq_rw r = UIO_WRITE))); ret (0, zero_buffer)
                else on_fs (sfs_rblock zero_buffer b)); k iobuf) (io_post sv x s r n o) (s1, r) o.
Proof using All.
  intros Hl1 Hb HB Hin Hw Hk. pose proof Hl1 as [Hok1 _ Hm1]. pose proof (rk_offset _ Hr).
  assert (0 ≤ rq_offset r / 512) by (apply Z.div_pos; lia).
  wp_step. unfold fblock in HB. rewrite <- Hb in HB. destruct (Z.eqb_spec b 0).
  - wp_step. wp_step; [rewrite bool_decide_eq_false_2; [done|tauto]|]. wp_step. rewrite HB. apply Hk; try done.
    + by apply advances_refl.
    + intros Hww. by destruct (Hw Hww).
  - unfold on_fs. wp_step. cbn [fst snd]. wp_call sfs_rblock_spec; [done|done| |].
    { subst b. by eapply live_range. }
    intros [res data] s2 o2 (-> & [= -> ->] & Hd2). destruct (live_disk sv x1 s1 s2 Hl1 Hd2) as (Hl2 & Ha2 & Hdd).
    rewrite HB. apply Hk; try done. intros _. destruct (fs_ok_disk _ _ _ Hok1 Hd2) as [_ Hblk]. split; [by rewrite Hblk|].
    rewrite Hb. by apply bptr_disk.
Qed.
Lemma partialio_spec : wp (sfs_partialio sv (rq_offset r mod 512) n) (io_post sv x s r n o) (s, r) o.
Proof using All.
  pose proof Hr as [Hnf Ho Hre He Hin]. pose proof (Z.mod_pos_bound (rq_offset r) 512 ltac:(lia)) as Hmod.
  assert (0 ≤ rq_offset r / 512) as Hdiv by (apply Z.div_pos; lia).
  unfold sfs_partialio. do 3 wp_step. wp_step; [unfold SFS_BLOCKSIZE; rewrite u32_small by lia; lia|].
  cbn [fst snd]. apply chunk_bmap; [done..|]. intros x1 s1 b Hl1 Ha1 Hd1 Hs1 Hx1 Hk Hb Hw. pose proof Hl1 as [Hok1 Hf1 Hm1].
  set (B := fblock (blk s) (sv_i x) (rq_offset r / 512)).
  assert (length B = 512%nat) as HlB by (apply fblock_block, Hl).
  assert (fblock (blk s1) (sv_i x1) (rq_offset r / 512) = B) as HB by (apply Hd1; lia).
  apply (fetch_block x1 s1 b B _ Hl1 Hb HB Hk Hw). intros s2 Hl2 Ha2 Hd2 Hw2. cbv beta iota. wp_cond.
  pose proof (advances_trans _ _ _ _ _ _ _ Ha1 Ha2) as Ha. pose proof (same_data_trans _ _ _ _ _ _ Hd1 Hd2) as Hd.
  set (part := take (Z.to_nat n) (drop (Z.to_nat (rq_offset r mod 512)) B)).
  assert (Z.of_nat (length part) = n) as Hlp by (unfold part; rewrite length_take, length_drop; lia).
  wp_step. unfold on_req. wp_step. cbn [fst snd]. destruct (rq_rw r) eqn:Hrw.
  - wp_call (rq_read part); [done..|lia|lia|lia|]. rewrite Hlp. intros [res buf] r' o' ([= -> ->] & -> & Hnf' & Hrw' & Ho' & Hre' & Hi' & Hou').
    wp_cond. wp_cond. wp_step. eapply chunk_done; try done; [auto|]. eapply moved_read; try done. apply Hl.
  - destruct (Hin eq_refl) as [Hlin Hby]. wp_call (rq_write part); [done..|lia|done|lia|lia|]. rewrite Hlp.
    intros [res buf] r' o' ([= -> ->] & -> & Hnf' & Hrw' & Ho' & Hre' & Hi' & Hou'). wp_cond. wp_cond. unfold on_fs. wp_step. cbn [fst snd].
    destruct (Hw2 eq_refl) as [HB2 Hb2]. pose proof Hl2 as [Hok2 _ _].
    assert (b ≠ 0) as Hbne by by apply Hw. replace (length part) with (Z.to_nat n) in * by lia.
    wp_call sfs_wblock_spec; [done| |rewrite <- Hb2; apply (live_range sv x1 s2); [done|lia|by rewrite Hb2]|].
    { destruct (fblock_block s (sv_i x) (rq_offset r / 512) (lv_fs _ _ _ Hl)) as [HlB' HbB]. fold B in HlB', HbB.
      split; [rewrite length_put; [done|lia|rewrite length_take; lia]|]. unfold put.
      apply Forall_app; split; [by apply Forall_take|]. apply Forall_app; split; [by apply Forall_take|by apply Forall_drop]. }
    cbn beta. intros res s3 o3 (-> & -> & Hd3). rewrite <- Hb2 in Hd3.
    destruct (live_write sv x1 s2 s3 (rq_offset r / 512) (put B (rq_offset r mod 512) (take (Z.to_nat n) (rq_in r))))
      as (Hl3 & Ha3 & Hd3'); [done|lia|congruence|done|].
    eapply chunk_done; cbn [fst snd]; try done.
    + by eapply advances_trans.
    + congruence.
    + eapply moved_write; try done; [apply Hl|]. intros l Hll. rewrite Hd3' by done. fold B. destruct (l =? _); [done|]. by apply Hd.
Qed.
(** *** Whole blocks: the device works on the region itself. *)
Lemma disk_request sv' x1 s1 b :
  live sv' x1 s1 → 0 ≤ b < d_blocks (sfs_device s1) → s32 (b * SFS_BLOCKSIZE) = 512 * b.
Proof using All.
  intros Hl1 Hb. pose proof (dv_small _ (proj1 (fo_dev _ (lv_fs _ _ _ Hl1)))). unfold SFS_BLOCKSIZE. rewrite s32_small; lia.
Qed.
Lemma restore_offset d : s32 (s32 (d + 512 - d) + rq_offset r) = rq_offset r + n ∨ n ≠ 512.
Proof using All.
  pose proof Hr as [_ Ho Hre He _]. destruct (decide (n = 512)) as [->|]; [left|by right].
  rewrite !s32_small by (rewrite ?s32_small; lia). lia.
Qed.
Lemma restore_resid : u32 (u32 (0 - SFS_BLOCKSIZE) + s32 (rq_resid r)) = rq_resid r - n ∨ n ≠ 512.
Proof using All.
  pose proof Hr as [_ Ho Hre He _]. destruct (decide (n = 512)) as [->|]; [left|by right]. unfold SFS_BLOCKSIZE.
  rewrite (s32_small (rq_resid r)) by lia. unfold u32. rewrite Zplus_mod_idemp_l. rewrite Z.mod_small; lia.
Qed.
Lemma blockio_spec : n = 512 → wp (sfs_blockio sv) (io_post sv x s r n o) (s, r) o.
Proof using All.
  intros Hn512. pose proof Hr as [Hnf Ho Hre He Hin]. pose proof (Z.mod_pos_bound (rq_offset r) 512 ltac:(lia)) as Hmod.
  assert (rq_offset r mod 512 = 0) as Hal by lia. assert (0 ≤ rq_offset r / 512) as Hdiv by (apply Z.div_pos; lia).
  destruct (restore_resid) as [Hrr|]; [|done]. unfold sfs_blockio. do 2 wp_step. cbn [fst snd]. apply chunk_bmap; [done..|].
  intros x1 s1 b Hl1 Ha1 Hd1 Hs1 Hx1 Hk Hb Hw. pose proof Hl1 as [Hok1 Hf1 Hm1].
  set (B := fblock (blk s) (sv_i x) (rq_offset r / 512)).
  assert (byte_block B) as HbB by (apply fblock_block, Hl). pose proof HbB as [HlB _].
  assert (fblock (blk s1) (sv_i x1) (rq_offset r / 512) = B) as HB by (apply Hd1; lia).
  assert (take (Z.to_nat n) (drop (Z.to_nat (rq_offset r mod 512)) B) = B) as Hall.
  { rewrite Hal, Hn512, drop_0. apply take_ge. rewrite HlB. simpl. lia. }
  unfold fblock in HB. rewrite <- Hb in HB. destruct (Z.eqb_spec b 0) as [Hb0|Hb0].
  - assert (rq_rw r = UIO_READ) as Hrw by (destruct (rq_rw r); [done|by destruct (Hw eq_refl)]). wp_step.
    wp_step; [by rewrite Hrw|]. unfold on_req, rq_uiomovezeros. do 4 wp_step. wp_step; [by apply bool_decide_eq_true_2|]. cbn [fst snd].
    unfold SFS_BLOCKSIZE. wp_call rq_zeros_spec; [done..|lia|lia|lia|lia|lia|].
    intros res r' o' (-> & -> & Hnf' & Hrw' & Ho' & Hre' & Hi' & Hou'). eapply chunk_done; cbn [fst snd]; try done.
    eapply moved_read; try done; try apply (lv_fs _ _ _ Hl); try lia. rewrite Hou'. f_equal. fold B. rewrite Hall, <- HB. done.
  - assert (0 ≤ b < d_blocks (sfs_device s1)) as Hbr by (subst b; by eapply live_range).
    rewrite (disk_request sv x1 s1 b Hl1 Hbr). unfold on_req. do 4 wp_step. wp_step; [unfold SFS_BLOCKSIZE; lia|].
    do 3 wp_step. wp_step. cbn [fst snd]. set (r1 := set_resid _ _). destruct (rq_rw r) eqn:Hrw.
    + wp_call (rwblock_read s1 r1 b); try done. cbn beta.
      intros res [s2 r2] o2 (-> & -> & Hd2 & Hnf2 & Hrw2 & Ho2 & Hre2 & Hi2 & Hou2). cbn [fst snd] in *.
      destruct (live_disk sv x1 s1 s2 Hl1 Hd2) as (Hl2 & Ha2 & Hdd). do 6 wp_step. wp_step.
      destruct (restore_offset (512 * b)) as [Hro|]; [|done].
      eapply chunk_done; cbn [fst snd]; try done; [by eapply advances_trans|auto|].
      eapply moved_read; cbn [set_offset set_resid rq_rw rq_offset rq_resid rq_in rq_out rq_faults]; try done; try apply (lv_fs _ _ _ Hl).
      * by eapply same_data_trans.
      * rewrite Ho2. exact Hro.
      * rewrite Hre2. exact Hrr.
      * rewrite Hou2. simpl. f_equal. fold B. rewrite Hall. done.
    + destruct (Hin eq_refl) as [Hlin Hby]. wp_call (rwblock_write s1 r1 b); try done; [simpl; lia|by apply Forall_take|]. cbn beta.
      intros res [s2 r2] o2 (-> & -> & Hd2 & Hnf2 & Hrw2 & Ho2 & Hre2 & Hi2 & Hou2). cbn [fst snd] in *.
      rewrite Hb in Hd2. destruct (live_write sv x1 s1 s2 (rq_offset r / 512) (take 512 (rq_in r)))
        as (Hl2 & Ha2 & Hd3); [done|lia|congruence|done|]. do 6 wp_step. wp_step.
      destruct (restore_offset (512 * b)) as [Hro|]; [|done].
      eapply chunk_done; cbn [fst snd]; try done; [by eapply advances_trans|congruence|].
      eapply moved_write; cbn [set_offset set_resid rq_rw rq_offset rq_resid rq_in rq_out rq_faults]; try done; try apply (lv_fs _ _ _ Hl).
      * intros l Hll. rewrite Hd3 by done. fold B. destruct (l =? _); [|by apply Hd1]. unfold put. rewrite Hal, Hn512.
        rewrite length_take, Nat.min_l by lia. rewrite drop_ge by (rewrite HlB; simpl; lia). by rewrite app_nil_r.
      * rewrite Ho2. exact Hro.
      * rewrite Hre2. exact Hrr.
      * rewrite Hi2, Hn512. done.
Qed.
End Chunk.

(** ** Whole requests *)
Lemma io_post_trans sv x s r n1 o x1 s1 r1 n2 res t o' :
  request_ok r → advances sv x s x1 s1 → sfi_size (sv_i x1) = sfi_size (sv_i x) →
  (rq_rw r = UIO_READ → x1 = x) → moved s x r s1 x1 r1 n1 → n2 = 0 ∨ n1 = 0 ∨ (rq_offset r + n1) mod 512 = 0 →
  io_post sv x1 s1 r1 n2 o res t o' → io_post sv x s r (n1 + n2) o res t o'.
Proof.
  intros Hr Ha Hs Hx Hm Hal (-> & x2 & m & Hl2 & Ha2 & Hs2 & Hx2 & Hm2 & Hc). split; [done|]. exists x2, (n1 + m).
  pose proof (mv_offset _ _ _ _ _ _ _ Hm). pose proof (mv_rw _ _ _ _ _ _ _ Hm) as Hrw. split_and!; try done.
  - by eapply advances_trans.
  - congruence.
  - intros Hrd. rewrite Hx2, Hx by congruence. done.
  - by eapply moved_trans.
  - pose proof (proj1 (mv_range _ _ _ _ _ _ _ Hm2)).
    assert (stops r1 m → m < n2 → stops r (n1 + m)) as Hst.
    { unfold stops. intros [->|Hst] ?; [rewrite Z.add_0_r; destruct Hal as [|[|]]; lia|right; by rewrite Z.add_assoc, <- H0]. }
    destruct Hc as [[-> ->]|[(-> & ? & ? & ?)|(-> & ? & ? & ?)]]; [left; done|right; left|right; right];
      split_and!; auto; congruence || lia.
Qed.
(** One part after the other *)
Lemma io_then sv x s r n1 n2 o (m : K (fs * request) Z) (k : K (fs * request) Z) :
  request_ok r → 0 ≤ n2 → n2 = 0 ∨ n1 = 0 ∨ (rq_offset r + n1) mod 512 = 0 → wp m (io_post sv x s r n1 o) (s, r) o →
  (∀ x1 s1 r1, live sv x1 s1 → request_ok r1 → rq_offset r1 = rq_offset r + n1 → rq_resid r1 = rq_resid r - n1 →
     wp k (io_post sv x1 s1 r1 n2 o) (s1, r1) o) →
  wp (result <- m; if negb (result =? 0) then ret result else k) (io_post sv x s r (n1 + n2) o) (s, r) o.
Proof.
  intros Hr Hn2 Hal Hm Hk. wp_step. eapply wp_mono; [exact Hm|]. cbn beta. intros res [s1 r1] o1 (-> & x1 & m1 & Hl1 & Ha & Hs & Hx & Hmv & Hc).
  cbn [fst snd] in *. destruct Hc as [[-> ->]|Hc].
  - wp_cond. eapply wp_mono; [apply (Hk x1 s1 r1)|cbn beta]; try apply Hmv; [done|]. intros res t o2. by apply io_post_trans.
  - destruct (Z.eqb_spec res 0) as [->|]; [by destruct Hc as [(? & _)|(? & _)]|]. cbn [negb]. wp_step. split; [done|]. exists x1, m1.
    split_and!; try done. right. destruct Hc as [(-> & ? & ? & ?)|(-> & ? & ? & ?)]; [left|right]; split_and!; try done; lia.
Qed.
Lemma blockio_loop_spec n sv x s r o :
  live sv x s → request_ok r → 512 * Z.of_nat n ≤ rq_resid r → rq_offset r mod 512 = 0 →
  wp (blockio_loop n sv) (io_post sv x s r (512 * Z.of_nat n) o) (s, r) o.
Proof.
  revert x s r. induction n as [|n IH]; intros x s r Hl Hr Hn Hal.
  { cbn [blockio_loop]. wp_step. split; [done|]. exists x, 0. split_and!; try done; [apply advances_refl, Hl|by apply moved_none|by left]. }
  cbn [blockio_loop]. replace (512 * Z.of_nat (S n)) with (512 + 512 * Z.of_nat n) by lia. eapply io_then; try done; [lia| | |].
  - do 2 right. by rewrite <- Zplus_mod_idemp_r, Z.add_0_r.
  - apply blockio_spec; try done; lia.
  - intros x1 s1 r1 Hl1 Hr1 Ho1 Hre1. apply IH; try done; [lia|]. rewrite Ho1. by rewrite <- Zplus_mod_idemp_r, Z.add_0_r.
Qed.
(** What follows the leading partial block *)
Lemma io_aligned_spec sv x s r o :
  live sv x s → request_ok r → (rq_resid r = 0 ∨ rq_offset r mod 512 = 0) →
  wp (t <- kget;
      if rq_resid t.2 =? 0 then ret 0
      else
        _ <- kassert (Z.rem (rq_offset t.2) SFS_BLOCKSIZE =? 0);
        result <- blockio_loop (Z.to_nat (rq_resid t.2 / SFS_BLOCKSIZE)) sv;
        if negb (result =? 0) then ret result
        else
          t <- kget;
          _ <- kassert (rq_resid t.2 <? SFS_BLOCKSIZE);
          if 0 <? rq_resid t.2 then sfs_partialio sv 0 (rq_resid t.2) else ret 0)
    (io_post sv x s r (rq_resid r) o) (s, r) o.
Proof.
  intros Hl Hr Hal. pose proof Hr as [_ Ho Hre He _]. unfold SFS_BLOCKSIZE. do 2 wp_step. cbn [fst snd]. destruct (Z.eqb_spec (rq_resid r) 0) as [H0|H0].
  { wp_step. split; [done|]. exists x, 0. split_and!; try done; [apply advances_refl, Hl|by apply moved_none|left; lia]. }
  destruct Hal as [|Hal]; [done|]. wp_step. wp_step. { rewrite Z.rem_mod_nonneg by lia. lia. }
  assert (0 ≤ rq_resid r / 512) by (apply Z.div_pos; lia). pose proof (Z.div_mod (rq_resid r) 512 ltac:(lia)) as Hdm.
  pose proof (Z.mod_pos_bound (rq_resid r) 512 ltac:(lia)). 
  replace (io_post sv x s r (rq_resid r) o) with (io_post sv x s r (512 * (rq_resid r / 512) + rq_resid r mod 512) o)
    by by rewrite <- Hdm.
  apply io_then; [done|lia| | |].
  - do 2 right. by rewrite <- Zplus_mod_idemp_r, (Z.mul_comm 512), Z.mod_mul, Z.add_0_r by lia.
  - rewrite <- (Z2Nat.id (rq_resid r / 512)) at 2 by lia. apply blockio_loop_spec; try done; lia.
  - intros x1 s1 r1 Hl1 Hr1 Ho1 Hre1. do 3 wp_step. cbn [fst snd]. wp_step; [lia|]. rewrite Hre1.
    replace (rq_resid r - 512 * (rq_resid r / 512)) with (rq_resid r mod 512) by lia.
    assert (rq_offset r1 mod 512 = 0) as Hal1.
    { rewrite Ho1, <- Zplus_mod_idemp_r, (Z.mul_comm 512), Z.mod_mul, Z.add_0_r by lia. done. }
    destruct (Z.ltb_spec 0 (rq_resid r mod 512)).
    + rewrite <- Hal1 at 1. apply partialio_spec; try done; lia.
    + wp_step. split; [done|]. exists x1, 0. split_and!; try done; [apply advances_refl, Hl1|by apply moved_none|left; lia].
Qed.
Lemma io_blocks_spec sv x s r o :
  live sv x s → request_ok r → 0 < rq_resid r → wp (sfs_io_blocks sv) (io_post sv x s r (rq_resid r) o) (s, r) o.
Proof.
  intros Hl Hr Hpos. pose proof Hr as [_ Ho Hre He _]. pose proof (Z.mod_pos_bound (rq_offset r) 512 ltac:(lia)) as Hmod.
  unfold sfs_io_blocks. do 2 wp_step. cbn [fst snd].
  rewrite Z.rem_mod_nonneg by (unfold SFS_BLOCKSIZE; lia). unfold SFS_BLOCKSIZE. rewrite (u32_small (_ mod _)) by lia.
  destruct (Z.eqb_spec (rq_offset r mod 512) 0) as [H0|H0]; cbn [negb].
  - replace (io_post sv x s r (rq_resid r) o) with (io_post sv x s r (0 + rq_resid r) o) by done. apply io_then; [done|lia|by do 2 right; rewrite Z.add_0_r| |].
    + wp_step. split; [done|]. exists x, 0. split_and!; try done; [apply advances_refl, Hl|by apply moved_none|by left].
    + intros x1 s1 r1 Hl1 Hr1 Ho1 Hre1. replace (rq_resid r) with (rq_resid r1) by lia. apply io_aligned_spec; try done.
      right. by rewrite Ho1, Z.add_0_r.
  - rewrite (u32_small (512 - _)) by lia. set (len := if _ <? _ then _ else _).
    assert (len = Z.min (rq_resid r) (512 - rq_offset r mod 512)) as Hlen.
    { unfold len. destruct (Z.ltb_spec (rq_resid r) (512 - rq_offset r mod 512)); lia. }
    replace (io_post sv x s r (rq_resid r) o) with (io_post sv x s r (len + (rq_resid r - len)) o) by (f_equal; lia).
    apply io_then; [done|lia| |apply partialio_spec; try done; lia|].
    { destruct (decide (rq_resid r - len = 0)); [by left|do 2 right]. replace len with (512 - rq_offset r mod 512) by lia.
      Z.to_euclidean_division_equations. lia. }
    intros x1 s1 r1 Hl1 Hr1 Ho1 Hre1. rewrite <- Hre1. apply io_aligned_spec; try done.
    destruct (decide (rq_resid r1 = 0)); [by left|right]. rewrite Ho1. replace len with (512 - rq_offset r mod 512) by lia.
    Z.to_euclidean_division_equations. lia.
Qed.

(** ** Reads and writes *)
Definition write_post (sv : Z) x s r (o : oracle) (res : Z) (t : fs * request) (o' : oracle) : Prop :=
  o' = o ∧ ∃ x' m, live sv x' t.1 ∧ advances sv x s x' t.1 ∧
    sfi_size (sv_i x') = Z.max (sfi_size (sv_i x)) (rq_offset r + m) ∧ moved s x r t.1 x' t.2 m ∧
    ((res = 0 ∧ m = rq_resid r) ∨ (res = ENOSPC ∧ m < rq_resid r ∧ stops r m) ∨
     (res = EINVAL ∧ m < rq_resid r ∧ stops r m ∧ MAXSIZE ≤ rq_offset r + m)).
(** How much there is to read *)
Definition readable_bytes x r : Z := Z.max 0 (Z.min (rq_resid r) (sfi_size (sv_i x) - rq_offset r)).
Definition read_post (sv : Z) x s r (o : oracle) (res : Z) (t : fs * request) (o' : oracle) : Prop :=
  o' = o ∧ ∃ m, live sv x t.1 ∧ advances sv x s x t.1 ∧ moved s x r t.1 x t.2 m ∧
    ((res = 0 ∧ m = readable_bytes x r) ∨
     (res = EINVAL ∧ m < readable_bytes x r ∧ MAXSIZE ≤ rq_offset r + m)).

Lemma live_size sv x s z :
  live sv x s → 0 ≤ z < 2 ^ 32 →
  let x' := set_i (set_size z (sv_i x)) x in let s' := set_smem (<[sv := x']> (sfs_mem s)) s in
  live sv x' s' ∧ advances sv x s x' s'.
Proof.
  intros [Hok [[] ? ? ?] Hm] Hz x' s'. split.
  - split; [by apply fs_ok_smem|by split; [split|..]|]. simpl. apply lookup_insert_eq.
  - split; try done. split_and!; try done. by right.
Qed.
Lemma set_resid_id r : set_resid (rq_resid r) r = r.
Proof. by destruct r. Qed.
Lemma io_out_spec sv x1 s1 r1 extra res (Q : Z → fs * request → oracle → Prop) o :
  live sv x1 s1 → request_ok r1 → 0 ≤ sfi_size (sv_i x1) < 2 ^ 31 → 0 ≤ extra → rq_resid r1 + extra < 2 ^ 32 →
  (∀ x2 s2, (if bool_decide (rq_rw r1 = UIO_WRITE) && (sfi_size (sv_i x1) <? rq_offset r1)
             then x2 = set_i (set_size (rq_offset r1) (sv_i x1)) x1 ∧ s2 = set_smem (<[sv := x2]> (sfs_mem s1)) s1
             else x2 = x1 ∧ s2 = s1) →
     live sv x2 s2 → advances sv x1 s1 x2 s2 → Q res (s2, set_resid (rq_resid r1 + extra) r1) o) →
  wp (sfs_io_out sv extra res) Q (s1, r1) o.
Proof.
  intros Hl [_ Ho Hre He _] Hsz Hex Hsm HQ. unfold sfs_io_out. do 3 wp_step. unfold on_fs, on_req. wp_step. cbn [fst snd].
  eapply wp_get_sv; [apply Hl|]. rewrite s32_small by lia. rewrite (u32_small (rq_offset r1)) by lia.
  destruct (_ && _) eqn:Hc; cbn [fst snd].
  - do 2 wp_step. cbn [fst snd]. eapply wp_upd_sv; [apply Hl|]. cbn [fst snd]. do 4 wp_step. cbn [fst snd]. rewrite (u32_small (_ + _)) by lia.
    destruct (live_size sv x1 s1 (rq_offset r1) Hl ltac:(lia)). by eapply HQ.
  - do 5 wp_step. cbn [fst snd]. rewrite u32_small by lia. eapply HQ; [done|done|apply advances_refl, Hl].
Qed.
Lemma sfs_io_write sv x s r o :
  live sv x s → request_ok r → rq_rw r = UIO_WRITE → 0 < rq_resid r → sfi_size (sv_i x) < 2 ^ 31 →
  wp (sfs_io sv) (write_post sv x s r o) (s, r) o.
Proof.
  intros Hl Hr Hrw Hpos Hsz. pose proof (io_size _ (fk_inode _ _ _ (lv_file _ _ _ Hl))) as [Hs0 _].
  unfold sfs_io. do 3 wp_step. unfold on_fs at 1. wp_step. cbn [fst snd]. eapply wp_get_sv; [apply Hl|]. rewrite Hrw.
  wp_cond. wp_step. cbn [fst snd]. eapply wp_mono; [by apply io_blocks_spec|]. cbn beta.
  intros res [s1 r1] o1 (-> & x1 & m & Hl1 & Ha1 & Hs1 & Hx1 & Hm1 & Hc). cbn [fst snd] in *.
  pose proof (mv_ok _ _ _ _ _ _ _ Hm1) as Hr1. pose proof Hr1 as [_ ? ? ? _].
  apply (io_out_spec sv x1); try done; try lia. intros x2 s2 Hx2 Hl2 Ha2. rewrite Z.add_0_r, set_resid_id.
  split; [done|]. exists x2, m. cbn [fst snd].
  rewrite (mv_rw _ _ _ _ _ _ _ Hm1), Hrw, (mv_offset _ _ _ _ _ _ _ Hm1), Hs1 in Hx2. cbn [bool_decide andb] in Hx2.
  split_and!; try done.
  - by eapply advances_trans.
  - destruct (Z.ltb_spec (sfi_size (sv_i x)) (rq_offset r + m)); simpl in Hx2; destruct Hx2 as [-> _]; simpl; lia.
  - replace m with (m + 0) by lia. eapply moved_trans; [done| |done]. apply moved_none; [done|].
    destruct (Z.ltb_spec (sfi_size (sv_i x)) (rq_offset r + m)); simpl in Hx2; by destruct Hx2 as [-> ->].
  - destruct Hc as [?|[(? & ? & ? & ?)|?]]; [by left|right; by left|right; by right].
Qed.
Lemma sfs_io_read sv x s r o :
  live sv x s → request_ok r → rq_rw r = UIO_READ → 0 < rq_resid r → sfi_size (sv_i x) < 2 ^ 31 →
  wp (sfs_io sv) (read_post sv x s r o) (s, r) o.
Proof.
  intros Hl Hr Hrw Hpos Hsz. pose proof (io_size _ (fk_inode _ _ _ (lv_file _ _ _ Hl))) as [Hs0 _]. pose proof Hr as [Hnf Ho Hre He Hin].
  unfold sfs_io. do 3 wp_step. unfold on_fs at 1. wp_step. cbn [fst snd]. eapply wp_get_sv; [apply Hl|]. rewrite Hrw. wp_cond.
  rewrite (s32_small (sfi_size _)), (s32_small (_ + _)) by lia. destruct (Z.leb_spec (sfi_size (sv_i x)) (rq_offset r)).
  { wp_step. split; [done|]. exists 0. split_and!; try done; [apply advances_refl, Hl|by apply moved_none|].
    left. split; [done|]. unfold readable_bytes. lia. }
  set (extra := Z.max 0 (rq_offset r + rq_resid r - sfi_size (sv_i x))). set (r0 := set_resid (rq_resid r - extra) r).
  assert (request_ok r0) as Hr0. { split; simpl; try done; try lia. congruence. }
  assert (wp (result <- sfs_io_blocks sv; sfs_io_out sv extra result) (read_post sv x s r o) (s, r0) o) as Hgo.
  { wp_step. eapply wp_mono; [apply (io_blocks_spec sv x s r0 o Hl Hr0); simpl; lia|]. cbn beta.
    intros res [s1 r1] o1 (-> & x1 & m & Hl1 & Ha1 & Hs1 & Hx1 & Hm1 & Hc). cbn [fst snd] in *.
    destruct Hm1 as [Hr1 Hrw1 Ho1 Hre1 Hrg1 Hrd1 Hwr1 Hd1]. simpl in *. pose proof Hr1 as [? ? ? ? ?].
    rewrite (Hx1 Hrw) in *.
    apply (io_out_spec sv x); try done; try lia. intros x2 s2 Hx2 Hl2 Ha2. rewrite Hrw1, Hrw in Hx2. cbn [bool_decide andb] in Hx2.
    destruct Hx2 as [-> ->]. split; [done|]. exists m. cbn [fst snd]. split_and!; try done.
    - split; simpl; try done; try lia. split; simpl; try done; try lia. congruence.
    - assert (readable_bytes x r = rq_resid r - extra) by (unfold readable_bytes; lia).
      destruct Hc as [[-> ->]|[(? & ? & ? & ?)|(-> & ? & ? & ?)]]; [left|congruence|right]; split_and!; try done; lia. }
  destruct (Z.ltb_spec (sfi_size (sv_i x)) (rq_offset r + rq_resid r)).
  - rewrite (u32_small (_ - _)) by lia. replace (rq_offset r + rq_resid r - sfi_size (sv_i x)) with extra by lia.
    wp_step. wp_step; [lia|]. unfold on_req. do 3 wp_step. cbn [fst snd]. rewrite u32_small by lia. exact Hgo.
  - assert (extra = 0) as He0 by lia. unfold r0 in Hgo. rewrite He0, Z.sub_0_r, set_resid_id in Hgo. exact Hgo.
Qed.

(** C14: [sfs_read] on a disk that works: the bytes of the file from the
    offset of the request on, up to the end of the file or of the region, are
    put into the region, and nothing changes. *)
Theorem sfs_read_file (sv : Z) x s r (o : oracle) :
  live sv x s → request_ok r → rq_rw r = UIO_READ → 0 < rq_resid r → sfi_size (sv_i x) < 2 ^ 31 →
  wp (sfs_read sv) (read_post sv x s r o) (s, r) o.
Proof.
  intros Hl Hr Hrw Hn Hs. unfold sfs_read. do 3 wp_step. wp_step; [by apply bool_decide_eq_true_2|]. by apply sfs_io_read.
Qed.

(** Write, and read back *)
Definition write_read (sv : Z) (data : list Z) (off : Z) : K fs (option (Z * list Z)) :=
  let n := Z.of_nat (length data) in
  '(e, _) <- with_uio (sfs_write sv) (rq_kuio data n off UIO_WRITE);
  if negb (e =? 0) then ret None
  else
    '(e, ku) <- with_uio (sfs_read sv) (rq_kuio [] n off UIO_READ);
    ret (Some (e, rq_out ku)).
Lemma kuio_ok data off rw :
  0 ≤ off → off + Z.of_nat (length data) < 2 ^ 31 → Forall byte data →
  request_ok (rq_kuio (match rw with UIO_READ => [] | UIO_WRITE => data end) (Z.of_nat (length data)) off rw).
Proof.
  intros. split; simpl; try done; try lia.
  - intros b Hb. by inversion Hb.
  - by intros ->.
Qed.
(** C29: what has been written to a file is read back from it. *)
Theorem sfs_write_read (sv : Z) x s (data : list Z) (off : Z) (o : oracle) :
  live sv x s → sfi_size (sv_i x) < 2 ^ 31 → data ≠ [] → Forall byte data → 0 ≤ off → off + Z.of_nat (length data) < 2 ^ 31 →
  wp (write_read sv data off) (λ res _ _, res = None ∨ res = Some (0, data)) s o.
Proof.
  intros Hl Hs Hne Hby Ho He. assert (0 < Z.of_nat (length data)) by (destruct data; [done|simpl; lia]).
  unfold write_read, sfs_write, sfs_read. wp_step. apply wp_with_uio. do 3 wp_step. wp_step; [done|].
  eapply wp_mono; [apply (sfs_io_write sv x s); try done; by apply (kuio_ok data off UIO_WRITE)|]. cbn beta.
  intros res [s1 r1] o1 (-> & x1 & m & Hl1 & _ & Hs1 & [_ _ _ _ [_ Hrg] _ _ Hd1] & Hc). simpl in *.
  destruct Hc as [[-> ->]|[(-> & _)|(-> & _)]]; [|wp_cond; wp_step; by left..]. wp_cond.
  wp_step. apply wp_with_uio. do 3 wp_step. wp_step; [done|].
  eapply wp_mono; [apply (sfs_io_read sv x1 s1); try done; [by apply (kuio_ok data off UIO_READ)|lia]|]. cbn beta.
  intros res [s2 r2] o2 (-> & m & _ & _ & [_ _ _ _ _ Hrd _ _] & Hc). wp_step. right. unfold readable_bytes in Hc. simpl in *.
  destruct Hc as [[-> Hm]|(_ & Hm & Hbig)]; [|lia]. do 2 f_equal. rewrite (Hrd eq_refl). replace m with (Z.of_nat (length data)) by lia.
  apply list_eq. intros j. rewrite list_lookup_fmap. destruct (decide (j < length data)%nat) as [Hj|Hj].
  - rewrite lookup_seqZ_lt by lia. simpl. rewrite Hd1 by lia. rewrite bool_decide_eq_true_2 by (split; [done|lia]).
    replace (Z.to_nat (off + Z.of_nat j - off)) with j by lia. destruct (lookup_lt_is_Some_2 data j Hj) as [y Hy]. by rewrite Hy.
  - rewrite lookup_seqZ_ge, lookup_ge_None_2 by lia. done.
Qed.
End SfsIoSpec.

(** ** An empty file on a small disk *)
Module SampleFile.
Import SimDisk.
Definition inode : sfs_inode := mkInode 0 SFS_TYPE_FILE 1 (replicate 15 0) 0 (replicate 110 0).
Definition sv : sfs_vnode := mkSv (mkVnode 1 0 (Some (mkUlock false true)) (Some sfs_fileops)) inode 8 false.
Definition disk : sfs_fs simdisk :=
  mkSfs (mkSuper SFS_MAGIC 13 (replicate 32 0) (replicate 472 0)) false (idle_lhd (mkSim ∅ 13 []) zero_buffer)
    (mkArray 1 1 (Some [Some 0])) (mkBitmap 13 [255; 237]) false {[0 := sv]}.
Lemma disk_ok : fs_ok disk.
Proof.
  split; simpl.
  - split; [|by apply Forall_nil_2]. split; simpl; try done. apply zero_block.
  - apply small_bitmap_ok.
  - unfold nblocks. simpl. lia.
  - done.
  - unfold nblocks. simpl. lia.
  - done.
Qed.
Lemma no_blocks W k : bptr W inode k = 0.
Proof.
  unfold bptr. destruct (k <? SFS_NDIRECT); [|done]. destruct (zlookup (sfi_direct inode) k) as [w|] eqn:Hw; [|done].
  apply zlookup_Some in Hw as [_ Hw]. by apply lookup_replicate in Hw as [-> _].
Qed.
Lemma words_zero n : Forall word (replicate n 0).
Proof. apply Forall_replicate. unfold word. lia. Qed.
Lemma inode_fine : inode_ok inode.
Proof. split; unfold inode, word, half, SFS_TYPE_FILE; cbn [sfi_size sfi_type sfi_linkcount sfi_direct sfi_indirect sfi_waste]; try lia; (split; [done|apply words_zero]). Qed.
Lemma live_file : live 0 sv disk.
Proof.
  split; [apply disk_ok| |done]. split; [apply inode_fine|..].
  - intros b [Hb [->|(k & _ & Hk)]]; [done|]. simpl in Hk. rewrite no_blocks in Hk. congruence.
  - intros k l _ _ Hk. simpl in Hk. by rewrite no_blocks in Hk.
  - intros k _ Hk. simpl in Hk. by rewrite no_blocks in Hk.
Qed.
Definition data : list Z := [72; 105].
Lemma data_ok rw : request_ok (rq_kuio (match rw with UIO_READ => [] | UIO_WRITE => data end) 2 700 rw).
Proof. apply (kuio_ok data 700 rw); simpl; [lia..|]. repeat (apply Forall_cons; split; [unfold byte; lia|]). done. Qed.
End SampleFile.
Import SimDisk.
Lemma sfs_read_file_witness :
  wp (sfs_read 0) (read_post 0 SampleFile.sv SampleFile.disk (rq_kuio [] 2 700 UIO_READ) [])
    (SampleFile.disk, rq_kuio [] 2 700 UIO_READ) [].
Proof. apply sfs_read_file; [apply SampleFile.live_file|apply (SampleFile.data_ok UIO_READ)|done|simpl; lia|simpl; lia]. Defined.
Lemma sfs_write_read_witness :
  wp (write_read 0 SampleFile.data 700) (λ res _ _, res = None ∨ res = Some (0, SampleFile.data)) SampleFile.disk [].
Proof.
  apply (sfs_write_read 0 SampleFile.sv); [apply SampleFile.live_file|simpl; lia|done| |lia|simpl; lia].
  repeat (apply Forall_cons; split; [unfold byte; lia|]). done.
Defined.
