(* ===== verification/SfsTruncateSpec.v ===== *)
(** * Truncating files of SFS

    [sfs_truncate] drops the pointers past the new end and frees their
    blocks, no other; no block is lost.  The limit is one block too high in
    the indirect block, so a block past the end may stay. *)
From S2P Require Import Prelude Bitmap Array CString Uio Request Disk SfsFormat Vnode Sfs SfsVnode SfsSpec SfsIoSpec.

Section SfsTruncateSpec.
  Context {H : Type} `{!LhdHw H, !LhdLaws H}.
  Abbreviation fs := (sfs_fs H).
  Implicit Types (s : fs) (x : sfs_vnode).

(** ** Freeing blocks *)
(** The blocks in [P] have been freed. *)
Definition freed s s' (P : Z → Prop) : Prop :=
  fs_ok s' ∧ (∃ m d, s' = set_freemapdirty d (set_freemap m s)) ∧
  ∀ b, 0 ≤ b → taken s' b = true ↔ taken s b = true ∧ ¬ P b.
Lemma sfs_bfree_spec s b o :
  fs_ok s → used s b → wp (sfs_bfree b) (λ _ s' o', o' = o ∧ freed s s' (λ c, c = b)) s o.
Proof.
  intros Hok [Hb Ht]. pose proof Hok as [[Hd Hr] Hm Hbl Hn Hbeyond H0]. unfold sfs_bfree, on_freemap. do 2 wp_step.
  wp_call bitmap_unmark_spec; [done|lia|done|]. intros _ m o' (-> & Hm' & Hnb & Hbits). wp_step.
  assert (∀ c, 0 ≤ c → taken (set_freemapdirty true (set_freemap m s)) c = if c =? b then false else taken s c) as Ht'.
  { intros c Hc. unfold taken. simpl. by apply Hbits. }
  split; [done|]. split_and!; [|by eexists _, _|].
  - split; try done; unfold nblocks in *; simpl; [lia| |].
    + intros c Hc. rewrite Ht' by lia. destruct (Z.eqb_spec c b); [lia|]. apply Hbeyond. lia.
    + rewrite Ht' by lia. destruct (Z.eqb_spec 0 b); [lia|done].
  - intros c Hc. rewrite Ht' by lia. destruct (Z.eqb_spec c b); naive_solver.
Qed.
Lemma freed_trans s s1 s2 (P Q R : Z → Prop) :
  freed s s1 P → freed s1 s2 Q → (∀ b, R b ↔ P b ∨ Q b) → freed s s2 R.
Proof.
  intros (_ & (m1 & d1 & ->) & H1) (Hok & (m2 & d2 & ->) & H2) HR. split_and!; [done|by exists m2, d2|].
  intros b Hb. rewrite (H2 b Hb), (H1 b Hb), HR. tauto.
Qed.
Lemma freed_none s (P : Z → Prop) : fs_ok s → (∀ b, ¬ P b) → freed s s P.
Proof.
  intros Hok HP. split_and!; [done| |].
  - exists (sfs_freemap s), (sfs_freemapdirty s). by destruct s.
  - intros b _. specialize (HP b). tauto.
Qed.

(** ** A file that shrinks

    The blocks that are no longer of the file are free; the blocks of others
    are as they were. *)
Record shrinks (sv : Z) x s x' s' : Prop := {
  sh_mem : sfs_mem s' = <[sv := x']> (sfs_mem s);
  sh_vnode : sv_v x' = sv_v x ∧ sv_ino x' = sv_ino x ∧ (x' = x ∨ sv_dirty x' = true);
  sh_meta : sfi_type (sv_i x') = sfi_type (sv_i x) ∧ sfi_linkcount (sv_i x') = sfi_linkcount (sv_i x);
  sh_fs : sfs_super_ s' = sfs_super_ s ∧ sfs_superdirty s' = sfs_superdirty s ∧ sfs_vnodes s' = sfs_vnodes s;
  sh_others : ∀ b, used s b → ¬ owned (blk s) (sv_i x) b → used s' b ∧ blk s' b = blk s b ∧ ¬ owned (blk s') (sv_i x') b;
  sh_owned : ∀ b, owned (blk s') (sv_i x') b → owned (blk s) (sv_i x) b;
  sh_freed : ∀ b, owned (blk s) (sv_i x) b → owned (blk s') (sv_i x') b ∨ taken s' b = false;
  sh_free : ∀ b, 0 ≤ b → taken s b = false → taken s' b = false;
}.
Lemma shrinks_refl sv x s : sfs_mem s !! sv = Some x → shrinks sv x s x s.
Proof.
  intros Hm. split; try done; [by rewrite insert_id| |by left]. split_and!; try done. by left.
Qed.
Lemma shrinks_trans sv x s x1 s1 x2 s2 : live sv x s → shrinks sv x s x1 s1 → shrinks sv x1 s1 x2 s2 → shrinks sv x s x2 s2.
Proof.
  intros Hl [M1 (V1 & I1 & D1) (T1 & L1) (A1 & B1 & C1) O1 W1 F1 E1] [M2 (V2 & I2 & D2) (T2 & L2) (A2 & B2 & C2) O2 W2 F2 E2]. split.
  - by rewrite M2, M1, insert_insert_eq.
  - split_and!; try congruence. destruct D2 as [->|]; [done|by right].
  - split; congruence.
  - split_and!; congruence.
  - intros b Hu Ho. destruct (O1 b Hu Ho) as (Hu1 & Hb1 & Ho1). destruct (O2 b Hu1 Ho1) as (Hu2 & Hb2 & Ho2).
    split_and!; [done|congruence|done].
  - auto.
  - intros b Ho. destruct (fk_used _ _ _ (lv_file _ _ _ Hl) b Ho) as [Hr _]. destruct (F1 b Ho) as [Ho1|Hf1]; [auto|].
    right. apply E2; [lia|done].
  - auto.
Qed.

(** The blocks the inode pointed to and does no longer *)
Definition dropped W (i : sfs_inode) (keep : Z → bool) (id' b : Z) : Prop :=
  b ≠ 0 ∧ ((∃ k, 0 ≤ k < NBLOCKS ∧ keep k = false ∧ bptr W i k = b) ∨ (b = sfi_indirect i ∧ id' = 0)).
(** The pointers that are not kept are dropped, and perhaps the indirect
    block; what is no longer pointed to has been freed. *)
Lemma live_cut sv x s x' s' (keep : Z → bool) :
  live sv x s → fs_ok s' → sfs_mem s' = <[sv := x']> (sfs_mem s) →
  sv_v x' = sv_v x ∧ sv_ino x' = sv_ino x ∧ (x' = x ∨ sv_dirty x' = true) →
  sfi_type (sv_i x') = sfi_type (sv_i x) ∧ sfi_linkcount (sv_i x') = sfi_linkcount (sv_i x) →
  sfs_super_ s' = sfs_super_ s ∧ sfs_superdirty s' = sfs_superdirty s ∧ sfs_vnodes s' = sfs_vnodes s →
  inode_ok (sv_i x') → (sfi_indirect (sv_i x') = sfi_indirect (sv_i x) ∨ sfi_indirect (sv_i x') = 0) →
  (∀ k, 0 ≤ k < NBLOCKS → bptr (blk s') (sv_i x') k = if keep k then bptr (blk s) (sv_i x) k else 0) →
  (∀ b, b ≠ sfi_indirect (sv_i x) → blk s' b = blk s b) →
  (∀ b, 0 ≤ b → taken s' b = true ↔ taken s b = true ∧ ¬ dropped (blk s) (sv_i x) keep (sfi_indirect (sv_i x')) b) →
  live sv x' s' ∧ shrinks sv x s x' s'.
Proof.
  intros Hl Hok' Hm' Hv Hmeta Hfs Hi' Hid Hp Hblk Ht. pose proof Hl as [Hok [Hi Hu Hinj Hind] Hm].
  set (P := dropped (blk s) (sv_i x) keep (sfi_indirect (sv_i x'))) in Ht.
  assert (∀ c, owned (blk s') (sv_i x') c ↔ owned (blk s) (sv_i x) c ∧ ¬ P c) as Ho.
  { intros c. split.
    - intros [Hc [->|(j & Hj & Hjc)]].
      + destruct Hid as [Hid|]; [|done]. rewrite Hid in *. split; [split; [done|by left]|].
        intros [_ [(k & Hk & _ & He)|[_ He]]]; [|congruence]. by apply (Hind k Hk); [congruence|].
      + rewrite Hp in Hjc by done. destruct (keep j) eqn:Hkj; [|congruence]. split; [split; [done|right; by exists j]|].
        intros [_ [(k & Hk & Hkf & He)|[He _]]].
        * assert (j = k) by (apply Hinj; congruence). congruence.
        * by apply (Hind j Hj); congruence.
    - intros [[Hc [->|(j & Hj & Hjc)]] HP]; split; try done.
      + left. destruct Hid as [|Hid]; [done|]. destruct HP. split; [done|]. by right.
      + right. exists j. split; [done|]. rewrite Hp by done. destruct (keep j) eqn:Hkj; [done|]. destruct HP. split; [done|].
        left. by exists j. }
  assert (∀ c, P c → owned (blk s) (sv_i x) c) as HPo.
  { intros c [Hc [(k & Hk & _ & <-)|[-> _]]]; split; try done; [right; by exists k|by left]. }
  assert (∀ c, used s c → ¬ P c → used s' c) as Hu'.
  { intros c [Hc Htc] HP. unfold used, nblocks in *. destruct Hfs as (-> & _). split; [done|]. apply Ht; [lia|done]. }
  split; split; try done.
  - split; try done.
    + intros c [Hc HP]%Ho. apply Hu'; [by apply Hu|done].
    + intros j j' Hj Hj'. rewrite !Hp by done. destruct (keep j), (keep j'); try congruence. by apply Hinj.
    + intros j Hj. rewrite Hp by done. destruct (keep j); [|done]. intros Hne. destruct Hid as [-> | ->]; [by apply Hind|done].
  - by rewrite Hm', lookup_insert_eq.
  - intros c Hc Hn. split_and!; [apply Hu'; [done|auto]| |rewrite Ho; tauto]. apply Hblk. intros ->. apply Hn.
    split; [destruct Hc; lia|by left].
  - intros c Hc. apply Ho in Hc. tauto.
  - intros c Hc. destruct (Hu c Hc) as [Hr Htc]. destruct (taken s' c) eqn:He; [left|by right]. apply Ho. split; [done|].
    apply Ht in He; [tauto|lia].
  - intros c Hc Hf. destruct (taken s' c) eqn:He; [|done]. apply Ht in He; [|done]. destruct He. congruence.
Qed.
(** A direct block is dropped. *)
Lemma live_drop sv x s k l b s1 :
  live sv x s → 0 ≤ k < 15 → bptr (blk s) (sv_i x) k = b → b ≠ 0 → zinsert k 0 (sfi_direct (sv_i x)) = Some l →
  freed s s1 (λ c, c = b) →
  let x' := set_i (set_direct l (sv_i x)) x in let s' := set_smem (<[sv := x']> (sfs_mem s1)) s1 in
  live sv x' s' ∧ shrinks sv x s x' s'.
Proof.
  intros Hl Hk Hb Hb0 Hz (Hok1 & (m & d & ->) & Ht) x' s'. pose proof (fk_inode _ _ _ (lv_file _ _ _ Hl)) as Hi.
  apply (live_cut _ _ _ _ _ (λ j, negb (j =? k))); try done.
  - by apply fs_ok_smem.
  - split_and!; try done. by right.
  - eapply direct_insert; [done| |done]. unfold word. lia.
  - by left.
  - intros j _. unfold x'. simpl. erewrite bptr_direct by done. by destruct (j =? k).
  - intros c Hc. change (taken s' c) with (taken (set_freemapdirty d (set_freemap m s)) c). rewrite (Ht c Hc).
    split; (intros [Htc Hn]; split; [done|]); intros Hx; apply Hn.
    + destruct Hx as [Hc0 [(j & Hj & Hkj & <-)|[-> Hind]]]; [|done]. destruct (Z.eqb_spec j k); [congruence|done].
    + subst c. split; [done|]. left. exists k. rewrite Z.eqb_refl. unfold NBLOCKS. split_and!; [lia|lia|done..].
Qed.

(** ** The direct blocks *)
Definition trunc_post (sv : Z) x s (keep : Z → bool) x' s' : Prop :=
  live sv x' s' ∧ shrinks sv x s x' s' ∧ sfi_size (sv_i x') = sfi_size (sv_i x) ∧
  (∀ b, b ≠ sfi_indirect (sv_i x) → blk s' b = blk s b) ∧
  ∀ k, 0 ≤ k < NBLOCKS → bptr (blk s') (sv_i x') k = if keep k then bptr (blk s) (sv_i x) k else 0.
Lemma truncate_direct_spec n i sv x0 s0 x s blocklen o :
  live sv x0 s0 → 0 ≤ i → i + Z.of_nat n ≤ 15 →
  trunc_post sv x0 s0 (λ k, negb ((k <? i) && (k <? 15) && (blocklen <=? k))) x s → sfi_indirect (sv_i x) = sfi_indirect (sv_i x0) →
  (∀ b, blk s b = blk s0 b) →
  wp (kfor n i (truncate_direct sv blocklen)) (λ _ s' o', o' = o ∧ ∃ x',
    trunc_post sv x0 s0 (λ k, negb ((k <? i + Z.of_nat n) && (k <? 15) && (blocklen <=? k))) x' s' ∧
    sfi_indirect (sv_i x') = sfi_indirect (sv_i x0) ∧ ∀ b, blk s' b = blk s0 b) s o.
Proof.
  intros Hl0. revert i x s. induction n as [|n IH]; intros i x s Hi0 Hin Hpost Hid Hbk; cbn [kfor].
  { wp_step. split; [done|]. exists x. by rewrite Z.add_0_r. }
  pose proof Hpost as (Hl & Hsh & Hsz & Hbi & Hp). pose proof (io_direct _ (fk_inode _ _ _ (lv_file _ _ _ Hl))) as [Hlen _].
  destruct (proj2 (zlookup_is_Some (sfi_direct (sv_i x)) i)) as [b Hb]; [lia|].
  assert (bptr (blk s) (sv_i x) i = b) as Hpi by (unfold bptr, SFS_NDIRECT; destruct (Z.ltb_spec i 15); [by rewrite Hb|lia]).
  assert (bptr (blk s0) (sv_i x0) i = b) as Hpi0.
  { rewrite Hp in Hpi by (unfold NBLOCKS; lia). by rewrite Z.ltb_irrefl in Hpi. }
  replace (i + Z.of_nat (S n)) with (i + 1 + Z.of_nat n) by lia.
  wp_step. unfold truncate_direct at 1. wp_step. eapply wp_get_sv; [apply Hl|]. rewrite Hb. wp_step. wp_step.
  destruct ((blocklen <=? i) && negb (b =? 0)) eqn:Hc.
  - apply andb_true_iff in Hc as [Hle Hb0]. apply Z.leb_le in Hle. assert (b ≠ 0) as Hbne by lia.
    wp_step. wp_call sfs_bfree_spec; [apply Hl| |].
    { rewrite <- Hpi. eapply live_ptr; [done|unfold NBLOCKS; lia|lia]. }
    intros _ s1 o1 (-> & Hfr). assert (∃ l, zinsert i 0 (sfi_direct (sv_i x)) = Some l) as [l Hl'] by (eexists; apply zinsert_ok; lia).
    rewrite Hl'. wp_step. wp_step. destruct (live_drop sv x s i l b s1) as [Hl1 Hsh1]; try done; [lia|].
    destruct Hfr as (_ & (m & d & ->) & _). eapply wp_upd_sv; [apply Hl|].
    apply (IH (i + 1) (set_i (set_direct l (sv_i x)) x)); try done; [lia..|]. split_and!; try done.
    + by eapply shrinks_trans.
    + intros k Hk. simpl. erewrite bptr_direct; [|apply Hl|done].
      destruct (Z.eqb_spec k i) as [->|Hne].
      * destruct (Z.ltb_spec i (i + 1)), (Z.ltb_spec i 15), (Z.leb_spec blocklen i); try lia. done.
      * etransitivity; [apply (Hp k Hk)|]. destruct (Z.ltb_spec k i), (Z.ltb_spec k (i + 1)); try lia; done.
  - wp_step. apply (IH (i + 1) x); try done; [lia..|]. split_and!; try done. intros k Hk. rewrite Hp by done.
    destruct (decide (k = i)) as [->|Hne].
    + rewrite Hpi0. destruct (Z.ltb_spec i i), (Z.ltb_spec i (i + 1)), (Z.ltb_spec i 15); try lia. simpl.
      destruct (Z.leb_spec blocklen i); simpl; [|done]. simpl in Hc. destruct (Z.eqb_spec b 0); [done|]. by destruct (Z.leb_spec blocklen i); [|lia].
    + destruct (Z.ltb_spec k i), (Z.ltb_spec k (i + 1)); try lia; done.
Qed.

(** ** The indirect block *)
Definition wd (ws : list Z) (k : Z) : Z := default 0 (zlookup ws k).
Lemma wd_insert ws j w ws' k : zinsert j w ws = Some ws' → wd ws' k = if k =? j then w else wd ws k.
Proof.
  intros [Hj ->]%zinsert_Some. unfold wd, zlookup. destruct (Z.eqb_spec k j) as [->|Hne].
  - rewrite decide_True by lia. by rewrite list_lookup_insert_eq by lia.
  - case_decide; [|done]. by rewrite list_lookup_insert_ne by lia.
Qed.
Record cut_post (j blocklen : Z) (ws ws' : list Z) (nz dirty nz' dirty' : bool) : Prop := {
  cp_len : length ws' = length ws;
  cp_words : Forall word ws → Forall word ws';
  cp_val : ∀ k, 0 ≤ k < 128 → wd ws' k = if (j <=? k) && (blocklen <? 15 + k) then 0 else wd ws k;
  cp_nz : nz' = false → nz = false ∧ ∀ k, j ≤ k < 128 → wd ws' k = 0;
  cp_dirty : dirty' = false → dirty = false ∧ ∀ k, j ≤ k < 128 → blocklen < 15 + k → wd ws k = 0;
}.
(** The entries from [j] on that are dropped *)
Definition past_end (j blocklen : Z) (ws : list Z) (b : Z) : Prop :=
  b ≠ 0 ∧ ∃ k, j ≤ k < 128 ∧ blocklen < 15 + k ∧ wd ws k = b.
(** Entry [j] is dropped. *)
Lemma cut_post_drop j blocklen ws ws1 ws' nz d nz' d' :
  0 ≤ j < 128 → zinsert j 0 ws = Some ws1 → blocklen < 15 + j →
  cut_post (j + 1) blocklen ws1 ws' nz true nz' d' → cut_post j blocklen ws ws' nz d nz' d'.
Proof.
  intros Hj Hi1 Hbl [Hcl Hcw Hcv Hcn Hcd]. pose proof (λ k, wd_insert ws j 0 ws1 k Hi1) as Hw1.
  apply zinsert_Some in Hi1 as [_ ->]. rewrite length_insert in Hcl. split; try done.
  - intros Hws. apply Hcw, Forall_insert; [done|]. unfold word. lia.
  - intros k Hk. rewrite Hcv, Hw1 by done. destruct (Z.leb_spec (j + 1) k), (Z.leb_spec j k), (Z.eqb_spec k j); try lia; try done.
    simpl. subst k. destruct (Z.ltb_spec blocklen (15 + j)); [done|lia].
  - intros He. destruct (Hcn He) as [? Hz]. split; [done|]. intros k Hk. destruct (decide (k = j)) as [->|]; [|apply Hz; lia].
    rewrite Hcv, Hw1 by lia. destruct (Z.leb_spec (j + 1) j); [lia|]. simpl. by rewrite Z.eqb_refl.
  - intros He. by destruct (Hcd He).
Qed.
Lemma past_end_drop j blocklen ws ws1 b :
  0 ≤ j < 128 → zinsert j 0 ws = Some ws1 → blocklen < 15 + j → wd ws j ≠ 0 →
  past_end j blocklen ws b ↔ b = wd ws j ∨ past_end (j + 1) blocklen ws1 b.
Proof.
  intros Hj Hi1 Hbl Hw0. pose proof (λ k, wd_insert ws j 0 ws1 k Hi1) as Hw1. split.
  - intros (Hb & k & Hk & Hbk & Hwk). destruct (decide (k = j)) as [->|]; [by left|right]. split; [done|]. exists k.
    rewrite Hw1. destruct (Z.eqb_spec k j); [lia|]. split_and!; try done; lia.
  - intros [->|(Hb & k & Hk & Hbk & Hwk)]; [split; [lia|]; exists j; split_and!; try done; lia|]. split; [done|]. exists k.
    rewrite Hw1 in Hwk. destruct (Z.eqb_spec k j); [lia|]. split_and!; try done; lia.
Qed.
(** Entry [j] is kept. *)
Lemma cut_post_keep j blocklen ws ws' nz d nz' d' :
  0 ≤ j < 128 → (blocklen < 15 + j → wd ws j = 0) →
  cut_post (j + 1) blocklen ws ws' (nz || negb (wd ws j =? 0)) d nz' d' → cut_post j blocklen ws ws' nz d nz' d'.
Proof.
  intros Hj Hno [Hcl Hcw Hcv Hcn Hcd]. split; try done.
  - intros k Hk. rewrite Hcv by done. destruct (Z.leb_spec (j + 1) k), (Z.leb_spec j k); try lia; try done.
    assert (k = j) as -> by lia. simpl. destruct (Z.ltb_spec blocklen (15 + j)); [|done]. by apply Hno.
  - intros He. destruct (Hcn He) as [Hnn Hz]. apply orb_false_iff in Hnn as [? Hw0]. split; [done|].
    intros k Hk. destruct (decide (k = j)) as [->|]; [|apply Hz; lia]. rewrite Hcv by lia.
    destruct (Z.leb_spec (j + 1) j); [lia|]. simpl. lia.
  - intros He. destruct (Hcd He) as [? Hz]. split; [done|]. intros k Hk Hbl.
    destruct (decide (k = j)) as [->|]; [auto|apply Hz; lia].
Qed.
Lemma past_end_keep j blocklen ws b :
  (blocklen < 15 + j → wd ws j = 0) → past_end j blocklen ws b ↔ past_end (j + 1) blocklen ws b.
Proof.
  intros Hno. split.
  - intros (Hb & k & Hk & Hbk & Hwk). split; [done|]. exists k. destruct (decide (k = j)) as [->|]; [|split_and!; try done; lia].
    rewrite (Hno Hbk) in Hwk. congruence.
  - intros (Hb & k & Hk & Hbk & Hwk). split; [done|]. exists k. split_and!; try done; lia.
Qed.
Lemma truncate_indirect_spec n j blocklen ws nz dirty s o :
  fs_ok s → length ws = 128%nat → 0 ≤ j → j + Z.of_nat n = 128 →
  (∀ k, j ≤ k < 128 → wd ws k ≠ 0 → used s (wd ws k)) →
  (∀ k l, j ≤ k < 128 → j ≤ l < 128 → wd ws k ≠ 0 → wd ws k = wd ws l → k = l) →
  wp (truncate_indirect n blocklen j ws nz dirty) (λ '(ws', nz', dirty') s' o', o' = o ∧
    cut_post j blocklen ws ws' nz dirty nz' dirty' ∧ freed s s' (past_end j blocklen ws)) s o.
Proof.
  revert j ws nz dirty s. induction n as [|n IH]; intros j ws nz dirty s Hok Hlen Hj0 Hj Hu Hinj; cbn [truncate_indirect].
  { wp_step. split_and!; [done| |].
    - split; try done; [|intros; split; [done|lia]..]. intros k Hk. destruct (Z.leb_spec j k); [lia|done].
    - apply freed_none; [done|]. intros b (_ & k & ? & _). lia. }
  destruct (proj2 (zlookup_is_Some ws j)) as [w Hw]; [lia|]. assert (wd ws j = w) as Hwj by (unfold wd; by rewrite Hw).
  rewrite Hw. do 3 wp_step. unfold SFS_NDIRECT. destruct ((blocklen <? 15 + j) && negb (w =? 0)) eqn:Hdrop.
  - apply andb_true_iff in Hdrop as [Hbl Hw0]. apply Z.ltb_lt in Hbl. assert (w ≠ 0) as Hwne by lia.
    assert (used s w) as Huw by (rewrite <- Hwj; apply Hu; lia).
    wp_step. wp_call sfs_bfree_spec; [done..|]. intros _ s1 o1 (-> & Hfr). pose proof Hfr as (Hok1 & (m & d & Hs1) & Ht1).
    assert (∃ ws1, zinsert j 0 ws = Some ws1) as [ws1 Hi1] by (eexists; apply zinsert_ok; lia). rewrite Hi1. do 3 wp_step.
    pose proof (λ k, wd_insert ws j 0 ws1 k Hi1) as Hw1. cbv beta iota.
    assert (length ws1 = 128%nat) as Hlen1 by (pose proof Hi1 as [_ ->]%zinsert_Some; by rewrite length_insert).
    assert (∀ k, j < k → wd ws1 k = wd ws k) as Hsame by (intros k Hk; rewrite Hw1; by destruct (Z.eqb_spec k j); [lia|]).
    destruct (proj2 (zlookup_is_Some ws1 j)) as [v1 Hv1]; [lia|]. rewrite Hv1. do 2 wp_step.
    assert (v1 = 0) as ->. { specialize (Hw1 j). unfold wd in Hw1. by rewrite Hv1, Z.eqb_refl in Hw1. }
    rewrite orb_false_r. eapply wp_mono; [apply IH; try done; try lia|].
    + intros k Hk. rewrite Hsame by lia. intros Hne. destruct (Hu k ltac:(lia) Hne) as [Hr Htk]. split; [by rewrite Hs1|].
      apply Ht1; [lia|]. split; [done|]. intros He. assert (k = j); [|lia]. apply Hinj; lia.
    + intros k l Hk Hl. rewrite !Hsame by lia. apply Hinj; lia.
    + cbn beta. intros [[ws' nz'] d'] s' o' (-> & Hc & Hf). split_and!; [done|by eapply cut_post_drop; [lia|..]|].
      eapply freed_trans; [exact Hfr|exact Hf|]. intros b. rewrite <- Hwj. apply past_end_drop; lia || done.
  - wp_step. cbv beta iota. rewrite Hw. do 2 wp_step. assert (blocklen < 15 + j → wd ws j = 0) as Hno.
    { intros Hb. destruct (Z.ltb_spec blocklen (15 + j)); [|lia]. simpl in Hdrop. lia. }
    rewrite <- Hwj. eapply wp_mono; [apply IH; try done; try lia|].
    + intros k Hk. apply Hu. lia.
    + intros k l Hk Hl. apply Hinj; lia.
    + cbn beta. intros [[ws' nz'] d'] s' o' (-> & Hc & Hf). split_and!; [done|by apply cut_post_keep; [lia|..]|].
      eapply freed_trans; [by apply (freed_none s (λ _, False)); [done|tauto]|exact Hf|]. intros b.
      rewrite (past_end_keep j) by done. tauto.
Qed.

Lemma bptr_wd W i k :
  sfi_indirect i ≠ 0 → 0 ≤ k < 128 → bptr W i (k + 15) = wd (words_of (W (sfi_indirect i))) k.
Proof.
  intros Hid Hk. unfold bptr, SFS_NDIRECT. destruct (Z.ltb_spec (k + 15) 15); [lia|]. destruct (Z.eqb_spec (sfi_indirect i) 0); [done|].
  by rewrite Z.add_simpl_r.
Qed.
Lemma past_end_dropped W i blocklen id' b :
  sfi_indirect i ≠ 0 →
  dropped W i (λ k, (k <? 15) || (k <=? blocklen)) id' b ↔
  past_end 0 blocklen (words_of (W (sfi_indirect i))) b ∨ (b ≠ 0 ∧ b = sfi_indirect i ∧ id' = 0).
Proof.
  intros Hid. unfold dropped, past_end. split.
  - intros [Hb [(k & Hk & Hkeep & He)|?]]; [left|right; tauto]. split; [done|]. unfold NBLOCKS in Hk.
    destruct (Z.ltb_spec k 15); [done|]. simpl in Hkeep. apply Z.leb_gt in Hkeep. exists (k - 15).
    rewrite <- bptr_wd, Z.sub_add by (done || lia). split_and!; try done; lia.
  - intros [(Hb & k & Hk & Hbl & He)|(Hb & ? & ?)]; split; try done; [left|by right]. exists (k + 15). rewrite bptr_wd by done.
    unfold NBLOCKS. split_and!; try done; lia.
Qed.
(** The indirect block stays, with the entries past the end cleared. *)
Lemma idblock_stays sv x s s' blocklen :
  live sv x s → sfi_indirect (sv_i x) ≠ 0 → fs_ok s' → sfs_mem s' = sfs_mem s →
  sfs_super_ s' = sfs_super_ s ∧ sfs_superdirty s' = sfs_superdirty s ∧ sfs_vnodes s' = sfs_vnodes s →
  let ws := words_of (blk s (sfi_indirect (sv_i x))) in
  (∀ b, b ≠ sfi_indirect (sv_i x) → blk s' b = blk s b) →
  (∀ k, 0 ≤ k < 128 → wd (words_of (blk s' (sfi_indirect (sv_i x)))) k = if k + 15 <=? blocklen then wd ws k else 0) →
  (∀ b, 0 ≤ b → taken s' b = true ↔ taken s b = true ∧ ¬ past_end 0 blocklen ws b) →
  trunc_post sv x s (λ k, (k <? 15) || (k <=? blocklen)) x s'.
Proof.
  intros Hl Hid Hok' Hm Hfs ws Hb Hw Ht.
  assert (∀ k, 0 ≤ k < NBLOCKS → bptr (blk s') (sv_i x) k =
    if (k <? 15) || (k <=? blocklen) then bptr (blk s) (sv_i x) k else 0) as Hp.
  { unfold NBLOCKS. intros k Hk. destruct (Z.ltb_spec k 15); simpl.
    - unfold bptr, SFS_NDIRECT. by destruct (Z.ltb_spec k 15); [|lia].
    - replace k with (k - 15 + 15) at 1 3 by lia. rewrite !bptr_wd, Hw by (done || lia). by rewrite Z.sub_add. }
  destruct (live_cut sv x s x s' (λ k, (k <? 15) || (k <=? blocklen))) as [Hl' Hsh']; try done.
  - rewrite Hm, insert_id; [done|apply Hl].
  - split_and!; try done. by left.
  - apply Hl.
  - by left.
  - intros b H0. rewrite (Ht b H0), past_end_dropped by done. fold ws. tauto.
Qed.
(** The indirect block had no other entries, and goes. *)
Lemma idblock_goes sv x s s1 blocklen :
  live sv x s → sfi_indirect (sv_i x) ≠ 0 → fs_ok s1 → sfs_mem s1 = sfs_mem s →
  sfs_super_ s1 = sfs_super_ s ∧ sfs_superdirty s1 = sfs_superdirty s ∧ sfs_vnodes s1 = sfs_vnodes s →
  let ws := words_of (blk s (sfi_indirect (sv_i x))) in
  (∀ b, blk s1 b = blk s b) →
  (∀ k, 0 ≤ k < 128 → k + 15 ≤ blocklen → wd ws k = 0) →
  (∀ b, 0 ≤ b → taken s1 b = true ↔ (taken s b = true ∧ ¬ past_end 0 blocklen ws b) ∧ b ≠ sfi_indirect (sv_i x)) →
  let x' := set_i (set_indirect 0 (sv_i x)) x in
  trunc_post sv x s (λ k, (k <? 15) || (k <=? blocklen)) x' (set_smem (<[sv := x']> (sfs_mem s1)) s1).
Proof.
  intros Hl Hid Hok' Hm Hfs ws Hb Hw Ht x'. set (s' := set_smem _ _).
  assert (∀ k, 0 ≤ k < NBLOCKS → bptr (blk s') (sv_i x') k =
    if (k <? 15) || (k <=? blocklen) then bptr (blk s) (sv_i x) k else 0) as Hp.
  { unfold NBLOCKS. intros k Hk. unfold bptr at 1, SFS_NDIRECT. simpl. destruct (Z.ltb_spec k 15); simpl.
    - unfold bptr, SFS_NDIRECT. by destruct (Z.ltb_spec k 15); [|lia].
    - destruct (Z.leb_spec k blocklen); [|done]. replace k with (k - 15 + 15) by lia. rewrite bptr_wd by (done || lia).
      symmetry. apply Hw; lia. }
  destruct (live_cut sv x s x' s' (λ k, (k <? 15) || (k <=? blocklen))) as [Hl' Hsh']; try done.
  - by apply fs_ok_smem.
  - simpl. by rewrite Hm.
  - split_and!; try done. by right.
  - pose proof (fk_inode _ _ _ (lv_file _ _ _ Hl)) as []. split; done.
  - by right.
  - intros b _. apply Hb.
  - intros b H0. change (taken s' b) with (taken s1 b). rewrite (Ht b H0), past_end_dropped by done. fold ws. simpl. split; [tauto|].
    intros [? Hn]. split; [tauto|]. intros ->. apply Hn. by right.
  - split_and!; try done. intros b _. apply Hb.
Qed.
Lemma truncate_idblock_spec sv x s blocklen o :
  live sv x s → sfi_indirect (sv_i x) ≠ 0 →
  wp (truncate_idblock sv blocklen (sfi_indirect (sv_i x))) (λ res s' o', o' = o ∧ res = 0 ∧ ∃ x',
    trunc_post sv x s (λ k, (k <? 15) || (k <=? blocklen)) x' s') s o.
Proof.
  intros Hl Hid. pose proof Hl as [Hok [Hi Hus Hinj Hind] Hm]. set (id := sfi_indirect (sv_i x)) in *.
  assert (used s id) as Huid by (apply Hus; split; [done|by left]).
  pose proof (blk_block s id Hok) as [Hbl Hby]. destruct (bytes_words 128 _ Hbl Hby) as (Hbw & Hlen & Hwds).
  set (ws := words_of (blk s id)) in *.
  assert (∀ k, 0 ≤ k < 128 → bptr (blk s) (sv_i x) (k + 15) = wd ws k) as Hpw by (intros; by apply bptr_wd).
  unfold truncate_idblock. wp_step. wp_call sfs_rblock_spec; [done|done|by apply used_range|].
  intros [res data] s1 o1 (-> & [= -> ->] & Hd1). wp_cond. destruct (fs_ok_disk _ _ _ Hok Hd1) as [Hok1 Hblk1].
  destruct Hd1 as (dv & -> & Hdisk1). fold ws. wp_step. change (Z.to_nat SFS_DBPERIDB) with 128%nat.
  wp_call truncate_indirect_spec; try done.
  { intros k Hk Hne. rewrite <- Hpw in * by done. apply (live_ptr sv x s); [done|unfold NBLOCKS; lia|done]. }
  { intros k l Hk Hl2. rewrite <- !Hpw by done. intros Hne He. assert (k + 15 = l + 15); [|lia].
    apply Hinj; unfold NBLOCKS; try lia; done. }
  intros [[ws' nz] dirty] s2 o2 (-> & [Hcl Hcw Hcv Hcn Hcd] & (Hok2 & (m & d & ->) & Ht2)).
  set (s2 := set_freemapdirty d (set_freemap m (set_device dv s))) in *.
  assert (∀ b, blk s2 b = blk s b) as Hblk2 by done.
  assert (used s2 id) as Hu2.
  { destruct Huid. split; [done|]. apply Ht2; [lia|]. split; [done|]. intros (_ & k & Hk & _ & He).
    rewrite <- Hpw in He by done. apply (Hind (k + 15)); [unfold NBLOCKS; lia|congruence|done]. }
  assert (∀ k, 0 ≤ k < 128 → wd ws' k = if k + 15 <=? blocklen then wd ws k else 0) as Hcv'.
  { intros k Hk. rewrite Hcv by done. simpl. destruct (Z.leb_spec 0 k); [|lia].
    destruct (Z.ltb_spec blocklen (15 + k)), (Z.leb_spec (k + 15) blocklen); lia || done. }
  destruct nz; cbn [negb]; [destruct dirty|].
  - wp_call sfs_wblock_spec; [done| |by apply used_range|].
    { split; [|apply bytes_of_range]. rewrite length_bytes_of, Hcl, Hlen. done. }
    intros r s3 o3 (-> & -> & Hd3). destruct (fs_ok_disk _ _ _ Hok2 Hd3) as [Hok3 Hblk3]. destruct Hd3 as (dv3 & -> & _).
    split_and!; [done..|]. exists x. apply idblock_stays; try done; fold id.
    + intros b Hb. rewrite Hblk3. by destruct (Z.eqb_spec b id).
    + intros k Hk. rewrite Hblk3, Z.eqb_refl, words_bytes by by apply Hcw. by apply Hcv'.
  - wp_step. split_and!; [done..|]. exists x. apply idblock_stays; try done; fold id. destruct (Hcd eq_refl) as [_ Hz].
    intros k Hk. rewrite Hblk2. destruct (Z.leb_spec (k + 15) blocklen); [done|]. apply Hz; lia.
  - destruct (Hcn eq_refl) as [_ Hz]. wp_step. wp_call sfs_bfree_spec; [done..|].
    intros _ s3 o3 (-> & (Hok3 & (m3 & d3 & ->) & Ht3)). wp_step. eapply wp_upd_sv; [done|]. wp_step. split_and!; [done..|].
    eexists. apply idblock_goes; try done; fold id ws.
    + intros k Hk Hle. rewrite <- (Hz k Hk), Hcv' by done. by destruct (Z.leb_spec (k + 15) blocklen); [|lia].
    + intros b Hb. rewrite (Ht3 b Hb), (Ht2 b Hb). done.
Qed.

(** ** The whole *)
(** The blocks that stay.  In the indirect block, the one after the last
    stays too. *)
Definition kept (blocklen k : Z) : bool := if k <? 15 then k <? blocklen else k <=? blocklen.
Definition truncate_post (sv len : Z) x s (o : oracle) (res : Z) s' (o' : oracle) : Prop :=
  o' = o ∧ res = 0 ∧ ∃ x', live sv x' s' ∧ shrinks sv x s x' s' ∧ sfi_size (sv_i x') = len ∧
    (∀ k, 0 ≤ k < NBLOCKS → bptr (blk s') (sv_i x') k = if kept ((len + 511) / 512) k then bptr (blk s) (sv_i x) k else 0) ∧
    ∀ p, 0 ≤ p < len → p < MAXSIZE → byte_at (blk s') (sv_i x') p = byte_at (blk s) (sv_i x) p.
Lemma truncate_blocklen len :
  0 ≤ len → len + 512 < 2 ^ 31 →
  u32 (Z.quot (s32 (s32 (len + SFS_BLOCKSIZE) - 1)) SFS_BLOCKSIZE) = (len + 511) / 512.
Proof.
  intros H0 H1. unfold SFS_BLOCKSIZE. rewrite (s32_small (len + 512)), s32_small by lia.
  replace (len + 512 - 1) with (len + 511) by lia. rewrite Z.quot_div_nonneg, u32_small; [done| |lia..].
  split; [apply Z.div_pos; lia|apply Z.div_lt_upper_bound; lia].
Qed.
(** The second part, whether it does anything or not *)
Lemma truncate_rest_spec sv x s blocklen o :
  live sv x s → 0 ≤ blocklen →
  wp (if (blocklen <? SFS_NDIRECT + SFS_DBPERIDB - 1) && negb (sfi_indirect (sv_i x) =? 0)
      then truncate_idblock sv blocklen (sfi_indirect (sv_i x)) else ret 0)
    (λ res s' o', o' = o ∧ res = 0 ∧ ∃ x', trunc_post sv x s (λ k, (k <? 15) || (k <=? blocklen)) x' s') s o.
Proof.
  intros Hl Hb. destruct (_ && _) eqn:Hc.
  - apply truncate_idblock_spec; [done|]. lia.
  - wp_step. split_and!; [done..|]. exists x. split_and!; try done; [apply shrinks_refl, Hl|].
    unfold NBLOCKS, SFS_NDIRECT, SFS_DBPERIDB in *. intros k Hk. destruct (Z.ltb_spec k 15), (Z.leb_spec k blocklen); simpl; try done.
    unfold bptr, SFS_NDIRECT. destruct (Z.ltb_spec k 15); [lia|]. destruct (Z.eqb_spec (sfi_indirect (sv_i x)) 0); [done|lia].
Qed.
Lemma trunc_byte sv x s keep x' s' p :
  live sv x s → trunc_post sv x s keep x' s' → 0 ≤ p < MAXSIZE → keep (p / 512) = true →
  byte_at (blk s') (sv_i x') p = byte_at (blk s) (sv_i x) p.
Proof.
  intros Hl (_ & _ & _ & Hb & Hp) Hr Hk. assert (0 ≤ p / 512 < NBLOCKS) as Hr'.
  { unfold MAXSIZE in Hr. unfold NBLOCKS. split; [apply Z.div_pos; lia|apply Z.div_lt_upper_bound; lia]. }
  unfold byte_at, fblock. rewrite Hp, Hk by done. destruct (Z.eqb_spec (bptr (blk s) (sv_i x) (p / 512)) 0); [done|].
  rewrite Hb; [done|]. by apply (fk_ind _ _ _ (lv_file _ _ _ Hl)).
Qed.
End SfsTruncateSpec.

(** ** A file with a block *)
Module ShortFile.
Import SimDisk.
Definition inode : sfs_inode := mkInode 700 SFS_TYPE_FILE 1 (10 :: 11 :: replicate 13 0) 0 (replicate 110 0).
Definition sv : sfs_vnode := mkSv (mkVnode 1 0 (Some (mkUlock false true)) (Some sfs_fileops)) inode 8 false.
Definition disk : sfs_fs simdisk := set_smem {[0 := sv]} SampleFile.disk.
Lemma blocks W k : 0 ≤ k → bptr W inode k = if k =? 0 then 10 else if k =? 1 then 11 else 0.
Proof.
  intros Hk. unfold bptr. destruct (Z.ltb_spec k SFS_NDIRECT) as [Hlt|Hge]; unfold SFS_NDIRECT in *.
  - destruct (zlookup (sfi_direct inode) k) as [w|] eqn:Hw.
    + apply zlookup_Some in Hw as [_ Hw]. simpl in Hw. destruct (Z.eqb_spec k 0) as [->|]; [by simplify_eq/=|].
      destruct (Z.eqb_spec k 1) as [->|]; [by simplify_eq/=|]. destruct (Z.to_nat k) as [|[|m]] eqn:Hn; [lia..|].
      simpl in Hw. apply (lookup_replicate 13) in Hw as [-> _]. done.
    + destruct (proj2 (zlookup_is_Some (sfi_direct inode) k)) as [w Hw']; [simpl; lia|congruence].
  - simpl. destruct (Z.eqb_spec k 0), (Z.eqb_spec k 1); lia.
Qed.
Lemma short_live : live 0 sv disk.
Proof.
  split; [apply fs_ok_smem, SampleFile.disk_ok| |done]. split.
  - destruct SampleFile.inode_fine. split; try done; unfold word, half; simpl; try lia. split; [done|].
    do 2 (apply Forall_cons; split; [unfold word; lia|]). apply (SampleFile.words_zero 13).
  - intros b [Hb [->|(k & Hk & He)]]; [done|]. simpl in He. rewrite blocks in He by lia.
    destruct (k =? 0); [subst b; by split; [unfold nblocks; simpl; lia|]|].
    destruct (k =? 1); [subst b; by split; [unfold nblocks; simpl; lia|]|]. congruence.
  - intros k l Hk Hl. simpl. rewrite !blocks by lia. destruct (Z.eqb_spec k 0), (Z.eqb_spec k 1), (Z.eqb_spec l 0), (Z.eqb_spec l 1); lia.
  - intros k Hk. simpl. rewrite blocks by lia. destruct (k =? 0), (k =? 1); done.
Qed.
End ShortFile.
Import SimDisk.
