(* ===== verification/SfsDirSpec.v ===== *)
(** * Directories of SFS

    A directory is a finite map from names to inode numbers, kept as a file of
    entries: looking up, adding and removing a name do to the file what they
    do to the map. *)
From S2P Require Import Prelude Bitmap Array CString Uio Request Disk SfsFormat Vnode Sfs SfsVnode SfsSpec SfsIoSpec.

(** The string in a buffer *)
Fixpoint cstr (l : list Z) : list Z :=
  match l with
  | [] => []
  | c :: l' => if c =? 0 then [] else c :: cstr l'
  end.
Lemma cstr_has_str l pre :
  has_str (pre ++ l ++ [0]) (Z.of_nat (length pre)) (cstr l).
Proof.
  revert pre. induction l as [|c l IH]; intros pre; simpl.
  - apply has_str_nil. rewrite zlookup_nat. by rewrite lookup_app_r, Nat.sub_diag by lia.
  - destruct (Z.eqb_spec c 0) as [->|Hc].
    + apply has_str_nil. rewrite zlookup_nat. by rewrite lookup_app_r, Nat.sub_diag by lia.
    + apply has_str_cons. split_and!; [|done|].
      * rewrite zlookup_nat. by rewrite lookup_app_r, Nat.sub_diag by lia.
      * specialize (IH (pre ++ [c])). rewrite length_app in IH. simpl in IH.
        replace (Z.of_nat (length pre + 1)) with (Z.of_nat (length pre) + 1) in IH by lia. by rewrite <- app_assoc in IH.
Qed.
Lemma cstr_id nm l : Forall (λ c, c ≠ 0) nm → cstr (nm ++ 0 :: l) = nm.
Proof. induction 1 as [|c nm Hc Hnm IH]; simpl; [done|]. destruct (Z.eqb_spec c 0); [done|]. by rewrite IH. Qed.
(** The name of an entry, its last byte being taken for a zero *)
Definition entry_name (d : sfs_dir) : list Z := cstr (take 59 (sfd_name d)).
Lemma entry_name_str d l :
  length (sfd_name d) = 60%nat → zinsert (SFS_NAMELEN - 1) 0 (sfd_name d) = Some l → has_str l 0 (entry_name d).
Proof.
  intros Hl Hz. apply zinsert_Some in Hz as [_ ->]. unfold entry_name. change (Z.to_nat (SFS_NAMELEN - 1)) with 59%nat.
  assert (<[59%nat := 0]> (sfd_name d) = take 59 (sfd_name d) ++ [0]) as ->.
  { rewrite insert_take_drop by lia. rewrite (drop_ge _ 60) by lia. done. }
  apply (cstr_has_str _ []).
Qed.

Section SfsDirSpec.
  Context {H : Type} `{!LhdHw H, !LhdLaws H}.
  Abbreviation fs := (sfs_fs H).
  Implicit Types (s : fs) (x : sfs_vnode) (nm : list Z).

(** ** Entries *)
Definition nent x : Z := sfi_size (sv_i x) / 64.
Definition dentry s x (j : Z) : sfs_dir := decode_dir (byte_at (blk s) (sv_i x) <$> seqZ (64 * j) 64).
Record dir_live (sv : Z) x s : Prop := {
  dl_live : live sv x s;
  dl_type : sfi_type (sv_i x) = SFS_TYPE_DIR;
  dl_size : sfi_size (sv_i x) mod 64 = 0 ∧ sfi_size (sv_i x) ≤ MAXSIZE;
}.
(** Slot [j] holds the name [nm] of inode [ino]. *)
Definition slot s x (j : Z) nm (ino : Z) : Prop :=
  0 ≤ j < nent x ∧ sfd_ino (dentry s x j) = ino ∧ ino ≠ 0 ∧ entry_name (dentry s x j) = nm.
(** The directory as a map; no name is there twice. *)
Definition dir_rep s x (M : gmap (list Z) Z) : Prop :=
  (∀ nm ino, M !! nm = Some ino ↔ ∃ j, slot s x j nm ino) ∧
  (∀ j j' nm ino ino', slot s x j nm ino → slot s x j' nm ino' → j = j').

Lemma nent_size sv x s : dir_live sv x s → sfi_size (sv_i x) = 64 * nent x ∧ 0 ≤ nent x ≤ 1144.
Proof.
  intros [[_ Hf _] _ [Hm Hs]]. pose proof (io_size _ (fk_inode _ _ _ Hf)) as [? _]. unfold nent, MAXSIZE in *.
  Z.to_euclidean_division_equations. lia.
Qed.
Lemma byte_at_byte s i p : fs_ok s → byte (byte_at (blk s) i p).
Proof.
  intros Hok. unfold byte_at, byte_in. destruct (fblock_block s i (p / 512) Hok) as [_ Hb].
  destruct (_ !! _) as [w|] eqn:Hw; simpl; [|unfold byte; lia]. by eapply Forall_lookup_1 in Hw.
Qed.
Lemma dentry_ok s x j : fs_ok s → dir_ok (dentry s x j).
Proof.
  intros Hok. apply decode_dir_ok; [by rewrite length_fmap, length_seqZ|]. apply Forall_fmap, Forall_true.
  intros p. by apply byte_at_byte.
Qed.

(** Nothing that matters has changed. *)
Definition quiet (sv : Z) x s s' : Prop :=
  live sv x s' ∧ advances sv x s x s' ∧ ∀ p, 0 ≤ p < MAXSIZE → byte_at (blk s') (sv_i x) p = byte_at (blk s) (sv_i x) p.
Lemma quiet_refl sv x s : live sv x s → quiet sv x s s.
Proof. intros Hl. split_and!; try done. apply advances_refl, Hl. Qed.
Lemma quiet_trans sv x s s1 s2 : quiet sv x s s1 → quiet sv x s1 s2 → quiet sv x s s2.
Proof.
  intros (_ & Ha1 & Hb1) (Hl2 & Ha2 & Hb2). split_and!; [done|by eapply advances_trans|]. intros p Hp. by rewrite Hb2, Hb1.
Qed.
Lemma quiet_dir sv x s s' : dir_live sv x s → quiet sv x s s' → dir_live sv x s'.
Proof. intros [] (Hl & _ & _). by split. Qed.
Lemma dentry_same s x s' x' j :
  (∀ p, 64 * j ≤ p < 64 * j + 64 → byte_at (blk s') (sv_i x') p = byte_at (blk s) (sv_i x) p) → dentry s' x' j = dentry s x j.
Proof. intros Hb. unfold dentry. f_equal. apply list_fmap_ext. intros k p [-> Hk]%lookup_seqZ. apply Hb. lia. Qed.
Lemma quiet_dentry sv x s s' j : dir_live sv x s → quiet sv x s s' → 0 ≤ j < nent x → dentry s' x j = dentry s x j.
Proof.
  intros Hd (_ & _ & Hb) Hj. pose proof (nent_size _ _ _ Hd). apply dentry_same. intros p Hp. apply Hb. unfold MAXSIZE. lia.
Qed.

(** ** Reading and writing entries *)
Lemma readdir_spec sv x s j o :
  dir_live sv x s → 0 ≤ j < nent x →
  wp (sfs_readdir sv j) (λ r s' o', o' = o ∧ r = (0, dentry s x j) ∧ quiet sv x s s') s o.
Proof.
  intros Hd Hj. pose proof (nent_size _ _ _ Hd) as [Hsz Hn]. pose proof Hd as [Hl _ [_ Hmax]].
  unfold sfs_readdir, SFS_DIRSIZE. rewrite s32_small by lia. wp_step. apply wp_with_uio.
  eapply wp_mono; [apply (sfs_io_read sv x s); try done; simpl; try lia|].
  { split; simpl; try done; try lia. intros b Hb. by inversion Hb. }
  cbn beta. intros res [s' r'] o' (-> & m & Hl' & Ha & Hmv & Hc). unfold readable_bytes, MAXSIZE in *. simpl in *.
  destruct Hmv as [_ _ _ Hre _ Hrd _ Hdata]. simpl in *. destruct Hc as [[-> Hm]|(_ & Hm & Hbig)]; [|lia].
  assert (m = 64) as -> by lia. wp_cond. destruct (Z.ltb_spec 0 (rq_resid r')); [lia|]. wp_step. split_and!; [done| |].
  - rewrite (Hrd eq_refl). unfold dentry. by replace (j * 64) with (64 * j) by lia.
  - by split_and!.
Qed.
(** An entry is written: it takes the place of the old one or is the first
    new one; or the disk or the directory is full. *)
Lemma writedir_spec sv x s sd j o :
  dir_live sv x s → dir_ok sd → 0 ≤ j ≤ nent x →
  wp (sfs_writedir sv sd j) (λ res s' o', o' = o ∧ ∃ x', advances sv x s x' s' ∧ dir_live sv x' s' ∧
    ((res = 0 ∧ nent x' = Z.max (nent x) (j + 1) ∧ dentry s' x' j = sd ∧
      ∀ k, 0 ≤ k < nent x' → k ≠ j → dentry s' x' k = dentry s x k) ∨
     ((res = ENOSPC ∨ (res = EINVAL ∧ j = 1144)) ∧ nent x' = nent x ∧
      ∀ k, 0 ≤ k < nent x → dentry s' x' k = dentry s x k))) s o.
Proof.
  intros Hd Hsd Hj. pose proof (nent_size _ _ _ Hd) as [Hsz Hn]. pose proof Hd as [Hl Hty [_ Hmax]].
  destruct (decode_encode_dir sd Hsd) as (Hdec & Hlen & Hby).
  unfold sfs_writedir, SFS_DIRSIZE. rewrite s32_small by lia. wp_step. wp_step; [lia|]. wp_step. apply wp_with_uio.
  set (r := rq_kuio (encode_dir sd) 64 (j * 64) UIO_WRITE).
  assert (request_ok r) as Hr. { split; simpl; try done; try lia; [intros b Hb; by inversion Hb|]. intros _. simpl in Hlen. split; [lia|done]. }
  eapply wp_mono; [apply (sfs_io_write sv x s r); try done; simpl; lia|]. cbn beta.
  intros res [s' r'] o' (-> & x' & m & Hl' & Ha & Hs' & Hmv & Hc). cbn [fst snd] in *.
  destruct Hmv as [_ _ _ Hre [Hm0 Hrng] _ _ Hdata]. simpl in *. unfold MAXSIZE, stops in *. simpl in *.
  destruct (ad_meta _ _ _ _ _ Ha) as [Hty' _].
  assert (∀ k, k ≠ j → 0 ≤ k → 64 * k + 64 ≤ 73216 → dentry s' x' k = dentry s x k) as Hother.
  { intros k Hk Hk0 Hk1. apply dentry_same. intros p Hp. rewrite Hdata by lia. rewrite bool_decide_eq_false_2; [done|]. 
    intros [_ ?]. destruct Hc as [[_ ->]|[(_ & ? & _)|(_ & ? & _)]]; lia. }
  destruct Hc as [[-> ->]|Hc].
  - wp_cond. destruct (Z.ltb_spec 0 (rq_resid r')); [lia|]. wp_step. split; [done|]. exists x'.
    assert (nent x' = Z.max (nent x) (j + 1)) as Hn'.
    { unfold nent at 1. rewrite Hs', Hsz. replace (Z.max (64 * nent x) (j * 64 + 64)) with (Z.max (nent x) (j + 1) * 64) by lia.
      by apply Z.div_mul. }
    split_and!; try done.
    + split; [done|congruence|]. rewrite Hs', Hsz. unfold MAXSIZE. split; [|lia].
      replace (Z.max (64 * nent x) (j * 64 + 64)) with (Z.max (nent x) (j + 1) * 64) by lia. by apply Z.mod_mul.
    + left. split_and!; try done.
      * transitivity (decode_dir (encode_dir sd)); [|exact Hdec]. clear Hlen. destruct (decode_encode_dir sd Hsd) as (_ & Hlen & _). unfold dentry. f_equal. apply list_eq. intros k. rewrite list_lookup_fmap.
        destruct (decide (k < 64)%nat).
        -- rewrite lookup_seqZ_lt by lia. simpl. rewrite Hdata by lia. rewrite bool_decide_eq_true_2 by (split; [done|lia]).
           replace (Z.to_nat (64 * j + Z.of_nat k - j * 64)) with k by lia.
           destruct (lookup_lt_is_Some_2 (encode_dir sd) k) as [y Hy]; [lia|]. by rewrite Hy.
        -- rewrite lookup_seqZ_ge, lookup_ge_None_2 by lia. done.
      * intros k Hk Hkj. apply Hother; lia.
  - assert (m = 0) as ->.
    { destruct Hc as [(_ & ? & [?|Hst])|(_ & ? & [?|Hst] & _)]; try done; Z.to_euclidean_division_equations; lia. }
    assert (nent x' = nent x) as Hn' by (unfold nent; rewrite Hs', Hsz; do 2 f_equal; lia).
    assert (sfi_size (sv_i x') = sfi_size (sv_i x)) as Hs2 by lia.
    assert (res = ENOSPC ∨ res = EINVAL ∧ j = 1144) as Hres.
    { destruct Hc as [(-> & _)|(-> & _ & _ & ?)]; [by left|right]. split; [done|lia]. }
    destruct (Z.eqb_spec res 0) as [->|Hne]; [by destruct Hres as [|[]]|]. cbn [negb]. wp_step. split; [done|]. exists x'. split_and!; try done.
    + split; [done|congruence|]. rewrite Hs2. apply Hd.
    + right. split_and!; try done. intros k Hk. apply dentry_same. intros p Hp. rewrite Hdata by lia.
      rewrite bool_decide_eq_false_2; [done|]. intros [_ ?]. lia.
Qed.

(** ** Looking up a name *)
Record find_inv s x nm (i : Z) (found : bool) (f : found_name) : Prop := {
  fi_found : if found then ∃ j ino, j < i ∧ slot s x j nm ino ∧ fn_ino f = Some ino ∧ fn_slot f = Some j
             else ∀ j ino, j < i → ¬ slot s x j nm ino;
  fi_empty : match fn_empty f with
             | Some e => 0 ≤ e < i ∧ sfd_ino (dentry s x e) = 0
             | None => ∀ j, 0 ≤ j < i → sfd_ino (dentry s x j) ≠ 0
             end;
}.
Lemma findname_loop_spec n sv x (s0 : fs) s nm name M i found f o :
  dir_live sv x s0 → dir_rep s0 x M → has_str name 0 nm → quiet sv x s0 s →
  0 ≤ i → i + Z.of_nat n = nent x → find_inv s0 x nm i found f →
  wp (findname_loop n sv name i found f) (λ '(res, f') s' o', o' = o ∧ quiet sv x s0 s' ∧ ∃ found',
    res = (if found' : bool then 0 else ENOENT) ∧ find_inv s0 x nm (nent x) found' f') s o.
Proof.
  intros Hd [_ Huniq] Hname. revert s i found f.
  induction n as [|n IH]; intros s i found f Hq Hi0 Hi [Hf He]; cbn [findname_loop].
  { wp_step. split_and!; [done..|]. exists found. split; [done|]. rewrite Z.add_0_r in Hi. subst i. by split. }
  assert (0 ≤ i < nent x) as Hir by lia. wp_step. wp_call readdir_spec; [by eapply quiet_dir|done|].
  intros [res tsd] s1 o1 (-> & [= -> ->] & Hq1). wp_cond. rewrite (quiet_dentry sv x s0 s i) by done.
  pose proof (quiet_trans _ _ _ _ _ Hq Hq1) as Hq2. set (d := dentry s0 x i).
  assert (dir_ok d) as (Hino & Hnl & Hnb) by (apply dentry_ok, Hd).
  assert (∀ j ino, j < i + 1 → slot s0 x j nm ino → j < i ∨ (j = i ∧ sfd_ino d = ino ∧ ino ≠ 0 ∧ entry_name d = nm)) as Hlast.
  { intros j ino Hj Hs. destruct (decide (j = i)) as [->|]; [right|left; lia]. by destruct Hs as (_ & ? & ? & ?). }
  unfold SFS_NOINO. destruct (Z.eqb_spec (sfd_ino d) 0) as [Hz|Hz].
  - apply IH; try done; try lia. split; simpl; [|split; [lia|done]]. destruct found.
    + destruct Hf as (j & ino & ? & ?). exists j, ino. split; [lia|done].
    + intros j ino Hj Hs. destruct (Hlast j ino Hj Hs) as [|(-> & <- & ? & _)]; [by eapply Hf|done].
  - assert (∃ l, zinsert (SFS_NAMELEN - 1) 0 (sfd_name d) = Some l) as [l Hl].
    { eexists. apply zinsert_ok. unfold SFS_NAMELEN. lia. }
    rewrite Hl. wp_step. wp_step. pose proof (entry_name_str d l Hnl Hl) as Hen. wp_step.
    destruct (strcmp_spec _ _ _ _ _ _ s1 o Hen Hname) as (c & Hc & Hiff). unfold wp at 1. rewrite Hc.
    assert (fi_empty' : match fn_empty f with
      | Some e => 0 ≤ e < i + 1 ∧ sfd_ino (dentry s0 x e) = 0
      | None => ∀ j, 0 ≤ j < i + 1 → sfd_ino (dentry s0 x j) ≠ 0 end).
    { destruct (fn_empty f); [split; [lia|apply He]|]. intros j Hj. destruct (decide (j = i)) as [->|]; [done|]. apply He. lia. }
    destruct (Z.eqb_spec c 0) as [Hc0|Hc0].
    + assert (slot s0 x i nm (sfd_ino d)) as Hsi by (split_and!; [lia|lia|done|done|by apply Hiff]).
      wp_step. destruct found.
      { destruct Hf as (j & ino & Hj & Hs & _). pose proof (Huniq _ _ _ _ _ Hs Hsi). lia. }
      wp_step; [done|]. apply IH; try done; try lia. split; simpl; [|done]. exists i, (sfd_ino d). split_and!; try done. lia.
    + apply IH; try done; try lia. split; [|done]. destruct found.
      * destruct Hf as (j & ino & ? & ?). exists j, ino. split; [lia|done].
      * intros j ino Hj Hs. destruct (Hlast j ino Hj Hs) as [|(-> & _ & _ & Hn)]; [by eapply Hf|]. by apply Hc0, Hiff.
Qed.
Lemma dir_nentries_spec sv x s o :
  dir_live sv x s → wp (sfs_dir_nentries sv) (λ n s' o', n = nent x ∧ s' = s ∧ o' = o) s o.
Proof.
  intros [Hl Hty [Hm Hs]]. unfold sfs_dir_nentries. wp_step. eapply wp_get_sv; [apply Hl|]. wp_step. wp_step; [lia|].
  unfold SFS_DIRSIZE. rewrite Hm. wp_cond. by wp_step.
Qed.
Lemma sfs_dir_findname_spec sv x s nm name M o :
  dir_live sv x s → dir_rep s x M → has_str name 0 nm →
  wp (sfs_dir_findname sv name) (λ '(res, f) s' o', o' = o ∧ quiet sv x s s' ∧
    match M !! nm with
    | Some ino => res = 0 ∧ fn_ino f = Some ino ∧ ∃ j, fn_slot f = Some j ∧ slot s x j nm ino
    | None => res = ENOENT
    end ∧
    match fn_empty f with
    | Some e => 0 ≤ e < nent x ∧ sfd_ino (dentry s x e) = 0
    | None => ∀ j, 0 ≤ j < nent x → sfd_ino (dentry s x j) ≠ 0
    end) s o.
Proof.
  intros Hd Hrep Hname. pose proof (nent_size _ _ _ Hd) as [_ Hn]. unfold sfs_dir_findname. wp_step.
  wp_call dir_nentries_spec; [done|]. intros n s1 o1 (-> & -> & ->).
  eapply wp_mono; [eapply (findname_loop_spec _ sv x s s); try done; [apply quiet_refl, Hd|lia|]|].
  { split; simpl; [|lia]. intros j ino Hj (? & _). lia. }
  cbn beta. intros [res f] s' o' (-> & Hq & found & -> & [Hf He]). split_and!; try done. destruct Hrep as [Hrep _].
  destruct (M !! nm) as [ino|] eqn:HM.
  - pose proof HM as HM'. apply Hrep in HM' as [j Hj]. destruct found.
    + destruct Hf as (j' & ino' & _ & Hs & ? & ?). assert (Some ino = Some ino') as [= <-] by (rewrite <- HM; apply Hrep; by exists j').
      split_and!; try done. by exists j'.
    + by destruct (Hf j ino); [apply Hj|].
  - destruct found; [|done]. destruct Hf as (j' & ino' & _ & Hs & _). assert (M !! nm = Some ino') by (apply Hrep; by exists j'). congruence.
Qed.

(** ** Adding and removing a name *)
Lemma dir_rep_same s x s' x' M :
  nent x' = nent x → (∀ k, 0 ≤ k < nent x → dentry s' x' k = dentry s x k) → dir_rep s x M → dir_rep s' x' M.
Proof.
  intros Hn Hk [Hrep Huniq]. assert (∀ j nm ino, slot s' x' j nm ino ↔ slot s x j nm ino) as Hs.
  { intros j nm ino. unfold slot. rewrite Hn. split; intros (? & Hrest); rewrite Hk in * by done; done. }
  split.
  - intros nm ino. rewrite Hrep. by setoid_rewrite Hs.
  - intros j j' nm ino ino'. rewrite !Hs. apply Huniq.
Qed.
Lemma dir_rep_insert s x s' x' M e nm ino :
  0 ≤ e ≤ nent x → nent x' = Z.max (nent x) (e + 1) → (e < nent x → sfd_ino (dentry s x e) = 0) →
  (∀ k, 0 ≤ k < nent x' → k ≠ e → dentry s' x' k = dentry s x k) →
  sfd_ino (dentry s' x' e) = ino → ino ≠ 0 → entry_name (dentry s' x' e) = nm → M !! nm = None →
  dir_rep s x M → dir_rep s' x' (<[nm := ino]> M) ∧ slot s' x' e nm ino.
Proof.
  intros He Hn He0 Hk Hi Hi0 Hnm HM [Hrep Huniq].
  assert (∀ j n i, slot s' x' j n i ↔ (j = e ∧ n = nm ∧ i = ino) ∨ slot s x j n i) as Hs.
  { intros j n i. unfold slot. rewrite Hn. destruct (decide (j = e)) as [->|Hne].
    - split; [intros (_ & <- & _ & <-); left; split_and!; congruence|]. intros [(_ & -> & ->)|(? & Hz & ? & _)].
      + split_and!; try done; lia.
      + rewrite He0 in Hz by lia. congruence.
    - split; [intros (? & Hrest); rewrite Hk in Hrest by lia; right; split; [lia|done]|].
      intros [(? & _)|(? & Hrest)]; [done|]. rewrite Hk by lia. split; [lia|done]. }
  split; [|by apply Hs; left]. split.
  - intros n i. setoid_rewrite Hs. rewrite lookup_insert. case_decide as Hnn; [subst n|].
    + split; [intros [= ->]; exists e; by left|]. intros [j [(_ & _ & ->)|Hj]]; [done|].
      assert (M !! nm = Some i) by (apply Hrep; by exists j). congruence.
    + rewrite Hrep. split; intros [j Hj]; exists j; [by right|]. by destruct Hj as [(_ & ? & _)|].
  - intros j j' n i i'. rewrite !Hs.
    assert (∀ k i0, ¬ slot s x k nm i0) as Hno. { intros k i0 Hk0. assert (M !! nm = Some i0) by (apply Hrep; by exists k). congruence. }
    intros [(-> & -> & ->)|H1] [(-> & Hnn & ->)|H2]; [done|..|by eapply Huniq].
    + by destruct (Hno j' i').
    + subst n. by destruct (Hno j i).
Qed.
Lemma dir_rep_delete s x s' x' M e nm ino :
  slot s x e nm ino → nent x' = nent x → (∀ k, 0 ≤ k < nent x' → k ≠ e → dentry s' x' k = dentry s x k) →
  sfd_ino (dentry s' x' e) = 0 → dir_rep s x M → dir_rep s' x' (delete nm M).
Proof.
  intros He Hn Hk Hi [Hrep Huniq].
  assert (∀ j n i, slot s' x' j n i ↔ j ≠ e ∧ slot s x j n i) as Hs.
  { intros j n i. unfold slot. rewrite Hn. destruct (decide (j = e)) as [->|Hne].
    - split; [|by intros [? _]]. intros (_ & Hz & ? & _). congruence.
    - split.
      + intros (? & Hrest). rewrite Hk in Hrest by lia. split; [done|]. split; [lia|done].
      + intros (_ & ? & Hrest). rewrite Hk by lia. split; [lia|done]. }
  split.
  - intros n i. setoid_rewrite Hs. rewrite lookup_delete. case_decide as Hnn; [subst n|].
    + split; [done|]. intros (j & Hne & Hj). by destruct (Hne (Huniq _ _ _ _ _ Hj He)).
    + rewrite Hrep. split; intros [j Hj]; exists j; [|apply Hj]. split; [|done]. intros ->.
      destruct Hj as (_ & _ & _ & Hj), He as (_ & _ & _ & He). congruence.
  - intros j j' n i i'. rewrite !Hs. intros [_ H1] [_ H2]. by eapply Huniq.
Qed.
Lemma new_entry nm ino :
  Forall (λ c, 0 < c < 256) nm → (length nm < 60)%nat → word ino →
  let d := mkDir ino (put (replicate 60 0) 0 (nm ++ [0])) in dir_ok d ∧ entry_name d = nm.
Proof.
  intros Hnm Hlen Hi d.
  assert (sfd_name d = nm ++ 0 :: replicate (59 - length nm) 0) as Hd.
  { unfold d, put. cbn [sfd_name]. change (take (Z.to_nat 0) _) with (@nil Z). cbn [app]. rewrite <- app_assoc. f_equal.
    rewrite length_app, drop_replicate. simpl. do 2 f_equal. lia. }
  assert (Forall (λ c, c ≠ 0) nm) as Hnz by (eapply Forall_impl; [exact Hnm|intros; simpl in *; lia]).
  split.
  - split_and!; [done|rewrite Hd, length_app; simpl; rewrite length_replicate; lia|]. rewrite Hd. apply Forall_app. split.
    + eapply Forall_impl; [exact Hnm|]. unfold byte. intros; lia.
    + apply Forall_cons. split; [unfold byte; lia|]. apply Forall_replicate. unfold byte. lia.
  - unfold entry_name. rewrite Hd, take_app. destruct (59 - length nm)%nat as [|k].
    + simpl. rewrite app_nil_r, take_ge by lia. rewrite <- (cstr_id nm []) at 2 by done.
      clear -Hnz. induction Hnz as [|c nm Hc _ IH]; [done|]. simpl. destruct (Z.eqb_spec c 0); [done|]. by rewrite IH.
    + rewrite take_ge by lia. by apply cstr_id.
Qed.
Definition link_post (sv : Z) x s nm ino M (res e : Z) s' : Prop :=
  ∃ x', advances sv x s x' s' ∧ dir_live sv x' s' ∧
    match M !! nm with
    | Some _ => res = EEXIST ∧ dir_rep s' x' M
    | None =>
        if bool_decide (60 ≤ length nm)%nat then res = ENAMETOOLONG ∧ dir_rep s' x' M
        else (res = 0 ∧ dir_rep s' x' (<[nm := ino]> M) ∧ slot s' x' e nm ino) ∨
             ((res = ENOSPC ∨ res = EINVAL) ∧ dir_rep s' x' M)
    end.
Lemma sfs_dir_link_spec sv x s nm name ino M o :
  dir_live sv x s → dir_rep s x M → has_str name 0 nm → Forall (λ c, 0 < c < 256) nm → Z.of_nat (length nm) < 2 ^ 31 →
  word ino → ino ≠ 0 →
  wp (sfs_dir_link sv name ino) (λ '(res, e) s' o', o' = o ∧ link_post sv x s nm ino M res e s') s o.
Proof.
  intros Hd Hrep Hname Hnm Hsm Hi Hi0. pose proof (nent_size _ _ _ Hd) as [_ Hn]. unfold sfs_dir_link. wp_step.
  wp_call sfs_dir_findname_spec; [done..|]. intros [res f] s1 o1 (-> & Hq & Hf & He).
  pose proof (quiet_dir _ _ _ _ Hd Hq) as Hd1. pose proof Hq as (_ & Ha1 & _).
  assert (dir_rep s1 x M) as Hrep1. { eapply dir_rep_same; [done| |done]. intros k Hk. by eapply quiet_dentry. }
  unfold link_post. destruct (M !! nm) as [ino'|] eqn:HM.
  { destruct Hf as (-> & _). wp_cond. wp_cond. wp_step. split; [done|]. by exists x. }
  subst res. wp_cond. wp_cond. wp_step. unfold wp at 1. rewrite (strlen_spec nm) by done. unfold SFS_NAMELEN.
  rewrite u32_small by lia. case_bool_decide as Hlen.
  { destruct (Z.ltb_spec 60 (Z.of_nat (length nm) + 1)); [|lia]. wp_step. split; [done|]. by exists x. }
  destruct (Z.ltb_spec 60 (Z.of_nat (length nm) + 1)); [lia|].
  set (e := default (nent x) (fn_empty f)). wp_step.
  eapply (wp_mono _ (λ e' s' o', e' = e ∧ s' = s1 ∧ o' = o)).
  { unfold e. destruct (fn_empty f); [by wp_step|]. eapply wp_mono; [by eapply dir_nentries_spec|]. done. }
  intros e' s' o' (-> & -> & ->). wp_step. unfold wp at 1.
  rewrite (strcpy_spec nm) by (done || (rewrite length_replicate; lia)).
  destruct (new_entry nm ino Hnm ltac:(lia) Hi) as [Hdok Hen]. set (d := mkDir ino _) in *.
  assert (0 ≤ e ≤ nent x ∧ (e < nent x → sfd_ino (dentry s1 x e) = 0)) as [Her Hez].
  { unfold e. destruct (fn_empty f); cbn [default from_option id]; [|lia]. destruct He. split; [lia|]. intros _. by rewrite (quiet_dentry sv x s s1). }
  wp_step. wp_call writedir_spec; [done..|]. intros res s' o' (-> & x' & Ha' & Hd' & Hc). wp_step. split; [done|]. exists x'.
  split_and!; [by eapply advances_trans|done|]. destruct Hc as [(-> & Hn' & He' & Hk)|(Hres & Hn' & Hk)].
  - left. split; [done|]. eapply (dir_rep_insert s1 x); try done; rewrite He'; done.
  - right. split; [naive_solver|]. by eapply dir_rep_same.
Qed.
Lemma sfs_dir_unlink_spec sv x s nm ino M e o :
  dir_live sv x s → dir_rep s x M → slot s x e nm ino →
  wp (sfs_dir_unlink sv e) (λ res s' o', o' = o ∧ ∃ x', advances sv x s x' s' ∧ dir_live sv x' s' ∧
    ((res = 0 ∧ dir_rep s' x' (delete nm M)) ∨ (res = ENOSPC ∧ dir_rep s' x' M))) s o.
Proof.
  intros Hd Hrep He. pose proof He as (Her & _). pose proof (nent_size _ _ _ Hd) as [_ Hn]. unfold sfs_dir_unlink.
  wp_call writedir_spec; [done| |lia|].
  { split_and!; [unfold word, SFS_NOINO; simpl; lia|done|]. apply Forall_replicate. unfold byte. lia. }
  intros res s' o' (-> & x' & Ha' & Hd' & Hc). split; [done|]. exists x'. split_and!; try done.
  destruct Hc as [(-> & Hn' & He' & Hk)|(Hres & Hn' & Hk)].
  - left. split; [done|]. eapply dir_rep_delete; try done; [lia|]. by rewrite He'.
  - right. split; [destruct Hres as [|[_ ?]]; [done|lia]|]. by eapply dir_rep_same.
Qed.

(** C15: [sfs_dir_findname] finds the inode number and a slot of a name that
    is in the directory, and reports [ENOENT] for a name that is not. *)
Theorem sfs_dir_finds (sv : Z) x s nm (name : list Z) (M : gmap (list Z) Z) (o : oracle) :
  dir_live sv x s → dir_rep s x M → has_str name 0 nm →
  wp (sfs_dir_findname sv name) (λ '(res, f) s' _, quiet sv x s s' ∧ dir_rep s' x M ∧
    match M !! nm with
    | Some ino => res = 0 ∧ fn_ino f = Some ino ∧ ∃ j, fn_slot f = Some j ∧ slot s x j nm ino
    | None => res = ENOENT
    end) s o.
Proof.
  intros Hd Hrep Hname. eapply wp_mono; [by eapply sfs_dir_findname_spec|]. cbn beta. intros [res f] s' o' (_ & Hq & Hm & _).
  split; [exact Hq|]. split; [|exact Hm]. eapply dir_rep_same; [reflexivity| |exact Hrep]. intros k Hk. by eapply quiet_dentry.
Qed.
End SfsDirSpec.

(** ** A directory with one name *)
Module SampleDir.
Import SimDisk.
Definition entry : sfs_dir := mkDir 8 (97 :: replicate 59 0).
Definition block : list Z := encode_dir entry ++ replicate 448 0.
Definition inode : sfs_inode := mkInode 64 SFS_TYPE_DIR 1 (5 :: replicate 14 0) 0 (replicate 110 0).
Definition sv : sfs_vnode := mkSv (mkVnode 1 0 (Some (mkUlock false true)) (Some sfs_dirops)) inode 1 false.
Definition disk : sfs_fs simdisk :=
  mkSfs (mkSuper SFS_MAGIC 13 (replicate 32 0) (replicate 472 0)) false (idle_lhd (mkSim {[5 := block]} 13 []) zero_buffer)
    (mkArray 1 1 (Some [Some 0])) (mkBitmap 13 [255; 237]) false {[0 := sv]}.
Lemma entry_fine : dir_ok entry.
Proof.
  split_and!; [unfold word; simpl; lia|done|]. apply Forall_cons. split; [unfold byte; lia|]. apply Forall_replicate. unfold byte. lia.
Qed.
Lemma block_fine : byte_block block.
Proof.
  split; [vm_compute; reflexivity|]. apply Forall_app. split; [|apply Forall_replicate; lia].
  destruct (decode_encode_dir entry entry_fine) as (_ & _ & Hb). exact Hb.
Qed.
Lemma dirdisk_ok : fs_ok disk.
Proof.
  split; simpl.
  - split; [|by apply Forall_nil_2]. split; simpl; try done; [|apply zero_block].
    intros i b Hb. simpl in Hb. apply lookup_singleton_Some in Hb as [_ <-]. apply block_fine.
  - apply small_bitmap_ok.
  - unfold nblocks. simpl. lia.
  - done.
  - unfold nblocks. simpl. lia.
  - done.
Qed.
Lemma one_block W k : bptr W inode k = if k =? 0 then 5 else 0.
Proof.
  unfold bptr. destruct (Z.eqb_spec k 0) as [->|Hk]; [done|]. destruct (k <? SFS_NDIRECT); [|done].
  destruct (zlookup (sfi_direct inode) k) as [w|] eqn:Hw; [|done]. apply zlookup_Some in Hw as [Hk0 Hw].
  unfold inode in Hw. cbn [sfi_direct] in Hw. rewrite lookup_cons_ne_0 in Hw by lia. by apply lookup_replicate in Hw as [-> _].
Qed.
Lemma dir_inode_fine : inode_ok inode.
Proof.
  split; unfold inode, word, half, SFS_TYPE_DIR; cbn [sfi_size sfi_type sfi_linkcount sfi_direct sfi_indirect sfi_waste]; try lia;
    (split; [done|]); [apply Forall_cons; split; [unfold word; lia|]|]; apply SampleFile.words_zero.
Qed.
Lemma live_dir : dir_live 0 sv disk.
Proof.
  split; [|done|done]. split; [apply dirdisk_ok| |done]. split; [apply dir_inode_fine|..].
  - intros b [Hb [->|(k & _ & Hk)]]; [done|]. simpl in Hk. rewrite one_block in Hk. destruct (k =? 0); [|congruence].
    subst b. split; [unfold nblocks; simpl; lia|done].
  - intros k l _ _. simpl. rewrite !one_block. destruct (Z.eqb_spec k 0), (Z.eqb_spec l 0); try done; lia.
  - intros k _. simpl. by rewrite one_block.
Qed.
Lemma the_entry : dentry disk sv 0 = entry.
Proof. vm_compute. reflexivity. Qed.
Lemma the_slot j nm ino : slot disk sv j nm ino ↔ j = 0 ∧ nm = [97] ∧ ino = 8.
Proof.
  unfold slot. change (nent sv) with 1. split.
  - intros (Hj & Hrest). assert (j = 0) as -> by lia. rewrite the_entry in Hrest. destruct Hrest as (<- & _ & <-). done.
  - intros (-> & -> & ->). rewrite the_entry. split_and!; [lia|lia|done..].
Qed.
Lemma the_map : dir_rep disk sv {[ [97] := 8 ]}.
Proof.
  split.
  - intros nm ino. setoid_rewrite the_slot. rewrite lookup_singleton_Some. split; [intros [<- <-]; by exists 0|by intros (j & -> & -> & ->)].
  - intros j j' nm ino ino'. rewrite !the_slot. by intros (-> & _) (-> & _).
Qed.
End SampleDir.
Import SimDisk.
Lemma sfs_dir_finds_witness :
  wp (sfs_dir_findname 0 [97; 0]) (λ '(res, f) s' _, quiet 0 SampleDir.sv SampleDir.disk s' ∧
    dir_rep s' SampleDir.sv {[ [97] := 8 ]} ∧ res = 0 ∧ fn_ino f = Some 8 ∧
    ∃ j, fn_slot f = Some j ∧ slot SampleDir.disk SampleDir.sv j [97] 8) SampleDir.disk [].
Proof.
  eapply wp_mono.
  - apply (sfs_dir_finds 0 SampleDir.sv SampleDir.disk [97] [97; 0] {[ [97] := 8 ]} []).
    + apply SampleDir.live_dir.
    + apply SampleDir.the_map.
    + apply has_str_cons. split_and!; [done..|]. by apply has_str_nil.
  - cbn beta. intros [res f] s' o' Hp. rewrite lookup_singleton_eq in Hp. exact Hp.
Defined.
