(* ===== verification/Vm.v ===== *)
(** * Virtual memory: src/kern/vm/addrspace.c, pt.c, swapfile.c and vm_tlb.c

    The memory of the current process: its address space and page table, the
    frames of the coremap, the TLB, and the two files the pages come from, the
    executable and the swap file.  Interrupts are off in all of this code, and
    the statistics, which are only printed, are left out.  The file system is
    behind the class [VfsIo]. *)
From S2P Require Import Prelude Array LinkedList Memory Copyinout Uio Pages Coremap Request.

(** ** Constants *)
Definition NUM_TLB : Z := 64.
Definition TLBLO_DIRTY : Z := 0x400.
Definition TLBLO_VALID : Z := 0x200.
Definition TLBHI_INVALID (entryno : Z) : Z := u32 (Z.shiftl (0x80000 + entryno) 12).
Definition TLBLO_INVALID : Z := 0.
Definition TLBHI_VPAGE : Z := 0xfffff000.
Definition VM_STACKPAGES : Z := 12.
Definition USERSTACK : Z := USERTOP.
Definition SEG_TEXT : Z := 1.
Definition SEG_DATA : Z := 2.
Definition SEG_STCK : Z := 3.
Definition SEG_RD : Z := 1.
Definition SEG_WR : Z := 2.
Definition SEG_EX : Z := 4.
Definition VM_FAULT_READ : Z := 0.
Definition VM_FAULT_WRITE : Z := 1.
Definition VM_FAULT_READONLY : Z := 2.
Definition ALIGN (x : Z) : Z := Z.land x PAGE_FRAME.
Definition IS_VALID (x : Z) : bool := negb (Z.land x 1 =? 0).
Definition IS_SWAPPED (x : Z) : bool := negb (Z.land x 4 =? 0).
Definition SET_VALID (x : Z) : Z := Z.lor x 1.
Definition SET_SWAPPED (x : Z) : Z := Z.lor x 4.
Definition MAX_SWAPPED_PAGES : Z := 9 * 1024 * 1024 / PAGE_SIZE.

(** ** Data *)
Record addrspace : Type := mkAs {
  as_vnode : option Z;
  as_vbase1 : Z; as_npages1 : Z; as_filesz1 : Z; as_offset1 : Z; as_flags1 : Z;
  as_vbase2 : Z; as_npages2 : Z; as_filesz2 : Z; as_offset2 : Z; as_flags2 : Z;
  as_stackpbase : Z;
}.
Record pt_entry : Type := mkPte { pte_vaddr : Z; pte_paddr : Z }.
(** the page table with its entries *)
Record pagetable : Type := mkPt {
  entries : array loc;
  fifo : linkedlist loc;
  ptes : gmap loc pt_entry;
}.

(** What the files are to this code; [D] is the state of the file systems. *)
Class VfsIo (D : Type) : Type := {
  VOP_READ : Z → K (D * request) Z;
  VOP_WRITE : Z → K (D * request) Z;
  vn_incref : Z → K D unit;
  vn_decref : Z → K D unit;
  vfs_open : list Z → Z → K D (Z * Z);
}.

Record vmsys (D : Type) : Type := mkVm {
  vm_core : core;
  vm_vfs : D;
  vm_as : option addrspace; (** [curthread->t_vmspace] *)
  vm_pt : pagetable; (** [get_curprocess()->page_table] *)
  vm_tlb : list (Z * Z); (** the high and the low word of each entry *)
  next_victim : Z;
  swapfile : option Z;
  swappedpages_map : list Z; (** the first [count] elements *)
}.
Arguments mkVm {D} _ _ _ _ _ _ _ _.
Arguments vm_core {D} _.
Arguments vm_vfs {D} _.
Arguments vm_as {D} _.
Arguments vm_pt {D} _.
Arguments vm_tlb {D} _.
Arguments next_victim {D} _.
Arguments swapfile {D} _.
Arguments swappedpages_map {D} _.

(** ** Address spaces that are not shared: addrspace.c *)
Definition as_empty : addrspace := mkAs None 0 0 0 0 0 0 0 0 0 0 0.
Definition as_create {S} : K S (option addrspace) :=
  ok <- kmalloc_ok;
  if negb ok then ret None else ret (Some as_empty).
(** The error and [*ret] *)
Definition as_copy {S} (old : option addrspace) : K S (Z * option addrspace) :=
  newas <- as_create;
  match newas with
  | None => ret (ENOMEM, None)
  | Some newas => ret (0, Some newas)
  end.
Definition as_complete_load (as_ : addrspace) : Z := 0.
(** The error and [*stackptr] *)
Definition as_define_stack {S} (as_ : addrspace) : K S (Z * Z) :=
  _ <- kassert (negb (as_stackpbase as_ =? 0));
  ret (0, USERSTACK).
Definition as_contains {S} (as_ : addrspace) (vaddr : Z) : K S Z :=
  let vbase1 := as_vbase1 as_ in
  let vtop1 := u32 (vbase1 + as_npages1 as_ * PAGE_SIZE) in
  let vbase2 := as_vbase2 as_ in
  let vtop2 := u32 (vbase2 + as_npages2 as_ * PAGE_SIZE) in
  let stackbase := USERSTACK - VM_STACKPAGES * PAGE_SIZE in
  let stacktop := USERSTACK in
  _ <- kassert (negb (vbase1 =? 0));
  _ <- kassert (negb (vbase2 =? 0));
  _ <- kassert (negb (as_stackpbase as_ =? 0));
  if (vbase1 <=? vaddr) && (vaddr <? vtop1) then ret SEG_TEXT
  else if (vbase2 <=? vaddr) && (vaddr <? vtop2) then ret SEG_DATA
  else if (stackbase <=? vaddr) && (vaddr <? stacktop) then ret SEG_STCK
  else ret 0.
Definition as_writeable {S} (as_ : addrspace) (vaddr : Z) : K S Z :=
  seg <- as_contains as_ vaddr;
  if seg =? SEG_TEXT then ret (Z.land (as_flags1 as_) SEG_WR)
  else if seg =? SEG_DATA then ret (Z.land (as_flags2 as_) SEG_WR)
  else if seg =? SEG_STCK then ret (Z.land SEG_WR SEG_WR)
  else ret 0.

Section Vm.
  Context {D : Type} `{!VfsIo D} (zeros : Z).
  Abbreviation vm := (vmsys D).
  Implicit Types s : vm.

Definition set_core (c : core) s : vm :=
  mkVm c (vm_vfs s) (vm_as s) (vm_pt s) (vm_tlb s) (next_victim s) (swapfile s) (swappedpages_map s).
Definition set_vfs (d : D) s : vm :=
  mkVm (vm_core s) d (vm_as s) (vm_pt s) (vm_tlb s) (next_victim s) (swapfile s) (swappedpages_map s).
Definition set_as (a : option addrspace) s : vm :=
  mkVm (vm_core s) (vm_vfs s) a (vm_pt s) (vm_tlb s) (next_victim s) (swapfile s) (swappedpages_map s).
Definition set_pt (p : pagetable) s : vm :=
  mkVm (vm_core s) (vm_vfs s) (vm_as s) p (vm_tlb s) (next_victim s) (swapfile s) (swappedpages_map s).
Definition set_tlb (t : list (Z * Z)) s : vm :=
  mkVm (vm_core s) (vm_vfs s) (vm_as s) (vm_pt s) t (next_victim s) (swapfile s) (swappedpages_map s).
Definition set_victim (z : Z) s : vm :=
  mkVm (vm_core s) (vm_vfs s) (vm_as s) (vm_pt s) (vm_tlb s) z (swapfile s) (swappedpages_map s).
Definition set_swap (v : option Z) (l : list Z) s : vm :=
  mkVm (vm_core s) (vm_vfs s) (vm_as s) (vm_pt s) (vm_tlb s) (next_victim s) v l.
Definition on_core {A} (m : K core A) : K vm A := zoom vm_core set_core m.
Definition on_vfs {A} (m : K D A) : K vm A := zoom vm_vfs set_vfs m.
Definition on_entries {A} (m : K (array loc) A) : K vm A :=
  zoom (λ s, entries (vm_pt s)) (λ a s, set_pt (mkPt a (fifo (vm_pt s)) (ptes (vm_pt s))) s) m.
Definition on_fifo {A} (m : K (linkedlist loc) A) : K vm A :=
  zoom (λ s, fifo (vm_pt s)) (λ l s, set_pt (mkPt (entries (vm_pt s)) l (ptes (vm_pt s))) s) m.
(** [*pte], and assignments through [pte] *)
Definition get_pte (p : loc) : K vm pt_entry := s <- kget; deref (ptes (vm_pt s) !! p).
Definition put_pte (p : loc) (e : pt_entry) : K vm unit :=
  modify (λ s, set_pt (mkPt (entries (vm_pt s)) (fifo (vm_pt s)) (<[p := e]> (ptes (vm_pt s)))) s).

(** ** The TLB: the instructions of src/kern/arch/mips/mips/tlb_mips1.S *)
Definition TLB_Write (hi lo i : Z) : K vm unit :=
  s <- kget;
  t <- deref (zinsert i (hi, lo) (vm_tlb s));
  kput (set_tlb t s).
Definition TLB_Read (i : Z) : K vm (Z * Z) := s <- kget; deref (zlookup (vm_tlb s) i).
Fixpoint probe (t : list (Z * Z)) (i hi : Z) : Z :=
  match t with
  | [] => -1
  | e :: t => if Z.land e.1 TLBHI_VPAGE =? Z.land hi TLBHI_VPAGE then i else probe t (i + 1) hi
  end.
Definition TLB_Probe (hi lo : Z) : K vm Z := gets (λ s, probe (vm_tlb s) 0 hi).

(** ** Reading and writing files, into and from the memory of the kernel *)
Definition with_request {A} (m : K (D * request) A) (r : request) : K vm (A * request) := λ s o,
  match m (vm_vfs s, r) o with
  | Done (a, (d, r'), o') => Done ((a, r'), set_vfs d s, o')
  | Halt e => Halt e
  end.
(** [VOP_READ(v, &u)]: what has been read is in memory. *)
Definition vop_read (v : option Z) (u : uio) : K vm (Z * uio) :=
  match v with
  | None => panic
  | Some v =>
      '(result, r) <- with_request (VOP_READ v) (mkRequest UIO_READ (uio_offset u) (uio_resid u) [] [] []);
      _ <- on_core (on_machine (set_mem (λ h, write_at h (iov_base u) (rq_out r))));
      let n := Z.of_nat (length (rq_out r)) in
      ret (result, mkUio (u32 (iov_base u + n)) (u32 (iov_len u - n)) (rq_offset r) (rq_resid r)
                     (uio_segflg u) (uio_rw_ u) (uio_space u))
  end.
(** [VOP_WRITE(v, &u)]; the callers do not look at [u] again. *)
Definition vop_write (v : option Z) (u : uio) : K vm Z :=
  match v with
  | None => panic
  | Some v =>
      s <- kget;
      data <- deref (bytes_at (mem (cmach (vm_core s))) (iov_base u) (Z.to_nat (uio_resid u)));
      '(result, _) <- with_request (VOP_WRITE v) (mkRequest UIO_WRITE (uio_offset u) (uio_resid u) data [] []);
      ret result
  end.

(** ** addrspace.c *)
Definition as_destroy (as_ : addrspace) : K vm unit :=
  _ <- match as_vnode as_ with None => panic | Some v => on_vfs (vn_decref v) end;
  on_core (ungetppages (as_stackpbase as_)).
Definition as_activate : K vm unit :=
  kfor (Z.to_nat NUM_TLB) 0 (λ i, TLB_Write (TLBHI_INVALID i) TLBLO_INVALID i).
(** The error and the address space *)
Definition as_define_region (as_ : addrspace) (v vaddr filesz offset sz : Z) (readable writeable executable : bool) :
    K vm (Z * addrspace) :=
  let sz := u32 (sz + Z.land vaddr (2 ^ 32 - 1 - PAGE_FRAME)) in
  let vaddr := Z.land vaddr PAGE_FRAME in
  let sz := Z.land (u32 (u32 (sz + PAGE_SIZE) - 1)) PAGE_FRAME in
  let npages := sz / PAGE_SIZE in
  let flags := Z.lor (Z.lor (if readable then SEG_RD else 0) (if writeable then SEG_WR else 0)) (if executable then SEG_EX else 0) in
  _ <- on_vfs (vn_incref v);
  _ <- on_vfs (vn_incref v);
  if as_vbase1 as_ =? 0 then
    ret (0, mkAs (Some v) vaddr npages filesz offset flags
              (as_vbase2 as_) (as_npages2 as_) (as_filesz2 as_) (as_offset2 as_) (as_flags2 as_) (as_stackpbase as_))
  else if as_vbase2 as_ =? 0 then
    ret (0, mkAs (Some v) (as_vbase1 as_) (as_npages1 as_) (as_filesz1 as_) (as_offset1 as_) (as_flags1 as_)
              vaddr npages filesz offset flags (as_stackpbase as_))
  else ret (EUNIMP, as_).
Definition as_prepare_load (as_ : addrspace) : K vm (Z * addrspace) :=
  p <- on_core (getppages zeros VM_STACKPAGES);
  let as_ := mkAs (as_vnode as_) (as_vbase1 as_) (as_npages1 as_) (as_filesz1 as_) (as_offset1 as_) (as_flags1 as_)
               (as_vbase2 as_) (as_npages2 as_) (as_filesz2 as_) (as_offset2 as_) (as_flags2 as_) p in
  ret (if p =? 0 then ENOMEM else 0, as_).

(** ** swapfile.c *)
Definition swap_uio (vaddr offset : Z) (rw : uio_rw) : uio :=
  mkUio vaddr PAGE_SIZE (s32 offset) PAGE_SIZE UIO_SYSSPACE rw None.
Definition read_from_swapfile (vaddr offset : Z) : K vm Z :=
  s <- kget;
  '(result, _) <- vop_read (swapfile s) (swap_uio vaddr offset UIO_READ);
  ret result.
Definition write_to_swapfile (vaddr offset : Z) : K vm Z :=
  s <- kget;
  vop_write (swapfile s) (swap_uio vaddr offset UIO_WRITE).
(** "swapfile", and [O_RDWR | O_CREAT | O_TRUNC] *)
Definition swap_name : list Z := [115; 119; 97; 112; 102; 105; 108; 101; 0].
Definition swapfile_bootstrap : K vm unit :=
  ok <- kmalloc_ok;
  if negb ok then halt Fault
  else
    '(err, v) <- on_vfs (vfs_open swap_name 22);
    _ <- kassert (err =? 0);
    ok <- kmalloc_ok;
    _ <- kassert ok;
    modify (set_swap (Some v) []).
(** [for (i=0; i<count; i++) if (pfn == swappedpages_map[i])] *)
Fixpoint swap_index (l : list Z) (i pfn : Z) : option Z :=
  match l with
  | [] => None
  | p :: l => if pfn =? p then Some i else swap_index l (i + 1) pfn
  end.
(** The error is zero when this returns. *)
Definition swapout (p : loc) : K vm Z :=
  pte <- get_pte p;
  let pfn := ALIGN (pte_paddr pte) in
  s <- kget;
  let count := Z.of_nat (length (swappedpages_map s)) in
  offset <-
    match swap_index (swappedpages_map s) 0 pfn with
    | Some i => ret (u32 (i * PAGE_SIZE))
    | None =>
        if count =? MAX_SWAPPED_PAGES then panic
        else
          _ <- kput (set_swap (swapfile s) (swappedpages_map s ++ [pfn]) s);
          ret (u32 (count * PAGE_SIZE))
    end;
  err <- write_to_swapfile (PADDR_TO_KVADDR pfn) offset;
  _ <- kassert (err =? 0);
  _ <- put_pte p (mkPte (pte_vaddr pte) (SET_SWAPPED (ALIGN (pte_paddr pte))));
  ret err.
Definition swapin (p : loc) : K vm Z :=
  pte <- get_pte p;
  _ <- kassert (IS_SWAPPED (pte_paddr pte));
  let pfn := ALIGN (pte_paddr pte) in
  s <- kget;
  match swap_index (swappedpages_map s) 0 pfn with
  | None => panic
  | Some i =>
      err <- read_from_swapfile (PADDR_TO_KVADDR pfn) (u32 (i * PAGE_SIZE));
      _ <- kassert (err =? 0);
      _ <- put_pte p (mkPte (pte_vaddr pte) (SET_VALID (ALIGN (pte_paddr pte))));
      ret err
  end.

(** ** pt.c *)
Definition pt_create {S} : K S (option pagetable) :=
  ok <- kmalloc_ok;
  if negb ok then ret None
  else
    a <- array_create;
    match a with
    | None => ret None
    | Some a =>
        l <- ll_create;
        match l with
        | None => ret None
        | Some l => ret (Some (mkPt a l ∅))
        end
    end.
(** [pt_destroy]: entries, then the queue *)
Definition pt_free_entry (i : Z) : K vm unit :=
  p <- on_entries (array_getguy i);
  pte <- get_pte p;
  _ <- on_core (ungetppages (ALIGN (pte_paddr pte)));
  modify (λ s, set_pt (mkPt (entries (vm_pt s)) (fifo (vm_pt s)) (delete p (ptes (vm_pt s)))) s).
Fixpoint pt_drain (fuel : nat) : K vm unit :=
  e <- on_fifo ll_empty;
  if e : bool then ret tt
  else
    match fuel with
    | O => halt Spin
    | Datatypes.S fuel' => _ <- on_fifo ll_pop_front; pt_drain fuel'
    end.
Definition pt_destroy : K vm unit :=
  n <- on_entries array_getnum;
  _ <- kfor (Z.to_nat n) 0 pt_free_entry;
  n <- on_fifo ll_size;
  _ <- pt_drain (Z.to_nat n);
  _ <- on_entries array_destroy;
  on_fifo ll_destroy.
Definition set_uio_resid (z : Z) (u : uio) : uio :=
  mkUio (iov_base u) (iov_len u) (uio_offset u) z (uio_segflg u) (uio_rw_ u) (uio_space u).
Definition page_read (v : option Z) (offset vaddr memsize filesize : Z) : K vm Z :=
  let filesize := if memsize <? filesize then memsize else filesize in
  '(result, ku) <- vop_read v (set_uio_resid filesize (mk_kuio vaddr memsize (s32 offset) UIO_READ));
  if negb (result =? 0) then ret result
  else if negb (uio_resid ku =? 0) then ret ENOEXEC
  else
    let fillamt := u32 (memsize - filesize) in
    if 0 <? fillamt then
      '(result, _) <- on_core (on_machine (uiomovezeros None zeros fillamt (set_uio_resid (u32 (uio_resid ku + fillamt)) ku)));
      ret result
    else ret result.
Definition loadpage (as_ : addrspace) (vaddr paddr : Z) : K vm Z :=
  let vaddr := ALIGN vaddr in
  let paddr := ALIGN paddr in
  reg <- as_contains as_ vaddr;
  '(filesz, offset) <-
    (if reg =? SEG_TEXT then
       let diff := u32 (vaddr - as_vbase1 as_) in
       ret (if diff <? as_filesz1 as_ then as_filesz1 as_ - diff else 0, u32 (as_offset1 as_ + diff))
     else if reg =? SEG_DATA then
       let diff := u32 (vaddr - as_vbase2 as_) in
       ret (if diff <? as_filesz2 as_ then as_filesz2 as_ - diff else 0, u32 (as_offset2 as_ + diff))
     else panic);
  page_read (as_vnode as_) offset (PADDR_TO_KVADDR paddr) PAGE_SIZE filesz.
Definition page_replace : K vm Z :=
  p <- on_fifo ll_pop_front;
  _ <- swapout p;
  pte <- get_pte p;
  _ <- kassert (0 <? ALIGN (pte_paddr pte));
  _ <- kassert (IS_SWAPPED (pte_paddr pte));
  i <- TLB_Probe (pte_vaddr pte) (pte_paddr pte);
  _ <- (if 0 <=? i then TLB_Write (TLBHI_INVALID i) TLBLO_INVALID i else ret tt);
  ret (ALIGN (pte_paddr pte)).
Definition zero_out_page (paddr : Z) : K vm unit :=
  let paddr := ALIGN paddr in
  _ <- kassert (0 <? paddr);
  '(result, _) <- on_core (on_machine (uiomovezeros None zeros PAGE_SIZE
     (set_uio_resid PAGE_SIZE (mk_kuio (PADDR_TO_KVADDR paddr) PAGE_SIZE 0 UIO_READ))));
  kassert (result =? 0).
Definition force_free_page : K vm unit :=
  p <- page_replace;
  _ <- kassert (0 <? ALIGN p);
  _ <- zero_out_page p;
  on_core (ungetppages p).
(** The frame and [*err] *)
Definition pt_pagefault_handler (vaddr err : Z) : K vm (Z * Z) :=
  _ <- kassert (err =? 0);
  pa <- on_core (getppages zeros 1);
  let paddr := ALIGN pa in
  '(paddr, err) <-
    (if paddr =? 0 then
       paddr <- page_replace;
       _ <- zero_out_page paddr;
       ret (paddr, err)
     else
       s <- kget;
       as_ <- deref (vm_as s);
       err <- loadpage as_ vaddr paddr;
       ret (paddr, err));
  if negb (err =? 0) then ret (0, err) else ret (SET_VALID paddr, err).
(** [for (i=0; i<array_getnum(pt->entries); i++)]: the entry that was found *)
Fixpoint pt_find (n : nat) (i vaddr : Z) : K vm (option loc) :=
  match n with
  | O => ret None
  | Datatypes.S n' =>
      p <- on_entries (array_getguy i);
      pte <- get_pte p;
      if ALIGN (pte_vaddr pte) =? vaddr then ret (Some p) else pt_find n' (i + 1) vaddr
  end.
(** [while (m) force_free_page(pt);]: each round takes a page off the queue,
    so the length of the queue is fuel enough. *)
Fixpoint until_room {A} (fuel : nat) (m : K vm (option A)) : K vm A :=
  r <- m;
  match r with
  | Some a => ret a
  | None =>
      match fuel with
      | O => halt Spin
      | Datatypes.S fuel' => _ <- force_free_page; until_room fuel' m
      end
  end.
Definition pt_retry {A} (m : K vm (option A)) : K vm A :=
  n <- on_fifo ll_size;
  until_room (Datatypes.S (Z.to_nat n)) m.
Definition succeeds (m : K vm Z) : K vm (option unit) :=
  r <- m;
  ret (if r =? 0 then Some tt else None).
(** [kmalloc(sizeof(struct pt_entry))] *)
Definition new_pte : K vm (option loc) :=
  ok <- kmalloc_ok;
  if negb ok then ret None
  else
    s <- kget;
    let p := fresh (dom (ptes (vm_pt s))) in
    _ <- put_pte p (mkPte 0 0);
    ret (Some p).
(** The frame and [*err] *)
Definition pt_lookup (vaddr err : Z) : K vm (Z * Z) :=
  _ <- kassert (err =? 0);
  let vaddr := ALIGN vaddr in
  n <- on_entries array_getnum;
  found <- pt_find (Z.to_nat n) 0 vaddr;
  p <- match found with
    | Some p =>
        pte <- get_pte p;
        if IS_VALID (pte_paddr pte) then ret p
        else
          _ <- kassert (IS_SWAPPED (pte_paddr pte));
          err <- swapin p;
          _ <- kassert (err =? 0);
          _ <- pt_retry (succeeds (on_fifo (ll_push_back p)));
          ret p
    | None =>
        p <- pt_retry new_pte;
        _ <- put_pte p (mkPte vaddr 0);
        '(pa, err) <- pt_pagefault_handler vaddr err;
        _ <- put_pte p (mkPte vaddr pa);
        _ <- kassert (err =? 0);
        _ <- pt_retry (succeeds (on_entries (array_add p)));
        _ <- pt_retry (succeeds (on_fifo (ll_push_back p)));
        ret p
    end;
  pte <- get_pte p;
  let pa := SET_VALID (ALIGN (pte_paddr pte)) in
  _ <- put_pte p (mkPte (pte_vaddr pte) pa);
  ret (ALIGN pa, 0).

(** ** vm_tlb.c *)
Definition tlb_get_rr_victim : K vm Z :=
  s <- kget;
  let victim := next_victim s in
  _ <- kput (set_victim (u32 (next_victim s + 1) mod NUM_TLB) s);
  ret victim.
(** the low word of an entry for a page *)
Definition tlb_elo (as_ : addrspace) (faultaddress paddr : Z) : K vm Z :=
  w <- as_writeable as_ faultaddress;
  let elo := Z.lor paddr TLBLO_VALID in
  ret (if negb (w =? 0) then Z.lor elo TLBLO_DIRTY else elo).
Definition tlb_replace (as_ : addrspace) (faultaddress paddr : Z) : K vm unit :=
  victim <- tlb_get_rr_victim;
  elo <- tlb_elo as_ faultaddress paddr;
  TLB_Write faultaddress elo victim.
(** [for (i=0; i<NUM_TLB; i++)]: whether an entry was free *)
Fixpoint tlb_fill (n : nat) (i : Z) (as_ : addrspace) (faultaddress paddr : Z) : K vm bool :=
  match n with
  | O => ret false
  | Datatypes.S n' =>
      '(_, elo) <- TLB_Read i;
      if negb (Z.land elo TLBLO_VALID =? 0) then tlb_fill n' (i + 1) as_ faultaddress paddr
      else
        elo <- tlb_elo as_ faultaddress paddr;
        _ <- TLB_Write faultaddress elo i;
        ret true
  end.
(** [kill_process(-1)] does not come back. *)
Definition vm_fault (faulttype faultaddress : Z) : K vm Z :=
  let faultaddress := Z.land faultaddress PAGE_FRAME in
  if faulttype =? VM_FAULT_READONLY then halt Exit
  else if negb ((faulttype =? VM_FAULT_READ) || (faulttype =? VM_FAULT_WRITE)) then ret EINVAL
  else
    s <- kget;
    match vm_as s with
    | None => ret EFAULT
    | Some as_ =>
        _ <- kassert (negb (as_vbase1 as_ =? 0));
        _ <- kassert (negb (as_npages1 as_ =? 0));
        _ <- kassert (negb (as_vbase2 as_ =? 0));
        _ <- kassert (negb (as_npages2 as_ =? 0));
        _ <- kassert (negb (as_stackpbase as_ =? 0));
        _ <- kassert (Z.land (as_vbase1 as_) PAGE_FRAME =? as_vbase1 as_);
        _ <- kassert (Z.land (as_vbase2 as_) PAGE_FRAME =? as_vbase2 as_);
        _ <- kassert (Z.land (as_stackpbase as_) PAGE_FRAME =? as_stackpbase as_);
        seg <- as_contains as_ faultaddress;
        if seg =? 0 then halt Exit
        else
          '(paddr, err) <-
            (if seg =? SEG_STCK then
               let stackbase := USERSTACK - VM_STACKPAGES * PAGE_SIZE in
               ret (u32 (faultaddress - stackbase + as_stackpbase as_), 0)
             else pt_lookup faultaddress 0);
          if negb (err =? 0) then ret err
          else
            _ <- kassert (0 <? Z.land paddr PAGE_FRAME);
            _ <- kassert (Z.land paddr PAGE_FRAME =? paddr);
            filled <- tlb_fill (Z.to_nat NUM_TLB) 0 as_ faultaddress paddr;
            _ <- (if filled : bool then ret tt else tlb_replace as_ faultaddress paddr);
            ret 0
    end.
End Vm.
