(* ===== verification/VmSpec.v ===== *)
(** * Virtual memory, specified

    [vm_fault] on an address of the process, while memory lasts: the page is
    in memory and in the TLB afterwards, with the bytes of the executable if
    it was touched for the first time. *)
From S2P Require Import Prelude Array LinkedList Memory Copyinout Uio Pages Coremap Request Vm.

(** What this code relies on: reading at an offset gives the bytes of the file
    that are there, and changes no file. *)
Class VfsLaws (D : Type) `{!VfsIo D} : Type := {
  vfs_ok : D → Prop;
  vfs_file : D → Z → option (list Z);
  vop_read_ok d v bs off n (o : oracle) :
    vfs_ok d → vfs_file d v = Some bs → 0 ≤ off → 0 ≤ n → off + n < 2 ^ 31 →
    wp (VOP_READ v) (λ res t o', o' = o ∧ res = 0 ∧ vfs_ok t.1 ∧ (∀ w, vfs_file t.1 w = vfs_file d w) ∧
      let out := take (Z.to_nat n) (drop (Z.to_nat off) bs) in
      t.2 = mkRequest UIO_READ (off + Z.of_nat (length out)) (n - Z.of_nat (length out)) [] out [])
      (d, mkRequest UIO_READ off n [] [] []) o;
}.

(** ** The address space *)
Definition stackbase : Z := USERSTACK - VM_STACKPAGES * PAGE_SIZE.
Definition seg_of (as_ : addrspace) (va : Z) : Z :=
  if (as_vbase1 as_ <=? va) && (va <? as_vbase1 as_ + as_npages1 as_ * PAGE_SIZE) then SEG_TEXT
  else if (as_vbase2 as_ <=? va) && (va <? as_vbase2 as_ + as_npages2 as_ * PAGE_SIZE) then SEG_DATA
  else if (stackbase <=? va) && (va <? USERSTACK) then SEG_STCK
  else 0.
Definition writes (as_ : addrspace) (va : Z) : bool :=
  let seg := seg_of as_ va in
  if seg =? SEG_TEXT then negb (Z.land (as_flags1 as_) SEG_WR =? 0)
  else if seg =? SEG_DATA then negb (Z.land (as_flags2 as_) SEG_WR =? 0)
  else seg =? SEG_STCK.
Definition tlb_lo (as_ : addrspace) (va pa : Z) : Z :=
  let elo := Z.lor pa TLBLO_VALID in if writes as_ va then Z.lor elo TLBLO_DIRTY else elo.
Definition aligned (a : Z) : Prop := 0 ≤ a < 2 ^ 32 ∧ a mod PAGE_SIZE = 0.
Record region_ok (base npages filesz offset : Z) : Prop := {
  rg_base : aligned base ∧ 0 < base;
  rg_npages : 0 < npages ∧ base + npages * PAGE_SIZE ≤ USERTOP;
  rg_file : 0 ≤ filesz ∧ 0 ≤ offset ∧ offset + npages * PAGE_SIZE + PAGE_SIZE < 2 ^ 31;
}.
Record as_ok (as_ : addrspace) : Prop := {
  ak_1 : region_ok (as_vbase1 as_) (as_npages1 as_) (as_filesz1 as_) (as_offset1 as_);
  ak_2 : region_ok (as_vbase2 as_) (as_npages2 as_) (as_filesz2 as_) (as_offset2 as_);
}.

Lemma align_page z : 0 ≤ z < 2 ^ 32 → ALIGN z = z - z mod PAGE_SIZE.
Proof. intros Hz. unfold ALIGN. by rewrite land_page_frame. Qed.
Lemma align_id a : aligned a → ALIGN a = a.
Proof. intros [Ha Hm]. rewrite align_page by done. lia. Qed.
Lemma aligned_align z : 0 ≤ z < 2 ^ 32 → aligned (ALIGN z).
Proof.
  intros Hz. rewrite align_page by done. unfold aligned, PAGE_SIZE. pose proof (Z.mod_pos_bound z 4096 ltac:(lia)).
  Z.to_euclidean_division_equations. lia.
Qed.
(** The bits of an entry *)
Lemma page_bits a t : aligned a → 0 ≤ t < PAGE_SIZE → ALIGN (Z.lor a t) = a ∧ Z.land (Z.lor a t) 1 = Z.land t 1.
Proof.
  intros [Ha Hm] Ht. rewrite lor_page by done. unfold PAGE_SIZE in *. split.
  - rewrite align_page; unfold PAGE_SIZE; Z.to_euclidean_division_equations; lia.
  - change 1 with (Z.ones 1). rewrite !Z.land_ones by lia. Z.to_euclidean_division_equations; lia.
Qed.
Lemma valid_bits a : aligned a → IS_VALID (SET_VALID a) = true ∧ ALIGN (SET_VALID a) = a.
Proof. intros Ha. destruct (page_bits a 1 Ha) as [H1 H2]; [unfold PAGE_SIZE; lia|]. unfold IS_VALID, SET_VALID. by rewrite H1, H2. Qed.
Lemma tlb_lo_valid as_ va pa : aligned pa → Z.land (tlb_lo as_ va pa) TLBLO_VALID ≠ 0.
Proof.
  intros [_ Hm] He. apply (f_equal (λ z, Z.testbit z 9)) in He. rewrite Z.land_spec, Z.bits_0 in He.
  unfold tlb_lo in He. destruct (writes _ _); rewrite ?Z.lor_spec in He; change (Z.testbit TLBLO_VALID 9) with true in He;
    by rewrite ?orb_true_r in He.
Qed.

Lemma region_end base n filesz off : region_ok base n filesz off → u32 (base + n * PAGE_SIZE) = base + n * PAGE_SIZE.
Proof. intros [[[? _] ?] [? ?] _]. apply u32_small. unfold USERTOP, MIPS_KSEG0, PAGE_SIZE in *. lia. Qed.
Lemma as_contains_spec {S} as_ va (s : S) o :
  as_ok as_ → as_stackpbase as_ ≠ 0 → wp (as_contains as_ va) (λ r s' o', r = seg_of as_ va ∧ s' = s ∧ o' = o) s o.
Proof.
  intros [H1 H2] Hs. unfold as_contains. rewrite (region_end _ _ _ _ H1), (region_end _ _ _ _ H2).
  destruct H1 as [[_ H1] _ _], H2 as [[_ H2] _ _]. wp_step. wp_step; [lia|]. wp_step. wp_step; [lia|]. wp_step. wp_step; [lia|].
  unfold seg_of. fold stackbase. by repeat case_match; wp_step.
Qed.
Lemma as_writeable_spec {S} as_ va (s : S) o :
  as_ok as_ → as_stackpbase as_ ≠ 0 →
  wp (as_writeable as_ va) (λ r s' o', negb (r =? 0) = writes as_ va ∧ s' = s ∧ o' = o) s o.
Proof.
  intros Ha Hs. unfold as_writeable. wp_step. wp_call @as_contains_spec; [done..|]. intros r s' o' (-> & -> & ->).
  unfold writes. repeat case_match; wp_step; try done. 
Qed.

Section VmSpec.
  Context {D : Type} `{!VfsIo D, !VfsLaws D} (zeros : Z).
  Abbreviation vm := (vmsys D).
  Abbreviation page := (loc * (Z * Z))%type.
  Implicit Types (s : vm) (L : list page).

(** ** The invariant

    The entries of the page table are the pages [L], each with a frame of its
    own, and what is in the TLB is in [L] or on the stack. *)
Definition pg_va (x : page) : Z := x.2.1.
Definition pg_pa (x : page) : Z := x.2.2.
Definition has_frame (c : core) (pa : Z) (n : nat) : Prop := ∃ j, pa = frame c j ∧ block_at (cm c) j n.
Definition maps (as_ : addrspace) L (va pa : Z) : Prop :=
  (seg_of as_ va = SEG_STCK ∧ pa = va - stackbase + as_stackpbase as_) ∨
  ((seg_of as_ va = SEG_TEXT ∨ seg_of as_ va = SEG_DATA) ∧ ∃ p, (p, (va, pa)) ∈ L).
Record tlb_ok (as_ : addrspace) L (tlb : list (Z * Z)) : Prop := {
  tk_len : length tlb = 64%nat;
  tk_maps : ∀ i hi lo, tlb !! i = Some (hi, lo) → Z.land lo TLBLO_VALID ≠ 0 →
    ∃ pa, maps as_ L hi pa ∧ lo = tlb_lo as_ hi pa;
  tk_once : ∀ i j hi lo lo', tlb !! i = Some (hi, lo) → tlb !! j = Some (hi, lo') →
    Z.land lo TLBLO_VALID ≠ 0 → Z.land lo' TLBLO_VALID ≠ 0 → i = j;
}.
Record mem_ok (c : core) : Prop := {
  mk_core : core_ok c;
  mk_phys : phys_ok zeros c;
  mk_wf : cm_wf (cm c);
  mk_zeros : zeros + 16 ≤ MIPS_KSEG0 + firstaddr c;
}.
Record pt_ok (c : core) (pt : pagetable) L : Prop := {
  pk_entries : array_rep (entries pt) L.*1;
  pk_fifo : ll_rep (fifo pt) L.*1;
  pk_small : Z.of_nat (length L) < 2 ^ 28;
  pk_nodup : NoDup L.*1;
  pk_pte : ∀ x, x ∈ L → ptes pt !! x.1 = Some (mkPte (pg_va x) (SET_VALID (pg_pa x)));
  pk_va : ∀ x, x ∈ L → aligned (pg_va x);
  pk_pa : ∀ x, x ∈ L → has_frame c (pg_pa x) 1;
  pk_va_once : NoDup (pg_va <$> L);
  pk_pa_once : NoDup (pg_pa <$> L);
}.
Record vm_ok (as_ : addrspace) s L : Prop := {
  vk_mem : mem_ok (vm_core s);
  vk_vfs : vfs_ok (vm_vfs s);
  vk_as : vm_as s = Some as_;
  vk_stack : has_frame (vm_core s) (as_stackpbase as_) (Z.to_nat VM_STACKPAGES);
  vk_pt : pt_ok (vm_core s) (vm_pt s) L;
  vk_tlb : tlb_ok as_ L (vm_tlb s);
  vk_victim : 0 ≤ next_victim s < 64;
}.
Lemma frame_aligned c j n : core_ok c → block_at (cm c) j n → aligned (frame c j) ∧ 0 < frame c j.
Proof.
  intros Hc Hb. pose proof (block_at_end _ _ _ Hb) as He. destruct (frame_bounds c j n Hc) as [Hp Hq]; [lia|].
  destruct Hc as (_ & _ & _ & _ & _ & Hm & _). unfold aligned. split; [split|lia].
  - unfold PAGE_SIZE in *. lia.
  - unfold frame in *. rewrite Z.add_mod, Hm, Z.mod_mul by done. done.
Qed.
Lemma has_frame_ok c pa n : core_ok c → has_frame c pa n → aligned pa ∧ 0 < pa.
Proof. intros Hc (j & -> & Hb). by eapply frame_aligned. Qed.
Lemma maps_frame as_ s L va pa :
  vm_ok as_ s L → aligned va → maps as_ L va pa → aligned pa ∧ 0 < pa.
Proof.
  intros [[Hc _ _ _] _ _ Hst Hpt _ _] Hva [[Hseg ->]|[_ [p Hp]]].
  - unfold seg_of in Hseg. repeat case_match; try done. 
    destruct Hst as (j & Hj & Hb). destruct (frame_aligned _ _ _ Hc Hb) as [[Hr Hm] Hp].
    pose proof (block_at_end _ _ _ Hb) as He. destruct (frame_bounds _ j _ Hc He) as [_ Hq].
    rewrite Hj. destruct Hva as [Hv Hvm]. unfold aligned, stackbase, USERSTACK, USERTOP, MIPS_KSEG0, VM_STACKPAGES, PAGE_SIZE in *.
    Z.to_euclidean_division_equations. lia.
  - apply (has_frame_ok _ _ _ Hc (pk_pa _ _ _ Hpt _ Hp)).
Qed.

(** ** The TLB *)
Definition tlb_misses (tlb : list (Z * Z)) (va : Z) : Prop :=
  ∀ i lo, tlb !! i = Some (va, lo) → Z.land lo TLBLO_VALID = 0.
Lemma tlb_insert as_ L tlb i va pa :
  tlb_ok as_ L tlb → (i < 64)%nat → maps as_ L va pa → tlb_misses tlb va →
  tlb_ok as_ L (<[i := (va, tlb_lo as_ va pa)]> tlb).
Proof.
  intros [Hlen Hmaps Honce] Hi Hm Hmiss. split.
  - by rewrite length_insert.
  - intros j hi lo. destruct (decide (j = i)) as [->|].
    + rewrite list_lookup_insert_eq by lia. intros [= <- <-] _. by exists pa.
    + rewrite list_lookup_insert_ne by done. apply Hmaps.
  - intros j k hi lo lo' Hj Hk Hv Hv'. destruct (decide (j = i)) as [->|], (decide (k = i)) as [->|]; try done.
    + rewrite list_lookup_insert_eq in Hj by lia. simplify_eq/=. rewrite list_lookup_insert_ne in Hk by done.
      by rewrite (Hmiss _ _ Hk) in Hv'.
    + rewrite list_lookup_insert_eq in Hk by lia. simplify_eq/=. rewrite list_lookup_insert_ne in Hj by done.
      by rewrite (Hmiss _ _ Hj) in Hv.
    + rewrite list_lookup_insert_ne in Hj, Hk by done. by eapply Honce.
Qed.
Definition tlb_post (as_ : addrspace) s (va pa : Z) s' : Prop :=
  ∃ i z, (i < 64)%nat ∧ 0 ≤ z < 64 ∧ s' = set_tlb (<[i := (va, tlb_lo as_ va pa)]> (vm_tlb s)) (set_victim z s).
Lemma tlb_write_spec s hi lo i o :
  length (vm_tlb s) = 64%nat → 0 ≤ i < 64 →
  wp (TLB_Write hi lo i) (λ _ s' o', o' = o ∧ s' = set_tlb (<[Z.to_nat i := (hi, lo)]> (vm_tlb s)) s) s o.
Proof. intros Hlen Hi. unfold TLB_Write. do 2 wp_step. rewrite zinsert_ok by lia. do 3 wp_step. done. Qed.
Lemma tlb_elo_spec as_ s va pa o :
  as_ok as_ → as_stackpbase as_ ≠ 0 → wp (tlb_elo as_ va pa) (λ r s' o', r = tlb_lo as_ va pa ∧ s' = s ∧ o' = o) s o.
Proof.
  intros Ha Hs. unfold tlb_elo. wp_step. wp_call @as_writeable_spec; [done..|]. intros r s' o' (Hr & -> & ->). rewrite Hr. by wp_step.
Qed.
Lemma tlb_fill_spec n i as_ s va pa o :
  as_ok as_ → as_stackpbase as_ ≠ 0 → length (vm_tlb s) = 64%nat → 0 ≤ next_victim s < 64 → 0 ≤ i → i + Z.of_nat n ≤ 64 →
  wp (tlb_fill n i as_ va pa) (λ r s' o', o' = o ∧ if r then tlb_post as_ s va pa s' else s' = s) s o.
Proof.
  intros Ha Hs Hlen Hv. revert i. induction n as [|n IH]; intros i Hi Hn; cbn [tlb_fill]; [by wp_step|].
  wp_step. unfold TLB_Read. do 2 wp_step. destruct (proj2 (zlookup_is_Some (vm_tlb s) i)) as [[hi lo] He]; [lia|]. rewrite He. wp_step.
  cbv beta iota. case_match; [apply IH; lia|]. wp_step. wp_call tlb_elo_spec; [done..|]. intros r s' o' (-> & -> & ->).
  wp_step. wp_call tlb_write_spec; [done|lia|]. intros _ s' o' (-> & ->). wp_step. split; [done|].
  exists (Z.to_nat i), (next_victim s). split_and!; [lia..|]. by destruct s.
Qed.
Lemma tlb_replace_spec as_ s va pa o :
  as_ok as_ → as_stackpbase as_ ≠ 0 → length (vm_tlb s) = 64%nat → 0 ≤ next_victim s < 64 →
  wp (tlb_replace as_ va pa) (λ _ s' o', o' = o ∧ tlb_post as_ s va pa s') s o.
Proof.
  intros Ha Hs Hlen Hv. unfold tlb_replace, tlb_get_rr_victim. do 3 wp_step. rewrite (u32_small (_ + _)) by lia. do 4 wp_step.
  wp_call tlb_elo_spec; [done..|]. intros r s' o' (-> & -> & ->). wp_call tlb_write_spec; [done|lia|].
  intros _ s' o' (-> & ->). split; [done|]. eexists (Z.to_nat (next_victim s)), _. split_and!; [lia| | |by destruct s];
    unfold NUM_TLB; apply Z.mod_pos_bound; lia.
Qed.

(** ** Reading a page *)
Definition put_mem (c : core) (a : Z) (bs : list Z) : core :=
  mkCore (with_mem (cmach c) (write_at (mem (cmach c)) a bs)) (firstpaddr c) (lastpaddr c) (cm_size c) (firstaddr c)
    (lastaddr c) (freeaddr c) (cm_bootstrapped c) (cm c).
Lemma put_mem_app c a bs cs : put_mem (put_mem c a bs) (a + Z.of_nat (length bs)) cs = put_mem c a (bs ++ cs).
Proof. unfold put_mem, with_mem. simpl. by rewrite write_at_app. Qed.
Lemma mem_ok_put c a bs :
  mem_ok c → MIPS_KSEG0 + firstaddr c ≤ a → mem_ok (put_mem c a bs).
Proof.
  intros [Hc [(Hz1 & Hz2 & Hz) Hm] Hwf Hzb] Ha. split; try done. split; [split_and!; try done|].
  - cbn [cmach put_mem with_mem mem]. rewrite bytes_at_write_ne; [done|]. intros k Hk. lia.
  - by apply bytes_at_write_is_Some.
Qed.
(** the part of a file at an offset *)
Definition part (bs : list Z) (off n : Z) : list Z := take (Z.to_nat n) (drop (Z.to_nat off) bs).
Lemma vop_read_spec s v bs u (o : oracle) :
  vfs_ok (vm_vfs s) → vfs_file (vm_vfs s) v = Some bs → 0 ≤ uio_offset u → 0 ≤ uio_resid u ≤ iov_len u →
  uio_offset u + iov_len u < 2 ^ 31 → 0 ≤ iov_base u → iov_base u + iov_len u < 2 ^ 32 →
  let out := part bs (uio_offset u) (uio_resid u) in let n := Z.of_nat (length out) in
  wp (vop_read (Some v) u) (λ r s' o', o' = o ∧
    r = (0, mkUio (iov_base u + n) (iov_len u - n) (uio_offset u + n) (uio_resid u - n) (uio_segflg u) (uio_rw_ u) (uio_space u)) ∧
    ∃ d, vfs_ok d ∧ (∀ w, vfs_file d w = vfs_file (vm_vfs s) w) ∧
      s' = set_core (put_mem (vm_core s) (iov_base u) out) (set_vfs d s)) s o.
Proof.
  intros Hok Hf Ho Hr Hl Hb Hbl out n. unfold vop_read. wp_step. unfold with_request, wp at 1.
  pose proof (vop_read_ok (vm_vfs s) v bs (uio_offset u) (uio_resid u) o Hok Hf Ho ltac:(lia) ltac:(lia)) as Hlaw.
  unfold wp in Hlaw. destruct (VOP_READ v _ o) as [[[res [d r]] o']|]; [|done]. cbn [fst snd] in Hlaw.
  destruct Hlaw as (-> & -> & Hd & Hfs & ->). fold (part bs (uio_offset u) (uio_resid u)). fold out. fold n.
  assert (n ≤ uio_resid u) as Hn. { unfold n, out, part. rewrite length_take. lia. }
  cbv beta iota. cbn [rq_out rq_offset rq_resid]. fold n. repeat wp_step. split; [done|].
  split; [rewrite !u32_small by lia; done|]. exists d. split_and!; [done..|]. by destruct s.
Qed.
(** A page of a segment, with the part of the file that is in it *)
Definition filled (b : list Z) : list Z := b ++ replicate (4096 - length b) 0.
Lemma page_read_spec s v bs offset kva filesize (o : oracle) :
  let fsz := Z.min 4096 filesize in
  mem_ok (vm_core s) → vfs_ok (vm_vfs s) → vfs_file (vm_vfs s) v = Some bs →
  0 ≤ filesize → 0 ≤ offset → offset + 4096 < 2 ^ 31 → Z.of_nat (length (part bs offset fsz)) = fsz →
  MIPS_KSEG0 + firstaddr (vm_core s) ≤ kva → kva + 4096 < 2 ^ 32 → mapped (cmach (vm_core s)) kva 4096 →
  wp (page_read zeros (Some v) offset kva PAGE_SIZE filesize) (λ r s' o', o' = o ∧ r = 0 ∧
    ∃ d, vfs_ok d ∧ (∀ w, vfs_file d w = vfs_file (vm_vfs s) w) ∧
      s' = set_core (put_mem (vm_core s) kva (filled (part bs offset fsz))) (set_vfs d s)) s o.
Proof.
  intros fsz Hm Hv Hf Hfs Ho Hol Hlen Hk Hkl Hmap. unfold page_read. rewrite s32_small by lia.
  assert ((if PAGE_SIZE <? filesize then PAGE_SIZE else filesize) = fsz) as ->.
  { unfold PAGE_SIZE, fsz. destruct (Z.ltb_spec 4096 filesize); lia. }
  assert (0 < firstaddr (vm_core s)) as Hfa by apply (mk_core _ Hm). unfold MIPS_KSEG0 in Hk. cbv zeta. wp_step.
  wp_call vop_read_spec; try done; try (cbn; unfold PAGE_SIZE; lia).
  cbn [set_uio_resid mk_kuio iov_base iov_len uio_offset uio_resid uio_segflg uio_rw_ uio_space]. rewrite Hlen.
  intros r s' o' (-> & -> & d & Hd & Hfd & ->). cbv beta iota. rewrite Z.sub_diag. cbn [Z.eqb negb uio_resid].
  set (b := part bs offset fsz) in *. unfold PAGE_SIZE. rewrite (u32_small (4096 - fsz)) by lia.
  destruct (Z.ltb_spec 0 (4096 - fsz)) as [Hpos|Hz].
  - wp_step. unfold on_core, on_machine. repeat wp_step. rewrite (u32_small (0 + _)) by lia. cbn [set_uio_resid vm_core set_core].
    pose proof (mem_ok_put _ kva b Hm ltac:(unfold MIPS_KSEG0; lia)) as [_ [Hz0 _] _ _].
    wp_call uiomovezeros_spec; try done.
    + unfold uio_ok. cbn. unfold no_wrap. lia.
    + lia.
    + cbn. unfold USERTOP, MIPS_KSEG0. lia.
    + unfold amount. cbn [uio_resid iov_base]. rewrite Z.min_id. apply bytes_at_write_is_Some.
      replace (kva + fsz) with (kva + Z.of_nat (Z.to_nat fsz)) by lia. eapply bytes_at_sub_is_Some; [exact Hmap|change (Z.to_nat 4096) with 4096%nat; cbn [uio_resid set_uio_resid]; lia].
    + intros r m' o' (-> & -> & ->). cbv beta iota. wp_step. split_and!; [done..|]. exists d. split_and!; [done..|].
      unfold amount. cbn [uio_resid iov_base set_uio_resid]. rewrite Z.min_id. unfold filled. replace (4096 - length b)%nat with (Z.to_nat (4096 - fsz)) by lia.
      rewrite <- put_mem_app, Hlen. by destruct s.
  - wp_step. split_and!; [done..|]. exists d. split_and!; [done..|]. unfold filled.
    replace (4096 - length b)%nat with 0%nat by lia. simpl. by rewrite app_nil_r.
Qed.
(** how much of the file is in a page, and where *)
Definition page_part (as_ : addrspace) (va : Z) : Z * Z :=
  let '(base, filesz, offset) :=
    if seg_of as_ va =? SEG_TEXT then (as_vbase1 as_, as_filesz1 as_, as_offset1 as_) else (as_vbase2 as_, as_filesz2 as_, as_offset2 as_) in
  (Z.min 4096 (Z.max 0 (filesz - (va - base))), offset + (va - base)).
Definition page_bytes (as_ : addrspace) (bs : list Z) (va : Z) : list Z :=
  filled (part bs (page_part as_ va).2 (page_part as_ va).1).
(** The file has that much. *)
Definition page_there (as_ : addrspace) (bs : list Z) (va : Z) : Prop :=
  Z.of_nat (length (part bs (page_part as_ va).2 (page_part as_ va).1)) = (page_part as_ va).1.
Lemma region_diff base n filesz off va :
  region_ok base n filesz off → base ≤ va < base + n * PAGE_SIZE → 0 ≤ va < 2 ^ 32 →
  u32 (va - base) = va - base ∧ (if u32 (va - base) <? filesz then filesz - u32 (va - base) else 0) = Z.max 0 (filesz - (va - base)) ∧
  u32 (off + u32 (va - base)) = off + (va - base) ∧ 0 ≤ off + (va - base) ∧ off + (va - base) + 4096 < 2 ^ 31.
Proof.
  intros [[[? _] ?] [? ?] (? & ? & ?)] Hv Hr. unfold USERTOP, MIPS_KSEG0, PAGE_SIZE in *. rewrite (u32_small (va - base)) by lia.
  split_and!; [done|destruct (Z.ltb_spec (va - base) filesz); lia|apply u32_small; lia|lia..].
Qed.
Lemma loadpage_spec s as_ v bs va pa (o : oracle) :
  as_ok as_ → as_stackpbase as_ ≠ 0 → as_vnode as_ = Some v → aligned va → seg_of as_ va = SEG_TEXT ∨ seg_of as_ va = SEG_DATA →
  page_there as_ bs va → aligned pa → firstaddr (vm_core s) ≤ pa → pa + 4096 ≤ 508 * 1024 * 1024 →
  mem_ok (vm_core s) → vfs_ok (vm_vfs s) → vfs_file (vm_vfs s) v = Some bs → mapped (cmach (vm_core s)) (MIPS_KSEG0 + pa) 4096 →
  wp (loadpage zeros as_ va pa) (λ r s' o', o' = o ∧ r = 0 ∧
    ∃ d, vfs_ok d ∧ (∀ w, vfs_file d w = vfs_file (vm_vfs s) w) ∧
      s' = set_core (put_mem (vm_core s) (MIPS_KSEG0 + pa) (page_bytes as_ bs va)) (set_vfs d s)) s o.
Proof.
  intros Ha Hs Hvn Hva Hseg Hth Hpa Hpa1 Hpa2 Hm Hv Hf Hmap. unfold loadpage. rewrite !align_id by done. cbv zeta. wp_step.
  wp_call @as_contains_spec; [done..|]. intros r s' o' (-> & -> & ->). wp_step.
  assert (PADDR_TO_KVADDR pa = MIPS_KSEG0 + pa) as Hkv. { unfold PADDR_TO_KVADDR, MIPS_KSEG0. destruct Hpa. rewrite u32_small; lia. }
  unfold page_there, page_bytes, page_part in *. rewrite Hvn, Hkv.
  destruct Hseg as [Hseg|Hseg]; rewrite Hseg in Hth |- *; cbn [Z.eqb SEG_TEXT SEG_DATA Pos.eqb] in Hth |- *; cbn [fst snd] in *.
  - destruct (region_diff _ _ _ _ va (ak_1 _ Ha)) as (Hd & Hfs & Hoff & Ho1 & Ho2).
    { unfold seg_of, SEG_TEXT, SEG_DATA, SEG_STCK in Hseg. repeat case_match; lia. } { apply Hva. }
    rewrite Hfs, Hoff. wp_step. apply page_read_spec; try done; try lia. unfold MIPS_KSEG0. lia.
  - destruct (region_diff _ _ _ _ va (ak_2 _ Ha)) as (Hd & Hfs & Hoff & Ho1 & Ho2).
    { unfold seg_of, SEG_TEXT, SEG_DATA, SEG_STCK in Hseg. repeat case_match; lia. } { apply Hva. }
    rewrite Hfs, Hoff. wp_step. apply page_read_spec; try done; try lia. unfold MIPS_KSEG0. lia.
Qed.

(** ** Taking a frame *)
Lemma take_frames c j n :
  mem_ok c → (0 < n)%nat → first_fit n (cm c) 0 = Some j →
  mem_ok (take_block c j n) ∧ has_frame (take_block c j n) (frame c j) n ∧
  ∀ pa k, has_frame c pa k → has_frame (take_block c j n) pa k ∧ pa ≠ frame c j.
Proof.
  intros [Hc Hp Hwf Hz] Hn Hfit. apply first_fit_Some in Hfit as (_ & Hrun & _). rewrite Nat.sub_0_r in Hrun.
  destruct (set_block_wf (cm c) j n Hwf Hn Hrun) as (Hwf' & Hb & Hsame). split_and!.
  - split; try done; [by apply core_ok_take_block|]. destruct Hp as [Hz0 Hm]. split; [by apply zeros_ok_write|].
    unfold take_block. cbn [cm firstaddr cmach]. rewrite set_block_length. by apply bytes_at_write_is_Some.
  - by exists j.
  - intros pa k (i & -> & Hi). assert (i ≠ j) as Hne.
    { intros ->. apply run_free_true in Hrun as [_ Hfree]. destruct Hi as (_ & (e & He & Hu & _) & _).
      specialize (Hfree 0%nat e). rewrite lookup_drop, Nat.add_0_r in Hfree. specialize (Hfree ltac:(lia) He). lia. }
    split; [exists i; split; [done|]; by apply Hsame|]. unfold frame, PAGE_SIZE. lia.
Qed.
Lemma take_frame c j :
  mem_ok c → first_fit 1 (cm c) 0 = Some j →
  mem_ok (take_block c j 1) ∧ has_frame (take_block c j 1) (frame c j) 1 ∧
  ∀ pa n, has_frame c pa n → has_frame (take_block c j 1) pa n ∧ pa ≠ frame c j.
Proof. intros Hc. apply take_frames; [done|lia]. Qed.
Lemma frame_mapped c j n : mem_ok c → block_at (cm c) j n → mapped (cmach c) (MIPS_KSEG0 + frame c j) (Z.of_nat n * PAGE_SIZE).
Proof.
  intros [Hc [_ Hm] _ _] Hb. apply block_at_end in Hb. unfold mapped in *.
  replace (MIPS_KSEG0 + frame c j) with (MIPS_KSEG0 + firstaddr c + Z.of_nat (j * Z.to_nat PAGE_SIZE)) by (unfold frame, PAGE_SIZE; lia).
  eapply bytes_at_sub_is_Some; [exact Hm|]. unfold PAGE_SIZE. lia.
Qed.

(** ** The page table *)
Lemma on_entries_same s : set_pt (mkPt (entries (vm_pt s)) (fifo (vm_pt s)) (ptes (vm_pt s))) s = s.
Proof. by destruct s as [? ? ? []]. Qed.
(** *** The end of a page table *)
Lemma free_frame c pa n o :
  core_ok c → cm_wf (cm c) → has_frame c pa n →
  wp (ungetppages pa) (λ _ c' o', o' = o ∧ core_ok c' ∧ cm_wf (cm c') ∧
    ∀ pa' n', has_frame c pa' n' → pa' ≠ pa → has_frame c' pa' n') c o.
Proof.
  intros Hc Hwf (j & -> & Hb). eapply wp_mono; [by apply ungetppages_spec|]. cbn beta. intros _ c' o' (-> & ->).
  destruct (free_block_wf _ _ _ Hwf Hb) as [Hwf' Hiff]. split_and!; [done|by apply core_ok_mark|done|].
  intros pa' n' (j' & -> & Hb') Hne. exists j'. split; [done|]. apply Hiff. split; [|done]. by intros ->.
Qed.
Lemma pt_free_loop n : ∀ i s L o,
  core_ok (vm_core s) → cm_wf (cm (vm_core s)) → array_rep (entries (vm_pt s)) L.*1 → NoDup L.*1 → NoDup (pg_pa <$> L) →
  (∀ x, x ∈ drop i L → ptes (vm_pt s) !! x.1 = Some (mkPte (pg_va x) (SET_VALID (pg_pa x))) ∧ has_frame (vm_core s) (pg_pa x) 1) →
  (i + n)%nat = length L →
  wp (kfor n (Z.of_nat i) pt_free_entry) (λ _ s' o', o' = o ∧
    ∃ c ps, s' = set_pt (mkPt (entries (vm_pt s)) (fifo (vm_pt s)) ps) (set_core c s) ∧ core_ok c ∧ cm_wf (cm c) ∧
      ∀ pa m, has_frame (vm_core s) pa m → (∀ x, x ∈ drop i L → pg_pa x ≠ pa) → has_frame c pa m) s o.
Proof.
  induction n as [|n IH]; intros i s L o Hc Hwf Ha Hnd Hpa Hx Hn; cbn [kfor].
  { wp_step. split; [done|]. exists (vm_core s), (ptes (vm_pt s)). split_and!; [by destruct s as [? ? ? []]|done..]. }
  destruct (lookup_lt_is_Some_2 L i) as [x Hxi]; [lia|]. rewrite (drop_S _ _ _ Hxi) in Hx.
  destruct (Hx x) as [Hp Hf]; [set_solver|]. wp_step. unfold pt_free_entry. wp_step. unfold on_entries. wp_step.
  wp_call (array_getguy_spec _ _ _ x.1 _ Ha); [by rewrite zlookup_nat, list_lookup_fmap, Hxi|]. intros r a' o' (-> & -> & ->).
  rewrite on_entries_same. wp_step. unfold get_pte. wp_step. wp_step. rewrite Hp. wp_step. wp_step. unfold on_core. wp_step. cbn [pte_paddr].
  destruct (has_frame_ok _ _ _ Hc Hf) as [Hal _]. rewrite (proj2 (valid_bits _ Hal)).
  wp_call (free_frame _ _ _ _ Hc Hwf Hf). intros _ c' o' (-> & Hc' & Hwf' & Hkeep). wp_step.
  assert (∀ A (f : page → A) y, NoDup (f <$> L) → y ∈ drop (S i) L → f y ≠ f x) as Honce.
  { intros A f y Hf' (k & Hk)%list_elem_of_lookup He. rewrite lookup_drop in Hk.
    assert (i = S i + k)%nat; [|lia]. apply (NoDup_lookup (f <$> L) _ _ (f x) Hf'); rewrite list_lookup_fmap; [by rewrite Hxi|by rewrite Hk; simpl; rewrite He]. }
  assert (∀ y, y ∈ drop (S i) L → y.1 ≠ x.1 ∧ pg_pa y ≠ pg_pa x) as Hne.
  { intros y Hy. split; by apply Honce. }
  replace (Z.of_nat i + 1) with (Z.of_nat (S i)) by lia. eapply wp_mono; [eapply (IH (S i) _ L)|]; try done; simpl.
  - intros y Hy. rewrite lookup_delete_ne by (symmetry; by apply Hne). destruct (Hx y); [set_solver|]. split; [done|].
    apply Hkeep; [done|]. by apply Hne.
  - lia.
  - cbn beta. intros _ s' o' (-> & c2 & ps & -> & Hc2 & Hwf2 & Hk2). split; [done|]. exists c2, ps. split_and!; [done..|].
    intros pa m Hm Hno. rewrite (drop_S _ _ _ Hxi) in Hno. apply Hk2; [apply Hkeep; [done|]|].
    + intros ->. by apply (Hno x); [set_solver|].
    + intros y Hy. apply Hno. set_solver.
Qed.
Lemma pt_drain_spec n : ∀ s xs o,
  ll_rep (fifo (vm_pt s)) xs → length xs = n → Z.of_nat n < 2 ^ 28 →
  wp (pt_drain n) (λ _ s' o', o' = o ∧ ∃ l, s' = set_pt (mkPt (entries (vm_pt s)) l (ptes (vm_pt s))) s ∧ ll_rep l []) s o.
Proof.
  induction n as [|n IH]; intros s xs o Hl Hn Hs; cbn [pt_drain]; wp_step; unfold on_fifo at 1, ll_empty; wp_step; wp_step;
    rewrite on_entries_same.
  - destruct xs; [|done]. assert ((size (fifo (vm_pt s)) =? 0) = true) as ->.
    { destruct Hl as (ns & (_ & _ & _ & _ & ->) & He). by destruct ns. }
    wp_step. split; [done|]. exists (fifo (vm_pt s)). split; [by rewrite on_entries_same|done].
  - destruct xs as [|x xs]; [done|]. simpl in Hn. assert ((size (fifo (vm_pt s)) =? 0) = false) as ->.
    { destruct Hl as (ns & (_ & _ & _ & _ & ->) & He). destruct ns; [done|]. simpl. lia. }
    wp_step. unfold on_fifo. wp_step. wp_call (ll_pop_front_spec _ _ _ _ Hl); [lia|]. intros r l' o' (-> & -> & Hl').
    wp_call (IH _ xs); [done|lia|lia|]. intros _ s' o' (-> & l & -> & Hr). split; [done|]. by exists l.
Qed.
(** [pt_destroy] frees the frames of the pages, and no others. *)
Lemma pt_destroy_spec s L o :
  core_ok (vm_core s) → cm_wf (cm (vm_core s)) → pt_ok (vm_core s) (vm_pt s) L →
  wp pt_destroy (λ _ s' o', o' = o ∧ core_ok (vm_core s') ∧ cm_wf (cm (vm_core s')) ∧
    ∀ pa m, has_frame (vm_core s) pa m → pa ∉ (pg_pa <$> L) → has_frame (vm_core s') pa m) s o.
Proof.
  intros Hc Hwf [Ha Hl Hs Hnd Hp _ Hf _ Hpa]. unfold pt_destroy. wp_step. unfold on_entries at 1, array_getnum. wp_step. wp_step.
  rewrite on_entries_same. pose proof Ha as (Hnum & _). rewrite !length_fmap in Hnum. rewrite Hnum, Nat2Z.id. wp_step.
  wp_call (pt_free_loop (length L) 0 s L); [done..| |done|].
  { intros x Hx. split; [by apply Hp|by apply Hf]. }
  intros _ s1 o1 (-> & c & ps & -> & Hc' & Hwf' & Hk). wp_step. unfold on_fifo at 1, ll_size. wp_step. wp_step. wp_step. simpl.
  assert (size (fifo (vm_pt s)) = Z.of_nat (length L)) as ->.
  { destruct Hl as (ns & (_ & _ & _ & _ & ->) & He). apply (f_equal length) in He. rewrite !length_fmap in He. by rewrite He. }
  rewrite Nat2Z.id. wp_call (pt_drain_spec (length L)); [exact Hl|by rewrite length_fmap|lia|].
  intros _ s2 o2 (-> & l & -> & Hl'). wp_step. unfold on_entries, array_destroy. wp_step. wp_step. unfold on_fifo. wp_step.
  wp_call (ll_destroy_spec _ [] _ Hl'). intros _ l' o3 (-> & _). split_and!; [done..|]. intros pa m Hm Hno. apply Hk; [done|].
  intros x Hx <-. apply Hno. by apply list_elem_of_fmap_2.
Qed.
Lemma pt_find_spec n i s L va o :
  pt_ok (vm_core s) (vm_pt s) L → 0 ≤ i → i + Z.of_nat n = Z.of_nat (length L) →
  wp (pt_find n i va) (λ r s' o', s' = s ∧ o' = o ∧
    match r with
    | Some p => ∃ pa, (p, (va, pa)) ∈ L
    | None => ∀ k x, L !! k = Some x → (Z.to_nat i ≤ k)%nat → pg_va x ≠ va
    end) s o.
Proof.
  intros Hpt. revert i. induction n as [|n IH]; intros i Hi Hn; cbn [pt_find].
  { wp_step. split_and!; [done..|]. intros k x Hk ?. apply lookup_lt_Some in Hk. lia. }
  destruct (lookup_lt_is_Some_2 L (Z.to_nat i)) as [x Hx]; [lia|]. assert (x ∈ L) as Hin by by eapply list_elem_of_lookup_2.
  wp_step. unfold on_entries. wp_step. wp_call array_getguy_spec; [apply Hpt| |].
  { rewrite zlookup_fmap. rewrite <- (Z2Nat.id i), zlookup_nat, Hx by lia. done. }
  intros r a o' (-> & -> & ->). rewrite on_entries_same. unfold get_pte. do 3 wp_step.
  rewrite (pk_pte _ _ _ Hpt _ Hin). wp_step. cbn [pte_vaddr]. rewrite align_id by by apply (pk_va _ _ _ Hpt).
  destruct (Z.eqb_spec (pg_va x) va) as [Hva|Hva].
  - wp_step. split_and!; [done..|]. exists (pg_pa x). destruct x as [p [v pa]]. by simplify_eq/=.
  - eapply wp_mono; [apply IH; lia|]. cbn beta. intros r s' o' (-> & -> & Hr). split_and!; [done..|].
    destruct r; [done|]. intros k y Hk Hle. destruct (decide (k = Z.to_nat i)) as [->|]; [|apply (Hr k); [done|lia]].
    congruence.
Qed.
Lemma pt_find_all s L va o :
  pt_ok (vm_core s) (vm_pt s) L →
  wp (n <- on_entries array_getnum; pt_find (Z.to_nat n) 0 va) (λ r s' o', s' = s ∧ o' = o ∧
    match r with
    | Some p => ∃ pa, (p, (va, pa)) ∈ L
    | None => ∀ x, x ∈ L → pg_va x ≠ va
    end) s o.
Proof.
  intros Hpt. wp_step. unfold on_entries, array_getnum. do 2 wp_step. rewrite on_entries_same.
  destruct (pk_entries _ _ _ Hpt) as [-> _]. rewrite !length_fmap, Nat2Z.id.
  eapply wp_mono; [apply pt_find_spec; [done|lia..]|]. cbn beta. intros r s' o' (-> & -> & Hr). split_and!; [done..|].
  destruct r; [done|]. intros x [k Hk]%list_elem_of_lookup_1. apply (Hr k); [done|lia].
Qed.
Lemma pt_retry_now {A} (m : K vm (option A)) (Q : A → vm → oracle → Prop) s o :
  wp m (λ r s' o', ∃ a, r = Some a ∧ Q a s' o') s o → wp (pt_retry zeros m) Q s o.
Proof.
  intros Hm. unfold pt_retry, on_fifo, ll_size. do 3 wp_step. rewrite on_entries_same. cbn [until_room]. wp_step.
  eapply wp_mono; [exact Hm|]. cbn beta. intros r s' o' (a & -> & Ha). by wp_step.
Qed.
Lemma succeeds_spec (m : K vm Z) (Q : vm → oracle → Prop) s o :
  wp m (λ r s' o', r = 0 ∧ Q s' o') s o → wp (succeeds m) (λ r s' o', ∃ a, r = Some a ∧ Q s' o') s o.
Proof. intros Hm. unfold succeeds. wp_step. eapply wp_mono; [exact Hm|]. cbn beta. intros r s' o' [-> Hq]. wp_step. by exists tt. Qed.
Lemma pagefault_spec s as_ v bs va j o :
  as_ok as_ → as_stackpbase as_ ≠ 0 → as_vnode as_ = Some v → vm_as s = Some as_ → aligned va →
  seg_of as_ va = SEG_TEXT ∨ seg_of as_ va = SEG_DATA → page_there as_ bs va →
  mem_ok (vm_core s) → vfs_ok (vm_vfs s) → vfs_file (vm_vfs s) v = Some bs → first_fit 1 (cm (vm_core s)) 0 = Some j →
  wp (pt_pagefault_handler zeros va 0) (λ r s' o', o' = o ∧ r = (SET_VALID (frame (vm_core s) j), 0) ∧
    ∃ d, vfs_ok d ∧ (∀ w, vfs_file d w = vfs_file (vm_vfs s) w) ∧
      s' = set_core (put_mem (take_block (vm_core s) j 1) (MIPS_KSEG0 + frame (vm_core s) j) (page_bytes as_ bs va)) (set_vfs d s)) s o.
Proof.
  intros Ha Hs Hvn Has Hva Hseg Hth Hm Hv Hf Hfit. set (c := vm_core s) in *.
  destruct (take_frame c j Hm Hfit) as (Hm1 & Hfr & _). pose proof Hfr as (i & Hi & Hb).
  assert (i = j) as ->. { unfold frame, PAGE_SIZE in Hi. simpl in Hi. lia. } 
  destruct (frame_aligned _ _ _ (mk_core _ Hm1) Hb) as [Hal Hpos].
  destruct (frame_bounds _ _ _ (mk_core _ Hm1) (block_at_end _ _ _ Hb)) as [_ Hend].
  change (frame (take_block c j 1) j) with (frame c j) in *.
  unfold pt_pagefault_handler. wp_step. wp_step; [done|]. wp_step. unfold on_core. wp_step. unfold wp at 1.
  pose proof (getppages_eq zeros c 1 o (mk_core _ Hm) (mk_phys _ Hm) ltac:(lia)) as Hg. rewrite Hfit in Hg.
  change (Z.of_nat 1) with 1 in Hg. fold c. rewrite Hg. cbv zeta. rewrite (align_id _ Hal).
  destruct (Z.eqb_spec (frame c j) 0); [lia|]. repeat wp_step. cbn [set_core vm_as]. rewrite Has. repeat wp_step.
  wp_call loadpage_spec; try done; cbn [set_core vm_core vm_vfs].
  - unfold frame, PAGE_SIZE. simpl. lia.
  - replace 4096 with (Z.of_nat 1 * PAGE_SIZE) by done. by apply (frame_mapped (take_block c j 1)).
  - intros r s' o' (-> & -> & d & Hd & Hfd & ->). wp_step. cbn [negb Z.eqb]. wp_step. split_and!; [done..|].
    exists d. split_and!; [done..|]. done.
Qed.
Lemma pt_ok_new c pt L c' pt' p va pa :
  pt_ok c pt L → (∀ q n, has_frame c q n → has_frame c' q n ∧ q ≠ pa) → has_frame c' pa 1 → aligned va →
  (∀ x, x ∈ L → pg_va x ≠ va) → p ∉ L.*1 → Z.of_nat (length L) + 1 < 2 ^ 28 →
  array_rep (entries pt') (L.*1 ++ [p]) → ll_rep (fifo pt') (L.*1 ++ [p]) →
  (∀ q, q ≠ p → ptes pt' !! q = ptes pt !! q) → ptes pt' !! p = Some (mkPte va (SET_VALID pa)) →
  pt_ok c' pt' (L ++ [(p, (va, pa))]).
Proof.
  intros [He Hf Hsm Hnd Hpte Hva Hpa Hvo Hpo] Hfr Hnew Hav Hne Hp Hlen He' Hf' Hq Hpp. split; rewrite ?fmap_app; try done.
  - rewrite length_app. simpl. lia.
  - apply NoDup_app. split_and!; [done| |apply NoDup_singleton]. by intros x Hx ->%list_elem_of_singleton.
  - intros x [Hx| ->%list_elem_of_singleton]%elem_of_app; [|done]. rewrite Hq; [by apply Hpte|]. intros <-. apply Hp. by apply list_elem_of_fmap_2.
  - intros x [Hx| ->%list_elem_of_singleton]%elem_of_app; [by apply Hva|done].
  - intros x [Hx| ->%list_elem_of_singleton]%elem_of_app; [by apply (Hfr _ 1%nat), Hpa|done].
  - apply NoDup_app. split_and!; [done| |apply NoDup_singleton]. intros ? (x & -> & Hx)%list_elem_of_fmap Hin%list_elem_of_singleton.
    by apply (Hne x).
  - apply NoDup_app. split_and!; [done| |apply NoDup_singleton]. intros ? (x & -> & Hx)%list_elem_of_fmap Hin%list_elem_of_singleton.
    by apply (Hfr (pg_pa x) 1%nat); [apply Hpa|].
Qed.
(** A page with the bytes [pg] has come into memory. *)
Definition new_page (c c' : core) (pa : Z) (pg : list Z) : Prop :=
  bytes_at (mem (cmach c')) (MIPS_KSEG0 + pa) 4096 = Some pg ∧
  ∀ a, ¬ (MIPS_KSEG0 + pa ≤ a < MIPS_KSEG0 + pa + 4096) → mem (cmach c') !! a = mem (cmach c) !! a.
Lemma length_page as_ bs va : length (page_bytes as_ bs va) = 4096%nat.
Proof.
  unfold page_bytes, filled. rewrite length_app, length_replicate. unfold part. rewrite length_take.
  assert ((page_part as_ va).1 ≤ 4096); [|lia]. unfold page_part. destruct (_ =? _); simpl; lia.
Qed.
Lemma new_page_put c j pg :
  length pg = 4096%nat → new_page c (put_mem (take_block c j 1) (MIPS_KSEG0 + frame c j) pg) (frame c j) pg.
Proof.
  intros Hl. split.
  - cbn [cmach put_mem with_mem mem]. rewrite <- Hl. apply bytes_at_write_eq.
  - intros a Ha. cbn [cmach put_mem with_mem mem take_block clear_frames]. rewrite !write_at_lookup, Hl, length_replicate.
    rewrite !decide_False; [done|unfold PAGE_SIZE|]; lia.
Qed.
Definition grows L L' : Prop := ∃ L1, L' = L ++ L1.
Definition lookup_post (as_ : addrspace) (bs : list Z) s L (va : Z) (r : Z * Z) s' (o' : oracle) : Prop :=
  plenty o' ∧ r.2 = 0 ∧ ∃ L', vm_ok as_ s' L' ∧ grows L L' ∧ (∃ p, (p, (va, r.1)) ∈ L') ∧ vm_tlb s' = vm_tlb s ∧
    (∀ w, vfs_file (vm_vfs s') w = vfs_file (vm_vfs s) w) ∧
    (((∃ x, x ∈ L ∧ pg_va x = va) ∧ L' = L ∧ vm_core s' = vm_core s) ∨
     ((∀ x, x ∈ L → pg_va x ≠ va) ∧ new_page (vm_core s) (vm_core s') r.1 (page_bytes as_ bs va))).
Lemma pt_found_spec as_ bs s L p va pa o :
  vm_ok as_ s L → plenty o → (p, (va, pa)) ∈ L →
  wp (pte <- get_pte p; let pa := SET_VALID (ALIGN (pte_paddr pte)) in _ <- put_pte p (mkPte (pte_vaddr pte) pa); ret (ALIGN pa, 0))
    (lookup_post as_ bs s L va) s o.
Proof.
  intros Hvm Ho Hp. pose proof (vk_pt _ _ _ Hvm) as Hpt. pose proof (pk_pte _ _ _ Hpt _ Hp) as Hpte. simpl in Hpte.
  destruct (has_frame_ok _ _ _ (mk_core _ (vk_mem _ _ _ Hvm)) (pk_pa _ _ _ Hpt _ Hp)) as [Hal _]. destruct (valid_bits pa Hal) as [_ Hv].
  unfold get_pte. do 3 wp_step. rewrite Hpte. wp_step. cbn [pte_paddr pte_vaddr pg_va pg_pa fst snd]. rewrite Hv. wp_step. unfold put_pte.
  wp_step. rewrite insert_id by done. rewrite on_entries_same. wp_step. rewrite Hv. split_and!; try done. exists L. split_and!; try done.
  - by exists p.
  - left. split_and!; try done. by exists (p, (va, pa)).
Qed.
Lemma array_add_plenty (a : array loc) xs x o :
  array_rep a xs → Z.of_nat (length xs) < 2 ^ 29 → plenty o →
  wp (array_add x) (λ r a' o', r = 0 ∧ plenty o' ∧ array_rep a' (xs ++ [x])) a o.
Proof.
  intros Ha Hl Ho. eapply wp_mono; [by apply array_add_spec|]. cbn beta.
  intros r a' o' (-> & [(-> & _ & Ha')|(_ & _ & Hf & _)]); [|by apply plenty_head in Hf].
  split_and!; try done. case_match; [done|by apply plenty_tail].
Qed.
Lemma ll_push_plenty (l : linkedlist loc) xs x o :
  ll_rep l xs → Z.of_nat (length xs) < 2 ^ 31 - 1 → plenty o →
  wp (ll_push_back x) (λ r l' o', r = 0 ∧ plenty o' ∧ ll_rep l' (xs ++ [x])) l o.
Proof.
  intros Ha Hl Ho. eapply wp_mono; [by apply ll_push_back_spec|]. cbn beta.
  intros r a' o' (-> & [(-> & _ & Ha')|(_ & Hf & _)]); [|by apply plenty_head in Hf].
  split_and!; try done. by apply plenty_tail.
Qed.
(** The page is new, and there is a frame for it. *)
Lemma pt_new_spec as_ v bs s L va j o :
  vm_ok as_ s L → as_ok as_ → plenty o → as_vnode as_ = Some v → vfs_file (vm_vfs s) v = Some bs → aligned va →
  seg_of as_ va = SEG_TEXT ∨ seg_of as_ va = SEG_DATA → page_there as_ bs va → first_fit 1 (cm (vm_core s)) 0 = Some j →
  (∀ x, x ∈ L → pg_va x ≠ va) → Z.of_nat (length L) + 1 < 2 ^ 28 →
  wp (p <- pt_retry zeros new_pte;
      _ <- put_pte p (mkPte va 0);
      '(pa, err) <- pt_pagefault_handler zeros va 0;
      _ <- put_pte p (mkPte va pa);
      _ <- kassert (err =? 0);
      _ <- pt_retry zeros (succeeds (on_entries (array_add p)));
      _ <- pt_retry zeros (succeeds (on_fifo (ll_push_back p)));
      ret p) (λ p s' o', plenty o' ∧ ∃ pa, vm_ok as_ s' (L ++ [(p, (va, pa))]) ∧ vm_tlb s' = vm_tlb s ∧
        (∀ w, vfs_file (vm_vfs s') w = vfs_file (vm_vfs s) w) ∧ new_page (vm_core s) (vm_core s') pa (page_bytes as_ bs va)) s o.
Proof.
  intros Hvm Ha Ho Hvn Hf Hva Hseg Hth Hfit Hne Hlen. pose proof Hvm as [Hm Hv Has Hst Hpt Htl Hvi].
  destruct (has_frame_ok _ _ _ (mk_core _ Hm) Hst) as [_ Hs0].
  wp_step. apply pt_retry_now. unfold new_pte. do 2 wp_step. destruct (default true (list.head o)) eqn:Hok.
  2: { apply fails_iff in Hok. by apply plenty_head in Hok. }
  cbn [negb]. do 2 wp_step. set (p := fresh (dom (ptes (vm_pt s)))). unfold put_pte at 1. do 3 wp_step. exists p. split; [done|].
  assert (p ∉ L.*1) as Hp.
  { intros (x & Hpx & Hx)%list_elem_of_fmap. pose proof (is_fresh (dom (ptes (vm_pt s)))) as Hfresh. apply Hfresh. fold p.
    apply elem_of_dom. rewrite Hpx. eexists. by apply (pk_pte _ _ _ Hpt). }
  unfold put_pte at 1. do 2 wp_step. cbn [vm_pt set_pt entries fifo ptes]. rewrite insert_insert_eq. wp_step.
  wp_call pagefault_spec; try done; [lia|]. cbn [vm_core vm_vfs set_pt].
  intros r s1 o1 (-> & -> & d & Hd & Hfd & ->). cbv beta iota. unfold put_pte at 1. do 2 wp_step.
  cbn [vm_pt set_pt set_core set_vfs entries fifo ptes vm_core vm_vfs]. rewrite insert_insert_eq. wp_step. wp_step; [done|]. wp_step.
  apply pt_retry_now. eapply wp_mono; [apply succeeds_spec|intros ? ? ? (a & -> & Hq); exists a; split; [done|exact Hq]].
  unfold on_entries. wp_step. cbn [vm_pt set_pt entries]. eapply wp_mono; [apply array_add_plenty; [apply Hpt|rewrite length_fmap; lia|by apply plenty_tail]|].
  cbn beta. intros r a o2 (-> & Ho2 & Harr). split; [done|]. wp_step.
  apply pt_retry_now. eapply wp_mono; [apply succeeds_spec|intros ? ? ? (a' & -> & Hq); exists a'; split; [done|exact Hq]].
  unfold on_fifo. wp_step. cbn [vm_pt set_pt fifo]. eapply wp_mono; [apply ll_push_plenty; [apply Hpt|rewrite length_fmap; lia|done]|].
  cbn beta. intros r l o3 (-> & Ho3 & Hll). split; [done|]. wp_step. split; [done|].
  set (c := vm_core s) in *. destruct (take_frame c j Hm Hfit) as (Hm1 & Hfr & Hold). exists (frame c j). split_and!; try done.
  - split; cbn [vm_core vm_vfs vm_as vm_pt vm_tlb next_victim set_pt set_core set_vfs]; try done.
    + apply mem_ok_put; [done|]. unfold frame, PAGE_SIZE. simpl. lia.
    + by apply (Hold _ (Z.to_nat VM_STACKPAGES)).
    + eapply pt_ok_new; try done; cbn [entries fifo ptes].
      * intros q Hq. by rewrite lookup_insert_ne.
      * apply lookup_insert_eq.
    + destruct Htl as [Hl1 Hl2 Hl3]. split; try done. intros i hi lo Hi Hlo. destruct (Hl2 i hi lo Hi Hlo) as (q & Hq & ->).
      exists q. split; [|done]. destruct Hq as [Hq|[Hq [p' Hp']]]; [by left|right]. split; [done|]. exists p'. apply elem_of_app. by left.
  - apply new_page_put, length_page.
Qed.
(** What a page that is touched for the first time needs: a frame, and its
    part of the file *)
Definition can_load (as_ : addrspace) (bs : list Z) s L (va : Z) : Prop :=
  seg_of as_ va ≠ SEG_STCK → (∀ x, x ∈ L → pg_va x ≠ va) →
  is_Some (first_fit 1 (cm (vm_core s)) 0) ∧ page_there as_ bs va ∧ Z.of_nat (length L) + 1 < 2 ^ 28.
Lemma pt_lookup_spec as_ v bs s L va o :
  vm_ok as_ s L → as_ok as_ → plenty o → as_vnode as_ = Some v → vfs_file (vm_vfs s) v = Some bs → aligned va →
  seg_of as_ va = SEG_TEXT ∨ seg_of as_ va = SEG_DATA → can_load as_ bs s L va →
  wp (pt_lookup zeros va 0) (lookup_post as_ bs s L va) s o.
Proof.
  intros Hvm Ha Ho Hvn Hf Hva Hseg Hcan. pose proof (vk_pt _ _ _ Hvm) as Hpt. unfold pt_lookup. wp_step. wp_step; [done|].
  rewrite align_id by done. cbv zeta. pose proof (pt_find_all s L va o Hpt) as Hfind. apply wp_bind in Hfind.
  wp_step. eapply wp_mono; [exact Hfind|]. cbn beta. intros n s0 o0 Hn. wp_step. eapply wp_mono; [exact Hn|]. cbn beta.
  intros [p|] s1 o1 (-> & -> & Hr).
  - destruct Hr as [pa Hp]. wp_step. unfold get_pte at 1. do 3 wp_step. pose proof (pk_pte _ _ _ Hpt _ Hp) as Hpte. cbn [fst] in Hpte. rewrite Hpte. wp_step. cbn [pte_paddr pg_pa fst snd].
    destruct (has_frame_ok _ _ _ (mk_core _ (vk_mem _ _ _ Hvm)) (pk_pa _ _ _ Hpt _ Hp)) as [Hal _].
    destruct (valid_bits pa Hal) as [-> _]. wp_step. by eapply pt_found_spec.
  - destruct (Hcan ltac:(by destruct Hseg as [-> | ->]) Hr) as ([j Hfit] & Hth & Hlen). wp_step. eapply wp_mono; [by eapply pt_new_spec|]. cbn beta.
    intros p s2 o2 (Ho2 & pa & Hvm2 & Htl2 & Hfs2 & Hnew). assert ((p, (va, pa)) ∈ L ++ [(p, (va, pa))]) as Hin by set_solver.
    eapply wp_mono; [by eapply (pt_found_spec as_ bs s2 (L ++ [(p, (va, pa))]) p va pa)|]. cbn beta.
    intros r s3 o3 (Ho3 & Hr3 & L3 & Hvm3 & _ & [p3 Hp3] & Htl3 & Hfs3 & Hc3). destruct Hc3 as [(_ & -> & Hc3)|[Hno _]].
    2: { by destruct (Hno _ Hin). }
    assert (r.1 = pa) as Hrpa.
    { pose proof (pk_va_once _ _ _ (vk_pt _ _ _ Hvm3)) as Hnd. rewrite fmap_app in Hnd. apply NoDup_app in Hnd as (_ & Hdis & _).
      apply elem_of_app in Hp3 as [Hp3|Hp3]; [|set_solver]. by destruct (Hr _ Hp3). }
    split_and!; try done. exists (L ++ [(p, (va, pa))]). split_and!; try done.
    + by eexists.
    + by exists p3.
    + by rewrite Htl3.
    + intros w. by rewrite Hfs3.
    + right. split; [done|]. by rewrite Hrpa, Hc3.
Qed.

(** ** Faults *)
Definition fault_post (as_ : addrspace) (bs : list Z) s L (va res : Z) s' : Prop :=
  res = 0 ∧ ∃ L' pa i, vm_ok as_ s' L' ∧ grows L L' ∧ maps as_ L' va pa ∧ vm_tlb s' !! i = Some (va, tlb_lo as_ va pa) ∧
    (∀ w, vfs_file (vm_vfs s') w = vfs_file (vm_vfs s) w) ∧
    ((∃ pa', maps as_ L va pa') → L' = L ∧ vm_core s' = vm_core s) ∧
    ((∀ pa', ¬ maps as_ L va pa') → new_page (vm_core s) (vm_core s') pa (page_bytes as_ bs va)).
(** The frame is known; what is left is the TLB. *)
Lemma fault_tlb as_ s L va pa o :
  vm_ok as_ s L → as_ok as_ → maps as_ L va pa → tlb_misses (vm_tlb s) va →
  wp (filled <- tlb_fill (Z.to_nat NUM_TLB) 0 as_ va pa;
      _ <- (if filled : bool then ret tt else tlb_replace as_ va pa);
      ret 0) (λ res s' _, res = 0 ∧ vm_ok as_ s' L ∧ vm_core s' = vm_core s ∧ vm_vfs s' = vm_vfs s ∧
        ∃ i, vm_tlb s' !! i = Some (va, tlb_lo as_ va pa)) s o.
Proof.
  intros Hvm Ha Hmap Hmiss. pose proof Hvm as [Hm Hv Has Hst Hpt Htl Hvi]. pose proof (tk_len _ _ _ Htl) as Hlen.
  destruct (has_frame_ok _ _ _ (mk_core _ Hm) Hst) as [_ Hs0].
  assert (∀ s', tlb_post as_ s va pa s' → vm_ok as_ s' L ∧ vm_core s' = vm_core s ∧ vm_vfs s' = vm_vfs s ∧
    ∃ i, vm_tlb s' !! i = Some (va, tlb_lo as_ va pa)) as Hend.
  { intros s' (i & z & Hi & Hz & ->). split_and!; try done; [split; try done; by apply tlb_insert|].
    exists i. apply list_lookup_insert_eq. lia. }
  wp_step. wp_call tlb_fill_spec; try done; try lia. intros [] s1 o1 [-> Hs1]; wp_step.
  - do 2 wp_step. auto.
  - subst s1. wp_call tlb_replace_spec; try done; [lia|]. intros _ s2 o2 [-> Hs2]. wp_step. auto.
Qed.
Lemma aligned_land a : aligned a → (Z.land a PAGE_FRAME =? a) = true.
Proof. intros Ha. apply Z.eqb_eq. by apply align_id. Qed.
(** C11: [vm_fault] on a read or a write of an address of the process that is
    not in the TLB, while there is memory: the page gets an entry in the TLB,
    writable exactly if its segment is.  A page that is in memory already
    stays where it is and nothing else changes.  A page that is touched for
    the first time gets a frame of its own, with its part of the executable,
    zeros behind it, and no other memory changes. *)
Theorem vm_fault_maps as_ v bs s L (faulttype fa : Z) (o : oracle) :
  vm_ok as_ s L → as_ok as_ → plenty o → as_vnode as_ = Some v → vfs_file (vm_vfs s) v = Some bs → 0 ≤ fa < 2 ^ 32 →
  faulttype = VM_FAULT_READ ∨ faulttype = VM_FAULT_WRITE → seg_of as_ (ALIGN fa) ≠ 0 →
  tlb_misses (vm_tlb s) (ALIGN fa) → can_load as_ bs s L (ALIGN fa) →
  wp (vm_fault zeros faulttype fa) (λ res s' _, fault_post as_ bs s L (ALIGN fa) res s') s o.
Proof.
  intros Hvm Ha Ho Hvn Hf Hfa Hft Hseg Hmiss Hcan. pose proof (aligned_align fa Hfa) as Hva.
  pose proof Hvm as [Hm Hv Has Hst Hpt Htl Hvi]. destruct (has_frame_ok _ _ _ (mk_core _ Hm) Hst) as [Hsa Hs0].
  unfold vm_fault. fold (ALIGN fa). set (va := ALIGN fa) in *. cbv zeta.
  destruct (Z.eqb_spec faulttype VM_FAULT_READONLY); [destruct Hft; subst; done|].
  assert ((faulttype =? VM_FAULT_READ) || (faulttype =? VM_FAULT_WRITE) = true) as ->.
  { destruct Hft as [-> | ->]; done. }
  cbn [negb]. do 2 wp_step. rewrite Has. pose proof Ha as [[[Hb1 ?] [? _] _] [[Hb2 ?] [? _] _]].
  do 5 (wp_step; wp_step; [lia|]). do 3 (wp_step; wp_step; [by apply aligned_land|]).
  wp_step. wp_call @as_contains_spec; [done|lia|]. intros r s0 o0 (-> & -> & ->).
  destruct (Z.eqb_spec (seg_of as_ va) 0); [done|].
  wp_step. destruct (Z.eqb_spec (seg_of as_ va) SEG_STCK) as [Hstk|Hstk].
  - assert (maps as_ L va (va - stackbase + as_stackpbase as_)) as Hmap by by left.
    destruct (maps_frame _ _ _ _ _ Hvm Hva Hmap) as [Hpa Hp0].
    wp_step. fold stackbase. rewrite u32_small by apply Hpa. cbn [Z.eqb negb].
    wp_step. wp_step; [apply Z.ltb_lt; fold (ALIGN (va - stackbase + as_stackpbase as_)); by rewrite align_id|].
    wp_step. wp_step; [by apply aligned_land|]. eapply wp_mono; [by apply fault_tlb|]. cbn beta.
    intros res s1 o1 (-> & Hvm1 & Hc1 & Hv1 & i & Hi). split; [done|]. eexists L, _, i. split_and!; try done.
    + intros w. by rewrite Hv1.
    + intros Hno. by destruct (Hno _ Hmap).
  - assert (seg_of as_ va = SEG_TEXT ∨ seg_of as_ va = SEG_DATA) as Hseg'. { unfold seg_of in *. repeat case_match; tauto || done. }
    eapply wp_mono; [by eapply pt_lookup_spec|]. cbn beta. intros [pa err] s1 o1 (Ho1 & Herr & L1 & Hvm1 & Hg1 & [p Hp] & Htl1 & Hf1 & Hc1).
    cbn [fst snd] in *. subst err. cbn [Z.eqb negb]. assert (maps as_ L1 va pa) as Hmap by (right; split; [done|by exists p]).
    destruct (maps_frame _ _ _ _ _ Hvm1 Hva Hmap) as [Hpa Hp0].
    wp_step. wp_step; [apply Z.ltb_lt; fold (ALIGN pa); by rewrite align_id|].
    wp_step. wp_step; [by apply aligned_land|]. eapply wp_mono; [apply fault_tlb; try done; by rewrite Htl1|]. cbn beta.
    intros res s2 o2 (-> & Hvm2 & Hc2 & Hv2 & i & Hi). split; [done|]. exists L1, pa, i. rewrite Hc2, Hv2. split_and!; try done.
    + intros [pa' [[? _]|[_ [p' Hp']]]]; [congruence|]. destruct Hc1 as [(_ & -> & ->)|[Hno _]]; [done|]. by destruct (Hno _ Hp').
    + intros Hno. destruct Hc1 as [((x & Hx & Hxv) & _)|[_ Hn]]; [|done]. destruct (Hno (pg_pa x)). right. split; [done|].
      exists x.1. rewrite <- Hxv. by destruct x as [? []].
Qed.
End VmSpec.
