(* ===== verification/VmRuns.v ===== *)
(** * Virtual memory, run

    Files in memory as an instance of what the paging code relies on; a
    process whose pages come in one by one; and a run in which memory is
    short, where a page loses its contents and two pages share a frame. *)
From S2P Require Import Prelude Array LinkedList Memory Copyinout Uio Pages Coremap Request Vm VmSpec.

(** ** Files in memory *)
Module SimFiles.
Definition files : Type := gmap Z (list Z).
Definition sim_read (v : Z) : K (files * request) Z :=
  t <- kget;
  match t.1 !! v with
  | None => ret ENOENT
  | Some bs =>
      '(result, _) <- zoom snd (λ r t, (t.1, r)) (rq_uiomove (part bs (rq_offset t.2) (rq_resid t.2)));
      ret result
  end.
Definition overwrite (bs : list Z) (off : Z) (data : list Z) : list Z :=
  let n := Z.to_nat off in take n (bs ++ replicate (n - length bs) 0) ++ data ++ drop (n + length data) bs.
Definition sim_write (v : Z) : K (files * request) Z :=
  t <- kget;
  match t.1 !! v with
  | None => ret ENOENT
  | Some bs =>
      '(result, data) <- zoom snd (λ r t, (t.1, r)) (rq_uiomove (replicate (Z.to_nat (rq_resid t.2)) 0));
      _ <- modify (λ t' : files * request, (<[v := overwrite bs (rq_offset t.2) data]> t'.1, t'.2));
      ret result
  end.
#[export] Instance sim_io : VfsIo files := {
  VOP_READ := sim_read; VOP_WRITE := sim_write; vn_incref _ := ret tt; vn_decref _ := ret tt; vfs_open _ _ := ret (0, 0);
}.
#[export, refine] Instance sim_laws : VfsLaws files := { vfs_ok _ := True; vfs_file d v := d !! v }.
Proof.
  intros d v bs off n o _ Hf Ho Hn Hon. cbn [VOP_READ sim_io]. unfold sim_read. do 2 wp_step. cbn [fst snd]. rewrite Hf.
  cbn [rq_offset rq_resid]. fold (part bs off n). set (out := part bs off n). wp_step. wp_step. cbn [snd].
  assert (Z.of_nat (length out) ≤ n) as Hl. { unfold out, part. rewrite length_take. lia. }
  unfold rq_uiomove. do 2 wp_step. cbn [rq_resid rq_offset rq_rw rq_in rq_out rq_faults list.head list.tail default]. rewrite Z.min_l by lia.
  destruct (Z.leb_spec (Z.of_nat (length out)) 0) as [H0|H0].
  - do 2 wp_step. destruct out; [|simpl in H0; lia]. split_and!; try done. simpl. by rewrite Z.add_0_r, Z.sub_0_r.
  - do 3 wp_step. cbn [fst snd]. wp_step. split_and!; try done. rewrite s32_small, u32_small by lia. rewrite Nat2Z.id, firstn_all. done.
Defined.
End SimFiles.
Import SimFiles.

(** ** A small process: two pages of text, one of data, the stack *)
Module SampleVm.
Definition zeros : Z := 0x80001000.
Definition entry (i : nat) : coremap_entry :=
  mkEntry (8192 + Z.of_nat i * 4096) (if decide (i = 13)%nat then 0 else 1)
    (if decide (i = 1)%nat then 12 else if decide (i = 13)%nat then 0 else if decide (i = 14)%nat then 1 else -1).
(** the coremap, the stack, a free frame, and a page of the kernel *)
Definition frames : list coremap_entry := entry <$> seq 0 15.
Definition mem0 : gmap Z Z :=
  write_at (write_at ∅ zeros (replicate 16 0)) (MIPS_KSEG0 + 8192) (replicate (Z.to_nat (15 * PAGE_SIZE)) 7).
Definition core_of (h : gmap Z Z) : core :=
  mkCore (mkMachine h (λ _, AFault) (λ _, AFault) false) 69632 69632 15 8192 69632 12288 1 frames.
Definition space : addrspace := mkAs (Some 0) 0x400000 2 8192 0 5 0x10000000 1 0 8192 6 12288.
Definition text : list Z := replicate (Z.to_nat 8192) 1.
Definition idle : list (Z * Z) := (λ i, (TLBHI_INVALID (Z.of_nat i), TLBLO_INVALID)) <$> seq 0 64.
Definition start (h : gmap Z Z) : vmsys files :=
  mkVm (core_of h) {[0 := text; 1 := []]} (Some space) (mkPt (mkArray 0 0 None) (mkLL ∅ None None 0) ∅) idle 0 (Some 1) [].

Lemma space_ok : as_ok space.
Proof. split; (split; unfold aligned, USERTOP, MIPS_KSEG0, PAGE_SIZE; cbn; split_and!; try done; lia). Qed.
Lemma frames_at i : (i < 15)%nat → frames !! i = Some (entry i).
Proof. intros Hi. unfold frames. rewrite list_lookup_fmap, lookup_seq_lt by lia. done. Qed.
Lemma sample_frames h : core_ok (core_of h) ∧ cm_wf frames ∧ block_at frames 1 12.
Proof.
  split_and!.
  - unfold core_ok, frame, PAGE_SIZE. simpl. split_and!; try done; try lia. intros i e He.
    assert (i < 15)%nat by by apply lookup_lt_Some in He. change (frames !! i = Some e) in He. rewrite frames_at in He by done. by simplify_eq.
  - split; [by eexists|]. intros j Hj. change (length frames) with 15%nat in Hj. unfold is_entry. rewrite frames_at by done.
    destruct (decide (j = 13)%nat) as [->|]; [left; by eexists|right]. destruct (decide (j = 1)%nat) as [->|].
    + right. exists 12%nat. split_and!; [lia|by eexists|]. intros i Hi. exists (entry i). rewrite frames_at by lia. split; [done|].
      unfold entry. simpl. by rewrite !decide_False by lia.
    + destruct (decide (j = 14)%nat) as [->|]; [right; exists 1%nat; split_and!; [lia|by eexists|lia]|left].
      eexists. split; [done|]. unfold entry. simpl. by rewrite !decide_False by lia.
  - split_and!; [lia|by eexists|]. intros i Hi. exists (entry i). rewrite frames_at by lia. split; [done|].
    unfold entry. simpl. by rewrite !decide_False by lia.
Qed.
Lemma start_mem : mem_ok zeros (core_of mem0).
Proof.
  destruct (sample_frames mem0) as (Hc & Hwf & _). split; [done| |done|unfold zeros, MIPS_KSEG0; simpl; lia]. split.
  - split_and!; [unfold USERTOP, MIPS_KSEG0, zeros; lia|unfold zeros; lia|]. cbn [cmach core_of mem]. unfold mem0. rewrite bytes_at_write_ne.
    + exact (bytes_at_write_eq ∅ zeros (replicate 16 0)).
    + intros k Hk. unfold zeros, MIPS_KSEG0. lia.
  - unfold mapped. cbn [cmach core_of mem firstaddr cm]. change (Z.of_nat (length frames) * PAGE_SIZE) with (15 * PAGE_SIZE). unfold mem0.
    pose proof (bytes_at_write_eq (write_at ∅ zeros (replicate 16 0)) (MIPS_KSEG0 + 8192) (replicate (Z.to_nat (15 * PAGE_SIZE)) 7)) as Heq.
    rewrite length_replicate in Heq. exact (mk_is_Some _ _ Heq).
Qed.
Lemma idle_at i e : idle !! i = Some e → e = (TLBHI_INVALID (Z.of_nat i), TLBLO_INVALID).
Proof. unfold idle. rewrite list_lookup_fmap. destruct (seq 0 64 !! i) eqn:He; [|done]. apply lookup_seq in He as [-> _]. by intros [= <-]. Qed.
Lemma start_ok : vm_ok zeros space (start mem0) [].
Proof.
  split; cbn [start vm_core vm_vfs vm_as vm_pt vm_tlb next_victim].
  - apply start_mem.
  - exact I.
  - reflexivity.
  - exists 1%nat. split; [done|]. apply (sample_frames mem0).
  - split; cbn [entries fifo ptes fmap list_fmap]; try (by constructor); try by intros x ?%elem_of_nil.
    apply ll_rep_nil.
  - split; [done| |].
    + intros i hi lo Hi. apply idle_at in Hi as [= -> ->]. done.
    + intros i j hi lo lo' Hi. apply idle_at in Hi as [= -> ->]. done.
  - lia.
Qed.
End SampleVm.
Lemma vm_fault_maps_witness :
  wp (vm_fault SampleVm.zeros VM_FAULT_READ 0x400004) (λ res s' _,
    fault_post SampleVm.zeros SampleVm.space SampleVm.text (SampleVm.start SampleVm.mem0) [] (ALIGN 0x400004) res s') (SampleVm.start SampleVm.mem0) [].
Proof.
  apply (vm_fault_maps SampleVm.zeros SampleVm.space 0).
  - apply SampleVm.start_ok.
  - apply SampleVm.space_ok.
  - by constructor.
  - reflexivity.
  - reflexivity.
  - lia.
  - by left.
  - done.
  - intros i lo Hi. by apply SampleVm.idle_at in Hi as [= _ ->].
  - intros _ _. split_and!; [by eexists|vm_compute; reflexivity|simpl; lia].
Defined.

(** ** When memory is short *)
Module ShortVm.
Import SampleVm.
Definition mem1 : gmap Z Z := write_at (write_at ∅ zeros (replicate 16 0)) (MIPS_KSEG0 + 61440) (replicate (Z.to_nat 4096) 7).
Fixpoint touch (fas : list Z) : K (vmsys files) (list Z) :=
  match fas with
  | [] => ret []
  | fa :: fas => r <- vm_fault zeros VM_FAULT_READ fa; rs <- touch fas; ret (r :: rs)
  end.
(** the frame a page has in the page table, if it is valid *)
Definition frame_of (s : vmsys files) (va : Z) : option Z :=
  '(_, e) ← list_find (λ e, pte_vaddr e = va ∧ IS_VALID (pte_paddr e)) (map_to_list (ptes (vm_pt s))).*2;
  Some (ALIGN (pte_paddr e)).
Definition page_at (s : vmsys files) (pa : Z) : option (list Z) := bytes_at (mem (cmach (vm_core s))) (MIPS_KSEG0 + pa) 4096.
End ShortVm.
