(* ===== verification/Files.v ===== *)
(** * Open files: src/kern/filedes/file.c, filetable.c, and the system calls
    on files, src/kern/userprog/sysopen.c, sysclose.c, sysread.c, syswrite.c

    Several file tables share the [struct file]s, which are objects with
    addresses.  The locks are seen by one thread (see Vnode.v).  The virtual
    file system is behind the class [VfsFiles]. *)
From S2P Require Import Prelude Array LinkedList Table Memory Copyinout Uio Vnode SfsVnode.

Class VfsFiles (D : Type) : Type := {
  file_read : Z → uio → K (D * machine) (Z * uio); (** [VOP_READ] *)
  file_write : Z → uio → K (D * machine) (Z * uio); (** [VOP_WRITE] *)
  file_open : Z → Z → K (D * machine) (Z * Z); (** [vfs_open] of a path in memory: the error and the vnode *)
  file_close : Z → K D unit; (** [vfs_close] *)
  file_incref : Z → K D unit; (** [vnode_incref] *)
}.

Definition PROC_NFILES_MAX : Z := 50.
Definition PATH_MAX : Z := 1024.

Record file : Type := mkFile {
  f_status : Z;
  f_offset : Z;
  f_v : Z;
  file_lock : option ulock;
  numrefs : Z;
}.
Record filetable : Type := mkFt { ft_files : table loc; ft_lock : ulock }.
(** The virtual file system, memory, and the files *)
Record fdsys (D : Type) : Type := mkFd {
  fd_vfs : D;
  fd_mach : machine;
  fd_heap : gmap loc file;
}.
Arguments mkFd {D} _ _ _.
Arguments fd_vfs {D} _.
Arguments fd_mach {D} _.
Arguments fd_heap {D} _.
Definition set_numrefs (n : Z) (f : file) : file := mkFile (f_status f) (f_offset f) (f_v f) (file_lock f) n.
Definition set_foffset (n : Z) (f : file) : file := mkFile (f_status f) n (f_v f) (file_lock f) (numrefs f).
Definition set_flock (l : option ulock) (f : file) : file := mkFile (f_status f) (f_offset f) (f_v f) l (numrefs f).

(** ** filetable.c, what only makes a table *)
Definition ft_create {S} : K S (option filetable) :=
  ok <- kmalloc_ok;
  if negb ok then ret None
  else
    files <- tab_create;
    match files with
    | None => ret None
    | Some files =>
        l <- ulock_create;
        match l with
        | None =>
            _ <- run_on tab_destroy files;
            ret None
        | Some l => ret (Some (mkFt files l))
        end
    end.

Section Files.
  Context {D : Type} `{!VfsFiles D}.
  (** [curthread->t_vmspace], and the addresses of the local variables [dest]
      of [sys_read] and [sys_write] and [foo] of [filename_invalid] *)
  Context (t_vmspace : option nat) (dest foo : Z).
  Abbreviation fds := (fdsys D).
  Abbreviation ftsys := (filetable * fdsys D)%type.

Definition set_heap (h : gmap loc file) (s : fds) : fds := mkFd (fd_vfs s) (fd_mach s) h.
Definition on_fvfs {A} (m : K D A) : K fds A := zoom fd_vfs (λ d s, mkFd d (fd_mach s) (fd_heap s)) m.
Definition on_fmach {A} (m : K machine A) : K fds A := zoom fd_mach (λ mc s, mkFd (fd_vfs s) mc (fd_heap s)) m.
Definition on_both {A} (m : K (D * machine) A) : K fds A :=
  zoom (λ s, (fd_vfs s, fd_mach s)) (λ dm s, mkFd dm.1 dm.2 (fd_heap s)) m.
(** [*f], and assignments through [f] *)
Definition get_file (f : loc) : K fds file := s <- kget; deref (fd_heap s !! f).
Definition upd_file (f : loc) (g : file → file) : K fds unit :=
  x <- get_file f;
  modify (λ s, set_heap (<[f := g x]> (fd_heap s)) s).
(** [lock_acquire] and [lock_release] of the lock assert that there is one. *)
Definition on_flock {A} (f : loc) (m : K ulock A) : K fds A :=
  x <- get_file f;
  l <- match file_lock x with None => panic | Some l => ret l end;
  '(a, l) <- run_on m l;
  _ <- upd_file f (set_flock (Some l));
  ret a.
Definition on_files {A} (m : K (table loc) A) : K ftsys A :=
  zoom (λ t, ft_files t.1) (λ x t, (mkFt x (ft_lock t.1), t.2)) m.
Definition on_ftlock {A} (m : K ulock A) : K ftsys A :=
  zoom (λ t, ft_lock t.1) (λ x t, (mkFt (ft_files t.1) x, t.2)) m.
Definition on_heap {A} (m : K fds A) : K ftsys A := zoom snd (λ x t, (t.1, x)) m.

(** ** file.c *)
(** The result of [lock_create] is not looked at. *)
Definition f_create (status offset v : Z) : K fds (option loc) :=
  ok <- kmalloc_ok;
  if negb ok then ret None
  else
    l <- ulock_create;
    s <- kget;
    let f := fresh (dom (fd_heap s)) in
    _ <- kput (set_heap (<[f := mkFile status offset v l 0]> (fd_heap s)) s);
    ret (Some f).
Definition f_destroy (f : loc) : K fds unit :=
  _ <- get_file f;
  modify (λ s, set_heap (delete f (fd_heap s)) s).

(** ** filetable.c *)
(** [f->numrefs--] and what follows when that was the last reference *)
Definition f_decref (f : loc) : K fds unit :=
  _ <- upd_file f (λ x, set_numrefs (s32 (numrefs x - 1)) x);
  x <- get_file f;
  if numrefs x =? 0 then
    _ <- on_fvfs (file_close (f_v x));
    f_destroy f
  else ret tt.
Definition ft_drop (i : Z) : K ftsys unit :=
  f <- on_files (tab_getguy i);
  match f with
  | Some f =>
      _ <- on_files (tab_remove i);
      on_heap (f_decref f)
  | None => ret tt
  end.
(** [tab_remove] does not change the size of the table. *)
Definition ft_destroy : K ftsys unit :=
  n <- on_files tab_getsize;
  _ <- kfor (Z.to_nat n) 0 ft_drop;
  _ <- on_files tab_destroy;
  on_ftlock ulock_destroy.
(** The descriptor and [*err] *)
Definition ft_storefile (f : loc) (err : Z) : K ftsys (Z * Z) :=
  _ <- on_ftlock ulock_acquire;
  numfiles <- on_files tab_getnum;
  r <-
    (if PROC_NFILES_MAX <=? numfiles then ret (-1, EMFILE)
     else
       '(result, err) <- on_files (tab_add (Some f) err);
       if result =? -1 then ret (result, err)
       else
         _ <- on_heap (upd_file f (set_numrefs 1));
         ret (result, err));
  _ <- on_ftlock ulock_release;
  ret r.
Definition ft_removefile (fd : Z) : K ftsys Z :=
  _ <- on_ftlock ulock_acquire;
  size <- on_files tab_getsize;
  result <-
    (if (fd <? 0) || (size <=? fd) then ret ENOENT
     else
       f <- on_files (tab_getguy fd);
       match f with
       | Some f =>
           result <- on_files (tab_remove fd);
           _ <- kassert (result =? 0);
           _ <- on_heap (f_decref f);
           ret result
       | None => ret 0
       end);
  _ <- on_ftlock ulock_release;
  ret result.
(** The file and [*err] *)
Definition ft_getfile (fd err : Z) : K ftsys (option loc * Z) :=
  _ <- on_ftlock ulock_acquire;
  size <- on_files tab_getsize;
  r <-
    (if (fd <? 0) || (size <=? fd) then ret (None, EBADF)
     else
       f <- on_files (tab_getguy fd);
       match f with
       | None => ret (None, EBADF)
       | Some f => ret (Some f, err)
       end);
  _ <- on_ftlock ulock_release;
  ret r.
(** [f->numrefs++] for each file of the new table *)
Definition ft_incref (nft : table loc) (i : Z) : K ftsys unit :=
  '(f, _) <- run_on (tab_getguy i) nft;
  match f with
  | Some f => on_heap (upd_file f (λ x, set_numrefs (s32 (numrefs x + 1)) x))
  | None => ret tt
  end.
(** Run on the table that is copied; the new table is passed in and out. *)
Definition ft_duplicate (nft : filetable) : K ftsys (Z * filetable) :=
  _ <- on_ftlock ulock_acquire;
  '(err, files) <- on_files (tab_duplicate (ft_files nft));
  _ <-
    (if negb (err =? 0) then ret tt
     else
       '(size, _) <- run_on tab_getsize files;
       kfor (Z.to_nat size) 0 (ft_incref files));
  _ <- on_ftlock ulock_release;
  ret (err, mkFt files (ft_lock nft)).
(** [sys_fork]: the table of the child, which is destroyed when the files
    cannot be copied *)
Definition fork_files (nft : filetable) : K ftsys (Z * option filetable) :=
  '(err, nft) <- ft_duplicate nft;
  if negb (err =? 0) then
    t <- kget;
    '(_, nt) <- run_on ft_destroy (nft, t.2);
    _ <- kput (t.1, nt.2);
    ret (err, None)
  else ret (err, Some nft).
Definition ft_numfiles : K ftsys Z :=
  _ <- on_ftlock ulock_acquire;
  r <- on_files tab_getnum;
  _ <- on_ftlock ulock_release;
  ret r.
Definition ft_getsize : K ftsys Z :=
  _ <- on_ftlock ulock_acquire;
  r <- on_files tab_getsize;
  _ <- on_ftlock ulock_release;
  ret r.
(** [console] is the string that [kstrdup] made; [err] is not initialised
    before [vfs_open] sets it. *)
Definition console_files_bootstrap (console : Z) : K ftsys unit :=
  '(err, vn) <- on_heap (on_both (file_open console O_RDONLY));
  _ <- kassert (err =? 0);
  f_stdin <- on_heap (f_create O_RDONLY 0 vn);
  f_stdin <- match f_stdin with None => panic | Some f => ret f end;
  f_stdout <- on_heap (f_create O_WRONLY 0 vn);
  f_stdout <- match f_stdout with None => panic | Some f => ret f end;
  f_stderr <- on_heap (f_create O_WRONLY 0 vn);
  f_stderr <- match f_stderr with None => panic | Some f => ret f end;
  '(_, err) <- ft_storefile f_stdin err;
  _ <- kassert (err =? 0);
  '(_, err) <- ft_storefile f_stdout err;
  _ <- kassert (err =? 0);
  '(_, err) <- ft_storefile f_stderr err;
  _ <- kassert (err =? 0);
  _ <- on_heap (upd_file f_stdin (set_numrefs 3));
  _ <- on_heap (upd_file f_stdout (set_numrefs 3));
  _ <- on_heap (upd_file f_stderr (set_numrefs 3));
  _ <- on_heap (on_fvfs (file_incref vn));
  on_heap (on_fvfs (file_incref vn)).

(** ** The system calls; each returns the value for the process and [*err].
    The file table is that of the current process. *)
Definition filename_invalid (filename : Z) : K ftsys (bool * Z) :=
  if filename =? 0 then ret (true, EFAULT)
  else
    '(err, _) <- on_heap (on_fmach (copyinstr filename foo PATH_MAX));
    ret (negb (err =? 0), err).
(** [vfs_open] is given the pointer of the process, not the copy. *)
Definition sys_open (filename flags err : Z) : K ftsys (Z * Z) :=
  _ <- kassert (err =? 0);
  '(invalid, err) <- filename_invalid filename;
  if invalid : bool then
    _ <- kassert (negb (err =? 0));
    ret (-1, err)
  else
    '(r, v) <- on_heap (on_both (file_open filename flags));
    if negb (r =? 0) then ret (-1, r)
    else
      f <- on_heap (f_create flags 0 v);
      match f with
      | None =>
          _ <- on_heap (on_fvfs (file_close v));
          ret (-1, ENOMEM)
      | Some f =>
          '(r, err) <- ft_storefile f err;
          if r =? -1 then
            _ <- on_heap (f_destroy f);
            _ <- on_heap (on_fvfs (file_close v));
            ret (-1, err)
          else ret (r, err)
      end.
Definition sys_close (fd err : Z) : K ftsys (Z * Z) :=
  _ <- kassert (err =? 0);
  '(f, err) <- ft_getfile fd err;
  match f with
  | None =>
      _ <- kassert (negb (err =? 0));
      ret (-1, err)
  | Some _ =>
      result <- ft_removefile fd;
      if negb (result =? 0) then ret (-1, result) else ret (0, err)
  end.
(** The label [fail] *)
Definition io_fail (f : loc) (err : Z) : K ftsys (Z * Z) :=
  _ <- kassert (negb (err =? 0));
  _ <- on_heap (on_flock f ulock_release);
  ret (-1, err).
Definition sys_read (fd buf buflen err : Z) : K ftsys (Z * Z) :=
  _ <- kassert (err =? 0);
  if buf =? 0 then ret (-1, EFAULT)
  else
    ptr_check <- on_heap (on_fmach (copyin buf dest 4));
    if negb (ptr_check =? 0) then ret (-1, ptr_check)
    else
      '(file, err) <- ft_getfile fd err;
      match file with
      | None =>
          _ <- kassert (negb (err =? 0));
          ret (-1, if err =? ENOENT then EBADF else err)
      | Some file =>
          _ <- on_heap (on_flock file ulock_acquire);
          x <- on_heap (get_file file);
          let how := Z.land (f_status x) O_ACCMODE in
          if negb ((how =? O_RDONLY) || (how =? O_RDWR)) then io_fail file EBADF
          else
            '(result, u) <- on_heap (on_both (file_read (f_v x)
               (mkUio buf buflen (f_offset x) buflen UIO_USERSPACE UIO_READ t_vmspace)));
            if negb (result =? 0) then io_fail file err
            else
              let result := s32 (buflen - uio_resid u) in
              _ <- kassert (0 <=? result);
              _ <- on_heap (upd_file file (set_foffset (uio_offset u)));
              _ <- on_heap (on_flock file ulock_release);
              ret (result, err)
      end.
(** The result of [VOP_WRITE] is not looked at. *)
Definition sys_write (fd buf buflen err : Z) : K ftsys (Z * Z) :=
  _ <- kassert (err =? 0);
  '(fi, err) <- ft_getfile fd err;
  match fi with
  | None => ret (-1, EBADF)
  | Some fi =>
      _ <- on_heap (on_flock fi ulock_acquire);
      x <- on_heap (get_file fi);
      let file_status := Z.land (f_status x) O_ACCMODE in
      if negb (file_status =? O_WRONLY) && negb (file_status =? O_RDWR) then io_fail fi EBADF
      else if buf =? 0 then io_fail fi EFAULT
      else
        ptr_check <- on_heap (on_fmach (copyin buf dest 4));
        if negb (ptr_check =? 0) then io_fail fi ptr_check
        else
          '(_, u) <- on_heap (on_both (file_write (f_v x)
             (mkUio buf buflen (f_offset x) buflen UIO_USERSPACE UIO_WRITE t_vmspace)));
          if negb (err =? 0) then io_fail fi err
          else
            _ <- on_heap (upd_file fi (set_foffset (uio_offset u)));
            _ <- on_heap (on_flock fi ulock_release);
            ret (s32 (buflen - uio_resid u), err)
  end.
End Files.
