(* ===== verification/FilesSpec.v ===== *)
(** * Open files: descriptors, references and the calls on files

    Processes with a file table each share the open files.  The contract is a
    finite map [M] from descriptors, a process and a number, to files, and a
    map [F] from files to status, offset and vnode.  The code implements it
    with reference counts: a file lives exactly as long as a descriptor
    refers to it, and its vnode is closed once, when the last one goes. *)
From S2P Require Import Prelude Array Queue LinkedList Table Memory Copyinout Uio Vnode SfsVnode Files.

(** ** What the virtual file system promises (src/kern/include/vfs.h and
    vnode.h): [opens d v] is the number of times [v] is open.  A file that is
    open can be read, written and closed, and closing does not fail. *)
Definition string_at (m : machine) (p : Z) : Prop :=
  ∃ s, bytes_at (mem m) p (S (length s)) = Some (s ++ [0]) ∧ 0 ∉ s.
Definition region_there (m : machine) (a len : Z) : Prop :=
  a + len ≤ USERTOP → mapped m a len ∧ survives (urd m) a len ∧ survives (uwr m) a len.
(** A transfer that ends with the request [u'] *)
Definition io_done (u u' : uio) : Prop :=
  0 ≤ uio_resid u' ≤ uio_resid u ∧ uio_offset u' = s32 (uio_offset u + (uio_resid u - uio_resid u')).
Class FilesLaws (D : Type) `{!VfsFiles D} : Type := {
  vf_ok : D → Prop;
  opens : D → Z → Z;
  file_open_ok d m p flags o :
    vf_ok d → badfault m = false → string_at m p →
    wp (file_open p flags) (λ r dm o', vf_ok dm.1 ∧ badfault dm.2 = false ∧ (plenty o → plenty o') ∧
      ∀ w, opens dm.1 w = opens d w + (if decide (r.1 = 0 ∧ w = r.2) then 1 else 0)) (d, m) o;
  file_close_ok d v o :
    vf_ok d → 0 < opens d v →
    wp (file_close v) (λ _ d' o', vf_ok d' ∧ (plenty o → plenty o') ∧
      ∀ w, opens d' w = opens d w - (if decide (w = v) then 1 else 0)) d o;
  file_read_ok d m v u o :
    vf_ok d → badfault m = false → 0 < opens d v → s32 (uio_offset u) = uio_offset u → 0 ≤ uio_resid u → region_there m (iov_base u) (iov_len u) →
    wp (file_read v u) (λ r dm _, vf_ok dm.1 ∧ badfault dm.2 = false ∧ (∀ w, opens dm.1 w = opens d w) ∧
      io_done u r.2) (d, m) o;
  file_write_ok d m v u o :
    vf_ok d → badfault m = false → 0 < opens d v → s32 (uio_offset u) = uio_offset u → 0 ≤ uio_resid u → region_there m (iov_base u) (iov_len u) →
    wp (file_write v u) (λ r dm _, vf_ok dm.1 ∧ badfault dm.2 = false ∧ (∀ w, opens dm.1 w = opens d w) ∧
      io_done u r.2) (d, m) o;
}.

(** ** Counting *)
Definition refs {I} `{Countable I} (M : gmap I loc) (f : loc) : Z := Z.of_nat (base.size (filter (λ kf, kf.2 = f) M)).
Definition uses (h : gmap loc file) (v : Z) : Z := Z.of_nat (base.size (filter (λ fx, f_v fx.2 = v) h)).

Section Counting.
  Context {I A : Type} `{Countable I} (P : I * A → Prop) `{!∀ x, Decision (P x)}.
  Implicit Types M : gmap I A.
Lemma count_insert M i x :
  M !! i = None → base.size (filter P (<[i := x]> M)) = (base.size (filter P M) + if decide (P (i, x)) then 1 else 0)%nat.
Proof.
  intros Hi. case_decide as HP.
  - rewrite map_filter_insert_True, map_size_insert_None by (done || (apply map_lookup_filter_None; auto)). lia.
  - rewrite map_filter_insert_not' by naive_solver. lia.
Qed.
Lemma count_delete M i x :
  M !! i = Some x → base.size (filter P M) = (base.size (filter P (delete i M)) + if decide (P (i, x)) then 1 else 0)%nat.
Proof.
  intros Hi. rewrite <- (insert_delete_id M i x Hi) at 1. rewrite count_insert by apply lookup_delete_eq. done.
Qed.
Lemma count_pos M i x : M !! i = Some x → P (i, x) → (0 < base.size (filter P M))%nat.
Proof. intros Hi HP. rewrite (count_delete M i x Hi), decide_True by done. lia. Qed.
End Counting.

Section Refs.
  Context {I : Type} `{Countable I}.
  Implicit Types M : gmap I loc.
Lemma refs_nonneg M f : 0 ≤ refs M f.
Proof. unfold refs. lia. Qed.
Lemma refs_empty f : refs (∅ : gmap I loc) f = 0.
Proof. unfold refs. by rewrite map_filter_empty, map_size_empty. Qed.
Lemma refs_insert M i f g : M !! i = None → refs (<[i := f]> M) g = refs M g + (if decide (g = f) then 1 else 0).
Proof. intros Hi. unfold refs. rewrite count_insert by done. simpl. repeat case_decide; subst; try done; lia. Qed.
Lemma refs_delete M i f g : M !! i = Some f → refs (delete i M) g = refs M g - (if decide (g = f) then 1 else 0).
Proof. intros Hi. unfold refs. rewrite (count_delete _ M i f Hi). simpl. repeat case_decide; subst; try done; lia. Qed.
Lemma refs_pos M i f : M !! i = Some f → 0 < refs M f.
Proof. intros Hi. pose proof (refs_delete M i f f Hi) as Hd. rewrite decide_True in Hd by done. pose proof (refs_nonneg (delete i M) f). lia. Qed.
Lemma refs_le M f : refs M f ≤ Z.of_nat (base.size M).
Proof. unfold refs. apply inj_le, map_size_filter. Qed.
End Refs.

Lemma uses_delete h f x v : h !! f = Some x → uses (delete f h) v = uses h v - (if decide (f_v x = v) then 1 else 0).
Proof. intros Hf. unfold uses. rewrite (count_delete _ h f x Hf). simpl. case_decide; lia. Qed.
Lemma uses_new h f x v : h !! f = None → uses (<[f := x]> h) v = uses h v + (if decide (f_v x = v) then 1 else 0).
Proof. intros Hf. unfold uses. rewrite (count_insert _ h f x Hf). simpl. case_decide; lia. Qed.
Lemma uses_same h f x y v : h !! f = Some x → f_v y = f_v x → uses (<[f := y]> h) v = uses h v.
Proof.
  intros Hf Hv. rewrite <- insert_delete_eq, uses_new, (uses_delete h f x v Hf), Hv by apply lookup_delete_eq. lia.
Qed.
Lemma uses_pos h f x : h !! f = Some x → 0 < uses h (f_v x).
Proof. intros Hf. unfold uses. pose proof (count_pos (λ fx, f_v fx.2 = f_v x) h f x Hf eq_refl). lia. Qed.

(** ** The files *)
Section FilesSpec.
  Context {D : Type} `{!VfsFiles D, !FilesLaws D} (t_vmspace : option nat) (dest foo : Z).
  (** how often the rest of the kernel has a vnode open *)
  Context (B : Z → nat).
  Abbreviation fds := (fdsys D).
  Abbreviation ftsys := (filetable * fdsys D)%type.
  Implicit Types (s : fds) (R : loc → Z).

Definition idle : ulock := mkUlock false true.
Definition view (x : file) : Z * Z * Z := (f_status x, f_offset x, f_v x).
Definition files s : gmap loc (Z * Z * Z) := view <$> fd_heap s.
(** [R f] is the number of references to [f]. *)
Definition file_ok R (f : loc) (x : file) : Prop :=
  numrefs x = R f ∧ 0 < R f < 2 ^ 31 ∧ file_lock x = Some idle ∧ s32 (f_offset x) = f_offset x.
Record fds_ok R s : Prop := mkFdsOk {
  fo_vfs : vf_ok (fd_vfs s);
  fo_mach : badfault (fd_mach s) = false;
  fo_opens : ∀ v, opens (fd_vfs s) v = Z.of_nat (B v) + uses (fd_heap s) v;
  fo_live : ∀ f x, fd_heap s !! f = Some x → file_ok R f x;
  fo_dead : ∀ f, fd_heap s !! f = None → R f = 0;
}.
(** [R] with [n] more references to [f] *)
Definition plus R (f : loc) (n : Z) : loc → Z := λ g, if decide (g = f) then R g + n else R g.

Lemma counted_file R s f : fds_ok R s → 0 < R f → ∃ x, fd_heap s !! f = Some x ∧ file_ok R f x.
Proof.
  intros Hs Hf. destruct (fd_heap s !! f) as [x|] eqn:Hx; [eauto using fo_live|].
  pose proof (fo_dead _ _ Hs f Hx). lia.
Qed.
Lemma fds_ok_ext R R' s : (∀ f, R f = R' f) → fds_ok R s → fds_ok R' s.
Proof.
  intros Heq [? ? ? Hl Hd]. split; try done.
  - intros f x Hx. unfold file_ok. rewrite <- Heq. by apply Hl.
  - intros f Hf. rewrite <- Heq. by apply Hd.
Qed.
Lemma wp_get_file (f : loc) x (Q : file → fds → oracle → Prop) s o :
  fd_heap s !! f = Some x → Q x s o → wp (get_file f) Q s o.
Proof. intros Hf HQ. unfold get_file. do 2 wp_step. rewrite Hf. by wp_step. Qed.
Lemma wp_upd_file (f : loc) g x (Q : unit → fds → oracle → Prop) s o :
  fd_heap s !! f = Some x → Q tt (set_heap (<[f := g x]> (fd_heap s)) s) o → wp (upd_file f g) Q s o.
Proof. intros Hf HQ. unfold upd_file. wp_step. apply (wp_get_file f x); [done|]. by wp_step. Qed.

(** A file that keeps its vnode and its lock *)
Lemma fds_ok_update R R' s f x y :
  fds_ok R s → fd_heap s !! f = Some x → f_v y = f_v x → file_ok R' f y → (∀ g, g ≠ f → R' g = R g) →
  fds_ok R' (set_heap (<[f := y]> (fd_heap s)) s).
Proof.
  intros [? ? Ho Hl Hd] Hx Hv Hy HR. split; simpl; try done.
  - intros v. by rewrite (uses_same _ _ x).
  - intros g z. destruct (decide (g = f)) as [->|Hne].
    + rewrite lookup_insert_eq. by intros [= <-].
    + rewrite lookup_insert_ne by done. unfold file_ok. rewrite HR by done. apply Hl.
  - intros g. destruct (decide (g = f)) as [->|Hne]; [by rewrite lookup_insert_eq|].
    rewrite lookup_insert_ne, HR by done. apply Hd.
Qed.
Lemma f_decref_spec R s f o :
  fds_ok R s → 0 < R f →
  wp (f_decref f) (λ _ s' o', fds_ok (plus R f (-1)) s' ∧ ((plenty o → plenty o') ∧ fd_mach s' = fd_mach s) ∧
    files s' = if decide (R f = 1) then delete f (files s) else files s) s o.
Proof.
  intros Hs Hf. destruct (counted_file _ _ _ Hs Hf) as (x & Hx & Hn & Hb & Hl & Hoff). unfold f_decref. wp_step.
  apply (wp_upd_file f _ x); [done|]. set (y := set_numrefs _ x). wp_step.
  apply (wp_get_file f y); [apply lookup_insert_eq|]. assert (numrefs y = R f - 1) as Hy.
  { unfold y. simpl. rewrite Hn, s32_small by lia. done. }
  assert (∀ g, g ≠ f → plus R f (-1) g = R g) as HR by (intros; unfold plus; by rewrite decide_False).
  assert (plus R f (-1) f = R f - 1) as Hff by (unfold plus; by rewrite decide_True).
  rewrite Hy. destruct (Z.eqb_spec (R f - 1) 0) as [H1|H1].
  - wp_step. unfold on_fvfs. wp_step. destruct Hs as [Hv Hm Ho Hli Hd]. simpl.
    wp_call (file_close_ok (fd_vfs s) (f_v x)); [done|rewrite Ho; pose proof (uses_pos _ _ _ Hx); lia|].
    intros _ d' o' (Hv' & Hp & Ho'). unfold f_destroy. wp_step.
    apply (wp_get_file f y); [apply lookup_insert_eq|]. wp_step. simpl. rewrite delete_insert_eq.
    split_and!; [|done|done|rewrite decide_True by lia; unfold files; simpl; by rewrite fmap_delete].
    split; simpl; try done.
    + intros v. rewrite Ho', Ho, (uses_delete _ _ x) by done. repeat case_decide; subst; try done; lia.
    + intros g z. destruct (decide (g = f)) as [->|Hne]; [by rewrite lookup_delete_eq|].
      rewrite lookup_delete_ne by done. unfold file_ok. rewrite HR by done. apply Hli.
    + intros g. destruct (decide (g = f)) as [->|Hne]; [lia|]. rewrite lookup_delete_ne, HR by done. apply Hd.
  - wp_step. split_and!; [|done|done|].
    + apply (fds_ok_update R _ _ _ x); try done. unfold file_ok. rewrite Hff. split_and!; [done|lia|lia|done|done].
    + rewrite decide_False by lia. unfold files. simpl. rewrite fmap_insert. by apply insert_id; rewrite lookup_fmap, Hx.
Qed.

(** ** A file table: its entries [es] denote a map [N] from descriptors. *)
Definition ft_at (t : table loc) (es : list (option loc)) : Prop :=
  (∃ free leaked, table_rep t es free leaked) ∧ Z.of_nat (length es) ≤ PROC_NFILES_MAX.
Definition denotes (es : list (option loc)) (N : gmap Z loc) : Prop := ∀ i, N !! i = zlookup es i ≫= id.
Definition ft_ok (ft : filetable) (N : gmap Z loc) : Prop :=
  ft_lock ft = idle ∧ ∃ es, ft_at (ft_files ft) es ∧ denotes es N.
Definition held : ulock := mkUlock true true.

Lemma wp_ft_acquire (t : table loc) (Q : unit → ftsys → oracle → Prop) s o :
  Q tt (mkFt t held, s) o → wp (on_ftlock ulock_acquire) Q (mkFt t idle, s) o.
Proof. done. Qed.
Lemma wp_ft_release (t : table loc) (Q : unit → ftsys → oracle → Prop) s o :
  Q tt (mkFt t idle, s) o → wp (on_ftlock ulock_release) Q (mkFt t held, s) o.
Proof. done. Qed.
Lemma wp_files {A} (m : K (table loc) A) (Q : A → ftsys → oracle → Prop) t l s o :
  wp m (λ a t' o', Q a (mkFt t' l, s) o') t o → wp (on_files m) Q (mkFt t l, s) o.
Proof. intros Hm. unfold on_files. by wp_step. Qed.
Lemma wp_heap {A} (m : K fds A) (Q : A → ftsys → oracle → Prop) ft s o :
  wp m (λ a s' o', Q a (ft, s') o') s o → wp (on_heap m) Q (ft, s) o.
Proof. intros Hm. unfold on_heap. by wp_step. Qed.

Lemma tab_size_spec (t : table loc) es o : ft_at t es → wp tab_getsize (λ r t' o', r = Z.of_nat (length es) ∧ t' = t ∧ o' = o) t o.
Proof.
  intros [(free & leaked & (Hnum & _) & _) _]. rewrite length_fmap in Hnum. unfold tab_getsize, on_array, array_getnum.
  do 2 wp_step. split_and!; [done|by destruct t|done].
Qed.
Lemma tab_getnum_spec (t : table loc) es free leaked o :
  table_rep t es free leaked →
  wp tab_getnum (λ r t' o', r = Z.of_nat (length es) - Z.of_nat (length free) ∧ t' = t ∧ o' = o) t o.
Proof.
  intros ((Hnum & _) & Hsl & _). rewrite length_fmap in Hnum. pose proof (slots_rep_length _ _ _ Hsl) as Hs.
  unfold tab_getnum, on_array, on_slots, array_getnum, ll_size. repeat wp_step. destruct t; simpl in *.
  rewrite Hnum, Hs. done.
Qed.
Lemma tab_guy_spec (t : table loc) es N i o :
  ft_at t es → denotes es N → 0 ≤ i < Z.of_nat (length es) →
  wp (tab_getguy i) (λ r t' o', r = N !! i ∧ t' = t ∧ o' = o) t o.
Proof.
  intros [(free & leaked & Ha & _) _] HN Hi. destruct (proj2 (zlookup_is_Some es i) Hi) as [x Hx].
  unfold tab_getguy, on_array. wp_step. wp_call (array_getguy_spec _ _ _ _ _ Ha Hx). intros r a' o' (-> & -> & ->).
  rewrite HN, Hx. by destruct t.
Qed.
Lemma denotes_bound es N i f : denotes es N → N !! i = Some f → 0 ≤ i < Z.of_nat (length es).
Proof. intros HN Hi. rewrite HN in Hi. destruct (zlookup es i) eqn:He; [|done]. by apply zlookup_lt in He. Qed.
Lemma denotes_insert es N i x :
  denotes es N → 0 ≤ i < Z.of_nat (length es) → denotes (<[Z.to_nat i := x]> es) (partial_alter (λ _, x) i N).
Proof.
  intros HN Hi j. rewrite entry_insert by done. case_decide; subst.
  - by rewrite lookup_partial_alter_eq.
  - rewrite lookup_partial_alter_ne by done. apply HN.
Qed.
Lemma denotes_snoc es N (f : loc) : denotes es N → denotes (es ++ [Some f]) (<[Z.of_nat (length es) := f]> N).
Proof. intros HN j. rewrite entry_snoc, lookup_insert, HN. repeat case_decide; congruence. Qed.
Lemma tab_remove_ok (t : table loc) es N i f o :
  ft_at t es → denotes es N → N !! i = Some f → plenty o →
  wp (tab_remove i) (λ r t' o', r = 0 ∧ plenty o' ∧ ∃ es', ft_at t' es' ∧ length es' = length es ∧ denotes es' (delete i N)) t o.
Proof.
  intros [(free & leaked & Ht) Hlen] HN Hi Hp. pose proof (denotes_bound _ _ _ _ HN Hi) as Hb.
  pose proof Ht as (_ & _ & _ & Hfree). unfold PROC_NFILES_MAX in *.
  wp_call (tab_remove_spec _ _ _ _ i _ Ht); [lia|done| |by apply plenty_head|].
  { intros Hin%Hfree. rewrite HN, Hin in Hi. done. }
  intros r t' o' (-> & [(-> & _ & Ht')|(_ & Hf & _)]); [|by apply plenty_tail, plenty_head in Hp].
  split_and!; [done|by apply plenty_tail, plenty_tail|]. eexists. split_and!; [split; [eauto|]| |].
  - by rewrite length_insert.
  - by rewrite length_insert.
  - by apply (denotes_insert _ _ _ None).
Qed.

(** ** filetable.c *)
Lemma ft_getfile_spec ft N (fd err : Z) s o :
  ft_ok ft N →
  wp (ft_getfile fd err) (λ r st o', st = (ft, s) ∧ o' = o ∧
    r = match N !! fd with Some f => (Some f, err) | None => (None, EBADF) end) (ft, s) o.
Proof.
  destruct ft as [t l]. intros [Hl (es & Ht & HN)]. simpl in Hl, Ht. subst l. unfold ft_getfile.
  wp_step. apply wp_ft_acquire. wp_step. apply wp_files. wp_call (tab_size_spec _ _ _ Ht). intros r t' o' (-> & -> & ->).
  wp_step. destruct ((fd <? 0) || (Z.of_nat (length es) <=? fd)) eqn:Hb.
  - wp_step. wp_step. apply wp_ft_release. wp_step. destruct (N !! fd) eqn:Hfd; [|done].
    apply (denotes_bound _ _ _ _ HN) in Hfd. lia.
  - wp_step. apply wp_files. wp_call (tab_guy_spec _ _ _ _ _ Ht HN); [lia|]. intros r t' o' (-> & -> & ->).
    destruct (N !! fd); wp_step; wp_step; apply wp_ft_release; by wp_step.
Qed.
Lemma ft_storefile_spec ft N (f : loc) x s o :
  ft_ok ft N → fd_heap s !! f = Some x →
  wp (ft_storefile f 0) (λ r st _,
    (∃ i, r = (i, 0) ∧ 0 ≤ i ∧ N !! i = None ∧ ft_ok st.1 (<[i := f]> N) ∧
       st.2 = set_heap (<[f := set_numrefs 1 x]> (fd_heap s)) s) ∨
    (∃ e, r = (-1, e) ∧ e ≠ 0 ∧ ft_ok st.1 N ∧ st.2 = s)) (ft, s) o.
Proof.
  destruct ft as [t l]. intros [Hl (es & Ht & HN)] Hx. simpl in Hl, Ht. subst l. unfold ft_storefile.
  destruct Ht as [(free & leaked & Ht) Hlen]. pose proof Ht as (_ & _ & _ & Hfree). unfold PROC_NFILES_MAX in *.
  wp_step. apply wp_ft_acquire. wp_step. apply wp_files. wp_call (tab_getnum_spec _ _ _ _ _ Ht). intros r t' o' (-> & -> & ->).
  wp_step. destruct (Z.leb_spec 50 (Z.of_nat (length es) - Z.of_nat (length free))) as [Hfull|Hroom].
  { wp_step. wp_step. apply wp_ft_release. wp_step. right. exists EMFILE. split_and!; try done.
    split; [done|]. exists es. split; [split; [eauto|done]|done]. }
  wp_step. apply wp_files. wp_call (tab_add_spec _ _ _ _ (Some f) _ Ht); [lia|]. intros [i err] t' o' Hr.
  assert ((0 ≤ i ∧ err = 0 ∧ N !! i = None ∧ ft_ok (mkFt t' idle) (<[i := f]> N)) ∨
    (i = -1 ∧ err ≠ 0 ∧ ft_ok (mkFt t' idle) N)) as [(Hi & -> & Hn & Hok)|(-> & He & Hok)].
  { destruct free as [|j free].
    - destruct Hr as [([= -> ->] & Ht')|([= -> ->] & _ & Ht')]; [left|right].
      + split_and!; [lia|done| |].
        * rewrite HN. unfold zlookup. rewrite decide_True, lookup_ge_None_2 by lia. done.
        * split; [done|]. exists (es ++ [Some f]). split; [split; [eauto|rewrite length_app; simpl in *; unfold PROC_NFILES_MAX; lia]|].
          by apply denotes_snoc.
      + split_and!; [done..|]. split; [done|]. exists es. split; [split; [eauto|done]|done].
    - destruct Hr as ([= -> ->] & _ & Ht'). left. pose proof (Hfree j ltac:(set_solver)) as Hj.
      pose proof (zlookup_lt _ _ _ Hj) as Hb. split_and!; [lia|done|by rewrite HN, Hj|]. split; [done|].
      exists (<[Z.to_nat j := Some f]> es). split; [split; [eauto|by rewrite length_insert]|].
      by apply (denotes_insert _ _ _ (Some f)). }
  - destruct (Z.eqb_spec i (-1)); [lia|]. wp_step. apply wp_heap, (wp_upd_file f _ x); [done|]. wp_step. wp_step.
    apply wp_ft_release. wp_step. left. eauto 10.
  - wp_cond. wp_step. wp_step. apply wp_ft_release. wp_step. right. eauto 10.
Qed.
Lemma ft_removefile_spec R ft N (fd : Z) f s o :
  ft_ok ft N → N !! fd = Some f → fds_ok R s → 0 < R f → plenty o →
  wp (ft_removefile fd) (λ r st _, r = 0 ∧ ft_ok st.1 (delete fd N) ∧ fds_ok (plus R f (-1)) st.2 ∧
    files st.2 = if decide (R f = 1) then delete f (files s) else files s) (ft, s) o.
Proof.
  destruct ft as [t l]. intros [Hl (es & Ht & HN)] Hfd Hs Hf Hp. simpl in Hl, Ht. subst l. unfold ft_removefile.
  pose proof (denotes_bound _ _ _ _ HN Hfd) as Hb.
  wp_step. apply wp_ft_acquire. wp_step. apply wp_files. wp_call (tab_size_spec _ _ _ Ht). intros r t' o' (-> & -> & ->).
  wp_step. replace ((fd <? 0) || (Z.of_nat (length es) <=? fd)) with false by lia.
  wp_step. apply wp_files. wp_call (tab_guy_spec _ _ _ _ _ Ht HN); [lia|]. intros r t' o' (-> & -> & ->). rewrite Hfd.
  wp_step. apply wp_files. wp_call (tab_remove_ok _ _ _ _ _ _ Ht HN Hfd Hp). intros r t' o' (-> & Hp' & es' & Ht' & _ & HN').
  wp_step. wp_step; [done|]. wp_step. apply wp_heap. wp_call (f_decref_spec R _ _ _ Hs Hf). intros _ s' o2 (Hs' & _ & Hfs).
  wp_step. wp_step. apply wp_ft_release. wp_step. split_and!; try done. split; [done|]. eauto.
Qed.

Lemma no_refs R s g : fds_ok R s → R g = 0 → files s !! g = None.
Proof.
  intros Hs Hg. unfold files. rewrite lookup_fmap. destruct (fd_heap s !! g) as [x|] eqn:Hx; [|done].
  apply (fo_live _ _ Hs) in Hx as (_ & ? & _). lia.
Qed.
(** What is left of the files when the references of a table go *)
Definition dropped R s (N : gmap Z loc) s' : Prop :=
  fds_ok (λ g, R g - refs N g) s' ∧ ∀ g, files s' !! g = if decide (R g = refs N g) then None else files s !! g.
Lemma dropped_nil R s (N : gmap Z loc) : N = ∅ → fds_ok R s → dropped R s N s.
Proof.
  intros -> Hs. split.
  - eapply fds_ok_ext; [|done]. intros g. cbn beta. rewrite refs_empty. lia.
  - intros g. rewrite refs_empty. case_decide; [|done]. by eapply no_refs.
Qed.
Lemma dropped_cons R s (N : gmap Z loc) i f s1 s' :
  N !! i = Some f → fds_ok R s → refs N f ≤ R f →
  files s1 = (if decide (R f = 1) then delete f (files s) else files s) →
  dropped (plus R f (-1)) s1 (delete i N) s' → dropped R s N s'.
Proof.
  intros Hi Hs Hle Hfs [Hok Hf]. assert (∀ g, plus R f (-1) g - refs (delete i N) g = R g - refs N g) as Heq.
  { intros g. rewrite (refs_delete _ _ _ _ Hi). unfold plus. repeat case_decide; try done; lia. }
  split; [exact (fds_ok_ext _ _ _ Heq Hok)|]. intros g. rewrite Hf. specialize (Heq g).
  destruct (decide (R g = refs N g)); [by rewrite decide_True by lia|]. rewrite decide_False by lia. rewrite Hfs.
  case_decide; [|done]. destruct (decide (g = f)) as [->|]; [|by rewrite lookup_delete_ne].
  pose proof (refs_pos _ _ _ Hi). lia.
Qed.
Lemma ft_drop_loop n : ∀ i t es N R s l o,
  ft_at t es → denotes es N → (∀ j f, N !! j = Some f → i ≤ j) → 0 ≤ i → i + Z.of_nat n = Z.of_nat (length es) →
  fds_ok R s → (∀ g, refs N g ≤ R g) → plenty o →
  wp (kfor n i ft_drop) (λ _ st o', ft_lock st.1 = l ∧ (∃ es', ft_at (ft_files st.1) es') ∧
    dropped R s N st.2 ∧ plenty o' ∧ fd_mach st.2 = fd_mach s) (mkFt t l, s) o.
Proof.
  induction n as [|n IH]; intros i t es N R s l o Ht HN Hge Hi Hn Hs HR Hp; cbn [kfor].
  { wp_step. split_and!; [done|eauto| |done|done]. apply dropped_nil; [|done]. apply map_eq. intros j.
    rewrite lookup_empty. destruct (N !! j) as [f|] eqn:Hj; [|done].
    pose proof (Hge _ _ Hj). apply (denotes_bound _ _ _ _ HN) in Hj. lia. }
  wp_step. unfold ft_drop at 1. wp_step. apply wp_files. wp_call (tab_guy_spec _ _ _ _ _ Ht HN); [lia|].
  intros r t' o' (-> & -> & ->). destruct (N !! i) as [f|] eqn:Hf.
  - pose proof (refs_pos _ _ _ Hf) as Hpos. pose proof (HR f). wp_step. apply wp_files.
    wp_call (tab_remove_ok _ _ _ _ _ _ Ht HN Hf Hp). intros _ t1 o1 (_ & Hp1 & es1 & Ht1 & Hl1 & HN1).
    apply wp_heap. wp_call (f_decref_spec R _ _ _ Hs); [lia|]. intros _ s1 o2 (Hs1 & [Hp2 Hm2] & Hfs).
    eapply wp_mono.
    + eapply (IH (i + 1) t1 es1 (delete i N)); try done; try lia.
      * intros j g [Hne Hj]%lookup_delete_Some. apply Hge in Hj. lia.
      * intros g. rewrite (refs_delete _ _ _ _ Hf). unfold plus. pose proof (HR g). repeat case_decide; try done; lia.
      * by apply Hp2.
    + intros _ st o3 (? & ? & Hd & ? & Hm). split_and!; [done..|by eapply dropped_cons|done|by rewrite Hm].
  - wp_step. eapply (IH (i + 1)); try done; try lia. intros j g Hj. pose proof (Hge _ _ Hj).
    destruct (decide (j = i)); [congruence|lia].
Qed.
Lemma ft_destroy_spec R ft N s o :
  ft_ok ft N → fds_ok R s → (∀ g, refs N g ≤ R g) → plenty o →
  wp ft_destroy (λ _ st o', dropped R s N st.2 ∧ plenty o' ∧ fd_mach st.2 = fd_mach s) (ft, s) o.
Proof.
  destruct ft as [t l]. intros [Hl (es & Ht & HN)] Hs HR Hp. simpl in Hl, Ht. subst l. unfold ft_destroy.
  wp_step. apply wp_files. wp_call (tab_size_spec _ _ _ Ht). intros r t' o' (-> & -> & ->). rewrite Nat2Z.id.
  wp_step. eapply wp_mono; [eapply (ft_drop_loop _ 0 t es N R); try done; try lia|].
  - intros j f Hj. apply (denotes_bound _ _ _ _ HN) in Hj. lia.
  - intros _ [[t1 l1] s1] o1 (Hl & (es1 & [(free & leaked & Ht1) Hlen]) & Hd & Hp1 & Hm1). simpl in *. subst l1.
    unfold PROC_NFILES_MAX in *. wp_step. apply wp_files. wp_call (tab_destroy_spec _ _ _ _ _ Ht1); [lia|]. intros _ t2 o2 (-> & _).
    done.
Qed.

(** [f->numrefs++] for the files of a table *)
Definition rest (i : Z) (N : gmap Z loc) : gmap Z loc := filter (λ kf, i ≤ kf.1) N.
Lemma rest_skip i N : N !! i = None → rest (i + 1) N = rest i N.
Proof.
  intros Hi. apply map_filter_ext. intros j f Hj. cbn [fst]. destruct (decide (j = i)); [congruence|lia].
Qed.
Lemma rest_take i N f : N !! i = Some f → rest (i + 1) N = delete i (rest i N) ∧ rest i N !! i = Some f.
Proof.
  intros Hi. split; [|by apply map_lookup_filter_Some; simpl; split; [|lia]].
  apply map_eq. intros j. destruct (decide (j = i)) as [->|Hne].
  - rewrite lookup_delete_eq. apply map_lookup_filter_None. right. intros g _. simpl. lia.
  - rewrite lookup_delete_ne by done. unfold rest. rewrite !map_lookup_filter. destruct (N !! j); simpl; [|done].
    repeat case_guard; try done; lia.
Qed.
Lemma ft_incref_loop n : ∀ i (nt : table loc) es N R s ft o,
  ft_at nt es → denotes es N → 0 ≤ i → i + Z.of_nat n = Z.of_nat (length es) →
  fds_ok R s → (∀ g, 0 < refs (rest i N) g → 0 < R g) → (∀ g, R g + refs (rest i N) g < 2 ^ 31) →
  wp (kfor n i (ft_incref nt)) (λ _ st o', st.1 = ft ∧ fds_ok (λ g, R g + refs (rest i N) g) st.2 ∧ files st.2 = files s ∧
    o' = o ∧ fd_mach st.2 = fd_mach s) (ft, s) o.
Proof.
  induction n as [|n IH]; intros i nt es N R s ft o Ht HN Hi Hn Hs HR Hb; cbn [kfor].
  { wp_step. assert (rest i N = ∅) as ->.
    { apply map_eq. intros j. rewrite lookup_empty. apply map_lookup_filter_None. right. intros g Hg. simpl.
      apply (denotes_bound _ _ _ _ HN) in Hg. lia. }
    split_and!; [done| |done..]. eapply fds_ok_ext; [|done]. intros g. cbn beta. rewrite refs_empty. lia. }
  wp_step. unfold ft_incref at 1. wp_step. wp_step. wp_call (tab_guy_spec _ _ _ _ _ Ht HN); [lia|].
  intros r t' o' (-> & -> & ->). destruct (N !! i) as [f|] eqn:Hf.
  - destruct (rest_take _ _ _ Hf) as [Heq Hfi]. pose proof (refs_pos _ _ _ Hfi) as Hpos.
    destruct (counted_file _ _ _ Hs (HR f Hpos)) as (x & Hx & Hnx & Hbx & Hl & Hoff). pose proof (Hb f) as Hbf.
    assert (plus R f 1 f = R f + 1) as Hff by (unfold plus; by rewrite decide_True).
    assert (∀ g, plus R f 1 g + refs (rest (i + 1) N) g = R g + refs (rest i N) g) as Hsum.
    { intros g. rewrite Heq, (refs_delete _ _ _ _ Hfi). unfold plus. repeat case_decide; try done; lia. }
    apply wp_heap, (wp_upd_file f _ x); [done|]. eapply wp_mono.
    + eapply (IH (i + 1) nt es N (plus R f 1)); try done; try lia.
      * apply (fds_ok_update R _ _ _ x); try done.
        -- unfold file_ok. rewrite Hff. simpl. rewrite Hnx, s32_small by lia. split_and!; [done|lia|lia|done|done].
        -- intros g Hne. unfold plus. by rewrite decide_False.
      * intros g Hg. rewrite Heq, (refs_delete _ _ _ _ Hfi) in Hg. pose proof (HR g). unfold plus. repeat case_decide; subst; lia.
      * intros g. rewrite Hsum. apply Hb.
    + intros _ st o' (-> & Hs' & Hfs & -> & Hm). split_and!; [done|exact (fds_ok_ext _ _ _ Hsum Hs')| |done|by rewrite Hm]. rewrite Hfs. unfold files. simpl.
      rewrite fmap_insert. by apply insert_id; rewrite lookup_fmap, Hx.
  - wp_step. rewrite <- (rest_skip _ _ Hf) in *. eapply (IH (i + 1)); try done; lia.
Qed.
Lemma ft_duplicate_spec R ft N (nt : table loc) s o :
  ft_ok ft N → table_rep nt [] [] 0 → fds_ok R s →
  (∀ g, 0 < refs N g → 0 < R g) → (∀ g, R g + refs N g < 2 ^ 31) → plenty o →
  wp (ft_duplicate (mkFt nt idle)) (λ r st o', r.1 = 0 ∧ ft_ok r.2 N ∧ st.1 = ft ∧
    fds_ok (λ g, R g + refs N g) st.2 ∧ files st.2 = files s ∧ plenty o' ∧ fd_mach st.2 = fd_mach s) (ft, s) o.
Proof.
  destruct ft as [t l]. intros [Hl (es & [(free & leaked & Ht) Hlen] & HN)] Hnt Hs HR Hb Hp. simpl in Hl, Ht. subst l.
  unfold PROC_NFILES_MAX in *. unfold ft_duplicate. wp_step. apply wp_ft_acquire. wp_step. apply wp_files.
  wp_call (tab_duplicate_spec _ _ _ _ _ _ Ht ltac:(lia) Hnt). intros [err nt'] t' o' (-> & _ & He & Hr).
  destruct (He Hp) as [-> Hp']. destruct (Hr eq_refl) as (free' & leaked' & Hnt' & _). cbn [ft_lock ft_files]. wp_step.
  assert (ft_at nt' es) as Hat by (split; [eauto|done]).
  wp_step. wp_step. wp_call (tab_size_spec _ _ _ Hat). intros r t1 o1 (-> & -> & ->). rewrite Nat2Z.id.
  assert (rest 0 N = N) as HN0.
  { apply map_filter_id. intros j g Hj. simpl. apply (denotes_bound _ _ _ _ HN) in Hj. lia. }
  eapply wp_mono; [eapply (ft_incref_loop _ 0 nt' es N R); try done; try lia; by rewrite HN0|].
  intros _ [ft2 s2] o2 (Hft & Hs2 & Hf2 & -> & Hm2). simpl in Hft, Hs2, Hf2. subst ft2. rewrite HN0 in Hs2.
  wp_step. apply wp_ft_release. wp_step. split_and!; try done. split; [done|]. eauto.
Qed.
Lemma ft_create_spec {S} (s : S) o :
  plenty o → wp ft_create (λ r (s' : S) o', s' = s ∧ plenty o' ∧ ∃ nt, r = Some (mkFt nt idle) ∧ table_rep nt [] [] 0) s o.
Proof.
  intros Hp. unfold ft_create, tab_create, array_create, ll_create, ulock_create, q_create.
  wp_mem Hp.
  split_and!; [done|by repeat apply plenty_tail|]. eexists. split; [done|].
  split_and!; [repeat split; simpl; lia| |constructor|set_solver].
  exists []. split_and!; [apply ll_rep_nil|constructor|constructor|done].
Qed.
End FilesSpec.
