(* ===== verification/FilesSim.v ===== *)
(** * The system calls on files against their contract

    Specifications of [sys_open], [sys_close], [sys_read] and [sys_write] for
    one process, and the forward simulation: processes that open, close, read,
    write, fork and exit in any order implement the map of descriptors and
    files of FilesSpec.v. *)
From S2P Require Import Prelude Array LinkedList Table Memory Copyinout Uio Vnode SfsVnode Files FilesSpec.

Section FilesSim.
  Context {D : Type} `{!VfsFiles D, !FilesLaws D} (t_vmspace : option nat) (dest foo : Z).
  Context (B : Z → nat).
  Abbreviation fds := (fdsys D).
  Abbreviation ftsys := (filetable * fdsys D)%type.
  Abbreviation fds_ok := (fds_ok B).
  Implicit Types (s : fds) (R : loc → Z) (N : gmap Z loc).

(** ** Steps of the calls *)
Lemma wp_flock_acquire (f : loc) x (Q : unit → fds → oracle → Prop) s o :
  fd_heap s !! f = Some x → file_lock x = Some idle →
  Q tt (set_heap (<[f := set_flock (Some held) x]> (fd_heap s)) s) o → wp (on_flock f ulock_acquire) Q s o.
Proof.
  intros Hf Hl HQ. unfold on_flock. wp_step. apply (wp_get_file f x); [done|]. rewrite Hl. do 4 wp_step.
  unfold ulock_acquire. do 2 wp_step. cbn [ul_held idle]. wp_step. wp_step. apply (wp_upd_file f _ x); [done|]. by wp_step.
Qed.
Lemma wp_flock_release (f : loc) x (Q : unit → fds → oracle → Prop) s o :
  fd_heap s !! f = Some x → file_lock x = Some held →
  Q tt (set_heap (<[f := set_flock (Some idle) x]> (fd_heap s)) s) o → wp (on_flock f ulock_release) Q s o.
Proof.
  intros Hf Hl HQ. unfold on_flock. wp_step. apply (wp_get_file f x); [done|]. rewrite Hl. do 4 wp_step.
  unfold ulock_release. do 3 wp_step. wp_step; [done|]. cbn [ul_queue held]. wp_step. wp_step.
  apply (wp_upd_file f _ x); [done|]. by wp_step.
Qed.
(** Another state of the file system and of memory *)
Lemma fds_ok_vfs R s d m :
  fds_ok R s → vf_ok d → badfault m = false → (∀ w, opens d w = opens (fd_vfs s) w) → fds_ok R (mkFd d m (fd_heap s)).
Proof. intros [? ? Ho ? ?] Hd Hm Hw. split; simpl; try done. intros v. by rewrite Hw. Qed.
Lemma fds_ok_new R s f x :
  fds_ok R s → fd_heap s !! f = None → file_lock x = Some idle → s32 (f_offset x) = f_offset x →
  ∀ d, vf_ok d → (∀ w, opens d w = opens (fd_vfs s) w + (if decide (w = f_v x) then 1 else 0)) →
  fds_ok (plus R f 1) (mkFd d (fd_mach s) (<[f := set_numrefs 1 x]> (fd_heap s))).
Proof.
  intros [? ? Ho Hl Hd] Hf Hlk Hoff d Hdok Hw. pose proof (Hd f Hf) as HRf. split; simpl; try done.
  - intros v. rewrite Hw, Ho, uses_new by done. cbn [f_v set_numrefs]. repeat case_decide; subst; try done; lia.
  - intros g z. unfold plus. destruct (decide (g = f)) as [->|Hne].
    + rewrite lookup_insert_eq. intros [= <-]. unfold file_ok. rewrite decide_True, HRf by done. split_and!; done.
    + rewrite lookup_insert_ne by done. unfold file_ok. rewrite decide_False by done. apply Hl.
  - intros g. unfold plus. destruct (decide (g = f)) as [->|Hne]; [by rewrite lookup_insert_eq|].
    rewrite lookup_insert_ne by done. apply Hd.
Qed.

(** ** sysclose.c and sysopen.c *)
Lemma sys_close_spec R ft N (fd : Z) s o :
  ft_ok ft N → fds_ok R s → (∀ i f, N !! i = Some f → 0 < R f) → plenty o →
  wp (sys_close fd 0) (λ r st _, match N !! fd with
    | None => r = (-1, EBADF) ∧ st = (ft, s)
    | Some f => r = (0, 0) ∧ ft_ok st.1 (delete fd N) ∧ fds_ok (plus R f (-1)) st.2 ∧
        files st.2 = if decide (R f = 1) then delete f (files s) else files s
    end) (ft, s) o.
Proof.
  intros Hft Hs HR Hp. unfold sys_close. wp_step. wp_step; [done|]. wp_step.
  wp_call (ft_getfile_spec _ _ _ _ _ _ Hft). intros r st o' (-> & -> & ->). destruct (N !! fd) as [f|] eqn:Hfd.
  - wp_step. wp_call (ft_removefile_spec B R _ _ _ _ _ _ Hft Hfd Hs (HR _ _ Hfd) Hp).
    intros r st o' (-> & Hft' & Hs' & Hf). wp_cond. by wp_step.
  - wp_step. wp_step; [done|]. by wp_step.
Qed.

(** The argument of [open]: as much of the string as [copyinstr] looks at is
    memory of the process, and the buffer is memory of the kernel. *)
Definition path_there (m : machine) (p : Z) : Prop :=
  0 ≤ p < 2 ^ 32 ∧ kernel_block m foo PATH_MAX ∧
  (p < USERTOP → mapped m p (Z.min PATH_MAX (USERTOP - p)) ∧ survives (urd m) p (Z.min PATH_MAX (USERTOP - p))).
Lemma filename_invalid_spec ft s (p : Z) o :
  badfault (fd_mach s) = false → path_there (fd_mach s) p →
  wp (filename_invalid foo p) (λ r st o', o' = o ∧ r.1 = negb (r.2 =? 0) ∧ st.1 = ft ∧ fd_vfs st.2 = fd_vfs s ∧
    fd_heap st.2 = fd_heap s ∧ badfault (fd_mach st.2) = false ∧ (r.2 = 0 → string_at (fd_mach st.2) p)) (ft, s) o.
Proof.
  intros Hbf (Hp & Hk & Hu). unfold filename_invalid. destruct (Z.eqb_spec p 0) as [->|Hp0]; [by wp_step|].
  wp_step. apply wp_heap. unfold on_fmach. wp_step. pose proof Hk as (Hkt & _).
  wp_call (copyinstr_spec _ p foo PATH_MAX _ Hbf Hp ltac:(unfold PATH_MAX; lia) Hk Hu).
  intros r m' o' (-> & Hbf' & Hoc & Hpost). destruct r as [err n]. wp_step. split_and!; try done. cbn [snd fst fd_mach]. intros ->.
  destruct Hpost as [(str & [= _] & H0 & _ & Hlt & Hstr & _)|[([=] & _)|([=] & _)]].
  exists str. split; [|done]. apply bytes_at_Some in Hstr as [Hlen Hk']. apply bytes_at_Some. split; [done|].
  intros k Hlk. rewrite <- Hk' by done. apply Hoc. lia.
Qed.
(** A new file: the lock is there while there is memory. *)
Lemma f_create_spec (status offset v : Z) s o :
  plenty o →
  wp (f_create status offset v) (λ r s' o', plenty o' ∧ ∃ f, r = Some f ∧ fd_heap s !! f = None ∧
    s' = set_heap (<[f := mkFile status offset v (Some idle) 0]> (fd_heap s)) s) s o.
Proof.
  intros Hp. unfold f_create, ulock_create, Queue.q_create.
  wp_mem Hp.
  split; [by repeat apply plenty_tail|]. eexists. split_and!; [done| |done]. apply not_elem_of_dom, is_fresh.
Qed.
Definition opened R N (flags : Z) s (r : Z * Z) (st : ftsys) : Prop :=
  (∃ f v, r.2 = 0 ∧ 0 ≤ r.1 ∧ N !! r.1 = None ∧ files s !! f = None ∧ ft_ok st.1 (<[r.1 := f]> N) ∧
     fds_ok (plus R f 1) st.2 ∧ files st.2 = <[f := (flags, 0, v)]> (files s)) ∨
  (r.1 = -1 ∧ r.2 ≠ 0 ∧ ft_ok st.1 N ∧ fds_ok R st.2 ∧ files st.2 = files s).
(** [vfs_open] has returned a vnode. *)
Lemma sys_open_file R ft N (flags v : Z) s d m o :
  ft_ok ft N → fds_ok R s → vf_ok d → badfault m = false → plenty o →
  (∀ w, opens d w = opens (fd_vfs s) w + (if decide (w = v) then 1 else 0)) →
  wp (f <- on_heap (f_create flags 0 v);
      match f with
      | None => _ <- on_heap (on_fvfs (file_close v)); ret (-1, ENOMEM)
      | Some f =>
          '(r, err) <- ft_storefile f 0;
          if r =? -1 then
            _ <- on_heap (f_destroy f);
            _ <- on_heap (on_fvfs (file_close v));
            ret (-1, err)
          else ret (r, err)
      end) (λ r st _, opened R N flags s r st) (ft, mkFd d m (fd_heap s)) o.
Proof.
  intros Hft Hs Hd Hm Hp Hw. wp_step. apply wp_heap. wp_call f_create_spec; [done|].
  intros r s1 o1 (Hp1 & f & -> & Hf & ->). cbn [fd_heap set_heap] in *. set (x := mkFile flags 0 v (Some idle) 0).
  wp_step. wp_call (ft_storefile_spec B _ _ f x _ _ Hft); [apply lookup_insert_eq|].
  assert (files s !! f = None) as Hfs by (unfold files; by rewrite lookup_fmap, Hf).
  intros r [ft2 s2] o2 [(i & -> & Hi & HN & Hft2 & Hs2)|(e & -> & He & Hft2 & Hs2)]; simpl in Hft2, Hs2; subst s2.
  - destruct (Z.eqb_spec i (-1)); [lia|]. wp_step. left. exists f, v. split_and!; try done; simpl; rewrite insert_insert_eq.
    + refine (fds_ok_new R (mkFd (fd_vfs s) m (fd_heap s)) f x _ Hf eq_refl eq_refl d Hd Hw). by apply fds_ok_vfs; [| |done|]; try done; apply Hs.
    + unfold files. simpl. by rewrite fmap_insert.
  - wp_cond. wp_step. apply wp_heap. unfold f_destroy. wp_step. apply (wp_get_file f x); [apply lookup_insert_eq|]. wp_step.
    wp_step. apply wp_heap. unfold on_fvfs. wp_step. cbn [fd_vfs set_heap]. pose proof (fo_opens _ _ _ Hs v) as Hov.
    wp_call file_close_ok; [done|rewrite Hw, decide_True, Hov by done; unfold uses; lia|].
    intros _ d' o' (Hd' & _ & Hw'). wp_step. right. simpl. rewrite delete_insert_id by done.
    split_and!; try done. apply fds_ok_vfs; try done. intros w. rewrite Hw', Hw. lia.
Qed.
Lemma sys_open_spec R ft N (p flags : Z) s o :
  ft_ok ft N → fds_ok R s → path_there (fd_mach s) p → plenty o →
  wp (sys_open foo p flags 0) (λ r st _, opened R N flags s r st) (ft, s) o.
Proof.
  intros Hft Hs Hp Ho. unfold sys_open. wp_step. wp_step; [done|]. wp_step.
  wp_call filename_invalid_spec; [apply Hs|done|].
  intros [inv err] [ft1 [d1 m1 h1]] o1 (-> & Hinv & Hft1 & Hv1 & Hh1 & Hm1 & Hstr). simpl in *. subst.
  destruct (Z.eqb_spec err 0) as [->|He]; cbn [negb].
  2: { wp_step. wp_step; [lia|]. wp_step. right. split_and!; try done. apply fds_ok_vfs; try done. apply Hs. }
  wp_step. apply wp_heap. unfold on_both. wp_step. cbn [fd_vfs fd_mach fd_heap].
  wp_call file_open_ok; [apply Hs|done|by apply Hstr|]. intros [r v] [d m] o1 (Hd & Hm & Hp1 & Hw). simpl in *.
  destruct (Z.eqb_spec r 0) as [->|Hr]; cbn [negb].
  - eapply sys_open_file; try done; [by apply Hp1|]. intros w. rewrite Hw. repeat case_decide; naive_solver.
  - wp_step. right. split_and!; try done. apply fds_ok_vfs; try done. intros w. rewrite Hw, decide_False by naive_solver. lia.
Qed.

(** ** sysread.c and syswrite.c *)
(** The buffer of a transfer: what is looked at is memory of the process. *)
Definition buf_there (m : machine) (buf len : Z) : Prop :=
  0 ≤ buf < 2 ^ 32 ∧ 0 ≤ len < 2 ^ 31 ∧ kernel_block m dest 4 ∧
  (buf + 4 ≤ USERTOP → mapped m buf 4 ∧ survives (urd m) buf 4) ∧ region_there m buf len.
Lemma buf_check_spec m (buf len : Z) o :
  badfault m = false → buf_there m buf len →
  wp (copyin buf dest 4) (λ r m' o', o' = o ∧ badfault m' = false ∧ region_there m' buf len ∧ (r = 0 ∨ r = EFAULT)) m o.
Proof.
  intros Hbf (Hb & Hl & Hk & Hu & Hr). pose proof Hk as (Hkt & _).
  wp_call (copyin_spec m buf dest 4 o Hbf Hb ltac:(lia) Hk Hu).
  intros r m' o' (-> & Hbf' & Hur & Huw & Hoc & Hres). split_and!; [done..| |naive_solver].
  intros Hle. destruct (Hr Hle) as (Hm & Hsr & Hsw). rewrite Hur, Huw. split_and!; [|done..]. unfold mapped in *.
  rewrite bytes_at_is_Some in *. intros k Hkl. rewrite Hoc by lia. by apply Hm.
Qed.
(** The file [f] at the end of a call that leaves the offset at [n] *)
Lemma io_update R s f x d m (n : Z) :
  fds_ok R s → fd_heap s !! f = Some x → vf_ok d → badfault m = false → (∀ w, opens d w = opens (fd_vfs s) w) → s32 n = n →
  let s' := mkFd d m (<[f := set_flock (Some idle) (set_foffset n x)]> (fd_heap s)) in
  fds_ok R s' ∧ files s' = <[f := (f_status x, n, f_v x)]> (files s).
Proof.
  intros Hs Hx Hd Hm Hw Hn32 s'. pose proof (fds_ok_vfs R s d m Hs Hd Hm Hw) as Hs1.
  destruct (fo_live _ _ _ Hs f x Hx) as (Hn & Hb & Hl & _). split.
  - by apply (fds_ok_update B R R (mkFd d m (fd_heap s)) f x).
  - unfold files, s'. simpl. by rewrite fmap_insert.
Qed.
Lemma files_same s f x : fd_heap s !! f = Some x → <[f := (f_status x, f_offset x, f_v x)]> (files s) = files s.
Proof. intros Hx. apply insert_id. unfold files. by rewrite lookup_fmap, Hx. Qed.
Definition readable (status : Z) : bool := let how := Z.land status O_ACCMODE in (how =? O_RDONLY) || (how =? O_RDWR).
Definition writable (status : Z) : bool := let how := Z.land status O_ACCMODE in (how =? O_WRONLY) || (how =? O_RDWR).
(** What a transfer does: it moves [r.1] bytes and the offset, or it fails
    because of the buffer or the descriptor, and nothing changes. *)
Definition moved (mode : Z → bool) R ft N (fd len : Z) s (r : Z * Z) (st : ftsys) : Prop :=
  st.1 = ft ∧ fds_ok R st.2 ∧
  ((∃ f status off v, N !! fd = Some f ∧ files s !! f = Some (status, off, v) ∧ mode status = true ∧
      r.2 = 0 ∧ 0 ≤ r.1 ≤ len ∧ files st.2 = <[f := (status, s32 (off + r.1), v)]> (files s)) ∨
   (r.1 = -1 ∧ files st.2 = files s ∧
      (r.2 = EFAULT ∨ r.2 = EBADF ∧ ∀ f status off v, N !! fd = Some f → files s !! f = Some (status, off, v) → mode status = false))).
(** The label [fail]: the file has been locked and nothing else happened. *)
Lemma io_fail_spec mode R ft N (fd len : Z) s f x m e o :
  fds_ok R s → N !! fd = Some f → fd_heap s !! f = Some x → badfault m = false →
  e = EFAULT ∨ e = EBADF ∧ mode (f_status x) = false →
  wp (io_fail f e) (λ r st _, moved mode R ft N fd len s r st)
    (ft, mkFd (fd_vfs s) m (<[f := set_flock (Some held) x]> (fd_heap s))) o.
Proof.
  intros Hs Hfd Hx Hm He. unfold io_fail. wp_step. wp_step; [by destruct He as [->|[-> _]]|]. wp_step. apply wp_heap.
  eapply wp_flock_release; [apply lookup_insert_eq|done|]. wp_step. unfold set_heap. cbn [fd_heap fd_vfs fd_mach]. rewrite insert_insert_eq.
  destruct (io_update R s f x (fd_vfs s) m (f_offset x) Hs Hx (fo_vfs _ _ _ Hs) Hm ltac:(done)) as [Hs' Hf]; [by destruct (fo_live _ _ _ Hs f x Hx) as (_ & _ & _ & ?)|].
  replace (set_flock (Some idle) (set_flock (Some held) x)) with (set_flock (Some idle) (set_foffset (f_offset x) x)) by by destruct x.
  split_and!; [done..|]. right. cbn [fst snd]. rewrite Hf, files_same by done. split_and!; [done..|].
  destruct He as [->|[-> Hmode]]; [by left|right]. split; [done|]. intros g status off v Hg. rewrite Hfd in Hg. injection Hg as <-.
  unfold files. rewrite lookup_fmap, Hx. by intros [= <- <- <-].
Qed.

(** The end of a transfer of [n] bytes *)
Lemma io_end_spec mode R ft N (fd len : Z) s f x d m off n o :
  fds_ok R s → N !! fd = Some f → fd_heap s !! f = Some x → mode (f_status x) = true →
  vf_ok d → badfault m = false → (∀ w, opens d w = opens (fd_vfs s) w) → 0 ≤ n ≤ len → off = s32 (f_offset x + n) →
  wp (_ <- on_heap (upd_file f (set_foffset off)); _ <- on_heap (on_flock f ulock_release); ret (n, 0))
    (λ r st _, moved mode R ft N fd len s r st) (ft, mkFd d m (<[f := set_flock (Some held) x]> (fd_heap s))) o.
Proof.
  intros Hs Hfd Hx Hmode Hd Hm Hw Hn ->. wp_step. apply wp_heap.
  eapply wp_upd_file; [apply lookup_insert_eq|]. wp_step. apply wp_heap.
  eapply wp_flock_release; [apply lookup_insert_eq|done|]. wp_step. unfold set_heap. cbn [fd_heap fd_vfs fd_mach]. rewrite !insert_insert_eq.
  destruct (io_update R s f x d m (s32 (f_offset x + n)) Hs Hx Hd Hm Hw) as [Hs' Hf']; [apply s32_small, s32_bound|].
  split_and!; [done|done|]. left. exists f, (f_status x), (f_offset x), (f_v x). cbn [fst snd].
  split_and!; try done; try lia. unfold files. by rewrite lookup_fmap, Hx.
Qed.
Lemma mode_false (b1 b2 : bool) : negb (b1 || b2) = false → b1 || b2 = true.
Proof. by destruct b1, b2. Qed.
Lemma sys_read_spec R ft N (fd buf len : Z) s o :
  ft_ok ft N → fds_ok R s → (∀ i f, N !! i = Some f → 0 < R f) → buf_there (fd_mach s) buf len →
  (∀ f x m o', N !! fd = Some f → fd_heap s !! f = Some x →
     wp (file_read (f_v x) (mkUio buf len (f_offset x) len UIO_USERSPACE UIO_READ t_vmspace)) (λ r _ _, r.1 = 0) (fd_vfs s, m) o') →
  wp (sys_read t_vmspace dest fd buf len 0) (λ r st _, moved readable R ft N fd len s r st) (ft, s) o.
Proof.
  intros Hft Hs HR Hb Hok. pose proof Hb as (_ & Hl & _). unfold sys_read. wp_step. wp_step; [done|].
  destruct (Z.eqb_spec buf 0) as [->|Hb0]; [wp_step; split_and!; [done..|]; right; split_and!; try done; by left|].
  wp_step. apply wp_heap. unfold on_fmach. wp_step. wp_call buf_check_spec; [apply Hs|done|].
  intros r m' o' (-> & Hm & Hreg & Hr). assert (fds_ok R (mkFd (fd_vfs s) m' (fd_heap s))) as Hs1.
  { apply fds_ok_vfs; try done. apply Hs. }
  destruct Hr as [->| ->]; wp_cond.
  2: { wp_step. split_and!; [done..|]. right. split_and!; try done. by left. }
  wp_step. wp_call ft_getfile_spec; [done|]. intros r st o' (-> & -> & ->). destruct (N !! fd) as [f|] eqn:Hfd.
  2: { wp_step. wp_step; [done|]. wp_step. split_and!; [done..|]. right. split_and!; try done. right. split; [done|].
       intros ? ? ? ? Hx. by rewrite Hfd in Hx. }
  destruct (counted_file _ _ _ _ Hs (HR _ _ Hfd)) as (x & Hx & Hn & Hbx & Hlk & Hxo).
  wp_step. apply wp_heap, (wp_flock_acquire f x); [done..|]. cbn beta. wp_step. apply wp_heap.
  eapply wp_get_file; [apply lookup_insert_eq|]. unfold set_heap. cbn [fd_vfs fd_mach fd_heap f_status set_flock f_offset f_v].
  destruct (negb _) eqn:Hmode.
  { eapply io_fail_spec; try done. right. split; [done|]. by apply negb_true_iff. }
  apply mode_false in Hmode. wp_step. apply wp_heap. unfold on_both. wp_step. cbn [fd_vfs fd_mach fd_heap].
  eapply wp_mono; [eapply wp_and; [by eapply Hok|eapply file_read_ok; try done]|].
  { apply Hs. }
  { rewrite (fo_opens _ _ _ Hs). pose proof (uses_pos _ _ _ Hx). lia. }
  { simpl. lia. }
  intros [r u] [d m] o' (Hr0 & Hd & Hm2 & Hw & Hdone & Hoff). cbn [fst snd] in *. subst r. wp_cond. cbn [uio_resid uio_offset] in *.
  rewrite s32_small by lia. wp_step. wp_step; [lia|]. eapply io_end_spec; try done. lia.
Qed.
Lemma sys_write_spec R ft N (fd buf len : Z) s o :
  ft_ok ft N → fds_ok R s → (∀ i f, N !! i = Some f → 0 < R f) → buf_there (fd_mach s) buf len →
  wp (sys_write t_vmspace dest fd buf len 0) (λ r st _, moved writable R ft N fd len s r st) (ft, s) o.
Proof.
  intros Hft Hs HR Hb. pose proof Hb as (_ & Hl & _). unfold sys_write. wp_step. wp_step; [done|].
  wp_step. wp_call ft_getfile_spec; [done|]. intros r st o' (-> & -> & ->). destruct (N !! fd) as [f|] eqn:Hfd.
  2: { wp_step. split_and!; [done..|]. right. split_and!; try done. right. split; [done|].
       intros ? ? ? ? Hx. by rewrite Hfd in Hx. }
  destruct (counted_file _ _ _ _ Hs (HR _ _ Hfd)) as (x & Hx & Hn & Hbx & Hlk & Hxo).
  wp_step. apply wp_heap, (wp_flock_acquire f x); [done..|]. cbn beta. wp_step. apply wp_heap.
  eapply wp_get_file; [apply lookup_insert_eq|]. unfold set_heap. cbn [fd_vfs fd_mach fd_heap f_status set_flock f_offset f_v].
  rewrite <- negb_orb. pose proof (fo_mach _ _ _ Hs) as Hm0. destruct (negb _) eqn:Hmode.
  { eapply io_fail_spec; try done. right. split; [done|]. by apply negb_true_iff. }
  apply mode_false in Hmode.
  destruct (Z.eqb_spec buf 0) as [->|Hb0]; [eapply io_fail_spec; try done; by left|].
  wp_step. apply wp_heap. unfold on_fmach. wp_step. wp_call buf_check_spec; [done..|].
  intros r m' o' (-> & Hm & Hreg & Hr). cbn [fd_vfs fd_mach fd_heap].
  destruct Hr as [->| ->]; wp_cond; [|eapply io_fail_spec; try done; by left].
  wp_step. apply wp_heap. unfold on_both. wp_step. cbn [fd_vfs fd_mach fd_heap].
  eapply wp_mono; [eapply file_write_ok; try done|].
  { apply Hs. }
  { rewrite (fo_opens _ _ _ Hs). pose proof (uses_pos _ _ _ Hx). lia. }
  { simpl. lia. }
  intros [r u] [d m] o' (Hd & Hm2 & Hw & Hdone & Hoff). cbn [fst snd] in *. wp_cond. cbn [uio_resid uio_offset] in *.
  rewrite s32_small by lia. eapply io_end_spec; try done. lia.
Qed.

(** ** Processes

    The file tables of the processes, and the calls of a process.  [FFork]
    is what p_create and sys_fork do to the tables: the child gets a new table
    and the files of the parent are put into it; [FExit] destroys a table. *)
Record fdworld : Type := mkFw { fw_tabs : gmap Z filetable; fw_sys : fds }.
Definition on_proc {A} (pid : Z) (m : K ftsys A) : K fdworld A :=
  W <- kget;
  ft <- deref (fw_tabs W !! pid);
  '(a, (ft, s)) <- run_on m (ft, fw_sys W);
  _ <- kput (mkFw (<[pid := ft]> (fw_tabs W)) s);
  ret a.
Inductive fd_op : Type :=
| FOpen (pid filename flags : Z)
| FClose (pid fd : Z)
| FRead (pid fd buf len : Z)
| FWrite (pid fd buf len : Z)
| FFork (pid child : Z)
| FExit (pid : Z).
Definition fd_exec (op : fd_op) : K fdworld (Z * Z) :=
  match op with
  | FOpen pid filename flags => on_proc pid (sys_open foo filename flags 0)
  | FClose pid fd => on_proc pid (sys_close fd 0)
  | FRead pid fd buf len => on_proc pid (sys_read t_vmspace dest fd buf len 0)
  | FWrite pid fd buf len => on_proc pid (sys_write t_vmspace dest fd buf len 0)
  | FFork pid child =>
      nft <- ft_create;
      match nft with
      | None => ret (-1, ENOMEM)
      | Some nft =>
          '(err, nft) <- on_proc pid (fork_files nft);
          match nft with
          | None => ret (-1, err)
          | Some nft =>
              _ <- modify (λ W, mkFw (<[child := nft]> (fw_tabs W)) (fw_sys W));
              ret (child, 0)
          end
      end
  | FExit pid =>
      _ <- on_proc pid ft_destroy;
      _ <- modify (λ W, mkFw (delete pid (fw_tabs W)) (fw_sys W));
      ret (0, 0)
  end.

(** ** The contract *)
Abbreviation descs := (gmap (Z * Z) loc).
Abbreviation ofiles := (gmap loc (Z * Z * Z)).
(** The files that still have a descriptor *)
Definition live (M : descs) (F : ofiles) : ofiles := filter (λ fx, refs M fx.1 ≠ 0) F.
(** [fd] is not open in a mode that allows the transfer. *)
Definition not_open (mode : Z → bool) (M : descs) (F : ofiles) (pid fd : Z) : Prop :=
  ∀ f status off v, M !! (pid, fd) = Some f → F !! f = Some (status, off, v) → mode status = false.
Inductive fd_step (M : descs) (F : ofiles) : fd_op → Z * Z → descs → ofiles → Prop :=
| step_open pid filename flags fd f v :
    M !! (pid, fd) = None → F !! f = None → 0 ≤ fd →
    fd_step M F (FOpen pid filename flags) (fd, 0) (<[(pid, fd) := f]> M) (<[f := (flags, 0, v)]> F)
| step_open_fails pid filename flags e : e ≠ 0 → fd_step M F (FOpen pid filename flags) (-1, e) M F
| step_close pid fd f :
    M !! (pid, fd) = Some f →
    fd_step M F (FClose pid fd) (0, 0) (delete (pid, fd) M) (live (delete (pid, fd) M) F)
| step_close_fails pid fd : M !! (pid, fd) = None → fd_step M F (FClose pid fd) (-1, EBADF) M F
| step_read pid fd buf len f status off v n :
    M !! (pid, fd) = Some f → F !! f = Some (status, off, v) → readable status = true → 0 ≤ n ≤ len →
    fd_step M F (FRead pid fd buf len) (n, 0) M (<[f := (status, s32 (off + n), v)]> F)
| step_read_fails pid fd buf len e :
    e = EFAULT ∨ e = EBADF ∧ not_open readable M F pid fd → fd_step M F (FRead pid fd buf len) (-1, e) M F
| step_write pid fd buf len f status off v n :
    M !! (pid, fd) = Some f → F !! f = Some (status, off, v) → writable status = true → 0 ≤ n ≤ len →
    fd_step M F (FWrite pid fd buf len) (n, 0) M (<[f := (status, s32 (off + n), v)]> F)
| step_write_fails pid fd buf len e :
    e = EFAULT ∨ e = EBADF ∧ not_open writable M F pid fd → fd_step M F (FWrite pid fd buf len) (-1, e) M F
| step_fork pid child M' :
    (∀ p fd, M' !! (p, fd) = if decide (p = child) then M !! (pid, fd) else M !! (p, fd)) →
    fd_step M F (FFork pid child) (child, 0) M' F
| step_exit pid M' :
    (∀ p fd, M' !! (p, fd) = if decide (p = pid) then None else M !! (p, fd)) →
    fd_step M F (FExit pid) (0, 0) M' (live M' F).

(** ** Representation *)
Definition tab_rep (M : descs) (pid : Z) (t : option filetable) : Prop :=
  match t with
  | Some t => ∃ N, ft_ok t N ∧ ∀ fd, N !! fd = M !! (pid, fd)
  | None => ∀ fd, M !! (pid, fd) = None
  end.
Definition world_rep (W : fdworld) (M : descs) (F : ofiles) : Prop :=
  fds_ok (refs M) (fw_sys W) ∧ F = files (fw_sys W) ∧ ∀ pid, tab_rep M pid (fw_tabs W !! pid).
(** What a call needs: the process is there, its arguments point into its
    memory, the device does not report an error on a read (see
    [sys_read_error_panics]), and the calls that allocate or free find memory
    (see [tab_remove_no_memory]). *)
Definition fd_pre (W : fdworld) (M : descs) (op : fd_op) (o : oracle) : Prop :=
  let s := fw_sys W in
  match op with
  | FOpen pid filename flags => is_Some (fw_tabs W !! pid) ∧ path_there (fd_mach s) filename ∧ plenty o
  | FClose pid fd => is_Some (fw_tabs W !! pid) ∧ plenty o
  | FRead pid fd buf len => is_Some (fw_tabs W !! pid) ∧ buf_there (fd_mach s) buf len ∧
      ∀ f x m o', M !! (pid, fd) = Some f → fd_heap s !! f = Some x →
        wp (file_read (f_v x) (mkUio buf len (f_offset x) len UIO_USERSPACE UIO_READ t_vmspace)) (λ r _ _, r.1 = 0) (fd_vfs s, m) o'
  | FWrite pid fd buf len => is_Some (fw_tabs W !! pid) ∧ buf_there (fd_mach s) buf len
  | FFork pid child => is_Some (fw_tabs W !! pid) ∧ fw_tabs W !! child = None ∧ plenty o ∧ 2 * Z.of_nat (base.size M) < 2 ^ 31
  | FExit pid => is_Some (fw_tabs W !! pid) ∧ plenty o
  end.

(** ** Simulation *)
Lemma wp_on_proc {A} (pid : Z) (m : K ftsys A) ft (Q : A → fdworld → oracle → Prop) W o :
  fw_tabs W !! pid = Some ft →
  wp m (λ a st o', Q a (mkFw (<[pid := st.1]> (fw_tabs W)) st.2) o') (ft, fw_sys W) o → wp (on_proc pid m) Q W o.
Proof.
  intros Hft Hm. unfold on_proc. do 3 wp_step. rewrite Hft. wp_step. wp_step. wp_step. eapply wp_mono; [exact Hm|].
  intros a [ft' s'] o' HQ. do 2 wp_step. by wp_step.
Qed.
Lemma tab_rep_ext M M' pid t : (∀ fd, M' !! (pid, fd) = M !! (pid, fd)) → tab_rep M pid t → tab_rep M' pid t.
Proof.
  intros Heq. destruct t as [t|]; simpl.
  - intros (N & Ht & HN). exists N. split; [done|]. intros fd. by rewrite Heq.
  - intros HN fd. by rewrite Heq.
Qed.
(** The process [pid] has the table [t] and the others keep theirs. *)
Lemma world_update M M' W pid t s' :
  (∀ p, tab_rep M p (fw_tabs W !! p)) → (∀ p fd, p ≠ pid → M' !! (p, fd) = M !! (p, fd)) → tab_rep M' pid (Some t) →
  fds_ok (refs M') s' → world_rep (mkFw (<[pid := t]> (fw_tabs W)) s') M' (files s').
Proof.
  intros HT Hne Ht Hs. split_and!; [done..|]. intros p. simpl. destruct (decide (p = pid)) as [->|Hp].
  - by rewrite lookup_insert_eq.
  - rewrite lookup_insert_ne by done. eapply tab_rep_ext; [|done]. intros fd. by apply Hne.
Qed.
Lemma live_files M s F :
  fds_ok (refs M) s → (∀ g, refs M g ≠ 0 → files s !! g = F !! g) → files s = live M F.
Proof.
  intros Hs HF. apply map_eq. intros g. destruct (decide (refs M g = 0)) as [H0|H0].
  - rewrite (no_refs _ _ _ _ Hs H0). symmetry. apply map_lookup_filter_None. right. intros y _. simpl. by intros ?.
  - rewrite HF by done. unfold live. rewrite map_lookup_filter. destruct (F !! g); simpl; [|done]. by rewrite option_guard_True.
Qed.
(** The part of one process, and the rest *)
Lemma refs_union (M1 M2 : descs) g : M1 ##ₘ M2 → refs (M1 ∪ M2) g = refs M1 g + refs M2 g.
Proof.
  intros Hd. unfold refs. rewrite map_filter_union by done. rewrite map_size_disj_union; [lia|].
  by apply map_disjoint_filter.
Qed.
Lemma refs_kmap (pid : Z) N g : refs (kmap (pair pid) N : descs) g = refs N g.
Proof.
  induction N as [|i f N Hi IH] using map_ind; [by rewrite kmap_empty, !refs_empty|].
  rewrite kmap_insert, !refs_insert, IH; [done|done|by rewrite lookup_kmap by apply _|apply _].
Qed.
Lemma refs_add (M M' : descs) (pid : Z) N :
  (∀ fd, M !! (pid, fd) = None) → (∀ p fd, M' !! (p, fd) = if decide (p = pid) then N !! fd else M !! (p, fd)) →
  M' = kmap (pair pid) N ∪ M ∧ ∀ g, refs M' g = refs M g + refs N g.
Proof.
  intros H0 HM. assert (M' = kmap (pair pid) N ∪ M) as Heq.
  { apply map_eq. intros [p fd]. rewrite HM, lookup_union. case_decide as Hp.
    - subst. by rewrite lookup_kmap, H0, (right_id_L None _) by apply _.
    - rewrite (proj2 (lookup_kmap_None (pair pid) N (p, fd))); [by rewrite (left_id_L None _)|]. by intros i [= ? ?]. }
  split; [done|]. intros g. rewrite Heq, refs_union, refs_kmap; [lia|].
  apply map_disjoint_spec. intros [p fd] x y (i & [= -> ->] & _)%lookup_kmap_Some Hy; [|apply _]. by rewrite H0 in Hy.
Qed.

Definition fd_post M F (op : fd_op) (r : Z * Z) (W' : fdworld) : Prop :=
  ∃ M' F', fd_step M F op r M' F' ∧ world_rep W' M' F'.
Section Calls.
  Context (W : fdworld) (M : descs) (F : ofiles) (pid : Z) (ft : filetable) (N : gmap Z loc).
  Hypothesis HW : world_rep W M F.
  Hypothesis Hpid : fw_tabs W !! pid = Some ft.
  Hypothesis Hft : ft_ok ft N.
  Hypothesis HN : ∀ fd, N !! fd = M !! (pid, fd).
Lemma proc_pos i f : N !! i = Some f → 0 < refs M f.
Proof. rewrite HN. apply refs_pos. Qed.
Lemma sim_open (p flags : Z) o :
  path_there (fd_mach (fw_sys W)) p → plenty o →
  wp (fd_exec (FOpen pid p flags)) (λ r W' _, fd_post M F (FOpen pid p flags) r W') W o.
Proof.
  intros Hp Ho. destruct HW as (Hs & -> & HT). eapply wp_on_proc; [done|].
  wp_call (sys_open_spec (refs M) ft N); [done..|]. unfold fd_post.
  intros [fd err] [ft' s'] o' [(f & v & Hr & Hfd & Hnone & Hf & Hft' & Hs' & Hfs)|(Hr & He & Hft' & Hs' & Hfs)]; simpl in *; subst.
  - exists (<[(pid, fd) := f]> M), (files s'). rewrite HN in Hnone. split; [rewrite Hfs; by apply step_open|].
    apply (world_update M); [done| | |].
    + intros q i Hq. rewrite lookup_insert_ne by congruence. done.
    + exists (<[fd := f]> N). split; [done|]. intros i. destruct (decide (i = fd)) as [->|Hi].
      * by rewrite !lookup_insert_eq.
      * rewrite !lookup_insert_ne by congruence. apply HN.
    + eapply fds_ok_ext; [|exact Hs']. intros g. rewrite refs_insert by done. unfold plus. repeat case_decide; try done; lia.
  - exists M, (files s'). split; [rewrite Hfs; by apply step_open_fails|]. apply (world_update M); try done. by exists N.
Qed.
Lemma sim_close (fd : Z) o :
  plenty o → wp (fd_exec (FClose pid fd)) (λ r W' _, fd_post M F (FClose pid fd) r W') W o.
Proof.
  intros Ho. destruct HW as (Hs & -> & HT). eapply wp_on_proc; [done|].
  wp_call (sys_close_spec (refs M) ft N); [done|done|exact proc_pos|done|]. unfold fd_post.
  intros r [ft' s'] o' Hr. destruct (N !! fd) as [f|] eqn:Hfd; rewrite HN in Hfd.
  - destruct Hr as (-> & Hft' & Hs' & Hfs). simpl in *. pose proof (refs_pos _ _ _ Hfd) as Hpos.
    assert (∀ g, plus (refs M) f (-1) g = refs (delete (pid, fd) M) g) as Heq.
    { intros g. rewrite (refs_delete _ _ _ _ Hfd). unfold plus. repeat case_decide; try done; lia. }
    apply (fds_ok_ext _ _ _ _ Heq) in Hs'.
    exists (delete (pid, fd) M), (files s'). split.
    + rewrite (live_files _ s' (files (fw_sys W)) Hs'); [by eapply step_close|]. intros g Hg. rewrite Hfs. case_decide as H1; [|done].
      rewrite lookup_delete_ne; [done|]. intros <-. rewrite (refs_delete _ _ _ _ Hfd), decide_True in Hg by done. lia.
    + apply (world_update M); [done| | |done].
      * intros q i Hq. by rewrite lookup_delete_ne by congruence.
      * exists (delete fd N). split; [done|]. intros i. destruct (decide (i = fd)) as [->|Hi].
        -- by rewrite !lookup_delete_eq.
        -- rewrite !lookup_delete_ne by congruence. apply HN.
  - destruct Hr as (-> & [= -> ->]). exists M, (files (fw_sys W)). split; [by apply step_close_fails|].
    apply (world_update M); try done. by exists N.
Qed.
Lemma sim_moved (mode : Z → bool) (fd len : Z) r st :
  moved mode (refs M) ft N fd len (fw_sys W) r st →
  world_rep (mkFw (<[pid := st.1]> (fw_tabs W)) st.2) M (files st.2) ∧
  ((∃ f status off v n, M !! (pid, fd) = Some f ∧ F !! f = Some (status, off, v) ∧ mode status = true ∧ 0 ≤ n ≤ len ∧
      r = (n, 0) ∧ files st.2 = <[f := (status, s32 (off + n), v)]> F) ∨
   (∃ e, r = (-1, e) ∧ files st.2 = F ∧ (e = EFAULT ∨ e = EBADF ∧ not_open mode M F pid fd))).
Proof.
  destruct HW as (Hs & -> & HT). destruct st as [ft' s'], r as [n e]. intros (Hf' & Hs' & Hr). simpl in *. subst ft'.
  split; [apply (world_update M); try done; by exists N|]. rewrite HN in Hr.
  destruct Hr as [(f & status & off & v & ? & ? & ? & -> & ? & ?)|(-> & Hfs & He)]; [left|right; exists e; split_and!; try done].
  - by exists f, status, off, v, n.
Qed.
Lemma sim_exit o : plenty o → wp (fd_exec (FExit pid)) (λ r W' _, fd_post M F (FExit pid) r W') W o.
Proof.
  intros Ho. destruct HW as (Hs & -> & HT). set (M' := filter (λ kf, kf.1.1 ≠ pid) M).
  assert (∀ p fd, M' !! (p, fd) = if decide (p = pid) then None else M !! (p, fd)) as HM'.
  { intros p fd. unfold M'. rewrite map_lookup_filter. destruct (M !! (p, fd)); simpl; [|by case_decide].
    repeat case_guard; repeat case_decide; naive_solver. }
  assert (∀ g, refs M g = refs M' g + refs N g) as Href.
  { apply (refs_add M' M pid N); [intros fd; by rewrite HM', decide_True|]. intros p fd. rewrite HM', HN. by case_decide; subst. }
  cbn [fd_exec]. wp_step. eapply wp_on_proc; [done|].
  wp_call (ft_destroy_spec B (refs M) ft N); [done|done|intros g; pose proof (refs_nonneg M' g); rewrite Href; lia|done|].
  intros _ [ft' s'] o' ([Hs' Hfs] & _ & _). simpl in Hs', Hfs. wp_step. wp_step. wp_step. unfold fd_post. simpl.
  rewrite delete_insert_eq. assert (∀ g, refs M g - refs N g = refs M' g) as Heq by (intros g; rewrite Href; lia).
  apply (fds_ok_ext _ _ _ _ Heq) in Hs'. exists M', (files s'). split.
  - rewrite (live_files _ s' (files (fw_sys W)) Hs'); [by apply step_exit|]. intros g Hg. rewrite Hfs, decide_False; [done|].
    rewrite Href. lia.
  - split_and!; [done..|]. intros p. simpl. destruct (decide (p = pid)) as [->|Hp].
    + rewrite lookup_delete_eq. intros fd. by rewrite HM', decide_True.
    + rewrite lookup_delete_ne by done. eapply tab_rep_ext; [|done]. intros fd. by rewrite HM', decide_False.
Qed.
Lemma sim_fork (child : Z) o :
  fw_tabs W !! child = None → plenty o → 2 * Z.of_nat (base.size M) < 2 ^ 31 →
  wp (fd_exec (FFork pid child)) (λ r W' _, fd_post M F (FFork pid child) r W') W o.
Proof.
  intros Hc Ho Hsz. destruct HW as (Hs & -> & HT). pose proof (HT child) as Hch. rewrite Hc in Hch. simpl in Hch.
  set (M' := kmap (pair child) N ∪ M).
  assert (∀ p fd, M' !! (p, fd) = if decide (p = child) then N !! fd else M !! (p, fd)) as HM'.
  { intros p fd. unfold M'. rewrite lookup_union. case_decide as Hp.
    - subst. by rewrite lookup_kmap, Hch, (right_id_L None _) by apply _.
    - rewrite (proj2 (lookup_kmap_None (pair child) N (p, fd))); [by rewrite (left_id_L None _)|]. by intros i [= ? ?]. }
  destruct (refs_add M M' child N Hch HM') as [_ Href].
  assert (∀ g, refs N g ≤ refs M g) as Hle.
  { intros g. destruct (refs_add (filter (λ kf, kf.1.1 ≠ pid) M) M pid N) as [_ Hr].
    - intros fd. apply map_lookup_filter_None. right. intros x _. simpl. naive_solver.
    - intros p fd. rewrite map_lookup_filter, HN. destruct (decide (p = pid)) as [->|Hp]; [done|].
      destruct (M !! (p, fd)); simpl; [|done]. by rewrite option_guard_True.
    - rewrite Hr. pose proof (refs_nonneg (filter (λ kf, kf.1.1 ≠ pid) M) g). lia. }
  cbn [fd_exec]. wp_step. wp_call (ft_create_spec W); [done|]. intros r W1 o1 (-> & Ho1 & nt & -> & Hnt). wp_step.
  eapply wp_on_proc; [done|]. unfold fork_files. wp_step. wp_call (ft_duplicate_spec B (refs M) ft N nt); [done..| | |done|].
  { intros g. pose proof (Hle g). lia. }
  { intros g. pose proof (Hle g). pose proof (refs_le M g). lia. }
  intros [err nft] [ft' s'] o' (He & Hnft & Hft' & Hs' & Hfs & _ & _). simpl in He, Hnft, Hft', Hs', Hfs. subst. wp_cond. wp_step. wp_step. wp_step.
  wp_step. unfold fd_post. simpl. rewrite (insert_id (fw_tabs W) pid) by done. exists M', (files s').
  split; [rewrite Hfs; apply step_fork; intros p fd; rewrite HM', HN; done|]. apply (world_update M); [done| | |].
  - intros p fd Hp. by rewrite HM', decide_False.
  - exists N. split; [done|]. intros fd. by rewrite HM', decide_True.
  - eapply fds_ok_ext; [|exact Hs']. intros g. cbn beta. by rewrite Href.
Qed.
End Calls.


(** ** Errors of the device *)
Section Errors.
  Context (ft : filetable) (N : gmap Z loc) (R : loc → Z) (s : fds) (fd buf len : Z) (f : loc) (x : file).
  Hypothesis Hft : ft_ok ft N.
  Hypothesis Hs : fds_ok R s.
  Hypothesis Hfd : N !! fd = Some f.
  Hypothesis Hx : fd_heap s !! f = Some x.
  Hypothesis Hb : buf_there (fd_mach s) buf len.
  Hypothesis Hbuf : buf ≠ 0 ∧ buf + 4 ≤ USERTOP ∧ all_ok (urd (fd_mach s)) buf 4.
Lemma buf_accepted (m : machine) o :
  m = fd_mach s →
  wp (copyin buf dest 4) (λ r m' o', r = 0 ∧ o' = o ∧ badfault m' = false ∧ region_there m' buf len) m o.
Proof.
  intros ->. pose proof Hb as (Hbb & Hl & Hk & Hu & Hr). destruct Hbuf as (_ & Hle & Hall).
  eapply wp_mono; [apply wp_and; [apply buf_check_spec; [apply Hs|done]|
    apply (copyin_spec _ buf dest 4 o (fo_mach _ _ _ Hs) Hbb ltac:(lia) Hk Hu)]|].
  intros r m' o' ((-> & ? & ? & _) & _ & _ & _ & _ & _ & Hres). split_and!; try done. destruct Hres as [[-> _]|[_ []]]; [done|].
  split_and!; [lia|done..].
Qed.
(** A read error of the device stops the kernel: [sys_read] jumps to its
    label [fail] without having set [*err], which is asserted there. *)
Theorem sys_read_error_panics (o : oracle) :
  readable (f_status x) = true →
  (∀ m o', wp (file_read (f_v x) (mkUio buf len (f_offset x) len UIO_USERSPACE UIO_READ t_vmspace)) (λ r _ _, r.1 ≠ 0) (fd_vfs s, m) o') →
  sys_read t_vmspace dest fd buf len 0 (ft, s) o = Halt Panic.
Proof.
  intros Hmode Hbad. unfold sys_read. destruct (fo_live _ _ _ Hs f x Hx) as (_ & _ & Hl & _).
  change (bind (kassert (0 =? 0)) ?k (ft, s) o) with (k tt (ft, s) o). cbn beta.
  destruct (Z.eqb_spec buf 0); [by destruct Hbuf|].
  apply (halt_bind _ _ _ (λ r st _, r = 0 ∧ ∃ m, st = (ft, mkFd (fd_vfs s) m (fd_heap s)))).
  { apply wp_heap. unfold on_fmach. wp_step. wp_call buf_accepted; [done|]. intros r m o' (-> & _). eauto. }
  intros r st o1 (-> & m & ->). cbn [Z.eqb negb].
  eapply halt_bind; [by apply (ft_getfile_spec _ N)|]. intros r st o2 (-> & -> & ->). rewrite Hfd.
  apply (halt_bind _ _ _ (λ _ st _, st = (ft, mkFd (fd_vfs s) m (<[f := set_flock (Some held) x]> (fd_heap s))))).
  { apply wp_heap, (wp_flock_acquire f x); done. }
  intros _ st o2 ->.
  apply (halt_bind _ _ _ (λ y st _, y = set_flock (Some held) x ∧ st = (ft, mkFd (fd_vfs s) m (<[f := set_flock (Some held) x]> (fd_heap s))))).
  { eapply wp_heap, wp_get_file; [apply lookup_insert_eq|done]. }
  intros y st o3 (-> & ->). cbn [f_status set_flock f_v f_offset]. unfold readable in Hmode. cbv zeta in Hmode |- *. rewrite Hmode. cbn [negb].
  apply (halt_bind _ _ _ (λ r _ _, r.1 ≠ 0)).
  { apply wp_heap. unfold on_both. wp_step. apply Hbad. }
  intros [r u] st o4 Hr. cbn [fst] in Hr. destruct (Z.eqb_spec r 0); done.
Qed.
(** A write error of the device is not noticed: [sys_write] tests [*err]
    instead of the result of [VOP_WRITE], and reports success. *)
Theorem sys_write_error_ignored (e : Z) (o : oracle) :
  writable (f_status x) = true → e ≠ 0 →
  (∀ m o', wp (file_write (f_v x) (mkUio buf len (f_offset x) len UIO_USERSPACE UIO_WRITE t_vmspace))
     (λ r _ _, r = (e, mkUio buf len (f_offset x) len UIO_USERSPACE UIO_WRITE t_vmspace)) (fd_vfs s, m) o') →
  wp (sys_write t_vmspace dest fd buf len 0) (λ r _ _, r = (0, 0)) (ft, s) o.
Proof.
  intros Hmode He Hbad. unfold sys_write. destruct (fo_live _ _ _ Hs f x Hx) as (_ & _ & Hl & _). wp_step. wp_step; [done|].
  wp_step. wp_call ft_getfile_spec; [done|]. intros r st o' (-> & -> & ->). rewrite Hfd.
  wp_step. apply wp_heap, (wp_flock_acquire f x); [done..|]. cbn beta. wp_step. apply wp_heap.
  eapply wp_get_file; [apply lookup_insert_eq|]. cbn [f_status set_flock f_offset f_v]. rewrite <- negb_orb.
  unfold writable in Hmode. cbv zeta in Hmode |- *. rewrite Hmode. cbn [negb]. destruct (Z.eqb_spec buf 0); [by destruct Hbuf|].
  wp_step. apply wp_heap. unfold on_fmach. wp_step. wp_call buf_accepted; [done|]. intros r m o' (-> & _). wp_cond.
  wp_step. apply wp_heap. unfold on_both. wp_step. wp_call Hbad. intros r [d m'] o2 ->. wp_cond.
  wp_step. apply wp_heap. eapply wp_upd_file; [apply lookup_insert_eq|]. wp_step. apply wp_heap.
  eapply wp_flock_release; [apply lookup_insert_eq|done|]. wp_step. cbn [uio_resid]. by rewrite Z.sub_diag.
Qed.
End Errors.
End FilesSim.
