(* ===== verification/FilesRuns.v ===== *)
(** * Open files: an instance of the laws, and runs

    A file system with one device that swallows what is written and has
    nothing to read, in a good and in a broken state; the theorems of
    FilesSim.v at concrete states; and what sys_fork does when memory runs
    out while it copies the file table. *)
From S2P Require Import Prelude Array LinkedList Table Memory Copyinout Uio Vnode SfsVnode Files FilesSpec FilesSim.

Module SinkFiles.
(** whether the device is broken, and how often each vnode is open *)
Definition sink : Type := bool * gmap Z Z.
Definition count (d : sink) (v : Z) : Z := default 0 (d.2 !! v).
Definition add (n v : Z) (d : sink) : sink := (d.1, <[v := count d v + n]> d.2).
Definition swallow (u : uio) : uio :=
  mkUio (iov_base u) (iov_len u) (s32 (uio_offset u + uio_resid u)) 0 (uio_segflg u) (uio_rw_ u) (uio_space u).
#[global] Instance sink_files : VfsFiles sink := {
  file_read v u := dm <- kget; ret (if dm.1.1 : bool then EIO else 0, u);
  file_write v u := dm <- kget; ret (if dm.1.1 : bool then (EIO, u) else (0, swallow u));
  file_open p flags := _ <- modify (λ dm, (add 1 7 dm.1, dm.2)); ret (0, 7);
  file_close v := modify (add (-1) v);
  file_incref v := modify (add 1 v);
}.
Lemma count_add n v d w : count (add n v d) w = count d w + (if decide (w = v) then n else 0).
Proof.
  unfold count, add. simpl. case_decide; subst; [by rewrite lookup_insert_eq|]. rewrite lookup_insert_ne by done. lia.
Qed.
#[global] Instance sink_laws : FilesLaws sink.
Proof.
  refine {| vf_ok := λ _, True; opens := count |}.
  - intros d m p flags o _ Hm _. cbn [file_open sink_files]. wp_run. split_and!; try done. intros w. cbn [fst snd]. rewrite count_add.
    repeat case_decide; naive_solver.
  - intros d v o _ _. cbn [file_close sink_files]. wp_run. split_and!; try done. intros w. rewrite count_add. case_decide; lia.
  - intros d m v u o _ Hm _ Ho Hu _. cbn [file_read sink_files]. wp_run. split_and!; try done. split; cbn [snd]; [lia|].
    by rewrite Z.sub_diag, Z.add_0_r.
  - intros d m v u o _ Hm _ Ho Hu _. cbn [file_write sink_files]. wp_run. split_and!; try done.
    cbn [fst]. destruct d.1; split; cbn [snd swallow uio_resid uio_offset]; try lia.
    + by rewrite Z.sub_diag, Z.add_0_r.
    + by rewrite Z.sub_0_r.
Defined.
End SinkFiles.

(** ** One process with one open file *)
Module SampleFiles.
Import SinkFiles.
Definition foo : Z := MIPS_KSEG0.
Definition dest : Z := MIPS_KSEG0 + 1024.
Definition mach : machine :=
  mkMachine (write_at (write_at ∅ 4096 (replicate 1024 97)) MIPS_KSEG0 (replicate 1028 0)) (λ _, AOk) (λ _, AOk) false.
Definition f : loc := 1%positive.
Definition x : file := mkFile O_RDWR 5 7 (Some idle) 1.
Definition sys (broken : bool) : fdsys sink := mkFd (broken, {[7 := 1]}) mach {[f := x]}.
Definition no_slots : linkedlist loc := mkLL ∅ None None 0.
Definition ft : filetable := mkFt (mkTable (mkArray 1 1 (Some [Some (Some f)])) no_slots ∅) idle.
Definition world : fdworld (D := sink) := mkFw {[1 := ft]} (sys false).
Definition others : Z → nat := λ _, 0%nat.

Lemma is_there {A} (o : option A) : bool_decide (is_Some o) = true → is_Some o.
Proof. apply bool_decide_eq_true_1. Qed.
Lemma refs_one g : refs ({[(1, 0) := f]} : gmap (Z * Z) loc) g = if decide (g = f) then 1 else 0.
Proof. rewrite <- insert_empty, refs_insert, refs_empty by done. lia. Qed.
Lemma ft_sample : ft_ok ft {[0 := f]}.
Proof.
  split; [done|]. exists [Some f]. split; [split; [|done]|].
  - exists [], 0%nat. split_and!; [repeat split; simpl; lia| |constructor|set_solver].
    exists []. split_and!; [apply ll_rep_nil|constructor|constructor|done].
  - intros i. destruct (decide (i = 0)) as [->|Hi]; [done|]. rewrite lookup_singleton_ne by done. unfold zlookup.
    case_decide; [|done]. destruct (Z.to_nat i) eqn:E; [lia|done].
Qed.
Lemma sys_sample b : fds_ok others (refs ({[(1, 0) := f]} : gmap (Z * Z) loc)) (sys b).
Proof.
  split; [done|done| | |]; unfold sys; cbn [fd_vfs fd_heap].
  - intros v. cbn [opens sink_laws]. rewrite <- (insert_empty f x), uses_new by done. change (uses ∅ v) with 0. unfold count. cbn [snd].
    case_decide as Hv; simpl in Hv; subst; [done|]. by rewrite lookup_singleton_ne by done.
  - intros g y [<- <-]%lookup_singleton_Some. unfold file_ok. rewrite refs_one, decide_True by done. done.
  - intros g Hg%lookup_singleton_None. rewrite refs_one, decide_False by done. done.
Qed.
Lemma world_sample : world_rep others world {[(1, 0) := f]} {[f := (O_RDWR, 5, 7)]}.
Proof.
  split_and!; [apply sys_sample|by unfold files; simpl; rewrite map_fmap_singleton|].
  intros pid. unfold world. cbn [fw_tabs]. destruct (decide (pid = 1)) as [->|Hp].
  - rewrite lookup_singleton_eq. exists {[0 := f]}. split; [apply ft_sample|]. intros fd.
    destruct (decide (fd = 0)) as [->|]; [done|]. by rewrite !lookup_singleton_ne by congruence.
  - rewrite lookup_singleton_ne by done. intros fd. by rewrite lookup_singleton_ne by congruence.
Qed.
Lemma buf_sample : buf_there dest mach 4096 8.
Proof.
  split_and!; try lia; try done.
  - split_and!; [unfold dest, USERTOP; lia|unfold no_wrap, dest, MIPS_KSEG0; lia|apply is_there; vm_compute; reflexivity].
  - intros _. split; [apply is_there; vm_compute; reflexivity|done].
  - intros _. split_and!; [apply is_there; vm_compute; reflexivity|done..].
Qed.
End SampleFiles.

Lemma sys_read_error_panics_witness :
  sys_read None SampleFiles.dest 0 4096 8 0 (SampleFiles.ft, SampleFiles.sys true) [] = Halt Panic.
Proof.
  apply (sys_read_error_panics None SampleFiles.dest SampleFiles.others SampleFiles.ft {[0 := SampleFiles.f]}
    (refs ({[(1, 0) := SampleFiles.f]} : gmap (Z * Z) loc)) (SampleFiles.sys true) 0 4096 8 SampleFiles.f SampleFiles.x).
  - exact SampleFiles.ft_sample.
  - apply SampleFiles.sys_sample.
  - reflexivity.
  - reflexivity.
  - exact SampleFiles.buf_sample.
  - split_and!; [done|done|by intros b _].
  - reflexivity.
  - intros m o'. done.
Defined.
Lemma sys_write_error_ignored_witness :
  wp (sys_write None SampleFiles.dest 0 4096 8 0) (λ r _ _, r = (0, 0)) (SampleFiles.ft, SampleFiles.sys true) [].
Proof.
  apply (sys_write_error_ignored None SampleFiles.dest SampleFiles.others SampleFiles.ft {[0 := SampleFiles.f]}
    (refs ({[(1, 0) := SampleFiles.f]} : gmap (Z * Z) loc)) (SampleFiles.sys true) 0 4096 8 SampleFiles.f SampleFiles.x) with (e := EIO).
  - exact SampleFiles.ft_sample.
  - apply SampleFiles.sys_sample.
  - reflexivity.
  - reflexivity.
  - exact SampleFiles.buf_sample.
  - split_and!; [done|done|by intros b _].
  - reflexivity.
  - done.
  - intros m o'. done.
Defined.

(** ** sys_fork without memory *)
Definition fork_run (o : oracle) : outcome (Z * (filetable * fdsys SinkFiles.sink) * oracle) :=
  (nft <- ft_create;
   nft <- deref nft;
   '(err, _) <- fork_files nft;
   ret err) (SampleFiles.ft, SampleFiles.sys false) o.
(** The process keeps the descriptor of a file that is gone. *)
Definition stale (st : filetable * fdsys SinkFiles.sink) : Prop :=
  v (arr (ft_files st.1)) = Some [Some (Some SampleFiles.f)] ∧ fd_heap st.2 !! SampleFiles.f = None ∧
  SinkFiles.count (fd_vfs st.2) 7 = 0.
#[global] Instance stale_dec st : Decision (stale st) := _.
(** When memory runs out while the list of free slots is copied,
    [ft_duplicate] returns before it counts the references of the new table,
    and the [ft_destroy] that follows in [sys_fork] takes them away: the file
    of the parent is closed and freed while its descriptor is open, and the
    next call with the descriptor uses freed memory. *)
Theorem fork_failure_frees_files :
  ∃ st, fork_run (replicate 9 true ++ [false]) = Done (ENOMEM, st, []) ∧ stale st ∧ sys_close 0 0 st [] = Halt Fault.
Proof.
  assert (∃ st, fork_run (replicate 9 true ++ [false]) = Done (ENOMEM, st, []) ∧ stale st) as (st & Hrun & Hst).
  { apply (run_check stale). vm_compute. reflexivity. }
  exists st. split_and!; [done..|].
  assert ((_ <- (λ _, fork_run); sys_close 0 0) (SampleFiles.ft, SampleFiles.sys false) (replicate 9 true ++ [false]) = Halt Fault) as Hall
    by (vm_compute; reflexivity).
  unfold bind in Hall. by rewrite Hrun in Hall.
Qed.
