(* ===== verification/Vfs.v ===== *)
(** * The virtual file system, src/kern/fs/vfs: vfslist.c, vfslookup.c,
    vfscwd.c and vfspath.c

    The table of named devices, the translation of path names, the current
    directory and the operations on path names.  A path is a buffer with the
    string, which the code may change.  The operations on vnodes and file
    systems, which are called through tables of functions, are behind the
    class [VnodeOps]; Device.v has those of devices.  A vnode, a file system
    and a device are named by a number.  The locks are seen by one thread (see
    Vnode.v). *)
From S2P Require Import Prelude Array LinkedList CString Printf Request Uio Vnode SfsVnode Files.

Definition NAME_MAX : Z := 255.
Definition S_IFMT : Z := 28672.
Definition S_ISDIR (mode : Z) : bool := Z.land mode S_IFMT =? S_IFDIR.

(** [D] is the state of the vnodes and file systems.  An operation that
    returns a vnode or a name with the error gives it with the error. *)
Class VnodeOps (D : Type) : Type := {
  VOP_INCREF : Z → K D unit;
  VOP_DECREF : Z → K D unit;
  VOP_INCOPEN : Z → K D unit;
  VOP_DECOPEN : Z → K D unit;
  VOP_OPEN : Z → Z → K D Z;
  VOP_TRUNCATE : Z → Z → K D Z;
  VOP_CREAT : Z → list Z → bool → K D (Z * Z);
  VOP_LOOKUP : Z → list Z → K D (Z * Z);
  VOP_LOOKPARENT : Z → list Z → Z → K D (Z * Z * list Z);
  VOP_REMOVE : Z → list Z → K D Z;
  VOP_MKDIR : Z → list Z → K D Z;
  VOP_RMDIR : Z → list Z → K D Z;
  VOP_RENAME : Z → list Z → Z → list Z → K D Z;
  VOP_LINK : Z → list Z → Z → K D Z;
  VOP_SYMLINK : Z → list Z → list Z → K D Z;
  VOP_READLINK : Z → K (D * request) Z;
  VOP_NAMEFILE : Z → K (D * request) Z;
  VOP_GETTYPE : Z → K D (Z * Z);
  vn_fs : Z → K D (option Z); (** the member of the vnode *)
  FSOP_SYNC : Z → K D Z;
  FSOP_GETVOLNAME : Z → K D (option (list Z));
  FSOP_GETROOT : Z → K D Z;
  FSOP_UNMOUNT : Z → K D Z;
  dev_create_vnode : option Z → K D (option Z);
  kfree_vnode : Z → K D unit;
}.

Record knowndev : Type := mkKd {
  kd_name : list Z;
  kd_rawname : option (list Z);
  kd_device : option Z;
  kd_vnode : Z;
  kd_fs : option Z;
}.
(** The static variables of vfslist.c and vfslookup.c, and
    [curthread->t_cwd] *)
Record vfs (D : Type) : Type := mkVfs {
  vs_ops : D;
  knowndevs : option (array loc);
  kds : gmap loc knowndev;
  knowndevs_lock : option ulock;
  bootfs_vnode : option Z;
  bootfs_lock : option ulock;
  t_cwd : option Z;
}.
Arguments mkVfs {D} _ _ _ _ _ _ _.
Arguments vs_ops {D} _.
Arguments knowndevs {D} _.
Arguments kds {D} _.
Arguments knowndevs_lock {D} _.
Arguments bootfs_vnode {D} _.
Arguments bootfs_lock {D} _.
Arguments t_cwd {D} _.
Definition set_fs (fs : option Z) (kd : knowndev) : knowndev :=
  mkKd (kd_name kd) (kd_rawname kd) (kd_device kd) (kd_vnode kd) fs.

(** ** Strings of the kernel: src/kern/lib/misc.c and the helpers of vfslist.c.
    A new block is all written before it is read. *)
Section Strings.
  Context {S : Type}.
Definition kstrdup (s : list Z) : K S (option (list Z)) :=
  n <- strlen s 0;
  ok <- kmalloc_ok;
  if negb ok then ret None
  else
    z <- strcpy (replicate (Z.to_nat (n + 1)) 0) 0 s 0;
    ret (Some z).
(** [strerror]: only the failure, not the text *)
Definition sys_nerr : Z := 27.
Definition strerror (errcode : Z) : K S unit :=
  if (0 <=? errcode) && (errcode <? sys_nerr) then ret tt else panic.
Definition raw_suffix : list Z := [114; 97; 119; 0]. (** "raw" *)
Definition mkrawname (name : list Z) : K S (option (list Z)) :=
  n <- strlen name 0;
  ok <- kmalloc_ok;
  if negb ok then ret None
  else
    s <- strcpy (replicate (Z.to_nat (n + 3 + 1)) 0) 0 name 0;
    s <- strcat s raw_suffix 0;
    ret (Some s).
Definition samestring (a b : option (list Z)) : K S bool :=
  match a, b with
  | Some a, Some b => c <- strcmp a 0 b 0; ret (c =? 0)
  | _, _ => ret false
  end.
Definition samestring3 (a b c d : option (list Z)) : K S bool :=
  r <- samestring a b;
  if r : bool then ret true
  else
    r <- samestring a c;
    if r : bool then ret true else samestring a d.
End Strings.

Section Vfs.
  Context {D : Type} `{!VnodeOps D}.
  Abbreviation vs := (vfs D).

Definition set_ops (d : D) (s : vs) : vs := mkVfs d (knowndevs s) (kds s) (knowndevs_lock s) (bootfs_vnode s) (bootfs_lock s) (t_cwd s).
Definition set_devs (a : option (array loc)) (s : vs) : vs :=
  mkVfs (vs_ops s) a (kds s) (knowndevs_lock s) (bootfs_vnode s) (bootfs_lock s) (t_cwd s).
Definition set_kds (k : gmap loc knowndev) (s : vs) : vs :=
  mkVfs (vs_ops s) (knowndevs s) k (knowndevs_lock s) (bootfs_vnode s) (bootfs_lock s) (t_cwd s).
Definition set_kdlock (l : option ulock) (s : vs) : vs :=
  mkVfs (vs_ops s) (knowndevs s) (kds s) l (bootfs_vnode s) (bootfs_lock s) (t_cwd s).
Definition set_bootfs (v : option Z) (s : vs) : vs :=
  mkVfs (vs_ops s) (knowndevs s) (kds s) (knowndevs_lock s) v (bootfs_lock s) (t_cwd s).
Definition set_bootlock (l : option ulock) (s : vs) : vs :=
  mkVfs (vs_ops s) (knowndevs s) (kds s) (knowndevs_lock s) (bootfs_vnode s) l (t_cwd s).
Definition set_cwd (v : option Z) (s : vs) : vs :=
  mkVfs (vs_ops s) (knowndevs s) (kds s) (knowndevs_lock s) (bootfs_vnode s) (bootfs_lock s) v.
Definition on_ops {A} (m : K D A) : K vs A := zoom vs_ops set_ops m.
Definition on_devs {A} (m : K (array loc) A) : K vs A :=
  s <- kget;
  a <- deref (knowndevs s);
  '(r, a) <- run_on m a;
  _ <- modify (set_devs (Some a));
  ret r.
Definition get_kd (p : loc) : K vs knowndev := s <- kget; deref (kds s !! p).
Definition put_kd (p : loc) (kd : knowndev) : K vs unit := modify (λ s, set_kds (<[p := kd]> (kds s)) s).
(** A lock that is [NULL] fails the assertion of [lock_acquire]. *)
Definition on_kdlock {A} (m : K ulock A) : K vs A :=
  s <- kget;
  l <- match knowndevs_lock s with None => panic | Some l => ret l end;
  '(r, l) <- run_on m l;
  _ <- modify (set_kdlock (Some l));
  ret r.
Definition on_bootlock {A} (m : K ulock A) : K vs A :=
  s <- kget;
  l <- match bootfs_lock s with None => panic | Some l => ret l end;
  '(r, l) <- run_on m l;
  _ <- modify (set_bootlock (Some l));
  ret r.
(** [assert(lock_do_i_hold(knowndevs_lock))] *)
Definition assert_kdlock : K vs unit := s <- kget; kassert (bool_decide (ul_held <$> knowndevs_lock s = Some true)).
(** A call with a [uio] of the caller *)
Definition with_uio {A} (m : K (D * request) A) : K (vs * request) A :=
  zoom (λ x, (vs_ops x.1, x.2)) (λ y x, (set_ops y.1 x.1, y.2)) m.
Definition on_vfs1 {A} (m : K vs A) : K (vs * request) A := zoom fst (λ s x, (s, x.2)) m.
Definition on_uio {A} (m : K request A) : K (vs * request) A := zoom snd (λ r x, (x.1, r)) m.

(** ** vfslist.c *)
Definition sync_dev (i : Z) : K vs unit :=
  p <- on_devs (array_getguy i);
  dev <- get_kd p;
  match kd_fs dev with
  | Some fs => _ <- on_ops (FSOP_SYNC fs); ret tt
  | None => ret tt
  end.
Definition vfs_sync : K vs Z :=
  _ <- on_kdlock ulock_acquire;
  num <- on_devs array_getnum;
  _ <- kfor (Z.to_nat num) 0 sync_dev;
  _ <- on_kdlock ulock_release;
  ret 0.
(** The body of the loop of [vfs_getroot]: the error and the vnode, when one
    of the names is that of the device *)
Definition names_dev (kd : knowndev) (devname : list Z) : K vs (option (Z * Z)) :=
  r <- match kd_fs kd with
    | Some fs =>
        volname <- on_ops (FSOP_GETVOLNAME fs);
        c <- strcmp (kd_name kd) 0 devname 0;
        named <- (if c =? 0 then ret true else samestring volname (Some devname));
        if named : bool then
          root <- on_ops (FSOP_GETROOT fs);
          ret (Some (0, root))
        else ret None
    | None =>
        match kd_rawname kd with
        | Some _ =>
            c <- strcmp (kd_name kd) 0 devname 0;
            ret (if c =? 0 then Some (ENXIO, 0) else None)
        | None => ret None
        end
    end;
  match r with
  | Some r => ret (Some r)
  | None =>
      c <- strcmp (kd_name kd) 0 devname 0;
      if c =? 0 then
        _ <- kassert (bool_decide (kd_fs kd = None));
        _ <- kassert (bool_decide (kd_rawname kd = None));
        _ <- kassert (bool_decide (kd_device kd ≠ None));
        _ <- on_ops (VOP_INCREF (kd_vnode kd));
        ret (Some (0, kd_vnode kd))
      else
        raw <- samestring (kd_rawname kd) (Some devname);
        if raw : bool then
          _ <- kassert (bool_decide (kd_device kd ≠ None));
          _ <- on_ops (VOP_INCREF (kd_vnode kd));
          ret (Some (0, kd_vnode kd))
        else ret None
  end.
Fixpoint getroot_loop (n : nat) (i : Z) (devname : list Z) : K vs (Z * Z) :=
  match n with
  | O => ret (ENODEV, 0)
  | Datatypes.S n' =>
      p <- on_devs (array_getguy i);
      kd <- get_kd p;
      r <- names_dev kd devname;
      match r with
      | Some r => ret r
      | None => getroot_loop n' (i + 1) devname
      end
  end.
(** The error and [*result] *)
Definition vfs_getroot (devname : list Z) : K vs (Z * Z) :=
  _ <- on_kdlock ulock_acquire;
  num <- on_devs array_getnum;
  r <- getroot_loop (Z.to_nat num) 0 devname;
  _ <- on_kdlock ulock_release;
  ret r.
Fixpoint devname_loop (n : nat) (i fs : Z) : K vs (option (list Z)) :=
  match n with
  | O => ret None
  | Datatypes.S n' =>
      p <- on_devs (array_getguy i);
      kd <- get_kd p;
      if bool_decide (kd_fs kd = Some fs) then ret (Some (kd_name kd)) else devname_loop n' (i + 1) fs
  end.
Definition vfs_getdevname (fs : Z) : K vs (option (list Z)) :=
  _ <- on_kdlock ulock_acquire;
  num <- on_devs array_getnum;
  r <- devname_loop (Z.to_nat num) 0 fs;
  _ <- on_kdlock ulock_release;
  ret r.
Fixpoint badnames_loop (n : nat) (i : Z) (n1 n2 n3 : option (list Z)) : K vs bool :=
  match n with
  | O => ret false
  | Datatypes.S n' =>
      p <- on_devs (array_getguy i);
      kd <- get_kd p;
      bad <- match kd_fs kd with
        | Some fs =>
            volname <- on_ops (FSOP_GETVOLNAME fs);
            samestring3 volname n1 n2 n3
        | None => ret false
        end;
      if bad : bool then ret true
      else
        bad <- samestring3 (kd_rawname kd) n1 n2 n3;
        if bad : bool then ret true
        else
          bad <- samestring3 (Some (kd_name kd)) n1 n2 n3;
          if bad : bool then ret true else badnames_loop n' (i + 1) n1 n2 n3
  end.
Definition badnames (n1 n2 n3 : option (list Z)) : K vs bool :=
  _ <- assert_kdlock;
  num <- on_devs array_getnum;
  badnames_loop (Z.to_nat num) 0 n1 n2 n3.
(** At the label [puke] the blocks are given back. *)
Definition vfs_doadd (dname : list Z) (mountable : bool) (dev fs : option Z) : K vs Z :=
  name <- kstrdup dname;
  match name with
  | None => ret ENOMEM
  | Some name =>
      '(ok, rawname) <-
        (if mountable then
           rawname <- mkrawname name;
           ret (bool_decide (rawname ≠ None), rawname)
         else ret (true, None));
      if negb ok then ret ENOMEM
      else
        vnode <- on_ops (dev_create_vnode dev);
        match vnode with
        | None => ret ENOMEM
        | Some vnode =>
            ok <- kmalloc_ok;
            if negb ok then
              _ <- on_ops (kfree_vnode vnode);
              ret ENOMEM
            else
              s <- kget;
              let p := fresh (dom (kds s)) in
              _ <- put_kd p (mkKd name rawname dev vnode fs);
              volname <- match fs with Some fs => on_ops (FSOP_GETVOLNAME fs) | None => ret None end;
              _ <- on_kdlock ulock_acquire;
              bad <- badnames (Some name) rawname volname;
              err <- (if bad : bool then ret EEXIST else on_devs (array_add p));
              _ <- on_kdlock ulock_release;
              ret err
        end
  end.
Definition vfs_adddev (devname : list Z) (dev : Z) (mountable : bool) : K vs Z :=
  vfs_doadd devname mountable (Some dev) None.
Definition vfs_addfs (devname : list Z) (fs : Z) : K vs Z := vfs_doadd devname false None (Some fs).
Fixpoint findmount_loop (n : nat) (i : Z) (devname : list Z) : K vs (option loc) :=
  match n with
  | O => ret None
  | Datatypes.S n' =>
      p <- on_devs (array_getguy i);
      dev <- get_kd p;
      match kd_rawname dev with
      | None => findmount_loop n' (i + 1) devname
      | Some _ =>
          c <- strcmp devname 0 (kd_name dev) 0;
          if c =? 0 then ret (Some p) else findmount_loop n' (i + 1) devname
      end
  end.
(** [*result], and [None] for [ENODEV] *)
Definition findmount (devname : list Z) : K vs (option loc) :=
  _ <- assert_kdlock;
  num <- on_devs array_getnum;
  findmount_loop (Z.to_nat num) 0 devname.
(** [mountfunc] is called with its argument [data]. *)
Definition vfs_mount (devname : list Z) (mountfunc : Z → K D (Z * option Z)) : K vs Z :=
  _ <- on_kdlock ulock_acquire;
  p <- findmount devname;
  result <- match p with
    | None => ret ENODEV
    | Some p =>
        kd <- get_kd p;
        if bool_decide (kd_fs kd ≠ None) then ret EBUSY
        else
          _ <- kassert (bool_decide (kd_rawname kd ≠ None));
          dev <- match kd_device kd with None => panic | Some dev => ret dev end;
          '(result, fs) <- on_ops (mountfunc dev);
          if negb (result =? 0) then ret result
          else
            fs <- match fs with None => panic | Some fs => ret fs end;
            _ <- put_kd p (set_fs (Some fs) kd);
            _ <- on_ops (FSOP_GETVOLNAME fs);
            ret result
    end;
  _ <- on_kdlock ulock_release;
  ret result.
Definition vfs_unmount (devname : list Z) : K vs Z :=
  _ <- on_kdlock ulock_acquire;
  p <- findmount devname;
  result <- match p with
    | None => ret ENODEV
    | Some p =>
        kd <- get_kd p;
        match kd_fs kd with
        | None => ret EINVAL
        | Some fs =>
            _ <- kassert (bool_decide (kd_rawname kd ≠ None));
            _ <- kassert (bool_decide (kd_device kd ≠ None));
            result <- on_ops (FSOP_SYNC fs);
            if negb (result =? 0) then ret result
            else
              result <- on_ops (FSOP_UNMOUNT fs);
              if negb (result =? 0) then ret result
              else
                _ <- put_kd p (set_fs None kd);
                ret result
        end
    end;
  _ <- on_kdlock ulock_release;
  ret result.
Definition unmount_dev (i : Z) : K vs unit :=
  p <- on_devs (array_getguy i);
  dev <- get_kd p;
  match kd_rawname dev, kd_fs dev with
  | Some _, Some fs =>
      result <- on_ops (FSOP_SYNC fs);
      result <-
        (if negb (result =? 0) then
           _ <- strerror result;
           on_ops (FSOP_SYNC fs)
         else ret result);
      if negb (result =? 0) then strerror result
      else
        result <- on_ops (FSOP_UNMOUNT fs);
        if result =? EBUSY then ret tt
        else if negb (result =? 0) then strerror result
        else put_kd p (set_fs None dev)
  | _, _ => ret tt
  end.
Definition vfs_unmountall : K vs Z :=
  _ <- on_kdlock ulock_acquire;
  num <- on_devs array_getnum;
  _ <- kfor (Z.to_nat num) 0 unmount_dev;
  _ <- on_kdlock ulock_release;
  ret 0.

(** ** vfscwd.c *)
(** The error and [*ret] *)
Definition vfs_getcurdir : K vs (Z * Z) :=
  s <- kget;
  match t_cwd s with
  | Some v => _ <- on_ops (VOP_INCREF v); ret (0, v)
  | None => ret (ENOENT, 0)
  end.
Definition drop_vnode (old : option Z) : K vs unit :=
  match old with Some v => on_ops (VOP_DECREF v) | None => ret tt end.
Definition vfs_setcurdir (dir : Z) : K vs Z :=
  '(result, vtype) <- on_ops (VOP_GETTYPE dir);
  if negb (result =? 0) then ret result
  else if negb (S_ISDIR vtype) then ret ENOTDIR
  else
    _ <- on_ops (VOP_INCREF dir);
    s <- kget;
    let old := t_cwd s in
    _ <- kput (set_cwd (Some dir) s);
    _ <- drop_vnode old;
    ret 0.
Definition vfs_clearcurdir : K vs Z :=
  s <- kget;
  let old := t_cwd s in
  _ <- kput (set_cwd None s);
  _ <- drop_vnode old;
  ret 0.

(** ** vfslookup.c *)
Definition vfs_initbootfs : K vs unit :=
  l <- ulock_create;
  match l with None => panic | Some l => modify (set_bootlock (Some l)) end.
Definition change_bootfs (newguy : option Z) : K vs unit :=
  _ <- on_bootlock ulock_acquire;
  s <- kget;
  let oldguy := bootfs_vnode s in
  _ <- kput (set_bootfs newguy s);
  _ <- on_bootlock ulock_release;
  drop_vnode oldguy.
Definition vfs_clearbootfs : K vs unit := change_bootfs None.
(** [for (i=0; path[i]; i++)]: [colon] and [slash] *)
Fixpoint first_sep (fuel : nat) (path : list Z) (i : Z) : K vs (Z * Z) :=
  c <- deref (zlookup path i);
  if c =? 0 then ret (-1, -1)
  else if c =? 58 then ret (i, -1)
  else if c =? 47 then ret (-1, i)
  else match fuel with O => halt Spin | Datatypes.S fuel' => first_sep fuel' path (i + 1) end.
(** [while (path[i]=='/') i++;] *)
Fixpoint skip_slashes (fuel : nat) (path : list Z) (i : Z) : K vs Z :=
  c <- deref (zlookup path i);
  if c =? 47 then match fuel with O => halt Spin | Datatypes.S fuel' => skip_slashes fuel' path (i + 1) end
  else ret i.
(** The vnode for a path that starts with a slash or a colon *)
Definition getdevice_root (c0 : Z) : K vs (Z * Z) :=
  if c0 =? 47 then
    _ <- on_bootlock ulock_acquire;
    s <- kget;
    match bootfs_vnode s with
    | None =>
        _ <- on_bootlock ulock_release;
        ret (ENOENT, 0)
    | Some v =>
        _ <- on_ops (VOP_INCREF v);
        _ <- on_bootlock ulock_release;
        ret (0, v)
    end
  else
    _ <- kassert (c0 =? 58);
    '(result, vn) <- vfs_getcurdir;
    if negb (result =? 0) then ret (result, 0)
    else
      fs <- on_ops (vn_fs vn);
      fs <- match fs with None => panic | Some fs => ret fs end;
      root <- on_ops (FSOP_GETROOT fs);
      _ <- on_ops (VOP_DECREF vn);
      ret (0, root).
(** The error, the buffer with the path, [*subpath] and [*startvn] *)
Definition getdevice (path : list Z) : K vs (Z * list Z * Z * Z) :=
  '(colon, slash) <- first_sep (length path) path 0;
  if (colon <? 0) && negb (slash =? 0) then
    '(result, v) <- vfs_getcurdir;
    ret (result, path, 0, v)
  else if 0 <? colon then
    path <- deref (zinsert colon 0 path);
    subpath <- skip_slashes (length path) path (colon + 1);
    '(result, v) <- vfs_getroot path;
    ret (result, path, subpath, v)
  else
    _ <- kassert ((colon =? 0) || (slash =? 0));
    c0 <- deref (zlookup path 0);
    '(result, v) <- getdevice_root c0;
    if negb (result =? 0) then ret (result, path, 0, 0)
    else
      subpath <- skip_slashes (length path) path 1;
      ret (0, path, subpath, v).
(** The error, [*retval], the name in the buffer of [buflen] characters, and
    the path; [drop] is the buffer from a pointer on. *)
Definition vfs_lookparent (path : list Z) (buflen : Z) : K vs (Z * Z * list Z * list Z) :=
  '(result, path, subpath, startvn) <- getdevice path;
  if negb (result =? 0) then ret (result, 0, [], path)
  else
    n <- strlen path subpath;
    '(result, vn, name) <-
      (if n =? 0 then ret (EINVAL, 0, [])
       else on_ops (VOP_LOOKPARENT startvn (drop (Z.to_nat subpath) path) buflen));
    _ <- on_ops (VOP_DECREF startvn);
    ret (result, vn, name, path).
Definition vfs_lookup (path : list Z) : K vs (Z * Z * list Z) :=
  '(result, path, subpath, startvn) <- getdevice path;
  if negb (result =? 0) then ret (result, 0, path)
  else
    n <- strlen path subpath;
    if n =? 0 then ret (0, startvn, path)
    else
      '(result, vn) <- on_ops (VOP_LOOKUP startvn (drop (Z.to_nat subpath) path));
      _ <- on_ops (VOP_DECREF startvn);
      ret (result, vn, path).
(** [vfs_chdir] and [vfs_getcwd] of vfscwd.c *)
Definition vfs_chdir (path : list Z) : K vs Z :=
  '(result, vn, _) <- vfs_lookup path;
  if negb (result =? 0) then ret result
  else
    result <- vfs_setcurdir vn;
    _ <- on_ops (VOP_DECREF vn);
    ret result.
Definition getcwd_out (cwd result : Z) : K (vs * request) Z :=
  _ <- on_vfs1 (on_ops (VOP_DECREF cwd));
  ret result.
Definition vfs_getcwd : K (vs * request) Z :=
  x <- kget;
  _ <- kassert (bool_decide (rq_rw x.2 = UIO_READ));
  '(result, cwd) <- on_vfs1 vfs_getcurdir;
  if negb (result =? 0) then ret result
  else
    fs <- on_vfs1 (on_ops (vn_fs cwd));
    fs <- match fs with None => panic | Some fs => ret fs end;
    name <- on_vfs1 (on_ops (FSOP_GETVOLNAME fs));
    name <- match name with None => on_vfs1 (vfs_getdevname fs) | Some name => ret (Some name) end;
    name <- match name with None => panic | Some name => ret name end;
    n <- strlen name 0;
    '(result, _) <- on_uio (rq_uiomove (take (Z.to_nat n) name));
    if negb (result =? 0) then getcwd_out cwd result
    else
      '(result, _) <- on_uio (rq_uiomove [58]);
      if negb (result =? 0) then getcwd_out cwd result
      else
        result <- with_uio (VOP_NAMEFILE cwd);
        getcwd_out cwd result.
(** [vfs_setbootfs] of vfslookup.c; the format is "%s". *)
Definition vfs_setbootfs (fsname : list Z) : K vs Z :=
  '(_, tmp) <- snprintf (replicate (Z.to_nat (NAME_MAX + 1)) 0) (NAME_MAX + 1 - 1) [37; 115; 0] [AStr (Some (fsname, 0))];
  s <- strchr tmp 0 58;
  '(bad, tmp) <- match s with
    | Some off => n <- strlen tmp off; ret (0 <? n, tmp)
    | None => tmp <- strcat tmp [58; 0] 0; ret (false, tmp)
    end;
  if bad : bool then ret EINVAL
  else
    result <- vfs_chdir tmp;
    if negb (result =? 0) then ret result
    else
      '(result, newguy) <- vfs_getcurdir;
      if negb (result =? 0) then ret result
      else
        _ <- change_bootfs (Some newguy);
        ret 0.

(** ** vfspath.c *)
(** The error, [*ret], and the path *)
Definition vfs_open (path : list Z) (openflags : Z) : K vs (Z * Z * list Z) :=
  let how := Z.land openflags O_ACCMODE in
  if negb ((how =? O_RDONLY) || (how =? O_WRONLY) || (how =? O_RDWR)) then ret (EINVAL, 0, path)
  else
    let canwrite := (how =? O_WRONLY) || (how =? O_RDWR) in
    '(result, vn, path) <-
      (if negb (Z.land openflags O_CREAT =? 0) then
         let excl := negb (Z.land openflags O_EXCL =? 0) in
         '(result, dir, name, path) <- vfs_lookparent path (NAME_MAX + 1);
         if negb (result =? 0) then ret (result, 0, path)
         else
           '(result, vn) <- on_ops (VOP_CREAT dir name excl);
           _ <- on_ops (VOP_DECREF dir);
           ret (result, vn, path)
       else vfs_lookup path);
    if negb (result =? 0) then ret (result, 0, path)
    else
      result <- on_ops (VOP_OPEN vn openflags);
      if negb (result =? 0) then
        _ <- on_ops (VOP_DECREF vn);
        ret (result, 0, path)
      else
        _ <- on_ops (VOP_INCOPEN vn);
        result <-
          (if negb (Z.land openflags O_TRUNC =? 0) then
             if negb canwrite then ret EINVAL else on_ops (VOP_TRUNCATE vn 0)
           else ret 0);
        if negb (result =? 0) then
          _ <- on_ops (VOP_DECOPEN vn);
          _ <- on_ops (VOP_DECREF vn);
          ret (result, 0, path)
        else ret (0, vn, path).
Definition vfs_close (vn : Z) : K vs unit :=
  _ <- on_ops (VOP_DECOPEN vn);
  on_ops (VOP_DECREF vn).
(** An operation on a name in a directory: [vfs_remove], [vfs_mkdir],
    [vfs_rmdir] and [vfs_symlink] *)
Definition in_parent (path : list Z) (op : Z → list Z → K D Z) : K vs Z :=
  '(result, dir, name, _) <- vfs_lookparent path (NAME_MAX + 1);
  if negb (result =? 0) then ret result
  else
    result <- on_ops (op dir name);
    _ <- on_ops (VOP_DECREF dir);
    ret result.
Definition vfs_remove (path : list Z) : K vs Z := in_parent path VOP_REMOVE.
Definition vfs_mkdir (path : list Z) : K vs Z := in_parent path VOP_MKDIR.
Definition vfs_rmdir (path : list Z) : K vs Z := in_parent path VOP_RMDIR.
Definition vfs_symlink (contents path : list Z) : K vs Z := in_parent path (λ dir name, VOP_SYMLINK dir name contents).
(** [a->vn_fs==NULL || b->vn_fs==NULL || a->vn_fs != b->vn_fs] *)
Definition other_fs (a b : Z) : K vs bool :=
  fa <- on_ops (vn_fs a);
  fb <- on_ops (vn_fs b);
  ret (bool_decide (fa = None) || bool_decide (fb = None) || bool_decide (fa ≠ fb)).
Definition vfs_rename (oldpath newpath : list Z) : K vs Z :=
  '(result, olddir, oldname, _) <- vfs_lookparent oldpath (NAME_MAX + 1);
  if negb (result =? 0) then ret result
  else
    '(result, newdir, newname, _) <- vfs_lookparent newpath (NAME_MAX + 1);
    if negb (result =? 0) then
      _ <- on_ops (VOP_DECREF olddir);
      ret result
    else
      other <- other_fs olddir newdir;
      result <- (if other : bool then ret EXDEV else on_ops (VOP_RENAME olddir oldname newdir newname));
      _ <- on_ops (VOP_DECREF newdir);
      _ <- on_ops (VOP_DECREF olddir);
      ret result.
Definition vfs_link (oldpath newpath : list Z) : K vs Z :=
  '(result, oldfile, _) <- vfs_lookup oldpath;
  if negb (result =? 0) then ret result
  else
    '(result, newdir, newname, _) <- vfs_lookparent newpath (NAME_MAX + 1);
    if negb (result =? 0) then
      _ <- on_ops (VOP_DECREF oldfile);
      ret result
    else
      other <- other_fs oldfile newdir;
      result <- (if other : bool then ret EXDEV else on_ops (VOP_LINK newdir newname oldfile));
      _ <- on_ops (VOP_DECREF newdir);
      _ <- on_ops (VOP_DECREF oldfile);
      ret result.
Definition vfs_readlink (path : list Z) : K (vs * request) Z :=
  '(result, vn, _) <- on_vfs1 (vfs_lookup path);
  if negb (result =? 0) then ret result
  else
    result <- with_uio (VOP_READLINK vn);
    _ <- on_vfs1 (on_ops (VOP_DECREF vn));
    ret result.
End Vfs.
