(* ===== verification/Device.v ===== *)
(** * Devices, src/kern/fs/vfs/device.c and devnull.c

    The vnodes of devices, with the operations that vnodes have, the null
    device, and [vfs_bootstrap] of vfslist.c.  A device is the null device or a
    disk of Disk.v; it and its vnode are named by a number.  There are no file
    systems in this world: SFS, which has vnodes too, is in Sfs.v.  A [uio] is
    a [request] of Request.v. *)
From S2P Require Import Prelude Array LinkedList CString Printf Request Uio Disk Vnode SfsVnode Files Vfs.

Definition S_IFCHR : Z := 16384.
Definition S_IFBLK : Z := 20480.

(** ** The null device, devnull.c *)
Definition nullopen (openflags : Z) : Z := 0.
Definition nullclose : Z := 0.
Definition nullio : K request Z :=
  uio <- kget;
  _ <- (if bool_decide (rq_rw uio = UIO_WRITE) then kput (set_resid 0 uio) else ret tt);
  ret 0.
Definition nullioctl (op : Z) : Z := EINVAL.

Section Device.
  Context {H : Type} `{!LhdHw H}.

(** [struct device] with the functions of its driver *)
Inductive device : Type := nulldev | lhddev (l : lhd_softc H).
Definition dev_blocks (d : device) : Z := match d with nulldev => 0 | lhddev l => d_blocks l end.
Definition dev_blocksize (d : device) : Z := match d with nulldev => 1 | lhddev _ => LHD_SECTSIZE end.
(** A vnode with its members [vn_fs] and [vn_data] *)
Record dvnode : Type := mkDv { dv_vnode : vnode; dv_fs : option Z; dv_data : option Z }.
Record devworld : Type := mkDw { dw_devs : gmap Z device; dw_vnodes : gmap Z dvnode }.
Definition set_devices (x : gmap Z device) (w : devworld) : devworld := mkDw x (dw_vnodes w).
Definition set_vnodes (x : gmap Z dvnode) (w : devworld) : devworld := mkDw (dw_devs w) x.
Abbreviation dw := devworld.

Definition get_dv (v : Z) : K dw dvnode := w <- kget; deref (dw_vnodes w !! v).
Definition on_dv (v : Z) (A : Type) (m : K vnode A) : K dw A :=
  x <- get_dv v;
  '(a, vn) <- run_on m (dv_vnode x);
  _ <- modify (λ w, set_vnodes (<[v := mkDv vn (dv_fs x) (dv_data x)]> (dw_vnodes w)) w);
  ret a.
(** [struct device *d = v->vn_data]: its number and its members *)
Definition vn_data (v : Z) : K dw (Z * device) :=
  x <- get_dv v;
  p <- deref (dv_data x);
  w <- kget;
  d <- deref (dw_devs w !! p);
  ret (p, d).
Definition on_dev1 {A} (m : K dw A) : K (dw * request) A := zoom fst (λ w x, (w, x.2)) m.
Definition on_req {A} (m : K request A) : K (dw * request) A := zoom snd (λ r x, (x.1, r)) m.

(** The functions of the driver *)
Definition d_open (d : device) (flags : Z) : Z := match d with nulldev => nullopen flags | lhddev _ => lhd_open flags end.
Definition d_close (d : device) : Z := match d with nulldev => nullclose | lhddev _ => lhd_close end.
Definition d_ioctl (d : device) (op : Z) : Z := match d with nulldev => nullioctl op | lhddev _ => lhd_ioctl op end.
Definition d_io (p : Z) (d : device) : K (dw * request) Z :=
  match d with
  | nulldev => on_req nullio
  | lhddev l =>
      x <- kget;
      '(r, y) <- run_on lhd_io (l, x.2);
      _ <- kput (set_devices (<[p := lhddev y.1]> (dw_devs x.1)) x.1, y.2);
      ret r
  end.

(** ** device.c *)
Definition dev_open (v flags : Z) : K dw Z :=
  '(_, d) <- vn_data v;
  if negb (Z.land flags (Z.lor (Z.lor (Z.lor O_CREAT O_TRUNC) O_EXCL) O_APPEND) =? 0) then ret EINVAL else ret (d_open d flags).
Definition dev_close (v : Z) : K dw Z :=
  '(_, d) <- vn_data v;
  ret (d_close d).
Definition dev_reclaim (v : Z) : K dw Z := ret 0.
Definition dev_read (v : Z) : K (dw * request) Z :=
  '(p, d) <- on_dev1 (vn_data v);
  x <- kget;
  _ <- kassert (bool_decide (rq_rw x.2 = UIO_READ));
  d_io p d.
Definition null_io (v : Z) : K (dw * request) Z := ret EINVAL.
Definition dev_write (v : Z) : K (dw * request) Z :=
  '(p, d) <- on_dev1 (vn_data v);
  x <- kget;
  _ <- kassert (bool_decide (rq_rw x.2 = UIO_WRITE));
  d_io p d.
Definition dev_ioctl (v op : Z) : K dw Z :=
  '(_, d) <- vn_data v;
  ret (d_ioctl d op).
(** The error and [*ret] *)
Definition dev_gettype (v : Z) : K dw (Z * Z) :=
  '(_, d) <- vn_data v;
  ret (0, if 0 <? dev_blocks d then S_IFBLK else S_IFCHR).
(** The macro [__VOP]: the check before an operation *)
Definition vop_check (v : Z) : K dw unit := on_dv v _ (vnode_check false).
(** The error and [*statbuf] *)
Definition dev_stat (v : Z) : K dw (Z * stat) :=
  '(_, d) <- vn_data v;
  _ <- vop_check v;
  '(result, mode) <- dev_gettype v;
  if negb (result =? 0) then ret (result, mkStat mode 0 0 0)
  else ret (0, mkStat mode 1 (if 0 <? dev_blocks d then s32 (dev_blocks d * dev_blocksize d) else 0) (dev_blocks d)).
(** [pos % d->d_blocksize] and [pos / d->d_blocksize] are unsigned. *)
Definition dev_tryseek (v pos : Z) : K dw Z :=
  '(_, d) <- vn_data v;
  if 0 <? dev_blocks d then
    if negb (u32 pos mod dev_blocksize d =? 0) then ret EINVAL
    else if pos <? 0 then ret EINVAL
    else if dev_blocks d <=? u32 pos / dev_blocksize d then ret EINVAL
    else ret 0
  else ret ESPIPE.
Definition null_fsync (v : Z) : K dw Z := ret 0.
Definition dev_mmap (v : Z) : K dw Z := ret EUNIMP.
Definition dev_truncate (v len : Z) : K dw Z :=
  '(_, d) <- vn_data v;
  if (0 <? dev_blocks d) && (s32 (dev_blocks d * dev_blocksize d) =? len) then ret 0 else ret EINVAL.
Definition dev_namefile (v : Z) : K (dw * request) Z := ret 0.
Definition null_creat (v : Z) (name : list Z) (excl : bool) : K dw (Z * Z) := ret (ENOTDIR, 0).
Definition null_symlink (v : Z) (contents name : list Z) : K dw Z := ret ENOTDIR.
Definition null_nameop (v : Z) (name : list Z) : K dw Z := ret ENOTDIR.
Definition null_link (v : Z) (name : list Z) (file : Z) : K dw Z := ret ENOTDIR.
Definition null_rename (v : Z) (n1 : list Z) (v2 : Z) (n2 : list Z) : K dw Z := ret ENOTDIR.
Definition dev_lookup (dir : Z) (pathname : list Z) : K dw (Z * Z) :=
  n <- strlen pathname 0;
  if 0 <? n then ret (ENOENT, 0)
  else
    _ <- on_dv dir _ vnode_incref;
    ret (0, dir).
Definition dev_lookparent (dir : Z) (pathname : list Z) (buflen : Z) : K dw (Z * Z * list Z) := ret (ENOTDIR, 0, []).
(** [NULL] only if there is no memory for the vnode itself *)
Definition dev_create_vnode_ (dev : option Z) : K dw (option Z) :=
  ok <- kmalloc_ok;
  if negb ok then ret None
  else
    '(result, vn) <- vnode_init dev_vnode_ops;
    if negb (result =? 0) then
      _ <- strerror result;
      panic
    else
      w <- kget;
      let v := fresh (dom (dw_vnodes w)) in
      _ <- kput (set_vnodes (<[v := mkDv vn None dev]> (dw_vnodes w)) w);
      ret (Some v).

(** The table of operations, behind the macros of vnode.h; no [struct fs] is
    there to be called. *)
Definition vop {A} (v : Z) (m : K dw A) : K dw A := _ <- vop_check v; m.
Definition vop_uio (v : Z) (m : K (dw * request) Z) : K (dw * request) Z := _ <- on_dev1 (vop_check v); m.
#[export] Instance dev_vnodes : VnodeOps devworld := {
  VOP_INCREF v := on_dv v _ vnode_incref;
  VOP_DECREF v := vnode_decref (on_dv v) (_ <- on_dv v _ (vnode_check true); dev_reclaim v);
  VOP_INCOPEN v := on_dv v _ vnode_incopen;
  VOP_DECOPEN v := vnode_decopen (on_dv v) (vop v (dev_close v));
  VOP_OPEN v flags := vop v (dev_open v flags);
  VOP_TRUNCATE v len := vop v (dev_truncate v len);
  VOP_CREAT v name excl := vop v (null_creat v name excl);
  VOP_LOOKUP v path := vop v (dev_lookup v path);
  VOP_LOOKPARENT v path n := vop v (dev_lookparent v path n);
  VOP_REMOVE v name := vop v (null_nameop v name);
  VOP_MKDIR v name := vop v (null_nameop v name);
  VOP_RMDIR v name := vop v (null_nameop v name);
  VOP_RENAME v n1 w n2 := vop v (null_rename v n1 w n2);
  VOP_LINK v name w := vop v (null_link v name w);
  VOP_SYMLINK v name contents := vop v (null_symlink v name contents); (** as the macro has it *)
  VOP_READLINK v := vop_uio v (null_io v);
  VOP_NAMEFILE v := vop_uio v (dev_namefile v);
  VOP_GETTYPE v := vop v (dev_gettype v);
  vn_fs v := x <- get_dv v; ret (dv_fs x);
  FSOP_SYNC f := halt Fault;
  FSOP_GETVOLNAME f := halt Fault;
  FSOP_GETROOT f := halt Fault;
  FSOP_UNMOUNT f := halt Fault;
  dev_create_vnode := dev_create_vnode_;
  kfree_vnode v := modify (λ w, set_vnodes (delete v (dw_vnodes w)) w);
}.

(** "null" *)
Definition null_name : list Z := [110; 117; 108; 108; 0].
Definition devnull_create : K (vfs devworld) unit :=
  ok <- kmalloc_ok;
  if negb ok then panic
  else
    s <- kget;
    let dev := fresh (dom (dw_devs (vs_ops s))) in
    _ <- kput (set_ops (set_devices (<[dev := nulldev]> (dw_devs (vs_ops s))) (vs_ops s)) s);
    result <- vfs_adddev null_name dev false;
    if negb (result =? 0) then
      _ <- strerror result;
      panic
    else ret tt.
(** [vfs_bootstrap] of vfslist.c *)
Definition vfs_bootstrap : K (vfs devworld) unit :=
  a <- array_create;
  match a with
  | None => panic
  | Some a =>
      _ <- modify (set_devs (Some a));
      l <- ulock_create;
      match l with
      | None => panic
      | Some l =>
          _ <- modify (set_kdlock (Some l));
          _ <- vfs_initbootfs;
          devnull_create
      end
  end.
End Device.
Arguments device H : clear implicits.
Arguments devworld H : clear implicits.
