(* ===== verification/VfsSpec.v ===== *)
(** * The virtual file system: names, devices and references

    [parse] is what a path name means; [getdevice] finds the same device and
    the same rest of the path.  The table of devices is a list in which every
    name occurs once.  No operation on path names loses or invents a reference
    to a vnode, on any path through its errors. *)
From S2P Require Import Prelude Array LinkedList CString Printf Request Uio Vnode SfsVnode Files Vfs.

(** ** What the vnodes and file systems promise (src/kern/include/vnode.h and
    fs.h): [vrefs] and [vopens] are the two counts of a vnode; an operation
    that returns a vnode returns a new reference to it; [fs_ok] says that a
    file system is there, from when it is mounted to when it is unmounted; its
    name and its root, and the file system of a vnode in use, are fixed. *)
Definition none (w : Z) : Z := 0.
Definition one (v w : Z) : Z := if decide (w = v) then 1 else 0.
(** a reference to [v] if the error is zero *)
Definition given (r v : Z) : Z → Z := if r =? 0 then one v else none.

Definition is_str (p : list Z) : Prop := ∃ xs, has_str p 0 xs.

Class VnodeLaws (D : Type) `{!VnodeOps D} : Type := {
  vn_ok : D → Prop;
  vrefs : D → Z → Z;
  vopens : D → Z → Z;
  fs_ok : D → Z → Prop;
  dev_ok : D → Z → Prop; (** the device is there *)
  volname : D → Z → option (list Z);
  fsroot : D → Z → Z;
  vnfs : D → Z → option Z;
  (** the file system [f] is as it was *)
  fs_same (d d' : D) (f : Z) : Prop := fs_ok d f → fs_ok d' f ∧ volname d' f = volname d f ∧ fsroot d' f = fsroot d f;
  (** [vcounts d d' dr dn]: the counts change by [dr] and [dn]. *)
  vcounts (d d' : D) (dr dn : Z → Z) : Prop :=
    vn_ok d' ∧ (∀ w, vrefs d' w = vrefs d w + dr w) ∧ (∀ w, vopens d' w = vopens d w + dn w) ∧
    (∀ w, 0 < vrefs d w → vnfs d' w = vnfs d w);
  vkeep (d d' : D) (dr dn : Z → Z) : Prop := vcounts d d' dr dn ∧ ∀ f, fs_same d d' f;
  (** a vnode that was not in use belongs to a file system *)
  vstep (d d' : D) (dr dn : Z → Z) : Prop :=
    vkeep d d' dr dn ∧ ∀ w, vrefs d w ≤ 0 → 0 < vrefs d' w → vnfs d' w ≠ None;
  (** The counts are machine integers. *)
  room (d : D) : Prop := ∀ w, vrefs d w < 2 ^ 31 - 1;
  (** [vcall m dr dn d]: [m] returns from [d], with such a change. *)
  vcall {A} (m : K D A) (dr dn : A → Z → Z) (d : D) : Prop :=
    vn_ok d → room d → ∀ o, wp m (λ a d' o', vstep d d' (dr a) (dn a) ∧ (plenty o → plenty o')) d o;
  volname_str d f s : vn_ok d → fs_ok d f → volname d f = Some s → ∃ xs, has_str s 0 xs;
  vnfs_ok d v f : vn_ok d → 0 < vrefs d v → vnfs d v = Some f → fs_ok d f;
  incref_ok d v : 0 < vrefs d v → vcall (VOP_INCREF v) (λ _, one v) (λ _, none) d;
  (** the last reference to a vnode of a device is never dropped *)
  decref_ok d v : vopens d v < vrefs d v → (vnfs d v = None → 1 < vrefs d v) → vcall (VOP_DECREF v) (λ _ w, - one v w) (λ _, none) d;
  incopen_ok d v : vopens d v < vrefs d v → vcall (VOP_INCOPEN v) (λ _, none) (λ _, one v) d;
  decopen_ok d v : 0 < vopens d v → vcall (VOP_DECOPEN v) (λ _, none) (λ _ w, - one v w) d;
  open_ok d v flags : 0 < vrefs d v → vcall (VOP_OPEN v flags) (λ _, none) (λ _, none) d;
  truncate_ok d v len : 0 < vrefs d v → vcall (VOP_TRUNCATE v len) (λ _, none) (λ _, none) d;
  creat_ok d v name excl : 0 < vrefs d v → is_str name → vcall (VOP_CREAT v name excl) (λ r, given r.1 r.2) (λ _, none) d;
  lookup_ok d v path : 0 < vrefs d v → is_str path → vcall (VOP_LOOKUP v path) (λ r, given r.1 r.2) (λ _, none) d;
  lookparent_ok d v path n : 0 < vrefs d v → is_str path →
    vcall (VOP_LOOKPARENT v path n) (λ r, given r.1.1 r.1.2) (λ _, none) d;
  lookparent_name d v path n o : vn_ok d → room d → 0 < vrefs d v → is_str path →
    wp (VOP_LOOKPARENT v path n) (λ r _ _, r.1.1 = 0 → is_str r.2) d o;
  remove_ok d v name : 0 < vrefs d v → is_str name → vcall (VOP_REMOVE v name) (λ _, none) (λ _, none) d;
  mkdir_ok d v name : 0 < vrefs d v → is_str name → vcall (VOP_MKDIR v name) (λ _, none) (λ _, none) d;
  rmdir_ok d v name : 0 < vrefs d v → is_str name → vcall (VOP_RMDIR v name) (λ _, none) (λ _, none) d;
  rename_ok d v n1 w n2 : 0 < vrefs d v → 0 < vrefs d w → is_str n1 → is_str n2 → vcall (VOP_RENAME v n1 w n2) (λ _, none) (λ _, none) d;
  link_ok d v name w : 0 < vrefs d v → 0 < vrefs d w → is_str name → vcall (VOP_LINK v name w) (λ _, none) (λ _, none) d;
  symlink_ok d v name c : 0 < vrefs d v → is_str name → is_str c → vcall (VOP_SYMLINK v name c) (λ _, none) (λ _, none) d;
  (** the vnode of a device is not a directory *)
  gettype_ok d v : 0 < vrefs d v → vcall (VOP_GETTYPE v) (λ _, none) (λ _, none) d;
  gettype_dir d v o : vn_ok d → room d → 0 < vrefs d v →
    wp (VOP_GETTYPE v) (λ r _ _, r.1 = 0 → S_ISDIR r.2 = true → vnfs d v ≠ None) d o;
  vn_fs_ok d v o : vn_ok d → 0 < vrefs d v → wp (vn_fs v) (λ r d' o', r = vnfs d v ∧ d' = d ∧ o' = o) d o;
  sync_ok d f : fs_ok d f → vcall (FSOP_SYNC f) (λ _, none) (λ _, none) d;
  getvolname_ok d f o : vn_ok d → fs_ok d f → wp (FSOP_GETVOLNAME f) (λ r d' o', r = volname d f ∧ d' = d ∧ o' = o) d o;
  getroot_ok d f o : vn_ok d → room d → fs_ok d f →
    wp (FSOP_GETROOT f) (λ r d' o', r = fsroot d f ∧ vstep d d' (one r) none ∧ (plenty o → plenty o')) d o;
  unmount_ok d f o : vn_ok d → room d → fs_ok d f →
    wp (FSOP_UNMOUNT f) (λ r d' o', vcounts d d' none none ∧ (∀ w, vrefs d w ≤ 0 → vrefs d' w ≤ 0) ∧ (plenty o → plenty o') ∧
      ∀ g, g ≠ f ∨ r ≠ 0 → fs_same d d' g) d o;
  (** their errors are those that have a text *)
  sync_err d f o : vn_ok d → room d → fs_ok d f → wp (FSOP_SYNC f) (λ r _ _, 0 ≤ r < sys_nerr) d o;
  unmount_err d f o : vn_ok d → room d → fs_ok d f → wp (FSOP_UNMOUNT f) (λ r _ _, 0 ≤ r < sys_nerr) d o;
  (** without memory for the lock of a new vnode the kernel panics *)
  create_vnode_ok d dev o : vn_ok d → room d → dev_ok d dev → plenty o →
    wp (dev_create_vnode (Some dev)) (λ r d' o', plenty o' ∧ ∃ v, r = Some v ∧ vrefs d v ≤ 0 ∧ vnfs d' v = None ∧ vkeep d d' (one v) none) d o;
}.

(** ** Strings *)
Lemma wp_strlen {S} (s : list Z) off xs (Q : Z → S → oracle → Prop) st o :
  has_str s off xs → Q (Z.of_nat (length xs)) st o → wp (strlen s off) Q st o.
Proof. intros Hs HQ. unfold wp. by rewrite (strlen_spec xs). Qed.
Lemma wp_strcmp {S} (a b : list Z) xs ys (Q : Z → S → oracle → Prop) st o :
  has_str a 0 xs → has_str b 0 ys → (∀ c, (c =? 0) = bool_decide (xs = ys) → Q c st o) → wp (strcmp a 0 b 0) Q st o.
Proof.
  intros Ha Hb HQ. unfold wp. destruct (strcmp_spec xs ys a 0 b 0 st o Ha Hb) as (r & -> & Hr). apply HQ.
  destruct (Z.eqb_spec r 0), (bool_decide_reflect (xs = ys)); naive_solver.
Qed.
Definition opt_str (s : option (list Z)) (xs : option (list Z)) : Prop :=
  match s, xs with Some s, Some xs => has_str s 0 xs | None, None => True | _, _ => False end.
Definition same_str (xs ys : option (list Z)) : bool :=
  match xs, ys with Some xs, Some ys => bool_decide (xs = ys) | _, _ => false end.
Lemma samestring_spec {S} a b xs ys (st : S) o :
  opt_str a xs → opt_str b ys → wp (samestring a b) (λ r s' o', r = same_str xs ys ∧ s' = st ∧ o' = o) st o.
Proof.
  intros Ha Hb. destruct a as [a|], xs as [xs|]; try done.
  destruct b as [b|], ys as [ys|]; try done.
  cbn [samestring]. wp_step. eapply wp_strcmp; [done..|]. intros c Hc. wp_step. by rewrite Hc.
Qed.
Definition same_str3 (a b c d : option (list Z)) : bool := same_str a b || same_str a c || same_str a d.
Lemma samestring3_spec {S} a b c d xa xb xc xd (st : S) o :
  opt_str a xa → opt_str b xb → opt_str c xc → opt_str d xd →
  wp (samestring3 a b c d) (λ r s' o', r = same_str3 xa xb xc xd ∧ s' = st ∧ o' = o) st o.
Proof.
  intros Ha Hb Hc Hd. unfold samestring3, same_str3. wp_step.
  wp_call (samestring_spec _ _ _ _ _ _ Ha Hb). intros r s' o' (-> & -> & ->). destruct (same_str xa xb); [by wp_step|].
  wp_step. wp_call (samestring_spec _ _ _ _ _ _ Ha Hc). intros r s' o' (-> & -> & ->). destruct (same_str xa xc); [by wp_step|].
  wp_call (samestring_spec _ _ _ _ _ _ Ha Hd). intros r s' o' (-> & -> & ->). done.
Qed.

(** ** The state *)
Record kdv : Type := mkKdv {
  kv_name : list Z;
  kv_raw : option (list Z);
  kv_dev : option Z;
  kv_vnode : Z;
  kv_fs : option Z;
}.
Definition kd_rep (kd : knowndev) (k : kdv) : Prop :=
  has_str (kd_name kd) 0 (kv_name k) ∧ opt_str (kd_rawname kd) (kv_raw k) ∧
  kd_device kd = kv_dev k ∧ kd_vnode kd = kv_vnode k ∧ kd_fs kd = kv_fs k.
(** A device without file system, or one that can be mounted, is there. *)
Definition kv_ok (k : kdv) : Prop := kv_fs k = None ∨ kv_raw k ≠ None → kv_dev k ≠ None.
(** The names of the devices: each occurs once. *)
Definition kv_names (k : kdv) : list (list Z) := kv_name k :: option_list (kv_raw k).
Definition dev_names (L : list (loc * kdv)) : list (list Z) := concat (kv_names <$> L.*2).
Definition kd_idle : ulock := mkUlock false true.
Definition kd_held : ulock := mkUlock true true.

Section VfsSpec.
  Context {D : Type} `{!VnodeOps D, !VnodeLaws D}.
  Abbreviation vs := (vfs D).
  Implicit Types (s : vs) (lk : ulock) (L : list (loc * kdv)) (E O : Z → Z) (d : D).

Record table_ok L s : Prop := mkTableOk {
  to_arr : ∃ a, knowndevs s = Some a ∧ array_rep a L.*1;
  to_len : Z.of_nat (length L) < 2 ^ 28;
  to_nodup : NoDup L.*1;
  to_devs : ∀ p k, (p, k) ∈ L → kv_ok k ∧ ∃ kd, kds s !! p = Some kd ∧ kd_rep kd k;
  to_names : NoDup (dev_names L);
}.
(** The references of the table, of the current directory and of the boot
    file system *)
Definition kd_refs L (v : Z) : Z := Z.of_nat (length (filter (λ x, kv_vnode x.2 = v) L)).
Definition is_vnode (o : option Z) (v : Z) : Z := if decide (o = Some v) then 1 else 0.
Definition kept_refs L s (v : Z) : Z := kd_refs L v + is_vnode (t_cwd s) v + is_vnode (bootfs_vnode s) v.
(** The mounted file systems are there, and are mounted once. *)
Definition fs_table L d : Prop :=
  (∀ p k f, (p, k) ∈ L → kv_fs k = Some f → fs_ok d f) ∧ NoDup (omap kv_fs L.*2).
(** [E v] references to [v] and [O v] opens belong to the callers; they have
    at most [n] to one vnode.  The current directory is in a file system. *)
Record vfs_ok lk L E O (n : Z) s : Prop := mkVfsOk {
  vo_ok : vn_ok (vs_ops s);
  vo_refs : ∀ v, vrefs (vs_ops s) v = E v + kept_refs L s v;
  vo_opens : ∀ v, vopens (vs_ops s) v = O v;
  vo_callers : ∀ v, 0 ≤ O v ≤ E v;
  vo_max : ∀ v, E v ≤ n;
  vo_devs : ∀ v, 0 < vrefs (vs_ops s) v → vnfs (vs_ops s) v = None → 0 < kd_refs L v;
  vo_cwd : ∀ v, t_cwd s = Some v → vnfs (vs_ops s) v ≠ None;
  vo_table : table_ok L s;
  vo_lock : knowndevs_lock s = Some lk;
  vo_boot : bootfs_lock s = Some kd_idle;
  vo_fs : fs_table L (vs_ops s);
}.
Definition up (E : Z → Z) (v : Z) : Z → Z := λ w, E w + one v w.
Definition down (E : Z → Z) (v : Z) : Z → Z := λ w, E w - one v w.

(** ** Calls of the vnodes *)
Lemma one_bound v w : 0 ≤ one v w ≤ 1.
Proof. unfold one. case_decide; lia. Qed.
Lemma one_self v : one v v = 1.
Proof. unfold one. by rewrite decide_True. Qed.
Lemma kd_refs_nonneg L v : 0 ≤ kd_refs L v.
Proof. unfold kd_refs. lia. Qed.
Lemma is_vnode_bound o v : 0 ≤ is_vnode o v ≤ 1.
Proof. unfold is_vnode. case_decide; lia. Qed.
Lemma kept_nonneg L s v : 0 ≤ kept_refs L s v.
Proof.
  unfold kept_refs. pose proof (kd_refs_nonneg L v). pose proof (is_vnode_bound (t_cwd s) v).
  pose proof (is_vnode_bound (bootfs_vnode s) v). lia.
Qed.
Lemma vfs_ok_ext lk L E O E' O' n s :
  (∀ w, E w = E' w) → (∀ w, O w = O' w) → vfs_ok lk L E O n s → vfs_ok lk L E' O' n s.
Proof.
  intros HE HO [? Hr Ho Hc Hm ? ? ? ? ? ?]. split; try done.
  - intros v. by rewrite Hr, HE.
  - intros v. by rewrite Ho, HO.
  - intros v. rewrite <- HE, <- HO. apply Hc.
  - intros v. rewrite <- HE. apply Hm.
Qed.
Lemma vfs_ok_max lk L E O n m s : (∀ v, E v ≤ m) → vfs_ok lk L E O n s → vfs_ok lk L E O m s.
Proof. intros Hle [? ? ? ? ? ? ? ? ? ? ?]. by split. Qed.
Lemma vfs_ok_le lk L E O n m s : n ≤ m → vfs_ok lk L E O n s → vfs_ok lk L E O m s.
Proof. intros Hle Hs. eapply vfs_ok_max; [|done]. intros v. pose proof (vo_max _ _ _ _ _ _ Hs v). lia. Qed.
Lemma cwd_used lk L E O n s v : vfs_ok lk L E O n s → t_cwd s = Some v → 0 < vrefs (vs_ops s) v.
Proof.
  intros Hs Hv. rewrite (vo_refs _ _ _ _ _ _ Hs). unfold kept_refs. pose proof (kd_refs_nonneg L v).
  pose proof (is_vnode_bound (bootfs_vnode s) v). pose proof (vo_callers _ _ _ _ _ _ Hs v).
  unfold is_vnode at 1. rewrite decide_True by done. lia.
Qed.
Lemma boot_used lk L E O n s v : vfs_ok lk L E O n s → bootfs_vnode s = Some v → 0 < vrefs (vs_ops s) v.
Proof.
  intros Hs Hv. rewrite (vo_refs _ _ _ _ _ _ Hs). unfold kept_refs. pose proof (kd_refs_nonneg L v).
  pose proof (is_vnode_bound (t_cwd s) v). pose proof (vo_callers _ _ _ _ _ _ Hs v).
  unfold is_vnode at 2. rewrite decide_True by done. lia.
Qed.
Lemma fs_table_same L d d' : fs_table L d → (∀ f, fs_same d d' f) → fs_table L d'.
Proof. intros [Hf Hn] Hs. split; [|done]. intros p k f Hin Hk. by apply Hs, (Hf p k). Qed.
Lemma vfs_ok_step lk L E O n m s d' dr dn :
  vfs_ok lk L E O n s → vstep (vs_ops s) d' dr dn → (∀ w, 0 ≤ O w + dn w ≤ E w + dr w) → (∀ w, dr w ≤ m) →
  vfs_ok lk L (λ w, E w + dr w) (λ w, O w + dn w) (n + m) (set_ops d' s).
Proof.
  intros Hs [[(Hok' & Hr' & Ho' & Hfs) Hsame] Hnew] Hc' Hm'. pose proof (λ v, cwd_used _ _ _ _ _ _ v Hs) as Hu.
  destruct Hs as [Hok Hr Ho Hc Hm Hd Hcwd Ht ? ? Hft]. split; cbn [vs_ops set_ops t_cwd]; try done.
  - intros v. rewrite Hr', Hr. unfold kept_refs. simpl. lia.
  - intros v. by rewrite Ho', Ho.
  - intros v. pose proof (Hm v). pose proof (Hm' v). lia.
  - intros v Hv Hn. destruct (decide (0 < vrefs (vs_ops s) v)) as [Hp|Hp].
    + apply Hd; [done|]. by rewrite <- Hfs.
    + by destruct (Hnew v ltac:(lia) Hv).
  - intros v Hv. rewrite Hfs; [by apply Hcwd|by apply Hu].
  - destruct Ht. by split.
  - by eapply fs_table_same.
Qed.
Lemma caller_ref lk L E O n s v : vfs_ok lk L E O n s → 0 < E v → 0 < vrefs (vs_ops s) v.
Proof. intros Hs Hv. rewrite (vo_refs _ _ _ _ _ _ Hs). pose proof (kept_nonneg L s v). lia. Qed.
Lemma vfs_room lk L E O n s : vfs_ok lk L E O n s → n < 2 ^ 30 → room (vs_ops s).
Proof.
  intros Hs Hn w. rewrite (vo_refs _ _ _ _ _ _ Hs). unfold kept_refs. pose proof (vo_max _ _ _ _ _ _ Hs w).
  pose proof (is_vnode_bound (t_cwd s) w). pose proof (is_vnode_bound (bootfs_vnode s) w).
  pose proof (to_len _ _ (vo_table _ _ _ _ _ _ Hs)). unfold kd_refs. pose proof (length_filter (λ x, kv_vnode x.2 = w) L). lia.
Qed.
Lemma wp_ops {A} (m : K D A) (Q : A → vs → oracle → Prop) s o :
  wp m (λ a d' o', Q a (set_ops d' s) o') (vs_ops s) o → wp (on_ops m) Q s o.
Proof. intros Hm. unfold on_ops. by wp_step. Qed.

Section Calls.
  Context (lk : ulock) (L : list (loc * kdv)) (E O : Z → Z) (n : Z) (s : vs).
  Hypothesis Hs : vfs_ok lk L E O n s.
  Hypothesis Hn : n < 2 ^ 30.
(** a call that changes no count *)
Lemma call_same {A} (m : K D A) (Q : A → vs → oracle → Prop) o :
  vcall m (λ _, none) (λ _, none) (vs_ops s) →
  (∀ a d' o', vfs_ok lk L E O n (set_ops d' s) → (plenty o → plenty o') → Q a (set_ops d' s) o') → wp (on_ops m) Q s o.
Proof.
  intros Hm HQ. apply wp_ops. wp_call Hm; [apply Hs|by eapply vfs_room|]. intros a d' o' [Hst Hp]. apply HQ; [|done].
  pose proof (vfs_ok_step _ _ _ _ _ 0 _ _ _ _ Hs Hst) as H. unfold none in H. rewrite Z.add_0_r in H.
  eapply vfs_ok_ext; [| |apply H]; try (intros w; cbn beta; try lia). pose proof (vo_callers _ _ _ _ _ _ Hs w). lia.
Qed.
(** a call that returns a vnode with a reference to it *)
Lemma call_given {A} (m : K D A) (err vn : A → Z) (Q : A → vs → oracle → Prop) o :
  vcall m (λ a, given (err a) (vn a)) (λ _, none) (vs_ops s) →
  (∀ a d' o', vfs_ok lk L (if err a =? 0 then up E (vn a) else E) O (n + 1) (set_ops d' s) → (plenty o → plenty o') → Q a (set_ops d' s) o') →
  wp (on_ops m) Q s o.
Proof.
  intros Hm HQ. apply wp_ops. wp_call Hm; [apply Hs|by eapply vfs_room|]. intros a d' o' [Hst Hp]. apply HQ; [|done].
  assert (∀ w, 0 ≤ given (err a) (vn a) w ≤ 1) as Hb.
  { intros w. unfold given, none. destruct (_ =? _); [apply one_bound|lia]. }
  eapply vfs_ok_ext; [| |eapply (vfs_ok_step _ _ _ _ _ 1 _ _ _ _ Hs Hst)]; intros w; cbn beta.
  - unfold given, up, none. destruct (_ =? _); lia.
  - unfold none. lia.
  - unfold none. pose proof (vo_callers _ _ _ _ _ _ Hs w). pose proof (Hb w). lia.
  - apply Hb.
Qed.
Lemma call_incref v (Q : unit → vs → oracle → Prop) o :
  0 < vrefs (vs_ops s) v →
  (∀ d' o', vfs_ok lk L (up E v) O (n + 1) (set_ops d' s) → (∀ f, fs_same (vs_ops s) d' f) → vnfs d' v = vnfs (vs_ops s) v →
     (plenty o → plenty o') → Q tt (set_ops d' s) o') →
  wp (on_ops (VOP_INCREF v)) Q s o.
Proof.
  intros Hv HQ. apply wp_ops. wp_call incref_ok; [done|apply Hs|by eapply vfs_room|]. intros [] d' o' [Hst Hp].
  pose proof Hst as [[(_ & _ & _ & Hfs) Hroot] _]. apply HQ; [|done|by apply Hfs|done].
  eapply vfs_ok_ext; [| |eapply (vfs_ok_step _ _ _ _ _ 1 _ _ _ _ Hs Hst)]; intros w; cbn beta; unfold none, up; try lia.
  - pose proof (vo_callers _ _ _ _ _ _ Hs w). pose proof (one_bound v w). lia.
  - apply one_bound.
Qed.
Lemma call_decref v (Q : unit → vs → oracle → Prop) o :
  O v < E v →
  (∀ d' o', vfs_ok lk L (down E v) O n (set_ops d' s) → (plenty o → plenty o') → Q tt (set_ops d' s) o') →
  wp (on_ops (VOP_DECREF v)) Q s o.
Proof.
  intros Hv HQ. pose proof (kept_nonneg L s v) as Hk. pose proof (vo_callers _ _ _ _ _ _ Hs v) as Hc. apply wp_ops. wp_call decref_ok.
  - rewrite (vo_opens _ _ _ _ _ _ Hs), (vo_refs _ _ _ _ _ _ Hs). lia.
  - intros Hnf. pose proof (vo_refs _ _ _ _ _ _ Hs v) as Hr. pose proof (vo_devs _ _ _ _ _ _ Hs v ltac:(lia) Hnf).
    rewrite Hr. unfold kept_refs. pose proof (is_vnode_bound (t_cwd s) v). pose proof (is_vnode_bound (bootfs_vnode s) v). lia.
  - apply Hs.
  - by eapply vfs_room.
  - intros [] d' o' [Hst Hp]. apply HQ; [|done].
    pose proof (vfs_ok_step _ _ _ _ _ 0 _ _ _ _ Hs Hst) as H. rewrite Z.add_0_r in H.
    eapply vfs_ok_ext; [| |apply H]; intros w; cbn beta; unfold none, down; try lia.
    + pose proof (vo_callers _ _ _ _ _ _ Hs w). unfold one. case_decide; subst; lia.
    + pose proof (one_bound v w). lia.
Qed.
End Calls.

(** ** The table of devices *)
Lemma wp_kd_acquire (Q : unit → vs → oracle → Prop) s o :
  knowndevs_lock s = Some kd_idle → Q tt (set_kdlock (Some kd_held) s) o → wp (on_kdlock ulock_acquire) Q s o.
Proof. intros Hl HQ. unfold on_kdlock. do 2 wp_step. rewrite Hl. done. Qed.
Lemma wp_kd_release (Q : unit → vs → oracle → Prop) s o :
  knowndevs_lock s = Some kd_held → Q tt (set_kdlock (Some kd_idle) s) o → wp (on_kdlock ulock_release) Q s o.
Proof. intros Hl HQ. unfold on_kdlock. do 2 wp_step. rewrite Hl. done. Qed.
Lemma vfs_ok_lock lk lk' L E O n s : vfs_ok lk L E O n s → vfs_ok lk' L E O n (set_kdlock (Some lk') s).
Proof. intros [? ? ? ? ? ? ? [? ? ? ? ?] ? ? ?]. by split. Qed.
Lemma wp_devs_num L s (Q : Z → vs → oracle → Prop) o :
  table_ok L s → Q (Z.of_nat (length L)) s o → wp (on_devs array_getnum) Q s o.
Proof.
  intros Ht HQ. destruct (to_arr _ _ Ht) as (a & Ha & Hn & _). rewrite !length_fmap in Hn. unfold on_devs, array_getnum.
  do 2 wp_step. rewrite Ha. do 6 wp_step. rewrite Hn. destruct s; simpl in *. by subst.
Qed.
Lemma wp_devs_guy L s (i : nat) p k (Q : loc → vs → oracle → Prop) o :
  table_ok L s → L !! i = Some (p, k) → Q p s o → wp (on_devs (array_getguy (Z.of_nat i))) Q s o.
Proof.
  intros Ht Hi HQ. destruct (to_arr _ _ Ht) as (a & Ha & Hr). unfold on_devs.
  do 2 wp_step. rewrite Ha. do 3 wp_step. wp_step. wp_call (array_getguy_spec _ _ _ p _ Hr).
  { by rewrite zlookup_nat, list_lookup_fmap, Hi. }
  intros r a' o' (-> & -> & ->). do 2 wp_step. wp_step. destruct s; simpl in *. by subst.
Qed.
Lemma wp_get_kd L s (i : nat) p k (Q : knowndev → vs → oracle → Prop) o :
  table_ok L s → L !! i = Some (p, k) → (∀ kd, kds s !! p = Some kd → kd_rep kd k → kv_ok k → Q kd s o) → wp (get_kd p) Q s o.
Proof.
  intros Ht Hi HQ. destruct (to_devs _ _ Ht p k) as (Hk & kd & Hp & Hr); [by eapply list_elem_of_lookup_2|].
  unfold get_kd. do 2 wp_step. rewrite Hp. wp_step. by apply HQ.
Qed.

(** ** Device names *)
(** The string in a buffer *)
Definition cstr (b : list Z) : list Z := (span (λ c, negb (c =? 0)) b).1.
Lemma cstr_span xs : Forall (λ x, x ≠ 0) xs → ∀ ys, span (λ c, negb (c =? 0)) (xs ++ 0 :: ys) = (xs, 0 :: ys).
Proof.
  induction 1 as [|x xs Hx _ IH]; intros ys; simpl; [done|]. destruct (Z.eqb_spec x 0); [done|]. simpl. by rewrite IH.
Qed.
Lemma has_str_split b xs : has_str b 0 xs → ∃ ys, b = xs ++ 0 :: ys ∧ Forall (λ x, x ≠ 0) xs.
Proof.
  intros (_ & Hx & H0). exists (drop (S (length xs)) b). apply zlookup_Some in H0 as [_ H0]. rewrite Z.add_0_l, Nat2Z.id in H0.
  assert (take (length xs) b = xs) as Ht.
  { apply list_eq. intros i. destruct (decide (i < length xs)%nat) as [Hlt|Hge].
    - rewrite lookup_take_lt by done. destruct (lookup_lt_is_Some_2 xs i Hlt) as [x Hxi]. destruct (Hx i x Hxi) as [Hb _].
      rewrite Z.add_0_l, zlookup_nat in Hb. by rewrite Hb, Hxi.
    - rewrite lookup_take_ge, lookup_ge_None_2 by lia. done. }
  split; [by rewrite <- Ht at 1; rewrite <- (take_drop_middle b _ _ H0) at 1|].
  apply Forall_lookup. intros i x Hi. by destruct (Hx i x Hi).
Qed.
Lemma cstr_str b xs : has_str b 0 xs → cstr b = xs.
Proof. intros (ys & -> & Hx)%has_str_split. unfold cstr. by rewrite cstr_span. Qed.
Definition vol d (f : Z) : option (list Z) := cstr <$> volname d f.
Lemma vol_str d f : vn_ok d → fs_ok d f → opt_str (volname d f) (vol d f).
Proof.
  intros Hd Hf. unfold vol. destruct (volname d f) as [b|] eqn:Hv; [|done]. simpl. destruct (volname_str d f b Hd Hf Hv) as [xs Hxs].
  by rewrite (cstr_str _ _ Hxs).
Qed.
(** What a name of a device refers to: the root of its file system, the
    device itself, or nothing because a file system has to be mounted first *)
Inductive found : Type := FRoot (f : Z) | FVnode (v : Z) | FNotMounted.
Definition kv_find d (k : kdv) (nm : list Z) : option found :=
  if bool_decide (kv_name k = nm) then
    match kv_fs k with
    | Some f => Some (FRoot f)
    | None => Some (if kv_raw k is Some _ then FNotMounted else FVnode (kv_vnode k))
    end
  else if match kv_fs k with Some f => same_str (vol d f) (Some nm) | None => false end then FRoot <$> kv_fs k
  else if same_str (kv_raw k) (Some nm) then Some (FVnode (kv_vnode k))
  else None.
Fixpoint dev_find d (ks : list kdv) (nm : list Z) : option found :=
  match ks with
  | [] => None
  | k :: ks => match kv_find d k nm with Some r => Some r | None => dev_find d ks nm end
  end.
(** the error and the vnode *)
Definition found_result d (r : option found) : Z * option Z :=
  match r with
  | None => (ENODEV, None)
  | Some FNotMounted => (ENXIO, None)
  | Some (FRoot f) => (0, Some (fsroot d f))
  | Some (FVnode v) => (0, Some v)
  end.
(** [r] is the result [x], and the caller has a new reference to its vnode. *)
Definition got lk L E O (n : Z) s (x : Z * option Z) (r : Z * Z) s' : Prop :=
  r.1 = x.1 ∧ t_cwd s' = t_cwd s ∧ bootfs_vnode s' = bootfs_vnode s ∧
  match x.2 with
  | Some v => r.2 = v ∧ vfs_ok lk L (up E v) O (n + 1) s'
  | None => x.1 ≠ 0 ∧ vfs_ok lk L E O (n + 1) s'
  end.
Lemma got_error lk L E O n s e v : vfs_ok lk L E O n s → e ≠ 0 → got lk L E O n s (e, None) (e, v) s.
Proof. intros Hs He. split_and!; try done. split; [done|]. eapply vfs_ok_le; [|apply Hs]. lia. Qed.
Lemma kd_ref_pos L (i : nat) p k : L !! i = Some (p, k) → 0 < kd_refs L (kv_vnode k).
Proof.
  intros Hi. unfold kd_refs. assert ((p, k) ∈ filter (λ x, kv_vnode x.2 = kv_vnode k) L) as Hin.
  { apply list_elem_of_filter. split; [done|]. by eapply list_elem_of_lookup_2. }
  destruct (filter _ L); [by apply elem_of_nil in Hin|]. simpl. lia.
Qed.
Lemma kd_vnode_used lk L E O n s (i : nat) p k : vfs_ok lk L E O n s → L !! i = Some (p, k) → 0 < vrefs (vs_ops s) (kv_vnode k).
Proof.
  intros Hs Hi. rewrite (vo_refs _ _ _ _ _ _ Hs). unfold kept_refs. pose proof (kd_ref_pos _ _ _ _ Hi).
  pose proof (is_vnode_bound (t_cwd s) (kv_vnode k)). pose proof (is_vnode_bound (bootfs_vnode s) (kv_vnode k)).
  pose proof (vo_callers _ _ _ _ _ _ Hs (kv_vnode k)). lia.
Qed.
Lemma getroot_call lk L E O n s f (Q : Z → vs → oracle → Prop) o :
  vfs_ok lk L E O n s → n < 2 ^ 30 → fs_ok (vs_ops s) f →
  (∀ d' o', vfs_ok lk L (up E (fsroot (vs_ops s) f)) O (n + 1) (set_ops d' s) →
     (plenty o → plenty o') → Q (fsroot (vs_ops s) f) (set_ops d' s) o') →
  wp (on_ops (FSOP_GETROOT f)) Q s o.
Proof.
  intros Hs Hn Hf HQ. apply wp_ops. wp_call getroot_ok; [apply Hs|by eapply vfs_room|done|]. intros r d' o' (-> & Hst & Hp).
  apply HQ; [|done..].
  eapply vfs_ok_ext; [| |eapply (vfs_ok_step _ _ _ _ _ 1 _ _ _ _ Hs Hst)]; intros w; cbn beta; unfold none, up; try lia.
  - pose proof (vo_callers _ _ _ _ _ _ Hs w). pose proof (one_bound (fsroot (vs_ops s) f) w). lia.
  - apply one_bound.
Qed.
Lemma set_ops_same s : set_ops (vs_ops s) s = s.
Proof. by destruct s. Qed.
Lemma volname_call s f (Q : option (list Z) → vs → oracle → Prop) o :
  vn_ok (vs_ops s) → fs_ok (vs_ops s) f → Q (volname (vs_ops s) f) s o → wp (on_ops (FSOP_GETVOLNAME f)) Q s o.
Proof. intros Hd Hf HQ. apply wp_ops. wp_call getvolname_ok; [done..|]. intros r d' o' (-> & -> & ->). by rewrite set_ops_same. Qed.
Lemma kd_fs_ok lk L E O n s (i : nat) p k f : vfs_ok lk L E O n s → L !! i = Some (p, k) → kv_fs k = Some f → fs_ok (vs_ops s) f.
Proof. intros Hs Hi. eapply (vo_fs _ _ _ _ _ _ Hs). by eapply list_elem_of_lookup_2. Qed.
Section Names.
  Context (lk : ulock) (L : list (loc * kdv)) (E O : Z → Z) (n : Z) (s : vs) (i : nat) (p : loc) (k : kdv) (kd : knowndev).
  Context (devname nm : list Z).
  Hypothesis Hs : vfs_ok lk L E O n s.
  Hypothesis Hn : n < 2 ^ 30.
  Hypothesis Hi : L !! i = Some (p, k).
  Hypothesis Hrep : kd_rep kd k.
  Hypothesis Hk : kv_ok k.
  Hypothesis Hd : has_str devname 0 nm.
Let found_ok (x : option found) o : option (Z * Z) → vs → oracle → Prop := λ r s' o', (plenty o → plenty o') ∧
  match x with
  | None => r = None ∧ s' = s
  | Some x => ∃ r', r = Some r' ∧ got lk L E O n s (found_result (vs_ops s) (Some x)) r' s'
  end.
Lemma self_call o :
  wp (_ <- on_ops (VOP_INCREF (kd_vnode kd)); ret (Some (0, kd_vnode kd))) (found_ok (Some (FVnode (kv_vnode k))) o) s o.
Proof.
  destruct Hrep as (_ & _ & _ & -> & _). wp_step. eapply call_incref; [done..|by eapply kd_vnode_used|].
  intros d' o' Hs' _ _ Hp. wp_step. split; [done|]. by eexists.
Qed.
Lemma root_call f o : kv_fs k = Some f →
  wp (root <- on_ops (FSOP_GETROOT f); ret (Some (0, root))) (found_ok (Some (FRoot f)) o) s o.
Proof. intros Hf. wp_step. eapply getroot_call; [done|done|by eapply kd_fs_ok|]. intros d' o' Hs' Hp. wp_step. split; [done|]. by eexists. Qed.
Lemma raw_call (b1 b2 : bool) rw o : kv_name k ≠ nm → opt_str rw (kv_raw k) →
  wp (c <- strcmp (kd_name kd) 0 devname 0;
      if c =? 0 then
        _ <- kassert b1;
        _ <- kassert b2;
        _ <- kassert (bool_decide (kd_device kd ≠ None));
        _ <- on_ops (VOP_INCREF (kd_vnode kd));
        ret (Some (0, kd_vnode kd))
      else
        raw <- samestring rw (Some devname);
        if raw : bool then
          _ <- kassert (bool_decide (kd_device kd ≠ None));
          _ <- on_ops (VOP_INCREF (kd_vnode kd));
          ret (Some (0, kd_vnode kd))
        else ret None)
    (found_ok (if same_str (kv_raw k) (Some nm) then Some (FVnode (kv_vnode k)) else None) o) s o.
Proof.
  intros Hne Hraw. pose proof Hrep as (Hnm & _ & Hdev & _). wp_step. eapply wp_strcmp; [done..|]. intros c ->.
  rewrite bool_decide_false by done. wp_step. wp_call (samestring_spec _ _ _ (Some nm)); [done..|].
  intros r s' o' (-> & -> & ->). destruct (same_str _ _) eqn:Hsame; [|by wp_step].
  do 2 wp_step; [|apply self_call]. apply bool_decide_eq_true. rewrite Hdev. apply Hk. right. by destruct (kv_raw k).
Qed.
Lemma names_dev_spec o : wp (names_dev kd devname) (found_ok (kv_find (vs_ops s) k nm) o) s o.
Proof.
  pose proof Hrep as (Hnm & Hraw & Hdev & Hv & Hfs). unfold names_dev, kv_find. rewrite Hfs. wp_step.
  destruct (kv_fs k) as [f|] eqn:Hf.
  - wp_step. apply volname_call; [apply Hs|by eapply kd_fs_ok|]. wp_step. eapply wp_strcmp; [done..|]. intros c ->.
    destruct (bool_decide_reflect (kv_name k = nm)) as [Heq|Hne].
    + do 2 wp_step. wp_call root_call; [done|]. intros r s' o' Hr. destruct Hr as (Hp & r' & -> & Hr).
      wp_step. split; [done|]. by exists r'.
    + wp_step. wp_call (samestring_spec _ _ _ (Some nm)); [apply vol_str; [apply Hs|by eapply kd_fs_ok]|done|]. intros r s' o' (-> & -> & ->).
      destruct (same_str (vol _ _) _).
      * wp_call root_call; [done|]. intros r s' o' (Hp & r' & -> & Hr). wp_step. split; [done|]. by exists r'.
      * wp_step. by apply raw_call.
  - destruct (bool_decide_reflect (kv_name k = nm)) as [Heq|Hne].
    + destruct (kd_rawname kd) as [rw|] eqn:Hrw, (kv_raw k) as [kr|] eqn:Hkr; try done.
      * wp_step. eapply wp_strcmp; [done..|]. intros c ->. rewrite bool_decide_true by done. do 2 wp_step.
        split; [done|]. exists (ENXIO, 0). split; [done|]. by apply got_error.
      * wp_step. wp_step. eapply wp_strcmp; [done..|]. intros c ->. rewrite bool_decide_true by done.
        do 2 wp_step; [done|]. do 2 wp_step; [done|]. do 2 wp_step; [|apply self_call].
        apply bool_decide_eq_true. rewrite Hdev. apply Hk. by left.
    + destruct (kd_rawname kd) as [rw|] eqn:Hrw.
      * wp_step. eapply wp_strcmp; [done..|]. intros c ->. rewrite bool_decide_false by done. wp_step. by apply raw_call.
      * wp_step. by apply raw_call.
Qed.
End Names.
Lemma getroot_loop_spec L E O n s devname nm m (i : nat) o :
  vfs_ok kd_held L E O n s → n < 2 ^ 30 → has_str devname 0 nm → (i + m = length L)%nat →
  wp (getroot_loop m (Z.of_nat i) devname) (λ r s' o', (plenty o → plenty o') ∧
    got kd_held L E O n s (found_result (vs_ops s) (dev_find (vs_ops s) (drop i L.*2) nm)) r s') s o.
Proof.
  intros Hs Hn Hd. revert i o. induction m as [|m IH]; intros i o Hm; cbn [getroot_loop].
  - wp_step. split; [done|]. rewrite drop_ge by (rewrite length_fmap; lia). by apply got_error.
  - destruct (lookup_lt_is_Some_2 L i ltac:(lia)) as [[p k] Hi]. wp_step. eapply wp_devs_guy; [apply Hs|done|].
    wp_step. eapply wp_get_kd; [apply Hs|done|]. intros kd _ Hrep Hk. wp_step.
    wp_call (names_dev_spec kd_held L E O n s i p k kd devname nm); [done..|]. intros r s' o' [Hp Hr].
    rewrite (drop_S _ k) by (by rewrite list_lookup_fmap, Hi). cbn [dev_find].
    destruct (kv_find (vs_ops s) k nm) as [x|].
    + destruct Hr as (r' & -> & Hr). by wp_step.
    + destruct Hr as [-> ->]. replace (Z.of_nat i + 1) with (Z.of_nat (Datatypes.S i)) by lia.
      wp_call IH; [lia|]. intros r s' o'' [Hp' Hr]. split; [by intros; apply Hp', Hp|done].
Qed.
(** [vfs_getroot] is [dev_find] on the table, with a new reference. *)
Lemma vfs_getroot_spec L E O n s devname nm o :
  vfs_ok kd_idle L E O n s → n < 2 ^ 30 → has_str devname 0 nm →
  wp (vfs_getroot devname) (λ r s' o', (plenty o → plenty o') ∧
    got kd_idle L E O n s (found_result (vs_ops s) (dev_find (vs_ops s) L.*2 nm)) r s') s o.
Proof.
  intros Hs Hn Hd. unfold vfs_getroot. wp_step. apply wp_kd_acquire; [apply Hs|].
  pose proof (vfs_ok_lock _ kd_held _ _ _ _ _ Hs) as Hs'. wp_step. eapply wp_devs_num; [apply Hs'|].
  rewrite Nat2Z.id. wp_step. wp_call (getroot_loop_spec L E O n _ devname nm (length L) 0); [done..|].
  intros r s' o' (Hp & Hr & Hc & Hb & Hx). cbn [vs_ops set_kdlock] in *. wp_step.
  assert (knowndevs_lock s' = Some kd_held) as Hl by (by destruct (found_result _ _).2; destruct Hx as [_ Hx]; apply Hx).
  apply wp_kd_release; [done|]. wp_step. split; [done|]. split_and!; try done. rewrite drop_0 in *.
  destruct (found_result _ _).2; destruct Hx as [? Hx]; (split; [done|]); by eapply vfs_ok_lock.
Qed.

(** ** Path names *)
(** What a path means: where it starts, and the rest of it *)
Inductive start : Type := SCwd | SDev (name : list Z) | SBoot | SCurFs.
Definition strip (xs : list Z) : list Z := (span (λ c, c =? 47) xs).2.
Definition parse (xs : list Z) : start * list Z :=
  let '(a, b) := span (λ c, negb (c =? 58) && negb (c =? 47)) xs in
  match b with
  | [] => (SCwd, xs)
  | c :: rest =>
      if c =? 58 then (if a is [] then SCurFs else SDev a, strip rest)
      else if a is [] then (SBoot, strip rest)
      else (SCwd, xs)
  end.
Definition start_find L s (x : start) : Z * option Z :=
  match x with
  | SCwd => match t_cwd s with Some v => (0, Some v) | None => (ENOENT, None) end
  | SDev nm => found_result (vs_ops s) (dev_find (vs_ops s) L.*2 nm)
  | SBoot => match bootfs_vnode s with Some v => (0, Some v) | None => (ENOENT, None) end
  | SCurFs => match t_cwd s with Some v => (0, fsroot (vs_ops s) <$> vnfs (vs_ops s) v) | None => (ENOENT, None) end
  end.
Lemma has_str_mid pre xs ys : Forall (λ x, x ≠ 0) xs → has_str (pre ++ xs ++ 0 :: ys) (Z.of_nat (length pre)) xs.
Proof.
  intros Hx. split; [lia|]. split.
  - intros i x Hi. split; [|by apply (Forall_lookup_1 _ _ _ _ Hx Hi)].
    rewrite <- Nat2Z.inj_add, zlookup_nat, lookup_app_r by lia. replace (length pre + i - length pre)%nat with i by lia.
    by apply lookup_app_l_Some.
  - rewrite <- Nat2Z.inj_add, zlookup_nat, lookup_app_r, lookup_app_r by lia.
    by replace (length pre + length xs - length pre - length xs)%nat with 0%nat by lia.
Qed.
Lemma zlookup_mid (pre : list Z) x ys : zlookup (pre ++ x :: ys) (Z.of_nat (length pre)) = Some x.
Proof. by rewrite zlookup_nat, list_lookup_middle. Qed.
Lemma first_sep_run (a pre b : list Z) fuel s o :
  Forall (λ c, c ≠ 0 ∧ c ≠ 58 ∧ c ≠ 47) a → (length a ≤ fuel)%nat → list.head b = Some 0 ∨ list.head b = Some 58 ∨ list.head b = Some 47 →
  let i := Z.of_nat (length pre + length a) in
  first_sep fuel (pre ++ a ++ b) (Z.of_nat (length pre)) s o =
    Done ((if decide (list.head b = Some 58) then i else -1, if decide (list.head b = Some 47) then i else -1), s, o).
Proof.
  intros Ha. revert pre fuel. induction Ha as [|c a (H0 & Hc & Hs) _ IH]; intros pre fuel Hf Hb; simpl length.
  - destruct b as [|x b]; [naive_solver|]. cbn [app]. rewrite Nat.add_0_r.
    assert (x = 0 ∨ x = 58 ∨ x = 47) as Hx by naive_solver. clear Hf Hb.
    destruct fuel; cbn [first_sep]; rewrite zlookup_mid; by destruct Hx as [-> | [-> | ->]].
  - destruct fuel as [|fuel]; [simpl in Hf; lia|]. cbn [first_sep app]. rewrite zlookup_mid.
    cbn [deref ret bind]. rewrite (proj2 (Z.eqb_neq c 0)), (proj2 (Z.eqb_neq c 58)), (proj2 (Z.eqb_neq c 47)) by done.
    specialize (IH (pre ++ [c]) fuel ltac:(simpl in Hf; lia) Hb). rewrite length_app, <- app_assoc in IH. simpl in IH.
    replace (Z.of_nat (length pre) + 1) with (Z.of_nat (length pre + 1)) by lia.
    replace (length pre + S (length a))%nat with (length pre + 1 + length a)%nat by lia. exact IH.
Qed.
Lemma strip_forall xs : Forall (λ x, x ≠ 0) xs → Forall (λ x, x ≠ 0) (strip xs).
Proof. intros Hx. rewrite <- (span_app (λ c, c =? 47) xs) in Hx. by apply Forall_app in Hx as [_ Hx]. Qed.
Lemma span_all P xs : Forall (λ x, P x = true) (span P xs).1.
Proof.
  induction xs as [|x xs IH]; [done|]. cbn [span]. destruct (P x) eqn:Hp; [|done]. destruct (span P xs). by constructor.
Qed.
Lemma skip_slashes_run xs pre ys fuel s o :
  Forall (λ x, x ≠ 0) xs → (length xs ≤ fuel)%nat →
  ∃ pre', pre ++ xs ++ 0 :: ys = pre' ++ strip xs ++ 0 :: ys ∧
    skip_slashes fuel (pre ++ xs ++ 0 :: ys) (Z.of_nat (length pre)) s o = Done (Z.of_nat (length pre'), s, o).
Proof.
  intros Hx. revert pre fuel. induction Hx as [|x xs Hx Hxs IH]; intros pre fuel Hf.
  - exists pre. split; [done|]. destruct fuel; cbn [skip_slashes app]; by rewrite zlookup_mid.
  - unfold strip. cbn [span]. destruct (Z.eqb_spec x 47) as [-> | Hne].
    + destruct fuel as [|fuel]; [simpl in Hf; lia|]. destruct (IH (pre ++ [47]) fuel) as (pre' & He & Hr); [simpl in Hf; lia|].
      rewrite length_app in Hr. rewrite <- !app_assoc in He, Hr. simpl in He, Hr. exists pre'.
      unfold strip in He. destruct (span _ xs) as [a b]. cbn [snd] in *. split; [done|].
      cbn [skip_slashes app]. rewrite zlookup_mid. replace (Z.of_nat (length pre) + 1) with (Z.of_nat (length pre + 1)) by lia. exact Hr.
    + exists pre. cbn [snd]. split; [done|]. destruct fuel; cbn [skip_slashes app]; rewrite zlookup_mid; cbn [deref ret bind];
        by rewrite (proj2 (Z.eqb_neq x 47)).
Qed.

Lemma wp_boot_acquire (Q : unit → vs → oracle → Prop) s o :
  bootfs_lock s = Some kd_idle → Q tt (set_bootlock (Some kd_held) s) o → wp (on_bootlock ulock_acquire) Q s o.
Proof. intros Hl HQ. unfold on_bootlock. do 2 wp_step. rewrite Hl. done. Qed.
Lemma wp_boot_release (Q : unit → vs → oracle → Prop) s o :
  bootfs_lock s = Some kd_held → Q tt (set_bootlock (Some kd_idle) s) o → wp (on_bootlock ulock_release) Q s o.
Proof. intros Hl HQ. unfold on_bootlock. do 2 wp_step. rewrite Hl. done. Qed.
Lemma vn_fs_call lk L E O n s v (Q : option Z → vs → oracle → Prop) o :
  vfs_ok lk L E O n s → 0 < vrefs (vs_ops s) v → Q (vnfs (vs_ops s) v) s o → wp (on_ops (vn_fs v)) Q s o.
Proof. intros Hs Hv HQ. apply wp_ops. wp_call vn_fs_ok; [apply Hs|done|]. intros r d' o' (-> & -> & ->). by rewrite set_ops_same. Qed.
Section Paths.
  Context (L : list (loc * kdv)) (E O : Z → Z) (n : Z) (s : vs).
  Hypothesis Hs : vfs_ok kd_idle L E O n s.
  Hypothesis Hn : n < 2 ^ 30 - 2.
Lemma vfs_getcurdir_spec o :
  wp vfs_getcurdir (λ r s' o', ((plenty o → plenty o') ∧ got kd_idle L E O n s (start_find L s SCwd) r s') ∧
    (∀ f, fs_same (vs_ops s) (vs_ops s') f) ∧ ∀ v, t_cwd s = Some v → vnfs (vs_ops s') v = vnfs (vs_ops s) v) s o.
Proof.
  unfold vfs_getcurdir. do 2 wp_step. cbn [start_find]. destruct (t_cwd s) as [v|] eqn:Hv.
  - wp_step. eapply call_incref; [done|lia|by eapply cwd_used|]. intros d' o' Hs' Hroot Hfs Hp. wp_step. split; [done|].
    split; [done|]. by intros w [= <-].
  - wp_step. split; [|by split; [intros f ?|]]. split; [done|]. by apply got_error.
Qed.
Lemma bootdir_spec o :
  wp (getdevice_root 47) (λ r s' o', (plenty o → plenty o') ∧ got kd_idle L E O n s (start_find L s SBoot) r s') s o.
Proof.
  unfold getdevice_root. cbn [Z.eqb Pos.eqb]. wp_step. apply wp_boot_acquire; [apply Hs|]. do 2 wp_step.
  cbn [start_find bootfs_vnode set_bootlock]. destruct (bootfs_vnode s) as [v|] eqn:Hv.
  - wp_step. apply wp_ops. cbn [vs_ops set_bootlock]. wp_call incref_ok; [by eapply boot_used|apply Hs|eapply vfs_room; [done|lia]|].
    intros [] d' o' [Hst Hp]. wp_step. apply wp_boot_release; [done|]. wp_step. split; [done|]. split_and!; try done. split; [done|].
    assert (vfs_ok kd_idle L (up E v) O (n + 1) (set_ops d' s)) as Hs'.
    { eapply vfs_ok_ext; [| |eapply (vfs_ok_step _ _ _ _ _ 1 _ _ _ _ Hs Hst)]; intros w; cbn beta; unfold none, up; try lia.
      - pose proof (vo_callers _ _ _ _ _ _ Hs w). pose proof (one_bound v w). lia.
      - apply one_bound. }
    destruct Hs' as [? ? ? ? ? ? ? [? ? ? ? ?] ? ? ?]. by split.
  - wp_step. apply wp_boot_release; [done|]. wp_step. split; [done|].
    replace (set_bootlock (Some kd_idle) (set_bootlock (Some kd_held) s)) with s; [by apply got_error|].
    pose proof (vo_boot _ _ _ _ _ _ Hs). destruct s; simpl in *. by subst.
Qed.
Lemma curfs_spec o :
  wp (getdevice_root 58) (λ r s' o', (plenty o → plenty o') ∧ got kd_idle L E O n s (start_find L s SCurFs) r s') s o.
Proof.
  unfold getdevice_root. cbn [Z.eqb Pos.eqb]. do 2 wp_step; [done|]. wp_step. wp_call vfs_getcurdir_spec.
  intros [e v] s' o' ((Hp & He & Hc & Hb & Hx) & Hroot & Hfs). cbn [start_find] in *. destruct (t_cwd s) as [cwd|] eqn:Hv; cbn [fst snd] in *; subst e.
  - destruct Hx as [-> Hs']. wp_cond. wp_step. eapply vn_fs_call; [done|eapply caller_ref; [done|]|].
    { unfold up. rewrite one_self. pose proof (vo_callers _ _ _ _ _ _ Hs cwd). lia. }
    rewrite (Hfs cwd) by done. pose proof (vo_cwd _ _ _ _ _ _ Hs cwd Hv). destruct (vnfs (vs_ops s) cwd) as [f|] eqn:Hvf; [|done].
    destruct (Hroot f) as (Hf & _ & Hrt); [eapply vnfs_ok; [apply Hs|by eapply cwd_used|done]|].
    do 2 wp_step. wp_step. eapply getroot_call; [done|lia|done|]. intros d' o2 Hs2 Hp2. rewrite Hrt in *. wp_step.
    eapply call_decref; [done|lia| |].
    { unfold up. rewrite one_self. pose proof (vo_callers _ _ _ _ _ _ Hs cwd). pose proof (one_bound (fsroot (vs_ops s) f) cwd). lia. }
    intros d3 o3 Hs3 Hp3. wp_step. split; [naive_solver|]. split; [done|]. split; [simpl; congruence|]. split; [done|]. split; [done|].
    eapply vfs_ok_max; [|eapply vfs_ok_ext; [..|apply Hs3]]; try done; intros w; unfold up, down; [|lia].
    pose proof (vo_max _ _ _ _ _ _ Hs w). pose proof (one_bound (fsroot (vs_ops s) f) w). lia.
  - destruct Hx as [_ Hs']. wp_cond. wp_step. split; [done|]. split_and!; try done. congruence.
Qed.
Lemma getdevice_dev a rest ys o :
  a ≠ [] → Forall (λ c, c ≠ 0) a → Forall (λ c, c ≠ 0) rest →
  wp (path <- deref (zinsert (Z.of_nat (length a)) 0 (a ++ 58 :: rest ++ 0 :: ys));
      subpath <- skip_slashes (length path) path (Z.of_nat (length a) + 1);
      '(result, v) <- vfs_getroot path;
      ret (result, path, subpath, v))
    (λ r s' o', (plenty o → plenty o') ∧ got kd_idle L E O n s (start_find L s (SDev a)) (r.1.1.1, r.2) s' ∧
      (r.1.1.1 = 0 → has_str r.1.1.2 r.1.2 (strip rest))) s o.
Proof.
  intros Hne Ha Hrest. rewrite zinsert_ok, Nat2Z.id by (rewrite length_app; simpl; lia).
  replace (<[length a := 0]> (a ++ 58 :: rest ++ 0 :: ys)) with (a ++ 0 :: rest ++ 0 :: ys).
  2:{ rewrite insert_app_r_alt, Nat.sub_diag by done. done. }
  do 3 wp_step. destruct (skip_slashes_run rest (a ++ [0]) ys (length (a ++ 0 :: rest ++ 0 :: ys)) s o Hrest) as (pre & Hpre & Hrun).
  { rewrite !length_app. simpl. rewrite length_app. lia. }
  rewrite <- app_assoc in Hrun, Hpre. cbn [app] in Hrun, Hpre.
  unfold wp at 1. replace (Z.of_nat (length a) + 1) with (Z.of_nat (length (a ++ [0]))) by (rewrite length_app; simpl; lia).
  rewrite Hrun. wp_step.
  wp_call (vfs_getroot_spec L E O n s _ a); [done|lia|by apply (has_str_mid [])|].
  intros [e v] s' o' [Hp Hg]. wp_step. split_and!; [done..|]. intros _. cbn [fst snd]. rewrite Hpre. apply has_str_mid.
  by apply strip_forall.
Qed.
Lemma getdevice_slash (c : Z) rest ys o :
  c = 47 ∨ c = 58 → Forall (λ c, c ≠ 0) rest →
  wp (c0 <- deref (zlookup (c :: rest ++ 0 :: ys) 0);
      '(result, v) <- getdevice_root c0;
      if negb (result =? 0) then ret (result, c :: rest ++ 0 :: ys, 0, 0)
      else
        subpath <- skip_slashes (length (c :: rest ++ 0 :: ys)) (c :: rest ++ 0 :: ys) 1;
        ret (0, c :: rest ++ 0 :: ys, subpath, v))
    (λ r s' o', (plenty o → plenty o') ∧ got kd_idle L E O n s (start_find L s (if c =? 47 then SBoot else SCurFs)) (r.1.1.1, r.2) s' ∧
      (r.1.1.1 = 0 → has_str r.1.1.2 r.1.2 (strip rest))) s o.
Proof.
  intros Hc Hrest. change (zlookup (c :: rest ++ 0 :: ys) 0) with (Some c). do 3 wp_step.
  assert (wp (getdevice_root c) (λ r s' o', (plenty o → plenty o') ∧
    got kd_idle L E O n s (start_find L s (if c =? 47 then SBoot else SCurFs)) r s') s o) as Hroot.
  { destruct Hc as [-> | ->]; [apply bootdir_spec|apply curfs_spec]. }
  wp_call Hroot. intros [e v] s' o' [Hp Hg]. pose proof Hg as (He & Hc' & Hb & Hx). cbn [fst] in He.
  destruct (Z.eqb_spec e 0) as [He0|He0]; cbn [negb].
  - wp_step. destruct (skip_slashes_run rest [c] ys (length (c :: rest ++ 0 :: ys)) s' o' Hrest) as (pre & Hpre & Hrun).
    { simpl. rewrite length_app. lia. }
    cbn [app] in Hrun, Hpre. unfold wp at 1. change 1 with (Z.of_nat (length [c])). rewrite Hrun. wp_step.
    cbn [fst snd]. rewrite <- He0 at 1. split_and!; [done..|]. intros _. rewrite Hpre. by apply has_str_mid, strip_forall.
  - wp_step. cbn [fst snd] in *. split_and!; [done| |done]. destruct (start_find _ _ _) as [e' [w|]] eqn:Hf; cbn [fst snd] in *.
    + exfalso. apply He0. rewrite He. clear -Hf. unfold start_find in Hf.
      destruct (c =? 47); repeat case_match; by simplify_eq/=.
    + by split_and!.
Qed.
(** [getdevice] splits the path as [parse]: the vnode of its start, with a new
    reference, and the rest of it *)
Lemma getdevice_spec path xs o :
  has_str path 0 xs →
  wp (getdevice path) (λ r s' o', (plenty o → plenty o') ∧
    got kd_idle L E O n s (start_find L s (parse xs).1) (r.1.1.1, r.2) s' ∧ (r.1.1.1 = 0 → has_str r.1.1.2 r.1.2 (parse xs).2)) s o.
Proof.
  intros Hpath. pose proof (has_str_split _ _ Hpath) as (ys & -> & Hx). unfold getdevice, parse.
  pose proof (span_app (λ c, negb (c =? 58) && negb (c =? 47)) xs) as Happ.
  pose proof (span_all (λ c, negb (c =? 58) && negb (c =? 47)) xs) as Hall.
  destruct (span _ xs) as [a b] eqn:Hspan. cbn [fst snd] in Happ, Hall. subst xs. apply Forall_app in Hx as [Ha Hb].
  assert (∀ o', wp (vfs_getcurdir) (λ r s' o'', (plenty o' → plenty o'') ∧ got kd_idle L E O n s (start_find L s SCwd) r s') s o') as Hcur.
  { intros o'. wp_call vfs_getcurdir_spec. by intros r s' o'' [H _]. }
  wp_step. rewrite <- app_assoc.
  assert (b = [] ∨ list.head b = Some 58 ∨ list.head b = Some 47) as Hhead.
  { destruct b as [|c b]; [by left|]. right. apply span_stop in Hspan. simpl.
    destruct (Z.eqb_spec c 58), (Z.eqb_spec c 47); naive_solver. }
  pose proof (first_sep_run a [] (b ++ 0 :: ys) (length (a ++ b ++ 0 :: ys)) s o) as Hsep.
  cbn [app length] in Hsep. change (Z.of_nat 0) with 0 in Hsep. unfold wp at 1. rewrite Hsep.
  2:{ apply Forall_lookup. intros i x Hi. pose proof (Forall_lookup_1 _ _ _ _ Ha Hi). pose proof (Forall_lookup_1 _ _ _ _ Hall Hi). simpl in *. lia. }
  2:{ rewrite !length_app. lia. }
  2:{ destruct b; naive_solver. }
  clear Hsep. destruct b as [|c b]; cbn [app list.head Nat.add].
  { rewrite !decide_False by naive_solver. wp_cond. wp_step. wp_call Hcur. intros [e v] s' o' [Hp Hg]. wp_step.
    split_and!; [done..|]. intros _. cbn [fst snd]. rewrite app_nil_r in *. done. }
  assert (c = 58 ∨ c = 47) as Hc by (destruct Hhead as [? | [[= ->] | [= ->]]]; [done|by left|by right]). clear Hhead.
  apply Forall_cons in Hb as [_ Hb]. destruct a as [|x a].
  - destruct Hc as [-> | ->]; do 2 wp_cond; (wp_step; wp_step; [done|]).
    + wp_call (getdevice_slash 58 b ys); [by right|done|]. done.
    + wp_call (getdevice_slash 47 b ys); [by left|done|]. done.
  - destruct Hc as [-> | ->].
    + rewrite decide_True, decide_False by done. cbn [Z.eqb Pos.eqb fst snd].
      replace (Z.of_nat (length (x :: a)) <? 0) with false by (symmetry; apply Z.ltb_ge; lia). cbn [andb].
      replace (0 <? Z.of_nat (length (x :: a))) with true by (symmetry; apply Z.ltb_lt; simpl; lia).
      wp_call (getdevice_dev (x :: a) b ys); done.
    + rewrite decide_False, decide_True by done. cbn [Z.eqb Pos.eqb fst snd Z.ltb Z.compare].
      replace (Z.of_nat (length (x :: a)) =? 0) with false by (symmetry; apply Z.eqb_neq; simpl; lia). cbn [negb andb].
      wp_step. wp_call Hcur. intros [e v] s' o' [Hp Hg]. wp_step. split_and!; [done..|]. intros _. cbn [fst snd].
      by rewrite <- app_assoc in Hpath.
Qed.
(** The result [e] with the vnode [v]: there is a new reference if [e] is zero. *)
Definition took (e v : Z) s' : Prop := vfs_ok kd_idle L (if e =? 0 then up E v else E) O (n + 1) s'.
Lemma start_find_ok x : match (start_find L s x).2 with Some _ => (start_find L s x).1 = 0 | None => True end.
Proof. destruct x; unfold start_find, found_result; repeat case_match; by simplify_eq/=. Qed.
Lemma got_took x e v s' : got kd_idle L E O n s (start_find L s x) (e, v) s' → took e v s'.
Proof.
  intros (He & _ & _ & Hx). pose proof (start_find_ok x) as H0. cbn [fst snd] in *. unfold took. destruct (start_find L s x) as [e' [w|]]; cbn [fst snd] in *.
  - destruct Hx as [-> Hx]. by subst.
  - destruct Hx as [Hne Hx]. subst e. by rewrite (proj2 (Z.eqb_neq e' 0)).
Qed.
End Paths.

(** Arithmetic of the references of the callers *)
Ltac refs_lia :=
  unfold up, down, none in *; rewrite ?one_self in *;
  repeat match goal with
  | |- context [one ?v ?w] => pose proof (one_bound v w); generalize dependent (one v w); intros
  | _ : context [one ?v ?w] |- _ => pose proof (one_bound v w); generalize dependent (one v w); intros
  end; lia.
Tactic Notation "balance" constr(Hs) constr(H) :=
  eapply vfs_ok_max; [|eapply vfs_ok_ext; [| |exact H]]; intros w; pose proof (vo_max _ _ _ _ _ _ Hs w); clear Hs H; refs_lia.
(** a reference that the caller just got *)
Tactic Notation "caller" constr(Hs) uconstr(v) := pose proof (vo_callers _ _ _ _ _ _ Hs v); clear Hs; refs_lia.
Lemma has_str_drop (p : list Z) off xs : has_str p off xs → has_str (drop (Z.to_nat off) p) 0 xs.
Proof.
  intros (H0 & Hx & Hz). assert (∀ i : nat, zlookup (drop (Z.to_nat off) p) (0 + Z.of_nat i) = zlookup p (off + Z.of_nat i)) as Hl.
  { intros i. rewrite Z.add_0_l, zlookup_nat, lookup_drop. unfold zlookup. rewrite decide_True by lia. f_equal. lia. }
  split; [lia|]. split; [intros i x Hi; rewrite Hl; by apply Hx|by rewrite Hl].
Qed.
Lemma call_lookparent lk L E O n s v path m (Q : Z * Z * list Z → vs → oracle → Prop) o :
  vfs_ok lk L E O n s → n < 2 ^ 30 → 0 < vrefs (vs_ops s) v → is_str path →
  (∀ a d' o', vfs_ok lk L (if a.1.1 =? 0 then up E a.1.2 else E) O (n + 1) (set_ops d' s) → (a.1.1 = 0 → is_str a.2) →
     (plenty o → plenty o') → Q a (set_ops d' s) o') → wp (on_ops (VOP_LOOKPARENT v path m)) Q s o.
Proof.
  intros Hs Hn Hv Hp HQ. eapply wp_mono; [eapply wp_and; [eapply (call_given _ _ _ _ _ _ Hs Hn _ (λ r, r.1.1) (λ r, r.1.2)
    (λ a s' o', ∃ d', s' = set_ops d' s ∧ vfs_ok lk L (if a.1.1 =? 0 then up E a.1.2 else E) O (n + 1) s' ∧ (plenty o → plenty o')))|]|].
  - by apply lookparent_ok.
  - intros a d' o' Hs' Ho. by exists d'.
  - apply (wp_ops _ (λ r _ _, r.1.1 = 0 → is_str r.2)). apply lookparent_name; [apply Hs|by eapply vfs_room|done..].
  - intros a s' o' [(d' & -> & Hs' & Ho) Hname]. by apply HQ.
Qed.
Section Lookups.
  Context (L : list (loc * kdv)) (E O : Z → Z) (n : Z) (s : vs).
  Hypothesis Hs : vfs_ok kd_idle L E O n s.
  Hypothesis Hn : n < 2 ^ 30 - 2.
Lemma took_error e v s' : vfs_ok kd_idle L E O (n + 1) s' → e ≠ 0 → took L E O n e v s'.
Proof. intros Hs' He. unfold took. by rewrite (proj2 (Z.eqb_neq e 0)). Qed.
Lemma vfs_lookup_spec path xs o :
  has_str path 0 xs → wp (vfs_lookup path) (λ r s' o', (plenty o → plenty o') ∧ took L E O n r.1.1 r.1.2 s') s o.
Proof.
  intros Hx. unfold vfs_lookup. wp_step. wp_call (getdevice_spec L E O n s Hs Hn _ _ _ Hx).
  intros [[[e path'] sub] v] s1 o1 (Hp1 & Hg & Hstr). apply got_took in Hg as Hs1. cbn [fst snd] in *. unfold took in Hs1.
  destruct (Z.eqb_spec e 0) as [-> | He]; cbn [negb].
  - wp_step. eapply wp_strlen; [by apply Hstr|]. destruct (_ =? 0); [by wp_step|].
    wp_step. eapply call_given; [done|lia|apply (lookup_ok _ v); [eapply caller_ref; [done|caller Hs v]|eexists; by apply has_str_drop, Hstr]|].
    intros [e vn] d2 o2 Hs2 Hp2. cbn [fst snd] in *. wp_step. eapply call_decref; [done|lia|destruct (e =? 0); caller Hs v|].
    intros d3 o3 Hs3 Hp3. wp_step. split; [naive_solver|]. unfold took. cbn [fst snd]. destruct (e =? 0); balance Hs Hs3.
  - wp_step. split; [done|]. by apply took_error.
Qed.
Lemma vfs_lookparent_spec path xs buflen o :
  has_str path 0 xs → wp (vfs_lookparent path buflen) (λ r s' o', (plenty o → plenty o') ∧ (r.1.1.1 = 0 → is_str r.1.2) ∧
    took L E O n r.1.1.1 r.1.1.2 s') s o.
Proof.
  intros Hx. unfold vfs_lookparent. wp_step. wp_call (getdevice_spec L E O n s Hs Hn _ _ _ Hx).
  intros [[[e path'] sub] v] s1 o1 (Hp1 & Hg & Hstr). apply got_took in Hg as Hs1. cbn [fst snd] in *. unfold took in Hs1.
  destruct (Z.eqb_spec e 0) as [-> | He]; cbn [negb].
  - wp_step. eapply wp_strlen; [by apply Hstr|]. wp_step. destruct (_ =? 0).
    + wp_step. wp_step. eapply call_decref; [done|lia|caller Hs v|]. intros d2 o2 Hs2 Hp2. wp_step.
      split; [naive_solver|]. split; [done|]. apply took_error; [|done]. balance Hs Hs2.
    + eapply call_lookparent; [done|lia|eapply caller_ref; [done|caller Hs v]|eexists; by apply has_str_drop, Hstr|].
      intros [[e vn] name] d2 o2 Hs2 Hname Hp2. cbn [fst snd] in *. wp_step. eapply call_decref; [done|lia|destruct (e =? 0); caller Hs v|].
      intros d3 o3 Hs3 Hp3. wp_step. split; [naive_solver|]. split; [done|]. unfold took. cbn [fst snd]. destruct (e =? 0); balance Hs Hs3.
  - wp_step. split; [done|]. split; [done|]. by apply took_error.
Qed.
End Lookups.

(** ** The operations on path names *)
(** The counts of opens *)
Lemma call_incopen lk L E O n s v (Q : unit → vs → oracle → Prop) o :
  vfs_ok lk L E O n s → n < 2 ^ 30 → O v < E v →
  (∀ d' o', vfs_ok lk L E (up O v) n (set_ops d' s) → (plenty o → plenty o') → Q tt (set_ops d' s) o') →
  wp (on_ops (VOP_INCOPEN v)) Q s o.
Proof.
  intros Hs Hn Hv HQ. pose proof (vo_callers _ _ _ _ _ _ Hs v). apply wp_ops.
  wp_call incopen_ok; [rewrite (vo_opens _ _ _ _ _ _ Hs), (vo_refs _ _ _ _ _ _ Hs); pose proof (kept_nonneg L s v); lia|apply Hs|by eapply vfs_room|]. intros [] d' o' [Hst Hp].
  apply HQ; [|done]. pose proof (vfs_ok_step _ _ _ _ _ 0 _ _ _ _ Hs Hst) as H'. rewrite Z.add_0_r in H'.
  eapply vfs_ok_ext; [| |apply H']; intros w; cbn beta; unfold none, up; try lia.
  pose proof (vo_callers _ _ _ _ _ _ Hs w). unfold one. case_decide; subst; lia.
Qed.
Lemma call_decopen lk L E O n s v (Q : unit → vs → oracle → Prop) o :
  vfs_ok lk L E O n s → n < 2 ^ 30 → 0 < O v →
  (∀ d' o', vfs_ok lk L E (down O v) n (set_ops d' s) → (plenty o → plenty o') → Q tt (set_ops d' s) o') →
  wp (on_ops (VOP_DECOPEN v)) Q s o.
Proof.
  intros Hs Hn Hv HQ. apply wp_ops.
  wp_call decopen_ok; [by rewrite (vo_opens _ _ _ _ _ _ Hs)|apply Hs|by eapply vfs_room|]. intros [] d' o' [Hst Hp].
  apply HQ; [|done]. pose proof (vfs_ok_step _ _ _ _ _ 0 _ _ _ _ Hs Hst) as H'. rewrite Z.add_0_r in H'.
  eapply vfs_ok_ext; [| |apply H']; intros w; cbn beta; unfold none, down; try lia.
  pose proof (vo_callers _ _ _ _ _ _ Hs w). unfold one. case_decide; subst; lia.
Qed.
(** Another current directory or boot file system: the callers get the
    reference to the old one and give theirs to the new one. *)
Lemma vfs_ok_cwd lk L E O n s v :
  vfs_ok lk L (λ w, E w + is_vnode v w) O n s → (∀ w, 0 ≤ O w ≤ E w) → (∀ w, v = Some w → vnfs (vs_ops s) w ≠ None) →
  vfs_ok lk L (λ w, E w + is_vnode (t_cwd s) w) O (n + 1) (set_cwd v s).
Proof.
  intros [? Hr ? Hc Hm ? ? [? ? ? ? ?] ? ? ?] HE Hv. split; try done; cbn [vs_ops set_cwd] in *.
  - intros w. rewrite Hr. unfold kept_refs. simpl. lia.
  - intros w. pose proof (HE w). pose proof (is_vnode_bound (t_cwd s) w). lia.
  - intros w. pose proof (Hm w). pose proof (is_vnode_bound (t_cwd s) w). pose proof (is_vnode_bound v w). simpl in *. lia.
Qed.
Lemma vfs_ok_bootfs lk L E O n s v :
  vfs_ok lk L (λ w, E w + is_vnode v w) O n s → (∀ w, 0 ≤ O w ≤ E w) →
  vfs_ok lk L (λ w, E w + is_vnode (bootfs_vnode s) w) O (n + 1) (set_bootfs v s).
Proof.
  intros [? Hr ? Hc Hm ? ? [? ? ? ? ?] ? ? ?] HE. split; try done; cbn [vs_ops set_bootfs] in *.
  - intros w. rewrite Hr. unfold kept_refs. simpl. lia.
  - intros w. pose proof (HE w). pose proof (is_vnode_bound (bootfs_vnode s) w). lia.
  - intros w. pose proof (Hm w). pose proof (is_vnode_bound (bootfs_vnode s) w). pose proof (is_vnode_bound v w). simpl in *. lia.
Qed.
Lemma drop_vnode_spec lk L E O n s old (Q : unit → vs → oracle → Prop) o :
  vfs_ok lk L (λ w, E w + is_vnode old w) O n s → n < 2 ^ 30 → (∀ w, 0 ≤ O w ≤ E w) →
  (∀ s' o', vfs_ok lk L E O n s' → t_cwd s' = t_cwd s → (plenty o → plenty o') → Q tt s' o') → wp (drop_vnode old) Q s o.
Proof.
  intros Hs Hn HE HQ. destruct old as [v|]; cbn [drop_vnode].
  - eapply call_decref; [done..| |].
    { cbn beta. unfold is_vnode. rewrite decide_True by done. pose proof (HE v). lia. }
    intros d' o' Hs' Hp. apply HQ; [|done..]. eapply vfs_ok_ext; [| |apply Hs']; [|done]. intros w. unfold down, is_vnode, one.
    repeat case_decide; simplify_eq; lia.
  - wp_step. apply HQ; [|done..]. eapply vfs_ok_ext; [| |apply Hs]; [|done]. intros w. unfold is_vnode. rewrite decide_False by done. lia.
Qed.
Section Directories.
  Context (L : list (loc * kdv)) (E O : Z → Z) (n : Z).
  Hypothesis Hn : n < 2 ^ 30 - 2.
  Abbreviation ok s := (vfs_ok kd_idle L E O n s).
Lemma vfs_setcurdir_spec s v o : ok s → 0 < vrefs (vs_ops s) v →
  wp (vfs_setcurdir v) (λ r s' o', (plenty o → plenty o') ∧ ok s' ∧ t_cwd s' = if r =? 0 then Some v else t_cwd s) s o.
Proof.
  intros Hs Hv. unfold vfs_setcurdir. wp_step. apply wp_ops.
  eapply wp_mono; [eapply wp_and; [apply gettype_ok|apply (gettype_dir (vs_ops s) v)]|]; try apply Hs; try (eapply vfs_room; [done|lia]); try done.
  intros [e ty] d1 o1 [[Hst Hp] Hdir]. cbn [fst snd] in *.
  pose proof Hst as [[(_ & Hr1 & _ & Hfs1) _] _]. unfold none in Hr1.
  assert (ok (set_ops d1 s)) as Hs1.
  { pose proof (vfs_ok_step _ _ _ _ _ 0 _ _ _ _ Hs Hst) as H. unfold none in H. rewrite Z.add_0_r in H.
    eapply vfs_ok_ext; [| |apply H]; try (intros w; cbn beta; try lia). pose proof (vo_callers _ _ _ _ _ _ Hs w). lia. }
  destruct (Z.eqb_spec e 0) as [-> | He]; cbn [negb].
  2:{ wp_step. split_and!; [done..|]. by rewrite (proj2 (Z.eqb_neq e 0)). }
  destruct (S_ISDIR ty) eqn:Hty; cbn [negb]; [|by wp_step]. wp_step.
  eapply call_incref; [done|lia|simpl; rewrite Hr1; lia|]. intros d2 o2 Hs2 _ Hfs2 Hp2. do 5 wp_step.
  assert (∀ w, 0 ≤ O w ≤ E w) as HE by apply Hs.
  eapply (drop_vnode_spec kd_idle L E O (n + 1 + 1)); [eapply vfs_ok_cwd|lia|done|]; [|done| |].
  - eapply vfs_ok_ext; [| |apply Hs2]; [|done]. intros w. unfold up, is_vnode, one. repeat case_decide; simplify_eq; lia.
  - intros w [= <-]. cbn [vs_ops set_ops] in *. rewrite Hfs2, Hfs1 by done. by apply Hdir.
  - intros s3 o3 Hs3 Hc Hp3. wp_step. split; [naive_solver|]. split; [|done]. eapply vfs_ok_max; [apply Hs|done].
Qed.
Lemma vfs_clearcurdir_spec s o : ok s → wp vfs_clearcurdir (λ r s' o', (plenty o → plenty o') ∧ ok s' ∧ t_cwd s' = None) s o.
Proof.
  intros Hs. unfold vfs_clearcurdir. do 5 wp_step. assert (∀ w, 0 ≤ O w ≤ E w) as HE by apply Hs.
  eapply (drop_vnode_spec kd_idle L E O (n + 1)); [eapply vfs_ok_cwd|lia|done|]; [|done|done|].
  - eapply vfs_ok_ext; [| |apply Hs]; [|done]. intros w. unfold is_vnode. rewrite decide_False by done. lia.
  - intros s3 o3 Hs3 Hc Hp3. wp_step. split; [naive_solver|]. split; [|done]. eapply vfs_ok_max; [apply Hs|done].
Qed.
Lemma change_bootfs_spec s v o :
  vfs_ok kd_idle L (λ w, E w + is_vnode v w) O (n + 1) s → (∀ w, 0 ≤ O w ≤ E w ≤ n) →
  wp (change_bootfs v) (λ r s' o', (plenty o → plenty o') ∧ ok s') s o.
Proof.
  intros Hs HE. unfold change_bootfs. wp_step. apply wp_boot_acquire; [apply Hs|]. do 4 wp_step. wp_step.
  apply wp_boot_release; [done|]. pose proof (vfs_ok_bootfs _ _ _ _ _ _ _ Hs ltac:(intros w; pose proof (HE w); lia)) as Hs'.
  cbn [bootfs_vnode set_bootlock]. eapply drop_vnode_spec; [|..].
  - assert (∀ l s', vfs_ok kd_idle L (λ w, E w + is_vnode (bootfs_vnode s) w) O (n + 1 + 1) s' →
      vfs_ok kd_idle L (λ w, E w + is_vnode (bootfs_vnode s) w) O (n + 1 + 1) (set_bootlock (Some kd_idle) (set_bootlock l s'))) as Hl.
    { intros l s' [? ? ? ? ? ? ? [? ? ? ? ?] ? ? ?]. by split. }
    apply (Hl (Some kd_held) _ Hs').
  - lia.
  - intros w. pose proof (HE w). lia.
  - intros s3 o3 Hs3 Hc Hp3. split; [done|]. eapply vfs_ok_max; [|done]. intros w. apply HE.
Qed.
End Directories.
Section Operations.
  Context (L : list (loc * kdv)) (E O : Z → Z) (n : Z) (s : vs).
  Hypothesis Hs : vfs_ok kd_idle L E O n s.
  Hypothesis Hn : n < 2 ^ 30 - 8.
  Abbreviation ok s' := (vfs_ok kd_idle L E O n s').
Lemma vfs_chdir_spec path xs o : has_str path 0 xs → wp (vfs_chdir path) (λ r s' o', (plenty o → plenty o') ∧ ok s') s o.
Proof.
  intros Hx. unfold vfs_chdir. wp_step. wp_call (vfs_lookup_spec L E O n s Hs); [lia|done|].
  intros [[e v] path'] s1 o1 [Hp1 Hs1]. cbn [fst snd] in *. unfold took in Hs1.
  destruct (Z.eqb_spec e 0) as [-> | He]; cbn [negb].
  2:{ wp_step. split; [done|]. balance Hs Hs1. }
  wp_step. wp_call (vfs_setcurdir_spec L (up E v) O (n + 1)); [lia|done|eapply caller_ref; [done|caller Hs v]|].
  intros r s2 o2 (Hp2 & Hs2 & _). wp_step. eapply call_decref; [done|lia|caller Hs v|]. intros d3 o3 Hs3 Hp3.
  wp_step. split; [naive_solver|]. balance Hs Hs3.
Qed.
Lemma in_parent_spec path xs op o :
  has_str path 0 xs → (∀ d v name, 0 < vrefs d v → is_str name → vcall (op v name) (λ _, none) (λ _, none) d) →
  wp (in_parent path op) (λ r s' o', (plenty o → plenty o') ∧ ok s') s o.
Proof.
  intros Hx Hop. unfold in_parent. wp_step. wp_call (vfs_lookparent_spec L E O n s Hs); [lia|done|].
  intros [[[e v] name] path'] s1 o1 (Hp1 & Hname & Hs1). cbn [fst snd] in *. unfold took in Hs1.
  destruct (Z.eqb_spec e 0) as [-> | He]; cbn [negb].
  2:{ wp_step. split; [done|]. balance Hs Hs1. }
  wp_step. eapply call_same; [done|lia|apply Hop; [eapply caller_ref; [done|caller Hs v]|by apply Hname]|]. intros r d2 o2 Hs2 Hp2.
  wp_step. eapply call_decref; [done|lia|caller Hs v|]. intros d3 o3 Hs3 Hp3. wp_step. split; [naive_solver|]. balance Hs Hs3.
Qed.
Lemma other_fs_call lk E' O' m s1 a b (Q : bool → vs → oracle → Prop) o :
  vfs_ok lk L E' O' m s1 → 0 < E' a → 0 < E' b → (∀ r, Q r s1 o) → wp (other_fs a b) Q s1 o.
Proof.
  intros Hs1 Ha Hb HQ. unfold other_fs. wp_step. eapply vn_fs_call; [done|by eapply caller_ref|].
  wp_step. eapply vn_fs_call; [done|by eapply caller_ref|]. by wp_step.
Qed.
(** the end of [vfs_rename] and [vfs_link] *)
Lemma two_decrefs s1 a b (r : Z) o :
  vfs_ok kd_idle L (up (up E a) b) O (n + 2) s1 →
  wp (_ <- on_ops (VOP_DECREF b); _ <- on_ops (VOP_DECREF a); ret r) (λ _ s' o', (plenty o → plenty o') ∧ ok s') s1 o.
Proof.
  intros Hs1. wp_step. eapply call_decref; [done|lia|caller Hs b|]. intros d2 o2 Hs2 Hp2.
  wp_step. eapply call_decref; [done|lia|caller Hs a|]. intros d3 o3 Hs3 Hp3. wp_step. split; [naive_solver|]. balance Hs Hs3.
Qed.
Lemma vfs_rename_spec p1 xs1 p2 xs2 o :
  has_str p1 0 xs1 → has_str p2 0 xs2 → wp (vfs_rename p1 p2) (λ r s' o', (plenty o → plenty o') ∧ ok s') s o.
Proof.
  intros Hx1 Hx2. unfold vfs_rename. wp_step. wp_call (vfs_lookparent_spec L E O n s Hs); [lia|done|].
  intros [[[e a] na] pa] s1 o1 (Hp1 & Hna & Hs1). cbn [fst snd] in *. unfold took in Hs1.
  destruct (Z.eqb_spec e 0) as [-> | He]; cbn [negb].
  2:{ wp_step. split; [done|]. balance Hs Hs1. }
  wp_step. wp_call (vfs_lookparent_spec L (up E a) O (n + 1) s1 Hs1); [lia|done|].
  intros [[[e b] nb] pb] s2 o2 (Hp2 & Hnb & Hs2). cbn [fst snd] in *. unfold took in Hs2.
  destruct (Z.eqb_spec e 0) as [-> | He]; cbn [negb].
  2:{ wp_step. eapply call_decref; [done|lia|caller Hs a|]. intros d3 o3 Hs3 Hp3. wp_step. split; [naive_solver|]. balance Hs Hs3. }
  wp_step. eapply other_fs_call; [done|caller Hs a|caller Hs b|]. intros other. wp_step. destruct other.
  - wp_step. wp_call two_decrefs; [by replace (n + 2) with (n + 1 + 1) by lia|]. naive_solver.
  - eapply call_same; [done|lia|apply rename_ok; [eapply caller_ref; [done|caller Hs a]|eapply caller_ref; [done|caller Hs b]|by apply Hna|by apply Hnb]|].
    intros r d3 o3 Hs3 Hp3. wp_call two_decrefs; [by replace (n + 2) with (n + 1 + 1) by lia|]. naive_solver.
Qed.
Lemma vfs_link_spec p1 xs1 p2 xs2 o :
  has_str p1 0 xs1 → has_str p2 0 xs2 → wp (vfs_link p1 p2) (λ r s' o', (plenty o → plenty o') ∧ ok s') s o.
Proof.
  intros Hx1 Hx2. unfold vfs_link. wp_step. wp_call (vfs_lookup_spec L E O n s Hs); [lia|done|].
  intros [[e a] pa] s1 o1 [Hp1 Hs1]. cbn [fst snd] in *. unfold took in Hs1.
  destruct (Z.eqb_spec e 0) as [-> | He]; cbn [negb].
  2:{ wp_step. split; [done|]. balance Hs Hs1. }
  wp_step. wp_call (vfs_lookparent_spec L (up E a) O (n + 1) s1 Hs1); [lia|done|].
  intros [[[e b] nb] pb] s2 o2 (Hp2 & Hnb & Hs2). cbn [fst snd] in *. unfold took in Hs2.
  destruct (Z.eqb_spec e 0) as [-> | He]; cbn [negb].
  2:{ wp_step. eapply call_decref; [done|lia|caller Hs a|]. intros d3 o3 Hs3 Hp3. wp_step. split; [naive_solver|]. balance Hs Hs3. }
  wp_step. eapply other_fs_call; [done|caller Hs a|caller Hs b|]. intros other. wp_step. destruct other.
  - wp_step. wp_call two_decrefs; [by replace (n + 2) with (n + 1 + 1) by lia|]. naive_solver.
  - eapply call_same; [done|lia|apply link_ok; [eapply caller_ref; [done|caller Hs b]|eapply caller_ref; [done|caller Hs a]|by apply Hnb]|].
    intros r d3 o3 Hs3 Hp3. wp_call two_decrefs; [by replace (n + 2) with (n + 1 + 1) by lia|]. naive_solver.
Qed.
(** The result of [vfs_open]: a new reference and a new open *)
Definition opened (e v : Z) s' : Prop := if e =? 0 then vfs_ok kd_idle L (up E v) (up O v) (n + 1) s' else ok s'.
Lemma opened_error e v s' : ok s' → e ≠ 0 → opened e v s'.
Proof. intros Hs' He. unfold opened. by rewrite (proj2 (Z.eqb_neq e 0)). Qed.
Lemma open_vnode_spec path xs flags o :
  has_str path 0 xs →
  wp (if negb (Z.land flags O_CREAT =? 0) then
        let excl := negb (Z.land flags O_EXCL =? 0) in
        '(result, dir, name, path) <- vfs_lookparent path (NAME_MAX + 1);
        if negb (result =? 0) then ret (result, 0, path)
        else
          '(result, vn) <- on_ops (VOP_CREAT dir name excl);
          _ <- on_ops (VOP_DECREF dir);
          ret (result, vn, path)
      else vfs_lookup path) (λ r s' o', (plenty o → plenty o') ∧ took L E O n r.1.1 r.1.2 s') s o.
Proof.
  intros Hx. destruct (negb _); [|eapply vfs_lookup_spec; [done|lia|done]].
  cbn zeta. wp_step. wp_call (vfs_lookparent_spec L E O n s Hs); [lia|done|].
  intros [[[e a] na] pa] s1 o1 (Hp1 & Hna & Hs1). cbn [fst snd] in *. unfold took in Hs1.
  destruct (Z.eqb_spec e 0) as [-> | He]; cbn [negb].
  2:{ wp_step. split; [done|]. by apply took_error. }
  wp_step. eapply call_given; [done|lia|apply (creat_ok _ a); [eapply caller_ref; [done|caller Hs a]|by apply Hna]|].
  intros [e vn] d2 o2 Hs2 Hp2. cbn [fst snd] in *. wp_step. eapply call_decref; [done|lia|destruct (e =? 0); caller Hs a|].
  intros d3 o3 Hs3 Hp3. wp_step. split; [naive_solver|]. unfold took. cbn [fst snd]. destruct (e =? 0); balance Hs Hs3.
Qed.
Lemma vfs_open_spec path xs flags o :
  has_str path 0 xs → wp (vfs_open path flags) (λ r s' o', (plenty o → plenty o') ∧ opened r.1.1 r.1.2 s') s o.
Proof.
  intros Hx. unfold vfs_open. destruct (negb _); [by wp_step; split; [|apply opened_error]|].
  wp_step. wp_call open_vnode_spec; [done|]. intros [[e v] path'] s1 o1 [Hp1 Hs1]. cbn [fst snd] in *. unfold took in Hs1.
  destruct (Z.eqb_spec e 0) as [-> | He]; cbn [negb].
  2:{ wp_step. split; [done|]. apply opened_error; [|done]. balance Hs Hs1. }
  wp_step. eapply call_same; [done|lia|apply open_ok; eapply caller_ref; [done|caller Hs v]|]. intros e d2 o2 Hs2 Hp2.
  destruct (Z.eqb_spec e 0) as [-> | He]; cbn [negb].
  2:{ wp_step. eapply call_decref; [done|lia|caller Hs v|]. intros d3 o3 Hs3 Hp3. wp_step. split; [naive_solver|].
      apply opened_error; [|done]. balance Hs Hs3. }
  wp_step. eapply call_incopen; [done|lia|caller Hs v|]. intros d3 o3 Hs3 Hp3. wp_step.
  assert (∀ (m : K vs Z), wp m (λ _ s' o', (plenty o3 → plenty o') ∧ vfs_ok kd_idle L (up E v) (up O v) (n + 1) s') (set_ops d3 (set_ops d2 s1)) o3 →
    wp m (λ e s' o', wp (if negb (e =? 0) then
        _ <- on_ops (VOP_DECOPEN v); _ <- on_ops (VOP_DECREF v); ret (e, 0, path')
      else ret (0, v, path')) (λ r s' o', (plenty o → plenty o') ∧ opened r.1.1 r.1.2 s') s' o') (set_ops d3 (set_ops d2 s1)) o3) as Hend.
  { intros m Hm. wp_call Hm. intros e s4 o4 [Hp4 Hs4]. destruct (Z.eqb_spec e 0) as [-> | He]; cbn [negb].
    - wp_step. split; [naive_solver|]. done.
    - wp_step. eapply call_decopen; [done|lia|caller Hs v|]. intros d5 o5 Hs5 Hp5. wp_step.
      eapply call_decref; [done|lia|caller Hs v|]. intros d6 o6 Hs6 Hp6. wp_step. split; [naive_solver|].
      apply opened_error; [|done]. balance Hs Hs6. }
  apply Hend. destruct (negb _); [|by wp_step]. destruct (negb _); [by wp_step|].
  eapply call_same; [done|lia|apply truncate_ok; eapply caller_ref; [done|caller Hs v]|]. done.
Qed.
Lemma vfs_close_spec v o :
  0 < O v → wp (vfs_close v) (λ _ s' o', (plenty o → plenty o') ∧ vfs_ok kd_idle L (down E v) (down O v) n s') s o.
Proof.
  intros Hv. unfold vfs_close. wp_step. eapply call_decopen; [done|lia|done|]. intros d1 o1 Hs1 Hp1.
  eapply call_decref; [done|lia|caller Hs v|]. intros d2 o2 Hs2 Hp2. split; [naive_solver|done].
Qed.
End Operations.
(** The name of a boot file system gets a colon; the buffer cuts it off. *)
Lemma put_str buf xs : Forall (λ x, x ≠ 0) xs → (length xs < length buf)%nat → has_str (put buf 0 (xs ++ [0])) 0 xs.
Proof. intros Hx Hl. apply put_has_str; [done|lia|done]. Qed.
Lemma strcat_spec {S} dest src soff xs ys (st : S) o :
  has_str dest 0 xs → has_str src soff ys → (length xs + length ys < length dest)%nat →
  ∃ b, strcat dest src soff st o = Done (b, st, o) ∧ has_str b 0 (xs ++ ys).
Proof.
  intros Hx Hy Hl. unfold strcat, bind. rewrite (strlen_spec _ _ _ _ _ Hx), (strcpy_spec ys) by (done || lia).
  eexists. split; [done|]. apply has_str_split in Hx as (zs & -> & Hx). unfold put. rewrite Nat2Z.id, take_app_length, <- app_assoc, app_assoc.
  apply (has_str_mid []). apply Forall_app. split; [done|]. apply Forall_lookup. intros i y Hi. destruct Hy as (_ & Hy & _). by apply Hy in Hi as [_ ?].
Qed.
Lemma has_str_nonzero b off xs : has_str b off xs → Forall (λ x, x ≠ 0) xs.
Proof. intros (_ & Hx & _). apply Forall_lookup. intros i x Hi. by apply Hx in Hi as [_ ?]. Qed.
Lemma bootname_text {S} fsname xs (st : S) o :
  has_str fsname 0 xs → Z.of_nat (length xs) < 2 ^ 31 →
  ∃ k tmp, snprintf (replicate (Z.to_nat (NAME_MAX + 1)) 0) (NAME_MAX + 1 - 1) [37; 115; 0] [AStr (Some (fsname, 0))] st o =
    Done ((k, tmp), st, o) ∧ has_str tmp 0 (take 254 xs) ∧ length tmp = 256%nat.
Proof.
  intros Hx Hl. destruct (printf_string fsname 0 xs o Hx Hl) as [k Hk].
  pose proof (snprintf_run (replicate (Z.to_nat (NAME_MAX + 1)) 0) (NAME_MAX + 1 - 1) [37; 115; 0] [AStr (Some (fsname, 0))] st o) as Hr.
  rewrite Hk in Hr. destruct Hr as [_ Hr]; [unfold NAME_MAX; lia|rewrite length_replicate; unfold NAME_MAX; lia|].
  rewrite Hr. eexists _, _. split; [done|]. change (NAME_MAX + 1 - 1) with 255.
  change (NAME_MAX + 1) with 256. change (255 =? 0) with false. cbv iota. change (Z.to_nat (255 - 1)) with 254%nat.
  assert (length (take 254 xs) ≤ 254)%nat by (rewrite length_take; lia). split.
  - apply put_str; [by apply Forall_take, (has_str_nonzero _ _ _ Hx)|]. rewrite length_replicate. lia.
  - rewrite length_put; [by rewrite length_replicate|done|]. rewrite length_app, length_replicate. simpl. lia.
Qed.
(** [vfs_setbootfs] after the name is in the buffer *)
Lemma setbootfs_colon fsname xs s o :
  has_str fsname 0 xs → Forall char xs → Z.of_nat (length xs) < 2 ^ 31 → 58 ∈ take 254 xs →
  vfs_setbootfs fsname s o = Done (EINVAL, s, o).
Proof.
  intros Hx Hc Hl Hin. unfold vfs_setbootfs, bind at 1. destruct (bootname_text fsname xs s o Hx Hl) as (k & tmp & -> & Ht & _).
  unfold bind at 1. destruct (strchr_spec (take 254 xs) tmp 0 58 s o Ht) as (r & Hr & Hp); [by apply Forall_take|split; lia|].
  change (schar 58) with 58 in Hr. rewrite Hr. destruct r as [p|]; [|done]. destruct Hp as (i & -> & Hi & _). rewrite Z.add_0_l in *.
  assert (has_str tmp (Z.of_nat i) (drop i (take 254 xs))) as Hd.
  { apply has_str_split in Ht as (ys & -> & Hnz). rewrite <- (take_drop i (take 254 xs)) at 1. rewrite <- app_assoc.
    replace (Z.of_nat i) with (Z.of_nat (length (take i (take 254 xs)))).
    - apply has_str_mid. by apply Forall_drop.
    - f_equal. apply lookup_lt_Some in Hi. rewrite (length_take _ i). lia. }
  unfold bind at 1, bind at 1. rewrite (strlen_spec _ _ _ _ _ Hd). rewrite length_drop. apply lookup_lt_Some in Hi.
  unfold ret at 1. replace (0 <? _) with true by (symmetry; apply Z.ltb_lt; lia). done.
Qed.
Lemma vfs_setbootfs_spec L E O n s fsname xs o :
  vfs_ok kd_idle L E O n s → n < 2 ^ 30 - 8 → has_str fsname 0 xs → Forall char xs → Z.of_nat (length xs) < 2 ^ 31 →
  wp (vfs_setbootfs fsname) (λ _ s' o', (plenty o → plenty o') ∧ vfs_ok kd_idle L E O n s') s o.
Proof.
  intros Hs Hn Hx Hc Hl. destruct (decide (58 ∈ take 254 xs)) as [Hin|Hni].
  { unfold wp. by rewrite (setbootfs_colon _ xs). }
  unfold vfs_setbootfs. wp_step. unfold wp at 1. destruct (bootname_text fsname xs s o Hx Hl) as (k & tmp & -> & Ht & Htl).
  wp_step. destruct (strchr_spec (take 254 xs) tmp 0 58 s o Ht) as (r & Hr & Hp); [by apply Forall_take|split; lia|].
  change (schar 58) with 58 in Hr. unfold wp at 1. rewrite Hr. destruct r as [p|].
  { destruct Hp as (i & _ & Hi & _). by destruct Hni; eapply list_elem_of_lookup_2. }
  wp_step. wp_step. destruct (strcat_spec tmp [58; 0] 0 (take 254 xs) [58] s o Ht) as (b & Hb & Hstr).
  { apply (has_str_mid [] [58] []). by repeat constructor. } { rewrite length_take, Htl. change (length [58]) with 1%nat. lia. }
  unfold wp at 1. rewrite Hb. wp_step. wp_step. wp_call (vfs_chdir_spec L E O n s Hs Hn _ _ _ Hstr).
  intros r s1 o1 [Hp1 Hs1]. destruct (negb _); [by wp_step|]. wp_step. wp_call (vfs_getcurdir_spec L E O n s1 Hs1); [lia|].
  intros [e v] s2 o2 [[Hp2 Hg] _]. apply got_took in Hg. unfold took in Hg.
  destruct (Z.eqb_spec e 0) as [-> | He]; cbn [negb].
  - wp_step. wp_call (change_bootfs_spec L E O n ltac:(lia) s2 (Some v)).
    + eapply vfs_ok_ext; [| |apply Hg]; [|done]. intros w. unfold up, is_vnode, one. repeat case_decide; simplify_eq; lia.
    + intros w. split; [apply Hs|]. split; [apply Hs|apply Hs].
    + intros _ s3 o3 [Hp3 Hs3]. wp_step. split; [naive_solver|done].
  - wp_step. split; [naive_solver|]. eapply vfs_ok_max; [apply Hs|done].
Qed.
Lemma vfs_sync_spec L E O n s o : vfs_ok kd_idle L E O n s → n < 2 ^ 30 →
  wp vfs_sync (λ r s' o', (plenty o → plenty o') ∧ r = 0 ∧ vfs_ok kd_idle L E O n s') s o.
Proof.
  intros Hs Hn. unfold vfs_sync. wp_step. apply wp_kd_acquire; [apply Hs|].
  pose proof (vfs_ok_lock _ kd_held _ _ _ _ _ Hs) as Hs'. wp_step. eapply wp_devs_num; [apply Hs'|]. rewrite Nat2Z.id. wp_step.
  assert (∀ m (i : nat) s1 o1, (i + m = length L)%nat → vfs_ok kd_held L E O n s1 →
    wp (kfor m (Z.of_nat i) sync_dev) (λ _ s' o', (plenty o1 → plenty o') ∧ vfs_ok kd_held L E O n s') s1 o1) as Hloop.
  { induction m as [|m IH]; intros i s1 o1 Hm Hs1; cbn [kfor]; [by wp_step|]. wp_step. unfold sync_dev.
    destruct (lookup_lt_is_Some_2 L i ltac:(lia)) as [[p k] Hi]. wp_step. eapply wp_devs_guy; [apply Hs1|done|].
    wp_step. eapply wp_get_kd; [apply Hs1|done|]. intros kd _ (_ & _ & _ & _ & Hfs) _. replace (Z.of_nat i + 1) with (Z.of_nat (Datatypes.S i)) by lia. rewrite Hfs.
    destruct (kv_fs k) as [f|] eqn:Hf; [|wp_step; apply IH; [lia|done]]. wp_step. eapply call_same; [done..|apply sync_ok; by eapply kd_fs_ok|].
    intros _ d' o' Hs2 Hp. wp_step. wp_call IH; [lia|done|]. naive_solver. }
  wp_call (Hloop (length L) 0%nat); [done..|]. intros _ s1 o1 [Hp Hs1]. wp_step. apply wp_kd_release; [apply Hs1|].
  wp_step. split_and!; [done..|]. by eapply vfs_ok_lock.
Qed.
End VfsSpec.
