(* ===== verification/VfsSim.v ===== *)
(** * The virtual file system: its theorems

    A path name is resolved as [parse] says; no sequence of operations on path
    names loses or invents a reference to a vnode; the table of devices is a
    list of devices with distinct names, and the operations on it are those on
    the list. *)
From S2P Require Import Prelude Array LinkedList CString Printf Request Uio Vnode SfsVnode Files Vfs VfsSpec.

(** ** Sequences of operations by a program that keeps its open files *)
Inductive path_op : Type :=
  | POpen (path : list Z) (flags : Z)
  | PClose (i : nat) (** the open file [i], if there is one *)
  | PRemove (path : list Z)
  | PMkdir (path : list Z)
  | PRmdir (path : list Z)
  | PSymlink (contents path : list Z)
  | PRename (oldpath newpath : list Z)
  | PLink (oldpath newpath : list Z)
  | PChdir (path : list Z)
  | PClearcurdir
  | PSetbootfs (fsname : list Z)
  | PClearbootfs
  | PSync.
Definition op_ok (op : path_op) : Prop :=
  match op with
  | POpen p _ | PRemove p | PMkdir p | PRmdir p | PChdir p => is_str p
  | PRename p q | PLink p q | PSymlink p q => is_str p ∧ is_str q
  | PSetbootfs f => ∃ xs, has_str f 0 xs ∧ Forall char xs ∧ Z.of_nat (length xs) < 2 ^ 31
  | PClose _ | PClearcurdir | PClearbootfs | PSync => True
  end.

Section VfsSim.
  Context {D : Type} `{!VnodeOps D, !VnodeLaws D}.
  Abbreviation vs := (vfs D).
  Implicit Types (s : vs) (L : list (loc * kdv)) (E O : Z → Z) (d : D).

Definition keep {A} (H : list Z) (m : K vs A) : K vs (list Z) := _ <- m; ret H.
(** [H] are the vnodes of the open files. *)
Definition exec_op (H : list Z) (op : path_op) : K vs (list Z) :=
  match op with
  | POpen p flags =>
      '(e, v, _) <- vfs_open p flags;
      ret (if e =? 0 then H ++ [v] else H)
  | PClose i =>
      match H !! i with
      | Some v => _ <- vfs_close v; ret (delete i H)
      | None => ret H
      end
  | PRemove p => keep H (vfs_remove p)
  | PMkdir p => keep H (vfs_mkdir p)
  | PRmdir p => keep H (vfs_rmdir p)
  | PSymlink c p => keep H (vfs_symlink c p)
  | PRename p q => keep H (vfs_rename p q)
  | PLink p q => keep H (vfs_link p q)
  | PChdir p => keep H (vfs_chdir p)
  | PClearcurdir => keep H vfs_clearcurdir
  | PSetbootfs f => keep H (vfs_setbootfs f)
  | PClearbootfs => keep H vfs_clearbootfs
  | PSync => keep H vfs_sync
  end.
Fixpoint run_ops (H : list Z) (ops : list path_op) : K vs (list Z) :=
  match ops with
  | [] => ret H
  | op :: ops => H <- exec_op H op; run_ops H ops
  end.
(** The references of the open files *)
Definition held (H : list Z) (v : Z) : Z := Z.of_nat (length (filter (λ w, w = v) H)).
Abbreviation files_ok L H s := (vfs_ok kd_idle L (held H) (held H) (Z.of_nat (length H)) s).
Lemma held_snoc H v w : held (H ++ [v]) w = held H w + one v w.
Proof.
  unfold held, one. rewrite filter_app, length_app, filter_cons. case_decide; case_decide; subst; try done; simpl; lia.
Qed.
Lemma held_delete H i v w : H !! i = Some v → held (delete i H) w = held H w - one v w.
Proof.
  intros Hi. unfold held, one. rewrite delete_take_drop. rewrite <- (take_drop_middle H i v Hi) at 3.
  rewrite !filter_app, !length_app, filter_cons. case_decide; case_decide; subst; try done; simpl; lia.
Qed.
Lemma held_max H v : held H v ≤ Z.of_nat (length H).
Proof. unfold held. pose proof (length_filter (λ w, w = v) H). lia. Qed.
Lemma held_pos H i v : H !! i = Some v → 0 < held H v.
Proof.
  intros Hi. unfold held. assert (v ∈ filter (λ w, w = v) H) as Hin.
  { apply list_elem_of_filter. split; [done|]. by eapply list_elem_of_lookup_2. }
  destruct (filter _ H); [by apply elem_of_nil in Hin|]. simpl. lia.
Qed.
Lemma exec_op_spec L H op s o :
  files_ok L H s → Z.of_nat (length H) < 2 ^ 30 - 8 → op_ok op →
  wp (exec_op H op) (λ H' s' _, files_ok L H' s' ∧ (length H' ≤ S (length H))%nat) s o.
Proof.
  intros Hs Hl Hop.
  assert (∀ A (m : K vs A), wp m (λ _ s' o', (plenty o → plenty o') ∧ files_ok L H s') s o →
    wp (keep H m) (λ H' s' _, files_ok L H' s' ∧ (length H' ≤ S (length H))%nat) s o) as Hkeep.
  { intros A m Hm. unfold keep. wp_step. wp_call Hm. intros a s' o' [_ Hs']. wp_step. split; [done|lia]. }
  destruct op as [p fl|i|p|p|p|c p|p q|p q|p| |f| |]; cbn [exec_op op_ok] in *;
    try (match type of Hop with True => clear Hop | is_str _ ∧ _ => destruct Hop as [[xs Hx] [ys Hy]] | _ => destruct Hop as [xs Hx] end).
  - wp_step. wp_call (vfs_open_spec _ _ _ _ _ Hs Hl _ _ _ _ Hx). intros [[e v] p'] s' o' [_ Ho].
    cbn [fst snd] in Ho. wp_step. unfold opened in Ho. destruct (e =? 0); [|split; [done|lia]]. rewrite length_app. simpl. split; [|lia].
    eapply vfs_ok_max; [|eapply vfs_ok_ext; [..|exact Ho]]; intros w; unfold up; rewrite held_snoc; try done.
    pose proof (held_max H w). pose proof (one_bound v w). lia.
  - destruct (H !! i) as [v|] eqn:Hi; [|wp_step; split; [done|lia]].
    wp_step. wp_call (vfs_close_spec _ _ _ _ _ Hs Hl); [by eapply held_pos|].
    intros _ s' o' [_ Ho]. wp_step. apply lookup_lt_Some in Hi as Hlt. rewrite length_delete by done. split; [|lia].
    eapply vfs_ok_max; [|eapply vfs_ok_ext; [..|exact Ho]]; intros w; [|symmetry; by apply held_delete..].
    pose proof (held_max (delete i H) w) as Hm. by rewrite length_delete in Hm.
  - apply Hkeep. eapply in_parent_spec; [done..|apply remove_ok].
  - apply Hkeep. eapply in_parent_spec; [done..|apply mkdir_ok].
  - apply Hkeep. eapply in_parent_spec; [done..|apply rmdir_ok].
  - apply Hkeep. eapply in_parent_spec; [done..|]. intros d v name Hv Hname. apply symlink_ok; [done|done|]. by exists xs.
  - apply Hkeep. by eapply vfs_rename_spec.
  - apply Hkeep. by eapply vfs_link_spec.
  - apply Hkeep. by eapply vfs_chdir_spec.
  - apply Hkeep. wp_call vfs_clearcurdir_spec; [|done|naive_solver]. lia.
  - apply Hkeep. destruct Hx as (Hx & Hc & Hlen). by eapply vfs_setbootfs_spec.
  - apply Hkeep. unfold vfs_clearbootfs. apply change_bootfs_spec; [lia| |].
    + eapply vfs_ok_le; [|eapply vfs_ok_ext; [..|exact Hs]]; [lia| |done]. intros w. unfold is_vnode. rewrite decide_False by done. lia.
    + intros w. pose proof (vo_callers _ _ _ _ _ _ Hs w). pose proof (held_max H w). lia.
  - apply Hkeep. wp_call vfs_sync_spec; [done|lia|]. naive_solver.
Qed.
Lemma run_ops_spec L ops H s o :
  files_ok L H s → Z.of_nat (length H + length ops) < 2 ^ 30 - 8 → Forall op_ok ops →
  wp (run_ops H ops) (λ H' s' _, files_ok L H' s') s o.
Proof.
  intros Hs Hl Hops. revert H s o Hs Hl. induction Hops as [|op ops Hop _ IH]; intros H s o Hs Hl; cbn [run_ops length] in *; [by wp_step|].
  wp_step. wp_call (exec_op_spec L H op); [done|lia|done|]. intros H' s' o' [Hs' Hl']. apply IH; [done|lia].
Qed.

(** ** The table of devices as a list *)
Definition rawname (nm : list Z) : list Z := nm ++ [114; 97; 119].
Lemma wp_malloc (Q : bool → vs → oracle → Prop) s o :
  (∀ ok o', (plenty o → ok = true ∧ plenty o') → Q ok s o') → wp kmalloc_ok Q s o.
Proof.
  intros HQ. wp_step. apply HQ. intros Ho. split; [|by apply plenty_tail]. pose proof (plenty_head _ Ho) as Hf. unfold fails in Hf.
  destruct o as [|[] o]; done.
Qed.
Lemma kstrdup_spec (b : list Z) nm s o :
  has_str b 0 nm → wp (kstrdup b) (λ r s' o', s' = s ∧ (plenty o → plenty o') ∧
    match r with Some c => has_str c 0 nm | None => ¬ plenty o end) s o.
Proof.
  intros Hb. unfold kstrdup. wp_step. eapply wp_strlen; [done|]. wp_step. apply wp_malloc. intros ok o' Ho. destruct ok; cbn [negb].
  - wp_step. unfold wp at 1. rewrite (strcpy_spec nm) by (done || (rewrite length_replicate; lia)). wp_step. split_and!; [done|naive_solver|].
    apply put_str; [by eapply has_str_nonzero|]. rewrite length_replicate. lia.
  - wp_step. split_and!; [done|naive_solver|]. intros Hp. by destruct (Ho Hp).
Qed.
Lemma mkrawname_spec (b : list Z) nm s o :
  has_str b 0 nm → wp (mkrawname b) (λ r s' o', s' = s ∧ (plenty o → plenty o') ∧
    match r with Some c => has_str c 0 (rawname nm) | None => ¬ plenty o end) s o.
Proof.
  intros Hb. unfold mkrawname. wp_step. eapply wp_strlen; [done|]. wp_step. apply wp_malloc. intros ok o' Ho. destruct ok; cbn [negb].
  - wp_step. unfold wp at 1. rewrite (strcpy_spec nm) by (done || (rewrite length_replicate; lia)). wp_step.
    set (c := put _ _ _). assert (has_str c 0 nm) as Hc.
    { apply put_str; [by eapply has_str_nonzero|]. rewrite length_replicate. lia. }
    destruct (strcat_spec c raw_suffix 0 nm [114; 97; 119] s o' Hc) as (e & He & Hs).
    { apply (has_str_mid [] [114; 97; 119] []). by repeat constructor. }
    { unfold c. rewrite length_put; rewrite ?length_app, ?length_replicate; simpl; lia. }
    unfold wp at 1. rewrite He. wp_step. split_and!; [done|naive_solver|done].
  - wp_step. split_and!; [done|naive_solver|]. intros Hp. by destruct (Ho Hp).
Qed.
(** The names that a device takes, and that of its volume *)
Definition kv_taken d (k : kdv) : list (list Z) := kv_names k ++ option_list (f ← kv_fs k; vol d f).
Definition clash d L (k : kdv) : bool := existsb (λ x, existsb (λ nm, bool_decide (nm ∈ kv_taken d x)) (kv_taken d k)) L.*2.
Definition kv_vol d (k : kdv) : option (list Z) := f ← kv_fs k; vol d f.
Lemma taken_elem d k nm : nm ∈ kv_taken d k ↔ kv_name k = nm ∨ kv_raw k = Some nm ∨ kv_vol d k = Some nm.
Proof.
  unfold kv_taken, kv_names, kv_vol. rewrite elem_of_app, elem_of_cons.
  assert (∀ o : option (list Z), nm ∈ option_list o ↔ o = Some nm) as Ho.
  { intros [x|]; simpl; [rewrite list_elem_of_singleton; naive_solver|rewrite elem_of_nil; naive_solver]. }
  rewrite !Ho. naive_solver.
Qed.
Lemma same_str3_true a b c e : same_str3 a b c e = true ↔ ∃ nm, a = Some nm ∧ (b = Some nm ∨ c = Some nm ∨ e = Some nm).
Proof.
  assert (∀ x y, same_str x y = true ↔ ∃ nm, x = Some nm ∧ y = Some nm) as Hs.
  { intros [x|] [y|]; simpl; try (split; [done|by intros (? & ? & ?)]). rewrite bool_decide_eq_true. naive_solver. }
  unfold same_str3. rewrite !orb_true_iff, !Hs. naive_solver.
Qed.
Lemma clash_dev d x k :
  same_str3 (kv_vol d x) (Some (kv_name k)) (kv_raw k) (kv_vol d k)
  || (same_str3 (kv_raw x) (Some (kv_name k)) (kv_raw k) (kv_vol d k)
      || same_str3 (Some (kv_name x)) (Some (kv_name k)) (kv_raw k) (kv_vol d k)) =
  existsb (λ nm, bool_decide (nm ∈ kv_taken d x)) (kv_taken d k).
Proof.
  apply eq_true_iff_eq. rewrite !orb_true_iff, !same_str3_true, existsb_exists.
  setoid_rewrite bool_decide_eq_true. setoid_rewrite taken_elem. setoid_rewrite <- list_elem_of_In. setoid_rewrite taken_elem.
  assert (∀ a b : list Z, Some a = Some b ↔ a = b) as Hsome by (split; [by intros [= ->]|by intros ->]).
  setoid_rewrite Hsome. split.
  - intros [(nm & ? & ?)|[(nm & ? & ?)|(nm & ? & ?)]]; exists nm; tauto.
  - intros (nm & Hk & [Hx|[Hx|Hx]]); [right; right|right; left|left]; by exists nm.
Qed.
Lemma badnames_spec d L s n1 n2 n3 k o :
  table_ok L s → fs_table L d → vs_ops s = d → vn_ok d → knowndevs_lock s = Some kd_held →
  has_str n1 0 (kv_name k) → opt_str n2 (kv_raw k) → opt_str n3 (kv_vol d k) →
  wp (badnames (Some n1) n2 n3) (λ r s' o', r = clash d L k ∧ s' = s ∧ o' = o) s o.
Proof.
  intros Ht Hft Hd Hok Hlock H1 H2 H3. unfold badnames, assert_kdlock. do 3 wp_step. wp_step; [by rewrite Hlock|].
  wp_step. eapply wp_devs_num; [done|]. rewrite Nat2Z.id.
  assert (∀ m (i : nat), (i + m = length L)%nat → wp (badnames_loop m (Z.of_nat i) (Some n1) n2 n3)
    (λ r s' o', r = clash d (drop i L) k ∧ s' = s ∧ o' = o) s o) as Hloop; [|by apply (Hloop (length L) 0%nat)].
  induction m as [|m IH]; intros i Hm; cbn [badnames_loop].
  { wp_step. rewrite drop_ge by lia. done. }
  destruct (lookup_lt_is_Some_2 L i ltac:(lia)) as [[p x] Hi]. wp_step. eapply wp_devs_guy; [done..|].
  wp_step. eapply wp_get_kd; [done..|]. intros kd _ (Hnm & Hraw & _ & _ & Hfs) _. rewrite Hfs. wp_step.
  assert (∀ (b : bool) (Q : bool → vs → oracle → Prop), b = same_str3 (kv_vol d x) (Some (kv_name k)) (kv_raw k) (kv_vol d k) → Q b s o →
    wp match kv_fs x with Some fs => volname <- on_ops (FSOP_GETVOLNAME fs); samestring3 volname (Some n1) n2 n3 | None => ret false end Q s o) as Hvol.
  { intros b Q -> HQ. unfold kv_vol in *. destruct (kv_fs x) as [f|] eqn:Hf; cbn [mbind option_bind] in *; [|by wp_step].
    assert (fs_ok d f) by (eapply Hft; [by eapply list_elem_of_lookup_2|done]). wp_step. apply volname_call; [by rewrite Hd|by rewrite Hd|]. subst d.
    wp_call (samestring3_spec _ _ _ _ (vol (vs_ops s) f) (Some (kv_name k)) (kv_raw k)); [by apply vol_str|done..|].
    by intros r s' o' (-> & -> & ->). }
  eapply Hvol; [done|]. rewrite (drop_S _ _ _ Hi). unfold clash. cbn [fmap list_fmap existsb snd]. rewrite <- clash_dev.
  destruct (same_str3 (kv_vol d x) _ _ _); [by wp_step|]. wp_step.
  wp_call (samestring3_spec _ _ _ _ (kv_raw x) (Some (kv_name k)) (kv_raw k)); [done..|]. intros r s' o' (-> & -> & ->).
  destruct (same_str3 (kv_raw x) _ _ _); [by wp_step|]. wp_step.
  wp_call (samestring3_spec _ _ _ _ (Some (kv_name x)) (Some (kv_name k)) (kv_raw k)); [done..|]. intros r s' o' (-> & -> & ->).
  destruct (same_str3 (Some _) _ _ _); [by wp_step|]. replace (Z.of_nat i + 1) with (Z.of_nat (S i)) by lia. apply IH. lia.
Qed.
(** ** Adding a device *)
Lemma table_new L s : table_ok L s → fresh (dom (kds s)) ∉ L.*1.
Proof.
  intros Ht Hin. apply list_elem_of_fmap in Hin as ([p k] & Hp & Hin). destruct (to_devs _ _ Ht p k Hin) as (_ & kd & Hkd & _).
  apply (is_fresh (dom (kds s))). rewrite Hp. simpl. by eapply elem_of_dom_2.
Qed.
Lemma table_put L s p kd : table_ok L s → p ∉ L.*1 → table_ok L (set_kds (<[p := kd]> (kds s)) s).
Proof.
  intros [Ha Hl Hn Hd Hm] Hp. split; try done. intros q k Hin. destruct (Hd q k Hin) as (Hk & kd' & Hq & Hr). split; [done|].
  exists kd'. split; [|done]. simpl. rewrite lookup_insert_ne; [done|]. intros ->. apply Hp. apply list_elem_of_fmap. by exists (q, k).
Qed.
Lemma wp_devs_add L s p (Q : Z → vs → oracle → Prop) o :
  table_ok L s →
  (∀ a o', array_rep a (L.*1 ++ [p]) → (plenty o → plenty o') → Q 0 (set_devs (Some a) s) o') →
  (∀ o', ¬ plenty o → (plenty o → plenty o') → Q ENOMEM s o') → wp (on_devs (array_add p)) Q s o.
Proof.
  intros Ht H0 H1. destruct (to_arr _ _ Ht) as (a & Ha & Hr). pose proof (to_len _ _ Ht). unfold on_devs. do 2 wp_step. rewrite Ha.
  do 4 wp_step. wp_call (array_add_spec _ _ _ _ Hr); [rewrite length_fmap; lia|]. intros r a' o' (-> & Hc).
  assert (plenty o → plenty (if Array.num a <? max a then o else list.tail o)) as Hp.
  { intros Hp. destruct (_ <? _); [done|by apply plenty_tail]. }
  do 3 wp_step. destruct Hc as [(-> & _ & Ha')|(-> & _ & Hf & ->)]; [by apply H0|].
  replace (set_devs (Some a) s) with s by (destruct s; simpl in *; by subst). apply H1; [|done]. intros Hpl. by apply plenty_head in Hpl.
Qed.
Lemma clash_false d L k x nm : clash d L k = false → x ∈ L.*2 → nm ∈ kv_taken d k → nm ∉ kv_taken d x.
Proof.
  intros Hc Hx Hk Hnm. enough (clash d L k = true) by congruence. unfold clash. apply existsb_exists. exists x.
  split; [by apply list_elem_of_In|]. apply existsb_exists. exists nm. split; [by apply list_elem_of_In|]. by apply bool_decide_eq_true.
Qed.
Lemma table_add d L s a p k kd :
  table_ok L s → p ∉ L.*1 → kds s !! p = Some kd → kd_rep kd k → kv_ok k → NoDup (kv_names k) →
  clash d L k = false → array_rep a (L.*1 ++ [p]) → Z.of_nat (length L) + 1 < 2 ^ 28 →
  table_ok (L ++ [(p, k)]) (set_devs (Some a) s).
Proof.
  intros [Ha Hl Hn Hd Hm] Hp Hkd Hrep Hk Hnk Hc Ha' Hlen. split.
  - exists a. split; [done|]. by rewrite fmap_app.
  - rewrite length_app. simpl. lia.
  - rewrite fmap_app. apply NoDup_app. split_and!; [done| |apply NoDup_singleton]. intros q Hq Hq'.
    apply list_elem_of_singleton in Hq'. by subst q.
  - intros q x [Hin|Hin]%elem_of_app; [by apply Hd|]. apply list_elem_of_singleton in Hin as [= -> ->]. split; [done|]. by exists kd.
  - unfold dev_names. rewrite !fmap_app, concat_app. simpl. rewrite app_nil_r. apply NoDup_app. split_and!; [done| |done].
    intros nm Hin Hnm. apply list_elem_of_In, in_concat in Hin as (xs & Hxs & Hin). apply list_elem_of_In in Hxs, Hin.
    apply list_elem_of_fmap in Hxs as (x & -> & Hx). eapply (clash_false d L k x nm); [done|done| |]; apply elem_of_app; by left.
Qed.
Lemma new_names nm b : NoDup (nm :: option_list (if b : bool then Some (rawname nm) else None)).
Proof.
  destruct b; simpl; [|apply NoDup_singleton]. apply NoDup_cons. split; [|apply NoDup_singleton].
  intros Hin%list_elem_of_singleton. apply (f_equal length) in Hin. unfold rawname in Hin. rewrite length_app in Hin. simpl in Hin. lia.
Qed.
Definition new_dev (nm : list Z) (mountable : bool) (dev v : Z) : kdv :=
  mkKdv nm (if mountable then Some (rawname nm) else None) (Some dev) v None.
(** The device was not added, and its vnode stays in use. *)
Definition leaked L s s' : Prop := ∃ v, vkeep (vs_ops s) (vs_ops s') (one v) none ∧ table_ok L s'.
Lemma clash_ext d d' L k :
  (∀ f, fs_same d d' f) → fs_table L d → (∀ f, kv_fs k = Some f → fs_ok d f) → clash d' L k = clash d L k.
Proof.
  intros Hv [Hft _] Hk. assert (∀ x, (∀ f, kv_fs x = Some f → fs_ok d f) → kv_taken d' x = kv_taken d x) as Ht.
  { intros x Hx. unfold kv_taken, vol. destruct (kv_fs x) as [f|]; simpl; [|done]. by destruct (Hv f) as (_ & -> & _); [apply Hx|]. }
  assert (∀ x, x ∈ L.*2 → ∀ f, kv_fs x = Some f → fs_ok d f) as HL.
  { intros x ([p y] & -> & Hin)%list_elem_of_fmap f. by apply Hft with p. }
  unfold clash. induction (L.*2) as [|x xs IH]; [done|]. cbn [existsb]. rewrite IH; [|intros y Hy; apply HL; by right].
  rewrite (Ht k), (Ht x); [done|apply HL; by left|done].
Qed.
Lemma fs_table_snoc L d p k :
  fs_table L d → (∀ f, kv_fs k = Some f → fs_ok d f ∧ ∀ q x, (q, x) ∈ L → kv_fs x ≠ Some f) → fs_table (L ++ [(p, k)]) d.
Proof.
  intros [Hf Hn] Hk. split.
  - intros q x f [Hin|Hin]%elem_of_app Hx; [by eapply Hf|]. apply list_elem_of_singleton in Hin as [= -> ->]. by apply Hk.
  - rewrite fmap_app, omap_app. cbn [fmap list_fmap snd omap list_omap]. destruct (kv_fs k) as [f|]; [|by rewrite app_nil_r].
    apply NoDup_app. split_and!; [done| |apply NoDup_singleton]. intros g Hg Hg'. apply list_elem_of_singleton in Hg' as ->.
    apply list_elem_of_omap in Hg as (x & Hx & Hxf). apply list_elem_of_fmap in Hx as ([q y] & -> & Hin). destruct (Hk f) as [_ Hno]; [done|].
    by eapply Hno.
Qed.
Lemma kd_refs_snoc L p k v : kd_refs (L ++ [(p, k)]) v = kd_refs L v + one (kv_vnode k) v.
Proof.
  unfold kd_refs, one. rewrite filter_app, length_app, filter_cons. cbn [snd]. case_decide; case_decide; subst; try done; simpl; lia.
Qed.
Lemma vfs_ok_created L E O n s d' v p k s' :
  vfs_ok kd_idle L E O n s → vrefs (vs_ops s) v ≤ 0 → vkeep (vs_ops s) d' (one v) none → kv_vnode k = v →
  vs_ops s' = d' → t_cwd s' = t_cwd s → bootfs_vnode s' = bootfs_vnode s → knowndevs_lock s' = Some kd_idle → bootfs_lock s' = bootfs_lock s →
  table_ok (L ++ [(p, k)]) s' → (∀ f, kv_fs k = Some f → fs_ok (vs_ops s) f ∧ ∀ q x, (q, x) ∈ L → kv_fs x ≠ Some f) →
  vfs_ok kd_idle (L ++ [(p, k)]) E O n s'.
Proof.
  intros Hs Hv [(Hok & Hr & Ho & Hfs) Hsame] <- Hd Hc Hb Hl Hbl Ht Hkf. pose proof (λ v, cwd_used _ _ _ _ _ _ v Hs) as Hu.
  destruct Hs as [? Hr' Ho' ? ? Hdev Hcwd ? ? ? Hft]. split; try done; rewrite ?Hd; try done.
  - intros w. rewrite Hr, Hr'. unfold kept_refs. rewrite kd_refs_snoc, Hc, Hb. lia.
  - intros w. rewrite Ho, Ho'. unfold none. lia.
  - intros w Hw Hn. rewrite kd_refs_snoc. pose proof (kd_refs_nonneg L w). unfold one. case_decide as Hwv; [lia|].
    rewrite Hr in Hw. unfold one in Hw. rewrite decide_False in Hw by done. rewrite Z.add_0_r in *. apply Hdev; [lia|].
    rewrite <- Hfs by lia. done.
  - intros w. rewrite Hc. intros Hw. rewrite Hfs; [by apply Hcwd|by apply Hu].
  - by rewrite Hbl.
  - apply fs_table_snoc; [by eapply fs_table_same|]. intros f Hf. destruct (Hkf f Hf). split; [by apply Hsame|done].
Qed.
Section Add.
  Context (L : list (loc * kdv)) (E O : Z → Z) (n : Z) (s : vs) (dname nm : list Z) (mountable : bool) (dv : Z).
  Hypothesis Hs : vfs_ok kd_idle L E O n s.
  Hypothesis Hn : n < 2 ^ 30.
  Hypothesis Hname : has_str dname 0 nm.
  Hypothesis Hlen : Z.of_nat (length L) + 1 < 2 ^ 28.
  Hypothesis Hdev : dev_ok (vs_ops s) dv.
Let k v : kdv := new_dev nm mountable dv v.
(** The end of [vfs_doadd], when there is memory for the entry *)
Lemma doadd_table d v name raw o :
  vrefs (vs_ops s) v ≤ 0 → vkeep (vs_ops s) d (one v) none → has_str name 0 nm → opt_str raw (kv_raw (k v)) → plenty o →
  wp (s <- kget;
      let p := fresh (dom (kds s)) in
      _ <- put_kd p (mkKd name raw (Some dv) v None);
      volname <- ret None;
      _ <- on_kdlock ulock_acquire;
      bad <- badnames (Some name) raw volname;
      err <- (if bad : bool then ret EEXIST else on_devs (array_add p));
      _ <- on_kdlock ulock_release;
      ret err)
    (λ r s' o', (r = EEXIST ∧ clash (vs_ops s) L (k v) = true ∧ leaked L s s') ∨
       (r = 0 ∧ clash (vs_ops s) L (k v) = false ∧ (∀ f, fs_same (vs_ops s) (vs_ops s') f) ∧ (t_cwd s' = t_cwd s ∧ bootfs_vnode s' = bootfs_vnode s) ∧
        ∃ p, vfs_ok kd_idle (L ++ [(p, k v)]) E O n s')) (set_ops d s) o.
Proof.
  intros Hfree Hkeep Hnm Hraw Hmem. pose proof Hkeep as [(Hok & _) Hvol].
  assert (table_ok L (set_ops d s)) as Ht by (destruct (vo_table _ _ _ _ _ _ Hs); by split).
  pose proof (table_new _ _ Ht) as Hp. do 2 wp_step. set (p := fresh _) in *. cbn zeta. wp_step. unfold put_kd. do 2 wp_step.
  set (kd := mkKd _ _ _ _ _). pose proof (table_put _ _ _ kd Ht Hp) as Ht1. set (s1 := set_kds _ _) in *.
  wp_step. wp_step. apply wp_kd_acquire; [apply Hs|]. wp_step.
  assert (table_ok L (set_kdlock (Some kd_held) s1)) as Ht2 by (destruct Ht1; by split).
  assert (∀ f, kv_fs (k v) = Some f → fs_ok (vs_ops s) f) as Hkf by done.
  assert (clash d L (k v) = clash (vs_ops s) L (k v)) as Hce by (apply clash_ext; [done|apply Hs|done]).
  wp_call (badnames_spec d L _ _ _ _ (k v)); [done|eapply fs_table_same; [apply Hs|done]|done..|]. intros bad s' o' (-> & -> & ->). rewrite Hce.
  wp_step. destruct (clash (vs_ops s) L (k v)) eqn:Hc.
  - wp_step. wp_step. apply wp_kd_release; [done|]. wp_step. left. split_and!; [done..|].
    exists v. split; [done|]. destruct Ht2. by split.
  - eapply wp_devs_add; [done|..].
    + intros a o' Ha Hp'. wp_step. apply wp_kd_release; [done|]. wp_step. right. split_and!; [done..|].
      exists p. eapply (vfs_ok_created L E O n s d v); try done.
      assert (table_ok (L ++ [(p, k v)]) (set_devs (Some a) (set_kdlock (Some kd_held) s1))) as Hta; [|destruct Hta; by split].
      eapply (table_add d _ _ _ _ _ kd); try done; [by unfold s1; simplify_map_eq/=|].
      apply new_names.
    + done.
Qed.
Lemma vfs_doadd_spec o : plenty o →
  wp (vfs_doadd dname mountable (Some dv) None) (λ r s' o',
    (r = EEXIST ∧ clash (vs_ops s) L (k 0) = true ∧ leaked L s s') ∨
    (r = 0 ∧ clash (vs_ops s) L (k 0) = false ∧ (∀ f, fs_same (vs_ops s) (vs_ops s') f) ∧ (t_cwd s' = t_cwd s ∧ bootfs_vnode s' = bootfs_vnode s) ∧
     ∃ p v, vrefs (vs_ops s) v ≤ 0 ∧ vfs_ok kd_idle (L ++ [(p, k v)]) E O n s')) s o.
Proof.
  intros Hmem. unfold vfs_doadd. wp_step. wp_call (kstrdup_spec _ _ _ _ Hname). intros name s' o1 (-> & Hp1 & Hnm).
  destruct name as [name|]; [|done]. wp_step.
  assert (∀ Q : bool * option (list Z) → vs → oracle → Prop,
    (∀ raw o', plenty o' → opt_str raw (kv_raw (k 0)) → Q (true, raw) s o') →
    wp (if mountable then raw <- mkrawname name; ret (bool_decide (raw ≠ None), raw) else ret (true, None)) Q s o1) as Hraw.
  { intros Q HQ. unfold k, new_dev in HQ. destruct mountable; cbn [kv_raw] in HQ; [|by wp_step; apply HQ; [apply Hp1|]]. wp_step.
    wp_call (mkrawname_spec _ _ _ _ Hnm). intros raw s' o' (-> & Hp & Hr). wp_step. destruct raw as [raw|]; [|by destruct Hr; apply Hp1].
    rewrite bool_decide_true by done. apply HQ; [naive_solver|done]. }
  apply Hraw. intros raw o2 Hp2 Hr. cbn [negb]. wp_step. apply wp_ops. wp_call create_vnode_ok; [apply Hs|by eapply vfs_room|done|done|].
  intros r d o3 (Hp3 & v & -> & Hfree & _ & Hkeep). cbn beta iota. wp_step. apply wp_malloc. intros ok o4 Hp4.
  destruct (Hp4 Hp3) as [-> Hp5]. cbn [negb]. wp_call doadd_table; [done..|].
  intros r s' o5 [(-> & Hc & Hl)|(-> & Hc & Hv & [Hcb1 Hcb2] & p & Hok)]; [by left|right]. split_and!; [done..|]. by exists p, v.
Qed.
End Add.

(** ** Mounting and unmounting *)
Abbreviation mounts nm := (λ x : loc * kdv, kv_raw x.2 ≠ None ∧ kv_name x.2 = nm).
Definition kv_set_fs (fs : option Z) (k : kdv) : kdv := mkKdv (kv_name k) (kv_raw k) (kv_dev k) (kv_vnode k) fs.
Definition set_mount L (i : nat) (fs : option Z) : list (loc * kdv) := alter (λ x, (x.1, kv_set_fs fs x.2)) i L.
Lemma findmount_spec L s devname nm o :
  table_ok L s → knowndevs_lock s = Some kd_held → has_str devname 0 nm →
  wp (findmount devname) (λ r s' o', r = (λ x, x.2.1) <$> list_find (mounts nm) L ∧ s' = s ∧ o' = o) s o.
Proof.
  intros Ht Hlock Hd. unfold findmount, assert_kdlock. do 3 wp_step. wp_step; [by rewrite Hlock|].
  wp_step. eapply wp_devs_num; [done|]. rewrite Nat2Z.id.
  assert (∀ m (i : nat), (i + m = length L)%nat → wp (findmount_loop m (Z.of_nat i) devname)
    (λ r s' o', r = (λ x, x.2.1) <$> list_find (mounts nm) (drop i L) ∧ s' = s ∧ o' = o) s o) as Hloop; [|by apply (Hloop (length L) 0%nat)].
  induction m as [|m IH]; intros i Hm; cbn [findmount_loop].
  { wp_step. rewrite drop_ge by lia. done. }
  destruct (lookup_lt_is_Some_2 L i ltac:(lia)) as [[p x] Hi]. wp_step. eapply wp_devs_guy; [done..|].
  wp_step. eapply wp_get_kd; [done..|]. intros kd _ (Hnm & Hraw & _ & _ & Hfs) _. rewrite (drop_S _ _ _ Hi). cbn [list_find].
  replace (Z.of_nat i + 1) with (Z.of_nat (S i)) by lia.
  assert (¬ mounts nm (p, x) → wp (findmount_loop m (Z.of_nat (S i)) devname) (λ r s' o',
    r = (λ x, x.2.1) <$> (if decide (mounts nm (p, x)) then Some (0%nat, (p, x)) else prod_map S id <$> list_find (mounts nm) (drop (S i) L)) ∧ s' = s ∧ o' = o) s o) as Hnext.
  { intros Hno. rewrite decide_False by done. wp_call IH; [lia|]. intros r s' o' (-> & -> & ->). split_and!; try done.
    by destruct (list_find _ (drop (S i) L)) as [[? []]|]. }
  destruct (kd_rawname kd) as [rw|], (kv_raw x) as [kr|] eqn:Hkr; try done.
  - wp_step. eapply wp_strcmp; [done..|]. intros c ->. destruct (bool_decide_reflect (nm = kv_name x)) as [Heq|Hne].
    + wp_step. rewrite decide_True by (simpl; rewrite Hkr; done). done.
    + apply Hnext. simpl. intros [_ ?]. by subst.
  - apply Hnext. simpl. by intros [? _].
Qed.
Lemma set_mount_loc L i fs : (set_mount L i fs).*1 = L.*1.
Proof. apply list_eq. intros j. rewrite !list_lookup_fmap. unfold set_mount. destruct (decide (j = i)) as [->|];
  [rewrite list_lookup_alter_eq|rewrite list_lookup_alter_ne by done]; by destruct (L !! _). Qed.
Lemma set_mount_names L i fs : dev_names (set_mount L i fs) = dev_names L.
Proof.
  unfold dev_names. f_equal. apply list_eq. intros j. rewrite !list_lookup_fmap. unfold set_mount. destruct (decide (j = i)) as [->|];
  [rewrite list_lookup_alter_eq|rewrite list_lookup_alter_ne by done]; by destruct (L !! _).
Qed.
Lemma set_mount_refs L i fs v : kd_refs (set_mount L i fs) v = kd_refs L v.
Proof.
  unfold kd_refs, set_mount. f_equal. revert i. induction L as [|x L IH]; intros i; [done|].
  destruct i as [|i]; cbn [alter list_alter]; rewrite !filter_cons; cbn [snd kv_set_fs kv_vnode]; case_decide; try done; simpl; by rewrite IH.
Qed.
Lemma table_set L s (i : nat) p k kd fs :
  table_ok L s → L !! i = Some (p, k) → kds s !! p = Some kd → kd_rep kd k → kv_raw k ≠ None →
  table_ok (set_mount L i fs) (set_kds (<[p := set_fs fs kd]> (kds s)) s).
Proof.
  intros [Ha Hl Hn Hd Hm] Hi Hp (? & ? & ? & ? & ?) Hraw. split; rewrite ?set_mount_loc, ?set_mount_names; try done.
  - unfold set_mount. by rewrite length_alter.
  - intros q x [j Hj]%list_elem_of_lookup. unfold set_mount in Hj. destruct (decide (j = i)) as [->|Hne].
    + rewrite list_lookup_alter_eq, Hi in Hj. simpl in Hj. injection Hj as <- <-. split.
      * intros _. destruct (Hd p k) as [Hk _]; [by eapply list_elem_of_lookup_2|]. simpl. apply Hk. by right.
      * exists (set_fs fs kd). simpl. rewrite lookup_insert_eq. by split_and!.
    + rewrite list_lookup_alter_ne in Hj by done. destruct (Hd q x) as (Hk & kd' & Hq & Hr); [by eapply list_elem_of_lookup_2|].
      split; [done|]. exists kd'. split; [|done]. simpl. rewrite lookup_insert_ne; [done|]. intros ->. apply Hne.
      eapply (NoDup_lookup L.*1); [done| |]; rewrite list_lookup_fmap; [by rewrite Hj|by rewrite Hi].
Qed.
Lemma set_mount_split L (i : nat) p k fs : L !! i = Some (p, k) →
  ∃ L1 L2, L = L1 ++ (p, k) :: L2 ∧ set_mount L i fs = L1 ++ (p, kv_set_fs fs k) :: L2.
Proof.
  revert i. induction L as [|x L IH]; intros [|i] Hi; simplify_eq/=; [by exists [], L|].
  destruct (IH i Hi) as (L1 & L2 & HL & Hset). exists (x :: L1), L2. unfold set_mount in *. cbn [alter list_alter app]. by rewrite Hset, HL at 1.
Qed.
(** The file systems that are mounted, but for that of one device *)
Lemma fs_table_split L1 L2 p k d : fs_table (L1 ++ (p, k) :: L2) d ↔
  (∀ f, f ∈ omap kv_fs (L1 ++ L2).*2 → fs_ok d f) ∧ NoDup (omap kv_fs (L1 ++ L2).*2) ∧
  (∀ f, kv_fs k = Some f → fs_ok d f ∧ f ∉ omap kv_fs (L1 ++ L2).*2).
Proof.
  unfold fs_table. assert (Permutation (omap kv_fs (L1 ++ (p, k) :: L2).*2) (option_list (kv_fs k) ++ omap kv_fs (L1 ++ L2).*2)) as Hp.
  { rewrite !fmap_app, !omap_app. cbn [fmap list_fmap snd omap list_omap]. destruct (kv_fs k); simpl; [|done]. by rewrite Permutation_middle. }
  rewrite Hp, NoDup_app. assert ((∀ q x f, (q, x) ∈ L1 ++ (p, k) :: L2 → kv_fs x = Some f → fs_ok d f) ↔
    ∀ f, f ∈ option_list (kv_fs k) ++ omap kv_fs (L1 ++ L2).*2 → fs_ok d f) as ->.
  { setoid_rewrite <- Hp. setoid_rewrite list_elem_of_omap. setoid_rewrite list_elem_of_fmap. split.
    - intros H f (x & ([q y] & -> & Hin) & Hx). by eapply H.
    - intros H q x f Hin Hx. apply H. exists x. split; [|done]. by exists (q, x). }
  setoid_rewrite elem_of_app. destruct (kv_fs k) as [f|]; cbn [option_list].
  - setoid_rewrite list_elem_of_singleton. split.
    + intros (H1 & H2 & H3 & H4). split_and!; [naive_solver|done|]. intros g [= <-]. naive_solver.
    + intros (H1 & H2 & H3). split_and!; [naive_solver|apply NoDup_singleton|naive_solver|done].
  - setoid_rewrite elem_of_nil. split.
    + intros (H1 & _ & _ & H4). split_and!; [naive_solver|done|done].
    + intros (H1 & H2 & _). split_and!; [naive_solver|apply NoDup_nil_2|naive_solver|done].
Qed.
Lemma vfs_ok_set lk L E O n s d' (i : nat) p k kd fs :
  vfs_ok lk L E O n s → vcounts (vs_ops s) d' none none →
  L !! i = Some (p, k) → kds s !! p = Some kd → kd_rep kd k → kv_raw k ≠ None → fs_table (set_mount L i fs) d' →
  vfs_ok lk (set_mount L i fs) E O n (set_kds (<[p := set_fs fs kd]> (kds s)) (set_ops d' s)).
Proof.
  intros Hs (Hok & Hrf & Hop & Hvf) Hi Hp Hr Hraw Hft. pose proof (λ v, cwd_used _ _ _ _ _ _ v Hs) as Hu.
  pose proof (table_set _ _ _ _ _ _ fs (vo_table _ _ _ _ _ _ Hs) Hi Hp Hr Hraw) as Ht.
  destruct Hs as [? Hr' Ho' ? ? Hdev Hcwd ? ? ? ?]. unfold none in *. split; try done; cbn [vs_ops set_kds set_ops t_cwd].
  - intros v. rewrite Hrf, Hr'. unfold kept_refs. simpl. rewrite set_mount_refs. lia.
  - intros v. rewrite Hop, Ho'. lia.
  - intros v Hv Hn. rewrite Hrf, Z.add_0_r in Hv. rewrite set_mount_refs. apply Hdev; [done|]. by rewrite <- Hvf.
  - intros v Hv. rewrite Hvf; [by apply Hcwd|by apply Hu].
  - destruct Ht. by split.
Qed.
Lemma omap_same L d d' : (∀ f, f ∈ omap kv_fs L.*2 → fs_ok d f) → (∀ f, fs_same d d' f) → ∀ f, f ∈ omap kv_fs L.*2 → fs_ok d' f.
Proof. intros Hf Hs f Hin. by apply Hs, Hf. Qed.
(** A function that mounts a file system: it changes no reference, and the
    file system is a new one. *)
Definition mount_ok (mf : Z → K D (Z * option Z)) : Prop := ∀ d dev o, vn_ok d → room d →
  wp (mf dev) (λ r d' o', (plenty o → plenty o') ∧ vstep d d' none none ∧
    (r.1 = 0 → ∃ f, r.2 = Some f ∧ ¬ fs_ok d f ∧ fs_ok d' f)) d o.
Lemma vfs_ok_same_step lk L E O n s d' : vfs_ok lk L E O n s → vstep (vs_ops s) d' none none → vfs_ok lk L E O n (set_ops d' s).
Proof.
  intros Hs Hst. pose proof (vfs_ok_step _ _ _ _ _ 0 _ _ _ _ Hs Hst) as H. unfold none in H. rewrite Z.add_0_r in H.
  eapply vfs_ok_ext; [| |apply H]; try (intros w; cbn beta; try lia). pose proof (vo_callers _ _ _ _ _ _ Hs w). lia.
Qed.
Lemma fs_table_mount L d d' (i : nat) p k f : fs_table L d → (∀ g, fs_same d d' g) → L !! i = Some (p, k) →
  ¬ fs_ok d f → fs_ok d' f → fs_table (set_mount L i (Some f)) d'.
Proof.
  intros Hft Hs Hi Hno Hf. destruct (set_mount_split L i p k (Some f) Hi) as (L1 & L2 & -> & ->).
  apply fs_table_split in Hft as (H1 & H2 & _). apply fs_table_split. split_and!; [by eapply omap_same|done|].
  intros g [= <-]. split; [done|]. intros Hin. by apply Hno, H1.
Qed.
Lemma fs_table_unmount L d d' (i : nat) p k f : fs_table L d → L !! i = Some (p, k) → kv_fs k = Some f →
  (∀ g, g ≠ f → fs_same d d' g) → fs_table (set_mount L i None) d'.
Proof.
  intros Hft Hi Hk Hs. destruct (set_mount_split L i p k None Hi) as (L1 & L2 & -> & ->).
  apply fs_table_split in Hft as (H1 & H2 & H3). apply fs_table_split. destruct (H3 f Hk) as [_ Hno]. split_and!; [|done|done].
  intros g Hg. apply Hs; [|by apply H1]. intros ->. done.
Qed.
(** What [vfs_mount] and [vfs_unmount] do to the list *)
Definition mounted L (nm : list Z) (r : Z) L' : Prop :=
  match list_find (mounts nm) L with
  | None => r = ENODEV ∧ L' = L
  | Some (i, (_, k)) =>
      match kv_fs k with
      | Some _ => r = EBUSY ∧ L' = L
      | None => if r =? 0 then ∃ f, L' = set_mount L i (Some f) else L' = L
      end
  end.
Definition unmounted L (nm : list Z) (r : Z) L' : Prop :=
  match list_find (mounts nm) L with
  | None => r = ENODEV ∧ L' = L
  | Some (i, (_, k)) =>
      match kv_fs k with
      | None => r = EINVAL ∧ L' = L
      | Some _ => if r =? 0 then L' = set_mount L i None else L' = L
      end
  end.
Lemma sync_call lk L E O n s f (Q : Z → vs → oracle → Prop) o :
  vfs_ok lk L E O n s → n < 2 ^ 30 → fs_ok (vs_ops s) f →
  (∀ r d' o', 0 ≤ r < sys_nerr → vfs_ok lk L E O n (set_ops d' s) → fs_ok d' f → (plenty o → plenty o') → Q r (set_ops d' s) o') →
  wp (on_ops (FSOP_SYNC f)) Q s o.
Proof.
  intros Hs Hn Hf HQ. assert (room (vs_ops s)) as Hroom by (by eapply vfs_room). assert (vn_ok (vs_ops s)) as Hok by apply Hs.
  apply wp_ops. eapply wp_mono; [eapply wp_and; [by apply sync_ok|by apply (sync_err (vs_ops s) f)]|].
  intros r d' o' [[Hst Hp] Hr]. apply HQ; [done| | |done]; [by apply vfs_ok_same_step|]. destruct Hst as [[_ Hsame] _]. by apply Hsame.
Qed.
(** After an unmount without error the entry of the device is to be changed. *)
Lemma unmount_call lk L E O n s f (i : nat) p k kd (Q : Z → vs → oracle → Prop) o :
  vfs_ok lk L E O n s → n < 2 ^ 30 → L !! i = Some (p, k) → kv_fs k = Some f → kds s !! p = Some kd → kd_rep kd k → kv_raw k ≠ None →
  (∀ r d' o', 0 ≤ r < sys_nerr → (plenty o → plenty o') → (if r =? 0
     then vfs_ok lk (set_mount L i None) E O n (set_kds (<[p := set_fs None kd]> (kds s)) (set_ops d' s))
     else vfs_ok lk L E O n (set_ops d' s)) → Q r (set_ops d' s) o') →
  wp (on_ops (FSOP_UNMOUNT f)) Q s o.
Proof.
  intros Hs Hn Hi Hk Hkd Hrep Hraw HQ. assert (room (vs_ops s)) as Hroom by (by eapply vfs_room). assert (vn_ok (vs_ops s)) as Hok by apply Hs.
  assert (fs_ok (vs_ops s) f) as Hf by (by eapply kd_fs_ok).
  apply wp_ops. eapply wp_mono; [eapply wp_and; [by apply unmount_ok|by apply (unmount_err (vs_ops s) f)]|].
  intros r d' o' [(Hcnt & Hfree & Hp & Hsame) Hr]. apply HQ; [done|done|]. destruct (Z.eqb_spec r 0) as [-> | Hne].
  - eapply (vfs_ok_set _ _ _ _ _ s d'); try done. eapply fs_table_unmount; [apply Hs|done..|]. intros g Hg. apply Hsame. by left.
  - apply vfs_ok_same_step; [done|]. split; [split; [done|]|].
    + intros g. apply Hsame. by right.
    + intros w Hw Hw'. specialize (Hfree w Hw). lia.
Qed.
Section Mount.
  Context (L : list (loc * kdv)) (E O : Z → Z) (n : Z) (s : vs).
  Hypothesis Hs : vfs_ok kd_idle L E O n s.
  Hypothesis Hn : n < 2 ^ 30.
(** Code with the lock of the table, on a device that can be mounted *)
Lemma on_mount devname nm (none_err : Z) (body : loc → K vs Z) (R : Z → list (loc * kdv) → Prop) o :
  has_str devname 0 nm → (list_find (mounts nm) L = None → R none_err L) →
  (∀ i p k kd s1, list_find (mounts nm) L = Some (i, (p, k)) → vfs_ok kd_held L E O n s1 → L !! i = Some (p, k) →
    kds s1 !! p = Some kd → kd_rep kd k → kv_raw k ≠ None → kv_dev k ≠ None →
    wp (body p) (λ r s' o', (plenty o → plenty o') ∧ ∃ L', R r L' ∧ vfs_ok kd_held L' E O n s') s1 o) →
  wp (_ <- on_kdlock ulock_acquire;
      p <- findmount devname;
      result <- match p with None => ret none_err | Some p => body p end;
      _ <- on_kdlock ulock_release;
      ret result)
    (λ r s' o', (plenty o → plenty o') ∧ ∃ L', R r L' ∧ vfs_ok kd_idle L' E O n s') s o.
Proof.
  intros Hd Hnone Hbody. wp_step. apply wp_kd_acquire; [apply Hs|]. pose proof (vfs_ok_lock _ kd_held _ _ _ _ _ Hs) as Hs1.
  wp_step. wp_call (findmount_spec L); [apply Hs1|apply Hs1|done|]. intros r s' o' (-> & -> & ->). wp_step.
  assert (∀ m, wp m (λ r s' o', (plenty o → plenty o') ∧ ∃ L', R r L' ∧ vfs_ok kd_held L' E O n s') (set_kdlock (Some kd_held) s) o →
    wp m (λ r s' o', wp (_ <- on_kdlock ulock_release; ret r)
      (λ r s' o', (plenty o → plenty o') ∧ ∃ L', R r L' ∧ vfs_ok kd_idle L' E O n s') s' o') (set_kdlock (Some kd_held) s) o) as Hend.
  { intros m Hm. wp_call Hm. intros r s' o' (Hp & L' & HR & Hs'). wp_step. apply wp_kd_release; [apply Hs'|].
    wp_step. split; [done|]. exists L'. split; [done|]. by eapply vfs_ok_lock. }
  apply Hend. destruct (list_find _ L) as [[i [p k]]|] eqn:Hf; cbn [fmap option_fmap option_map fst snd].
  - pose proof (proj1 (list_find_Some _ _ _ _) Hf) as (Hi & [Hraw _] & _). cbn [snd] in Hraw.
    destruct (to_devs _ _ (vo_table _ _ _ _ _ _ Hs1) p k) as (Hk & kd & Hkd & Hr); [by eapply list_elem_of_lookup_2|].
    eapply (Hbody i p k kd); try done. apply Hk. by right.
  - wp_step. split; [done|]. exists L. by split; [apply Hnone|].
Qed.
Lemma vfs_mount_spec devname nm mf o : has_str devname 0 nm → mount_ok mf →
  wp (vfs_mount devname mf) (λ r s' o', (plenty o → plenty o') ∧ ∃ L', mounted L nm r L' ∧ vfs_ok kd_idle L' E O n s') s o.
Proof.
  intros Hd Hmf. apply (on_mount _ nm); [done|unfold mounted; by intros ->|].
  intros i p k kd s1 Hf Hs1 Hi Hkd Hr Hraw Hdev. unfold mounted. rewrite Hf. pose proof Hr as (_ & Hraw' & Hdev' & _ & Hfs).
  wp_step. unfold get_kd. do 2 wp_step. rewrite Hkd. wp_step. rewrite Hfs. destruct (kv_fs k) as [f|].
  { rewrite bool_decide_true by done. wp_step. split; [done|]. by exists L. }
  rewrite bool_decide_false by (by intros []). do 2 wp_step.
  { apply bool_decide_eq_true. by destruct (kd_rawname kd), (kv_raw k). }
  rewrite Hdev'. destruct (kv_dev k) as [dev|]; [|done]. do 3 wp_step. apply wp_ops.
  wp_call Hmf; [apply Hs1|by eapply vfs_room|]. intros [r fs] d' o' (Hp & Hst & Hnew). cbn [fst snd] in *.
  pose proof Hst as [[Hcnt Hsame] _]. destruct (Z.eqb_spec r 0) as [-> | Hne]; cbn [negb].
  - destruct Hnew as (f & -> & Hno & Hfok); [done|]. do 3 wp_step. unfold put_kd. wp_step. wp_step.
    apply volname_call; [apply Hcnt|done|]. wp_step. split; [done|]. exists (set_mount L i (Some f)). split; [by exists f|].
    eapply (vfs_ok_set _ _ _ _ _ s1 d'); try done. by eapply fs_table_mount; [apply Hs1|..].
  - wp_step. split; [done|]. exists L. split; [by rewrite (proj2 (Z.eqb_neq r 0))|]. by apply vfs_ok_same_step.
Qed.
Lemma vfs_unmount_spec devname nm o : has_str devname 0 nm →
  wp (vfs_unmount devname) (λ r s' o', (plenty o → plenty o') ∧ ∃ L', unmounted L nm r L' ∧ vfs_ok kd_idle L' E O n s') s o.
Proof.
  intros Hd. apply (on_mount _ nm); [done|unfold unmounted; by intros ->|].
  intros i p k kd s1 Hf Hs1 Hi Hkd Hr Hraw Hdev. unfold unmounted. rewrite Hf. pose proof Hr as (_ & Hraw' & Hdev' & _ & Hfs).
  wp_step. unfold get_kd. do 2 wp_step. rewrite Hkd. wp_step. rewrite Hfs. destruct (kv_fs k) as [f|] eqn:Hkf.
  2:{ wp_step. split; [done|]. by exists L. }
  do 2 wp_step. { apply bool_decide_eq_true. by destruct (kd_rawname kd), (kv_raw k). }
  do 2 wp_step. { apply bool_decide_eq_true. by rewrite Hdev'. }
  assert (fs_ok (vs_ops s1) f) as Hok by (by eapply kd_fs_ok).
  wp_step. eapply sync_call; [done..|]. intros r d2 o2 _ Hs2 Hok2 Hp2. destruct (Z.eqb_spec r 0) as [-> | Hne]; cbn [negb].
  2:{ wp_step. split; [done|]. exists L. split; [|done]. by rewrite (proj2 (Z.eqb_neq r 0)). }
  wp_step. eapply (unmount_call _ _ _ _ _ (set_ops d2 s1)); [done..|]. intros r d3 o3 _ Hp3 Hs3.
  destruct (Z.eqb_spec r 0) as [-> | Hne]; cbn [negb].
  2:{ wp_step. split; [naive_solver|]. exists L. split; [by rewrite (proj2 (Z.eqb_neq r 0))|]. done. }
  wp_step. unfold put_kd. do 2 wp_step. split; [naive_solver|]. eexists. split; [done|]. exact Hs3.
Qed.
End Mount.
(** [vfs_unmountall] unmounts some of the file systems. *)
Definition some_unmounted L L' : Prop :=
  Forall2 (λ x y, y = x ∨ (kv_raw x.2 ≠ None ∧ y = (x.1, kv_set_fs None x.2))) L L'.
Lemma some_unmounted_refl L : some_unmounted L L.
Proof. apply Forall_Forall2_diag, Forall_true. by left. Qed.
Lemma some_unmounted_set L L' (i : nat) x : some_unmounted L L' → L' !! i = Some x → kv_raw x.2 ≠ None → some_unmounted L (set_mount L' i None).
Proof.
  intros HL Hi Hraw. apply Forall2_lookup. intros j. unfold set_mount. unfold some_unmounted in HL. rewrite Forall2_lookup in HL. specialize (HL j).
  destruct (decide (j = i)) as [->|]; [|by rewrite list_lookup_alter_ne].
  rewrite list_lookup_alter_eq, Hi in *. inversion HL as [y y' HL' Hy Hx|]; subst; simpl. constructor.
  right. by destruct HL' as [->|[Hr ->]].
Qed.
Lemma wp_strerror (r : Z) (Q : unit → vs → oracle → Prop) s o : 0 ≤ r < sys_nerr → Q tt s o → wp (strerror r) Q s o.
Proof. intros Hr HQ. unfold strerror. rewrite (proj2 (andb_true_iff _ _)) by lia. by wp_step. Qed.
Lemma unmount_dev_spec L E O n s (i : nat) o :
  vfs_ok kd_held L E O n s → n < 2 ^ 30 → (i < length L)%nat →
  wp (unmount_dev (Z.of_nat i)) (λ _ s' _, vfs_ok kd_held L E O n s' ∨
    ∃ x, L !! i = Some x ∧ kv_raw x.2 ≠ None ∧ vfs_ok kd_held (set_mount L i None) E O n s') s o.
Proof.
  intros Hs Hn Hlt. destruct (lookup_lt_is_Some_2 L i Hlt) as [[p k] Hi]. unfold unmount_dev. wp_step. eapply wp_devs_guy; [apply Hs|done|].
  wp_step. eapply wp_get_kd; [apply Hs|done|]. intros kd Hkd Hr _.
  destruct (kd_rawname kd) as [rw|] eqn:Hrw; [|wp_step; by left]. destruct (kd_fs kd) as [f|] eqn:Hkf; [|wp_step; by left].
  assert (kv_fs k = Some f) as Hf by (destruct Hr as (_ & _ & _ & _ & Hr); congruence). assert (fs_ok (vs_ops s) f) by (by eapply kd_fs_ok).
  assert (kv_raw k ≠ None) as Hraw by (destruct Hr as (_ & Hr & _); rewrite Hrw in Hr; by destruct (kv_raw k)).
  wp_step. eapply sync_call; [done..|]. intros r d1 o1 Hr1 Hs1 Hok1 _. wp_step.
  assert (∀ Q : Z → vs → oracle → Prop, (∀ r d' o', 0 ≤ r < sys_nerr → vfs_ok kd_held L E O n (set_ops d' s) → Q r (set_ops d' s) o') →
    wp (if negb (r =? 0) then _ <- strerror r; on_ops (FSOP_SYNC f) else ret r) Q (set_ops d1 s) o1) as Hagain.
  { intros Q HQ. destruct (negb _); [|wp_step; by apply HQ]. wp_step. apply wp_strerror; [done|].
    eapply sync_call; [done..|]. intros r' d' o' ? ? ? _. by apply HQ. }
  apply Hagain. clear r Hr1 Hagain. intros r d2 o2 Hr2 Hs2. destruct (negb _); [apply wp_strerror; [done|by left]|].
  wp_step. eapply (unmount_call _ _ _ _ _ (set_ops d2 s)); [done..|]. intros r3 d3 o3 Hr3 _ Hs3. destruct (Z.eqb_spec r3 EBUSY) as [-> |]; [wp_step; by left|].
  destruct (r3 =? 0); cbn [negb]; [|apply wp_strerror; [done|by left]]. unfold put_kd. wp_step. right. exists (p, k). split_and!; [done..|].
  exact Hs3.
Qed.
Lemma vfs_unmountall_spec L E O n s o :
  vfs_ok kd_idle L E O n s → n < 2 ^ 30 →
  wp vfs_unmountall (λ r s' o', r = 0 ∧ ∃ L', some_unmounted L L' ∧ vfs_ok kd_idle L' E O n s') s o.
Proof.
  intros Hs Hn. unfold vfs_unmountall. wp_step. apply wp_kd_acquire; [apply Hs|].
  pose proof (vfs_ok_lock _ kd_held _ _ _ _ _ Hs) as Hs'. wp_step. eapply wp_devs_num; [apply Hs'|]. rewrite Nat2Z.id. wp_step.
  assert (∀ m (i : nat) L1 s1 o1, (i + m = length L1)%nat → some_unmounted L L1 → vfs_ok kd_held L1 E O n s1 →
    wp (kfor m (Z.of_nat i) unmount_dev) (λ _ s' _, ∃ L', some_unmounted L L' ∧ vfs_ok kd_held L' E O n s') s1 o1) as Hloop.
  { induction m as [|m IH]; intros i L1 s1 o1 Hm HL Hs1; cbn [kfor]; [wp_step; by exists L1|]. wp_step.
    wp_call (unmount_dev_spec L1 E O n s1 i); [done|done|lia|]. replace (Z.of_nat i + 1) with (Z.of_nat (S i)) by lia.
    intros _ s2 o2 [Hs2|(x & Hx & Hraw & Hs2)]; [apply (IH (S i) L1); [lia|done..]|].
    apply (IH (S i) (set_mount L1 i None)); [unfold set_mount; rewrite length_alter; lia| |done]. by eapply some_unmounted_set. }
  wp_call (Hloop (length L) 0%nat L); [done|apply some_unmounted_refl|done|]. intros _ s1 o1 (L' & HL & Hs1). wp_step.
  apply wp_kd_release; [apply Hs1|]. wp_step. split; [done|]. exists L'. split; [done|]. by eapply vfs_ok_lock.
Qed.

(** C20: A path name is split as [parse] says: [getdevice] finds the vnode where
    it starts (the current directory, the device before the colon, the boot
    file system or the root of the current one), gives a new reference to it,
    and returns the rest of the path without its leading slashes; when there
    is no such vnode it returns the error, and no reference. *)
Theorem getdevice_parses L E O n s path xs o :
  vfs_ok kd_idle L E O n s → n < 2 ^ 30 - 2 → has_str path 0 xs →
  wp (getdevice path) (λ r s' _, got kd_idle L E O n s (start_find L s (parse xs).1) (r.1.1.1, r.2) s' ∧
    (r.1.1.1 = 0 → has_str r.1.1.2 r.1.2 (parse xs).2)) s o.
Proof. intros Hs Hn Hx. wp_call (getdevice_spec _ _ _ _ _ Hs Hn _ _ _ Hx). intros r s' o' (_ & Hg & Hr). done. Qed.
(** [vfs_setbootfs] refuses every name with a colon, also one at the end,
    which its comment and vfs.h allow; the length that it tests is that of
    the colon and what is behind it. *)
Theorem vfs_setbootfs_colon fsname xs s o :
  has_str fsname 0 xs → Forall char xs → Z.of_nat (length xs) < 2 ^ 31 → 58 ∈ take 254 xs →
  vfs_setbootfs fsname s o = Done (EINVAL, s, o).
Proof. apply setbootfs_colon. Qed.

(** The operations on the table *)
Inductive tab_op : Type :=
  | TAdd (name : list Z) (dev : Z) (mountable : bool)
  | TMount (name : list Z) (mountfunc : Z → K D (Z * option Z))
  | TUnmount (name : list Z)
  | TUnmountall.
Definition tab_exec (op : tab_op) : K vs Z :=
  match op with
  | TAdd name dev mountable => vfs_adddev name dev mountable
  | TMount name mf => vfs_mount name mf
  | TUnmount name => vfs_unmount name
  | TUnmountall => vfs_unmountall
  end.
Definition tab_op_ok d (op : tab_op) : Prop :=
  match op with
  | TAdd name dev _ => is_str name ∧ dev_ok d dev
  | TUnmount name => is_str name
  | TMount name mf => is_str name ∧ mount_ok mf
  | TUnmountall => True
  end.
(** A device is added at the end of the list unless one of its names is
    taken. *)
Definition added d L (k : Z → kdv) (r : Z) L' : Prop :=
  (r = EEXIST ∧ clash d L (k 0) = true ∧ L' = L) ∨ (r = 0 ∧ clash d L (k 0) = false ∧ ∃ p v, L' = L ++ [(p, k v)]).
Definition tab_step d L (op : tab_op) (r : Z) L' : Prop :=
  match op with
  | TAdd name dev mountable => added d L (new_dev (cstr name) mountable dev) r L'
  | TMount name _ => mounted L (cstr name) r L'
  | TUnmount name => unmounted L (cstr name) r L'
  | TUnmountall => r = 0 ∧ some_unmounted L L'
  end.

(** A device that was added is found by its names. *)
Lemma kv_find_taken d k nm : nm ∉ kv_taken d k → kv_find d k nm = None.
Proof.
  intros Hno. rewrite taken_elem in Hno. unfold kv_find. rewrite bool_decide_false by tauto. unfold kv_vol in Hno.
  destruct (kv_fs k) as [f|]; cbn [mbind option_bind] in Hno.
  - destruct (same_str (vol d f) (Some nm)) eqn:Hv.
    { destruct (vol d f); [|done]. simpl in Hv. apply bool_decide_eq_true in Hv as ->. tauto. }
    destruct (same_str (kv_raw k) (Some nm)) eqn:Hr; [|done].
    destruct (kv_raw k); [|done]. simpl in Hr. apply bool_decide_eq_true in Hr as ->. tauto.
  - destruct (same_str (kv_raw k) (Some nm)) eqn:Hr; [|done].
    destruct (kv_raw k); [|done]. simpl in Hr. apply bool_decide_eq_true in Hr as ->. tauto.
Qed.
Lemma dev_find_last d ks k nm : (∀ x, x ∈ ks → nm ∉ kv_taken d x) → dev_find d (ks ++ [k]) nm = kv_find d k nm.
Proof.
  intros Hno. induction ks as [|x ks IH]; cbn [app dev_find]; [by destruct (kv_find d k nm)|].
  rewrite kv_find_taken by (apply Hno; constructor). apply IH. intros y Hy. apply Hno. by constructor.
Qed.
(** A device that [vfs_adddev] added is found by its names: its raw name
    gives its vnode, with a new reference, and so does its name, which gives
    [ENXIO] if a file system has to be mounted on it first. *)
Theorem vfs_adddev_getroot L E O n s dname nm dev mountable query qn o :
  vfs_ok kd_idle L E O n s → n < 2 ^ 30 - 1 → Z.of_nat (length L) + 1 < 2 ^ 28 → dev_ok (vs_ops s) dev → plenty o →
  has_str dname 0 nm → has_str query 0 qn → qn = nm ∨ (mountable = true ∧ qn = rawname nm) →
  wp (e <- vfs_adddev dname dev mountable;
      if e =? 0 then r <- vfs_getroot query; ret (Some r) else ret None)
    (λ x s' _, ∀ r, x = Some r → ∃ p v, let L' := L ++ [(p, new_dev nm mountable dev v)] in
      if mountable && bool_decide (qn = nm) then r.1 = ENXIO ∧ vfs_ok kd_idle L' E O (n + 1) s'
      else r = (0, v) ∧ vfs_ok kd_idle L' (up E v) O (n + 1) s') s o.
Proof.
  intros Hs Hn Hl Hdev Hmem Hx Hq Hqn. wp_step. unfold vfs_adddev.
  wp_call (vfs_doadd_spec L E O n s dname nm mountable dev Hs ltac:(lia) Hx Hl Hdev); [done|].
  intros r s' o' Hc. destruct (Z.eqb_spec r 0) as [-> | Hne]; [|by wp_step].
  destruct Hc as [(? & _)|(_ & Hc & Hvol & _ & p & v & _ & Hs')]; [done|]. set (k := new_dev _ _ _ v) in *.
  wp_step. wp_call (vfs_getroot_spec _ _ _ _ _ _ qn _ Hs'); [lia|done|]. intros x s2 o2 (_ & Hr & _ & _ & Hg).
  rewrite fmap_app in Hr, Hg. cbn [fmap list_fmap snd] in Hr, Hg. rewrite dev_find_last in Hr, Hg.
  2,3: (intros y Hy; rewrite <- (clash_ext _ (vs_ops s')) in Hc by (done || apply Hs); apply (clash_false _ L (new_dev nm mountable dev 0));
    [done|done|]; apply taken_elem; simpl; destruct Hqn as [->|[-> ->]]; tauto).
  wp_step. intros r' [= <-]. exists p, v. fold k. cbn zeta. assert (nm ≠ rawname nm) as Hraw.
  { intros He. apply (f_equal length) in He. unfold rawname in He. rewrite length_app in He. simpl in He. lia. }
  unfold kv_find in Hr, Hg. subst k. cbn [kv_name kv_fs kv_raw kv_vnode new_dev] in Hr, Hg. destruct x as [e w]. cbn [fst snd] in *.
  destruct Hqn as [-> | [-> ->]].
  - rewrite !bool_decide_true in * by done. destruct mountable; cbn [andb found_result fst snd] in *; [tauto|]. destruct Hg as [-> Hg]. by subst.
  - cbn [same_str] in Hr, Hg. rewrite (bool_decide_false (nm = rawname nm)), (bool_decide_true (rawname nm = rawname nm)) in Hr, Hg by done.
    rewrite bool_decide_false by congruence. cbn [andb found_result fst snd] in *. destruct Hg as [-> Hg]. by subst.
Qed.
End VfsSim.
