(* ===== verification/DeviceSpec.v ===== *)
(** * Devices keep what the virtual file system relies on

    The vnodes of devices satisfy the laws of VfsSpec.v, and [vfs_bootstrap]
    makes a table with the null device; so the theorems about path names hold
    from the start of the kernel on. *)
From S2P Require Import Prelude Array LinkedList CString Printf Request Uio Disk Vnode SfsVnode Files Vfs Device VfsSpec.

(** ** Vnodes *)
Definition idle_lock : option ulock := Some (mkUlock false true).
Lemma vnode_incref_spec x o :
  vn_countlock x = idle_lock → -1 ≤ vn_refcount x < 2 ^ 31 - 1 →
  wp vnode_incref (λ _ x' o', x' = set_refcount (vn_refcount x + 1) x ∧ o' = o) x o.
Proof.
  intros Hl Hr. unfold vnode_incref. wp_step. eapply wp_countlock; [done|]. unfold ulock_acquire. wp_run. simpl. wp_run.
  eapply wp_countlock; [done|]. unfold ulock_release. wp_run. simpl. wp_run. destruct x; simpl in *. by rewrite Hl, s32_small by lia.
Qed.
Lemma vnode_incopen_spec x o :
  vn_countlock x = idle_lock → -1 ≤ vn_opencount x < 2 ^ 31 - 1 →
  wp vnode_incopen (λ _ x' o', x' = set_opencount (vn_opencount x + 1) x ∧ o' = o) x o.
Proof.
  intros Hl Hr. unfold vnode_incopen. wp_step. eapply wp_countlock; [done|]. unfold ulock_acquire. wp_run. simpl. wp_run.
  eapply wp_countlock; [done|]. unfold ulock_release. wp_run. simpl. wp_run. destruct x; simpl in *. by rewrite Hl, s32_small by lia.
Qed.
Lemma vnode_drop_spec x o :
  vn_countlock x = idle_lock → 1 < vn_refcount x →
  wp vnode_drop (λ r x' o', r = false ∧ x' = set_refcount (vn_refcount x - 1) x ∧ o' = o) x o.
Proof.
  intros Hl Hr. unfold vnode_drop. wp_step. eapply wp_countlock; [done|]. unfold ulock_acquire. wp_run. simpl. wp_run.
  try (wp_step; [apply Z.ltb_lt; simpl; lia|]). simpl. wp_run.
  simpl. rewrite (proj2 (Z.ltb_lt 1 (vn_refcount x))) by done. wp_run. eapply wp_countlock; [done|]. unfold ulock_release. wp_run. simpl.
  wp_run. destruct x; simpl in *. by rewrite Hl.
Qed.
Lemma vnode_dropopen_spec x o :
  vn_countlock x = idle_lock → 0 < vn_opencount x →
  wp vnode_dropopen (λ r x' o', r = vn_opencount x - 1 ∧ x' = set_opencount (vn_opencount x - 1) x ∧ o' = o) x o.
Proof.
  intros Hl Hr. unfold vnode_dropopen. wp_step. eapply wp_countlock; [done|]. unfold ulock_acquire. wp_run. simpl. wp_run.
  try (wp_step; [apply Z.ltb_lt; simpl; lia|]). simpl. wp_run.
  eapply wp_countlock; [done|]. unfold ulock_release. wp_run. simpl. wp_run. destruct x; simpl in *. by rewrite Hl.
Qed.
Lemma vnode_check_spec b x o :
  vn_countlock x = idle_lock → 0 < vn_refcount x → 0 ≤ vn_opencount x → vn_ops x ≠ None →
  wp (vnode_check b) (λ _ x' o', x' = x ∧ o' = o) x o.
Proof.
  intros Hl Hr Ho Hv. unfold vnode_check. do 3 wp_step. wp_step; [by apply bool_decide_eq_true|]. wp_step. eapply wp_countlock; [done|].
  unfold ulock_acquire. wp_run. simpl. wp_step. wp_step. wp_step; [apply negb_true_iff, Z.ltb_ge; lia|].
  wp_step. wp_step; [by rewrite (proj2 (Z.eqb_neq (vn_refcount x) 0)) by lia|]. wp_step. wp_step; [apply negb_true_iff, Z.ltb_ge; lia|].
  eapply wp_countlock; [done|]. unfold ulock_release. wp_run. simpl. wp_run. destruct x; simpl in *. by rewrite Hl.
Qed.

(** ** The laws *)
Section DeviceSpec.
  Context {H : Type} `{!LhdHw H}.
  Abbreviation dw := (devworld H).
  Implicit Types (w : dw) (x : dvnode).

Record dv_live w x : Prop := mkDvLive {
  dl_fs : dv_fs x = None;
  dl_data : ∃ p, dv_data x = Some p ∧ is_Some (dw_devs w !! p);
  dl_lock : vn_countlock (dv_vnode x) = idle_lock;
  dl_ops : vn_ops (dv_vnode x) = Some dev_vnode_ops;
  dl_refs : 0 < vn_refcount (dv_vnode x);
  dl_opens : 0 ≤ vn_opencount (dv_vnode x) ≤ vn_refcount (dv_vnode x);
}.
Definition dw_ok w : Prop := ∀ v x, dw_vnodes w !! v = Some x → dv_live w x.
Definition drefs w (v : Z) : Z := from_option (λ x, vn_refcount (dv_vnode x)) 0 (dw_vnodes w !! v).
Definition dopens w (v : Z) : Z := from_option (λ x, vn_opencount (dv_vnode x)) 0 (dw_vnodes w !! v).
(** the counts change so, and no vnode comes or goes *)
Definition dstep w w' (dr dn : Z → Z) : Prop :=
  dw_ok w' ∧ (∀ v, drefs w' v = drefs w v + dr v) ∧ (∀ v, dopens w' v = dopens w v + dn v) ∧ ∀ v, drefs w v ≤ 0 → drefs w' v ≤ 0.
Definition dcall {A} (m : K dw A) (dr dn : A → Z → Z) w : Prop :=
  dw_ok w → (∀ v, drefs w v < 2 ^ 31 - 1) → ∀ o, wp m (λ a w' o', dstep w w' (dr a) (dn a) ∧ (plenty o → plenty o')) w o.
Lemma in_use w v : dw_ok w → 0 < drefs w v → ∃ x, dw_vnodes w !! v = Some x ∧ dv_live w x.
Proof. intros Hw Hv. unfold drefs in Hv. destruct (dw_vnodes w !! v) as [x|] eqn:Hx; [|simpl in Hv; lia]. exists x. split; [done|]. by eapply Hw. Qed.
Lemma dstep_refl w : dw_ok w → dstep w w none none.
Proof. intros Hw. split_and!; [done|..]; intros v; unfold none; lia. Qed.
Lemma wp_on_dv {A} v (m : K vnode A) x (Q : A → dw → oracle → Prop) w o :
  dw_vnodes w !! v = Some x →
  wp m (λ a vn' o', Q a (set_vnodes (<[v := mkDv vn' (dv_fs x) (dv_data x)]> (dw_vnodes w)) w) o') (dv_vnode x) o →
  wp (on_dv v _ m) Q w o.
Proof.
  intros Hx Hm. unfold on_dv, get_dv. do 3 wp_step. rewrite Hx. do 3 wp_step. wp_call Hm. intros a vn' o' HQ. by do 3 wp_step.
Qed.
Lemma put_same v x w : dw_vnodes w !! v = Some x → set_vnodes (<[v := mkDv (dv_vnode x) (dv_fs x) (dv_data x)]> (dw_vnodes w)) w = w.
Proof. intros Hx. destruct x, w. unfold set_vnodes. simpl in *. by rewrite insert_id. Qed.
(** An update of the counts of one vnode *)
Lemma dstep_put w v x vn' a b :
  dw_ok w → dw_vnodes w !! v = Some x → vn_countlock vn' = idle_lock → vn_ops vn' = Some dev_vnode_ops →
  vn_refcount vn' = vn_refcount (dv_vnode x) + a → vn_opencount vn' = vn_opencount (dv_vnode x) + b →
  0 < vn_refcount vn' → 0 ≤ vn_opencount vn' ≤ vn_refcount vn' →
  dstep w (set_vnodes (<[v := mkDv vn' (dv_fs x) (dv_data x)]> (dw_vnodes w)) w) (λ u, a * one v u) (λ u, b * one v u).
Proof.
  intros Hw Hx Hl Hop Hr Ho Hr0 Ho0. pose proof (Hw _ _ Hx) as [Hfs Hd _ _ Hr1 _]. unfold dstep, drefs, dopens. cbn [dw_vnodes set_vnodes].
  split_and!.
  - intros u y Hy. cbn [dw_vnodes set_vnodes] in Hy. destruct (decide (u = v)) as [->|Hne].
    + rewrite lookup_insert_eq in Hy. injection Hy as <-. by split.
    + rewrite lookup_insert_ne in Hy by done. destruct (Hw _ _ Hy). by split.
  - intros u. unfold one. case_decide as Hu; [subst; rewrite lookup_insert_eq, Hx; simpl; lia|rewrite lookup_insert_ne by done; lia].
  - intros u. unfold one. case_decide as Hu; [subst; rewrite lookup_insert_eq, Hx; simpl; lia|rewrite lookup_insert_ne by done; lia].
  - intros u. destruct (decide (u = v)) as [->|]; [rewrite Hx; simpl; lia|by rewrite lookup_insert_ne].
Qed.
Lemma dstep_ext w w' dr dn dr' dn' : (∀ v, dr v = dr' v) → (∀ v, dn v = dn' v) → dstep w w' dr dn → dstep w w' dr' dn'.
Proof. intros Hr Ho (? & H1 & H2 & ?). split_and!; [done| | |done]; intros v; [by rewrite H1, Hr|by rewrite H2, Ho]. Qed.
Lemma dincref v w : 0 < drefs w v → dcall (on_dv v _ vnode_incref) (λ _, one v) (λ _, none) w.
Proof.
  intros Hv Hw Hroom o. destruct (in_use w v Hw Hv) as (x & Hx & Hl). pose proof (Hroom v) as Hr. unfold drefs in Hr. rewrite Hx in Hr. simpl in Hr.
  destruct Hl as [? ? ? ? ? ?]. eapply wp_on_dv; [done|]. wp_call vnode_incref_spec; [done|lia|]. intros [] vn' o' (-> & ->). split; [|done].
  eapply dstep_ext; [| |apply (dstep_put w v x _ 1 0)]; try done; simpl; try lia; intros u; unfold none; lia.
Qed.
Lemma dincopen v w : dopens w v < drefs w v → dcall (on_dv v _ vnode_incopen) (λ _, none) (λ _, one v) w.
Proof.
  intros Hv Hw Hroom o. unfold dopens, drefs in Hv. destruct (dw_vnodes w !! v) as [x|] eqn:Hx; simpl in Hv; [|lia].
  pose proof (Hroom v) as Hr. unfold drefs in Hr. rewrite Hx in Hr. simpl in Hr.
  destruct (Hw _ _ Hx) as [? ? ? ? ? ?]. eapply wp_on_dv; [done|]. wp_call vnode_incopen_spec; [done|lia|]. intros [] vn' o' (-> & ->). split; [|done].
  eapply dstep_ext; [| |apply (dstep_put w v x _ 0 1)]; try done; simpl; try lia; intros u; unfold none; lia.
Qed.
Lemma ddecref v w : dopens w v < drefs w v → 1 < drefs w v → dcall (VOP_DECREF v) (λ _ u, - one v u) (λ _, none) w.
Proof.
  intros Hv Hv1 Hw Hroom o. unfold dopens, drefs in *. destruct (dw_vnodes w !! v) as [x|] eqn:Hx; simpl in *; [|lia].
  destruct (Hw _ _ Hx) as [? ? ? ? ? ?]. unfold vnode_decref. wp_step. eapply wp_on_dv; [done|].
  wp_call vnode_drop_spec; [done|lia|]. intros r vn' o' (-> & -> & ->). wp_step. split; [|done].
  eapply dstep_ext; [| |apply (dstep_put w v x _ (-1) 0)]; try done; simpl; try lia; intros u; unfold none; lia.
Qed.
Lemma wp_vop {A} v x (m : K dw A) (Q : A → dw → oracle → Prop) w o :
  dw_ok w → dw_vnodes w !! v = Some x → wp m Q w o → wp (vop v m) Q w o.
Proof.
  intros Hw Hx HQ. destruct (Hw _ _ Hx) as [? ? ? Hop ? ?]. unfold vop, vop_check. wp_step. eapply wp_on_dv; [done|].
  wp_call vnode_check_spec; [done|done|lia|by rewrite Hop|]. intros [] vn' o' (-> & ->). by rewrite put_same.
Qed.
Lemma wp_data v x (Q : Z * device H → dw → oracle → Prop) w o :
  dw_ok w → dw_vnodes w !! v = Some x → (∀ p d, Q (p, d) w o) → wp (vn_data v) Q w o.
Proof.
  intros Hw Hx HQ. destruct (Hw _ _ Hx) as [_ (p & Hp & [d Hd]) _ _ _ _]. unfold vn_data, get_dv. do 3 wp_step. rewrite Hx. wp_step.
  wp_step. rewrite Hp. wp_step. do 3 wp_step. rewrite Hd. wp_step. by wp_step.
Qed.
Lemma ddecopen v w : 0 < dopens w v → dcall (VOP_DECOPEN v) (λ _, none) (λ _ u, - one v u) w.
Proof.
  intros Hv Hw Hroom o. unfold dopens in *. destruct (dw_vnodes w !! v) as [x|] eqn:Hx; simpl in *; [|lia].
  destruct (Hw _ _ Hx) as [Hfs Hda ? ? ? ?]. unfold vnode_decopen. wp_step. eapply wp_on_dv; [done|].
  wp_call vnode_dropopen_spec; [done|lia|]. intros r vn' o' (-> & -> & ->).
  assert (dstep w (set_vnodes (<[v:=mkDv (set_opencount (vn_opencount (dv_vnode x) - 1) (dv_vnode x)) (dv_fs x) (dv_data x)]> (dw_vnodes w)) w)
    none (λ u, - one v u)) as Hst.
  { eapply dstep_ext; [| |apply (dstep_put w v x _ 0 (-1))]; try done; simpl; try lia; intros u; unfold none; lia. }
  destruct (0 <? _); [by wp_step|]. wp_step. eapply wp_vop; [apply Hst|cbn [dw_vnodes set_vnodes]; apply lookup_insert_eq|].
  unfold dev_close. wp_step. eapply wp_data; [apply Hst|cbn [dw_vnodes set_vnodes]; apply lookup_insert_eq|]. intros p d. by do 2 wp_step.
Qed.
(** An operation that only returns an error *)
Lemma dconst {A} v (m : K dw A) w (P : A → Prop) :
  0 < drefs w v → dw_ok w → (∀ x o, dw_vnodes w !! v = Some x → wp m (λ a w' o', P a ∧ w' = w ∧ o' = o) w o) →
  ∀ o, wp (vop v m) (λ a w' o', P a ∧ w' = w ∧ o' = o) w o.
Proof. intros Hv Hw Hm o. destruct (in_use w v Hw Hv) as (x & Hx & _). eapply wp_vop; [done..|]. by eapply Hm. Qed.
Lemma dcall_const {A} v (m : K dw A) w (f : A → Z → Z) :
  0 < drefs w v → (∀ x o, dw_vnodes w !! v = Some x → dw_ok w → wp m (λ a w' o', (∀ u, f a u = 0) ∧ w' = w ∧ o' = o) w o) →
  dcall (vop v m) f (λ _, none) w.
Proof.
  intros Hv Hm Hw _ o. wp_call (dconst v m w (λ a, ∀ u, f a u = 0)); [done|done|by intros; eapply Hm|].
  intros a w' o' (Hf & -> & ->). split; [|done]. eapply dstep_ext; [| |by apply dstep_refl]; [|done]. intros u. by rewrite Hf.
Qed.
Lemma dlookup v path w : 0 < drefs w v → is_str path → dcall (VOP_LOOKUP v path) (λ r, given r.1 r.2) (λ _, none) w.
Proof.
  intros Hv [xs Hx] Hw Hroom o. destruct (in_use w v Hw Hv) as (x & Hlk & Hl). eapply wp_vop; [done..|]. unfold dev_lookup.
  wp_step. eapply wp_strlen; [done|]. destruct (0 <? _).
  - wp_step. split; [by apply dstep_refl|done].
  - wp_step. wp_call (dincref v w Hv Hw Hroom). intros [] w' o' [Hst Hp]. by wp_step.
Qed.
Lemma dcreate p w o : dw_ok w → is_Some (dw_devs w !! p) → plenty o →
  wp (dev_create_vnode_ (Some p)) (λ r w' o', plenty o' ∧ ∃ v, r = Some v ∧ drefs w v = 0 ∧
    w' = set_vnodes (<[v := mkDv (mkVnode 1 0 idle_lock (Some dev_vnode_ops)) None (Some p)]> (dw_vnodes w)) w ∧ dw_vnodes w !! v = None) w o.
Proof.
  intros Hw Hp0 Hp. unfold dev_create_vnode_, vnode_init, ulock_create, Queue.q_create. wp_mem Hp. cbn. wp_mem Hp.
  split; [by repeat apply plenty_tail|]. eexists. split_and!; [done| |done|]; [|apply not_elem_of_dom, is_fresh].
  unfold drefs. by rewrite (proj1 (not_elem_of_dom _ _) (is_fresh _)).
Qed.
(** The laws, with no file system, and so no vnode of one *)
Lemma dlaw {A} (m : K dw A) dr dn w :
  dcall m dr dn w → dw_ok w → (∀ v, drefs w v < 2 ^ 31 - 1) → ∀ o,
  wp m (λ a w' o', (((dw_ok w' ∧ (∀ v, drefs w' v = drefs w v + dr a v) ∧ (∀ v, dopens w' v = dopens w v + dn a v) ∧
      (∀ v, 0 < drefs w v → @None Z = None)) ∧ (∀ f : Z, False → False ∧ @None (list Z) = None ∧ 0 = 0)) ∧
    (∀ v, drefs w v ≤ 0 → 0 < drefs w' v → @None Z ≠ None)) ∧ (plenty o → plenty o')) w o.
Proof.
  intros Hm Hw Hroom o. wp_call (Hm Hw Hroom). intros a w' o' [(H1 & H2 & H3 & H4) Hp]. split_and!; try done.
  intros v Hv Hv'. specialize (H4 v Hv). lia.
Qed.
Lemma derror {A} v (r : A) w (f : A → Z → Z) : 0 < drefs w v → (∀ u, f r u = 0) → dcall (vop v (ret r)) f (λ _, none) w.
Proof. intros Hv Hf. apply dcall_const; [done|]. intros x o _ _. by wp_step. Qed.
#[export] Instance dev_laws : VnodeLaws (devworld H).
Proof.
  refine {| vn_ok := dw_ok; vrefs := drefs; vopens := dopens; fs_ok := λ _ _, False; dev_ok := λ w p, is_Some (dw_devs w !! p);
    volname := λ _ _, None; fsroot := λ _ _, 0; vnfs := λ _ _, None |}; try (intros; contradiction).
  - done.
  - intros d v Hv. apply dlaw. by apply dincref.
  - intros d v Ho Hv. apply dlaw. apply ddecref; [done|by apply Hv].
  - intros d v Hv. apply dlaw. by apply dincopen.
  - intros d v Hv. apply dlaw. by apply ddecopen.
  - intros d v flags Hv. apply (dlaw _ (λ _, none)), dcall_const; [done|]. intros x o Hx Hw. unfold dev_open. wp_step.
    eapply wp_data; [done..|]. intros p dev. destruct (negb _); by wp_step.
  - intros d v len Hv. apply (dlaw _ (λ _, none)), dcall_const; [done|]. intros x o Hx Hw. unfold dev_truncate. wp_step.
    eapply wp_data; [done..|]. intros p dev. destruct (_ && _); by wp_step.
  - intros d v name excl Hv _. apply (dlaw _ (λ r, given r.1 r.2)). by apply derror.
  - intros d v path Hv Hp. apply dlaw. by apply dlookup.
  - intros d v path n Hv Hp. apply (dlaw _ (λ r, given r.1.1 r.1.2)). by apply derror.
  - intros d v path n o Hw Hroom Hv _. wp_call (dconst v (dev_lookparent v path n) d (λ r, r.1.1 ≠ 0)); [done|done| |].
    + intros x o' _. unfold dev_lookparent. by wp_step.
    + by intros r w' o' (Hr & _ & _).
  - intros d v name Hv _. apply (dlaw _ (λ _, none)). by apply derror.
  - intros d v name Hv _. apply (dlaw _ (λ _, none)). by apply derror.
  - intros d v name Hv _. apply (dlaw _ (λ _, none)). by apply derror.
  - intros d v n1 w n2 Hv _ _ _. apply (dlaw _ (λ _, none)). by apply derror.
  - intros d v name w Hv _ _. apply (dlaw _ (λ _, none)). by apply derror.
  - intros d v name c Hv _ _. apply (dlaw _ (λ _, none)). by apply derror.
  - intros d v Hv. apply (dlaw _ (λ _, none)), dcall_const; [done|]. intros x o Hx Hw. unfold dev_gettype. wp_step.
    eapply wp_data; [done..|]. intros p dev. by wp_step.
  - intros d v o Hw Hroom Hv. wp_call (dconst v (dev_gettype v) d (λ r, S_ISDIR r.2 = false)); [done|done| |].
    + intros x o' Hx. unfold dev_gettype. wp_step. eapply wp_data; [done..|]. intros p dev. wp_step. by destruct (0 <? _).
    + intros r w' o' (Hr & _ & _) _ Hd. congruence.
  - intros d v o Hw Hv. destruct (in_use d v Hw Hv) as (x & Hx & Hl). change (vn_fs v) with (x <- get_dv (H := H) v; ret (dv_fs x)).
    unfold get_dv. do 3 wp_step. rewrite Hx. wp_step. wp_step.
    split; [apply Hl|done].
  - intros d dev o Hw Hroom Hdev Hp. wp_call (dcreate dev d o); [done..|]. intros r w' o' (Hp' & v & -> & Hv & -> & Hno). split; [done|].
    exists v. split; [done|]. split; [lia|]. split; [done|]. unfold drefs, dopens in *. split; [|done]. split_and!; try done.
    + intros u y Hy. cbn [dw_vnodes set_vnodes] in Hy. destruct (decide (u = v)) as [->|Hne].
      * rewrite lookup_insert_eq in Hy. injection Hy as <-. split; try done; simpl. by exists dev.
      * rewrite lookup_insert_ne in Hy by done. destruct (Hw _ _ Hy). by split.
    + intros u. unfold one. cbn [dw_vnodes set_vnodes]. case_decide; [subst; rewrite lookup_insert_eq, Hno; done|rewrite lookup_insert_ne by done; lia].
    + intros u. unfold none. cbn [dw_vnodes set_vnodes]. destruct (decide (u = v)) as [->|]; [rewrite lookup_insert_eq, Hno; done|rewrite lookup_insert_ne by done; lia].
Defined.
End DeviceSpec.
