(* ===== verification/VfsRuns.v ===== *)
(** * The virtual file system from the start of the kernel

    [vfs_bootstrap] makes a table of devices with the null device in it; the
    theorems of VfsSim.v apply to the kernel with its devices, and runs of it
    are computed. *)
From S2P Require Import Prelude Array LinkedList CString Printf Request Uio Disk Vnode SfsVnode Files Vfs Device VfsSpec VfsSim DeviceSpec.

Section Boot.
  Context {H : Type} `{!LhdHw H}.
(** Before [vfs_bootstrap]: the static variables are zero. *)
Definition boot_vfs (devs : gmap Z (device H)) : vfs (devworld H) := mkVfs (mkDw devs ∅) None ∅ None None None None.
Definition empty_vfs (devs : gmap Z (device H)) : vfs (devworld H) :=
  mkVfs (mkDw devs ∅) (Some (mkArray 0 0 None)) ∅ (Some kd_idle) None (Some kd_idle) None.
Lemma empty_vfs_ok devs : vfs_ok kd_idle [] none none 0 (empty_vfs devs).
Proof.
  split; try done.
  - split; [|done|apply NoDup_nil_2|by intros p k ?%elem_of_nil|apply NoDup_nil_2].
    exists (mkArray 0 0 None). split; [done|]. by split.
  - split; [|by apply NoDup_nil_2]. by intros p k f ?%elem_of_nil.
Qed.
Lemma null_str : has_str null_name 0 [110; 117; 108; 108].
Proof. apply (has_str_mid [] [110; 117; 108; 108] []). by repeat constructor. Qed.
(** C30: [vfs_bootstrap], with enough memory, makes a table of devices that has
    the null device and nothing else; nobody has a reference to its vnode but
    the table, and there is neither a current directory nor a boot file
    system.  The theorems on path names and on the table hold from there on. *)
Theorem vfs_bootstrap_null devs o :
  plenty o →
  wp vfs_bootstrap (λ _ s' _, ∃ dev p v, vfs_ok kd_idle [(p, new_dev [110; 117; 108; 108] false dev v)] none none 0 s' ∧
    devs !! dev = None ∧ bootfs_vnode s' = None ∧ t_cwd s' = None) (boot_vfs devs) o.
Proof.
  intros Hp. unfold vfs_bootstrap, vfs_initbootfs, array_create, ulock_create, Queue.q_create. wp_mem Hp.
  unfold devnull_create. wp_mem Hp. cbn [vs_ops set_bootlock set_kdlock set_devs boot_vfs dw_devs].
  set (dev := fresh _). assert (devs !! dev = None) as Hdev by (apply not_elem_of_dom, is_fresh).
  change (set_ops _ _) with (empty_vfs (<[dev := nulldev]> devs)).
  unfold vfs_adddev. wp_call (vfs_doadd_spec [] none none 0 (empty_vfs (<[dev := nulldev]> devs)) null_name [110; 117; 108; 108] false dev).
  - apply empty_vfs_ok.
  - done.
  - apply null_str.
  - done.
  - simpl. by rewrite lookup_insert_eq.
  - by repeat apply plenty_tail.
  - intros r s' o' [(_ & Hc & _)|(-> & _ & _ & [Hcwd Hboot] & p & v & _ & Hs')]; [done|]. wp_cond. wp_step. exists dev, p, v. by rewrite Hcwd, Hboot.
Qed.
End Boot.

(** ** A kernel with the null device *)
#[local] Instance no_disk : LhdHw Empty_set := {
  hw_nsect h := match h with end;
  hw_io st i b h := match h with end;
}.
Definition sample_vfs : vfs (devworld Empty_set) :=
  mkVfs (mkDw {[1 := nulldev]} {[7 := mkDv (mkVnode 1 0 idle_lock (Some dev_vnode_ops)) None (Some 1)]})
    (Some (mkArray 1 1 (Some [Some 3%positive]))) {[3%positive := mkKd null_name None (Some 1) 7 None]}
    (Some kd_idle) None (Some kd_idle) None.
Definition sample_table : list (loc * kdv) := [(3%positive, new_dev [110; 117; 108; 108] false 1 7)].
Lemma sample_vfs_ok : vfs_ok kd_idle sample_table (held []) (held []) 0 sample_vfs.
Proof.
  assert (∀ v : Z, is_vnode None v = 0) as Hno by (intros v; unfold is_vnode; by rewrite decide_False).
  split; try done.
  - intros v x Hx. simpl in Hx. apply lookup_singleton_Some in Hx as [<- <-]. split; try done. by exists 1.
  - intros v. unfold kept_refs, kd_refs, held. cbn [t_cwd bootfs_vnode sample_vfs filter list_filter]. rewrite Hno.
    simpl. unfold drefs. simpl. destruct (decide (v = 7)) as [->|Hne]; [done|]. rewrite lookup_singleton_ne by done.
    unfold sample_table. rewrite filter_cons_False; [done|]. simpl. congruence.
  - intros v. simpl. unfold dopens. simpl. destruct (decide (v = 7)) as [->|Hne]; [done|]. by rewrite lookup_singleton_ne.
  - intros v. simpl. unfold drefs. simpl. destruct (decide (v = 7)) as [->|Hne]; [done|]. rewrite lookup_singleton_ne by done. simpl. lia.
  - split; [|done|apply NoDup_singleton| |apply NoDup_singleton].
    + exists (mkArray 1 1 (Some [Some 3%positive])). split; [done|]. by split.
    + intros p k Hin. apply list_elem_of_singleton in Hin as [= -> ->]. split; [done|]. eexists. split; [done|]. split_and!; try done. apply null_str.
  - split; [|apply NoDup_nil_2]. intros p k f Hin. by apply list_elem_of_singleton in Hin as [= -> ->].
Qed.

(** "null:", "null:/x" and "disk" *)
Definition null_path : list Z := [110; 117; 108; 108; 58; 0].
Definition null_x : list Z := [110; 117; 108; 108; 58; 47; 120; 0].
Definition disk_name : list Z := [100; 105; 115; 107; 0].
Lemma null_path_str : has_str null_path 0 [110; 117; 108; 108; 58].
Proof. apply (has_str_mid [] [110; 117; 108; 108; 58] []). by repeat constructor. Qed.
Lemma null_x_str : has_str null_x 0 [110; 117; 108; 108; 58; 47; 120].
Proof. apply (has_str_mid [] [110; 117; 108; 108; 58; 47; 120] []). by repeat constructor. Qed.
Lemma disk_name_str : has_str disk_name 0 [100; 105; 115; 107].
Proof. apply (has_str_mid [] [100; 105; 115; 107] []). by repeat constructor. Qed.
(** Open the null device twice, fail to make a directory in it, to go to it
    and to remove it, close it once. *)
Definition sample_ops : list path_op :=
  [POpen null_path 1; POpen null_path 0; PMkdir null_x; PChdir null_path; PRename null_x null_x; PClose 0; PSync].
Lemma sample_ops_ok : Forall op_ok sample_ops.
Proof.
  assert (is_str null_path) by (eexists; apply null_path_str). assert (is_str null_x) by (eexists; apply null_x_str).
  by repeat constructor.
Qed.
Lemma getdevice_parses_witness :
  parse [110; 117; 108; 108; 58; 47; 120] = (SDev [110; 117; 108; 108], [120]) ∧
  wp (getdevice null_x) (λ r s' _, got kd_idle sample_table (held []) (held []) 0 sample_vfs
      (start_find sample_table sample_vfs (parse [110; 117; 108; 108; 58; 47; 120]).1) (r.1.1.1, r.2) s' ∧
    (r.1.1.1 = 0 → has_str r.1.1.2 r.1.2 (parse [110; 117; 108; 108; 58; 47; 120]).2)) sample_vfs [].
Proof.
  split; [reflexivity|].
  apply (getdevice_parses sample_table (held []) (held []) 0 sample_vfs null_x); [exact sample_vfs_ok|lia|exact null_x_str].
Defined.
Lemma vfs_setbootfs_colon_witness : vfs_setbootfs null_path sample_vfs [] = Done (EINVAL, sample_vfs, []).
Proof.
  apply (vfs_setbootfs_colon null_path [110; 117; 108; 108; 58] sample_vfs []);
    [exact null_path_str|repeat constructor; lia|simpl; lia|simpl; set_solver].
Defined.
Lemma vfs_adddev_getroot_witness :
  wp (e <- vfs_adddev disk_name 1 true; if e =? 0 then r <- vfs_getroot disk_name; ret (Some r) else ret None)
    (λ x s' _, ∀ r, x = Some r → ∃ p v, let L' := sample_table ++ [(p, new_dev [100; 105; 115; 107] true 1 v)] in
      if true && bool_decide ([100; 105; 115; 107] = [100; 105; 115; 107]) then r.1 = ENXIO ∧ vfs_ok kd_idle L' (held []) (held []) (0 + 1) s'
      else r = (0, v) ∧ vfs_ok kd_idle L' (up (held []) v) (held []) (0 + 1) s') sample_vfs [].
Proof.
  apply (vfs_adddev_getroot sample_table (held []) (held []) 0 sample_vfs disk_name [100; 105; 115; 107] 1 true disk_name [100; 105; 115; 107] []);
    [exact sample_vfs_ok|lia|simpl; lia|by eexists|constructor|exact disk_name_str|exact disk_name_str|by left].
Defined.
Lemma vfs_bootstrap_null_witness :
  wp (vfs_bootstrap (H := Empty_set)) (λ _ s' _, ∃ dev p v, vfs_ok kd_idle [(p, new_dev [110; 117; 108; 108] false dev v)] none none 0 s' ∧
    (∅ : gmap Z (device Empty_set)) !! dev = None ∧ bootfs_vnode s' = None ∧ t_cwd s' = None) (boot_vfs ∅) [].
Proof. apply (vfs_bootstrap_null ∅ []). constructor. Defined.
