(* ===== verification/Process.v ===== *)
(** * Processes: src/kern/process/process.c and processtable.c, and the system
    calls src/kern/userprog/sysfork.c, syswaitpid.c, sysexit.c, sysgetpid.c

    The [struct process]es are objects with addresses, so that the use of one
    that has been freed is visible.  A call runs without being preempted, and
    the locks are seen by one thread (see Vnode.v); two calls leave the
    processor in the middle and are cut there: a [sys_waitpid] that sleeps,
    which comes back with [waitpid_wake], and [kill_process], whose part after
    the release of the lock is [kill_reap].  The files, the page tables, the
    threads and user memory are behind the class [ProcEnv]. *)
From S2P Require Import Prelude Queue Array LinkedList Table Vnode.

(** [FT] and [PT] are the file tables and the page tables. *)
Class ProcEnv (X FT PT : Type) : Type := {
  env_ft_create : K X (option FT); (** [ft_create] *)
  env_ft_destroy : FT → K X unit; (** [ft_destroy] *)
  env_ft_duplicate : FT → FT → K X (Z * FT * FT); (** [ft_duplicate]: the error and the two tables *)
  env_pt_create : K X (option PT); (** [pt_create] *)
  env_pt_destroy : PT → K X unit; (** [pt_destroy] *)
  env_thread_new : Z → K X (Z * Z * bool); (** [thread_fork] up to [as_copy]: the error, the new thread,
                                               and whether the thread that calls has an address space *)
  env_thread_start : Z → K X Z; (** the rest of [thread_fork] *)
  env_copyin : Z → K X Z; (** [copyin] of an [int] to a local variable *)
  env_store : Z → Z → K X unit; (** the store of an [int] to user memory *)
}.

(** ** Condition variables

    The wait queue, [None] being [NULL]; a thread sleeps on its own address. *)
Definition MAXTHREADS : Z := 10.
Abbreviation ucv := (option (queue Z)).
(** [kmalloc] and [kstrdup]; the result of [q_create] is not checked. *)
Definition ucv_create {S} : K S (option ucv) :=
  ok <- kmalloc_ok;
  if negb ok then ret None
  else
    ok <- kmalloc_ok;
    if negb ok then ret None
    else
      q <- q_create MAXTHREADS;
      ret (Some q).
(** Nobody sleeps on the address of a condition variable. *)
Definition ucv_destroy {S} (c : ucv) : K S unit :=
  q <- deref c;
  _ <- run_on q_destroy q;
  ret tt.

(** ** Data *)
Record process (FT PT : Type) : Type := mkProc {
  has_exited : Z;
  exitcode : Z;
  parentpid : Z;
  p_pid : option Z; (** [None] until it is assigned *)
  file_table : FT;
  page_table : PT;
  p_childrenpids : option (array loc); (** [None] when it has been freed *)
  p_pidcells : gmap loc Z; (** the [pid_t]s that [p_childrenpids] points to *)
  p_waitcv : ucv;
  p_lock : ulock;
  p_thread : option Z;
}.
Arguments mkProc {FT PT} _ _ _ _ _ _ _ _ _ _ _.
Arguments has_exited {FT PT} _.
Arguments exitcode {FT PT} _.
Arguments parentpid {FT PT} _.
Arguments p_pid {FT PT} _.
Arguments file_table {FT PT} _.
Arguments page_table {FT PT} _.
Arguments p_childrenpids {FT PT} _.
Arguments p_pidcells {FT PT} _.
Arguments p_waitcv {FT PT} _.
Arguments p_lock {FT PT} _.
Arguments p_thread {FT PT} _.
Record psys (X FT PT : Type) : Type := mkPs {
  ps_env : X;
  ps_heap : gmap loc (process FT PT);
  process_table : table loc;
  pt_lock : ulock;
  ps_pids : gmap Z Z; (** [t->pid] of the threads *)
  ps_asleep : gset Z; (** the threads in [thread_sleep] *)
}.
Arguments mkPs {X FT PT} _ _ _ _ _ _.
Arguments ps_env {X FT PT} _.
Arguments ps_heap {X FT PT} _.
Arguments process_table {X FT PT} _.
Arguments pt_lock {X FT PT} _.
Arguments ps_pids {X FT PT} _.
Arguments ps_asleep {X FT PT} _.

Section Process.
  Context {X FT PT : Type} `{!ProcEnv X FT PT}.
  Abbreviation proc := (process FT PT).
  Abbreviation ps := (psys X FT PT).
  Implicit Types (p : proc) (s : ps).

Definition set_exit (code : Z) p : proc :=
  mkProc 1 code (parentpid p) (p_pid p) (file_table p) (page_table p) (p_childrenpids p) (p_pidcells p)
    (p_waitcv p) (p_lock p) (p_thread p).
Definition set_parentpid (z : Z) p : proc :=
  mkProc (has_exited p) (exitcode p) z (p_pid p) (file_table p) (page_table p) (p_childrenpids p) (p_pidcells p)
    (p_waitcv p) (p_lock p) (p_thread p).
Definition set_pid (z : Z) p : proc :=
  mkProc (has_exited p) (exitcode p) (parentpid p) (Some z) (file_table p) (page_table p) (p_childrenpids p)
    (p_pidcells p) (p_waitcv p) (p_lock p) (p_thread p).
Definition set_file_table (f : FT) p : proc :=
  mkProc (has_exited p) (exitcode p) (parentpid p) (p_pid p) f (page_table p) (p_childrenpids p) (p_pidcells p)
    (p_waitcv p) (p_lock p) (p_thread p).
Definition set_children (a : option (array loc)) (c : gmap loc Z) p : proc :=
  mkProc (has_exited p) (exitcode p) (parentpid p) (p_pid p) (file_table p) (page_table p) a c
    (p_waitcv p) (p_lock p) (p_thread p).
Definition set_waitcv (c : ucv) p : proc :=
  mkProc (has_exited p) (exitcode p) (parentpid p) (p_pid p) (file_table p) (page_table p) (p_childrenpids p)
    (p_pidcells p) c (p_lock p) (p_thread p).
Definition set_plock (l : ulock) p : proc :=
  mkProc (has_exited p) (exitcode p) (parentpid p) (p_pid p) (file_table p) (page_table p) (p_childrenpids p)
    (p_pidcells p) (p_waitcv p) l (p_thread p).
Definition set_pthread (t : Z) p : proc :=
  mkProc (has_exited p) (exitcode p) (parentpid p) (p_pid p) (file_table p) (page_table p) (p_childrenpids p)
    (p_pidcells p) (p_waitcv p) (p_lock p) (Some t).

Definition set_procs (h : gmap loc proc) s : ps :=
  mkPs (ps_env s) h (process_table s) (pt_lock s) (ps_pids s) (ps_asleep s).
Definition set_pids (h : gmap Z Z) s : ps :=
  mkPs (ps_env s) (ps_heap s) (process_table s) (pt_lock s) h (ps_asleep s).
Definition set_asleep (h : gset Z) s : ps :=
  mkPs (ps_env s) (ps_heap s) (process_table s) (pt_lock s) (ps_pids s) h.
Definition on_env {A} (m : K X A) : K ps A :=
  zoom ps_env (λ x s, mkPs x (ps_heap s) (process_table s) (pt_lock s) (ps_pids s) (ps_asleep s)) m.
Definition on_table {A} (m : K (table loc) A) : K ps A :=
  zoom process_table (λ t s, mkPs (ps_env s) (ps_heap s) t (pt_lock s) (ps_pids s) (ps_asleep s)) m.
Definition on_ptlock {A} (m : K ulock A) : K ps A :=
  zoom pt_lock (λ l s, mkPs (ps_env s) (ps_heap s) (process_table s) l (ps_pids s) (ps_asleep s)) m.
(** [*l], and assignments through [l] *)
Definition get_proc (l : loc) : K ps proc := s <- kget; deref (ps_heap s !! l).
Definition upd_proc (l : loc) (g : proc → proc) : K ps unit :=
  p <- get_proc l;
  modify (λ s, set_procs (<[l := g p]> (ps_heap s)) s).
(** [kfree(l)] *)
Definition free_proc (l : loc) : K ps unit :=
  _ <- get_proc l;
  modify (λ s, set_procs (delete l (ps_heap s)) s).
(** [curthread->pid] in the thread [t] *)
Definition curpid (t : Z) : K ps Z := s <- kget; deref (ps_pids s !! t).
Definition on_plock {A} (l : loc) (m : K ulock A) : K ps A :=
  p <- get_proc l;
  '(a, k) <- run_on m (p_lock p);
  _ <- upd_proc l (set_plock k);
  ret a.
Definition on_children {A} (l : loc) (m : K (array loc) A) : K ps A :=
  p <- get_proc l;
  a <- deref (p_childrenpids p);
  '(r, a) <- run_on m a;
  p <- get_proc l;
  _ <- upd_proc l (set_children (Some a) (p_pidcells p));
  ret r.
(** The array is freed. *)
Definition destroy_children (l : loc) : K ps unit :=
  _ <- on_children l array_destroy;
  p <- get_proc l;
  upd_proc l (set_children None (p_pidcells p)).
Definition on_waitq {A} (l : loc) (m : K (queue Z) A) : K ps A :=
  p <- get_proc l;
  q <- deref (p_waitcv p);
  '(r, q) <- run_on m q;
  _ <- upd_proc l (set_waitcv (Some q));
  ret r.

(** ** processtable.c *)
Definition processtable_insert (l : loc) (err : Z) : K ps (Z * Z) :=
  _ <- kassert (err =? 0);
  _ <- on_ptlock ulock_acquire;
  num_entries <- on_table tab_getnum;
  r <- on_table (tab_add (Some l) err);
  _ <- on_ptlock ulock_release;
  ret r.
Definition processtable_remove (fd : Z) : K ps unit :=
  _ <- on_ptlock ulock_acquire;
  result <- on_table (tab_remove fd);
  _ <- (if result =? -1 then panic else ret tt);
  on_ptlock ulock_release.
Definition processtable_getsize : K ps Z :=
  _ <- on_ptlock ulock_acquire;
  r <- on_table tab_getsize;
  _ <- on_ptlock ulock_release;
  ret r.
Definition processtable_getnum : K ps Z :=
  _ <- on_ptlock ulock_acquire;
  r <- on_table tab_getnum;
  _ <- on_ptlock ulock_release;
  ret r.
Definition processtable_get (pid : Z) : K ps (option loc) :=
  out <- (if pid <? 0 then ret true else n <- processtable_getsize; ret (n <=? pid));
  if out : bool then ret None
  else
    _ <- on_ptlock ulock_acquire;
    p <- on_table (tab_getguy pid);
    match p with
    | None => _ <- on_ptlock ulock_release; ret None
    | Some p => _ <- on_ptlock ulock_release; ret (Some p)
    end.

(** ** process.c *)
Definition get_curprocess (t : Z) : K ps (option loc) := pid <- curpid t; processtable_get pid.
(** The object is put where nothing is: its fields are the locals up to here. *)
Definition new_proc (ft : FT) (pt : PT) (c : ucv) (k : ulock) (a : array loc) : K ps loc :=
  s <- kget;
  let l := fresh (dom (ps_heap s)) in
  _ <- kput (set_procs (<[l := mkProc 0 (-1) 0 None ft pt (Some a) ∅ c k None]> (ps_heap s)) s);
  ret l.
(** The end of [p_create]: the entry in the table.  When there is none, the
    array of the children is destroyed twice. *)
Definition p_enter (l : loc) : K ps (option loc) :=
  '(index, _) <- processtable_insert l 0;
  if index =? -1 then
    p <- get_proc l;
    _ <- on_env (env_ft_destroy (file_table p));
    _ <- on_env (env_pt_destroy (page_table p));
    _ <- destroy_children l;
    _ <- ucv_destroy (p_waitcv p);
    _ <- on_plock l ulock_destroy;
    _ <- destroy_children l;
    _ <- free_proc l;
    ret None
  else
    _ <- upd_proc l (set_pid index);
    ret (Some l).
Definition p_create : K ps (option loc) :=
  ok <- kmalloc_ok;
  if negb ok then ret None
  else
    ft <- on_env env_ft_create;
    match ft with
    | None => ret None
    | Some ft =>
        pt <- on_env env_pt_create;
        match pt with
        | None => _ <- on_env (env_ft_destroy ft); ret None
        | Some pt =>
            c <- ucv_create;
            match c with
            | None =>
                _ <- on_env (env_ft_destroy ft);
                _ <- on_env (env_pt_destroy pt);
                ret None
            | Some c =>
                k <- ulock_create;
                match k with
                | None =>
                    _ <- on_env (env_ft_destroy ft);
                    _ <- on_env (env_pt_destroy pt);
                    _ <- ucv_destroy c;
                    ret None
                | Some k =>
                    a <- array_create;
                    match a with
                    | None =>
                        _ <- on_env (env_ft_destroy ft);
                        _ <- on_env (env_pt_destroy pt);
                        _ <- ucv_destroy c;
                        _ <- run_on ulock_destroy k;
                        ret None
                    | Some a => l <- new_proc ft pt c k a; p_enter l
                    end
                end
            end
        end
    end.

(** [kfree] of the [i]th [pid_t] *)
Definition free_child (l : loc) (i : Z) : K ps unit :=
  x <- on_children l (array_getguy i);
  p <- get_proc l;
  _ <- deref (p_pidcells p !! x);
  upd_proc l (set_children (p_childrenpids p) (delete x (p_pidcells p))).
Definition p_destroy_at (l : loc) : K ps unit :=
  p <- get_proc l;
  _ <- on_env (env_ft_destroy (file_table p));
  _ <- on_env (env_pt_destroy (page_table p));
  _ <- on_plock l ulock_destroy;
  _ <- ucv_destroy (p_waitcv p);
  n <- on_children l array_getnum;
  _ <- kfor (Z.to_nat n) 0 (free_child l);
  _ <- destroy_children l;
  free_proc l.
(** The thread [t] does not run any more; what [thread_exit] does to it is in
    Thread.v. *)
Definition thread_exit (t : Z) : K ps unit := modify (λ s, set_pids (delete t (ps_pids s)) s).
Definition p_destroy (t : Z) : K ps unit :=
  l <- get_curprocess t;
  l <- deref l;
  _ <- p_destroy_at l;
  thread_exit t.
Definition p_assign_thread (l : loc) (t : Z) : K ps unit :=
  _ <- upd_proc l (set_pthread t);
  p <- get_proc l;
  pid <- deref (p_pid p);
  modify (λ s, set_pids (<[t := pid]> (ps_pids s)) s).

(** [cv_signal(curprocess->p_waitcv, curprocess->p_lock)] *)
Definition signal_waiter (l : loc) : K ps unit :=
  p <- get_proc l;
  _ <- kassert (ul_held (p_lock p));
  e <- on_waitq l q_empty;
  if negb e then
    t <- on_waitq l q_remhead;
    modify (λ s, set_asleep (ps_asleep s ∖ {[t]}) s)
  else ret tt.
(** One round of the loop of [kill_process] *)
Definition orphan_child (l : loc) (i : Z) : K ps unit :=
  childpid <- on_children l (array_getguy i);
  p <- get_proc l;
  c <- deref (p_pidcells p !! childpid);
  child <- processtable_get c;
  match child with
  | None => ret tt
  | Some child =>
      cp <- get_proc child;
      p <- get_proc l;
      pid <- deref (p_pid p);
      if parentpid cp =? pid then upd_proc child (set_parentpid 0) else ret tt
  end.
(** [kill_process], up to the release of the lock *)
Definition kill_mark (t code : Z) : K ps loc :=
  l <- get_curprocess t;
  l <- deref l;
  _ <- on_plock l ulock_acquire;
  _ <- upd_proc l (set_exit code);
  _ <- signal_waiter l;
  n <- on_children l array_getnum;
  _ <- kfor (Z.to_nat n) 0 (orphan_child l);
  _ <- on_plock l ulock_release;
  ret l.
(** and what it does then *)
Definition kill_reap (t : Z) (l : loc) : K ps unit :=
  p <- get_proc l;
  _ <- (if parentpid p =? 0 then
          pid <- deref (p_pid p);
          _ <- processtable_remove pid;
          p_destroy_at l
        else ret tt);
  thread_exit t.
Definition kill_process (t code : Z) : K ps unit := l <- kill_mark t code; kill_reap t l.

(** ** The system calls of the thread [t]; [*err] is part of the result. *)
Definition sys__exit (t code : Z) : K ps unit := kill_process t code.
Definition sys_getpid (t : Z) : K ps Z := curpid t.
(** [thread_fork] with the process [l]: the error and the new thread *)
Definition thread_fork (t : Z) (l : loc) : K ps (Z * Z) :=
  '(err, nt, vmspace) <- on_env (env_thread_new t);
  if negb (err =? 0) then ret (err, nt)
  else
    _ <- (if vmspace : bool then
            pid <- curpid t;
            _ <- upd_proc l (set_parentpid pid);
            p_assign_thread l nt
          else ret tt);
    err <- on_env (env_thread_start nt);
    ret (err, nt).
(** [child_pid = kmalloc(sizeof(pid_t)); *child_pid = pid;] and [array_add],
    whose result is not looked at *)
Definition add_child (l : loc) (pid : Z) : K ps unit :=
  ok <- kmalloc_ok;
  if negb ok then halt Fault
  else
    p <- get_proc l;
    let x := fresh (dom (p_pidcells p)) in
    _ <- upd_proc l (set_children (p_childrenpids p) (<[x := pid]> (p_pidcells p)));
    _ <- on_children l (array_add x);
    ret tt.
(** The trap frame is copied without testing that there is memory for it, and
    when the files cannot be copied the call goes on with the process it has
    freed. *)
Definition sys_fork (t err : Z) : K ps (Z * Z) :=
  _ <- kassert (err =? 0);
  cur <- get_curprocess t;
  ok <- kmalloc_ok;
  _ <- (if negb ok then halt Fault else ret tt);
  new <- p_create;
  match new with
  | None => ret (-1, ENOMEM)
  | Some new =>
      cur <- deref cur;
      cp <- get_proc cur;
      np <- get_proc new;
      '(err, ft, nft) <- on_env (env_ft_duplicate (file_table cp) (file_table np));
      _ <- upd_proc cur (set_file_table ft);
      _ <- upd_proc new (set_file_table nft);
      _ <- (if negb (err =? 0) then
              _ <- on_env (env_ft_destroy nft);
              free_proc new
            else ret tt);
      '(err, _) <- thread_fork t new;
      if negb (err =? 0) then
        np <- get_proc new;
        _ <- on_env (env_ft_destroy (file_table np));
        _ <- free_proc new;
        ret (-1, err)
      else
        np <- get_proc new;
        retval <- deref (p_pid np);
        _ <- add_child cur retval;
        ret (retval, err)
  end.

(** [sys_waitpid] from the test of [has_exited] on, with the lock: the value
    and [*err], or [None] when the thread sleeps in [cv_wait] *)
Definition waitpid_loop (t : Z) (l : loc) (pid status : Z) : K ps (option Z) :=
  p <- get_proc l;
  if has_exited p =? 0 then
    _ <- on_plock l ulock_release;
    err <- on_waitq l (q_addtail t);
    _ <- kassert (err =? 0);
    _ <- modify (λ s, set_asleep ({[t]} ∪ ps_asleep s) s);
    ret None
  else
    _ <- on_env (env_store status (exitcode p));
    _ <- processtable_remove pid;
    _ <- on_plock l ulock_release;
    _ <- p_destroy_at l;
    ret (Some pid).
(** The thread has been woken: the end of [cv_wait], and the loop *)
Definition waitpid_wake (t : Z) (l : loc) (pid status : Z) : K ps (option Z) :=
  _ <- on_plock l ulock_acquire;
  waitpid_loop t l pid status.
(** The value and [*err], or the process the thread sleeps for *)
Definition sys_waitpid (t pid status options err : Z) : K ps (Z * Z + loc) :=
  if negb (options =? 0) then ret (inl (-1, EINVAL))
  else if status =? 0 then ret (inl (-1, EFAULT))
  else
    ptr_check <- on_env (env_copyin status);
    if negb (ptr_check =? 0) then ret (inl (-1, ptr_check))
    else if negb (Z.rem (s32 status) 4 =? 0) then ret (inl (-1, EFAULT))
    else
      proc <- processtable_get pid;
      match proc with
      | None => ret (inl (-1, EINVAL))
      | Some l =>
          _ <- on_plock l ulock_acquire;
          p <- get_proc l;
          cur <- curpid t;
          if negb (parentpid p =? cur) then
            _ <- on_plock l ulock_release;
            ret (inl (-1, EINVAL))
          else
            r <- waitpid_loop t l pid status;
            match r with
            | None => ret (inr l)
            | Some r => ret (inl (r, err))
            end
      end.

(** [runprogram] in a thread without a process: the process it makes is not
    tested for [NULL]. *)
Definition run_process (t : Z) : K ps Z :=
  p <- p_create;
  l <- deref p;
  _ <- p_assign_thread l t;
  curpid t.

(** ** Bootstrap *)
Definition processtable_bootstrap : K ps unit :=
  t <- tab_create;
  t <- match t with None => panic | Some t => ret t end;
  k <- ulock_create;
  k <- match k with None => panic | Some k => ret k end;
  modify (λ s, mkPs (ps_env s) (ps_heap s) t k (ps_pids s) (ps_asleep s)).
(** [t] is what [thread_bootstrap] returns. *)
Definition process_bootstrap (t : Z) : K ps unit :=
  _ <- processtable_bootstrap;
  p <- p_create;
  p <- match p with None => panic | Some p => ret p end;
  p_assign_thread p t.
End Process.
