(* ===== verification/ProcessSpec.v ===== *)
(** * Processes: the laws of their surroundings, and the parts of a call

    [ProcLaws] is what process.c needs from the files, the page tables, the
    threads and user memory.  [procs_ok] relates the processes and their table
    to a map from process ids; the lemmas are the calls of process.c and
    processtable.c on it. *)
From S2P Require Import Prelude Queue Array LinkedList Table Vnode Process.

(** The environment with the file and the page tables of the processes at
    some addresses, and the threads that are there.  [ft_new] is a table that
    [ft_create] made; [env_user x t] says that the thread [t] has an address
    space, and [env_can_fork x t] moreover that the references to the files can
    be counted once more; [env_thread x t] says that [t] is a thread;
    [env_ptr x a] that an access to the address is answered by [copyin];
    [env_word x a] that there is an [int], whose value is [env_int x a]. *)
Class ProcLaws (X FT PT : Type) `{!ProcEnv X FT PT} : Type := {
  env_ok : gmap loc FT → gmap loc PT → gset Z → X → Prop;
  ft_new : FT → Prop;
  env_can_fork : X → Z → Prop;
  env_user : X → Z → Prop;
  env_thread : X → Z → Prop;
  env_ptr : X → Z → Prop;
  env_word : X → Z → Prop;
  env_int : X → Z → option Z;
  law_ft_create F G Th x o : env_ok F G Th x → plenty o →
    wp env_ft_create (λ r x' o', plenty o' ∧ (∀ t, env_can_fork x t → env_can_fork x' t) ∧
      ∃ ft, r = Some ft ∧ ft_new ft ∧ ∀ l, F !! l = None → env_ok (<[l := ft]> F) G Th x') x o;
  law_pt_create F G Th x o : env_ok F G Th x → plenty o →
    wp env_pt_create (λ r x' o', plenty o' ∧ (∀ t, env_can_fork x t → env_can_fork x' t) ∧
      ∃ pt, r = Some pt ∧ ∀ l, G !! l = None → env_ok F (<[l := pt]> G) Th x') x o;
  law_ft_destroy F G Th l ft x o : env_ok F G Th x → F !! l = Some ft → plenty o →
    wp (env_ft_destroy ft) (λ _ x' o', plenty o' ∧ env_ok (delete l F) G Th x' ∧ ∀ a, env_int x' a = env_int x a) x o;
  law_pt_destroy F G Th l pt x o : env_ok F G Th x → G !! l = Some pt → plenty o →
    wp (env_pt_destroy pt) (λ _ x' o', plenty o' ∧ env_ok F (delete l G) Th x' ∧ ∀ a, env_int x' a = env_int x a) x o;
  law_ft_duplicate F G Th l ft l' nt x t o :
    env_ok F G Th x → l ≠ l' → F !! l = Some ft → F !! l' = Some nt → ft_new nt → env_can_fork x t → plenty o →
    wp (env_ft_duplicate ft nt) (λ r x' o', plenty o' ∧ env_user x' t ∧
      ∃ ft' nt', r = (0, ft', nt') ∧ env_ok (<[l' := nt']> (<[l := ft']> F)) G Th x') x o;
  law_thread_new F G Th t x o : env_ok F G Th x → env_user x t → plenty o →
    wp (env_thread_new t) (λ r x' o', plenty o' ∧
      ∃ nt, r = (0, nt, true) ∧ (nt ∉ Th) ∧ env_ok F G ({[nt]} ∪ Th) x') x o;
  law_thread F G Th t x : env_ok F G Th x → env_thread x t → env_ok F G ({[t]} ∪ Th) x;
  law_thread_start F G Th t x o : env_ok F G Th x → plenty o →
    wp (env_thread_start t) (λ r x' o', r = 0 ∧ plenty o' ∧ env_ok F G Th x') x o;
  law_copyin F G Th a x o : env_ok F G Th x → env_ptr x a → plenty o →
    wp (env_copyin a) (λ r x' o', plenty o' ∧ env_ok F G Th x' ∧ (r = 0 ↔ env_word x a) ∧ (env_word x a → env_word x' a)) x o;
  law_store F G Th a z x o : env_ok F G Th x → env_word x a → plenty o →
    wp (env_store a z) (λ _ x' o', plenty o' ∧ env_ok F G Th x' ∧ env_int x' a = Some (s32 z)) x o;
}.

(** ** The table *)
Section Tables.
  Context {V : Type}.
  Implicit Types (t : table V) (M : gmap Z V).
Lemma tab_getsize_map t M o :
  wp tab_getsize (λ r t' o', r = num (arr t) ∧ t' = t ∧ o' = o) t o.
Proof. unfold tab_getsize, on_array, array_getnum. do 2 wp_step. by destruct t. Qed.
Lemma tab_getguy_map t M i o :
  table_map t M → 0 ≤ i < num (arr t) → wp (tab_getguy i) (λ r t' o', r = M !! i ∧ t' = t ∧ o' = o) t o.
Proof.
  intros (es & free & leaked & (Ha & _) & HM) Hi. pose proof Ha as (Hnum & _). rewrite length_fmap in Hnum.
  destruct (proj2 (zlookup_is_Some es i)) as [x Hx]; [lia|]. unfold tab_getguy, on_array. wp_step.
  wp_call (array_getguy_spec _ _ _ _ _ Ha Hx). intros r a' o' (-> & -> & ->). rewrite HM, Hx. by destruct t.
Qed.
Lemma table_map_bound t M i x : table_map t M → M !! i = Some x → 0 ≤ i < num (arr t).
Proof.
  intros (es & free & leaked & ((Hnum & _) & _) & HM) Hi. rewrite length_fmap in Hnum. rewrite HM in Hi.
  destruct (zlookup es i) eqn:He; [|done]. apply zlookup_lt in He. lia.
Qed.
Lemma tab_add_map t M x o :
  table_map t M → num (arr t) < 2 ^ 29 → plenty o →
  wp (tab_add (Some x) 0) (λ r t' o', plenty o' ∧ ∃ i, r = (i, 0) ∧ 0 ≤ i ∧ M !! i = None ∧ table_map t' (<[i := x]> M) ∧
    num (arr t') ≤ num (arr t) + 1) t o.
Proof.
  intros (es & free & leaked & Ht & HM) Hlen Ho. pose proof Ht as (Ha & Hs & Hnd & Hfree). pose proof Ha as (Hnum & _).
  rewrite length_fmap in Hnum. eapply wp_mono; [eapply wp_and; [apply (tab_add_spec _ _ _ _ (Some x) _ Ht); lia|]|].
  { instantiate (1 := λ _ _ o', plenty o'). pose proof (free_length _ _ Hnd Hfree) as Hfl. unfold tab_add, on_array. wp_run.
    wp_call (get_first_slot_spec _ _ _ _ Hs); [lia|]. intros r t1 o1 (-> & Harr & _ & ->). case_match; wp_run; rewrite Harr.
    - wp_call (array_add_spec _ _ (Some x) _ Ha); [lia|]. intros r a' o' (-> & _).
      assert (plenty (if num (arr t) <? max (arr t) then o else list.tail o)) by (case_match; [done|by apply plenty_tail]).
      destruct (negb (r =? 0)); unfold array_getnum; by wp_run.
    - destruct free as [|i free]; [done|]. wp_call (array_setguy_spec _ _ i (Some x) o Ha).
      { eapply zlookup_lt, Hfree. set_solver. }
      intros _ a' o' (-> & _). by wp_run. }
  intros r t' o' (Hr & Hp). cbn beta in Hr. split; [done|]. destruct free as [|j free].
  - destruct Hr as [(-> & Ht')|(_ & Hf & _)]; [|by apply plenty_head in Hf]. eexists. split_and!; [done|lia| | |].
    + rewrite HM. unfold zlookup. rewrite decide_True, lookup_ge_None_2 by lia. done.
    + eexists _, _, _. split; [done|]. intros j. rewrite entry_snoc, lookup_insert, HM. repeat case_decide; congruence.
    + destruct Ht' as ((Hn' & _) & _). rewrite length_fmap, length_app in Hn'. simpl in Hn'. lia.
  - destruct Hr as (-> & _ & Ht'). pose proof (Hfree j ltac:(set_solver)) as Hj. pose proof (zlookup_lt _ _ _ Hj) as Hb.
    eexists. split_and!; [done|lia|by rewrite HM, Hj| |].
    + eexists _, _, _. split; [done|]. intros k. rewrite entry_insert, lookup_insert, HM by done. repeat case_decide; congruence.
    + destruct Ht' as ((Hn' & _) & _). rewrite length_fmap, length_insert in Hn'. lia.
Qed.
Lemma tab_remove_map t M i x o :
  table_map t M → num (arr t) < 2 ^ 29 → M !! i = Some x → plenty o →
  wp (tab_remove i) (λ r t' o', r = 0 ∧ plenty o' ∧ table_map t' (delete i M) ∧ num (arr t') = num (arr t)) t o.
Proof.
  intros (es & free & leaked & Ht & HM) Hlen Hi Ho. pose proof Ht as ((Hnum & _) & _ & _ & Hfree).
  rewrite length_fmap in Hnum. rewrite HM in Hi. destruct (zlookup es i) as [[y|]|] eqn:He; simplify_eq/=.
  pose proof (zlookup_lt _ _ _ He) as Hb.
  wp_call (tab_remove_spec _ _ _ _ i _ Ht); [lia|lia|intros Hin%Hfree; congruence|by apply plenty_head|].
  intros r t' o' (-> & [(-> & _ & Ht')|(_ & Hf & _)]); [|by apply plenty_tail, plenty_head in Ho].
  split_and!; [done|by apply plenty_tail, plenty_tail| |].
  - eexists _, _, _. split; [done|]. intros j. rewrite entry_insert, lookup_delete, HM by done. repeat case_decide; congruence.
  - destruct Ht' as ((Hnum' & _) & _). rewrite length_fmap, length_insert in Hnum'. lia.
Qed.
End Tables.

Definition unlocked : ulock := mkUlock false true.
Definition locked : ulock := mkUlock true true.
Abbreviation fts h := (file_table <$> h).
Abbreviation pts h := (page_table <$> h).

Section ProcessSpec.
  Context {X FT PT : Type} `{!ProcEnv X FT PT, !ProcLaws X FT PT}.
  Abbreviation proc := (process FT PT).
  Abbreviation ps := (psys X FT PT).
  Implicit Types (p : proc) (s : ps) (P : gmap Z loc) (h : gmap loc proc).

(** ** Updates of the state *)
Definition put (l : loc) p s : ps := set_procs (<[l := p]> (ps_heap s)) s.
Definition set_table (t : table loc) s : ps := mkPs (ps_env s) (ps_heap s) t (pt_lock s) (ps_pids s) (ps_asleep s).
Definition set_env (x : X) s : ps := mkPs x (ps_heap s) (process_table s) (pt_lock s) (ps_pids s) (ps_asleep s).
Lemma put_put l p p' s : put l p (put l p' s) = put l p s.
Proof. unfold put, set_procs. simpl. by rewrite insert_insert_eq. Qed.
Lemma proc_put_same l p s : ps_heap s !! l = Some p → put l p s = s.
Proof. intros Hl. unfold put, set_procs. rewrite insert_id by done. by destruct s. Qed.
Lemma proc_put_lookup l p s : ps_heap (put l p s) !! l = Some p.
Proof. apply lookup_insert_eq. Qed.
Lemma set_children_same p : set_children (p_childrenpids p) (p_pidcells p) p = p.
Proof. by destruct p. Qed.
Lemma set_plock_same p : set_plock (p_lock p) p = p.
Proof. by destruct p. Qed.

Lemma wp_get_proc l p (Q : proc → ps → oracle → Prop) s o :
  ps_heap s !! l = Some p → Q p s o → wp (get_proc l) Q s o.
Proof. intros Hl HQ. unfold get_proc. do 2 wp_step. rewrite Hl. by wp_step. Qed.
Lemma wp_upd_proc l g p (Q : unit → ps → oracle → Prop) s o :
  ps_heap s !! l = Some p → Q tt (put l (g p) s) o → wp (upd_proc l g) Q s o.
Proof. intros Hl HQ. unfold upd_proc. wp_step. eapply wp_get_proc; [done|]. by wp_step. Qed.
Lemma wp_on_plock {A} l (m : K ulock A) p (Q : A → ps → oracle → Prop) s o :
  ps_heap s !! l = Some p → wp m (λ a k o', Q a (put l (set_plock k p) s) o') (p_lock p) o → wp (on_plock l m) Q s o.
Proof.
  intros Hl Hm. unfold on_plock. wp_step. eapply wp_get_proc; [done|]. wp_step. wp_step. eapply wp_mono; [exact Hm|].
  intros a k o' HQ. wp_step. eapply wp_upd_proc; [done|]. by wp_step.
Qed.
Lemma wp_lock l p (Q : unit → ps → oracle → Prop) s o :
  ps_heap s !! l = Some p → p_lock p = unlocked → Q tt (put l (set_plock locked p) s) o → wp (on_plock l ulock_acquire) Q s o.
Proof. intros Hl Hk HQ. eapply wp_on_plock; [done|]. by rewrite Hk. Qed.
Lemma wp_unlock l p (Q : unit → ps → oracle → Prop) s o :
  ps_heap s !! l = Some p → p_lock p = locked → Q tt (put l (set_plock unlocked p) s) o → wp (on_plock l ulock_release) Q s o.
Proof. intros Hl Hk HQ. eapply wp_on_plock; [done|]. by rewrite Hk. Qed.
Lemma wp_on_children {A} l (m : K (array loc) A) p a (Q : A → ps → oracle → Prop) s o :
  ps_heap s !! l = Some p → p_childrenpids p = Some a →
  wp m (λ r a' o', Q r (put l (set_children (Some a') (p_pidcells p) p) s) o') a o → wp (on_children l m) Q s o.
Proof.
  intros Hl Ha Hm. unfold on_children. wp_step. eapply wp_get_proc; [done|]. wp_step. rewrite Ha. wp_step. wp_step. wp_step.
  eapply wp_mono; [exact Hm|]. intros r a' o' HQ. wp_step. eapply wp_get_proc; [done|]. wp_step. eapply wp_upd_proc; [done|].
  by wp_step.
Qed.
(** A call that only looks at the array *)
Lemma wp_look_children {A} l (m : K (array loc) A) p a (R : A → Prop) (Q : A → ps → oracle → Prop) s o :
  ps_heap s !! l = Some p → p_childrenpids p = Some a →
  wp m (λ r a' o', R r ∧ a' = a ∧ o' = o) a o → (∀ r, R r → Q r s o) → wp (on_children l m) Q s o.
Proof.
  intros Hl Ha Hm HQ. eapply wp_on_children; [done..|]. eapply wp_mono; [exact Hm|]. intros r a' o' (Hr & -> & ->).
  rewrite <- Ha, set_children_same, proc_put_same by done. by apply HQ.
Qed.
Lemma wp_on_waitq {A} l (m : K (queue Z) A) p q (Q : A → ps → oracle → Prop) s o :
  ps_heap s !! l = Some p → p_waitcv p = Some q →
  wp m (λ r q' o', Q r (put l (set_waitcv (Some q') p) s) o') q o → wp (on_waitq l m) Q s o.
Proof.
  intros Hl Hq Hm. unfold on_waitq. wp_step. eapply wp_get_proc; [done|]. wp_step. rewrite Hq. wp_step. wp_step. wp_step.
  eapply wp_mono; [exact Hm|]. intros r q' o' HQ. wp_step. eapply wp_upd_proc; [done|]. by wp_step.
Qed.
Lemma wp_env {A} (m : K X A) (Q : A → ps → oracle → Prop) s o :
  wp m (λ a x' o', Q a (set_env x' s) o') (ps_env s) o → wp (on_env m) Q s o.
Proof. intros Hm. unfold on_env. by wp_step. Qed.
Lemma wp_curpid t i (Q : Z → ps → oracle → Prop) s o : ps_pids s !! t = Some i → Q i s o → wp (curpid t) Q s o.
Proof. intros Ht HQ. unfold curpid. do 2 wp_step. rewrite Ht. by wp_step. Qed.

(** ** processtable.c *)
Definition set_ptlock (k : ulock) s : ps := mkPs (ps_env s) (ps_heap s) (process_table s) k (ps_pids s) (ps_asleep s).
Lemma wp_pt_acquire (Q : unit → ps → oracle → Prop) s o :
  pt_lock s = unlocked → Q tt (set_ptlock locked s) o → wp (on_ptlock ulock_acquire) Q s o.
Proof. intros Hk HQ. unfold on_ptlock. wp_step. by rewrite Hk. Qed.
Lemma wp_pt_table {A} (m : K (table loc) A) (Q : A → ps → oracle → Prop) s o :
  wp m (λ a t o', Q a (set_table t s) o') (process_table s) o → wp (on_table m) Q s o.
Proof. intros Hm. unfold on_table. by wp_step. Qed.
Lemma wp_pt_release t (Q : unit → ps → oracle → Prop) s o :
  pt_lock s = unlocked → Q tt (set_table t s) o → wp (on_ptlock ulock_release) Q (set_table t (set_ptlock locked s)) o.
Proof. intros Hk HQ. unfold on_ptlock. wp_step. unfold set_table in HQ. rewrite Hk in HQ. done. Qed.
Lemma set_table_same s : set_table (process_table s) s = s.
Proof. by destruct s. Qed.
Lemma set_table_twice t t' s : set_table t (set_table t' s) = set_table t s.
Proof. done. Qed.
Lemma processtable_getsize_spec s o :
  pt_lock s = unlocked → wp processtable_getsize (λ r s' o', r = num (arr (process_table s)) ∧ s' = s ∧ o' = o) s o.
Proof.
  intros Hk. unfold processtable_getsize. wp_step. apply wp_pt_acquire; [done|]. wp_step. apply wp_pt_table.
  wp_call (tab_getsize_map _ ∅). intros r t o' (-> & -> & ->). wp_step. apply wp_pt_release; [done|]. wp_step.
  split_and!; [done|exact (set_table_same s)|done].
Qed.
Lemma processtable_get_spec s P pid o :
  pt_lock s = unlocked → table_map (process_table s) P →
  wp (processtable_get pid) (λ r s' o', r = P !! pid ∧ s' = s ∧ o' = o) s o.
Proof.
  intros Hk Ht. unfold processtable_get. wp_step.
  assert (∀ r : bool, (r = true → P !! pid = None) → (r = false → 0 ≤ pid < num (arr (process_table s))) →
    wp (if r then ret None else
      _ <- on_ptlock ulock_acquire; p <- on_table (tab_getguy pid);
      match p with None => _ <- on_ptlock ulock_release; ret None | Some p => _ <- on_ptlock ulock_release; ret (Some p) end)
      (λ r s' o', r = P !! pid ∧ s' = s ∧ o' = o) s o) as Hget.
  { intros [|] Hout Hin; [wp_step; by rewrite Hout|]. wp_step. apply wp_pt_acquire; [done|]. wp_step. apply wp_pt_table.
    wp_call (tab_getguy_map _ _ _ _ Ht); [by apply Hin|]. intros r t o' (-> & -> & ->).
    destruct (P !! pid); wp_step; (apply wp_pt_release; [done|]); wp_step; (split_and!; [done|exact (set_table_same s)|done]). }
  assert (¬ (0 ≤ pid < num (arr (process_table s))) → P !! pid = None) as Hnone.
  { intros Hb. destruct (P !! pid) eqn:Hp; [|done]. destruct Hb. by eapply table_map_bound. }
  destruct (Z.ltb_spec pid 0).
  - wp_step. apply (Hget true); [intros _; apply Hnone; lia|done].
  - wp_step. wp_call (processtable_getsize_spec _ _ Hk). intros r s' o' (-> & -> & ->). wp_step.
    apply (Hget (_ <=? pid)); intros Hle; [apply Hnone|]; lia.
Qed.
Lemma processtable_insert_spec s P l o :
  pt_lock s = unlocked → table_map (process_table s) P → num (arr (process_table s)) < 2 ^ 29 → plenty o →
  wp (processtable_insert l 0) (λ r s' o', plenty o' ∧ ∃ i t', r = (i, 0) ∧ 0 ≤ i ∧ P !! i = None ∧ s' = set_table t' s ∧
    table_map t' (<[i := l]> P) ∧ num (arr t') ≤ num (arr (process_table s)) + 1) s o.
Proof.
  intros Hk Ht Hn Ho. unfold processtable_insert. wp_run. apply wp_pt_acquire; [done|]. wp_step. apply wp_pt_table.
  unfold tab_getnum, on_array, on_slots, array_getnum, ll_size. repeat wp_step. apply wp_pt_table.
  set (t1 := process_table _). assert (t1 = process_table s) as -> by (unfold t1; simpl; by destruct (process_table s)).
  wp_call (tab_add_map _ _ l _ Ht Hn Ho). intros r t o' (Ho' & i & -> & Hi & HP & Ht' & Hn').
  wp_step. change (set_table t (set_table ?t' ?z)) with (set_table t z). apply wp_pt_release; [done|]. wp_step. eauto 10.
Qed.
Lemma processtable_remove_spec s P pid l o :
  pt_lock s = unlocked → table_map (process_table s) P → num (arr (process_table s)) < 2 ^ 29 → P !! pid = Some l → plenty o →
  wp (processtable_remove pid) (λ _ s' o', plenty o' ∧ ∃ t', s' = set_table t' s ∧ table_map t' (delete pid P) ∧
    num (arr t') = num (arr (process_table s))) s o.
Proof.
  intros Hk Ht Hn Hp Ho. unfold processtable_remove. wp_step. apply wp_pt_acquire; [done|]. wp_step. apply wp_pt_table.
  wp_call (tab_remove_map _ _ _ _ _ Ht Hn Hp Ho). intros r t o' (-> & Ho' & Ht' & Hn'). wp_step. wp_step.
  apply wp_pt_release; [done|]. eauto 10.
Qed.

(** ** process.c *)
(** The children of a process: each cell of the array is a [pid_t] of its own. *)
Definition kids_ok p (ks : list Z) : Prop :=
  ∃ a xs, p_childrenpids p = Some a ∧ array_rep a xs ∧ NoDup xs ∧ hold (p_pidcells p) xs ks ∧ Z.of_nat (length xs) < 2 ^ 29.
Lemma free_child_loop l a xs n : ∀ i p s o,
  ps_heap s !! l = Some p → p_childrenpids p = Some a → array_rep a xs → NoDup xs → (i + n)%nat = length xs →
  (∀ x, x ∈ drop i xs → is_Some (p_pidcells p !! x)) →
  wp (kfor n (Z.of_nat i) (free_child l)) (λ _ s' o', o' = o ∧ ∃ cs, s' = put l (set_children (Some a) cs p) s) s o.
Proof.
  induction n as [|n IH]; intros i p s o Hl Hp Ha Hnd Hi Hx; cbn [kfor].
  { wp_step. split; [done|]. exists (p_pidcells p). by rewrite <- Hp, set_children_same, proc_put_same. }
  destruct (lookup_lt_is_Some_2 xs i) as [x Hxi]; [lia|]. rewrite (drop_S _ _ _ Hxi) in Hx. wp_step. unfold free_child. wp_step.
  eapply (wp_look_children _ _ _ _ (λ r, r = x)); [done..| |].
  { eapply array_getguy_spec; [done|]. by rewrite zlookup_nat. }
  intros ? ->. wp_step. eapply wp_get_proc; [done|]. wp_step. destruct (Hx x) as [c Hc]; [set_solver|]. rewrite Hc. wp_step.
  eapply wp_upd_proc; [done|]. rewrite Hp. replace (Z.of_nat i + 1) with (Z.of_nat (S i)) by lia.
  eapply wp_mono; [eapply (IH (S i)); [by apply proc_put_lookup|done|done|done|lia|]|].
  - intros y Hy. simpl. rewrite lookup_delete_ne; [apply Hx; set_solver|]. intros <-.
    rewrite <- (take_drop_middle _ _ _ Hxi) in Hnd. apply NoDup_app in Hnd as (_ & _ & [? _]%NoDup_cons). done.
  - intros _ s' o' (-> & cs & ->). split; [done|]. exists cs. by rewrite put_put.
Qed.
Lemma p_destroy_at_spec s l p ks q Th o :
  ps_heap s !! l = Some p → kids_ok p ks → p_lock p = unlocked → p_waitcv p = Some q → queue_rep q [] →
  env_ok (fts (ps_heap s)) (pts (ps_heap s)) Th (ps_env s) → plenty o →
  wp (p_destroy_at l) (λ _ s' o', plenty o' ∧ ∃ x, s' = set_env x (set_procs (delete l (ps_heap s)) s) ∧
    env_ok (fts (delete l (ps_heap s))) (pts (delete l (ps_heap s))) Th x ∧ ∀ a, env_int x a = env_int (ps_env s) a) s o.
Proof.
  intros Hl (a & xs & Hc & Ha & Hnd & Hh & _) Hk Hq Hqr He Ho. unfold p_destroy_at. wp_step. eapply wp_get_proc; [done|].
  wp_step. apply wp_env. wp_call (law_ft_destroy _ _ _ l _ _ _ He); [by rewrite lookup_fmap, Hl|done|].
  intros _ x1 o1 (Ho1 & He1 & Hi1). wp_step. apply wp_env.
  wp_call (law_pt_destroy _ _ _ l _ _ _ He1); [by rewrite lookup_fmap, Hl|done|].
  intros _ x2 o2 (Ho2 & He2 & Hi2). wp_step. eapply wp_on_plock; [exact Hl|]. rewrite Hk. unfold unlocked, ulock_destroy. wp_run.
  cbn [ul_queue]. wp_step. fold unlocked. rewrite <- Hk, set_plock_same, proc_put_same by done. wp_step. unfold ucv_destroy. rewrite Hq.
  wp_step. wp_step. wp_step. wp_step. unfold q_destroy, q_empty. wp_step. wp_step.
  rewrite (queue_rep_empty _ _ Hqr), bool_decide_true by done. wp_step; [done|]. wp_step. wp_step.
  eapply (wp_look_children _ _ _ _ (λ r, r = Z.of_nat (length xs))); [exact Hl|done| |].
  { destruct Ha as (Hn & _). rewrite length_fmap in Hn. by unfold array_getnum; wp_step. }
  intros ? ->. wp_step. rewrite Nat2Z.id. wp_call (free_child_loop l a xs (length xs) 0); [exact Hl|done..| |].
  { intros x Hx. apply list_elem_of_lookup in Hx as [j Hj]. destruct (Forall2_lookup_l _ _ _ _ _ Hh Hj) as (k & _ & ?). eauto. }
  intros _ s' o' (-> & cs & ->). wp_step. unfold destroy_children. wp_step.
  eapply wp_on_children; [apply proc_put_lookup|done|]. unfold array_destroy. wp_step. wp_step. eapply wp_get_proc; [apply proc_put_lookup|].
  eapply wp_upd_proc; [apply proc_put_lookup|]. unfold free_proc. wp_step. eapply wp_get_proc; [apply proc_put_lookup|]. wp_step.
  split; [done|]. exists x2. split_and!; [|by rewrite !fmap_delete|intros b; by rewrite Hi2, Hi1].
  unfold put, set_procs, set_env. simpl. by rewrite !delete_insert_eq.
Qed.

(** A process that has just been made *)
Definition new_ok p (i : Z) : Prop :=
  ∃ ft pt a q, p = mkProc 0 (-1) 0 (Some i) ft pt (Some a) ∅ (Some q) unlocked None ∧
    ft_new ft ∧ array_rep a [] ∧ queue_rep q [].
Lemma ucv_create_spec (o : oracle) s :
  plenty o → wp ucv_create (λ r s' o', s' = s ∧ plenty o' ∧ ∃ q, r = Some (Some q) ∧ queue_rep q []) s o.
Proof.
  intros Ho. unfold ucv_create, q_create. wp_mem Ho. split_and!; [done|by repeat apply plenty_tail|]. eexists. split; [done|].
  apply queue_rep_fresh. unfold MAXTHREADS. lia.
Qed.
Lemma ulock_create_spec (o : oracle) s :
  plenty o → wp ulock_create (λ r s' o', s' = s ∧ plenty o' ∧ r = Some unlocked) s o.
Proof. intros Ho. unfold ulock_create, q_create. wp_mem Ho. split_and!; [done|by repeat apply plenty_tail|done]. Qed.
Lemma array_create_spec (o : oracle) s :
  plenty o → wp array_create (λ r s' o', s' = s ∧ plenty o' ∧ ∃ a : array loc, r = Some a ∧ array_rep a []) s o.
Proof.
  intros Ho. unfold array_create. wp_mem Ho. split_and!; [done|by repeat apply plenty_tail|]. eexists. split; [done|].
  repeat split; simpl; lia.
Qed.
Lemma p_enter_spec s P l p o :
  ps_heap s !! l = Some p → pt_lock s = unlocked → table_map (process_table s) P → num (arr (process_table s)) < 2 ^ 29 → plenty o →
  wp (p_enter l) (λ r s' o', plenty o' ∧ ∃ i t, r = Some l ∧ 0 ≤ i ∧ P !! i = None ∧
    s' = put l (set_pid i p) (set_table t s) ∧ table_map t (<[i := l]> P) ∧ num (arr t) ≤ num (arr (process_table s)) + 1) s o.
Proof.
  intros Hl Hk Ht Hn Ho. unfold p_enter. wp_step. wp_call (processtable_insert_spec _ _ l _ Hk Ht Hn Ho).
  intros r s' o' (Ho' & i & t & -> & Hi & HP & -> & Ht' & Hn'). destruct (Z.eqb_spec i (-1)); [lia|].
  wp_step. eapply wp_upd_proc; [exact Hl|]. wp_step. split; [done|]. by exists i, t.
Qed.
Lemma p_create_spec s P Th o :
  pt_lock s = unlocked → table_map (process_table s) P → num (arr (process_table s)) < 2 ^ 29 →
  env_ok (fts (ps_heap s)) (pts (ps_heap s)) Th (ps_env s) → plenty o →
  wp p_create (λ r s' o', plenty o' ∧ ∃ l i p t x, r = Some l ∧ 0 ≤ i ∧ P !! i = None ∧ ps_heap s !! l = None ∧ new_ok p i ∧
    s' = put l p (set_table t (set_env x s)) ∧ table_map t (<[i := l]> P) ∧ num (arr t) ≤ num (arr (process_table s)) + 1 ∧
    env_ok (fts (<[l := p]> (ps_heap s))) (pts (<[l := p]> (ps_heap s))) Th x ∧
    ∀ u, env_can_fork (ps_env s) u → env_can_fork x u) s o.
Proof.
  intros Hk Ht Hn He Ho. unfold p_create. set (l := fresh (dom (ps_heap s))).
  assert (ps_heap s !! l = None) as Hl by apply not_elem_of_dom, is_fresh.
  do 2 wp_step. rewrite (proj2 (not_fails_iff _)) by by apply plenty_head. cbn [negb]. wp_step. apply wp_env. apply plenty_tail in Ho.
  wp_call (law_ft_create _ _ _ _ _ He Ho). intros r x1 o1 (Ho1 & Hf1 & ft & -> & Hft & He1). wp_step. apply wp_env.
  wp_call (law_pt_create _ _ _ _ _ (He1 l ltac:(by rewrite lookup_fmap, Hl)) Ho1). intros r x2 o2 (Ho2 & Hf2 & pt & -> & He2).
  wp_step. wp_call (ucv_create_spec _ _ Ho2). intros r ? o3 (-> & Ho3 & q & -> & Hq). wp_step.
  wp_call (ulock_create_spec _ _ Ho3). intros r ? o4 (-> & Ho4 & ->). wp_step.
  wp_call (array_create_spec _ _ Ho4). intros r ? o5 (-> & Ho5 & a & -> & Ha). wp_step. unfold new_proc. do 2 wp_step. cbn [ps_heap set_env].
  do 3 wp_step. fold l.
  wp_call p_enter_spec; [apply lookup_insert_eq|done..|]. intros r s' o' (Ho' & i & t & -> & Hi & HP & -> & Ht' & Hn').
  split; [done|]. eexists l, i, _, t, x2. split_and!; try done.
  - by exists ft, pt, a, q.
  - unfold put, set_procs, set_table, set_env. simpl. by rewrite insert_insert_eq.
  - rewrite !fmap_insert. apply He2. by rewrite lookup_fmap, Hl.
  - eauto.
Qed.
End ProcessSpec.
