(* ===== verification/ProcessEnv.v ===== *)
(** * Processes: the files and the page tables satisfy the laws

    The class of Process.v, with the file tables of Files.v, the page tables
    of Vm.v over one coremap, and the memory that [copyin] sees.  The threads
    are only told apart: thread_fork itself is in Thread.v. *)
From S2P Require Import Prelude Queue Array LinkedList Table Memory Copyinout Uio Pages Coremap Request Vnode SfsVnode.
From S2P Require Import Files FilesSpec FilesSim Vm VmSpec Process ProcessSpec.

(** The bytes of an [int], the highest first *)
Definition int_bytes (z : Z) : list Z := [u32 z / 2 ^ 24; u32 z / 2 ^ 16 mod 256; u32 z / 2 ^ 8 mod 256; u32 z mod 256].
Definition bytes_int (bs : list Z) : Z := s32 (foldl (λ n b, n * 256 + b) 0 bs).
Lemma int_bytes_int z : bytes_int (int_bytes z) = s32 z.
Proof.
  unfold bytes_int, int_bytes. cbn [foldl]. pose proof (u32_bound z) as Hb. unfold u32, s32 in *.
  set (n := z mod 2 ^ 32) in *. assert (((n / 2 ^ 24 * 256 + n / 2 ^ 16 mod 256) * 256 + n / 2 ^ 8 mod 256) * 256 + n mod 256 = n) as Hn.
  { Z.to_euclidean_division_equations. lia. }
  rewrite Z.mul_0_l, Z.add_0_l, Hn. unfold n. by rewrite Zplus_mod_idemp_l.
Qed.

Record penv (D E : Type) : Type := mkPenv {
  pe_fds : fdsys D;
  pe_vm : vmsys E;
  pe_threads : gmap Z bool; (** whether the thread has an address space *)
}.
Arguments mkPenv {D E} _ _ _.
Arguments pe_fds {D E} _.
Arguments pe_vm {D E} _.
Arguments pe_threads {D E} _.

Section ProcessEnv.
  Context {D E : Type} `{!VfsFiles D, !FilesLaws D, !VfsIo E} (B : Z → nat) (dest : Z).
  Abbreviation env := (penv D E).
  Implicit Types (x : env) (F : gmap loc filetable) (G : gmap loc pagetable) (Th : gset Z) (M : gmap (Z * Z) loc).

Definition set_fds (s : fdsys D) x : env := mkPenv s (pe_vm x) (pe_threads x).
Definition set_vm (s : vmsys E) x : env := mkPenv (pe_fds x) s (pe_threads x).
Definition on_fds {A} (m : K (fdsys D) A) : K env A := zoom pe_fds set_fds m.
(** A call on the file table [ft] *)
Definition on_ft {A} (ft : filetable) (m : K (filetable * fdsys D) A) : K env (A * filetable) :=
  x <- kget;
  '(a, st) <- run_on m (ft, pe_fds x);
  _ <- kput (set_fds st.2 x);
  ret (a, st.1).
(** The memory for the thread, its name and its stack, and what [as_copy] allocates *)
Definition thread_new (t : Z) : K env (Z * Z * bool) :=
  ok1 <- kmalloc_ok;
  ok2 <- kmalloc_ok;
  ok3 <- kmalloc_ok;
  ok4 <- kmalloc_ok;
  if negb (ok1 && ok2 && ok3 && ok4) then ret (ENOMEM, 0, false)
  else
    x <- kget;
    let nt := fresh (dom (pe_threads x)) in
    let vmspace := default false (pe_threads x !! t) in
    _ <- kput (mkPenv (pe_fds x) (pe_vm x) (<[nt := vmspace]> (pe_threads x)));
    ret (0, nt, vmspace).
#[local] Instance proc_env : ProcEnv env filetable pagetable := {
  env_ft_create := ft_create;
  env_ft_destroy ft := _ <- on_ft ft ft_destroy; ret tt;
  env_ft_duplicate ft nt := '(err, nt, ft) <- on_ft ft (ft_duplicate nt); ret (err, ft, nt);
  env_pt_create := pt_create;
  env_pt_destroy pt := zoom (λ x, set_pt pt (pe_vm x)) (λ s x, set_vm (set_pt (vm_pt (pe_vm x)) s) x) pt_destroy;
  env_thread_new := thread_new;
  env_thread_start nt := ret 0;
  env_copyin a := on_fds (on_fmach (copyin a dest 4));
  env_store a z :=
    r <- on_fds (on_fmach (mstore a (int_bytes z)));
    match r with Some _ => ret tt | None => halt Fault end;
}.

(** ** The invariant *)
Definition tabs_ok F M : Prop := ∀ l, tab_rep M (Z.pos l) (F !! l).
(** The pages [L l] of the page table [l]; two tables have no frame in common. *)
Definition pages_ok (c : core) G (L : loc → list (loc * (Z * Z))) : Prop :=
  core_ok c ∧ cm_wf (cm c) ∧ (∀ l pt, G !! l = Some pt → pt_ok c pt (L l)) ∧
  ∀ l l' p q, is_Some (G !! l) → is_Some (G !! l') → l ≠ l' → p ∈ L l → q ∈ L l' → pg_pa p ≠ pg_pa q.
Definition penv_ok F G Th x : Prop :=
  (∃ M, tabs_ok F M ∧ fds_ok B (refs M) (pe_fds x)) ∧ (∃ L, pages_ok (vm_core (pe_vm x)) G L) ∧
  kernel_block (fd_mach (pe_fds x)) dest 4 ∧ Th ⊆ dom (pe_threads x).
Definition new_ft (ft : filetable) : Prop := ∃ nt, ft = mkFt nt FilesSpec.idle ∧ table_rep nt [] [] 0.
Definition has_space x (t : Z) : Prop := pe_threads x !! t = Some true.
Definition can_fork x (t : Z) : Prop := has_space x t ∧ ∀ f y, fd_heap (pe_fds x) !! f = Some y → 2 * numrefs y < 2 ^ 31.
(** The word at [a] is memory of the process, or none of it is. *)
Definition word_ptr x (a : Z) : Prop :=
  let m := fd_mach (pe_fds x) in
  0 ≤ a < 2 ^ 32 ∧ (a + 4 ≤ USERTOP → mapped m a 4 ∧ ∃ k, k ≠ AKill ∧ ∀ b, a ≤ b < a + 4 → urd m b = k ∧ uwr m b = k).
Definition word_at x (a : Z) : Prop :=
  let m := fd_mach (pe_fds x) in 0 ≤ a ∧ a + 4 ≤ USERTOP ∧ mapped m a 4 ∧ all_ok (urd m) a 4 ∧ all_ok (uwr m) a 4.
Definition word_value x (a : Z) : option Z := bytes_int <$> bytes_at (mem (fd_mach (pe_fds x))) a 4.

(** ** The file tables *)
Lemma wp_on_ft {A} ft (m : K (filetable * fdsys D) A) (Q : A * filetable → env → oracle → Prop) x o :
  wp m (λ a st o', Q (a, st.1) (set_fds st.2 x) o') (ft, pe_fds x) o → wp (on_ft ft m) Q x o.
Proof. intros Hm. unfold on_ft. do 2 wp_step. wp_step. wp_step. eapply wp_mono; [exact Hm|]. intros a st o' HQ. do 2 wp_step. by wp_step. Qed.
Lemma new_ft_empty ft N : new_ft ft → ft_ok ft N → N = ∅.
Proof.
  intros (nt & -> & (Ha & _)) [_ (es & [(free & leaked & Hes & _) _] & HN)]. simpl in Hes. pose proof Ha as (H0 & _). pose proof Hes as (H1 & _).
  rewrite length_fmap in H0, H1. destruct es as [|e es]; [|simpl in *; lia]. apply map_eq. intros i. rewrite HN, lookup_empty.
  unfold zlookup. by case_decide.
Qed.
Lemma new_ft_ok ft : new_ft ft → ft_ok ft ∅.
Proof.
  intros (nt & -> & Ht). split; [done|]. exists []. split; [split; [eauto|by unfold PROC_NFILES_MAX]|]. intros i. unfold zlookup. by case_decide.
Qed.
Lemma tabs_insert F M l ft : tabs_ok F M → F !! l = None → new_ft ft → tabs_ok (<[l := ft]> F) M.
Proof.
  intros HF Hl Hft k. rewrite lookup_insert. case_decide; [subst|apply HF]. exists ∅. split; [by apply new_ft_ok|]. intros fd.
  pose proof (HF k) as Hk. rewrite Hl in Hk. by rewrite Hk.
Qed.
(** The descriptors of one table, and the rest *)
Lemma tabs_take F M l ft :
  tabs_ok F M → F !! l = Some ft →
  ∃ N M', ft_ok ft N ∧ (∀ fd, N !! fd = M !! (Z.pos l, fd)) ∧ tabs_ok (delete l F) M' ∧ ∀ g, refs M g = refs M' g + refs N g.
Proof.
  intros HF Hl. pose proof (HF l) as Hft. rewrite Hl in Hft. destruct Hft as (N & Hft & HN). set (M' := filter (λ kf, kf.1.1 ≠ Z.pos l) M).
  assert (∀ p fd, M' !! (p, fd) = if decide (p = Z.pos l) then None else M !! (p, fd)) as HM'.
  { intros p fd. unfold M'. rewrite map_lookup_filter. destruct (M !! (p, fd)); simpl; [|by case_decide].
    repeat case_guard; repeat case_decide; naive_solver. }
  exists N, M'. split_and!; [done..| |].
  - intros k. rewrite lookup_delete. case_decide as Hk; [subst; intros fd; by rewrite HM', decide_True|].
    eapply tab_rep_ext; [|apply HF]. intros fd. rewrite HM', decide_False by congruence. done.
  - apply (refs_add M' M (Z.pos l) N); [intros fd; by rewrite HM', decide_True|]. intros p fd. rewrite HM', HN. by case_decide; subst.
Qed.
Lemma tabs_share F M l l' ft nt nt' N :
  tabs_ok F M → l ≠ l' → F !! l = Some ft → F !! l' = Some nt → new_ft nt → (∀ fd, N !! fd = M !! (Z.pos l, fd)) → ft_ok ft N → ft_ok nt' N →
  ∃ M', tabs_ok (<[l' := nt']> (<[l := ft]> F)) M' ∧ ∀ g, refs M' g = refs M g + refs N g.
Proof.
  intros HF Hne Hl Hl' Hnew HN Hft Hnt'. pose proof (HF l') as Hnt. rewrite Hl' in Hnt. destruct Hnt as (N0 & H0 & HN0).
  rewrite (new_ft_empty _ _ Hnew H0) in HN0. set (M' := kmap (pair (Z.pos l')) N ∪ M).
  assert (∀ p fd, M' !! (p, fd) = if decide (p = Z.pos l') then N !! fd else M !! (p, fd)) as HM'.
  { intros p fd. unfold M'. rewrite lookup_union. case_decide as Hp.
    - subst. by rewrite lookup_kmap, <- HN0, (right_id_L None _) by apply _.
    - rewrite (proj2 (lookup_kmap_None (pair (Z.pos l')) N (p, fd))); [by rewrite (left_id_L None _)|]. by intros i [= ? ?]. }
  exists M'. split.
  - intros k. rewrite (insert_id F) by done. rewrite lookup_insert. case_decide as Hk.
    + subst k. exists N. split; [done|]. intros fd. by rewrite HM', decide_True.
    + eapply tab_rep_ext; [|apply HF]. intros fd. rewrite HM', decide_False by congruence. done.
  - apply (refs_add M M' (Z.pos l') N); [intros fd; by rewrite <- HN0|done].
Qed.
Lemma penv_ft_create F G Th x o :
  penv_ok F G Th x → plenty o →
  wp env_ft_create (λ r x' o', plenty o' ∧ (∀ t, can_fork x t → can_fork x' t) ∧
    ∃ ft, r = Some ft ∧ new_ft ft ∧ ∀ l, F !! l = None → penv_ok (<[l := ft]> F) G Th x') x o.
Proof.
  intros ((M & HF & Hs) & HG & Hd & HTh) Ho. cbn [env_ft_create proc_env]. wp_call (ft_create_spec x); [done|].
  intros r x' o' (-> & Ho' & nt & -> & Hnt). split_and!; [done..|]. eexists. assert (new_ft (mkFt nt FilesSpec.idle)) as Hnew by by exists nt.
  split_and!; [done..|]. intros l Hl. split_and!; [|done..]. exists M. split; [by apply tabs_insert|done].
Qed.
Lemma penv_ft_destroy F G Th l ft x o :
  penv_ok F G Th x → F !! l = Some ft → plenty o →
  wp (env_ft_destroy ft) (λ _ x' o', plenty o' ∧ penv_ok (delete l F) G Th x' ∧ ∀ a, word_value x' a = word_value x a) x o.
Proof.
  intros ((M & HF & Hs) & HG & Hd & HTh) Hl Ho. destruct (tabs_take _ _ _ _ HF Hl) as (N & M' & Hft & HN & HF' & Href).
  cbn [env_ft_destroy proc_env]. wp_step. apply wp_on_ft. wp_call (ft_destroy_spec B (refs M) ft N); [done|done| |done|].
  { intros g. rewrite Href. pose proof (refs_nonneg M' g). lia. }
  intros _ st o' ([Hs' _] & Ho' & Hm). wp_step. split_and!; [done| |].
  - split_and!; simpl; [|done|by rewrite Hm|done]. exists M'. split; [done|]. eapply fds_ok_ext; [|exact Hs']. intros g. cbn beta. rewrite Href. lia.
  - intros a. unfold word_value. simpl. by rewrite Hm.
Qed.
Lemma penv_ft_duplicate F G Th l ft l' nt x t o :
  penv_ok F G Th x → l ≠ l' → F !! l = Some ft → F !! l' = Some nt → new_ft nt → can_fork x t → plenty o →
  wp (env_ft_duplicate ft nt) (λ r x' o', plenty o' ∧ has_space x' t ∧
    ∃ ft' nt', r = (0, ft', nt') ∧ penv_ok (<[l' := nt']> (<[l := ft']> F)) G Th x') x o.
Proof.
  intros ((M & HF & Hs) & HG & Hd & HTh) Hne Hl Hl' Hnew [Ht Hfew] Ho. destruct (tabs_take _ _ _ _ HF Hl) as (N & M1 & Hft & HN & _ & Href).
  pose proof Hnew as (tb & -> & Htb). cbn [env_ft_duplicate proc_env]. wp_step. apply wp_on_ft.
  wp_call (ft_duplicate_spec B (refs M) ft N tb); [done..| | |done|].
  { intros g. rewrite Href. pose proof (refs_nonneg M1 g). lia. }
  { intros g. destruct (decide (refs M g = 0)) as [H0|H0].
    - pose proof (refs_nonneg M1 g). pose proof (refs_nonneg N g). rewrite Href in *. lia.
    - destruct (counted_file B (refs M) (pe_fds x) g Hs) as (y & Hy & Hn & _); [pose proof (refs_nonneg M g); lia|].
      specialize (Hfew _ _ Hy). rewrite Hn in Hfew. pose proof (refs_nonneg M1 g). rewrite Href in *. lia. }
  intros [err nt'] [ft' s'] o' (He & Hnt' & Hft' & Hs' & _ & Ho' & Hm). simpl in *. subst err ft'. wp_step.
  destruct (tabs_share _ _ _ _ _ _ nt' N HF Hne Hl Hl' Hnew HN Hft Hnt') as (M' & HF' & Href').
  split_and!; [done..|]. exists ft, nt'. split; [done|]. split_and!; simpl; [|done|by rewrite Hm|done]. exists M'. split; [done|].
  eapply fds_ok_ext; [|exact Hs']. intros g. cbn beta. by rewrite Href'.
Qed.

(** ** The page tables *)
Lemma pt_ok_nil (c : core) (a : array loc) (l : linkedlist loc) : array_rep a [] → ll_rep l [] → pt_ok c (mkPt a l ∅) [].
Proof. intros Ha Hl. split; try done; try (by constructor); by intros y ?%elem_of_nil. Qed.
Lemma penv_pt_create F G Th x o :
  penv_ok F G Th x → plenty o →
  wp env_pt_create (λ r x' o', plenty o' ∧ (∀ t, can_fork x t → can_fork x' t) ∧
    ∃ pt, r = Some pt ∧ ∀ l, G !! l = None → penv_ok F (<[l := pt]> G) Th x') x o.
Proof.
  intros (HF & (L & Hc & Hwf & HL & Hdis) & Hd & HTh) Ho. cbn [env_pt_create proc_env]. unfold pt_create, array_create, ll_create. wp_mem Ho.
  split_and!; [by repeat apply plenty_tail|done|]. eexists. split; [done|]. intros l Hl. split_and!; [done| |done..].
  exists (λ k, if decide (k = l) then [] else L k). split_and!; [done..| |].
  - intros k pt. rewrite lookup_insert. case_decide as Hk.
    + subst k. intros [= <-]. rewrite decide_True by done. apply pt_ok_nil; [repeat split; simpl; lia|apply ll_rep_nil].
    + rewrite decide_False by congruence. apply HL.
  - intros k k' p q. rewrite !lookup_insert. repeat case_decide; subst; first [done|set_solver|apply Hdis].
Qed.
Lemma pages_delete c c' G L l pt :
  pages_ok c G L → G !! l = Some pt → core_ok c' → cm_wf (cm c') →
  (∀ pa m, has_frame c pa m → pa ∉ (pg_pa <$> L l) → has_frame c' pa m) → pages_ok c' (delete l G) L.
Proof.
  intros (_ & _ & HL & Hdis) Hl Hc' Hwf' Hk. split_and!; [done..| |].
  - intros k pk [Hne Hpk]%lookup_delete_Some. destruct (HL _ _ Hpk) as [? ? ? ? ? ? Hf ? ?]. split; try done. intros p Hp.
    apply Hk; [by apply Hf|]. intros (q & He & Hq)%list_elem_of_fmap. by apply (Hdis k l p q) in He; [|eauto..].
  - intros k k' p q [pk [_ Hpk]%lookup_delete_Some] [pk' [_ Hpk']%lookup_delete_Some]. apply Hdis; eauto.
Qed.
Lemma penv_pt_destroy F G Th l pt x o :
  penv_ok F G Th x → G !! l = Some pt → plenty o →
  wp (env_pt_destroy pt) (λ _ x' o', plenty o' ∧ penv_ok F (delete l G) Th x' ∧ ∀ a, word_value x' a = word_value x a) x o.
Proof.
  intros (HF & (L & HP) & Hd & HTh) Hl Ho. pose proof HP as (Hc & Hwf & HL & _). cbn [env_pt_destroy proc_env]. wp_step.
  wp_call (pt_destroy_spec _ (L l)); [exact Hc|exact Hwf|by apply HL|]. intros _ s' o' (-> & Hc' & Hwf' & Hk).
  split_and!; [done| |done]. split_and!; [done| |done..]. exists L. by eapply pages_delete.
Qed.

(** ** The threads, and user memory *)
Lemma penv_thread_new F G Th t x o :
  penv_ok F G Th x → has_space x t → plenty o →
  wp (env_thread_new t) (λ r x' o', plenty o' ∧ ∃ nt, r = (0, nt, true) ∧ (nt ∉ Th) ∧ penv_ok F G ({[nt]} ∪ Th) x') x o.
Proof.
  intros (HF & HG & Hd & HTh) Ht Ho. cbn [env_thread_new proc_env]. unfold thread_new. wp_mem Ho. wp_cond. do 4 wp_step.
  rewrite Ht. cbn [default]. wp_step.
  split; [by repeat apply plenty_tail|]. eexists. pose proof (is_fresh (dom (pe_threads x))) as Hf. split_and!; [done| |].
  - intros Hin. apply Hf. set_solver.
  - split_and!; [done..|]. simpl. rewrite dom_insert_L. set_solver.
Qed.
Lemma mload_refused m w a o :
  a < USERTOP → urd m a = AFault → badfault m = true → wp (mload w a) (λ r m' o', r = None ∧ m' = m ∧ o' = o) m o.
Proof. intros Ha Hu Hb. unfold mload, bindo, check_access. wp_run. rewrite (proj2 (Z.ltb_lt _ _)), Hu by done. wp_run. rewrite Hb. by wp_run. Qed.
Lemma copyin_refused m a o :
  0 ≤ a → a + 4 ≤ USERTOP → urd m a = AFault → badfault m = false →
  wp (copyin a dest 4) (λ r m' o', r = EFAULT ∧ m' = m ∧ o' = o) m o.
Proof.
  intros Ha Hu Hr Hb. unfold copyin. destruct (copycheck_block a 4) as [(_ & _ & ->)|([?|?] & _)]; try (unfold USERTOP, MIPS_KSEG0 in *; lia).
  wp_cond. wp_cond. unfold protected, set_badfault. wp_step. wp_step. wp_step. set (m1 := mkMachine _ _ _ true).
  assert (wp (memcpy dest a 4) (λ r m' o', r = None ∧ m' = m1 ∧ o' = o) m1 o) as Hm.
  { assert (u32 (a + 0) = a) as Ha' by (rewrite Z.add_0_r, u32_small; unfold USERTOP, MIPS_KSEG0 in *; lia).
    unfold memcpy. destruct (_ && _); simpl; unfold bindo at 1; wp_step; rewrite Z.mul_0_l, Ha';
      (wp_call mload_refused; [unfold USERTOP, MIPS_KSEG0 in *; lia|done|done|]; intros r m' o' (-> & -> & ->); by wp_step). }
  unfold bindo. wp_step. eapply wp_mono; [exact Hm|]. intros r m' o' (-> & -> & ->). do 4 wp_step.
  split_and!; [done| |done]. destruct m. simpl in *. by subst.
Qed.
Lemma set_mach_ok F G Th x m :
  penv_ok F G Th x → badfault m = false → kernel_block m dest 4 →
  penv_ok F G Th (set_fds (mkFd (fd_vfs (pe_fds x)) m (fd_heap (pe_fds x))) x).
Proof. intros ((M & HF & [? ? ? ? ?]) & HG & Hd & HTh) Hb Hk. split_and!; [|done..]. exists M. by split. Qed.
Lemma penv_copyin F G Th a x o :
  penv_ok F G Th x → word_ptr x a → plenty o →
  wp (env_copyin a) (λ r x' o', plenty o' ∧ penv_ok F G Th x' ∧ (r = 0 ↔ word_at x a) ∧ (word_at x a → word_at x' a)) x o.
Proof.
  intros Hx (Ha & Hp) Ho. pose proof Hx as ((M & HF & Hs) & HG & Hd & HTh). cbn [env_copyin proc_env]. unfold on_fds, on_fmach. wp_step. wp_step.
  pose proof (fo_mach _ _ _ Hs) as Hbf. set (m := fd_mach (pe_fds x)) in *.
  destruct (decide (a + 4 ≤ USERTOP)) as [Hu|Hu].
  2: { unfold copyin. destruct (copycheck_block a 4) as [(_ & ? & _)|(_ & e & l & -> & He)]; [lia|lia|lia|].
       wp_call (check_refuses e l 4 _ _ _ He). intros r m' o' (-> & -> & ->). split_and!; [done|by apply set_mach_ok| |]; [|by intros (_ & ? & _)].
       split; [done|]. by intros (_ & ? & _). }
  destruct (Hp Hu) as (Hm & k & Hk & Hall). destruct k; [| |done].
  - assert (all_ok (urd m) a 4 ∧ all_ok (uwr m) a 4) as [Hrd Hwr] by (split; intros b Hb; by apply Hall).
    wp_call (copyin_spec m a dest 4 o); [done|lia|lia|done| |].
    { intros _. split; [done|]. intros b Hb. by rewrite Hrd. }
    intros r m' o' (-> & Hbf' & Hur & Huw & Hch & [(-> & _ & _ & Hd')|[_ Hno]]); [|by destruct Hno; split_and!].
    destruct Hd as (Hd1 & Hd2 & Hd3).
    split_and!; [done| |split; [intros _; split_and!; [lia|done..]|done]|].
    + apply set_mach_ok; [done..|]. split_and!; [done..|]. unfold mapped. by rewrite Hd'.
    + intros _. unfold word_at. simpl. rewrite Hur, Huw. split_and!; [lia|done| |done..]. unfold mapped in *. rewrite bytes_at_is_Some in *.
      intros k Hk'. rewrite Hch; [by apply Hm|lia].
  - wp_call (copyin_refused m a o); [lia|done|apply Hall; lia|done|]. intros r m' o' (-> & -> & ->). split_and!; [done|by apply set_mach_ok| |done].
    split; [done|]. intros (_ & _ & _ & Hrd & _). destruct (Hall a) as [Hr _]; [lia|].
    assert (urd m a = AOk) by (apply Hrd; lia). congruence.
Qed.
Lemma penv_store F G Th a z x o :
  penv_ok F G Th x → word_at x a → plenty o →
  wp (env_store a z) (λ _ x' o', plenty o' ∧ penv_ok F G Th x' ∧ word_value x' a = Some (s32 z)) x o.
Proof.
  intros Hx (Ha & Hu & Hm & Hr & Hw) Ho. pose proof Hx as ((M & HF & Hs) & HG & Hd & HTh). pose proof (fo_mach _ _ _ Hs) as Hbf.
  cbn [env_store proc_env]. wp_step. unfold on_fds, on_fmach. wp_step. wp_step. set (m := fd_mach (pe_fds x)) in *.
  destruct Hm as [old Hold]. wp_call (mstore_spec m a (int_bytes z) old).
  { exact Hold. } { intros _. left. apply Hw. lia. }
  intros r m' o' (-> & [(-> & -> & _)|(_ & _ & Hn & _)]). 2: { destruct Hn. intros _. apply Hw. lia. }
  wp_step. destruct Hd as (Hd1 & Hd2 & Hd3). split_and!; [done| |].
  - apply set_mach_ok; [done..|]. split_and!; [done..|]. by apply bytes_at_write_is_Some.
  - unfold word_value. cbn [pe_fds set_fds fd_mach with_mem mem]. change 4%nat with (length (int_bytes z)).
    rewrite bytes_at_write_eq. simpl. by rewrite int_bytes_int.
Qed.
#[local] Instance proc_laws : ProcLaws env filetable pagetable.
Proof.
  refine {| env_ok := penv_ok; ft_new := new_ft; env_can_fork := can_fork; env_user := has_space;
            env_thread x t := t ∈ dom (pe_threads x); env_ptr := word_ptr;
            env_word := word_at; env_int := word_value |}.
  - apply penv_ft_create.
  - apply penv_pt_create.
  - apply penv_ft_destroy.
  - apply penv_pt_destroy.
  - apply penv_ft_duplicate.
  - apply penv_thread_new.
  - intros F G Th t x (? & ? & ? & ?) Ht. split_and!; [done..|set_solver].
  - intros F G Th t x o He Ho. cbn [env_thread_start proc_env]. by wp_step.
  - apply penv_copyin.
  - apply penv_store.
Defined.
End ProcessEnv.
