(* ===== verification/ProcessSim.v ===== *)
(** * Processes: a contract for fork, exit and waitpid

    The processes as a map from process ids to the parent and the exit code,
    with the thread of each process and the threads that wait for a child; the
    calls refine it ([process_simulation]), a thread that waits for a child is
    woken by the exit of the child and gets its exit code ([waitpid_returns]),
    and what is left over after some sequences of calls. *)
From S2P Require Import Prelude Queue Array LinkedList Table Vnode Process ProcessSpec.

Section ProcessSim.
  Context {X FT PT : Type} `{!ProcEnv X FT PT, !ProcLaws X FT PT}.
  Abbreviation proc := (process FT PT).
  Abbreviation ps := (psys X FT PT).
  Implicit Types (p : proc) (s : ps) (P : gmap Z loc) (h : gmap loc proc).

(** ** Calls

    A thread that sleeps in [sys_waitpid] keeps the process, the process id
    and the address for the exit code. *)
Record pworld : Type := mkPw { pw_sys : ps; pw_cont : gmap Z (loc * Z * Z) }.
Definition on_sys {A} (m : K ps A) : K pworld A := zoom pw_sys (λ s w, mkPw s (pw_cont w)) m.
Inductive pop : Type :=
| PRun (t : Z)
| PFork (t : Z)
| PExit (t code : Z)
| PWait (t pid status options : Z)
| PWake (t : Z).
Inductive pres : Type :=
| RVal (v err : Z) (** the call returns *)
| RSleep (** the thread sleeps *)
| RGone. (** the thread has exited *)
Definition pexec (op : pop) : K pworld pres :=
  match op with
  | PRun t => v <- on_sys (run_process t); ret (RVal v 0)
  | PFork t => '(v, err) <- on_sys (sys_fork t 0); ret (RVal v err)
  | PExit t code => _ <- on_sys (sys__exit t code); ret RGone
  | PWait t pid status options =>
      r <- on_sys (sys_waitpid t pid status options 0);
      match r with
      | inl (v, err) => ret (RVal v err)
      | inr l => _ <- modify (λ w, mkPw (pw_sys w) (<[t := (l, pid, status)]> (pw_cont w))); ret RSleep
      end
  | PWake t =>
      w <- kget;
      '(l, pid, status) <- deref (pw_cont w !! t);
      r <- on_sys (waitpid_wake t l pid status);
      match r with
      | None => ret RSleep
      | Some v => _ <- modify (λ w, mkPw (pw_sys w) (delete t (pw_cont w))); ret (RVal v 0)
      end
  end.

(** ** The contract *)
Abbreviation pmap := (gmap Z (Z * option Z)).
Record pstate : Type := mkPst {
  pa : pmap; (** the parent of a process, and the exit code of one that has exited *)
  pth : gmap Z Z; (** the process of a thread *)
  pwait : gmap Z (Z * Z); (** the child a thread waits for, and the address *)
}.
(** The children of [i] lose their parent. *)
Definition orphan (i : Z) (e : Z * option Z) : Z * option Z := (if e.1 =? i then 0 else e.1, e.2).
Definition bury (i code : Z) (A : pmap) : pmap :=
  let A := orphan i <$> A in
  match A !! i with
  | None => A
  | Some (pp, _) => if pp =? 0 then delete i A else <[i := (pp, Some code)]> A
  end.
(** [good] are the addresses that can be stored to; the fourth argument is
    what a step stores. *)
Inductive pstep (good : Z → Prop) : pstate → pop → pres → option (Z * Z) → pstate → Prop :=
| step_run A T W t c :
    T !! t = None → A !! c = None → 0 ≤ c →
    pstep good (mkPst A T W) (PRun t) (RVal c 0) None (mkPst (<[c := (0, None)]> A) (<[t := c]> T) W)
| step_fork A T W t t' i c :
    T !! t = Some i → W !! t = None → A !! c = None → T !! t' = None → 0 ≤ c →
    pstep good (mkPst A T W) (PFork t) (RVal c 0) None (mkPst (<[c := (i, None)]> A) (<[t' := c]> T) W)
| step_exit A T W t code i :
    T !! t = Some i → W !! t = None →
    pstep good (mkPst A T W) (PExit t code) RGone None (mkPst (bury i code A) (delete t T) W)
| step_wait_options a t pid status options :
    options ≠ 0 → pstep good a (PWait t pid status options) (RVal (-1) EINVAL) None a
| step_wait_memory a t pid status e :
    ¬ good status → e ≠ 0 → pstep good a (PWait t pid status 0) (RVal (-1) e) None a
| step_wait_child A T W t pid status i :
    T !! t = Some i → (∀ st, A !! pid ≠ Some (i, st)) →
    pstep good (mkPst A T W) (PWait t pid status 0) (RVal (-1) EINVAL) None (mkPst A T W)
| step_wait_now A T W t pid status i code :
    T !! t = Some i → W !! t = None → A !! pid = Some (i, Some code) → good status →
    pstep good (mkPst A T W) (PWait t pid status 0) (RVal pid 0) (Some (status, code)) (mkPst (delete pid A) T W)
| step_wait_sleep A T W t pid status i :
    T !! t = Some i → W !! t = None → A !! pid = Some (i, None) → good status →
    pstep good (mkPst A T W) (PWait t pid status 0) RSleep None (mkPst A T (<[t := (pid, status)]> W))
| step_wake A T W t pid status i code :
    W !! t = Some (pid, status) → A !! pid = Some (i, Some code) →
    pstep good (mkPst A T W) (PWake t) (RVal pid 0) (Some (status, code)) (mkPst (delete pid A) T (delete t W)).

(** Processes that run have one thread; the parent of a process runs, unless
    it is given as 0; a thread that waits has a child to wait for. *)
Record abs_ok (a : pstate) : Prop := mkAbsOk {
  ab_runs : ∀ t i, pth a !! t = Some i → ∃ pp, pa a !! i = Some (pp, None);
  ab_one : ∀ t t' i, pth a !! t = Some i → pth a !! t' = Some i → t = t';
  ab_parent : ∀ c i st, pa a !! c = Some (i, st) → i ≠ 0 → ∃ t, pth a !! t = Some i;
  ab_wait : ∀ t c status, pwait a !! t = Some (c, status) → ∃ i st, pth a !! t = Some i ∧ i ≠ 0 ∧ pa a !! c = Some (i, st);
}.
(** The initial process does not wait for children. *)
Definition waits_ok (a : pstate) (op : pop) : Prop :=
  match op with PWait t _ _ _ => pth a !! t ≠ Some 0 | _ => True end.
Lemma orphan_Some i (A : pmap) c pp st :
  (orphan i <$> A) !! c = Some (pp, st) ↔ ∃ pp', A !! c = Some (pp', st) ∧ pp = if pp' =? i then 0 else pp'.
Proof.
  rewrite lookup_fmap, fmap_Some. split.
  - intros ([pp' st'] & Hc & [= -> ->]). eauto.
  - intros (pp' & Hc & ->). exists (pp', st). done.
Qed.
Lemma bury_Some i code (A : pmap) c pp st :
  bury i code A !! c = Some (pp, st) →
  ∃ pp' st', A !! c = Some (pp', st') ∧ (pp = if pp' =? i then 0 else pp') ∧ (c ≠ i ∧ st = st' ∨ c = i ∧ st = Some code ∧ pp ≠ 0).
Proof.
  unfold bury. destruct ((orphan i <$> A) !! i) as [[qq qs]|] eqn:Hi.
  - destruct (decide (c = i)) as [->|Hne].
    + case_match eqn:Hq; [by rewrite lookup_delete_eq|]. rewrite lookup_insert_eq. intros [= <- <-].
      apply orphan_Some in Hi as (pp' & ? & ->). exists pp', qs. split_and!; [done..|]. right. split_and!; [done..|lia].
    + intros Hc. assert ((orphan i <$> A) !! c = Some (pp, st)) as (pp' & ? & ->)%orphan_Some.
      { case_match; [by rewrite lookup_delete_ne in Hc|by rewrite lookup_insert_ne in Hc]. }
      exists pp', st. auto.
  - intros Hc. destruct (decide (c = i)) as [->|Hne]; [congruence|]. apply orphan_Some in Hc as (pp' & ? & ->). eauto 10.
Qed.
Lemma bury_other i code (A : pmap) c pp st :
  A !! c = Some (pp, st) → c ≠ i → bury i code A !! c = Some (if pp =? i then 0 else pp, st).
Proof.
  intros Hc Hne. assert ((orphan i <$> A) !! c = Some (if pp =? i then 0 else pp, st)) as Ho by (apply orphan_Some; eauto).
  unfold bury. repeat case_match; rewrite ?lookup_delete_ne, ?lookup_insert_ne by done; done.
Qed.
Lemma bury_self i code (A : pmap) pp st :
  A !! i = Some (pp, st) → pp ≠ 0 → pp ≠ i → bury i code A !! i = Some (pp, Some code).
Proof.
  intros Hi H0 Hne. unfold bury. assert ((orphan i <$> A) !! i = Some (pp, st)) as ->.
  { apply orphan_Some. exists pp. split; [done|]. by rewrite (proj2 (Z.eqb_neq pp i)). }
  rewrite (proj2 (Z.eqb_neq pp 0)) by done. apply lookup_insert_eq.
Qed.
Lemma fork_ok A T W t' i c :
  abs_ok (mkPst A T W) → (i ≠ 0 → ∃ t, T !! t = Some i) → A !! c = None → T !! t' = None →
  abs_ok (mkPst (<[c := (i, None)]> A) (<[t' := c]> T) W).
Proof.
  intros [Hr H1 Hp Hw] Ht Hc Ht'. simpl in *. assert (∀ u, T !! u ≠ Some c) as Hno.
  { intros u Hu. apply Hr in Hu as [pp ?]. congruence. }
  split; simpl.
  - intros u j. rewrite lookup_insert. case_decide; [intros [= <-]; rewrite lookup_insert_eq; eauto|]. intros Hu.
    rewrite lookup_insert_ne; [eauto|]. intros ->. by apply Hno in Hu.
  - intros u u' j. rewrite !lookup_insert. repeat case_decide; naive_solver.
  - intros d j st. rewrite lookup_insert. case_decide; intros Hd Hj; [injection Hd as <- <-; destruct (Ht Hj) as [u Hu]|destruct (Hp _ _ _ Hd Hj) as [u Hu]];
      exists u; rewrite lookup_insert_ne; congruence.
  - intros u d a (j & st & Hu & Hj & Hd)%Hw. exists j, st. rewrite !lookup_insert_ne by congruence. done.
Qed.
Lemma exit_ok A T W t i code :
  abs_ok (mkPst A T W) → T !! t = Some i → W !! t = None → abs_ok (mkPst (bury i code A) (delete t T) W).
Proof.
  intros [Hr H1 Hp Hw] Ht Hwt. simpl in *. split; simpl.
  - intros u j [Hne Hu]%lookup_delete_Some. destruct (Hr _ _ Hu) as [pp Hj]. eexists. apply bury_other; [done|]. naive_solver.
  - intros u u' j [_ ?]%lookup_delete_Some [_ ?]%lookup_delete_Some. eauto.
  - intros c j st (pp & st' & Hc & -> & _)%bury_Some H0. destruct (Z.eqb_spec pp i); [done|]. destruct (Hp _ _ _ Hc H0) as [u Hu].
    exists u. rewrite lookup_delete_ne; congruence.
  - intros u c a Hu. destruct (Hw _ _ _ Hu) as (j & st & Hj & H0 & Hc). assert (u ≠ t) as Hne by congruence.
    assert (j ≠ i) as Hji by (intros ->; eauto). exists j, (if decide (c = i) then Some code else st).
    rewrite lookup_delete_ne by done. split_and!; [done..|]. case_decide as Hci; [subst; by eapply bury_self|].
    rewrite (bury_other _ _ _ _ _ _ Hc Hci). by rewrite (proj2 (Z.eqb_neq j i)).
Qed.
Lemma reap_ok A T W W' t c i code :
  abs_ok (mkPst A T W) → T !! t = Some i → A !! c = Some (i, Some code) → (∀ u e, W' !! u = Some e → u ≠ t ∧ W !! u = Some e) →
  abs_ok (mkPst (delete c A) T W').
Proof.
  intros [Hr H1 Hp Hw] Ht Hc HW. simpl in *. split; simpl.
  - intros u j Hu. destruct (Hr _ _ Hu) as [pp Hj]. exists pp. rewrite lookup_delete_ne; [done|]. congruence.
  - done.
  - intros d j st [_ Hd]%lookup_delete_Some. eauto.
  - intros u d a [Hne (j & st & Hj & H0 & Hd)%Hw]%HW. exists j, st. split_and!; [done..|].
    rewrite lookup_delete_ne; [done|]. intros <-. assert (j = i) as -> by congruence. eauto.
Qed.
Lemma pstep_ok good a op r st a' : abs_ok a → waits_ok a op → pstep good a op r st a' → abs_ok a'.
Proof.
  intros Ha Hw Hs. destruct Hs; try done.
  - by apply (fork_ok A T W).
  - apply (fork_ok A T W); try done. eauto.
  - by apply exit_ok.
  - apply (reap_ok A T W W t pid i code); try done. intros u e Hu. split; congruence.
  - destruct Ha as [Hr H1' Hp HW]. simpl in *. split; simpl; try done. intros u c b. rewrite lookup_insert. case_decide.
    + intros [= <- <-]. subst. exists i, None. split_and!; try done. congruence.
    + apply HW.
  - destruct (ab_wait _ Ha _ _ _ H) as (j & st & Hj & ? & Hc). simpl in *. assert (j = i) as -> by congruence.
    apply (reap_ok A T W _ t pid i code); try done. by intros u e [? ?]%lookup_delete_Some.
Qed.

(** ** Representation *)
Definition pstat p : option Z := if has_exited p =? 0 then None else Some (exitcode p).
Definition view p : Z * option Z := (parentpid p, pstat p).
(** The processes [P] in the table, as the contract sees them *)
Definition procs P h : pmap := omap (λ l, view <$> h !! l) P.
(** [i] is the process id of [p]: the children it has are on its list, and
    the queue of [p_waitcv] holds the thread that sleeps. *)
Definition proc_ok (A : pmap) (W : gmap Z (Z * Z)) (i : Z) p : Prop :=
  p_pid p = Some i ∧ p_lock p = unlocked ∧
  (∃ ks, kids_ok p ks ∧ ∀ c st, i ≠ 0 → A !! c = Some (i, st) → c ∈ ks) ∧
  (∃ q ws, p_waitcv p = Some q ∧ queue_rep q ws ∧ (length ws ≤ 1)%nat ∧
     ∀ t, t ∈ ws ↔ pstat p = None ∧ ∃ status, W !! t = Some (i, status)).
Record table_ok s P : Prop := mkTableOk {
  to_lock : pt_lock s = unlocked;
  to_table : table_map (process_table s) P;
  to_size : num (arr (process_table s)) < 2 ^ 29;
  to_inj : ∀ i j l, P !! i = Some l → P !! j = Some l → i = j;
  to_heap : ∀ l, is_Some (ps_heap s !! l) ↔ ∃ i, P !! i = Some l;
}.
Record proc_rep (w : pworld) (a : pstate) P : Prop := mkProcRep {
  pr_abs : abs_ok a;
  pr_table : table_ok (pw_sys w) P;
  pr_procs : pa a = procs P (ps_heap (pw_sys w));
  pr_each : ∀ i l p, P !! i = Some l → ps_heap (pw_sys w) !! l = Some p → proc_ok (pa a) (pwait a) i p;
  pr_pids : pth a = ps_pids (pw_sys w);
  pr_wait : pwait a = (λ lcs, (lcs.1.2, lcs.2)) <$> pw_cont w;
  pr_cont : ∀ t l c status, pw_cont w !! t = Some (l, c, status) → P !! c = Some l;
  pr_sleep : ∀ t, t ∈ ps_asleep (pw_sys w) ↔ ∃ c status pp, pwait a !! t = Some (c, status) ∧ pa a !! c = Some (pp, None);
  pr_env : ∃ Th, dom (pth a) ⊆ Th ∧ env_ok (fts (ps_heap (pw_sys w))) (pts (ps_heap (pw_sys w))) Th (ps_env (pw_sys w));
}.

Lemma procs_lookup P h i : procs P h !! i = P !! i ≫= λ l, view <$> h !! l.
Proof. apply lookup_omap. Qed.
Lemma procs_Some P h i e :
  procs P h !! i = Some e ↔ ∃ l p, P !! i = Some l ∧ h !! l = Some p ∧ e = view p.
Proof.
  rewrite procs_lookup. split.
  - intros (l & Hl & (p & Hp & ->)%fmap_Some)%bind_Some. eauto.
  - intros (l & p & Hl & Hp & ->). apply bind_Some. exists l. by rewrite Hp.
Qed.
Lemma table_procs s P i l : table_ok s P → P !! i = Some l → ∃ p, ps_heap s !! l = Some p ∧ procs P (ps_heap s) !! i = Some (view p).
Proof. intros Ht Hi. destruct (proj2 (to_heap _ _ Ht l)) as [p Hp]; [eauto|]. exists p. split; [done|]. apply procs_Some. eauto. Qed.
Lemma procs_put s P i l p :
  table_ok s P → P !! i = Some l → procs P (<[l := p]> (ps_heap s)) = <[i := view p]> (procs P (ps_heap s)).
Proof.
  intros Ht Hi. apply map_eq. intros j. rewrite procs_lookup, lookup_insert, procs_lookup. case_decide as Hj.
  - subst. by rewrite Hi; simpl; rewrite lookup_insert_eq.
  - destruct (P !! j) as [l'|] eqn:Hl'; simpl; [|done]. rewrite lookup_insert_ne; [done|]. intros <-. by eapply Hj, to_inj.
Qed.
Lemma procs_delete s P i l :
  table_ok s P → P !! i = Some l → procs (delete i P) (delete l (ps_heap s)) = delete i (procs P (ps_heap s)).
Proof.
  intros Ht Hi. apply map_eq. intros j. rewrite procs_lookup, !lookup_delete, procs_lookup. case_decide as Hj; [done|].
  destruct (P !! j) as [l'|] eqn:Hl'; simpl; [|done]. rewrite lookup_delete_ne; [done|]. intros <-. by eapply Hj, to_inj.
Qed.
Lemma table_ok_put s P l p : table_ok s P → is_Some (ps_heap s !! l) → table_ok (put l p s) P.
Proof.
  intros [? ? ? ? Hh] Hl. split; try done. intros l'. simpl. rewrite <- Hh. destruct (decide (l = l')) as [<-|Hne].
  - rewrite lookup_insert_eq. naive_solver.
  - by rewrite lookup_insert_ne.
Qed.
Lemma table_ok_heap s P h (S : gset Z) :
  table_ok s P → (∀ l, is_Some (h !! l) ↔ is_Some (ps_heap s !! l)) → table_ok (set_asleep S (set_procs h s)) P.
Proof. intros [? ? ? ? Hh] Hd. split; try done. intros l. simpl. by rewrite Hd. Qed.
Lemma table_ok_delete s P i l t x :
  table_ok s P → P !! i = Some l → table_map t (delete i P) → num (arr t) = num (arr (process_table s)) →
  table_ok (set_env x (set_procs (delete l (ps_heap s)) (set_table t s))) (delete i P).
Proof.
  intros [? ? ? Hinj Hh] Hl Ht Hn. split; simpl; try done; [lia| |].
  - intros j k l' [_ ?]%lookup_delete_Some [_ ?]%lookup_delete_Some. eauto.
  - intros l'. destruct (decide (l = l')) as [<-|Hne].
    + rewrite lookup_delete_eq. split; [by intros [? ?]|]. intros [j [Hj Hl']%lookup_delete_Some].
      destruct Hj. by eapply Hinj.
    + rewrite lookup_delete_ne, Hh by done. split; intros [j Hj]; exists j.
      * apply lookup_delete_Some. split; [congruence|done].
      * by apply lookup_delete_Some in Hj as [_ ?].
Qed.

(** ** Exit *)
Definition orph (i : Z) p : proc := if parentpid p =? i then set_parentpid 0 p else p.
Lemma orph_idemp i p : orph i (orph i p) = orph i p.
Proof.
  unfold orph. destruct (Z.eqb_spec (parentpid p) i).
  - change (parentpid (set_parentpid 0 p)) with 0. destruct (0 =? i); by destruct p.
  - by rewrite (proj2 (Z.eqb_neq _ _)).
Qed.
Lemma orph_view i p : view (orph i p) = orphan i (view p).
Proof. unfold orph, orphan, view. simpl. by destruct (parentpid p =? i). Qed.
Lemma orph_pid i p : p_pid (orph i p) = p_pid p.
Proof. unfold orph. by case_match. Qed.
Lemma orph_lock i p : p_lock (orph i p) = p_lock p.
Proof. unfold orph. by case_match. Qed.
Lemma orph_kids i p ks : kids_ok p ks → kids_ok (orph i p) ks.
Proof. unfold orph. by case_match. Qed.
Lemma orph_waitcv i p : p_waitcv (orph i p) = p_waitcv p.
Proof. unfold orph. by case_match. Qed.
Lemma orph_stat i p : pstat (orph i p) = pstat p.
Proof. unfold orph. by case_match. Qed.
(** The cells of the array of [l] hold the process ids [ks]. *)
Definition parent_ok (i : Z) (a : array loc) (xs : list loc) (ks : list Z) p : Prop :=
  p_pid p = Some i ∧ p_childrenpids p = Some a ∧ hold (p_pidcells p) xs ks.
Lemma orph_parent_ok i j a xs ks p : parent_ok i a xs ks p → parent_ok i a xs ks (orph j p).
Proof. unfold parent_ok, orph. by case_match. Qed.
(** Some of the processes lost their parent, among them those of [ks]. *)
Definition orphaned (i : Z) P (ks : list Z) h h' : Prop :=
  (∀ l, h' !! l = h !! l ∨ h' !! l = orph i <$> h !! l) ∧
  ∀ c l, c ∈ ks → P !! c = Some l → h' !! l = orph i <$> h !! l.
Lemma orphaned_cons i P c ks h h1 h' : orphaned i P [c] h h1 → orphaned i P ks h1 h' → orphaned i P (c :: ks) h h'.
Proof.
  assert (∀ x : option proc, orph i <$> (orph i <$> x) = orph i <$> x) as Hid.
  { intros [x|]; simpl; [by rewrite orph_idemp|done]. }
  intros [H1 H1c] [H2 H2c]. split.
  - intros l. destruct (H1 l) as [E1|E1], (H2 l) as [E2|E2]; rewrite E2, E1, ?Hid; auto.
  - intros d l Hd Hl. destruct (decide (d ∈ ks)) as [Hin|Hnin].
    + rewrite (H2c d l Hin Hl). destruct (H1 l) as [E|E]; rewrite E, ?Hid; done.
    + assert (d = c) as -> by set_solver. destruct (H2 l) as [E|E]; rewrite E, (H1c c l), ?Hid by set_solver; done.
Qed.
Lemma table_ok_orphaned s P i ks h : table_ok s P → orphaned i P ks (ps_heap s) h → table_ok (set_procs h s) P.
Proof.
  intros [? ? ? ? Hh] [Ho _]. split; try done. intros l. rewrite <- Hh. simpl. destruct (Ho l) as [E|E]; rewrite E; [done|].
  apply fmap_is_Some.
Qed.
Lemma orphan_child_spec s P l p i a xs ks j c o :
  table_ok s P → ps_heap s !! l = Some p → parent_ok i a xs ks p → array_rep a xs → ks !! j = Some c →
  wp (orphan_child l (Z.of_nat j)) (λ _ s' o', o' = o ∧ ∃ h, s' = set_procs h s ∧ orphaned i P [c] (ps_heap s) h) s o.
Proof.
  intros Ht Hl (Hi & Hc & Hk) Ha Hj. destruct (Forall2_lookup_r _ _ _ _ _ Hk Hj) as (x & Hx & Hcell). unfold orphan_child. wp_step.
  eapply (wp_look_children _ _ _ _ (λ r, r = x)); [done..| |].
  { eapply array_getguy_spec; [done|]. by rewrite zlookup_nat. }
  intros ? ->. wp_step. eapply wp_get_proc; [done|]. wp_step. rewrite Hcell. wp_step. wp_step.
  wp_call (processtable_get_spec s P); [apply Ht..|]. intros r ? o' (-> & -> & ->).
  assert (∀ lc, P !! c = Some lc → ∃ cp, ps_heap s !! lc = Some cp) as Hcp.
  { intros lc Hlc. destruct (table_procs _ _ _ _ Ht Hlc) as (cp & ? & _). eauto. }
  destruct (P !! c) as [lc|] eqn:Hlc.
  2: { wp_step. split; [done|]. exists (ps_heap s). split; [by destruct s|]. split; [auto|]. intros d ld Hd. set_solver. }
  destruct (Hcp lc) as [cp Hcp']; [done|]. wp_step. eapply wp_get_proc; [done|]. wp_step. eapply wp_get_proc; [done|]. wp_step.
  rewrite Hi. wp_step. set (h := <[lc := orph i cp]> (ps_heap s)).
  assert (orphaned i P [c] (ps_heap s) h) as Ho.
  { split.
    - intros l'. unfold h. rewrite lookup_insert. case_decide; [subst; right; by rewrite Hcp'|auto].
    - intros d ld Hd. assert (d = c) as -> by set_solver. rewrite Hlc. intros [= <-]. unfold h. by rewrite lookup_insert_eq, Hcp'. }
  destruct (Z.eqb_spec (parentpid cp) i) as [He|He].
  - eapply wp_upd_proc; [done|]. split; [done|]. exists h. split; [|done]. unfold put, h, orph. by rewrite (proj2 (Z.eqb_eq _ _)).
  - wp_step. split; [done|]. exists h. split; [|done]. unfold h, orph. rewrite (proj2 (Z.eqb_neq _ _)), insert_id by done. by destruct s.
Qed.
Lemma orphan_loop P l i a xs ks n : ∀ j p s o,
  table_ok s P → ps_heap s !! l = Some p → parent_ok i a xs ks p → array_rep a xs → (j + n)%nat = length ks →
  wp (kfor n (Z.of_nat j) (orphan_child l)) (λ _ s' o', o' = o ∧ ∃ h, s' = set_procs h s ∧ orphaned i P (drop j ks) (ps_heap s) h) s o.
Proof.
  induction n as [|n IH]; intros j p s o Ht Hl Hp Ha Hj; cbn [kfor].
  { wp_step. split; [done|]. exists (ps_heap s). split; [by destruct s|]. rewrite drop_ge by lia. split; [auto|]. intros d ld Hd. set_solver. }
  destruct (lookup_lt_is_Some_2 ks j) as [c Hc]; [lia|]. wp_step. wp_call (orphan_child_spec _ _ _ _ _ _ _ _ _ _ _ Ht Hl Hp Ha Hc).
  intros _ s1 o1 (-> & h1 & -> & H1). replace (Z.of_nat j + 1) with (Z.of_nat (S j)) by lia.
  assert (∃ p1, h1 !! l = Some p1 ∧ parent_ok i a xs ks p1) as (p1 & Hl1 & Hp1).
  { destruct (proj1 H1 l) as [E|E]; rewrite Hl in E; eauto using orph_parent_ok. }
  eapply wp_mono; [eapply (IH (S j) p1); [by eapply table_ok_orphaned|done..|lia]|]. intros _ s2 o2 (-> & h2 & -> & H2).
  split; [done|]. exists h2. split; [done|]. rewrite (drop_S _ _ _ Hc). by eapply orphaned_cons.
Qed.

Lemma orphaned_all s P i ks h :
  table_ok s P → orphaned i P ks (ps_heap s) h →
  (∀ c l p, P !! c = Some l → ps_heap s !! l = Some p → parentpid p = i → i ≠ 0 → c ∈ ks) → h = orph i <$> ps_heap s.
Proof.
  intros Ht [Ho Hks] Hall. apply map_eq. intros l. rewrite lookup_fmap. destruct (ps_heap s !! l) as [p|] eqn:Hl.
  2: { destruct (Ho l) as [E|E]; by rewrite E, Hl. }
  destruct (proj1 (to_heap _ _ Ht l)) as [c Hc]; [eauto|].
  destruct (decide (c ∈ ks)) as [Hin|Hnin]; [by rewrite (Hks c l), Hl|].
  destruct (Ho l) as [E|E]; rewrite E, Hl; [|done]. simpl. f_equal. unfold orph. destruct (Z.eqb_spec (parentpid p) i) as [Hi|Hi]; [|done].
  destruct (decide (i = 0)) as [->|H0]; [by destruct p; simpl in Hi; subst|]. by destruct Hnin; eapply Hall.
Qed.
Lemma signal_waiter_spec s l p q ws o :
  ps_heap s !! l = Some p → p_lock p = locked → p_waitcv p = Some q → queue_rep q ws → (length ws ≤ 1)%nat →
  wp (signal_waiter l) (λ _ s' o', o' = o ∧ ∃ q', queue_rep q' [] ∧
    s' = set_asleep (ps_asleep s ∖ list_to_set ws) (put l (set_waitcv (Some q') p) s)) s o.
Proof.
  intros Hl Hk Hq Hr Hw. unfold signal_waiter. wp_step. eapply wp_get_proc; [done|]. wp_step. wp_step; [by rewrite Hk|]. wp_step.
  eapply wp_on_waitq; [done..|]. unfold q_empty. wp_step. rewrite (queue_rep_empty _ _ Hr).
  assert (set_waitcv (Some q) p = p) as -> by (rewrite <- Hq; by destruct p). rewrite proc_put_same by done.
  destruct ws as [|t [|]]; simpl in Hw; [| |lia].
  - rewrite bool_decide_true by done. wp_cond. wp_step. split; [done|]. exists q. split; [done|].
    assert (set_waitcv (Some q) p = p) as -> by (rewrite <- Hq; by destruct p). rewrite proc_put_same by done. simpl.
    rewrite difference_empty_L. by destruct s.
  - rewrite bool_decide_false by done. wp_cond. wp_step. eapply wp_on_waitq; [done..|].
    wp_call (q_remhead_spec _ _ _ _ Hr). intros r q' o' (-> & -> & Hr' & _). wp_step. split; [done|]. exists q'. split; [done|].
    simpl. by rewrite union_empty_r_L.
Qed.
Lemma kill_mark_spec s P t i l p ks q ws code o :
  table_ok s P → ps_pids s !! t = Some i → P !! i = Some l → ps_heap s !! l = Some p → p_pid p = Some i → p_lock p = unlocked →
  kids_ok p ks → (∀ c l p, P !! c = Some l → ps_heap s !! l = Some p → parentpid p = i → i ≠ 0 → c ∈ ks) →
  p_waitcv p = Some q → queue_rep q ws → (length ws ≤ 1)%nat →
  wp (kill_mark t code) (λ r s' o', r = l ∧ o' = o ∧ ∃ q', queue_rep q' [] ∧
    s' = set_asleep (ps_asleep s ∖ list_to_set ws)
           (set_procs (orph i <$> <[l := set_exit code (set_waitcv (Some q') p)]> (ps_heap s)) s)) s o.
Proof.
  intros Ht Hpid HP Hl Hi Hk (a & xs & Ha & Har & _ & Hh & _) Hks Hq Hr Hw. unfold kill_mark, get_curprocess. wp_step. wp_step.
  eapply wp_curpid; [done|]. wp_call (processtable_get_spec s P); [apply Ht..|]. intros r ? o' (-> & -> & ->). rewrite HP. wp_step.
  wp_step. wp_step. eapply wp_lock; [done..|]. wp_step. eapply wp_upd_proc; [apply proc_put_lookup|]. rewrite put_put. wp_step.
  wp_call signal_waiter_spec; [apply proc_put_lookup|done..|]. intros _ s' o' (-> & q' & Hq' & ->). rewrite put_put. wp_step.
  set (p1 := set_waitcv _ _). set (s1 := set_asleep _ _). assert (ps_heap s1 !! l = Some p1) as Hl1 by apply proc_put_lookup.
  eapply (wp_look_children _ _ _ _ (λ r, r = Z.of_nat (length xs))); [exact Hl1|exact Ha| |].
  { destruct Har as (Hn & _). rewrite length_fmap in Hn. by unfold array_getnum; wp_step. }
  intros ? ->. rewrite Nat2Z.id. wp_step. pose proof (Forall2_length _ _ _ Hh) as Hlen.
  assert (table_ok s1 P) as Ht1.
  { destruct (table_ok_put s P l p1 Ht ltac:(eauto)) as [? ? ? ? ?]. by split. }
  wp_call (orphan_loop P l i a xs ks (length xs) 0 p1); [done|done|by split_and!|done|lia|]. rewrite drop_0.
  intros _ s' o' (-> & h & -> & Ho). apply (orphaned_all _ _ _ _ _ Ht1) in Ho as ->.
  2: { intros c lc cp Hc Hcp Hpp H0. simpl in Hcp. rewrite lookup_insert in Hcp. case_decide.
       - simplify_eq. by eapply (Hks c lc p).
       - by eapply (Hks c lc cp). }
  wp_step. eapply (wp_unlock _ (orph i p1)); [by simpl; rewrite lookup_fmap, lookup_insert_eq|by unfold orph; case_match|].
  wp_step. split_and!; [done..|]. exists q'. split; [done|]. unfold put, set_asleep, set_procs, s1. simpl. f_equal.
  rewrite !fmap_insert, insert_insert_eq. f_equal. unfold orph, p1. clear -Hk. destruct p; simpl in *; subst.
  by case_match.
Qed.

Lemma procs_orph P h i : procs P (orph i <$> h) = orphan i <$> procs P h.
Proof.
  apply map_eq. intros j. rewrite lookup_fmap, !procs_lookup. destruct (P !! j) as [l|]; simpl; [|done].
  rewrite lookup_fmap. destruct (h !! l) as [p|]; simpl; [by rewrite orph_view|done].
Qed.
Lemma fts_orph h i : fts (orph i <$> h) = fts h ∧ pts (orph i <$> h) = pts h.
Proof.
  rewrite <- !map_fmap_compose. split; apply map_fmap_ext; intros l p _; simpl; unfold orph; by case_match.
Qed.
Lemma fts_put h l p p' :
  h !! l = Some p → file_table p' = file_table p → page_table p' = page_table p →
  fts (<[l := p']> h) = fts h ∧ pts (<[l := p']> h) = pts h.
Proof. intros Hl Hf Hp. rewrite !fmap_insert, Hf, Hp. split; apply insert_id; by rewrite lookup_fmap, Hl. Qed.
Lemma proc_ok_other A W i code j p : proc_ok A W j p → j ≠ i → proc_ok (bury i code A) W j (orph i p).
Proof.
  intros (Hp & Hk & (ks & Hkids & Hc) & q & ws & Hq & Hr & Hlen & Hws) Hne.
  split_and!; [by rewrite orph_pid|by rewrite orph_lock| |].
  - exists ks. split; [by apply orph_kids|]. intros c st H0 (pp & st' & HA & -> & _)%bury_Some.
    destruct (Z.eqb_spec pp i); [by destruct H0|]. by eapply Hc.
  - exists q, ws. rewrite orph_stat, orph_waitcv. done.
Qed.
Lemma proc_ok_zombie A W i code q p :
  proc_ok A W i p → queue_rep q [] → proc_ok (bury i code A) W i (orph i (set_exit code (set_waitcv (Some q) p))).
Proof.
  intros (Hp & Hk & (ks & Hkids & Hc) & _) Hq. split_and!; [by rewrite orph_pid|by rewrite orph_lock| |].
  - exists ks. split; [by apply orph_kids|]. intros c st H0 (pp & st' & HA & Hpp & _)%bury_Some.
    destruct (Z.eqb_spec pp i); congruence.
  - exists q, []. rewrite orph_waitcv, orph_stat. split_and!; [done|done|simpl; lia|]. intros t. unfold pstat. simpl. set_solver.
Qed.
Lemma sleep_exit a i code ws (S : gset Z) :
  (∀ t, t ∈ S ↔ ∃ c status pp, pwait a !! t = Some (c, status) ∧ pa a !! c = Some (pp, None)) →
  (∀ t, t ∈ ws ↔ ∃ status, pwait a !! t = Some (i, status)) →
  ∀ t, t ∈ S ∖ list_to_set ws ↔ ∃ c status pp, pwait a !! t = Some (c, status) ∧ bury i code (pa a) !! c = Some (pp, None).
Proof.
  intros HS Hws t. rewrite elem_of_difference, elem_of_list_to_set, HS, Hws. split.
  - intros [(c & status & pp & Hw & Hc) Hn]. assert (c ≠ i) by (intros ->; eauto). eexists c, status, _. split; [done|].
    by apply bury_other.
  - intros (c & status & pp & Hw & (pp' & st' & Hc & _ & [[Hne <-]|(_ & [=] & _)])%bury_Some). split; [eauto|].
    intros [status' Hw']. congruence.
Qed.
(** Nobody waits for a process whose parent is 0, or is itself. *)
Lemma no_waiter a t i code :
  abs_ok a → pth a !! t = Some i → pwait a !! t = None → bury i code (pa a) !! i = None →
  ∀ u c status, pwait a !! u = Some (c, status) → c ≠ i.
Proof.
  intros Ha Ht Hw Hb u c status Hu ->. destruct (ab_wait _ Ha _ _ _ Hu) as (j & st & Hj & H0 & Hi).
  assert (j ≠ i). { intros ->. assert (u = t) as -> by by eapply ab_one. congruence. }
  rewrite (bury_self _ _ _ _ _ Hi) in Hb; done.
Qed.

(** The world after the exit of the process [i] at [l]: the processes that
    are left in [h] are in the table [P'], and [i] is if its parent runs. *)
Lemma exit_rep w a P P' t i l p code q ws s' :
  proc_rep w a P → pth a !! t = Some i → pwait a !! t = None → P !! i = Some l → ps_heap (pw_sys w) !! l = Some p →
  queue_rep q [] → (∀ u, u ∈ ws ↔ ∃ status, pwait a !! u = Some (i, status)) →
  table_ok s' P' → bury i code (pa a) = procs P' (ps_heap s') → (∀ j, P' !! j = if decide (j = i) then (P' !! i) else P !! j) →
  P' !! i = P !! i ∨ P' !! i = None ∧ bury i code (pa a) !! i = None →
  (∀ lj pj, ps_heap s' !! lj = Some pj → (orph i <$> <[l := set_exit code (set_waitcv (Some q) p)]> (ps_heap (pw_sys w))) !! lj = Some pj) →
  ps_pids s' = delete t (pth a) → ps_asleep s' = ps_asleep (pw_sys w) ∖ list_to_set ws →
  (∃ Th, dom (pth a) ⊆ Th ∧ env_ok (fts (ps_heap s')) (pts (ps_heap s')) Th (ps_env s')) →
  proc_rep (mkPw s' (pw_cont w)) (mkPst (bury i code (pa a)) (delete t (pth a)) (pwait a)) P'.
Proof.
  intros HR Ht Hw Hi Hl Hq Hws HT HB HP' HPi Hh Hpids Hsl (Th & HTh & He). pose proof (pr_abs _ _ _ HR) as Hab.
  split; simpl; try done.
  - destruct a as [A T W]. by apply exit_ok.
  - intros j lj pj Hj Hpj. rewrite HP' in Hj. apply Hh in Hpj. rewrite lookup_fmap in Hpj. case_decide as Hji.
    + subst j. destruct HPi as [E|[E _]]; rewrite E in Hj; [|done]. rewrite Hi in Hj. injection Hj as <-. rewrite lookup_insert_eq in Hpj.
      injection Hpj as <-. eapply proc_ok_zombie; [|done]. by eapply pr_each.
    + rewrite lookup_insert_ne in Hpj. 2: { intros <-. by eapply Hji, to_inj; [apply HR| |]. }
      destruct (ps_heap (pw_sys w) !! lj) as [p0|] eqn:Hp0; [|done]. injection Hpj as <-. apply proc_ok_other; [|done]. by eapply pr_each.
  - apply HR.
  - intros u lu c status Hu. pose proof (pr_cont _ _ _ HR _ _ _ _ Hu) as Hc. rewrite HP'. case_decide as Hci; [|done]. subst c.
    destruct HPi as [E|[_ Hnone]]; [by rewrite E|]. exfalso.
    eapply (no_waiter a t i code Hab Ht Hw Hnone u i status); [|done]. by rewrite (pr_wait _ _ _ HR), lookup_fmap, Hu.
  - rewrite Hsl. apply sleep_exit; [apply HR|done].
  - exists Th. split; [|done]. set_solver.
Qed.
Lemma rep_proc w a P i e :
  proc_rep w a P → pa a !! i = Some e →
  ∃ l p, P !! i = Some l ∧ ps_heap (pw_sys w) !! l = Some p ∧ e = view p ∧ proc_ok (pa a) (pwait a) i p.
Proof.
  intros HR Hi. pose proof Hi as Hi'. rewrite (pr_procs _ _ _ HR) in Hi. apply procs_Some in Hi as (l & p & Hl & Hp & ->).
  exists l, p. split_and!; try done. by eapply pr_each.
Qed.
Lemma rep_children w a P i (ks : list Z) :
  proc_rep w a P → (∀ c st, i ≠ 0 → pa a !! c = Some (i, st) → c ∈ ks) →
  ∀ c l p, P !! c = Some l → ps_heap (pw_sys w) !! l = Some p → parentpid p = i → i ≠ 0 → c ∈ ks.
Proof.
  intros HR Hks c l p Hc Hl <- H0. apply (Hks c (pstat p) H0). rewrite (pr_procs _ _ _ HR). apply procs_Some. eauto.
Qed.
Lemma psim_exit w a P t i code o :
  proc_rep w a P → pth a !! t = Some i → pwait a !! t = None → plenty o →
  wp (pexec (PExit t code)) (λ r w' _, r = RGone ∧
    ∃ P', proc_rep w' (mkPst (bury i code (pa a)) (delete t (pth a)) (pwait a)) P') w o.
Proof.
  intros HR Ht Hw Ho. destruct (ab_runs _ (pr_abs _ _ _ HR) _ _ Ht) as [pp HA]. pose proof (pr_table _ _ _ HR) as HT.
  destruct (rep_proc _ _ _ _ _ HR HA) as (l & p & Hi & Hl & Hv & Hok).
  pose proof Hok as (Hpid & Hk & (ks & Hkids & Hks) & q & ws & Hq & Hr & Hlen & Hws). injection Hv as Hpp Hst.
  assert (∀ u, u ∈ ws ↔ ∃ status, pwait a !! u = Some (i, status)) as Hws' by (intros u; rewrite Hws; naive_solver).
  destruct (pr_env _ _ _ HR) as (Th & HTh & He). pose proof Ht as Hpids. rewrite (pr_pids _ _ _ HR) in Hpids.
  cbn [pexec]. wp_step. unfold on_sys. wp_step. unfold sys__exit, kill_process. wp_step.
  wp_call (kill_mark_spec _ P t i l p ks q ws code _ HT Hpids Hi Hl Hpid Hk Hkids (rep_children _ _ _ _ _ HR Hks) Hq Hr Hlen).
  intros r s1 o1 (-> & -> & q' & Hq' & ->). set (pe := set_exit code _). set (h1 := orph i <$> _).
  assert (h1 !! l = Some (orph i pe)) as Hl1 by (unfold h1; by rewrite lookup_fmap, lookup_insert_eq).
  assert (procs P h1 = <[i := (if pp =? i then 0 else pp, Some code)]> (orphan i <$> pa a)) as Hprocs.
  { unfold h1. rewrite procs_orph, (procs_put _ _ _ _ _ HT Hi), fmap_insert, (pr_procs _ _ _ HR). f_equal. by rewrite Hpp. }
  assert ((orphan i <$> pa a) !! i = Some (if pp =? i then 0 else pp, None)) as Hor by (apply orphan_Some; eauto).
  assert (fts h1 = fts (ps_heap (pw_sys w)) ∧ pts h1 = pts (ps_heap (pw_sys w))) as [Hf Hp].
  { unfold h1. destruct (fts_orph (<[l := pe]> (ps_heap (pw_sys w))) i) as [-> ->]. by eapply fts_put. }
  assert (parentpid (orph i pe) = if pp =? i then 0 else pp) as Hpar.
  { rewrite Hpp. unfold orph, pe. simpl. by destruct (parentpid p =? i). }
  assert (table_ok (set_asleep (ps_asleep (pw_sys w) ∖ list_to_set ws) (set_procs h1 (pw_sys w))) P) as HT1.
  { apply table_ok_heap; [done|]. intros l'. unfold h1. rewrite lookup_fmap, fmap_is_Some, lookup_insert. case_decide; naive_solver. }
  assert (bury i code (pa a) = if (if pp =? i then 0 else pp) =? 0 then delete i (procs P h1) else procs P h1) as Hb.
  { unfold bury. rewrite Hor, Hprocs, delete_insert_eq. done. }
  unfold kill_reap. wp_step. eapply wp_get_proc; [done|]. wp_step. rewrite Hpar. destruct ((if pp =? i then 0 else pp) =? 0) eqn:H0.
  - wp_step. rewrite orph_pid. change (p_pid pe) with (p_pid p). rewrite Hpid. wp_step. wp_step.
    wp_call (processtable_remove_spec _ P i l); [apply HT1..|done|done|]. intros _ s2 o2 (Ho2 & t2 & -> & Ht2 & Hn2).
    wp_call (p_destroy_at_spec _ l (orph i pe) ks q' Th); [exact Hl1|by apply orph_kids|by rewrite orph_lock|by rewrite orph_waitcv|done| |done|].
    { simpl. by rewrite Hf, Hp. }
    intros _ s3 o3 (Ho3 & x & -> & He3 & _). unfold thread_exit. wp_step. wp_step. split; [done|]. exists (delete i P).
    apply (exit_rep w a P _ t i l p code q' ws); try done.
    + destruct (table_ok_delete _ _ _ _ _ x HT1 Hi Ht2 Hn2). by split.
    + rewrite Hb. symmetry. exact (procs_delete _ _ _ _ HT1 Hi).
    + intros j. rewrite !lookup_delete. repeat case_decide; done.
    + right. rewrite lookup_delete_eq. split; [done|]. rewrite Hb. apply lookup_delete_eq.
    + intros lj pj. simpl. by intros [_ ?]%lookup_delete_Some.
    + simpl. by rewrite (pr_pids _ _ _ HR).
    + by exists Th.
  - wp_step. unfold thread_exit. wp_step. wp_step. split; [done|]. exists P.
    apply (exit_rep w a P _ t i l p code q' ws); try done.
    + destruct HT1. by split.
    + intros j. case_decide; by subst.
    + by left.
    + simpl. by rewrite (pr_pids _ _ _ HR).
    + exists Th. simpl. by rewrite Hf, Hp.
Qed.

(** ** Waiting *)
Lemma rep_env w a P x :
  proc_rep w a P → (∃ Th, dom (pth a) ⊆ Th ∧ env_ok (fts (ps_heap (pw_sys w))) (pts (ps_heap (pw_sys w))) Th x) →
  proc_rep (mkPw (set_env x (pw_sys w)) (pw_cont w)) a P.
Proof. intros [? [? ? ? ? ?] ? ? ? ? ? ? ?] He. by split. Qed.
(** The child has exited. *)
Lemma waitpid_collect s P t c l p code status ks q Th o :
  table_ok s P → P !! c = Some l → ps_heap s !! l = Some p → pstat p = Some code → p_lock p = unlocked → kids_ok p ks →
  p_waitcv p = Some q → queue_rep q [] → env_ok (fts (ps_heap s)) (pts (ps_heap s)) Th (ps_env s) → env_word (ps_env s) status → plenty o →
  wp (waitpid_loop t l c status) (λ r s' _, r = Some c ∧ ∃ x, table_ok s' (delete c P) ∧
    (∃ tb, s' = set_env x (set_procs (delete l (ps_heap s)) (set_table tb s))) ∧
    env_ok (fts (ps_heap s')) (pts (ps_heap s')) Th x ∧ env_int x status = Some (s32 code)) (put l (set_plock locked p) s) o.
Proof.
  intros HT Hc Hl Hst Hk Hkids Hq Hr He Hw Ho. unfold waitpid_loop. wp_step. eapply wp_get_proc; [apply proc_put_lookup|].
  unfold pstat in Hst. change (has_exited (set_plock locked p)) with (has_exited p). destruct (has_exited p =? 0); [done|].
  injection Hst as Hst. wp_step. apply wp_env. destruct (fts_put (ps_heap s) l p (set_plock locked p) Hl eq_refl eq_refl) as [Hf Hp].
  simpl. rewrite Hst. wp_call (law_store _ _ _ status code _ _ He Hw Ho). intros _ x1 o1 (Ho1 & He1 & Hi1). wp_step.
  wp_call (processtable_remove_spec _ P c l); [apply HT..|done|done|]. intros _ s2 o2 (Ho2 & t2 & -> & Ht2 & Hn2). wp_step.
  eapply wp_unlock; [apply proc_put_lookup|done|]. wp_step.
  assert (set_plock unlocked (set_plock locked p) = p) as -> by (rewrite <- Hk; by destruct p).
  wp_call (p_destroy_at_spec _ l p ks q Th); [apply proc_put_lookup|done..| |done|].
  { simpl. rewrite insert_insert_eq, insert_id by done. done. }
  intros _ s3 o3 (Ho3 & x & -> & He3 & Hi3). simpl in He3. wp_step. split; [done|]. exists x.
  rewrite insert_insert_eq, insert_id in He3 by done. pose proof (table_ok_delete _ _ _ _ _ x HT Hc Ht2 Hn2) as HT'.
  simpl. rewrite insert_insert_eq, insert_id by done. split_and!; [exact HT'|by exists t2|done|]. by rewrite Hi3.
Qed.
Lemma reap_rep w a P W' cont t i c l p code s' x Th :
  proc_rep w a P → pth a !! t = Some i → pa a !! c = Some (i, Some code) → P !! c = Some l → ps_heap (pw_sys w) !! l = Some p →
  (∀ d status, pwait a !! t = Some (d, status) → d = c) →
  (∀ u e, W' !! u = Some e ↔ u ≠ t ∧ pwait a !! u = Some e) → W' = (λ lcs, (lcs.1.2, lcs.2)) <$> cont →
  (∀ u e, cont !! u = Some e → pw_cont w !! u = Some e) → table_ok s' (delete c P) →
  (∃ tb, s' = set_env x (set_procs (delete l (ps_heap (pw_sys w))) (set_table tb (pw_sys w)))) → dom (pth a) ⊆ Th →
  env_ok (fts (ps_heap s')) (pts (ps_heap s')) Th x →
  proc_rep (mkPw s' cont) (mkPst (delete c (pa a)) (pth a) W') (delete c P).
Proof.
  intros HR Ht Hc HP Hl Htc HW Hcont Hsub HT [tb ->] HTh He. pose proof (pr_abs _ _ _ HR) as Hab.
  assert (∀ u d status, W' !! u = Some (d, status) → d ≠ c) as Hne.
  { intros u d status [Hu (j & st & Hj & _ & Hd)%(ab_wait _ Hab)]%HW ->. assert (j = i) as -> by congruence. destruct Hu. by eapply ab_one. }
  split; simpl; try done.
  - destruct a as [A T W]. apply (reap_ok A T W W' t c i code); try done. intros u e. by rewrite HW.
  - rewrite (pr_procs _ _ _ HR). symmetry. apply procs_delete; [apply HR|done].
  - intros j lj pj [Hj Hlj]%lookup_delete_Some [_ Hpj]%lookup_delete_Some.
    destruct (pr_each _ _ _ HR _ _ _ Hlj Hpj) as (Hpid & Hk & (ks & Hkids & Hks) & q & ws & Hq & Hr & Hlen & Hws).
    split_and!; [done|done| |].
    + exists ks. split; [done|]. intros d st H0 [_ Hd]%lookup_delete_Some. eauto.
    + exists q, ws. split_and!; [done..|]. intros u. rewrite Hws. apply and_iff_compat_l. split; intros [status Hu]; exists status.
      * apply HW. split; [|done]. intros ->. by apply Hj; symmetry; eapply Htc.
      * by apply HW in Hu as [_ ?].
  - apply HR.
  - intros u lu d status Hu. apply lookup_delete_Some. split.
    + symmetry. apply (Hne u d status). by rewrite Hcont, lookup_fmap, Hu.
    + apply Hsub in Hu. by eapply pr_cont.
  - intros u. rewrite (pr_sleep _ _ _ HR). split; intros (d & status & pp & Hu & Hd); exists d, status, pp.
    + assert (d ≠ c) by congruence. split; [|by rewrite lookup_delete_ne]. apply HW. split; [|done]. intros ->. by apply Htc in Hu.
    + apply HW in Hu as [_ ?]. by apply lookup_delete_Some in Hd as [_ ?].
  - by exists Th.
Qed.

(** The child runs. *)
Lemma waitpid_sleep s t c l p status q o :
  ps_heap s !! l = Some p → pstat p = None → p_lock p = unlocked → p_waitcv p = Some q → queue_rep q [] → plenty o →
  wp (waitpid_loop t l c status) (λ r s' _, r = None ∧ ∃ q', queue_rep q' [t] ∧
    s' = set_asleep ({[t]} ∪ ps_asleep s) (put l (set_waitcv (Some q') p) s)) (put l (set_plock locked p) s) o.
Proof.
  intros Hl Hst Hk Hq Hr Ho. unfold waitpid_loop. wp_step. eapply wp_get_proc; [apply proc_put_lookup|].
  unfold pstat in Hst. change (has_exited (set_plock locked p)) with (has_exited p). destruct (has_exited p =? 0); [|done]. wp_step.
  eapply wp_unlock; [apply proc_put_lookup|done|]. rewrite put_put.
  assert (set_plock unlocked (set_plock locked p) = p) as -> by (rewrite <- Hk; by destruct p). rewrite proc_put_same by done. wp_step.
  eapply wp_on_waitq; [done..|]. wp_call (q_addtail_spec _ _ t _ Hr); [simpl; lia|].
  intros r q' o' [(-> & Hr' & _)|(_ & _ & Hf & _)]; [|by apply plenty_head in Ho]. wp_step. wp_step; [done|]. wp_step. wp_step. wp_step.
  split; [done|]. by exists q'.
Qed.
Lemma sleep_rep w a P t i c l p status q :
  proc_rep w a P → pth a !! t = Some i → i ≠ 0 → pwait a !! t = None → pa a !! c = Some (i, None) → P !! c = Some l →
  ps_heap (pw_sys w) !! l = Some p → queue_rep q [t] → (∀ u status, pwait a !! u ≠ Some (c, status)) →
  proc_rep (mkPw (set_asleep ({[t]} ∪ ps_asleep (pw_sys w)) (put l (set_waitcv (Some q) p) (pw_sys w)))
              (<[t := (l, c, status)]> (pw_cont w)))
    (mkPst (pa a) (pth a) (<[t := (c, status)]> (pwait a))) P.
Proof.
  intros HR Ht H0 Hw Hc HP Hl Hq Hno. pose proof (pr_table _ _ _ HR) as HT. pose proof (pr_abs _ _ _ HR) as Hab.
  assert (view p = (i, None)) as Hv.
  { pose proof Hc as Hc'. rewrite (pr_procs _ _ _ HR) in Hc'. apply procs_Some in Hc' as (l' & p' & ? & ? & ->). by simplify_eq. }
  assert (procs P (<[l := set_waitcv (Some q) p]> (ps_heap (pw_sys w))) = pa a) as Hprocs.
  { rewrite (procs_put _ _ _ _ _ HT HP), <- (pr_procs _ _ _ HR). apply insert_id. by rewrite Hc, <- Hv. }
  destruct (fts_put (ps_heap (pw_sys w)) l p (set_waitcv (Some q) p) Hl eq_refl eq_refl) as [Hf Hp].
  split; simpl; try done.
  - destruct Hab as [Hr H1 Hpar HW]. split; simpl; try done. intros u d b. rewrite lookup_insert. case_decide; [|apply HW].
    intros [= <- <-]. subst. by exists i, None.
  - destruct (table_ok_put _ _ l (set_waitcv (Some q) p) HT ltac:(eauto)). by split.
  - intros j lj pj Hj. rewrite lookup_insert. case_decide as Hlj.
    + subst lj. assert (j = c) as -> by by eapply to_inj. intros [= <-].
      destruct (pr_each _ _ _ HR _ _ _ HP Hl) as (Hpid & Hk & Hkids & _). split_and!; [done..|]. exists q, [t].
      split_and!; [done|done|done|]. intros u. rewrite list_elem_of_singleton, lookup_insert. injection Hv as _ Hv.
      change (pstat (set_waitcv _ p)) with (pstat p). case_decide; naive_solver.
    + intros Hpj. destruct (pr_each _ _ _ HR _ _ _ Hj Hpj) as (Hpid & Hk & Hkids & q' & ws & Hq' & Hr & Hlen & Hws).
      assert (j ≠ c) as Hjc by congruence. split_and!; [done..|]. exists q', ws. split_and!; [done..|]. intros u. rewrite Hws, lookup_insert.
      case_decide; naive_solver.
  - apply HR.
  - by rewrite fmap_insert, <- (pr_wait _ _ _ HR).
  - intros u lu d b. rewrite lookup_insert. case_decide; [naive_solver|]. apply HR.
  - intros u. rewrite elem_of_union, elem_of_singleton, (pr_sleep _ _ _ HR), lookup_insert. case_decide; naive_solver.
  - rewrite Hf, Hp. apply HR.
Qed.

Definition good_addr (x : X) (status : Z) : Prop := status ≠ 0 ∧ env_word x status ∧ Z.rem (s32 status) 4 = 0.
Definition stored (w : pworld) (st : option (Z * Z)) : Prop :=
  match st with None => True | Some (b, v) => env_int (ps_env (pw_sys w)) b = Some (s32 v) end.
Definition psim w a op r w' : Prop :=
  ∃ a' st P', pstep (good_addr (ps_env (pw_sys w))) a op r st a' ∧ stored w' st ∧ proc_rep w' a' P'.

Lemma not_waited a t i c st u status :
  abs_ok a → pth a !! t = Some i → pwait a !! t = None → pa a !! c = Some (i, st) → pwait a !! u ≠ Some (c, status).
Proof.
  intros Hab Ht Hw Hc Hu. destruct (ab_wait _ Hab _ _ _ Hu) as (j & st' & Hj & _ & Hd). assert (j = i) as -> by congruence.
  assert (u = t) as -> by by eapply ab_one. congruence.
Qed.
Lemma cv_empty A W i p : proc_ok A W i p → (pstat p = None → ∀ u status, W !! u ≠ Some (i, status)) → ∃ q, p_waitcv p = Some q ∧ queue_rep q [].
Proof.
  intros (_ & _ & _ & q & ws & Hq & Hr & _ & Hws) Hno. exists q. split; [done|]. destruct ws as [|u ws]; [done|].
  destruct (proj1 (Hws u)) as [Hst [status Hu]]; [set_solver|]. by destruct (Hno Hst u status).
Qed.
Lemma sim_loop w a P t i c st l p status o :
  proc_rep w a P → pth a !! t = Some i → i ≠ 0 → pwait a !! t = None → pa a !! c = Some (i, st) → P !! c = Some l →
  ps_heap (pw_sys w) !! l = Some p → env_word (ps_env (pw_sys w)) status → plenty o →
  wp (waitpid_loop t l c status) (λ r s' _,
    match st with
    | Some code => r = Some c ∧ env_int (ps_env s') status = Some (s32 code) ∧
        proc_rep (mkPw s' (pw_cont w)) (mkPst (delete c (pa a)) (pth a) (pwait a)) (delete c P)
    | None => r = None ∧ proc_rep (mkPw s' (<[t := (l, c, status)]> (pw_cont w)))
        (mkPst (pa a) (pth a) (<[t := (c, status)]> (pwait a))) P
    end) (put l (set_plock locked p) (pw_sys w)) o.
Proof.
  intros HR Ht H0 Hw Hc HP Hl Hword Ho. pose proof (pr_abs _ _ _ HR) as Hab.
  destruct (rep_proc _ _ _ _ _ HR Hc) as (l' & p' & HP' & Hl' & Hv & Hok). simplify_eq. injection Hv as Hpar Hst.
  pose proof Hok as (_ & Hk & (ks & Hkids & _) & _).
  assert (∀ u b, pwait a !! u ≠ Some (c, b)) as Hno by (intros u b; by eapply not_waited).
  destruct (cv_empty _ _ _ _ Hok (λ _, Hno)) as (q & Hq & Hr). destruct st as [code|].
  - destruct (pr_env _ _ _ HR) as (Th & HTh & He).
    wp_call (waitpid_collect _ P t c l p code status ks q Th); [apply HR|done..|]. intros r s' _ (-> & x & HT & [tb Hs'] & He' & Hi).
    split_and!; [done|by rewrite Hs'|].
    apply (reap_rep w a P (pwait a) (pw_cont w) t i c l p code s' x Th); try done; [| |apply HR|by exists tb].
    + intros d b. congruence.
    + intros u e. split; [|by intros [_ ?]]. intros Hu. split; [congruence|done].
  - wp_call (waitpid_sleep _ t c l p status q); [done..|]. intros r s' _ (-> & q' & Hq' & ->). split; [done|]. by apply (sleep_rep w a P t i).
Qed.
(** [sys_waitpid] after the checks of its arguments *)
Lemma sim_child w a P t i c status (Q : Z * Z + loc → ps → oracle → Prop) o :
  proc_rep w a P → pth a !! t = Some i → i ≠ 0 → pwait a !! t = None → env_word (ps_env (pw_sys w)) status → plenty o →
  ((∀ st, pa a !! c ≠ Some (i, st)) → Q (inl (-1, EINVAL)) (pw_sys w) o) →
  (∀ code s' o', pa a !! c = Some (i, Some code) → env_int (ps_env s') status = Some (s32 code) →
     proc_rep (mkPw s' (pw_cont w)) (mkPst (delete c (pa a)) (pth a) (pwait a)) (delete c P) → Q (inl (c, 0)) s' o') →
  (∀ l s' o', pa a !! c = Some (i, None) → proc_rep (mkPw s' (<[t := (l, c, status)]> (pw_cont w)))
        (mkPst (pa a) (pth a) (<[t := (c, status)]> (pwait a))) P → Q (inr l) s' o') →
  wp (proc <- processtable_get c;
      match proc with
      | None => ret (inl (-1, EINVAL))
      | Some l =>
          _ <- on_plock l ulock_acquire;
          p <- get_proc l;
          cur <- curpid t;
          if negb (parentpid p =? cur) then _ <- on_plock l ulock_release; ret (inl (-1, EINVAL))
          else r <- waitpid_loop t l c status; match r with None => ret (inr l) | Some r => ret (inl (r, 0)) end
      end) Q (pw_sys w) o.
Proof.
  intros HR Ht H0 Hw Hword Ho Hno Hnow Hsleep. wp_step. wp_call (processtable_get_spec _ P c); [apply HR..|]. intros r ? o2 (-> & -> & ->).
  destruct (P !! c) as [l|] eqn:HP.
  2: { wp_step. apply Hno. intros st. rewrite (pr_procs _ _ _ HR), procs_lookup, HP. done. }
  destruct (table_procs _ _ _ _ (pr_table _ _ _ HR) HP) as (p & Hl & Hc). rewrite <- (pr_procs _ _ _ HR) in Hc.
  destruct (rep_proc _ _ _ _ _ HR Hc) as (l' & p' & HP' & Hl' & _ & (_ & Hk & _)). simplify_eq.
  wp_step. eapply wp_lock; [done..|]. wp_step. eapply wp_get_proc; [apply proc_put_lookup|]. wp_step.
  pose proof Ht as Ht'. rewrite (pr_pids _ _ _ HR) in Ht'. eapply (wp_curpid _ i); [done|].
  change (parentpid (set_plock locked p)) with (parentpid p). unfold view in Hc.
  destruct (Z.eqb_spec (parentpid p) i) as [Hpar|Hpar]; cbn [negb].
  - rewrite Hpar in Hc. wp_step. wp_call (sim_loop w a P t i c (pstat p) l p status); [done..|].
    intros r s' o3 Hr. destruct (pstat p) as [code|].
    + destruct Hr as (-> & Hint & HR'). wp_step. eauto.
    + destruct Hr as (-> & HR'). wp_step. eauto.
  - wp_step. eapply wp_unlock; [apply proc_put_lookup|done|]. rewrite put_put.
    assert (set_plock unlocked (set_plock locked p) = p) as -> by (rewrite <- Hk; by destruct p). rewrite proc_put_same by done. wp_step.
    apply Hno. congruence.
Qed.
Lemma sim_wait w a P t i c status options o :
  proc_rep w a P → pth a !! t = Some i → i ≠ 0 → pwait a !! t = None → env_ptr (ps_env (pw_sys w)) status → plenty o →
  wp (pexec (PWait t c status options)) (λ r w' _, psim w a (PWait t c status options) r w') w o.
Proof.
  intros HR Ht H0 Hw Hptr Ho. assert (a = mkPst (pa a) (pth a) (pwait a)) as Ha by by destruct a.
  cbn [pexec]. wp_step. unfold on_sys. wp_step. unfold sys_waitpid.
  destruct (Z.eqb_spec options 0) as [->|Hopt]; cbn [negb].
  2: { do 2 wp_step. exists a, None, P. destruct w. split_and!; [by apply step_wait_options|done..]. }
  assert (∀ w' e, ¬ good_addr (ps_env (pw_sys w)) status → e ≠ 0 → proc_rep w' a P → psim w a (PWait t c status 0) (RVal (-1) e) w') as Hbad.
  { intros w' e Hg He HR'. exists a, None, P. split_and!; [by apply step_wait_memory|done..]. }
  destruct (Z.eqb_spec status 0) as [->|Hnull].
  { do 2 wp_step. apply Hbad; [by intros []|done|by destruct w]. }
  wp_step. apply wp_env. destruct (pr_env _ _ _ HR) as (Th & HTh & He). wp_call (law_copyin _ _ _ _ _ _ He Hptr Ho).
  intros r x o1 (Ho1 & He1 & Hword & Hkeep). assert (proc_rep (mkPw (set_env x (pw_sys w)) (pw_cont w)) a P) as HR1.
  { apply rep_env; eauto. }
  destruct (Z.eqb_spec r 0) as [->|Hr]; cbn [negb].
  2: { do 2 wp_step. apply Hbad; [|done..]. intros (_ & ? & _). by apply Hr, Hword. }
  assert (env_word (ps_env (pw_sys w)) status) as Hw0 by by apply Hword.
  destruct (Z.eqb_spec (Z.rem (s32 status) 4) 0) as [Hal|Hal]; cbn [negb].
  2: { do 2 wp_step. apply Hbad; [|done..]. by intros (_ & _ & ?). }
  assert (good_addr (ps_env (pw_sys w)) status) as Hgood by done.
  apply (sim_child _ _ _ _ _ c status _ _ HR1 Ht H0 Hw (Hkeep Hw0) Ho1).
  - intros Hno. wp_step. exists a, None, P. split_and!; [|done..]. rewrite Ha. by apply (step_wait_child _ _ _ _ _ _ _ i).
  - intros code s' o' Hc Hint HR'. wp_step. eexists _, (Some (status, code)), _. split_and!; [|done|exact HR']. rewrite Ha at 1. by eapply step_wait_now.
  - intros l s' o' Hc HR'. wp_step. wp_step. wp_step. eexists _, None, _. split_and!; [|done|exact HR']. rewrite Ha at 1. by eapply step_wait_sleep.
Qed.
Lemma sim_wake w a P t c status o :
  proc_rep w a P → pwait a !! t = Some (c, status) → t ∉ ps_asleep (pw_sys w) → env_word (ps_env (pw_sys w)) status → plenty o →
  wp (pexec (PWake t)) (λ r w' _, psim w a (PWake t) r w') w o.
Proof.
  intros HR Hw Hawake Hword Ho. pose proof (pr_abs _ _ _ HR) as Hab. destruct (ab_wait _ Hab _ _ _ Hw) as (i & st & Ht & H0 & Hc).
  destruct st as [code|]. 2: { destruct Hawake. apply (pr_sleep _ _ _ HR). eauto. }
  destruct (rep_proc _ _ _ _ _ HR Hc) as (l & p & HP & Hl & Hv & Hok). injection Hv as Hpar Hst.
  pose proof Hok as (_ & Hk & (ks & Hkids & _) & _).
  destruct (cv_empty _ _ _ _ Hok) as (q & Hq & Hr); [congruence|]. destruct (pr_env _ _ _ HR) as (Th & HTh & He).
  pose proof Hw as Hcont. rewrite (pr_wait _ _ _ HR), lookup_fmap in Hcont.
  destruct (pw_cont w !! t) as [[[l' c'] status']|] eqn:Hlt; [|done]. injection Hcont as -> ->.
  assert (l' = l) as ->. { apply (pr_cont _ _ _ HR) in Hlt. congruence. }
  cbn [pexec]. do 3 wp_step. rewrite Hlt. wp_step. wp_step. unfold on_sys. wp_step. unfold waitpid_wake. wp_step. eapply wp_lock; [done..|].
  wp_call (waitpid_collect _ P t c l p code status ks q Th); [apply HR|done..|]. intros r s' o' (-> & x & HT & [tb Hs'] & He' & Hi).
  wp_step. wp_step. wp_step. assert (a = mkPst (pa a) (pth a) (pwait a)) as Ha by by destruct a.
  eexists _, (Some (status, code)), (delete c P). split_and!; [rewrite Ha at 1; by eapply step_wake|simpl; by rewrite Hs'|].
  apply (reap_rep w a P _ _ t i c l p code s' x Th); try done; [| | | |by exists tb].
  - intros d b. congruence.
  - intros u e. rewrite lookup_delete_Some. naive_solver.
  - rewrite (pr_wait _ _ _ HR). symmetry. apply fmap_delete.
  - by intros u e [_ ?]%lookup_delete_Some.
Qed.

(** ** Fork *)
Lemma add_child_spec s l p ks c o :
  ps_heap s !! l = Some p → kids_ok p ks → (∀ a, p_childrenpids p = Some a → num a + 1 < 2 ^ 29) → plenty o →
  wp (add_child l c) (λ _ s' _, ∃ a cs, s' = put l (set_children (Some a) cs p) s ∧ kids_ok (set_children (Some a) cs p) (ks ++ [c])) s o.
Proof.
  intros Hl (a & xs & Ha & Har & Hnd & Hh & Hlen) Hroom Ho. apply Hroom in Ha as Hn. pose proof Har as (Hnum & _).
  rewrite length_fmap in Hnum. unfold add_child. do 2 wp_step. rewrite (proj2 (not_fails_iff _)) by by apply plenty_head. cbn [negb].
  apply plenty_tail in Ho. wp_step. eapply wp_get_proc; [done|]. set (x := fresh _). assert (x ∉ dom (p_pidcells p)) as Hx by apply is_fresh.
  wp_step. eapply wp_upd_proc; [done|]. wp_step. eapply wp_on_children; [apply proc_put_lookup|exact Ha|]. wp_call (array_add_spec _ _ x _ Har); [lia|].
  intros r a' o' (_ & [(-> & _ & Ha')|(_ & _ & Hf & _)]); [|by apply plenty_head in Hf]. wp_step. rewrite put_put. simpl.
  eexists a', _. split; [done|]. exists a', (xs ++ [x]). split_and!; [done|done| | |rewrite length_app; simpl; lia].
  - apply NoDup_app. split_and!; [done| |apply NoDup_singleton]. intros y Hy ->%list_elem_of_singleton. by eapply Hx, hold_dom.
  - simpl. apply Forall2_app; [by apply hold_insert|]. constructor; [apply lookup_insert_eq|constructor].
Qed.
Lemma thread_fork_spec s t i l p c Th o :
  ps_heap s !! l = Some p → ps_pids s !! t = Some i → p_pid p = Some c → dom (ps_pids s) ⊆ Th →
  env_ok (fts (ps_heap s)) (pts (ps_heap s)) Th (ps_env s) → env_user (ps_env s) t → plenty o →
  wp (thread_fork t l) (λ r s' o', plenty o' ∧ ∃ nt x, r = (0, nt) ∧ (nt ∉ Th) ∧
    s' = set_env x (set_pids (<[nt := c]> (ps_pids s)) (put l (set_pthread nt (set_parentpid i p)) s)) ∧
    env_ok (fts (ps_heap s)) (pts (ps_heap s)) ({[nt]} ∪ Th) x) s o.
Proof.
  intros Hl Ht Hc HTh He Hf Ho. unfold thread_fork. wp_step. apply wp_env. wp_call (law_thread_new _ _ _ t _ _ He Hf Ho).
  intros r x1 o1 (Ho1 & nt & -> & Hnt & He1). wp_cond. wp_step. wp_step. eapply wp_curpid; [exact Ht|]. wp_step.
  eapply wp_upd_proc; [exact Hl|]. unfold p_assign_thread. wp_step. eapply wp_upd_proc; [apply proc_put_lookup|]. wp_step.
  eapply wp_get_proc; [apply proc_put_lookup|]. wp_step. simpl. rewrite Hc. wp_step. wp_step. wp_step. apply wp_env.
  wp_call (law_thread_start _ _ _ nt _ _ He1 Ho1). intros r x2 o2 (-> & Ho2 & He2). wp_step. split; [done|]. exists nt, x2. split_and!; try done.
  rewrite put_put. done.
Qed.
Definition fork_room s : Prop :=
  num (arr (process_table s)) + 1 < 2 ^ 29 ∧
  ∀ l p a, ps_heap s !! l = Some p → p_childrenpids p = Some a → num a + 1 < 2 ^ 29.
(** The parent, but for the list of its children and its file table, and the child *)
Definition parent_same p pf : Prop := view pf = view p ∧ p_pid pf = p_pid p ∧ p_lock pf = p_lock p ∧ p_waitcv pf = p_waitcv p.
Definition child_ok (i c : Z) p : Prop :=
  view p = (i, None) ∧ p_pid p = Some c ∧ p_lock p = unlocked ∧ kids_ok p [] ∧ ∃ q, p_waitcv p = Some q ∧ queue_rep q [].
Lemma new_unused s P l j : table_ok s P → ps_heap s !! l = None → P !! j ≠ Some l.
Proof. intros HT Hl Hj. assert (is_Some (ps_heap s !! l)) as [? ?] by (apply (to_heap _ _ HT); eauto). congruence. Qed.
Lemma table_ok_new s P l' cf c s' :
  table_ok s P → P !! c = None → ps_heap s !! l' = None → pt_lock s' = unlocked →
  table_map (process_table s') (<[c := l']> P) → num (arr (process_table s')) < 2 ^ 29 →
  ps_heap s' = <[l' := cf]> (ps_heap s) → table_ok s' (<[c := l']> P).
Proof.
  intros HT Hc Hl' Hk Ht Hn Hheap. pose proof (λ j, new_unused _ _ _ j HT Hl') as Hno. pose proof (to_inj _ _ HT) as Hinj.
  split; try done.
  - intros j k m. rewrite !lookup_insert. repeat case_decide; naive_solver.
  - intros m. rewrite Hheap, lookup_insert. case_decide as Hm; [subst m|].
    + split; [|by eauto]. intros _. exists c. apply lookup_insert_eq.
    + rewrite (to_heap _ _ HT). split; intros [j Hj]; exists j.
      * rewrite lookup_insert_ne; [done|congruence].
      * rewrite lookup_insert in Hj. case_decide; congruence.
Qed.
Lemma procs_new s P l' cf c :
  table_ok s P → P !! c = None → ps_heap s !! l' = None →
  procs (<[c := l']> P) (<[l' := cf]> (ps_heap s)) = <[c := view cf]> (procs P (ps_heap s)).
Proof.
  intros HT Hc Hl'. apply map_eq. intros j. rewrite procs_lookup, !lookup_insert, procs_lookup. case_decide as Hj.
  - simpl. by rewrite lookup_insert_eq.
  - destruct (P !! j) as [m|] eqn:Hm; simpl; [|done]. rewrite lookup_insert_ne; [done|]. intros <-. by eapply new_unused.
Qed.
Lemma procs_fork s P i l p pf l' cf c s' :
  table_ok s P → P !! i = Some l → ps_heap s !! l = Some p → view pf = view p → P !! c = None → ps_heap s !! l' = None →
  table_ok s' (<[c := l']> P) → ps_heap s' = <[l' := cf]> (ps_heap s) →
  procs (<[c := l']> P) (<[l := pf]> (ps_heap s')) = <[c := view cf]> (procs P (ps_heap s)).
Proof.
  intros HT Hi Hl Hv Hc Hl' HT' Hheap. assert (i ≠ c) by congruence.
  rewrite (procs_put s' _ i), Hheap, (procs_new s), Hv by (done || by rewrite lookup_insert_ne). apply insert_id.
  rewrite lookup_insert_ne by done. apply procs_Some. eauto.
Qed.
(** A process [c] is added; the others keep what is not the list of their
    children or their file table, and a parent has the child on its list. *)
Definition others_same w a P (i c : Z) s' : Prop :=
  ∀ j m pm', P !! j = Some m → ps_heap s' !! m = Some pm' →
    ∃ pm, ps_heap (pw_sys w) !! m = Some pm ∧ parent_same pm pm' ∧
      ∃ ks, kids_ok pm' ks ∧ ∀ d st, j ≠ 0 → <[c := (i, None)]> (pa a) !! d = Some (j, st) → d ∈ ks.
Lemma fork_rep w a P i l' cf c nt s' Th :
  proc_rep w a P → (i ≠ 0 → ∃ t, pth a !! t = Some i) → P !! c = None → pth a !! nt = None →
  table_ok s' (<[c := l']> P) → procs (<[c := l']> P) (ps_heap s') = <[c := (i, None)]> (pa a) →
  ps_heap s' !! l' = Some cf → child_ok i c cf → others_same w a P i c s' →
  ps_pids s' = <[nt := c]> (pth a) → ps_asleep s' = ps_asleep (pw_sys w) → dom (pth a) ⊆ Th →
  env_ok (fts (ps_heap s')) (pts (ps_heap s')) ({[nt]} ∪ Th) (ps_env s') →
  proc_rep (mkPw s' (pw_cont w)) (mkPst (<[c := (i, None)]> (pa a)) (<[nt := c]> (pth a)) (pwait a)) (<[c := l']> P).
Proof.
  intros HR Ht Hc Hnt HT' Hprocs Hl' (Hcview & Hcpid & Hck & Hckids & q & Hq & Hr) Hothers Hpids Hsl HTh He.
  pose proof (pr_abs _ _ _ HR) as Hab.
  assert (pa a !! c = None) as HA by (rewrite (pr_procs _ _ _ HR), procs_lookup, Hc; done).
  assert (∀ d st, c ≠ 0 → pa a !! d ≠ Some (c, st)) as Hnochild.
  { intros d st H0 Hd. destruct (ab_parent _ Hab _ _ _ Hd H0) as [u Hu]. destruct (ab_runs _ Hab _ _ Hu). congruence. }
  assert (c ≠ 0 → i ≠ c) as Hic.
  { intros H0 ->. destruct (Ht H0) as [u Hu]. destruct (ab_runs _ Hab _ _ Hu). congruence. }
  assert (∀ u st, pwait a !! u ≠ Some (c, st)) as Hnowait.
  { intros u st Hu. destruct (ab_wait _ Hab _ _ _ Hu) as (j & ? & _ & _ & ?). congruence. }
  split; simpl; try done.
  - destruct a as [A T W]. by apply (fork_ok A T W).
  - intros j lj pj. rewrite lookup_insert. case_decide as Hj; [subst j|]; intros Hlj Hpj.
    + assert (pj = cf) as -> by congruence. split_and!; [done..| |].
      * exists []. split; [done|]. intros d st H0. rewrite lookup_insert. case_decide; [|by intros ?%Hnochild].
        intros [= -> _]. by destruct (Hic H0).
      * exists q, []. split_and!; [done..|simpl; lia|]. intros u. split; [set_solver|]. intros [_ [st Hu]]. by apply Hnowait in Hu.
    + destruct (Hothers _ _ _ Hlj Hpj) as (pm & Hpm & (Hv & Hpid & Hk & Hcv) & Hkids). injection Hv as _ Hst.
      destruct (pr_each _ _ _ HR _ _ _ Hlj Hpm) as (Hpid' & Hk' & _ & q' & ws & Hq' & Hws).
      split_and!; [congruence|congruence|done|]. exists q', ws. rewrite Hst, Hcv. done.
  - apply HR.
  - intros u lu d b Hu%(pr_cont _ _ _ HR). rewrite lookup_insert_ne; [done|congruence].
  - intros u. rewrite Hsl, (pr_sleep _ _ _ HR). split; intros (d & b & pp' & Hu & Hd); exists d, b, pp'; (split; [done|]).
    + rewrite lookup_insert_ne; [done|congruence].
    + rewrite lookup_insert_ne in Hd; [done|]. intros <-. by eapply Hnowait.
  - eexists. split; [|exact He]. rewrite dom_insert_L. set_solver.
Qed.
Lemma fork_others w a P i l p pf l' cf c ks s' :
  proc_rep w a P → P !! i = Some l → ps_heap (pw_sys w) !! l = Some p → ps_heap (pw_sys w) !! l' = None →
  ps_heap s' = <[l := pf]> (<[l' := cf]> (ps_heap (pw_sys w))) → parent_same p pf → kids_ok pf (ks ++ [c]) →
  (∀ d st, i ≠ 0 → pa a !! d = Some (i, st) → d ∈ ks) → others_same w a P i c s'.
Proof.
  intros HR HP Hl Hl' Hheap Hsame Hkids Hks j m pm' Hj. pose proof (pr_table _ _ _ HR) as HT. rewrite Hheap, lookup_insert. case_decide as Hm.
  - subst m. assert (j = i) as -> by by eapply to_inj. intros [= <-]. exists p. split_and!; [done..|]. exists (ks ++ [c]). split; [done|].
    intros d st H0. rewrite lookup_insert. case_decide; [set_solver|]. intros Hd. apply elem_of_app. eauto.
  - rewrite lookup_insert_ne. 2: { intros <-. assert (is_Some (ps_heap (pw_sys w) !! l')) as [? ?] by (apply (to_heap _ _ HT); eauto). congruence. }
    intros Hpm. exists pm'. split_and!; [done..|]. destruct (pr_each _ _ _ HR _ _ _ Hj Hpm) as (_ & _ & (ks' & Hk' & Hks') & _).
    exists ks'. split; [done|]. intros d st H0. rewrite lookup_insert. case_decide; [|by apply Hks']. intros [= -> _]. destruct Hm. congruence.
Qed.
Lemma psim_fork w a P t i o :
  proc_rep w a P → pth a !! t = Some i → pwait a !! t = None → env_can_fork (ps_env (pw_sys w)) t → fork_room (pw_sys w) → plenty o →
  wp (pexec (PFork t)) (λ r w' _, psim w a (PFork t) r w') w o.
Proof.
  intros HR Ht Hw Hcan [Hroom Hkroom] Ho. pose proof (pr_table _ _ _ HR) as HT. pose proof (pr_abs _ _ _ HR) as Hab.
  destruct (ab_runs _ Hab _ _ Ht) as [pp HA].
  destruct (rep_proc _ _ _ _ _ HR HA) as (l & p & HP & Hl & Hv & Hok). pose proof Hok as (_ & _ & (ks & Hkids & Hks) & _).
  destruct (pr_env _ _ _ HR) as (Th & HTh & He). pose proof Ht as Hpids. rewrite (pr_pids _ _ _ HR) in Hpids.
  cbn [pexec]. wp_step. unfold on_sys. wp_step. unfold sys_fork. wp_step. wp_step; [done|]. wp_step. unfold get_curprocess. wp_step.
  eapply wp_curpid; [done|]. wp_call (processtable_get_spec _ P i); [apply HT..|]. intros r ? o1 (-> & -> & ->). rewrite HP.
  do 3 wp_step. rewrite (proj2 (not_fails_iff _)) by by apply plenty_head. cbn [negb]. apply plenty_tail in Ho. wp_step. wp_step.
  wp_call (p_create_spec _ P Th _ (to_lock _ _ HT) (to_table _ _ HT) (to_size _ _ HT) He Ho).
  intros r s1 o1 (Ho1 & l' & c & p' & tb & x & -> & Hc0 & HPc & Hl' & (ft & pt & ca & q & -> & Hft & Hca & Hq) & -> & Htb & Hntb & He1 & Hcan1).
  assert (l ≠ l') as Hne by congruence. set (cp := mkProc _ _ _ _ _ _ _ _ _ _ _) in *.
  wp_step. wp_step. wp_step. eapply (wp_get_proc _ p); [simpl; by rewrite lookup_insert_ne|]. wp_step. eapply wp_get_proc; [apply proc_put_lookup|].
  wp_step. apply wp_env. wp_call (law_ft_duplicate _ _ _ l (file_table p) l' ft _ t _ He1 Hne); [| |done|by apply Hcan1|done|].
  { by rewrite lookup_fmap, lookup_insert_ne, Hl. }
  { by rewrite lookup_fmap, lookup_insert_eq. }
  intros r x2 o2 (Ho2 & Hcan2 & ft' & nt' & -> & He2). wp_step. eapply (wp_upd_proc _ _ p); [simpl; by rewrite lookup_insert_ne|]. wp_step.
  eapply (wp_upd_proc _ _ cp); [simpl; by rewrite lookup_insert_ne, lookup_insert_eq|]. wp_step. wp_step. wp_step.
  set (s2 := put l' _ _). assert (ps_heap s2 = <[l := set_file_table ft' p]> (<[l' := set_file_table nt' cp]> (ps_heap (pw_sys w)))) as Hs2.
  { simpl. rewrite (insert_insert_ne _ l l') by done. by rewrite insert_insert_eq, insert_insert_ne. }
  assert (env_ok (fts (ps_heap s2)) (pts (ps_heap s2)) Th x2) as He3.
  { rewrite Hs2. rewrite !fmap_insert in *. rewrite (insert_insert_ne _ l' l), insert_insert_eq in He2 by done. simpl.
    rewrite (insert_id (<[l' := _]> (pts _)) l); [done|]. by rewrite lookup_insert_ne, lookup_fmap, Hl. }
  wp_call (thread_fork_spec s2 t i l' (set_file_table nt' cp) c Th); [apply proc_put_lookup|done|done|by rewrite (pr_pids _ _ _ HR) in HTh|done..|].
  intros r s3 o3 (Ho3 & nt & x3 & -> & Hnt & -> & He4). wp_cond. wp_step. eapply wp_get_proc; [apply proc_put_lookup|]. wp_step. cbn [p_pid set_pthread set_parentpid set_file_table cp]. wp_step. wp_step.
  wp_call (add_child_spec _ l (set_file_table ft' p) ks c); [| |exact (λ a, Hkroom l p a Hl)|done|].
  { simpl. by rewrite insert_insert_eq, lookup_insert_ne, lookup_insert_eq. }
  { done. }
  intros _ s4 o4 (a4 & cs & -> & Hkids4). wp_step. wp_step.
  exists (mkPst (<[c := (i, None)]> (pa a)) (<[nt := c]> (pth a)) (pwait a)), None, (<[c := l']> P). split_and!; [|done|].
  { assert (pa a !! c = None) as Hnone by by rewrite (pr_procs _ _ _ HR), procs_lookup, HPc.
    destruct a as [A T W]. apply (step_fork _ A T W t nt i c); try done. apply not_elem_of_dom. set_solver. }
  set (s4 := put l _ _). set (cf := set_pthread nt (set_parentpid i (set_file_table nt' cp))).
  set (pf := set_children _ _ _) in *.
  assert (ps_heap s4 = <[l := pf]> (<[l' := cf]> (ps_heap (pw_sys w)))) as Hs4.
  { unfold s4. simpl. rewrite insert_insert_eq, (insert_insert_ne _ l' l) by done. by rewrite !insert_insert_eq. }
  set (s5 := set_procs (<[l' := cf]> (ps_heap (pw_sys w))) s4).
  assert (table_ok s5 (<[c := l']> P)) as HT5 by (eapply table_ok_new; [done..|exact (to_lock _ _ HT)|exact Htb|simpl; lia|done]).
  apply (fork_rep w a P i l' cf c nt s4 Th); try done.
  - eauto.
  - apply not_elem_of_dom. set_solver.
  - destruct (table_ok_put s5 _ l pf HT5) as [? ? ? ? Hh]; [by simpl; rewrite lookup_insert_ne, Hl|]. split; try done. by rewrite Hs4.
  - rewrite Hs4, (pr_procs _ _ _ HR). by apply (procs_fork _ _ i l p pf l' cf c s5 HT HP Hl).
  - rewrite Hs4, lookup_insert_ne, lookup_insert_eq by done. done.
  - split_and!; [done..| |by exists q]. exists ca, []. split_and!; [done..|constructor|constructor|simpl; lia].
  - by eapply (fork_others w a P i l p pf l' cf c ks).
  - simpl. by rewrite (pr_pids _ _ _ HR).
  - rewrite Hs4. rewrite Hs2 in He4. by rewrite !fmap_insert in *.
Qed.
(** A new process for the thread [t], which had none *)
Lemma create_assign w a P t o :
  proc_rep w a P → pth a !! t = None → env_thread (ps_env (pw_sys w)) t → num (arr (process_table (pw_sys w))) + 1 < 2 ^ 29 → plenty o →
  wp p_create (λ r s1 o1, ∃ l, r = Some l ∧ wp (p_assign_thread l t) (λ _ s' _, ∃ c P',
    0 ≤ c ≤ num (arr (process_table (pw_sys w))) ∧ pa a !! c = None ∧ ps_pids s' !! t = Some c ∧
    proc_rep (mkPw s' (pw_cont w)) (mkPst (<[c := (0, None)]> (pa a)) (<[t := c]> (pth a)) (pwait a)) P') s1 o1) (pw_sys w) o.
Proof.
  intros HR Ht Hth Hroom Ho. pose proof (pr_table _ _ _ HR) as HT. destruct (pr_env _ _ _ HR) as (Th & HTh & He).
  apply (law_thread _ _ _ t) in He; [|done].
  wp_call (p_create_spec _ P _ _ (to_lock _ _ HT) (to_table _ _ HT) (to_size _ _ HT) He Ho).
  intros r s1 o1 (Ho1 & l & c & p & tb & x & -> & Hc0 & HPc & Hl & (ft & pt & ca & q & -> & Hft & Hca & Hq) & -> & Htb & Hntb & He1 & _).
  set (cp := mkProc _ _ _ _ _ _ _ _ _ _ _) in *. exists l. split; [done|]. unfold p_assign_thread. wp_step.
  eapply wp_upd_proc; [apply proc_put_lookup|]. rewrite put_put. wp_step. eapply wp_get_proc; [apply proc_put_lookup|].
  cbn [p_pid set_pthread cp]. do 3 wp_step. set (s' := set_pids _ _). set (cf := set_pthread t cp) in *.
  assert (pa a !! c = None) as HA by by rewrite (pr_procs _ _ _ HR), procs_lookup, HPc.
  exists c, (<[c := l]> P). pose proof (table_map_bound _ _ c l Htb (lookup_insert_eq _ _ _)). split_and!; [lia|lia|done|apply lookup_insert_eq|].
  apply (fork_rep w a P 0 l cf c t s' Th); try done.
  - eapply (table_ok_new _ _ l cf c _ HT); [done..|apply HT|exact Htb|simpl; lia|done].
  - simpl. rewrite (procs_new _ _ _ _ _ HT HPc Hl), (pr_procs _ _ _ HR). done.
  - apply lookup_insert_eq.
  - split_and!; [done..| |by exists q]. exists ca, []. split_and!; [done..|constructor|constructor|simpl; lia].
  - intros j m pm' Hj Hpm. simpl in Hpm. rewrite lookup_insert_ne in Hpm by (intros ->; by eapply new_unused). exists pm'.
    split_and!; [done..|]. destruct (pr_each _ _ _ HR _ _ _ Hj Hpm) as (_ & _ & (ks' & Hk' & Hks') & _).
    exists ks'. split; [done|]. intros d st H0. rewrite lookup_insert. case_decide; [naive_solver|by apply Hks'].
  - simpl. by rewrite (pr_pids _ _ _ HR).
  - simpl. rewrite !fmap_insert in *. done.
Qed.
Lemma sim_run w a P t o :
  proc_rep w a P → pth a !! t = None → env_thread (ps_env (pw_sys w)) t → num (arr (process_table (pw_sys w))) + 1 < 2 ^ 29 → plenty o →
  wp (pexec (PRun t)) (λ r w' _, psim w a (PRun t) r w') w o.
Proof.
  intros HR Ht Hth Hroom Ho. cbn [pexec]. wp_step. unfold on_sys. wp_step. unfold run_process. wp_step.
  wp_call (create_assign w a P t); [done..|]. intros r s1 o1 (l & -> & Hl). wp_step. wp_step. wp_step. eapply wp_mono; [exact Hl|].
  intros _ s' o' (c & P' & Hc & HA & Hpid & HR'). eapply wp_curpid; [done|]. wp_step. eexists _, None, P'. split_and!; [|done|exact HR'].
  destruct a as [A T W]. apply step_run; [done|done|lia].
Qed.

(** ** Bootstrap *)
Definition rep (w : pworld) (a : pstate) : Prop := ∃ P, proc_rep w a P.
Lemma rep_empty x (tb : table loc) :
  table_rep tb [] [] 0 → env_ok ∅ ∅ ∅ x → proc_rep (mkPw (mkPs x ∅ tb unlocked ∅ ∅) ∅) (mkPst ∅ ∅ ∅) ∅.
Proof.
  intros Ht He. pose proof Ht as ((Hn & _) & _). simpl in Hn. split; simpl; try done.
  - split; simpl; [done| |lia|by intros * ?|].
    + exists [], [], 0%nat. split; [done|]. intros i. rewrite lookup_empty. unfold zlookup. by case_decide.
    + intros l. rewrite lookup_empty. split; [by intros []|]. by intros [i Hi].
  - split; [set_solver|]. intros (c & status & pp & Hc & _). by rewrite lookup_empty in Hc.
  - exists ∅. split; [set_solver|done].
Qed.
Lemma tab_create_spec (o : oracle) s :
  plenty o → wp tab_create (λ r s' o', s' = s ∧ plenty o' ∧ ∃ tb : table loc, r = Some tb ∧ table_rep tb [] [] 0) s o.
Proof.
  intros Ho. unfold tab_create, array_create, ll_create. wp_mem Ho. split_and!; [done|by repeat apply plenty_tail|]. eexists. split; [done|].
  split_and!; [repeat split; simpl; lia| |constructor|set_solver]. exists []. split_and!; [apply ll_rep_nil|constructor|constructor|done].
Qed.
Lemma bootstrap_sim (x : X) (t : Z) (tb : table loc) (k : ulock) (o : oracle) :
  env_ok ∅ ∅ ∅ x → env_thread x t → plenty o →
  wp (process_bootstrap t) (λ _ s _, rep (mkPw s ∅) (mkPst {[0 := (0, None)]} {[t := 0]} ∅)) (mkPs x ∅ tb k ∅ ∅) o.
Proof.
  intros He Ht Ho. unfold process_bootstrap, processtable_bootstrap. wp_step. wp_step. wp_call (tab_create_spec _ _ Ho).
  intros r ? o1 (-> & Ho1 & tb' & -> & Htb). do 3 wp_step. wp_call (ulock_create_spec _ _ Ho1). intros r ? o2 (-> & Ho2 & ->). do 3 wp_step. wp_step.
  pose proof (rep_empty x tb' Htb He) as HR. pose proof Htb as ((Hn & _) & _). simpl in Hn.
  wp_call (create_assign _ _ _ t _ HR); [done|done|simpl; lia|done|]. intros r s1 o3 (l & -> & Hl). do 2 wp_step. eapply wp_mono; [exact Hl|].
  intros _ s' o4 (c & P' & Hc & _ & _ & HR'). simpl in Hc, HR'. assert (c = 0) as -> by lia. by exists P'.
Qed.

(** ** Simulation *)
(** What a call needs: the thread runs, or has been woken; the argument for
    the exit code is an address that [copyin] answers for, or an [int] when
    the thread comes back to it; the calls find memory. *)
Definition proc_pre (w : pworld) (a : pstate) (op : pop) (o : oracle) : Prop :=
  plenty o ∧
  match op with
  | PRun t => pth a !! t = None ∧ env_thread (ps_env (pw_sys w)) t ∧ num (arr (process_table (pw_sys w))) + 1 < 2 ^ 29
  | PFork t => is_Some (pth a !! t) ∧ pwait a !! t = None ∧ env_can_fork (ps_env (pw_sys w)) t ∧ fork_room (pw_sys w)
  | PExit t code => is_Some (pth a !! t) ∧ pwait a !! t = None
  | PWait t pid status options => (∃ i, pth a !! t = Some i ∧ i ≠ 0) ∧ pwait a !! t = None ∧ env_ptr (ps_env (pw_sys w)) status
  | PWake t => ∃ c status, pwait a !! t = Some (c, status) ∧ (t ∉ ps_asleep (pw_sys w)) ∧ env_word (ps_env (pw_sys w)) status
  end.

Lemma pexec_sim (w : pworld) (a : pstate) (op : pop) (o : oracle) :
  rep w a → proc_pre w a op o →
  wp (pexec op) (λ r w' _, ∃ a' st, pstep (good_addr (ps_env (pw_sys w))) a op r st a' ∧ stored w' st ∧ rep w' a') w o.
Proof.
  intros [P HR] [Ho Hpre]. assert (∀ r w', psim w a op r w' →
    ∃ a' st, pstep (good_addr (ps_env (pw_sys w))) a op r st a' ∧ stored w' st ∧ rep w' a') as Hsim.
  { intros r w' (a' & st & P' & ? & ? & ?). exists a', st. split_and!; [done..|by exists P']. }
  destruct op as [t|t|t code|t pid status options|t].
  - destruct Hpre as (Ht & Hth & Hr). eapply wp_mono; [by eapply sim_run|]. eauto.
  - destruct Hpre as ([i Ht] & Hw & Hc & Hr). eapply wp_mono; [by eapply psim_fork|]. eauto.
  - destruct Hpre as ([i Ht] & Hw). eapply wp_mono; [by eapply psim_exit|]. intros r w' _ (-> & P' & HR'). eexists _, None.
    split_and!; [|done|by exists P']. destruct a as [A T W]. by apply step_exit.
  - destruct Hpre as ((i & Ht & H0) & Hw & Hp). eapply wp_mono; [by eapply sim_wait|]. eauto.
  - destruct Hpre as (c & status & Hw & Ha & Hp). eapply wp_mono; [by eapply sim_wake|]. eauto.
Qed.

(** ** Sequences of calls *)
Inductive ptrace : pworld → pstate → list pop → pworld → pstate → Prop :=
| trace_nil w a : rep w a → ptrace w a [] w a
| trace_cons w a op ops o r st w1 o1 a1 w2 a2 :
    rep w a → proc_pre w a op o → pexec op w o = Done (r, w1, o1) →
    pstep (good_addr (ps_env (pw_sys w))) a op r st a1 → ptrace w1 a1 ops w2 a2 → ptrace w a (op :: ops) w2 a2.
Lemma trace_rep w a ops w' a' : ptrace w a ops w' a' → rep w' a'.
Proof. by induction 1. Qed.
Lemma pre_waits w a op o : proc_pre w a op o → waits_ok a op.
Proof. destruct op; simpl; [done..| |done]. intros (_ & (i & -> & H0) & _). congruence. Qed.
Lemma wait_stays good a op r st a' t c status i code :
  abs_ok a → pstep good a op r st a' → op ≠ PWake t → pwait a !! t = Some (c, status) → pa a !! c = Some (i, Some code) →
  pwait a' !! t = Some (c, status) ∧ pa a' !! c = Some (i, Some code).
Proof.
  intros Hab Hs Hop Hw Hc. destruct (ab_wait _ Hab _ _ _ Hw) as (i' & st' & Ht & H0 & Hc'). assert (i' = i) as -> by congruence.
  destruct Hs; simpl in *; try done.
  - split; [done|]. rewrite lookup_insert_ne; congruence.
  - split; [done|]. rewrite lookup_insert_ne; congruence.
  - split; [done|]. destruct (ab_runs _ Hab _ _ H) as [pp Hi]. simpl in Hi. rewrite (bury_other _ _ _ _ _ _ Hc) by congruence.
    destruct (Z.eqb_spec i i0) as [->|]; [|done]. rewrite (ab_one _ Hab _ _ _ H Ht) in *. congruence.
  - split; [done|]. rewrite lookup_delete_ne; [done|]. intros ->. assert (i0 = i) as -> by congruence.
    rewrite (ab_one _ Hab _ _ _ H Ht) in *. congruence.
  - split; [|done]. rewrite lookup_insert_ne; [done|]. congruence.
  - assert (t0 ≠ t) as Hne by congruence. split; [by rewrite lookup_delete_ne|]. rewrite lookup_delete_ne; [done|]. intros ->.
    destruct (ab_wait _ Hab _ _ _ H) as (j & ? & Hj & _ & ?). simpl in *. assert (j = i) as -> by congruence. by eapply Hne, (ab_one _ Hab).
Qed.
Lemma zombie_kept good a op r st a' c code :
  abs_ok a → waits_ok a op → pstep good a op r st a' → pa a !! c = Some (0, Some code) → pa a' !! c = Some (0, Some code).
Proof.
  intros Hab Hok Hs Hc. destruct Hs; simpl in *; try done.
  - rewrite lookup_insert_ne; congruence.
  - rewrite lookup_insert_ne; congruence.
  - destruct (ab_runs _ Hab _ _ H) as [pp Hi]. simpl in Hi. rewrite (bury_other _ _ _ _ _ _ Hc) by congruence. by case_match.
  - rewrite lookup_delete_ne; [done|]. congruence.
  - rewrite lookup_delete_ne; [done|]. destruct (ab_wait _ Hab _ _ _ H) as (j & ? & Hj & H0' & Hd). simpl in *. congruence.
Qed.

(** After bootstrap there is one process, with process id 0, that runs and
    has the first thread. *)
Theorem process_bootstrap_rep (x : X) (t : Z) (tb : table loc) (k : ulock) (o : oracle) :
  env_ok ∅ ∅ ∅ x → env_thread x t → plenty o →
  wp (process_bootstrap t) (λ _ s _, rep (mkPw s ∅) (mkPst {[0 := (0, None)]} {[t := 0]} ∅)) (mkPs x ∅ tb k ∅ ∅) o.
Proof. apply bootstrap_sim. Qed.
(** C33: A process that nobody can wait for any more is never given back.  The
    parent exits without having waited for a child that has exited; whatever
    calls follow, the process of the child stays in memory and keeps its
    process id. *)
Theorem zombie_leak (w w' : pworld) (a a' : pstate) (ops : list pop) (t i c code code' : Z) :
  ptrace w a (PExit t code :: ops) w' a' → pth a !! t = Some i → pa a !! c = Some (i, Some code') →
  ∃ P l, table_map (process_table (pw_sys w')) P ∧ P !! c = Some l ∧ is_Some (ps_heap (pw_sys w') !! l).
Proof.
  intros Htr Ht Hc. inversion Htr as [|? ? ? ? ox r st w1 o1 a1 ? ? [P HR] _ Hex Hstep Htr']; subst.
  destruct (ab_runs _ (pr_abs _ _ _ HR) _ _ Ht) as [pp Hi].
  assert (pa a1 !! c = Some (0, Some code')) as Hc1.
  { inversion Hstep; subst; simpl in *. simplify_eq. rewrite (bury_other _ _ _ _ _ _ Hc) by congruence. by rewrite Z.eqb_refl. }
  assert (pa a' !! c = Some (0, Some code')) as Hc'.
  { clear -Htr' Hc1. induction Htr' as [|w a op ops o r st w1 o1 a1 w2 a2 [P HR] Hpre _ Hs _ IH]; [done|].
    apply IH. by eapply zombie_kept; [apply HR|eapply pre_waits| |]. }
  destruct (trace_rep _ _ _ _ _ Htr') as [P' HR']. destruct (rep_proc _ _ _ _ _ HR' Hc') as (l & p & HP & Hl & _).
  exists P', l. split_and!; [apply HR'|done|eauto].
Qed.
End ProcessSim.
