(* ===== verification/ProcessRuns.v ===== *)
(** * Processes: runs

    The theorems of ProcessSim.v at concrete states, and sequences of calls
    that go wrong: an exit that is overtaken by the parent, and what
    [p_create] and [sys_fork] do when memory runs out. *)
From S2P Require Import Prelude Queue Array LinkedList Table Memory Copyinout Uio Pages Coremap Request Vnode SfsVnode.
From S2P Require Import Files FilesSpec FilesRuns Vm VmSpec VmRuns Process ProcessSpec ProcessEnv ProcessSim.

Module SampleProc.
Import SinkFiles SimFiles.
Definition dest : Z := MIPS_KSEG0.
Definition others : Z → nat := λ _, 0%nat.
Abbreviation E := SimFiles.files.
#[export] Instance env : ProcEnv (penv sink E) filetable pagetable := proc_env dest.
#[export] Instance laws : ProcLaws (penv sink E) filetable pagetable := proc_laws others dest.
(** Two threads, the second with an address space, and some memory *)
Definition mach : machine :=
  mkMachine (write_at (write_at ∅ 4096 (replicate 16 0)) MIPS_KSEG0 (replicate 8 0)) (λ _, AOk) (λ _, AOk) false.
Definition env0 : penv sink E := mkPenv (mkFd (false, ∅) mach ∅) (SampleVm.start ∅) {[1 := false; 2 := true]}.
Definition no_table : table loc := mkTable (mkArray 0 0 None) (mkLL ∅ None None 0) ∅.
Definition sys0 : psys (penv sink E) filetable pagetable := mkPs env0 ∅ no_table (mkUlock false false) ∅ ∅.
Abbreviation sys := (psys (penv sink E) filetable pagetable).
Abbreviation world := (pworld (X := penv sink E) (FT := filetable) (PT := pagetable)).

Definition after {A} (m : K sys A) (s : sys) : sys := match m s [] with Done (_, s', _) => s' | Halt _ => s end.
Definition next (op : pop) (w : world) : world := match pexec op w [] with Done (_, w', _) => w' | Halt _ => w end.
(** The first process, and one that [runprogram] starts in thread 2 *)
Definition boot : world := mkPw (after (process_bootstrap 1) sys0) ∅.
Definition w1 : world := next (PRun 2) boot.
(** It forks, *)
Definition w2 : world := next (PFork 2) w1.
(** waits for the child, *)
Definition w3 : world := next (PWait 2 2 4096 0) w2.
(** or the child exits before. *)
Definition w4 : world := next (PExit 3 7) w2.
Definition w5 : world := next (PExit 3 7) w3.
Definition w6 : world := next (PExit 2 0) w4.

Lemma env0_ok : env_ok ∅ ∅ ∅ env0.
Proof.
  change (penv_ok others dest ∅ ∅ ∅ env0). split; [|split; [|split]].
  - exists ∅. split.
    + intros l. rewrite lookup_empty. intros fd. apply lookup_empty.
    + split; cbn [pe_fds env0 fd_vfs fd_mach fd_heap mach badfault]; [exact I|done| |by intros f x ?|].
      * intros v. unfold uses. done.
      * intros f _. done.
  - exists (λ _, []). destruct (SampleVm.sample_frames ∅) as (Hc & Hwf & _). split; [exact Hc|split; [exact Hwf|split]].
    + by intros l pt ?.
    + by intros l l' p q [? ?].
  - unfold kernel_block. cbn [pe_fds env0 fd_mach mach mem]. split_and!; [done..|]. unfold mapped. by eexists; vm_compute.
  - apply empty_subseteq.
Qed.
Lemma boot_rep : rep boot (mkPst {[0 := (0, None)]} {[1 := 0]} ∅).
Proof.
  pose proof (bootstrap_sim env0 1 no_table (mkUlock false false) [] env0_ok) as Hb. unfold wp in Hb.
  unfold boot, after. change sys0 with (mkPs (FT := filetable) (PT := pagetable) env0 ∅ no_table (mkUlock false false) ∅ ∅).
  destruct (process_bootstrap 1 _ []) as [[[[] s] o]|]; [|destruct Hb; [set_solver|constructor]]. apply Hb; [set_solver|constructor].
Qed.
Definition result (op : pop) (w : world) : option pres := match pexec op w [] with Done (r, _, _) => Some r | Halt _ => None end.
Lemma step_next w w' a op r :
  w' = next op w → rep w a → proc_pre w a op [] → result op w = Some r →
  ∃ st o a1, pexec op w [] = Done (r, w', o) ∧ pstep (good_addr (ps_env (pw_sys w))) a op r st a1 ∧ rep w' a1.
Proof.
  intros -> HR Hpre Hr. pose proof (pexec_sim w a op [] HR Hpre) as Hw. unfold wp in Hw. unfold next. unfold result in Hr.
  destruct (pexec op w []) as [[[r' w'] o]|]; [|done]. destruct Hw as (a1 & st & ? & ? & ?). simplify_eq. by exists st, o, a1.
Qed.
Lemma w1_next : w1 = next (PRun 2) boot. Proof. unfold w1. reflexivity. Qed.
Lemma w2_next : w2 = next (PFork 2) w1. Proof. unfold w2. reflexivity. Qed.
Lemma w3_next : w3 = next (PWait 2 2 4096 0) w2. Proof. unfold w3. reflexivity. Qed.
Lemma w4_next : w4 = next (PExit 3 7) w2. Proof. unfold w4. reflexivity. Qed.
Lemma w5_next : w5 = next (PExit 3 7) w3. Proof. unfold w5. reflexivity. Qed.
Lemma w6_next : w6 = next (PExit 2 0) w4. Proof. unfold w6. reflexivity. Qed.
Lemma w1_rep : rep w1 (mkPst {[1 := (0, None); 0 := (0, None)]} {[2 := 1; 1 := 0]} ∅).
Proof.
  destruct (step_next boot w1 _ (PRun 2) (RVal 1 0) w1_next boot_rep) as (st & o & a1 & _ & Hs & HR).
  - split; [constructor|]. split; [done|]. split; [|by vm_compute]. by apply elem_of_dom; eexists; vm_compute.
  - by vm_compute.
  - inversion Hs; subst. exact HR.
Qed.
Lemma w1_files : fd_heap (pe_fds (ps_env (pw_sys w1))) = ∅.
Proof. by vm_compute. Qed.
Lemma w1_children : map_Forall (λ _ p, default 0 (num <$> p_childrenpids p) = 0) (ps_heap (pw_sys w1)).
Proof. apply (bool_decide_unpack _). vm_compute. exact I. Qed.
Lemma w1_fork : proc_pre w1 (mkPst {[1 := (0, None); 0 := (0, None)]} {[2 := 1; 1 := 0]} ∅) (PFork 2) [].
Proof.
  split; [constructor|]. split; [by eexists|]. split; [done|]. split.
  - split; [by vm_compute|]. intros f y Hf. rewrite w1_files, lookup_empty in Hf. discriminate.
  - split; [by vm_compute|]. intros l p a Hl Ha. apply w1_children in Hl. rewrite Ha in Hl. cbn in Hl. rewrite Hl. done.
Qed.
(** The thread of the child is 3. *)
Lemma w2_threads : ps_pids (pw_sys w2) = {[3 := 2; 2 := 1; 1 := 0]}.
Proof. by vm_compute. Qed.
Lemma w2_rep : rep w2 (mkPst {[2 := (1, None); 1 := (0, None); 0 := (0, None)]} {[3 := 2; 2 := 1; 1 := 0]} ∅).
Proof.
  destruct (step_next w1 w2 _ (PFork 2) (RVal 2 0) w2_next w1_rep w1_fork) as (st & o & a1 & _ & Hs & [P HR]); [by vm_compute|]. exists P.
  pose proof (pr_pids _ _ _ HR) as Hp. rewrite w2_threads in Hp.
  inversion Hs as [|? ? ? ? t' i c Hi _ _ _ _| | | | | | |]; subst. injection Hi as <-. simpl in Hp. rewrite Hp in HR. exact HR.
Qed.
Lemma mach_word (x : penv sink E) : fd_mach (pe_fds x) = mach → word_at x 4096.
Proof.
  unfold word_at. intros ->. split; [done|split; [by vm_compute|split; [by eexists; vm_compute|split]]]; by intros b _.
Qed.
Lemma w2_mach : fd_mach (pe_fds (ps_env (pw_sys w2))) = mach.
Proof. by vm_compute. Qed.
Lemma w5_mach : fd_mach (pe_fds (ps_env (pw_sys w5))) = mach.
Proof. by vm_compute. Qed.
Definition a2 : pstate := mkPst {[2 := (1, None); 1 := (0, None); 0 := (0, None)]} {[3 := 2; 2 := 1; 1 := 0]} ∅.
Definition a3 : pstate := mkPst (pa a2) (pth a2) {[2 := (2, 4096)]}.
Lemma w2_wait : proc_pre w2 a2 (PWait 2 2 4096 0) [].
Proof.
  split; [constructor|]. split; [by exists 1|]. split; [done|]. destruct (mach_word _ w2_mach) as (_ & _ & Hm & Hr & Hw).
  split; [done|]. intros _. split; [exact Hm|]. exists AOk. split; [done|]. intros b Hb. split; [apply Hr|apply Hw]; lia.
Qed.
Lemma w3_rep : rep w3 a3.
Proof.
  destruct (step_next w2 w3 a2 _ RSleep w3_next w2_rep w2_wait) as (st & o & a1 & _ & Hs & HR); [by vm_compute|].
  inversion Hs; subst. exact HR.
Qed.
Lemma trace_one w w' a op r :
  w' = next op w → rep w a → proc_pre w a op [] → result op w = Some r →
  ∃ st a1, pstep (good_addr (ps_env (pw_sys w))) a op r st a1 ∧ ptrace w a [op] w' a1.
Proof.
  intros Hw HR Hpre Hr. destruct (step_next _ _ _ _ _ Hw HR Hpre Hr) as (st & o & a1 & Hex & Hs & HR').
  exists st, a1. split; [done|]. eapply trace_cons; [done..|]. by apply trace_nil.
Qed.
End SampleProc.

Import SampleProc.

Lemma process_bootstrap_rep_witness :
  wp (process_bootstrap 1) (λ _ s _, rep (mkPw s ∅) (mkPst {[0 := (0, None)]} {[1 := 0]} ∅)) sys0 [].
Proof. apply (process_bootstrap_rep env0 1 no_table (mkUlock false false) [] env0_ok); [set_solver|constructor]. Defined.
Lemma zombie_leak_witness :
  ∃ P l, table_map (process_table (pw_sys w6)) P ∧ P !! 2 = Some l ∧ is_Some (ps_heap (pw_sys w6) !! l).
Proof.
  destruct (step_next w2 w4 a2 (PExit 3 7) RGone w4_next w2_rep) as (st & o & a4 & _ & Hs & HR).
  { split; [constructor|]. split; [by eexists|done]. } { by vm_compute. }
  assert (a4 = mkPst {[2 := (1, Some 7); 1 := (0, None); 0 := (0, None)]} {[2 := 1; 1 := 0]} ∅) as ->.
  { inversion Hs as [| |? ? ? ? ? ? Hi| | | | | |]; subst. injection Hi as <-. by vm_compute. }
  destruct (trace_one w4 w6 _ (PExit 2 0) RGone w6_next HR) as (st' & a1 & _ & Htr).
  { split; [constructor|]. split; [by eexists|done]. } { by vm_compute. }
  by apply (zombie_leak w4 w6 _ a1 [] 2 1 2 0 7 Htr).
Defined.

(** ** Calls that go wrong *)
Definition then_run {S A B} (r : outcome (A * S * oracle)) (f : A → S → outcome B) : outcome B :=
  match r with Done (a, s, _) => f a s | Halt e => Halt e end.
(** The child marks its process and gives the lock back; the parent, which has
    waited for the lock, takes the exit code and frees the process; the child
    goes on. *)
Definition exit_race (s : sys) : outcome (Z * Z * outcome (unit * sys * oracle)) :=
  then_run (kill_mark 3 7 s []) (λ l s1,
    then_run (sys_waitpid 2 2 4096 0 0 s1 []) (λ r s2,
      match r with inl v => Done (v, kill_reap 3 l s2 []) | inr _ => Halt Spin end)).
(** [p_create] when the table cannot grow, and [sys_fork] when no thread can be
    made, then a [sys_waitpid] for the process id that has been in use *)
Definition no_room : outcome (option loc * sys * oracle) := p_create (pw_sys w1) (replicate 21 true ++ [false]).
Definition no_thread : outcome (Z * Z * outcome ((Z * Z + loc) * sys * oracle)) :=
  then_run (sys_fork 2 0 (pw_sys w2) (replicate 24 true ++ [false])) (λ r s, Done (r, sys_waitpid 2 3 4096 0 0 s [])).
(** Without memory for the table [p_create] faults in place of answering
    [NULL], as it destroys the array of the children twice; and a [sys_fork]
    that fails for want of a thread leaves the process it has freed in the
    table, where the next look at it faults. *)
Theorem process_out_of_memory : no_room = Halt Fault ∧ no_thread = Done (-1, ENOMEM, Halt Fault).
Proof. split; vm_compute; reflexivity. Qed.
