(* ===== verification/CatMouse.v ===== *)
(** * Cats and mice

    The synchronization problem of src/kern/asst1: threads that simulate cats
    and mice share bowls, and a cat and a mouse never eat at the same time.
    The code is cut where a thread gives up the processor for good reasons:
    between the sections it runs with the lock [mutex] or the semaphore of
    bowls.c, whose variables no other thread touches meanwhile (SynchRuns.v),
    and inside of [cv_wait], after the release of the lock and before the
    thread is on the queue.  [cat_simulation] and [mouse_simulation] are the
    same code with the variables exchanged, and so one definition with the
    kind of the animal. *)
From S2P Require Import Prelude CString.

(** ** Data *)
Inductive animal : Set := Cat | Mouse.
#[global] Instance animal_eq : EqDecision animal.
Proof. solve_decision. Defined.
Definition rival (k : animal) : animal := match k with Cat => Mouse | Mouse => Cat end.
(** Where a thread is, with the rounds that are left and its bowl *)
Inductive place : Set :=
| Asleep (n : nat) (** in [cat_sleep] *)
| Gap (n : nat) (** in [cv_wait], without the lock and not on the queue *)
| Queued (n : nat) (** asleep on the condition variable *)
| Woken (n : nat) (** on its way back from [cv_wait] *)
| Served (n : nat) (bowl : Z) (** about to call [cat_eat] *)
| Eating (n : nat) (bowl : Z) (** in the [clocksleep] of [cat_eat] *)
| Sated (n : nat) (bowl : Z) (** back from [cat_eat] *)
| Over. (** behind the loop, and behind [V(CatMouseWait)] *)
(** The variables of catmouse.c and of bowls.c, which are gone after
    [cleanup_bowls]; the threads; and the number of rounds of the last loop of
    [catmouse] that are left. *)
Record cmsys : Type := mkCm {
  NumBowls : Z;
  b_turn : animal → Z; (** [b_cat_turn], [b_mouse_turn] *)
  b_waiting : animal → Z; (** [b_cat_waiting], [b_mouse_waiting] *)
  num_eating : Z;
  counter : Z;
  CatMouseWait : Z;
  bowls : option (list Z);
  eating_count : animal → Z; (** [eating_cats_count], [eating_mice_count] *)
  animals : list (animal * place);
  to_finish : Z;
}.
Definition set_of (f : animal → Z) (k : animal) (z : Z) : animal → Z := λ j, if decide (j = k) then z else f j.
Definition set_turn (k : animal) (z : Z) (s : cmsys) : cmsys :=
  mkCm (NumBowls s) (set_of (b_turn s) k z) (b_waiting s) (num_eating s) (counter s) (CatMouseWait s) (bowls s) (eating_count s) (animals s) (to_finish s).
Definition set_waiting (k : animal) (z : Z) (s : cmsys) : cmsys :=
  mkCm (NumBowls s) (b_turn s) (set_of (b_waiting s) k z) (num_eating s) (counter s) (CatMouseWait s) (bowls s) (eating_count s) (animals s) (to_finish s).
Definition set_eating (n c : Z) (s : cmsys) : cmsys :=
  mkCm (NumBowls s) (b_turn s) (b_waiting s) n c (CatMouseWait s) (bowls s) (eating_count s) (animals s) (to_finish s).
Definition set_sem (n m : Z) (s : cmsys) : cmsys :=
  mkCm (NumBowls s) (b_turn s) (b_waiting s) (num_eating s) (counter s) n (bowls s) (eating_count s) (animals s) m.
Definition set_bowls (b : option (list Z)) (e : animal → Z) (s : cmsys) : cmsys :=
  mkCm (NumBowls s) (b_turn s) (b_waiting s) (num_eating s) (counter s) (CatMouseWait s) b e (animals s) (to_finish s).
Definition set_animals (l : list (animal * place)) (s : cmsys) : cmsys :=
  mkCm (NumBowls s) (b_turn s) (b_waiting s) (num_eating s) (counter s) (CatMouseWait s) (bowls s) (eating_count s) l (to_finish s).

(** ** bowls.c *)
Definition dish (k : animal) : Z := match k with Cat => 99 | Mouse => 109 end.
Definition nobody : Z := 45.
(** [sem_create] *)
Definition sem_made : K cmsys bool :=
  ok <- kmalloc_ok;
  if negb ok then ret false else kmalloc_ok.
Definition initialize_bowls (bowlcount : Z) : K cmsys Z :=
  if bowlcount =? 0 then ret 1
  else
    ok <- kmalloc_ok;
    if negb ok then panic
    else
      _ <- modify (set_bowls (Some (replicate (Z.to_nat bowlcount) nobody)) (λ _, 0));
      ok <- sem_made;
      if negb ok then panic
      else ret 0.
Definition cleanup_bowls : K cmsys unit := modify (λ s, set_bowls None (eating_count s) s).
Definition get_bowl (bowlnumber : Z) : K cmsys Z := s <- kget; b <- deref (bowls s); deref (zlookup b (bowlnumber - 1)).
Definition put_bowl (bowlnumber : Z) (c : Z) (k : animal) (n : Z) : K cmsys unit :=
  modify (λ s, set_bowls (<[Z.to_nat (bowlnumber - 1) := c]> <$> bowls s) (set_of (eating_count s) k n) s).
(** [cat_eat] and [mouse_eat] up to the [clocksleep], *)
Definition eat_start (k : animal) (bowlnumber : Z) : K cmsys unit :=
  s <- kget;
  if (bowlnumber =? 0) || (NumBowls s <? s32 bowlnumber) then panic
  else
    b <- get_bowl bowlnumber;
    if b =? dish k then panic
    else if 0 <? eating_count s (rival k) then panic
    else
      _ <- kassert (b =? nobody);
      _ <- kassert (eating_count s (rival k) =? 0);
      put_bowl bowlnumber (dish k) k (s32 (eating_count s k + 1)).
(** and from there on *)
Definition eat_finish (k : animal) (bowlnumber : Z) : K cmsys unit :=
  s <- kget;
  _ <- kassert (0 <? eating_count s k);
  b <- get_bowl bowlnumber;
  _ <- kassert (b =? dish k);
  put_bowl bowlnumber nobody k (s32 (eating_count s k - 1)).

(** ** catmouse.c *)
(** The first section with the lock, from the test of the loop on: the bowl,
    or [None] when the animal has to wait *)
Definition enter (k : animal) : K cmsys (option Z) :=
  s <- kget;
  if (num_eating s =? NumBowls s) || negb (b_turn s (rival k) =? 0) then
    _ <- modify (set_waiting k 1);
    ret None
  else
    _ <- modify (set_turn k 1);
    let bowl := s32 (num_eating s + 1) in
    _ <- kassert (bowl <=? NumBowls s);
    let c := s32 (counter s + 1) in
    _ <- kassert (c <=? NumBowls s);
    _ <- modify (set_eating bowl c);
    ret (Some bowl).
(** [cv_broadcast(cv_cat_turn, mutex)] *)
Definition rouse (k : animal) (a : animal * place) : animal * place :=
  match a with
  | (j, Queued n) => if decide (j = k) then (j, Woken n) else a
  | _ => a
  end.
Definition broadcast (k : animal) : K cmsys unit := modify (λ s, set_animals (rouse k <$> animals s) s).
(** The second section with the lock *)
Definition leave (k : animal) : K cmsys unit :=
  s <- kget;
  let c := s32 (counter s - 1) in
  _ <- kassert (0 <=? c);
  if c =? 0 then
    _ <- modify (set_eating 0 c);
    _ <- modify (set_turn k 0);
    if negb (b_waiting s (rival k) =? 0) then
      _ <- broadcast (rival k);
      modify (set_waiting (rival k) 0)
    else broadcast k
  else modify (set_eating (num_eating s) c).
(** The end of a round *)
Definition next_round (n : nat) : K cmsys place :=
  match n with
  | Datatypes.S (Datatypes.S n') => ret (Asleep (Datatypes.S n'))
  | _ => _ <- modify (λ s, set_sem (CatMouseWait s + 1) (to_finish s) s); ret Over
  end.
(** What a thread does next: [None] when it sleeps or has ended *)
Definition simulation (k : animal) (a : place) : option (K cmsys place) :=
  match a with
  | Asleep n | Woken n =>
      Some (bowl <- enter k; match bowl with None => ret (Gap n) | Some b => ret (Served n b) end)
  | Gap n => Some (ret (Queued n))
  | Served n b => Some (_ <- eat_start k b; ret (Eating n b))
  | Eating n b => Some (_ <- eat_finish k b; ret (Sated n b))
  | Sated n b => Some (_ <- leave k; next_round n)
  | Queued _ | Over => None
  end.
(** One step of the [i]th animal *)
Definition animal_step (i : nat) (s : cmsys) : option (outcome cmsys) :=
  '(k, a) ← animals s !! i;
  m ← simulation k a;
  Some match m s [] with
       | Done (a', s', _) => Done (set_animals (<[i := (k, a')]> (animals s')) s')
       | Halt e => Halt e
       end.
(** and of [catmouse], which waits for the animals and then cleans up *)
Definition main_step (s : cmsys) : option (outcome cmsys) :=
  if bool_decide (bowls s = None) then None
  else if to_finish s <=? 0 then
    Some match cleanup_bowls s [] with Done (_, s', _) => Done s' | Halt e => Halt e end
  else if CatMouseWait s =? 0 then None
  else Some (Done (set_sem (CatMouseWait s - 1) (to_finish s - 1) s)).
(** The flags and counters keep the values they have. *)
Definition cm_start (bowls cats mice loops : Z) (s : cmsys) : cmsys :=
  mkCm bowls (b_turn s) (b_waiting s) (num_eating s) (counter s) 0 None (eating_count s)
    (replicate (Z.to_nat cats) (Cat, Asleep (Z.to_nat loops)) ++ replicate (Z.to_nat mice) (Mouse, Asleep (Z.to_nat loops))) (s32 (cats + mice)).
(** [n] calls of [thread_fork], which fail for want of memory *)
Fixpoint fork_all (n : nat) : K cmsys unit :=
  match n with
  | O => ret tt
  | Datatypes.S n' =>
      ok <- kmalloc_ok;
      if negb ok then panic else fork_all n'
  end.
(** [catmouse] up to the creation of the threads: its result when it does not
    get there.  The lock and the condition variables, for which there is no
    test, are taken to have been created. *)
Definition catmouse (args : list (list Z)) : K cmsys (option Z) :=
  if negb (Z.of_nat (length args) =? 5) then ret (Some 1)
  else
    a1 <- deref (args !! 1%nat); n1 <- atoi a1 0;
    if n1 <=? 0 then ret (Some 1)
    else
      a2 <- deref (args !! 2%nat); n2 <- atoi a2 0;
      if n2 <? 0 then ret (Some 1)
      else
        a3 <- deref (args !! 3%nat); n3 <- atoi a3 0;
        if n3 <? 0 then ret (Some 1)
        else
          a4 <- deref (args !! 4%nat); n4 <- atoi a4 0;
          if n4 <=? 0 then ret (Some 1)
          else
            _ <- modify (cm_start n1 n2 n3 n4);
            ok <- sem_made;
            _ <- (if negb ok then panic else ret tt);
            err <- initialize_bowls n1;
            if negb (err =? 0) then panic
            else
              _ <- fork_all (Z.to_nat n2);
              _ <- fork_all (Z.to_nat n3);
              ret None.

(** ** Counting *)
Definition count {A} (P : A → bool) (l : list A) : Z := foldr (λ x n, Z.b2z (P x) + n) 0 l.
Lemma count_nonneg {A} (P : A → bool) l : 0 ≤ count P l.
Proof. induction l as [|x l IH]; simpl; [done|]. destruct (P x); simpl; lia. Qed.
Lemma tally_insert {A} (P : A → bool) l i x y :
  l !! i = Some x → count P (<[i := y]> l) = count P l - Z.b2z (P x) + Z.b2z (P y).
Proof.
  revert i. induction l as [|z l IH]; intros i; [done|]. destruct i as [|i]; simpl; [intros [= ->]; lia|]. intros Hi. rewrite IH by done. lia.
Qed.
Lemma count_fmap {A} (P : A → bool) f l : (∀ x, P (f x) = P x) → count P (f <$> l) = count P l.
Proof. intros Hf. induction l as [|x l IH]; [done|]. change (Z.b2z (P (f x)) + count P (f <$> l) = Z.b2z (P x) + count P l). by rewrite IH, Hf. Qed.
Lemma count_mono {A} (P Q : A → bool) l : (∀ x, P x = true → Q x = true) → count P l ≤ count Q l.
Proof.
  intros HPQ. induction l as [|x l IH]; simpl; [done|]. specialize (HPQ x). destruct (P x), (Q x); simpl in *; lia.
Qed.
Lemma count_zero {A} (P : A → bool) l : (∀ i x, l !! i = Some x → P x = false) → count P l = 0.
Proof.
  induction l as [|x l IH]; simpl; [done|]. intros Hl. rewrite (Hl 0%nat x) by done. rewrite IH; [done|]. intros i y. apply (Hl (Datatypes.S i) y).
Qed.
Lemma tally_pos {A} (P : A → bool) l i x : l !! i = Some x → P x = true → 0 < count P l.
Proof.
  revert i. induction l as [|y l IH]; intros i; [done|]. pose proof (count_nonneg P l). destruct i as [|i]; simpl.
  - intros [= ->] ->. simpl. lia.
  - intros Hi HP. specialize (IH _ Hi HP). destruct (P y); simpl; lia.
Qed.
Lemma count_full {A} (P : A → bool) l : Z.of_nat (length l) ≤ count P l → ∀ i x, l !! i = Some x → P x = true.
Proof.
  intros Hl i x Hi. destruct (P x) eqn:HP; [done|]. 
  assert (count P l + count (λ y, negb (P y)) l = Z.of_nat (length l)) as Hs.
  { clear. induction l as [|y l IH]; simpl; [done|]. destruct (P y); simpl; lia. }
  pose proof (tally_pos (λ y, negb (P y)) l i x Hi) as Hp. cbn beta in Hp. rewrite HP in Hp. specialize (Hp eq_refl). lia.
Qed.

(** ** The invariant *)
Definition slot (a : place) : option Z := match a with Served _ b | Eating _ b | Sated _ b => Some b | _ => None end.
Definition busy (x : animal * place) : bool := match slot x.2 with Some _ => true | None => false end.
Definition eats (k : animal) (x : animal * place) : bool :=
  match x with (j, Eating _ _) => bool_decide (j = k) | _ => false end.
Definition over (x : animal * place) : bool := match x.2 with Over => true | _ => false end.
(** Animals at the bowls are of one kind and have distinct bowls, which have
    been given out in order; the array says who eats. *)
Record cm_ok (s : cmsys) : Prop := mkCmOk {
  co_bowls : 0 < NumBowls s < 2 ^ 31;
  co_counter : counter s = count busy (animals s);
  co_eating : counter s ≤ num_eating s ≤ NumBowls s;
  co_idle : counter s = 0 → num_eating s = 0 ∧ ∀ k, b_turn s k = 0;
  co_turn : ∀ i k a, animals s !! i = Some (k, a) → busy (k, a) = true → b_turn s k = 1 ∧ b_turn s (rival k) = 0;
  co_slot : ∀ i k a b, animals s !! i = Some (k, a) → slot a = Some b → 0 < b ≤ num_eating s;
  co_slots : ∀ i j k a k' a' b, animals s !! i = Some (k, a) → animals s !! j = Some (k', a') →
    slot a = Some b → slot a' = Some b → i = j;
  co_dish : ∀ i k n b, animals s !! i = Some (k, Eating n b) → ∃ l, bowls s = Some l ∧ zlookup l (b - 1) = Some (dish k);
  co_free : ∀ l v, bowls s = Some l → 0 < v ≤ NumBowls s → (∀ i k n, animals s !! i ≠ Some (k, Eating n v)) → zlookup l (v - 1) = Some nobody;
  co_count : ∀ k, eating_count s k = count (eats k) (animals s);
  co_over : CatMouseWait s + Z.of_nat (length (animals s)) - to_finish s = count over (animals s);
  co_wait : 0 ≤ CatMouseWait s ∧ 0 ≤ to_finish s ≤ Z.of_nat (length (animals s));
  co_gone : bowls s = None → to_finish s = 0;
}.
Lemma slot_busy k a b : slot a = Some b → busy (k, a) = true.
Proof. unfold busy. simpl. by intros ->. Qed.
Lemma rival_ne k j : j ≠ k → j = rival k.
Proof. by destruct k, j. Qed.
(** All animals at the bowls are of one kind. *)
Lemma one_kind s i j k a k' a' :
  cm_ok s → animals s !! i = Some (k, a) → busy (k, a) = true → animals s !! j = Some (k', a') → busy (k', a') = true → k' = k.
Proof.
  intros Hok Hi Ha Hj Ha'. destruct (co_turn _ Hok _ _ _ Hi Ha) as [_ H0]. destruct (co_turn _ Hok _ _ _ Hj Ha') as [H1 _].
  destruct (decide (k' = k)) as [|Hne]; [done|]. apply rival_ne in Hne as ->. lia.
Qed.
Lemma eats_busy k x : eats k x = true → busy x = true.
Proof. by destruct x as [j []]. Qed.
Lemma no_rival s i k a : cm_ok s → animals s !! i = Some (k, a) → busy (k, a) = true → eating_count s (rival k) = 0.
Proof.
  intros Hok Hi Ha. rewrite (co_count _ Hok). apply count_zero. intros j [k' a'] Hj. destruct (eats (rival k) (k', a')) eqn:He; [|done].
  pose proof (one_kind _ _ _ _ _ _ _ Hok Hi Ha Hj (eats_busy _ _ He)) as ->. destruct a'; try done. simpl in He.
  apply bool_decide_eq_true in He. by destruct k.
Qed.
(** While an animal is not at its end, the bowls are there. *)
Lemma bowls_there s i k a : cm_ok s → animals s !! i = Some (k, a) → a ≠ Over → ∃ l, bowls s = Some l.
Proof.
  intros Hok Hi Ha. destruct (bowls s) as [l|] eqn:Hb; [by exists l|]. pose proof (co_gone _ Hok Hb) as H0. pose proof (co_over _ Hok) as Ho.
  pose proof (co_wait _ Hok). pose proof (count_full over (animals s)) as Hf. specialize (Hf ltac:(lia) _ _ Hi). by destruct a.
Qed.

(** ** Steps *)
Definition move (i : nat) (k : animal) (a : place) (s : cmsys) : cmsys := set_animals (<[i := (k, a)]> (animals s)) s.
Ltac other H := apply list_lookup_insert_Some in H as [(? & ? & _)|(? & H)]; simplify_eq.
Lemma cm_ok_waiting k z s : cm_ok s → cm_ok (set_waiting k z s).
Proof. intros []. by split. Qed.
(** A thread goes on without eating or giving back its bowl. *)
Lemma cm_ok_move s i k a a' :
  cm_ok s → animals s !! i = Some (k, a) → slot a' = slot a → (∀ j, eats j (k, a') = eats j (k, a)) → over (k, a') = over (k, a) →
  cm_ok (move i k a' s).
Proof.
  intros Hok Hi Hs He Ho. assert (busy (k, a') = busy (k, a)) as Hb by (unfold busy; simpl; by rewrite Hs).
  destruct Hok. split; cbn [move set_animals NumBowls b_turn num_eating counter CatMouseWait bowls eating_count animals to_finish]; try done.
  - rewrite (tally_insert _ _ _ _ _ Hi), Hb. lia.
  - intros i' k' b Hi' Hb'. other Hi'; [|eauto]. rewrite Hb in Hb'. eauto.
  - intros i' k' b v Hi' Hv. other Hi'; [|eauto]. rewrite Hs in Hv. eauto.
  - intros i1 i2 k1 a1 k2 a2 v H1 H2 Hv1 Hv2. other H1; other H2; try done; rewrite ?Hs in *; eauto.
  - intros i' k' n b Hi'. other Hi'; [|eauto]. specialize (He k'). simpl in He. rewrite bool_decide_eq_true_2 in He by done.
    destruct a; try done. simpl in Hs. simplify_eq. eauto.
  - intros l v Hl Hv Hno. apply co_free0; [done..|]. intros i' k' n Hi'. destruct (decide (i' = i)) as [->|Hne].
    + rewrite Hi in Hi'. simplify_eq. specialize (He k'). simpl in He. rewrite (bool_decide_eq_true_2 (k' = k')) in He by done.
      destruct a'; try done. simpl in Hs. simplify_eq. eapply (Hno i k'). apply list_lookup_insert_eq. by eapply lookup_lt_Some.
    + eapply (Hno i' k'). by rewrite list_lookup_insert_ne.
  - intros j. rewrite (tally_insert _ _ _ _ _ Hi), He, co_count0. lia.
  - rewrite length_insert, (tally_insert _ _ _ _ _ Hi), Ho. lia.
  - by rewrite length_insert.
Qed.
(** Nobody looks at who has been woken up. *)
Lemma rouse_lookup k (l : list (animal * place)) (i : nat) j a : (rouse k <$> l) !! i = Some (j, a) → ∃ a', l !! i = Some (j, a') ∧ slot a' = slot a ∧ (a' = a ∨ slot a = None).
Proof.
  rewrite list_lookup_fmap, fmap_Some. intros ([j' a'] & Hi & Hr). destruct a'; simpl in Hr; try case_decide; simplify_eq; eauto 6.
Qed.
Lemma cm_ok_rouse k s : cm_ok s → cm_ok (set_animals (rouse k <$> animals s) s).
Proof.
  intros []. assert (∀ x, busy (rouse k x) = busy x ∧ (∀ j, eats j (rouse k x) = eats j x) ∧ over (rouse k x) = over x) as Hr.
  { intros [j []]; simpl; try case_decide; done. }
  split; cbn [set_animals NumBowls b_turn num_eating counter CatMouseWait bowls eating_count animals to_finish]; try done.
  - rewrite count_fmap; [done|]. intros x. apply Hr.
  - intros i j a (a' & Hi & Hs & _)%rouse_lookup Hb. apply (co_turn0 _ _ _ Hi). unfold busy in *. simpl in *. by rewrite Hs.
  - intros i j a v (a' & Hi & Hs & _)%rouse_lookup Hv. rewrite <- Hs in Hv. eauto.
  - intros i1 i2 k1 a1 k2 a2 v (? & H1 & <- & _)%rouse_lookup (? & H2 & <- & _)%rouse_lookup. eauto.
  - intros i j n v (a' & Hi & Hs & [->|?])%rouse_lookup; [eauto|done].
  - intros l v Hl Hv Hno. apply co_free0; [done..|]. intros i j n Hi. apply (Hno i j n). by rewrite list_lookup_fmap, Hi.
  - intros j. rewrite count_fmap; [done|]. intros x. apply Hr.
  - rewrite length_fmap, count_fmap; [done|]. intros x. apply Hr.
  - by rewrite length_fmap.
Qed.
Lemma move_twice i k a s : animals (move i k a s) = <[i := (k, a)]> (animals s).
Proof. done. Qed.
Ltac cm_simpl := cbn [move set_animals set_turn set_eating set_bowls set_sem NumBowls b_turn num_eating counter CatMouseWait bowls eating_count animals to_finish].
Lemma section_enter_ok s i k a n o :
  cm_ok s → animals s !! i = Some (k, a) → slot a = None → (∀ j, eats j (k, a) = false) → over (k, a) = false →
  wp (enter k) (λ r s' _, cm_ok (move i k (match r with None => Gap n | Some b => Served n b end) s')) s o.
Proof.
  intros Hok Hi Hs He Ho. pose proof (co_bowls _ Hok). pose proof (co_eating _ Hok). pose proof (co_counter _ Hok) as Hc.
  pose proof (count_nonneg busy (animals s)). unfold enter. do 2 wp_step. apply wp_if; intros Hif.
  { do 3 wp_step. eapply cm_ok_move; [by apply cm_ok_waiting|done|done|by intros; rewrite He|by rewrite Ho]. }
  apply orb_false_iff in Hif as [Hn Ht]. apply negb_false_iff in Ht. rewrite !s32_small by lia. wp_run.
  assert (busy (k, a) = false) as Hb by (unfold busy; simpl; by rewrite Hs). destruct Hok. split; cm_simpl; try lia; try done.
  - rewrite (tally_insert _ _ _ _ _ Hi), Hb. simpl. lia.
  - intros i' k' a' Hi' Hb'. unfold set_of. other Hi'.
    + rewrite decide_True by done. rewrite decide_False by by destruct k'. lia.
    + destruct (co_turn0 _ _ _ Hi' Hb') as [Ht1 Ht2]. destruct (decide (k' = k)) as [->|Hne].
      * rewrite decide_False by by destruct k. lia.
      * apply rival_ne in Hne as ->. lia.
  - intros i' k' a' v Hi' Hv. other Hi'; [simpl in Hv; simplify_eq; lia|]. pose proof (co_slot0 _ _ _ _ Hi' Hv). lia.
  - intros i1 i2 k1 a1 k2 a2 v Hl1 Hl2 Hv1 Hv2. other Hl1; other Hl2; try done; [..|eauto]; simpl in *; simplify_eq.
    + pose proof (co_slot0 _ _ _ _ Hl2 Hv2). lia.
    + pose proof (co_slot0 _ _ _ _ Hl1 Hv1). lia.
  - intros i' k' m v Hi'. other Hi'. eauto.
  - intros l v Hl Hv Hno. apply co_free0; [done..|]. intros i' k' m Hi'. destruct (decide (i' = i)) as [->|Hne].
    + rewrite Hi in Hi'. simplify_eq.
    + eapply (Hno i' k'). by rewrite list_lookup_insert_ne.
  - intros j. rewrite (tally_insert _ _ _ _ _ Hi), He, co_count0. simpl. lia.
  - rewrite length_insert, (tally_insert _ _ _ _ _ Hi), Ho. simpl. lia.
  - by rewrite length_insert.
Qed.
Lemma zlookup_set (l : list Z) v w x y :
  0 < v → 0 < w → zlookup l (w - 1) = Some y → zlookup (<[Z.to_nat (v - 1) := x]> l) (w - 1) = Some (if decide (w = v) then x else y).
Proof.
  intros Hv Hw. unfold zlookup. rewrite !decide_True by lia. intros Hl. case_decide as Hc.
  - subst. apply list_lookup_insert_eq. by eapply lookup_lt_Some.
  - rewrite list_lookup_insert_ne; [done|lia].
Qed.
(** The bowl of an animal that does not eat yet *)
Lemma bowl_free s i k a b :
  cm_ok s → animals s !! i = Some (k, a) → slot a = Some b → (∀ n, a ≠ Eating n b) →
  ∃ l, bowls s = Some l ∧ zlookup l (b - 1) = Some nobody.
Proof.
  intros Hok Hi Hs Ha. destruct (bowls_there s i k a Hok Hi) as [l Hl]; [by intros ->|]. exists l. split; [done|].
  pose proof (co_slot _ Hok _ _ _ _ Hi Hs). pose proof (co_eating _ Hok). apply (co_free _ Hok); [done|lia|].
  intros j k' n Hj. pose proof (co_slots _ Hok _ _ _ _ _ _ _ Hi Hj Hs eq_refl) as ->. rewrite Hi in Hj. simplify_eq. by eapply Ha.
Qed.
Lemma eating_bound s k : cm_ok s → 0 ≤ eating_count s k ≤ counter s.
Proof.
  intros Hok. rewrite (co_count _ Hok), (co_counter _ Hok). split; [apply count_nonneg|]. apply count_mono. apply eats_busy.
Qed.
(** The array changes at the bowl of one animal. *)
Lemma cm_ok_dish s i k a a' b l c n :
  cm_ok s → animals s !! i = Some (k, a) → slot a = Some b → slot a' = Some b → bowls s = Some l → is_Some (zlookup l (b - 1)) →
  (∀ m v, a' = Eating m v → c = dish k) → ((∀ m v, a' ≠ Eating m v) → c = nobody) →
  (∀ j, j ≠ k → eats j (k, a) = false) → (∀ j, j ≠ k → eats j (k, a') = false) →
  n = eating_count s k - Z.b2z (eats k (k, a)) + Z.b2z (eats k (k, a')) →
  cm_ok (move i k a' (set_bowls (<[Z.to_nat (b - 1) := c]> <$> bowls s) (set_of (eating_count s) k n) s)).
Proof.
  intros Hok Hi Hs Hs' Hl [y Hy] Hc Hc' He He' Hn. pose proof (co_slot _ Hok _ _ _ _ Hi Hs) as Hb. pose proof (co_slots _ Hok) as Hd.
  destruct Hok. rewrite Hl. split; cm_simpl; try done.
  - rewrite (tally_insert _ _ _ _ _ Hi), !(slot_busy _ _ b) by done. simpl. lia.
  - intros i' k' x Hi' Hb'. other Hi'; [|eauto]. eapply co_turn0; [done|]. by eapply slot_busy.
  - intros i' k' x v Hi' Hv. other Hi'; [|eauto]. simplify_eq. eauto.
  - intros i1 i2 k1 a1 k2 a2 v Hl1 Hl2 Hv1 Hv2. other Hl1; other Hl2; try done; [..|eauto]; simplify_eq; eauto.
  - intros i' k' m v Hi'. eexists. split; [done|]. other Hi'.
    + simpl in Hs'. simplify_eq. rewrite (Hc m b eq_refl). rewrite (zlookup_set _ _ _ _ y) by (done || lia). by rewrite decide_True.
    + destruct (co_dish0 _ _ _ _ Hi') as (? & ? & Hv). simplify_eq. pose proof (co_slot0 _ _ _ _ Hi' eq_refl).
      rewrite (zlookup_set _ _ _ _ (dish k')) by (done || lia). rewrite decide_False; [done|]. intros ->. pose proof (Hd _ _ _ _ _ _ _ Hi Hi' Hs eq_refl). congruence.
  - intros l' v [= <-] Hv Hno. assert (Hlt : (i < length (animals s))%nat) by by eapply lookup_lt_Some.
    destruct (decide (v = b)) as [->|Hne].
    + rewrite (zlookup_set _ _ _ _ y) by (done || lia). rewrite decide_True by done. f_equal. apply Hc'. intros m v ->. simpl in Hs'. simplify_eq.
      eapply (Hno i k m). by apply list_lookup_insert_eq.
    + rewrite (zlookup_set _ _ _ _ nobody); [by rewrite decide_False|lia|lia|]. apply co_free0; [done..|]. intros i' k' m Hi'.
      destruct (decide (i' = i)) as [->|]; [|apply (Hno i' k' m); by rewrite list_lookup_insert_ne].
      rewrite Hi in Hi'. simplify_eq. simpl in Hs. congruence.
  - intros j. rewrite (tally_insert _ _ _ _ _ Hi). unfold set_of. case_decide as Hj; [subst; rewrite <- co_count0; lia|].
    rewrite He, He', <- co_count0 by done. simpl. lia.
  - rewrite length_insert, (tally_insert _ _ _ _ _ Hi). assert (over (k, a) = false ∧ over (k, a') = false) as [-> ->]; [|simpl; lia].
    by destruct a, a'.
  - by rewrite length_insert.
Qed.
Lemma served_bound s i k n b : cm_ok s → animals s !! i = Some (k, Served n b) → eating_count s k < counter s.
Proof.
  intros Hok Hi. rewrite (co_count _ Hok), (co_counter _ Hok). pose proof (count_mono (eats k) busy (<[i := (k, Over)]> (animals s)) (eats_busy k)) as Hm.
  rewrite !(tally_insert _ _ _ _ _ Hi) in Hm. simpl in Hm. lia.
Qed.
Lemma eat_start_ok s i k n b o :
  cm_ok s → animals s !! i = Some (k, Served n b) → wp (eat_start k b) (λ _ s' _, cm_ok (move i k (Eating n b) s')) s o.
Proof.
  intros Hok Hi. pose proof (co_bowls _ Hok). pose proof (co_eating _ Hok). pose proof (co_slot _ Hok _ _ _ _ Hi eq_refl).
  pose proof (eating_bound s k Hok). pose proof (served_bound _ _ _ _ _ Hok Hi). pose proof (no_rival _ _ _ _ Hok Hi eq_refl) as Hr.
  destruct (bowl_free _ _ _ _ _ Hok Hi eq_refl) as (l & Hl & Hb); [done|]. unfold eat_start, get_bowl. do 2 wp_step.
  rewrite (s32_small b) by lia. rewrite (proj2 (Z.eqb_neq b 0)), (proj2 (Z.ltb_ge _ b)) by lia. wp_cond. wp_run. rewrite Hl. wp_run.
  rewrite Hb, Hr. wp_run. replace (nobody =? dish k) with false by by destruct k. wp_cond. unfold put_bowl. wp_run. rewrite s32_small by lia.
  eapply cm_ok_dish; try done.
  - intros Hn. exfalso. by apply (Hn n b).
  - simpl. intros j Hj. by rewrite bool_decide_eq_false_2.
  - simpl. rewrite bool_decide_eq_true_2 by done. simpl. lia.
Qed.
Lemma eat_finish_ok s i k n b o :
  cm_ok s → animals s !! i = Some (k, Eating n b) → wp (eat_finish k b) (λ _ s' _, cm_ok (move i k (Sated n b) s')) s o.
Proof.
  intros Hok Hi. pose proof (co_bowls _ Hok). pose proof (co_eating _ Hok). pose proof (eating_bound s k Hok).
  assert (0 < eating_count s k) as Hpos.
  { rewrite (co_count _ Hok). eapply tally_pos; [done|]. simpl. by apply bool_decide_eq_true. }
  destruct (co_dish _ Hok _ _ _ _ Hi) as (l & Hl & Hb). unfold eat_finish, get_bowl. wp_run. rewrite Hl. wp_run. rewrite Hb. wp_run.
  rewrite s32_small by lia. eapply cm_ok_dish; try done.
  - simpl. intros j Hj. by rewrite bool_decide_eq_false_2.
  - simpl. rewrite bool_decide_eq_true_2 by done. simpl. lia.
Qed.
Definition left_state (k : animal) (s : cmsys) : cmsys :=
  if counter s - 1 =? 0 then set_turn k 0 (set_eating 0 (counter s - 1) s) else set_eating (num_eating s) (counter s - 1) s.
(** An animal gives back its bowl and goes to [a']. *)
Lemma cm_ok_leave s i k a b a' :
  cm_ok s → animals s !! i = Some (k, a) → slot a = Some b → (∀ j, eats j (k, a) = false) → slot a' = None →
  cm_ok (move i k a' (set_sem (CatMouseWait s + Z.b2z (over (k, a'))) (to_finish s) (left_state k s))).
Proof.
  intros Hok Hi Hs He Hs'. pose proof (count_nonneg busy (animals s)). pose proof (slot_busy k _ _ Hs) as Hb.
  assert (busy (k, a') = false) as Hb' by (unfold busy; simpl; by rewrite Hs'). assert (∀ j, eats j (k, a') = false) as He' by by destruct a'.
  assert (over (k, a) = false) as Ho by by destruct a. pose proof (tally_pos busy _ _ _ Hi Hb).
  assert (counter s - 1 = count busy (<[i := (k, a')]> (animals s))) as Hc.
  { rewrite (tally_insert _ _ _ _ _ Hi), Hb, Hb', (co_counter _ Hok). simpl. lia. }
  assert (counter s - 1 = 0 → ∀ j k' x, <[i := (k, a')]> (animals s) !! j = Some (k', x) → busy (k', x) = false) as Hz.
  { intros Hn0 j k' x Hj. destruct (busy (k', x)) eqn:Hbx; [|done]. pose proof (tally_pos busy _ _ _ Hj Hbx). lia. }
  pose proof (one_kind s) as Hone. pose proof Hok as []. unfold left_state. destruct (Z.eqb_spec (counter s - 1) 0) as [Hn0|Hn0]; split; cm_simpl; try done; try lia.
  all: try (intros l v Hl Hv Hno; apply co_free0; [done..|]; intros i' k' m Hi'; destruct (decide (i' = i)) as [->|];
            [rewrite Hi in Hi'; simplify_eq; specialize (He k'); simpl in He; by rewrite bool_decide_eq_true_2 in He
            |apply (Hno i' k' m); by rewrite list_lookup_insert_ne]).
  all: try (rewrite length_insert; destruct (over (k, a')); simpl; lia).
  all: try (rewrite length_insert, (tally_insert _ _ _ _ _ Hi), Ho; simpl; lia).
  all: try (intros j; rewrite (tally_insert _ _ _ _ _ Hi), He, He', co_count0; simpl; lia).
  all: try (intros i' k' m v Hi'; other Hi'; [..|eauto]; done).
  - intros _. split; [done|]. intros j. unfold set_of. case_decide as Hj; [done|]. apply rival_ne in Hj as ->. by eapply co_turn0.
  - intros i' k' x Hi' Hbx. by rewrite (Hz Hn0 _ _ _ Hi') in Hbx.
  - intros i' k' x v Hi' Hv. pose proof (Hz Hn0 _ _ _ Hi') as Hbx. by rewrite (slot_busy _ _ _ Hv) in Hbx.
  - intros i1 i2 k1 a1 k2 a2 v Hl1 _ Hv1. pose proof (Hz Hn0 _ _ _ Hl1) as Hbx. by rewrite (slot_busy _ _ _ Hv1) in Hbx.
  - intros i' k' x Hi' Hbx. other Hi'; eauto.
  - intros i' k' x v Hi' Hv. other Hi'; eauto.
  - intros i1 i2 k1 a1 k2 a2 v Hl1 Hl2 Hv1 Hv2. other Hl1; other Hl2; eauto.
Qed.
Lemma rouse_move j i k a s :
  (∀ n, a ≠ Queued n) → move i k a (set_animals (rouse j <$> animals s) s) = set_animals (rouse j <$> animals (move i k a s)) (move i k a s).
Proof.
  intros Ha. unfold move, set_animals. f_equal. cbn [animals]. rewrite list_fmap_insert. f_equal. destruct a; try done. by destruct (Ha n).
Qed.
Lemma section_leave_ok s i k n b o :
  cm_ok s → animals s !! i = Some (k, Sated n b) →
  wp (leave k) (λ _ s' _, ∀ a, slot a = None → (∀ m, a ≠ Queued m) →
    cm_ok (move i k a (set_sem (CatMouseWait s' + Z.b2z (over (k, a))) (to_finish s') s'))) s o.
Proof.
  intros Hok Hi. pose proof (co_bowls _ Hok). pose proof (co_eating _ Hok). pose proof (co_counter _ Hok). pose proof (tally_pos busy _ _ _ Hi eq_refl).
  assert (∀ a, slot a = None → cm_ok (move i k a (set_sem (CatMouseWait s + Z.b2z (over (k, a))) (to_finish s) (left_state k s)))) as Hl.
  { intros a Ha. by eapply cm_ok_leave. }
  unfold left_state in Hl. unfold leave, broadcast. do 2 wp_step. rewrite s32_small by lia. wp_run. destruct (counter s - 1 =? 0) eqn:Hc; wp_run; [|auto].
  apply wp_if; intros _; wp_run; intros a Ha Hq; specialize (Hl a Ha).
  - apply cm_ok_rouse with (k := rival k) in Hl. rewrite <- rouse_move in Hl by done. by apply cm_ok_waiting with (k := rival k) (z := 0) in Hl.
  - apply cm_ok_rouse with (k := k) in Hl. rewrite <- rouse_move in Hl by done. exact Hl.
Qed.
(** ** Runs *)
Inductive cm_reach (s : cmsys) : cmsys → Prop :=
| reach_start : cm_reach s s
| reach_animal i s1 s2 : cm_reach s s1 → animal_step i s1 = Some (Done s2) → cm_reach s s2
| reach_main s1 s2 : cm_reach s s1 → main_step s1 = Some (Done s2) → cm_reach s s2.
Lemma animal_step_ok i s r : cm_ok s → animal_step i s = Some r → ∃ s', r = Done s' ∧ cm_ok s'.
Proof.
  intros Hok. unfold animal_step. destruct (animals s !! i) as [[k a]|] eqn:Hi; [|done]. simpl. destruct (simulation k a) as [m|] eqn:Hm; [|done].
  simpl. intros [= <-]. assert (wp m (λ a' s' _, cm_ok (move i k a' s')) s []) as Hw; [|unfold wp in Hw; destruct (m s []) as [[[]]|]; by eauto].
  destruct a; simpl in Hm; simplify_eq; wp_step.
  - wp_call section_enter_ok; [done..|]. intros [b|] s' o' Hs'; by wp_step.
  - by eapply cm_ok_move.
  - wp_call section_enter_ok; [done..|]. intros [b|] s' o' Hs'; by wp_step.
  - wp_call eat_start_ok; [done..|]. intros _ s' o' Hs'. by wp_step.
  - wp_call eat_finish_ok; [done..|]. intros _ s' o' Hs'. by wp_step.
  - wp_call section_leave_ok; [done..|]. intros _ s' o' Hs'. unfold next_round. destruct n as [|[|n]]; wp_run; try by apply (Hs' Over).
    specialize (Hs' (Asleep (Datatypes.S n)) eq_refl ltac:(done)). simpl in Hs'. rewrite Z.add_0_r in Hs'. by destruct s'.
Qed.
Lemma main_step_ok s r : cm_ok s → main_step s = Some r → ∃ s', r = Done s' ∧ cm_ok s'.
Proof.
  intros Hok. unfold main_step. case_bool_decide as Hb; [done|]. pose proof Hok as [].
  destruct (Z.leb_spec (to_finish s) 0) as [H0|H0]; [|destruct (Z.eqb_spec (CatMouseWait s) 0); [done|]]; intros [= <-]; eexists; (split; [done|]).
  - split; cm_simpl; try done; try lia. intros i k m b Hi.
    assert (over (k, Eating m b) = true) by (eapply count_full; [|done]; lia). done.
  - split; cm_simpl; try done; try lia.
Qed.
Lemma cm_reach_ok s s' : cm_ok s → cm_reach s s' → cm_ok s'.
Proof.
  intros Hok. induction 1 as [|i s1 s2 _ IH Hs|s1 s2 _ IH Hs]; [done|..].
  - destruct (animal_step_ok _ _ _ IH Hs) as (? & [= ->] & ?). done.
  - destruct (main_step_ok _ _ IH Hs) as (? & [= ->] & ?). done.
Qed.
(** Nobody eats: so it is at the start, and between two simulations. *)
Definition cm_idle (s : cmsys) : Prop := num_eating s = 0 ∧ counter s = 0 ∧ ∀ k, b_turn s k = 0.
Definition cm_boot : cmsys := mkCm 0 (λ _, 0) (λ _, 0) 0 0 0 None (λ _, 0) [] 0.
Lemma all_gone s : cm_ok s → bowls s = None → cm_idle s.
Proof.
  intros Hok Hb. pose proof (co_gone _ Hok Hb) as H0. pose proof (co_over _ Hok) as Ho. pose proof (co_wait _ Hok).
  assert (counter s = 0) as Hc.
  { rewrite (co_counter _ Hok). apply count_zero. intros i [k a] Hi. pose proof (count_full over (animals s) ltac:(lia) _ _ Hi). by destruct a. }
  destruct (co_idle _ Hok Hc). by split_and!.
Qed.
(** The state in which [catmouse] starts the threads *)
Definition started (bowls cats mice loops : Z) (s : cmsys) : cmsys :=
  set_bowls (Some (replicate (Z.to_nat bowls) nobody)) (λ _, 0) (cm_start bowls cats mice loops s).
Lemma start_asleep bowls cats mice loops s i k a :
  animals (started bowls cats mice loops s) !! i = Some (k, a) → a = Asleep (Z.to_nat loops).
Proof.
  simpl. rewrite lookup_app_Some, !lookup_replicate. naive_solver.
Qed.
Lemma started_length bowls cats mice loops s :
  0 ≤ cats → 0 ≤ mice → Z.of_nat (length (animals (started bowls cats mice loops s))) = cats + mice.
Proof. intros. simpl. rewrite length_app, !length_replicate. lia. Qed.
Lemma started_ok bowls cats mice loops s :
  cm_idle s → 0 < bowls < 2 ^ 31 → 0 ≤ cats → 0 ≤ mice → cats + mice < 2 ^ 31 → cm_ok (started bowls cats mice loops s).
Proof.
  intros (Hi0 & Hi1 & Hi2) Hb Hc Hm Hcm. pose proof (start_asleep bowls cats mice loops s) as Ha.
  assert (∀ P, (∀ k n, P (k, Asleep n) = false) → count P (animals (started bowls cats mice loops s)) = 0) as Hz.
  { intros P HP. apply count_zero. intros i [k a] Hi. by rewrite (Ha _ _ _ Hi). }
  pose proof (started_length bowls cats mice loops s Hc Hm) as Hlen. assert (to_finish (started bowls cats mice loops s) = cats + mice) as Ht.
  { simpl. apply s32_small. lia. }
  split; try done; try (cbn; lia).
  - rewrite Hz by done. exact Hi1.
  - intros i k a Hi. rewrite (Ha _ _ _ Hi). done.
  - intros i k a b Hi. rewrite (Ha _ _ _ Hi). done.
  - intros i j k a k' a' b Hi. rewrite (Ha _ _ _ Hi). done.
  - intros i k n b Hi. apply Ha in Hi. done.
  - intros l v [= <-] Hv _. simpl in Hv. apply zlookup_Some. split; [lia|]. apply lookup_replicate. split; [done|lia].
  - intros k. by rewrite Hz.
  - rewrite Hz, Hlen, Ht by done. cbn. lia.
  - rewrite Hlen, Ht. cbn. lia.
Qed.
Lemma run_bind {S A B} (m : K S A) (f : A → K S B) s o r :
  bind m f s o = Done r → ∃ a s' o', m s o = Done (a, s', o') ∧ f a s' o' = Done r.
Proof. unfold bind. destruct (m s o) as [[[a s'] o']|]; [|done]. eauto 6. Qed.
Lemma atoi_int {S} a off (s : S) o z s' o' : atoi a off s o = Done (z, s', o') → - 2 ^ 31 ≤ z < 2 ^ 31.
Proof.
  unfold atoi. intros (? & ? & ? & _ & (? & ? & ? & _ & (? & ? & ? & _ & [= <- _ _])%run_bind)%run_bind)%run_bind. apply s32_bound.
Qed.
(** Code that does not change the state *)
Definition keeps {S A} (m : K S A) : Prop := ∀ s o a s' o', m s o = Done (a, s', o') → s' = s.
Lemma keeps_bind {S A B} (m : K S A) (f : A → K S B) : keeps m → (∀ a, keeps (f a)) → keeps (bind m f).
Proof. intros Hm Hf s o a s' o' (b & s1 & o1 & H1 & H2)%run_bind. by rewrite (Hf _ _ _ _ _ _ H2), (Hm _ _ _ _ _ H1). Qed.
Lemma keeps_ret {S A} (a : A) : keeps (S := S) (ret a).
Proof. by intros s o a' s' o' [= _ <- _]. Qed.
Lemma keeps_halt {S A} e : keeps (S := S) (A := A) (halt e).
Proof. done. Qed.
Lemma keeps_deref {S A} (x : option A) : keeps (S := S) (deref x).
Proof. destruct x; [apply keeps_ret|apply keeps_halt]. Qed.
Lemma keeps_kmalloc {S} : keeps (S := S) kmalloc_ok.
Proof. intros s [|b o] a s' o'; by intros [= _ <- _]. Qed.
Ltac keep := repeat first [apply keeps_ret | apply keeps_halt | apply keeps_deref | apply keeps_kmalloc | apply keeps_bind; [|intros ?] | done | case_match].
Lemma keeps_strchr {S} n s off c : keeps (S := S) (strchr_loop n s off c).
Proof. revert off. induction n as [|n IH]; intros off; simpl; keep; apply IH. Qed.
Lemma keeps_blanks {S} n s off : keeps (S := S) (skip_blanks n s off).
Proof. revert off. induction n as [|n IH]; intros off; simpl; keep; apply IH. Qed.
Lemma keeps_digits {S} n s off val : keeps (S := S) (atoi_loop n s off val).
Proof. revert off val. induction n as [|n IH]; intros off val; simpl; keep; first [apply IH | apply keeps_strchr]. Qed.
Lemma keeps_atoi {S} s off : keeps (S := S) (atoi s off).
Proof. unfold atoi. keep; first [apply keeps_blanks | apply keeps_digits]. Qed.
Lemma keeps_fork_all n : keeps (fork_all n).
Proof. induction n as [|n IH]; simpl; keep; apply IH. Qed.
Lemma initialize_bowls_done n s o r s' o' :
  0 < n → initialize_bowls n s o = Done (r, s', o') → s' = set_bowls (Some (replicate (Z.to_nat n) nobody)) (λ _, 0) s ∧ r = 0.
Proof.
  intros Hn. unfold initialize_bowls, sem_made. rewrite (proj2 (Z.eqb_neq n 0)) by lia.
  destruct o as [|[] [|[] [|[] ?]]]; cbn; try done; unfold ret; intros [= <- <- _]; done.
Qed.
Lemma catmouse_starts args s o s' o' :
  catmouse args s o = Done (None, s', o') →
  ∃ bowls cats mice loops, s' = started bowls cats mice loops s ∧ 0 < bowls < 2 ^ 31 ∧ 0 ≤ cats ∧ 0 ≤ mice.
Proof.
  unfold catmouse. case_match; [done|]. intros (a1 & s1 & o1 & ->%keeps_deref & (n1 & s2 & o2 & Hn1 & Hr1)%run_bind)%run_bind.
  pose proof (atoi_int _ _ _ _ _ _ _ Hn1). apply keeps_atoi in Hn1 as ->. destruct (Z.leb_spec n1 0); [done|].
  apply run_bind in Hr1 as (a2 & s3 & o3 & ->%keeps_deref & (n2 & s4 & o4 & ->%keeps_atoi & Hr2)%run_bind). destruct (Z.ltb_spec n2 0); [done|].
  apply run_bind in Hr2 as (a3 & s5 & o5 & ->%keeps_deref & (n3 & s6 & o6 & ->%keeps_atoi & Hr3)%run_bind). destruct (Z.ltb_spec n3 0); [done|].
  apply run_bind in Hr3 as (a4 & s7 & o7 & ->%keeps_deref & (n4 & s8 & o8 & ->%keeps_atoi & Hr4)%run_bind). destruct (Z.leb_spec n4 0); [done|].
  exists n1, n2, n3, n4. split; [|lia]. apply run_bind in Hr4 as ([] & s9 & o9 & [= <- _] & (ok & sa & oa & Hsem & Hr5)%run_bind).
  assert (sa = cm_start n1 n2 n3 n4 s) as -> by (revert Hsem; unfold sem_made; by apply keeps_bind; [|intros ?]; keep).
  destruct ok; [|done]. apply run_bind in Hr5 as ([] & sb & ob & [= <- _] & (err & sc & oc & [-> ->]%initialize_bowls_done & Hr6)%run_bind); [|done].
  simpl in Hr6. apply run_bind in Hr6 as ([] & sd & od & ->%keeps_fork_all & ([] & se & oe & ->%keeps_fork_all & [= <- _])%run_bind). done.
Qed.
(** C6: Cats and mice share the bowls as they should.  However the threads
    that [catmouse] has started run, no panic and no failed assertion of
    catmouse.c or bowls.c is reached, also not after the bowls are gone; a cat
    and a mouse never eat at the same time, two animals never from the same
    bowl, and not more than there are bowls.  When [catmouse] is over, the
    variables are such that it can be called again. *)
Theorem catmouse_safe (args : list (list Z)) (s0 s1 s : cmsys) (o o1 : oracle) :
  cm_idle s0 → catmouse args s0 o = Done (None, s1, o1) → Z.of_nat (length (animals s1)) < 2 ^ 31 → cm_reach s1 s →
  (∀ i e, animal_step i s ≠ Some (Halt e)) ∧ (∀ e, main_step s ≠ Some (Halt e)) ∧
  (∀ i j k n b k' n' b', animals s !! i = Some (k, Eating n b) → animals s !! j = Some (k', Eating n' b') → i ≠ j → k = k' ∧ b ≠ b') ∧
  count (eats Cat) (animals s) + count (eats Mouse) (animals s) ≤ NumBowls s ∧
  (bowls s = None → cm_idle s).
Proof.
  intros Hidle (bowls & cats & mice & loops & -> & Hb & Hc & Hm)%catmouse_starts Hlen Hr. rewrite started_length in Hlen by done.
  pose proof (cm_reach_ok _ _ (started_ok _ _ _ loops s0 Hidle Hb Hc Hm Hlen) Hr) as Hok. split_and!.
  - intros i e He. by destruct (animal_step_ok _ _ _ Hok He) as (? & ? & _).
  - intros e He. by destruct (main_step_ok _ _ Hok He) as (? & ? & _).
  - intros i j k n b k' n' b' Hi Hj Hne. split; [symmetry; by eapply (one_kind s i j)|]. intros ->. by eapply Hne, (co_slots _ Hok).
  - assert (∀ l, (∀ k, count (eats k) l + count (eats (rival k)) l ≤ count busy l)) as Hl.
    { intros l k. induction l as [|[j []] l IH]; simpl; try lia. destruct j, k; simpl in *; lia. }
    pose proof (Hl (animals s) Cat) as Hle. pose proof (co_counter _ Hok). pose proof (co_eating _ Hok). simpl in Hle. lia.
  - by apply all_gone.
Qed.
(** [1a 2 3 3 1] *)
Lemma catmouse_safe_witness :
  (∀ i e, animal_step i (started 2 3 3 1 cm_boot) ≠ Some (Halt e)) ∧ (∀ e, main_step (started 2 3 3 1 cm_boot) ≠ Some (Halt e)).
Proof.
  destruct (catmouse_safe [[49; 97; 0]; [50; 0]; [51; 0]; [51; 0]; [49; 0]] cm_boot (started 2 3 3 1 cm_boot) (started 2 3 3 1 cm_boot) [] [])
    as (Ha & Hb & _); [done|by vm_compute|done|constructor|]. by split.
Defined.

(** ** A run that does not end *)
(** The steps of the animals of a list, and of [catmouse] for [None] *)
Fixpoint cm_run (l : list (option nat)) (s : cmsys) : option cmsys :=
  match l with
  | [] => Some s
  | x :: l =>
      match match x with Some i => animal_step i s | None => main_step s end with
      | Some (Done s') => cm_run l s'
      | _ => None
      end
  end.
Lemma cm_run_reach l s0 s s' : cm_reach s0 s → cm_run l s = Some s' → cm_reach s0 s'.
Proof.
  revert s. induction l as [|x l IH]; intros s Hr; simpl; [by intros [= ->]|].
  destruct x as [i|]; [destruct (animal_step i s) as [[s1|]|] eqn:Hs|destruct (main_step s) as [[s1|]|] eqn:Hs]; try done; apply IH.
  - by eapply reach_animal.
  - by eapply reach_main.
Qed.
(** No thread can go on. *)
Definition stuck (s : cmsys) : Prop := (∀ i, animal_step i s = None) ∧ main_step s = None.
(** One bowl; the two mice eat, one after the other, then the two cats. *)
Definition meals : list (option nat) :=
  Some <$> [2; 3; 3; 2; 2; 2; 3; 3; 3; 3; 0; 1; 1; 0; 0; 0]%nat.
Definition last_state : cmsys := default (started 1 2 2 1 cm_boot) (cm_run (meals ++ [None; None; None]) (started 1 2 2 1 cm_boot)).
(** C37: [b_mouse_waiting] stays set when the mice wake up each other, so the
    last cat that eats wakes up the mice, although there are none, and not the
    cat that waits: the cat sleeps for ever, and [catmouse] with it.  Every
    [cv_wait] of this run is atomic. *)
Theorem catmouse_deadlock : ∃ s, cm_reach (started 1 2 2 1 cm_boot) s ∧ stuck s ∧ to_finish s = 1 ∧ animals s !! 1%nat = Some (Cat, Queued 1).
Proof.
  exists last_state. split; [|split; [split|done]].
  - eapply (cm_run_reach (meals ++ [None; None; None]) _ (started 1 2 2 1 cm_boot)); [constructor|]. unfold last_state.
    destruct (cm_run (meals ++ [None; None; None]) (started 1 2 2 1 cm_boot)) eqn:He; [done|]. vm_compute in He. done.
  - intros i. destruct i as [|[|[|[|i]]]]; by vm_compute.
  - by vm_compute.
Qed.
