(* ===== verification/Exec.v ===== *)
(** * Programs: loadelf.c, runprogram.c and sysexecv.c of src/kern/userprog

    An executable is read into the address space of the current thread, the
    arguments are laid out on the user stack, and the thread goes to user mode.
    [ex_vm] is the memory and the files of the paging code, [ex_mach] memory as
    [copyin] and [copyout] see it, with the user addresses of the new process.
    What [md_usermode] is called with is the result of a call that succeeds. *)
From S2P Require Import Prelude Memory Copyinout Uio Coremap Kheap Request SfsFormat Vm.

(** ** Executables *)
Definition EHDR_SIZE : Z := 52.
Definition PHDR_SIZE : Z := 32.
Definition ELFMAG : list Z := [0x7f; 69; 76; 70].
Definition ELFCLASS32 : Z := 1.
Definition ELFDATA2MSB : Z := 2.
Definition EV_CURRENT : Z := 1.
Definition ET_EXEC : Z := 2.
Definition EM_MACHINE : Z := 8.
Definition PT_NULL : Z := 0.
Definition PT_LOAD : Z := 1.
Definition PT_PHDR : Z := 6.
Definition PT_MIPS_REGINFO : Z := 0x70000000.
Definition PF_R : Z := 4.
Definition PF_W : Z := 2.
Definition PF_X : Z := 1.
(** The fields that are read *)
Record Elf_Ehdr : Type := mkEhdr {
  e_ident : list Z;
  e_type : Z;
  e_machine : Z;
  e_version : Z;
  e_entry : Z;
  e_phoff : Z;
  e_phentsize : Z;
  e_phnum : Z;
}.
Record Elf_Phdr : Type := mkPhdr {
  p_type : Z;
  p_offset : Z;
  p_vaddr : Z;
  p_filesz : Z;
  p_memsz : Z;
  p_flags : Z;
}.
Definition field (b : list Z) (off n : nat) : Z := be_value (take n (drop off b)).
Definition decode_ehdr (b : list Z) : Elf_Ehdr :=
  mkEhdr (take 16 b) (field b 16 2) (field b 18 2) (field b 20 4) (field b 24 4) (field b 28 4) (field b 42 2) (field b 44 2).
Definition decode_phdr (b : list Z) : Elf_Phdr :=
  mkPhdr (field b 0 4) (field b 4 4) (field b 8 4) (field b 16 4) (field b 20 4) (field b 24 4).
(** The test of the header *)
Definition elf_bad (eh : Elf_Ehdr) : bool :=
  negb (bool_decide (take 7 (e_ident eh) = ELFMAG ++ [ELFCLASS32; ELFDATA2MSB; EV_CURRENT])) ||
  negb (e_version eh =? EV_CURRENT) || negb (e_type eh =? ET_EXEC) || negb (e_machine eh =? EM_MACHINE).

Section LoadElf.
  Context {D : Type} `{!VfsIo D} (zeros : Z).
  Abbreviation vm := (vmsys D).

(** [mk_kuio(&ku, &x, sizeof(x), off, UIO_READ); result = VOP_READ(v, &ku)]:
    the result, [ku.uio_resid] and the bytes of [x] that have been read *)
Definition read_struct (v off size : Z) : K vm (Z * Z * list Z) :=
  '(result, r) <- with_request (VOP_READ v) (mkRequest UIO_READ off size [] [] []);
  ret (result, rq_resid r, rq_out r).
(** A call on [curthread->t_vmspace] *)
Definition on_space (m : addrspace → K vm (Z * addrspace)) : K vm Z :=
  s <- kget;
  as_ <- deref (vm_as s);
  '(result, as_) <- m as_;
  _ <- modify (set_as (Some as_));
  ret result.
Fixpoint load_segments (n : nat) (i v : Z) (eh : Elf_Ehdr) : K vm Z :=
  match n with
  | O => ret 0
  | Datatypes.S n' =>
      let offset := s32 (e_phoff eh + i * e_phentsize eh) in
      '(result, resid, b) <- read_struct v offset PHDR_SIZE;
      if negb (result =? 0) then ret result
      else if negb (resid =? 0) then ret ENOEXEC
      else
        let ph := decode_phdr b in
        if (p_type ph =? PT_NULL) || (p_type ph =? PT_PHDR) || (p_type ph =? PT_MIPS_REGINFO) then
          load_segments n' (i + 1) v eh
        else if negb (p_type ph =? PT_LOAD) then ret ENOEXEC
        else
          result <- on_space (λ as_, as_define_region as_ v (p_vaddr ph) (p_filesz ph) (p_offset ph) (p_memsz ph)
                      (negb (Z.land (p_flags ph) PF_R =? 0)) (negb (Z.land (p_flags ph) PF_W =? 0)) (negb (Z.land (p_flags ph) PF_X =? 0)));
          if negb (result =? 0) then ret result
          else load_segments n' (i + 1) v eh
  end.
(** The error and [*entrypoint] *)
Definition load_elf (v : Z) : K vm (Z * option Z) :=
  '(result, resid, b) <- read_struct v 0 EHDR_SIZE;
  if negb (result =? 0) then ret (result, None)
  else if negb (resid =? 0) then ret (ENOEXEC, None)
  else
    let eh := decode_ehdr b in
    if elf_bad eh then ret (ENOEXEC, None)
    else
      result <- on_space (as_prepare_load zeros);
      if negb (result =? 0) then ret (result, None)
      else
        result <- load_segments (Z.to_nat (e_phnum eh)) 0 v eh;
        if negb (result =? 0) then ret (result, None)
        else
          result <- on_space (λ as_, ret (as_complete_load as_, as_));
          if negb (result =? 0) then ret (result, None)
          else ret (0, Some (e_entry eh)).
End LoadElf.

(** ** The arguments on the user stack

    [argv] are the addresses of strings of the kernel; [argc_at] and
    [source_at] those of the variables [argc] and [kernel_source], which are
    copied out.  The strings have fewer than [fuel] bytes. *)
Section Args.
  Context (fuel : nat) (argc_at source_at : Z).
Fixpoint kstrlen (n : nat) (a : Z) : K machine Z :=
  m <- kget;
  c <- deref (mem m !! a);
  if c =? 0 then ret 0
  else match n with O => halt Spin | Datatypes.S n' => l <- kstrlen n' (a + 1); ret (l + 1) end.
Definition assign (a z : Z) : K machine unit := set_mem (λ h, write_at h a (be_bytes 4 (u32 z))).
(** [strlen(argv[i]) + (4 - strlen(argv[i]) % 4)] *)
Definition padded (len : Z) : Z := len + (4 - len mod 4).
(** [arg_pointer_offset] *)
Fixpoint arg_offsets (prev : Z) (argv : list Z) : K machine (list Z) :=
  match argv with
  | [] => ret [prev]
  | a :: argv' =>
      len <- kstrlen fuel a;
      offs <- arg_offsets (prev + padded len) argv';
      ret (prev :: offs)
  end.
Fixpoint copy_pointers (offs : list Z) (stackptr tracker : Z) : K machine Z :=
  match offs with
  | [] | [_] => ret tracker
  | off :: offs' =>
      _ <- assign source_at (stackptr + off + 4);
      _ <- copyout source_at tracker 4;
      copy_pointers offs' stackptr (u32 (tracker + 4))
  end.
Fixpoint copy_strings (argv : list Z) (tracker : Z) : K machine unit :=
  match argv with
  | [] => ret tt
  | a :: argv' =>
      len <- kstrlen fuel a;
      _ <- copyout a tracker len;
      copy_strings argv' (u32 (tracker + padded len))
  end.
(** The new stack pointer; there is no test that [arg_pointer_offset] could be
    allocated. *)
Definition push_args (argv : list Z) (stackptr : Z) : K machine Z :=
  let argc := Z.of_nat (length argv) in
  ok <- kmalloc_ok;
  _ <- (if negb ok then halt Fault else ret tt);
  let first := 4 * (argc + 1) in
  offs <- arg_offsets first argv;
  let stack_offset := default first (last offs) - first + (argc + 1) * 4 + 4 in
  let stackptr := u32 (stackptr - stack_offset) in
  _ <- assign argc_at argc;
  _ <- copyout argc_at stackptr 4;
  tracker <- copy_pointers offs stackptr (u32 (stackptr + 4));
  _ <- copy_strings argv (u32 (tracker + 4));
  ret stackptr.
End Args.

(** ** Running a program *)
Record exsys (D : Type) : Type := mkEx { ex_vm : vmsys D; ex_mach : machine }.
Arguments mkEx {D} _ _.
Arguments ex_vm {D} _.
Arguments ex_mach {D} _.
(** A call returns an error, or enters user mode with these registers. *)
Inductive exec_end : Type :=
| ExError (err : Z)
| ExUser (argc argv stack entry : Z).

Section Exec.
  Context {D : Type} `{!VfsIo D} (vfs_close : Z → K D unit) (zeros : Z).
  (** The addresses of [argc], [kernel_source] and [foo], and of the blocks
      that [sys_execv] gets for [prog_name] and [argv[i]] *)
  Context (fuel : nat) (argc_at source_at foo prog_name : Z) (argv_at : nat → Z).
  Abbreviation ex := (exsys D).
Definition on_vm {A} (m : K (vmsys D) A) : K ex A := zoom ex_vm (λ v s, mkEx v (ex_mach s)) m.
Definition on_exmach {A} (m : K machine A) : K ex A := zoom ex_mach (λ v s, mkEx (ex_vm s) v) m.
(** From [as_create] on, which [runprogram] and [sys_execv] have in common *)
Definition enter_program (v : Z) (argv : list Z) : K ex exec_end :=
  as_ <- as_create;
  match as_ with
  | None =>
      _ <- on_vm (on_vfs (vfs_close v));
      ret (ExError ENOMEM)
  | Some as_ =>
      _ <- on_vm (modify (set_as (Some as_)));
      _ <- on_vm as_activate;
      '(result, entrypoint) <- on_vm (load_elf zeros v);
      if negb (result =? 0) then
        _ <- on_vm (on_vfs (vfs_close v));
        ret (ExError result)
      else
        entrypoint <- deref entrypoint;
        _ <- on_vm (on_vfs (vfs_close v));
        s <- kget;
        as_ <- deref (vm_as (ex_vm s));
        '(result, stackptr) <- on_vm (as_define_stack as_);
        if negb (result =? 0) then ret (ExError result)
        else
          stackptr <- on_exmach (push_args fuel argc_at source_at argv stackptr);
          ret (ExUser (Z.of_nat (length argv)) (u32 (stackptr + 4)) stackptr entrypoint)
  end.
(** [runprogram] without the creation of the process and of the console files
    (Process.v) *)
Definition runprogram (progname : list Z) (argv : list Z) : K ex exec_end :=
  '(result, v) <- on_vm (on_vfs (vfs_open progname 0));
  if negb (result =? 0) then ret (ExError result)
  else
    s <- kget;
    _ <- kassert (bool_decide (vm_as (ex_vm s) = None));
    enter_program v argv.

(** A byte and a pointer that the kernel takes directly from user memory *)
Definition user_byte (a : Z) : K machine Z :=
  r <- mload 1 a;
  bs <- deref r;
  deref (bs !! 0%nat).
Definition user_word (a : Z) : K machine Z :=
  r <- mload 4 a;
  bs <- deref r;
  ret (be_value bs).
Fixpoint user_strlen (n : nat) (a : Z) : K machine Z :=
  c <- user_byte a;
  if c =? 0 then ret 0
  else match n with O => halt Spin | Datatypes.S n' => l <- user_strlen n' (u32 (a + 1)); ret (l + 1) end.
Definition PATH_MAX : Z := 1024.
(** [*err], 0 for a name that is valid *)
Definition program_invalid (program : Z) : K machine Z :=
  if program =? 0 then ret EFAULT
  else
    '(err, _) <- copyinstr program foo PATH_MAX;
    if negb (err =? 0) then ret err
    else
      len <- user_strlen fuel program;
      ret (if len =? 0 then EINVAL else 0).
Fixpoint check_args (n : nat) (args i : Z) : K machine Z :=
  p <- user_word (u32 (args + 4 * i));
  if p =? 0 then ret 0
  else
    '(err, _) <- copyinstr p foo PATH_MAX;
    if negb (err =? 0) then ret err
    else match n with O => halt Spin | Datatypes.S n' => check_args n' args (i + 1) end.
Definition args_invalid (args : Z) : K machine Z :=
  if args =? 0 then ret EFAULT
  else
    '(err, _) <- copyinstr args foo PATH_MAX;
    if negb (err =? 0) then ret err
    else check_args fuel args 0.
Fixpoint count_args (n : nat) (args i : Z) : K machine Z :=
  p <- user_word (u32 (args + 4 * i));
  if p =? 0 then ret i
  else match n with O => halt Spin | Datatypes.S n' => count_args n' args (i + 1) end.
(** [argv] is given [sizeof(char * )] bytes, for which the allocator takes a
    block of its smallest size: there is room for so many pointers. *)
Definition ARGV_SLOTS : Z := default 0 (sizes !! 0%nat) / 4.
(** [argv[i] = kmalloc(len); copyinstr(args[i], argv[i], len)], for [n] arguments *)
Fixpoint copy_args (n i : nat) (args : Z) : K machine (list Z) :=
  match n with
  | O => ret []
  | Datatypes.S n' =>
      p <- user_word (u32 (args + 4 * Z.of_nat i));
      len <- user_strlen fuel p;
      ok <- kmalloc_ok;
      _ <- (if Z.of_nat i <? ARGV_SLOTS then ret tt else halt Fault);
      _ <- (if negb ok then halt Fault else ret tt);
      _ <- copyinstr p (argv_at i) (len + 1);
      rest <- copy_args n' (Datatypes.S i) args;
      ret (argv_at i :: rest)
  end.
(** The string that [prog_name] points to *)
Fixpoint kernel_string (n : nat) (a : Z) : K machine (list Z) :=
  m <- kget;
  c <- deref (mem m !! a);
  if c =? 0 then ret [0]
  else match n with O => halt Spin | Datatypes.S n' => l <- kernel_string n' (a + 1); ret (c :: l) end.
Definition sys_execv (program args : Z) : K ex exec_end :=
  err <- on_exmach (program_invalid program);
  if negb (err =? 0) then ret (ExError err)
  else
    err <- on_exmach (args_invalid args);
    if negb (err =? 0) then ret (ExError err)
    else
      ok <- kmalloc_ok;
      _ <- (if negb ok then halt Fault else ret tt);
      _ <- on_exmach (copyinstr program prog_name PATH_MAX);
      argc <- on_exmach (count_args fuel args 0);
      ok <- kmalloc_ok;
      argv <- on_exmach (copy_args (Z.to_nat argc) 0 args);
      _ <- (if ok && (argc <? ARGV_SLOTS) then ret tt else halt Fault);
      name <- on_exmach (kernel_string fuel prog_name);
      '(result, v) <- on_vm (on_vfs (vfs_open name 0));
      if negb (result =? 0) then ret (ExError result)
      else
        s <- kget;
        _ <- match vm_as (ex_vm s) with
             | Some as_ => _ <- on_vm (as_destroy as_); on_vm (modify (set_as None))
             | None => ret tt
             end;
        enter_program v argv.
End Exec.
