(* ===== verification/ExecSpec.v ===== *)
(** * Programs: specifications

    What [load_elf] makes of an executable, and what a process finds on its
    stack. *)
From S2P Require Import Prelude Array LinkedList Memory Copyinout Uio Pages Coremap Kheap Request SfsFormat Vm VmSpec Exec.

(** ** Executables as bytes *)
Definition phdr_off (eh : Elf_Ehdr) (i : Z) : Z := e_phoff eh + i * e_phentsize eh.
Definition phdr_at (bs : list Z) (eh : Elf_Ehdr) (i : Z) : option Elf_Phdr :=
  let b := part bs (phdr_off eh i) PHDR_SIZE in
  if Z.of_nat (length b) =? PHDR_SIZE then Some (decode_phdr b) else None.
Definition skipped (ph : Elf_Phdr) : bool := (p_type ph =? PT_NULL) || (p_type ph =? PT_PHDR) || (p_type ph =? PT_MIPS_REGINFO).
(** The segment in the address space, and its place there *)
Definition seg_base (ph : Elf_Phdr) : Z := ALIGN (p_vaddr ph).
Definition seg_npages (ph : Elf_Phdr) : Z := (p_memsz ph + p_vaddr ph mod PAGE_SIZE + PAGE_SIZE - 1) / PAGE_SIZE.
Definition seg_flags (ph : Elf_Phdr) : Z :=
  Z.lor (Z.lor (if Z.land (p_flags ph) PF_R =? 0 then 0 else SEG_RD) (if Z.land (p_flags ph) PF_W =? 0 then 0 else SEG_WR))
    (if Z.land (p_flags ph) PF_X =? 0 then 0 else SEG_EX).
Definition add_region (as_ : addrspace) (v : Z) (ph : Elf_Phdr) : option addrspace :=
  if as_vbase1 as_ =? 0 then
    Some (mkAs (Some v) (seg_base ph) (seg_npages ph) (p_filesz ph) (p_offset ph) (seg_flags ph)
      (as_vbase2 as_) (as_npages2 as_) (as_filesz2 as_) (as_offset2 as_) (as_flags2 as_) (as_stackpbase as_))
  else if as_vbase2 as_ =? 0 then
    Some (mkAs (Some v) (as_vbase1 as_) (as_npages1 as_) (as_filesz1 as_) (as_offset1 as_) (as_flags1 as_)
      (seg_base ph) (seg_npages ph) (p_filesz ph) (p_offset ph) (seg_flags ph) (as_stackpbase as_))
  else None.
(** The program headers from the [i]th on: the error, and the address space *)
Fixpoint regions (bs : list Z) (eh : Elf_Ehdr) (v : Z) (n : nat) (i : Z) (as_ : addrspace) : Z * addrspace :=
  match n with
  | O => (0, as_)
  | S n' =>
      match phdr_at bs eh i with
      | None => (ENOEXEC, as_)
      | Some ph =>
          if skipped ph then regions bs eh v n' (i + 1) as_
          else if negb (p_type ph =? PT_LOAD) then (ENOEXEC, as_)
          else match add_region as_ v ph with None => (EUNIMP, as_) | Some as_ => regions bs eh v n' (i + 1) as_ end
      end
  end.

(** ** Loading *)
(** Opening and closing a file, and references to it, do not change files. *)
Class ExecLaws (D : Type) `{!VfsIo D, !VfsLaws D} (vfs_close : Z → K D unit) : Type := {
  exec_name : D → list Z → option Z;
  law_open d name v bs (o : oracle) :
    vfs_ok d → exec_name d name = Some v → vfs_file d v = Some bs →
    wp (vfs_open name 0) (λ r d' o', o' = o ∧ r = (0, v) ∧ vfs_ok d' ∧ ∀ w, vfs_file d' w = vfs_file d w) d o;
  law_incref d v bs (o : oracle) :
    vfs_ok d → vfs_file d v = Some bs →
    wp (vn_incref v) (λ _ d' o', o' = o ∧ vfs_ok d' ∧ ∀ w, vfs_file d' w = vfs_file d w) d o;
  law_close d v bs (o : oracle) :
    vfs_ok d → vfs_file d v = Some bs →
    wp (vfs_close v) (λ _ d' o', o' = o ∧ vfs_ok d' ∧ ∀ w, vfs_file d' w = vfs_file d w) d o;
}.

Section Load.
  Context {D : Type} `{!VfsIo D, !VfsLaws D} (vfs_close : Z → K D unit) `{!ExecLaws D vfs_close} (zeros : Z).
  Abbreviation vm := (vmsys D).
  Implicit Types (s : vm) (bs : list Z) (eh : Elf_Ehdr).
(** The files are as in [s]. *)
Definition same_files s (d : D) : Prop := vfs_ok d ∧ ∀ w, vfs_file d w = vfs_file (vm_vfs s) w.
Lemma read_struct_spec s v bs off size (o : oracle) :
  vfs_ok (vm_vfs s) → vfs_file (vm_vfs s) v = Some bs → 0 ≤ off → 0 ≤ size → off + size < 2 ^ 31 →
  wp (read_struct v off size) (λ r s' o', o' = o ∧ r = (0, size - Z.of_nat (length (part bs off size)), part bs off size) ∧
    ∃ d, same_files s d ∧ s' = set_vfs d s) s o.
Proof.
  intros Hv Hf Ho Hs Hb. unfold read_struct, with_request. wp_step. unfold wp at 1.
  pose proof (vop_read_ok _ _ _ off size o Hv Hf Ho Hs Hb) as Hr. unfold wp in Hr. destruct (VOP_READ v _ o) as [[[res [d r]] o']|]; [|done].
  cbn [fst snd] in Hr. destruct Hr as (-> & -> & Hd & Hsame & ->). wp_step. split_and!; [done|done|by exists d].
Qed.
(** The headers can be read, and describe memory. *)
Definition phdrs_ok bs eh : Prop :=
  0 ≤ e_phnum eh ∧ ∀ i, 0 ≤ i < e_phnum eh → 0 ≤ phdr_off eh i < 2 ^ 31 - PHDR_SIZE ∧
    ∀ ph, phdr_at bs eh i = Some ph → 0 ≤ p_vaddr ph < 2 ^ 32 ∧ 0 ≤ p_memsz ph < 2 ^ 32 - 2 * PAGE_SIZE.
Lemma define_pages vaddr sz :
  0 ≤ vaddr < 2 ^ 32 → 0 ≤ sz < 2 ^ 32 - 2 * PAGE_SIZE →
  Z.land (u32 (u32 (u32 (sz + Z.land vaddr (2 ^ 32 - 1 - PAGE_FRAME)) + PAGE_SIZE) - 1)) PAGE_FRAME / PAGE_SIZE =
  (sz + vaddr mod PAGE_SIZE + PAGE_SIZE - 1) / PAGE_SIZE.
Proof.
  intros Hv Hs. change (2 ^ 32 - 1 - PAGE_FRAME) with 4095. rewrite land_page_offset. unfold PAGE_SIZE in *.
  pose proof (Z.mod_pos_bound vaddr 4096 ltac:(lia)). rewrite (u32_small (sz + _)), (u32_small (_ + 4096)), u32_small by lia.
  rewrite land_page_frame by lia. unfold PAGE_SIZE. Z.to_euclidean_division_equations. lia.
Qed.
Lemma define_region_spec s as_ v bs ph (o : oracle) :
  vfs_ok (vm_vfs s) → vfs_file (vm_vfs s) v = Some bs → vm_as s = Some as_ → 0 ≤ p_vaddr ph < 2 ^ 32 → 0 ≤ p_memsz ph < 2 ^ 32 - 2 * PAGE_SIZE →
  wp (on_space (λ as_, as_define_region as_ v (p_vaddr ph) (p_filesz ph) (p_offset ph) (p_memsz ph)
        (negb (Z.land (p_flags ph) PF_R =? 0)) (negb (Z.land (p_flags ph) PF_W =? 0)) (negb (Z.land (p_flags ph) PF_X =? 0))))
    (λ r s' o', o' = o ∧ ∃ d, same_files s d ∧
      match add_region as_ v ph with
      | Some as' => r = 0 ∧ s' = set_vfs d (set_as (Some as') s)
      | None => r = EUNIMP ∧ s' = set_vfs d s
      end) s o.
Proof.
  intros Hv Hf Has Hva Hsz. unfold on_space. do 2 wp_step. rewrite Has. do 3 wp_step. unfold as_define_region. rewrite (define_pages _ _ Hva Hsz).
  wp_step. unfold on_vfs. wp_step. wp_call (law_incref _ _ _ _ Hv Hf). intros _ d1 o1 (-> & Hd1 & Hs1). wp_step. wp_step.
  wp_call (law_incref d1 v bs o Hd1); [by rewrite Hs1|]. intros _ d2 o2 (-> & Hd2 & Hs2).
  assert (same_files s d2) as Hd by (split; [done|]; intros w; by rewrite Hs2, Hs1).
  assert (Z.lor (Z.lor (if negb (Z.land (p_flags ph) PF_R =? 0) then SEG_RD else 0) (if negb (Z.land (p_flags ph) PF_W =? 0) then SEG_WR else 0))
    (if negb (Z.land (p_flags ph) PF_X =? 0) then SEG_EX else 0) = seg_flags ph) as ->.
  { unfold seg_flags. by repeat case_match. }
  unfold add_region, seg_base, seg_npages, ALIGN. destruct (as_vbase1 as_ =? 0); [|destruct (as_vbase2 as_ =? 0)]; do 4 wp_step; (split; [done|]); exists d2; destruct s; simpl in *; by subst.
Qed.
Lemma load_segments_spec bs eh v n i s as_ (o : oracle) :
  phdrs_ok bs eh → 0 ≤ i → i + Z.of_nat n ≤ e_phnum eh → vfs_ok (vm_vfs s) → vfs_file (vm_vfs s) v = Some bs → vm_as s = Some as_ →
  wp (load_segments n i v eh) (λ r s' o', o' = o ∧ r = (regions bs eh v n i as_).1 ∧
    ∃ d, same_files s d ∧ s' = set_vfs d (set_as (Some (regions bs eh v n i as_).2) s)) s o.
Proof.
  intros Hp. revert i s as_. induction n as [|n IH]; intros i s as_ Hi Hn Hv Hf Has; cbn [load_segments regions].
  { wp_step. split_and!; [done..|]. exists (vm_vfs s). split; [by split|]. destruct s; simpl in *. by subst. }
  destruct (proj2 Hp i ltac:(lia)) as [Hoff Hph]. unfold phdr_off, PHDR_SIZE in Hoff. rewrite s32_small by lia. wp_step.
  wp_call (read_struct_spec _ _ bs); [done|done|lia|done|unfold PHDR_SIZE; lia|]. intros r s1 o1 (-> & -> & d & Hd & ->). wp_cond.
  unfold phdr_at in *. fold (phdr_off eh i). destruct (Z.eqb_spec (Z.of_nat (length (part bs (phdr_off eh i) PHDR_SIZE))) PHDR_SIZE) as [Hl|Hl].
  2:{ rewrite (proj2 (Z.eqb_neq _ 0)) by lia. wp_cond. wp_step. split_and!; [done..|]. exists d. split; [done|]. destruct s; simpl in *. by subst. }
  rewrite (proj2 (Z.eqb_eq _ 0)) by lia. wp_cond. set (ph := decode_phdr _) in *. destruct (Hph ph eq_refl) as [Hva Hsz].
  destruct Hd as [Hvd Hsd].
  fold (skipped ph). destruct (skipped ph).
  { wp_call (IH (i + 1) (set_vfs d s) as_); [lia|lia|done|by rewrite Hsd|done|]. intros r s1 o1 (-> & -> & d' & [? Hd'] & ->). split_and!; [done..|].
    exists d'. split; [|by destruct s]. split; [done|]. intros w. by rewrite Hd'. }
  destruct (p_type ph =? PT_LOAD); wp_cond.
  2:{ wp_step. split_and!; [done..|]. exists d. split; [done|]. destruct s; simpl in *. by subst. }
  wp_step. wp_call (define_region_spec (set_vfs d s) as_ v bs ph); [done|by rewrite Hsd|done..|]. intros r s1 o1 (-> & d1 & [Hv1 Hs1] & Hr).
  destruct (add_region as_ v ph) as [as'|]; destruct Hr as [-> ->]; wp_cond.
  - wp_call (IH (i + 1) (set_vfs d1 (set_as (Some as') (set_vfs d s))) as'); [lia|lia|done|simpl; rewrite Hs1; simpl; by rewrite Hsd|done|].
    intros r s1 o1 (-> & -> & d' & [? Hd'] & ->). split_and!; [done..|]. exists d'. split; [|by destruct s]. split; [done|]. intros w. rewrite Hd', Hs1. apply Hsd.
  - wp_step. split_and!; [done..|]. exists d1. split; [|destruct s; simpl in *; by subst]. split; [done|]. intros w. rewrite Hs1. apply Hsd.
Qed.
Definition with_stack as_ (p : Z) : addrspace :=
  mkAs (as_vnode as_) (as_vbase1 as_) (as_npages1 as_) (as_filesz1 as_) (as_offset1 as_) (as_flags1 as_)
    (as_vbase2 as_) (as_npages2 as_) (as_filesz2 as_) (as_offset2 as_) (as_flags2 as_) p.
Lemma prepare_load_spec s as_ j (o : oracle) :
  vm_as s = Some as_ → mem_ok zeros (vm_core s) → first_fit 12 (cm (vm_core s)) 0 = Some j →
  wp (on_space (as_prepare_load zeros)) (λ r s' o', o' = o ∧ r = 0 ∧
    s' = set_as (Some (with_stack as_ (frame (vm_core s) j))) (set_core (take_block (vm_core s) j 12) s)) s o.
Proof.
  intros Has [Hc Hp Hwf Hz] Hfit. unfold on_space. do 2 wp_step. rewrite Has. do 3 wp_step. unfold as_prepare_load. wp_step. unfold on_core. wp_step.
  unfold wp at 1. change VM_STACKPAGES with (Z.of_nat 12). rewrite (getppages_eq zeros (vm_core s) 12 o Hc Hp) by lia. rewrite Hfit.
  apply first_fit_Some in Hfit as (_ & Hrun & _). rewrite Nat.sub_0_r in Hrun. apply run_free_true in Hrun as [Hlen _].
  destruct (frame_bounds (vm_core s) j 1 Hc) as [H0 _]; [rewrite length_drop in Hlen; lia|]. rewrite (proj2 (Z.eqb_neq _ 0)) by lia.
  do 4 wp_step. split_and!; [done..|]. by destruct s.
Qed.
Definition header bs : Elf_Ehdr := decode_ehdr (part bs 0 EHDR_SIZE).
(** A file without a header of this machine *)
Definition no_elf bs : bool := (Z.of_nat (length bs) <? EHDR_SIZE) || elf_bad (header bs).
Lemma load_elf_spec s as_ bs v j (o : oracle) :
  vfs_ok (vm_vfs s) → vfs_file (vm_vfs s) v = Some bs → vm_as s = Some as_ → mem_ok zeros (vm_core s) →
  first_fit 12 (cm (vm_core s)) 0 = Some j → (no_elf bs = false → phdrs_ok bs (header bs)) →
  let '(err, as') := regions bs (header bs) v (Z.to_nat (e_phnum (header bs))) 0 (with_stack as_ (frame (vm_core s) j)) in
  wp (load_elf zeros v) (λ r s' o', o' = o ∧ ∃ d, same_files s d ∧
    if no_elf bs then r = (ENOEXEC, None) ∧ s' = set_vfs d s
    else r = (if err =? 0 then (0, Some (e_entry (header bs))) else (err, None)) ∧
      s' = set_vfs d (set_as (Some as') (set_core (take_block (vm_core s) j 12) s))) s o.
Proof.
  intros Hv Hf Has Hm Hfit Hp. destruct (regions _ _ _ _ _ _) as [err as'] eqn:Hreg. unfold load_elf, no_elf. wp_step.
  wp_call (read_struct_spec _ _ bs 0 EHDR_SIZE); [done|done|done|done|done|]. intros r s1 o1 (-> & -> & d & [Hvd Hsd] & ->). wp_cond.
  assert (Z.of_nat (length (part bs 0 EHDR_SIZE)) = Z.min (Z.of_nat (length bs)) EHDR_SIZE) as ->.
  { unfold part, EHDR_SIZE. rewrite length_take, length_drop. lia. }
  destruct (Z.ltb_spec (Z.of_nat (length bs)) EHDR_SIZE) as [Hl|Hl]; simpl.
  { rewrite (proj2 (Z.eqb_neq _ 0)) by lia. wp_cond. wp_step. split; [done|]. by exists d. }
  rewrite (proj2 (Z.eqb_eq _ 0)) by lia. wp_cond. fold (header bs). unfold no_elf in Hp. rewrite (proj2 (Z.ltb_ge _ _) Hl) in Hp. simpl in Hp. destruct (elf_bad (header bs)).
  { wp_step. split; [done|]. by exists d. }
  wp_step. wp_call (prepare_load_spec (set_vfs d s) as_ j); [done|done|done|]. intros r s1 o1 (-> & -> & ->). wp_cond. wp_step.
  specialize (Hp eq_refl). pose proof (proj1 Hp) as Hpos.
  wp_call (load_segments_spec bs (header bs) v (Z.to_nat (e_phnum (header bs))) 0); [done|done|lia|done|by simpl; rewrite Hsd|done|].
  intros r s1 o1 (-> & -> & d' & [? Hd'] & ->). cbn [vm_core set_as set_core set_vfs] in *. rewrite Hreg. cbn [fst snd].
  assert (same_files s d') as Hsame by (split; [done|]; intros w; rewrite Hd'; apply Hsd).
  destruct (Z.eqb_spec err 0) as [->|He]; wp_cond.
  - wp_step. unfold on_space. wp_run. cbn [vm_as set_as set_vfs]. wp_run. wp_cond. wp_step. split; [done|]. exists d'. split_and!; [done..|]. by destruct s.
  - wp_step. split; [done|]. exists d'. split_and!; [done..|]. by destruct s.
Qed.
End Load.

(** ** The stack of a new process *)
(** A string of the kernel *)
Definition kstr (fuel : nat) (m : machine) (a : Z) (xs : list Z) : Prop :=
  bytes_at (mem m) a (length xs + 1) = Some (xs ++ [0]) ∧ (0 ∉ xs) ∧ (length xs ≤ fuel)%nat ∧ USERTOP ≤ a ∧ a + Z.of_nat (length xs) + 1 ≤ 2 ^ 32.
Definition len (xs : list Z) : Z := Z.of_nat (length xs).
Fixpoint offsets (prev : Z) (strs : list (list Z)) : list Z :=
  match strs with
  | [] => [prev]
  | xs :: strs => prev :: offsets (prev + padded (len xs)) strs
  end.
(** The pointers, and the strings with the zeros behind them *)
Fixpoint pointers (p : Z) (strs : list (list Z)) : list Z :=
  match strs with
  | [] => []
  | xs :: strs => p :: pointers (p + padded (len xs)) strs
  end.
Definition padded_str (xs : list Z) : list Z := xs ++ replicate (Z.to_nat (4 - len xs mod 4)) 0.
Definition strings (strs : list (list Z)) : list Z := concat (padded_str <$> strs).
Definition words (l : list Z) : list Z := concat (be_bytes 4 <$> l).
Definition argc_of (strs : list (list Z)) : Z := Z.of_nat (length strs).
Definition stack_size (strs : list (list Z)) : Z := 4 + 4 * (argc_of strs + 1) + Z.of_nat (length (strings strs)).
(** The stack: [argc], [argv], which ends with [NULL], and the strings *)
Definition image (sp : Z) (strs : list (list Z)) : list Z :=
  be_bytes 4 (argc_of strs) ++ words (pointers (sp + 8 + 4 * argc_of strs) strs) ++ replicate 4 0 ++ strings strs.
Lemma padded_length xs : Z.of_nat (length (padded_str xs)) = padded (len xs).
Proof.
  unfold padded_str, padded, len. rewrite length_app, length_replicate. pose proof (Z.mod_pos_bound (Z.of_nat (length xs)) 4 ltac:(lia)). lia.
Qed.
Lemma words_length l : length (words l) = (4 * length l)%nat.
Proof. unfold words. induction l as [|z l IH]; [done|]. rewrite fmap_cons. cbn [concat length]. rewrite length_app, IH. simpl. lia. Qed.
Lemma pointers_length p strs : length (pointers p strs) = length strs.
Proof. revert p. induction strs as [|xs strs IH]; intros p; simpl; [done|]. by rewrite IH. Qed.
Lemma offsets_last prev strs : last (offsets prev strs) = Some (prev + Z.of_nat (length (strings strs))).
Proof.
  revert prev. induction strs as [|xs strs IH]; intros prev; [simpl; f_equal; lia|]. cbn [offsets]. rewrite last_cons, IH.
  unfold strings. rewrite fmap_cons. cbn [concat]. rewrite length_app, Nat2Z.inj_add, padded_length. f_equal. lia.
Qed.
Lemma image_length sp strs : Z.of_nat (length (image sp strs)) = stack_size strs.
Proof.
  unfold image, stack_size, argc_of. rewrite !length_app, length_be_bytes, words_length, pointers_length, length_replicate. lia.
Qed.

Lemma bytes_mid (h : gmap Z Z) a n (pre mid post : list Z) :
  bytes_at h a n = Some (pre ++ mid ++ post) → bytes_at h (a + len pre) (length mid) = Some mid.
Proof.
  intros Hb. pose proof (bytes_at_length _ _ _ _ Hb) as Hl. rewrite !length_app in Hl.
  unfold len. rewrite (bytes_at_slice _ _ _ _ (length pre) (length mid) Hb) by lia. by rewrite drop_app_length, take_app_length.
Qed.
(** The pointers point to their strings. *)
Lemma pointers_lookup p strs i xs :
  strs !! i = Some xs → ∃ pre post, strings strs = pre ++ padded_str xs ++ post ∧ len pre mod 4 = 0 ∧ pointers p strs !! i = Some (p + len pre).
Proof.
  revert p i. induction strs as [|ys strs IH]; intros p i Hi; [done|]. unfold strings. rewrite fmap_cons. cbn [concat]. fold (strings strs). destruct i as [|i].
  - simpl in Hi. simplify_eq. exists [], (strings strs). split_and!; [done..|]. simpl. f_equal. unfold len. simpl. lia.
  - destruct (IH (p + padded (len ys)) i Hi) as (pre & post & Hs & Hm & Hp). exists (padded_str ys ++ pre), post. rewrite Hs, <- app_assoc.
    unfold len in *. rewrite length_app, Nat2Z.inj_add, padded_length. unfold padded, len. split_and!; [done| |].
    + Z.to_euclidean_division_equations. lia.
    + simpl. fold (len ys) in Hp. rewrite Hp. f_equal. unfold padded, len. lia.
Qed.
Lemma words_lookup l i z : l !! i = Some z → ∃ pre post, words l = pre ++ be_bytes 4 z ++ post ∧ length pre = (4 * i)%nat.
Proof.
  revert i. induction l as [|y l IH]; intros i Hi; [done|]. unfold words. rewrite fmap_cons. cbn [concat]. fold (words l). destruct i as [|i].
  - simpl in Hi. simplify_eq. by exists [], (words l).
  - destruct (IH i Hi) as (pre & post & Hs & Hp). exists (be_bytes 4 y ++ pre), post. rewrite Hs, <- app_assoc, length_app, length_be_bytes. split; [done|lia].
Qed.
(** What a program finds at its stack pointer: [argc], the array [argv] with
    [NULL] at its end, and behind it the strings, each with its zero *)
Definition user_stack (h : gmap Z Z) (sp top : Z) (strs : list (list Z)) : Prop :=
  bytes_at h sp 4 = Some (be_bytes 4 (argc_of strs)) ∧
  bytes_at h (sp + 4 + 4 * argc_of strs) 4 = Some (be_bytes 4 0) ∧
  ∀ i xs, strs !! i = Some xs → ∃ p, bytes_at h (sp + 4 + 4 * Z.of_nat i) 4 = Some (be_bytes 4 p) ∧
    (p - sp) mod 4 = 0 ∧ sp + 8 + 4 * argc_of strs ≤ p ∧ p + len xs + 1 ≤ top ∧ bytes_at h p (length xs + 1) = Some (xs ++ [0]).
Lemma image_stack h sp strs :
  bytes_at h sp (Z.to_nat (stack_size strs)) = Some (image sp strs) → user_stack h sp (sp + stack_size strs) strs.
Proof.
  unfold image. intros Hb. set (ps := pointers (sp + 8 + 4 * argc_of strs) strs) in Hb. unfold user_stack, argc_of in *. split_and!.
  - pose proof (bytes_mid _ _ _ [] _ _ Hb) as H0. unfold len in H0. rewrite length_be_bytes in H0. simpl in H0. by rewrite Z.add_0_r in H0.
  - rewrite (app_assoc (be_bytes 4 _)) in Hb. pose proof (bytes_mid _ _ _ _ _ _ Hb) as H0. unfold len in H0.
    rewrite length_app, length_be_bytes, words_length, length_replicate in H0. unfold ps in H0. rewrite pointers_length in H0. change (be_bytes 4 0) with (replicate 4 0). rewrite <- H0. f_equal. lia.
  - intros i xs Hi. destruct (pointers_lookup (sp + 8 + 4 * Z.of_nat (length strs)) _ _ _ Hi) as (pre & post & Hs & Hm & Hp).
    exists (sp + 8 + 4 * Z.of_nat (length strs) + len pre). split_and!.
    + destruct (words_lookup _ _ _ Hp) as (wpre & wpost & Hw & Hwl). fold ps in Hw. rewrite Hw, <- !app_assoc, (app_assoc (be_bytes 4 _) wpre) in Hb.
      pose proof (bytes_mid _ _ _ _ _ _ Hb) as H0. unfold len in H0. rewrite length_app, !length_be_bytes, Hwl in H0. unfold len. rewrite <- H0. f_equal. lia.
    + replace (sp + 8 + 4 * Z.of_nat (length strs) + len pre - sp) with (len pre + (2 + Z.of_nat (length strs)) * 4) by lia. by rewrite Z.mod_add.
    + unfold len. lia.
    + unfold stack_size, argc_of. rewrite Hs, !length_app, !Nat2Z.inj_add, padded_length. unfold padded, len.
      pose proof (Z.mod_pos_bound (Z.of_nat (length xs)) 4 ltac:(lia)). lia.
    + assert (padded_str xs = (xs ++ [0]) ++ replicate (Z.to_nat (3 - len xs mod 4)) 0) as Hpad.
      { unfold padded_str. rewrite <- app_assoc. f_equal. change ([0] ++ ?l) with (replicate 1 0 ++ l). rewrite <- replicate_add. f_equal.
        pose proof (Z.mod_pos_bound (len xs) 4 ltac:(lia)). lia. }
      rewrite Hs, Hpad, !(app_assoc (be_bytes 4 _)), !(app_assoc _ pre), <- (app_assoc (xs ++ [0])), (app_assoc _ (replicate 4 0 ++ pre)) in Hb.
      pose proof (bytes_mid _ _ _ _ _ _ Hb) as H0. rewrite length_app in H0. simpl length in H0 at 2. rewrite <- H0. f_equal.
      unfold len. rewrite !length_app, length_be_bytes, words_length. unfold ps. rewrite pointers_length, length_replicate. lia.
Qed.

Section Args.
  Context (fuel : nat) (argc_at source_at : Z).
  Implicit Types (m : machine) (strs : list (list Z)).
Lemma kstrlen_spec m a xs (n : nat) (o : oracle) :
  bytes_at (mem m) a (length xs + 1) = Some (xs ++ [0]) → 0 ∉ xs → (length xs ≤ n)%nat →
  wp (kstrlen n a) (λ r m' o', r = len xs ∧ m' = m ∧ o' = o) m o.
Proof.
  revert a n. induction xs as [|x xs IH]; intros a n Hb H0 Hn.
  - simpl in Hb. destruct (mem m !! a) as [c|] eqn:Hc; [|done]. simpl in Hb. simplify_eq. destruct n; cbn [kstrlen]; do 3 wp_step; rewrite Hc; wp_run; done.
  - simpl in Hb. destruct (mem m !! a) as [c|] eqn:Hc; [|done]. simpl in Hb. destruct (bytes_at (mem m) (a + 1) (length xs + 1)) eqn:Hr; [|done].
    simpl in Hb. simplify_eq. apply not_elem_of_cons in H0 as [Hx H0]. simpl in Hn. destruct n as [|n]; [lia|]. cbn [kstrlen]. do 3 wp_step. rewrite Hc. wp_step.
    rewrite (proj2 (Z.eqb_neq x 0)) by done. wp_step. wp_call (IH (a + 1) n Hr H0 ltac:(lia)). intros r m' o' (-> & -> & ->). wp_step.
    split_and!; [|done..]. unfold len. simpl. lia.
Qed.
Lemma arg_offsets_spec m argv strs prev (o : oracle) :
  Forall2 (kstr fuel m) argv strs → wp (arg_offsets fuel prev argv) (λ r m' o', r = offsets prev strs ∧ m' = m ∧ o' = o) m o.
Proof.
  intros Hs. revert prev. induction Hs as [|a xs argv strs (Hb & H0 & Hl & _) _ IH]; intros prev; cbn [arg_offsets offsets]; [by wp_step|].
  wp_step. wp_call (kstrlen_spec _ _ _ _ _ Hb H0 Hl). intros r m' o' (-> & -> & ->). wp_step. wp_call (IH (prev + padded (len xs))).
  intros r m' o' (-> & -> & ->). by wp_step.
Qed.
(** The stack is filled from below: [img] is there, the rest still zero. *)
Record filling m0 sp argv strs (img : list Z) (rest : Z) m : Prop := {
  fl_bytes : bytes_at (mem m) sp (length img + Z.to_nat rest) = Some (img ++ replicate (Z.to_nat rest) 0);
  fl_strs : Forall2 (kstr fuel m) argv strs;
  fl_fault : badfault m = false;
  fl_urd : urd m = urd m0;
  fl_uwr : uwr m = uwr m0;
  fl_argc : mapped m argc_at 4;
  fl_source : mapped m source_at 4;
  fl_rest : 0 ≤ rest;
}.
Context (Hlocals : ∀ x, x = argc_at ∨ x = source_at → USERTOP ≤ x ∧ x + 4 ≤ 2 ^ 32).
(** A variable does not overlap the strings. *)
Definition apart (argv : list Z) strs : Prop :=
  Forall2 (λ a xs, ∀ x, x = argc_at ∨ x = source_at → a + len xs + 1 ≤ x ∨ x + 4 ≤ a) argv strs.
Lemma bytes_at_same (h h' : gmap Z Z) a n :
  (∀ b, a ≤ b < a + Z.of_nat n → h' !! b = h !! b) → bytes_at h' a n = bytes_at h a n.
Proof.
  revert a. induction n as [|n IH]; intros a Hs; [done|]. simpl. rewrite Hs by lia. rewrite IH; [done|]. intros b Hb. apply Hs. lia.
Qed.
Lemma kstr_same m m' a xs : kstr fuel m a xs → (∀ b, a ≤ b < a + len xs + 1 → mem m' !! b = mem m !! b) → kstr fuel m' a xs.
Proof.
  intros (Hb & Hrest) Hs. split; [|done]. rewrite <- Hb. apply bytes_at_same. unfold len in Hs. intros b Hr. apply Hs. lia.
Qed.
Lemma bytes_grow (h h' : gmap Z Z) sp (img piece : list Z) (rest : nat) :
  bytes_at h sp (length img + rest) = Some (img ++ replicate rest 0) → (length piece ≤ rest)%nat →
  (∀ b, ¬ (sp + len img ≤ b < sp + len img + len piece) → h' !! b = h !! b) →
  bytes_at h' (sp + len img) (length piece) = Some piece →
  bytes_at h' sp (length (img ++ piece) + (rest - length piece)) = Some ((img ++ piece) ++ replicate (rest - length piece) 0).
Proof.
  intros [Hl Hb]%bytes_at_Some Hp Hs [_ Hn]%bytes_at_Some. rewrite length_app, length_replicate in Hl. apply bytes_at_Some.
  rewrite !length_app, length_replicate. split; [lia|]. intros k Hk. unfold len in *.
  destruct (decide (length img ≤ k < length img + length piece)%nat) as [Hin|Hout].
  - rewrite lookup_app_l, lookup_app_r by (rewrite ?length_app; lia). rewrite <- (Hn (k - length img)%nat) by lia. f_equal. lia.
  - rewrite Hs, Hb by lia. destruct (decide (k < length img)%nat) as [Hlt|Hge].
    + rewrite !lookup_app_l by (rewrite ?length_app; lia). done.
    + rewrite !lookup_app_r by (rewrite ?length_app; lia). rewrite !lookup_replicate_2 by (rewrite ?length_app; lia). done.
Qed.
Lemma fill_copy m0 sp argv strs img rest m src piece (o : oracle) :
  filling m0 sp argv strs img rest m → bytes_at (mem m) src (length piece) = Some piece → USERTOP ≤ src → src + len piece ≤ 2 ^ 32 →
  len piece ≤ rest → 0 ≤ sp → sp + len img + rest ≤ USERTOP → all_ok (uwr m0) sp (len img + rest) →
  wp (copyout src (sp + len img) (len piece)) (λ _ m' o', o' = o ∧ filling m0 sp argv strs (img ++ piece) (rest - len piece) m') m o.
Proof.
  intros Hf Hsrc Hk Hk2 Hle Hsp Htop Hok. destruct Hf as [Hb Hs Hbf Hrd Hwr Ha Hsc Hr0]. unfold len, USERTOP, MIPS_KSEG0 in *.
  assert (mapped m (sp + Z.of_nat (length img)) (Z.of_nat (length piece))) as Hmap.
  { unfold mapped. rewrite Nat2Z.id. eapply bytes_at_sub_is_Some; [by rewrite Hb|lia]. }
  wp_call (copyout_spec m src (sp + Z.of_nat (length img)) (Z.of_nat (length piece))); [done|lia|lia| |..].
  { unfold kernel_block, no_wrap, mapped, USERTOP, MIPS_KSEG0. rewrite Nat2Z.id, Hsrc. split_and!; [lia..|done]. }
  { intros _. split; [done|]. intros b Hr. rewrite Hwr, Hok by lia. done. }
  intros r m' o' (-> & Hbf' & Hrd' & Hwr' & Honly & Hres). split; [done|]. split; try congruence.
  - replace (Z.to_nat (rest - Z.of_nat (length piece))) with (Z.to_nat rest - length piece)%nat by lia.
    apply (bytes_grow (mem m)); [done|lia|exact Honly|]. rewrite Nat2Z.id, Hsrc in Hres. destruct Hres as [(_ & _ & _ & ?)|(_ & Hno)]; [done|].
    destruct piece as [|x piece]; [done|]. destruct Hno. split_and!; [simpl; lia|unfold USERTOP, MIPS_KSEG0; lia|]. intros b Hr. rewrite Hwr. apply Hok. lia.
  - eapply Forall2_impl; [exact Hs|]. intros a xs Hx. eapply kstr_same; [exact Hx|]. destruct Hx as (_ & _ & _ & Hu & _). unfold USERTOP, MIPS_KSEG0 in Hu.
    intros b Hr. apply Honly. lia.
  - unfold mapped in *. erewrite bytes_at_same; [exact Ha|]. intros b Hr. apply Honly. destruct (Hlocals argc_at); [by left|]. unfold USERTOP, MIPS_KSEG0 in *. lia.
  - unfold mapped in *. erewrite bytes_at_same; [exact Hsc|]. intros b Hr. apply Honly. destruct (Hlocals source_at); [by right|]. unfold USERTOP, MIPS_KSEG0 in *. lia.
  - lia.
Qed.
Lemma fill_assign m0 sp argv strs img rest m x z (o : oracle) :
  filling m0 sp argv strs img rest m → x = argc_at ∨ x = source_at → apart argv strs → 0 ≤ sp → sp + len img + rest ≤ USERTOP →
  wp (assign x z) (λ _ m' o', o' = o ∧ bytes_at (mem m') x 4 = Some (be_bytes 4 (u32 z)) ∧ filling m0 sp argv strs img rest m') m o.
Proof.
  intros [Hb Hs Hbf Hrd Hwr Ha Hsc Hr0] Hx Hap Hsp Htop. destruct (Hlocals x Hx) as [Hx1 Hx2]. unfold assign, set_mem. wp_step. split; [done|]. cbn [mem].
  assert (length (be_bytes 4 (u32 z)) = 4%nat) as Hl4 by apply length_be_bytes. split; [rewrite <- Hl4 at 2; apply bytes_at_write_eq|].
  assert (∀ b, ¬ (x ≤ b < x + 4) → write_at (mem m) x (be_bytes 4 (u32 z)) !! b = mem m !! b) as Hsame.
  { intros b Hr. rewrite write_at_lookup, Hl4, decide_False by lia. done. }
  split; cbn [mem urd uwr badfault]; try done.
  - rewrite <- Hb. apply bytes_at_same. intros b Hr. apply Hsame. unfold len in *. lia.
  - clear -Hs Hap Hsame Hx. induction Hs as [|a xs argv strs Hk _ IH]; [constructor|]. apply Forall2_cons in Hap as [Hp Hap]. constructor; [|by apply IH].
    eapply kstr_same; [exact Hk|]. intros b Hr. apply Hsame. specialize (Hp x Hx). lia.
  - by apply bytes_at_write_is_Some.
  - by apply bytes_at_write_is_Some.
Qed.
Lemma fill_skip m0 sp argv strs img rest m k :
  filling m0 sp argv strs img rest m → 0 ≤ k ≤ rest → filling m0 sp argv strs (img ++ replicate (Z.to_nat k) 0) (rest - k) m.
Proof.
  intros [Hb Hs Hbf Hrd Hwr Ha Hsc Hr0] Hk. split; try done; [|lia]. rewrite length_app, length_replicate, <- app_assoc, <- replicate_add.
  replace (Z.to_nat k + Z.to_nat (rest - k))%nat with (Z.to_nat rest) by lia. rewrite <- Hb. f_equal. lia.
Qed.
Lemma copy_pointers_spec m0 sp argv strs m img rest strs' off (o : oracle) :
  filling m0 sp argv strs img rest m → apart argv strs → 0 ≤ sp → sp + len img + rest ≤ USERTOP → all_ok (uwr m0) sp (len img + rest) →
  4 * argc_of strs' ≤ rest → 0 ≤ off → sp + off + 4 + Z.of_nat (length (strings strs')) ≤ USERTOP →
  wp (copy_pointers source_at (offsets off strs') sp (sp + len img)) (λ r m' o', o' = o ∧ r = sp + len img + 4 * argc_of strs' ∧
    filling m0 sp argv strs (img ++ words (pointers (sp + off + 4) strs')) (rest - 4 * argc_of strs') m') m o.
Proof.
  intros Hf Hap Hsp. revert m img rest off Hf. unfold argc_of. induction strs' as [|xs strs' IH]; intros m img rest off Hf Htop Hok Hle Hoff Hend.
  { cbn [offsets copy_pointers pointers]. wp_step. change (words []) with (@nil Z). rewrite app_nil_r. simpl. rewrite Z.add_0_r, Z.sub_0_r. done. }
  unfold strings in Hend. rewrite fmap_cons in Hend. cbn [concat] in Hend. rewrite length_app, Nat2Z.inj_add, padded_length in Hend. fold (strings strs') in Hend.
  assert (0 < padded (len xs)) as Hpad. { unfold padded, len. pose proof (Z.mod_pos_bound (Z.of_nat (length xs)) 4 ltac:(lia)). lia. }
  cbn [length] in *. unfold USERTOP, MIPS_KSEG0 in *.
  assert (copy_pointers source_at (offsets off (xs :: strs')) sp (sp + len img) =
    (_ <- assign source_at (sp + off + 4); _ <- copyout source_at (sp + len img) 4;
     copy_pointers source_at (offsets (off + padded (len xs)) strs') sp (u32 (sp + len img + 4)))) as ->.
  { cbn [offsets copy_pointers]. by destruct strs'. }
  wp_step. wp_call (fill_assign _ _ _ _ _ _ _ source_at (sp + off + 4) _ Hf); [by right|done|done|done|]. intros _ m1 o1 (-> & Hb1 & Hf1). wp_step.
  rewrite u32_small in Hb1 by lia. destruct (Hlocals source_at) as [? ?]; [by right|].
  wp_call (fill_copy _ _ _ _ _ _ _ source_at (be_bytes 4 (sp + off + 4)) _ Hf1); [done|done|done|unfold len; simpl; lia|done|done|done|].
  intros _ m2 o2 (-> & Hf2). change (len (be_bytes 4 (sp + off + 4))) with 4 in *. unfold len in *. rewrite u32_small by lia.
  specialize (IH m2 (img ++ be_bytes 4 (sp + off + 4)) (rest - 4) (off + padded (Z.of_nat (length xs))) Hf2). rewrite length_app, length_be_bytes in IH.
  replace (sp + Z.of_nat (length img + 4)) with (sp + Z.of_nat (length img) + 4) in IH by lia.
  eapply wp_mono; [apply IH; try lia|].
  { intros b Hb. apply Hok. lia. }
  intros r m' o' (-> & -> & Hf'). split_and!; [done|lia|]. cbn [pointers]. rewrite <- app_assoc in Hf'.
  replace (sp + (off + padded (Z.of_nat (length xs))) + 4) with (sp + off + 4 + padded (len xs)) in Hf' by (unfold len; lia).
  replace (rest - 4 * Z.of_nat (S (length strs'))) with (rest - 4 - 4 * Z.of_nat (length strs')) by lia. exact Hf'.
Qed.
Lemma copy_strings_spec m0 sp argv strs m img rest argv1 strs1 argv' strs' (o : oracle) :
  filling m0 sp argv strs img rest m → argv = argv1 ++ argv' → strs = strs1 ++ strs' → length argv1 = length strs1 →
  0 ≤ sp → sp + len img + rest ≤ USERTOP → all_ok (uwr m0) sp (len img + rest) → Z.of_nat (length (strings strs')) ≤ rest →
  wp (copy_strings fuel argv' (sp + len img)) (λ _ m' o', o' = o ∧
    filling m0 sp argv strs (img ++ strings strs') (rest - Z.of_nat (length (strings strs'))) m') m o.
Proof.
  intros Hf -> -> Hl Hsp. revert m img rest argv1 strs1 strs' Hf Hl. induction argv' as [|a argv' IH]; intros m img rest argv1 strs1 strs' Hf Hl Htop Hok Hle.
  { pose proof (Forall2_length _ _ _ (fl_strs _ _ _ _ _ _ _ Hf)) as Hlen. rewrite !length_app, Hl in Hlen. destruct strs'; [|simpl in Hlen; lia].
    cbn [copy_strings]. wp_step. split; [done|]. change (strings []) with (@nil Z). simpl. by rewrite Z.sub_0_r, !app_nil_r in *. }
  destruct strs' as [|xs strs'].
  { pose proof (Forall2_length _ _ _ (fl_strs _ _ _ _ _ _ _ Hf)) as Hlen. rewrite !length_app, Hl in Hlen. simpl in Hlen. lia. }
  unfold strings in *. rewrite fmap_cons in *. cbn [concat] in *. rewrite length_app, Nat2Z.inj_add, padded_length in *. fold (strings strs') in *.
  pose proof (fl_strs _ _ _ _ _ _ _ Hf) as Hs. apply Forall2_app_inv in Hs as [_ Hs]; [|done]. apply Forall2_cons in Hs as [(Hb & H0 & Hfu & Hu & Ht) _].
  cbn [copy_strings]. wp_step. wp_call (kstrlen_spec _ _ _ _ _ Hb H0 Hfu). intros r m1 o1 (-> & -> & ->). wp_step.
  pose proof (Z.mod_pos_bound (len xs) 4 ltac:(lia)) as Hmod. unfold padded in *. unfold USERTOP, MIPS_KSEG0 in *. unfold len in *.
  wp_call (fill_copy _ _ _ _ _ _ _ a xs _ Hf); [|done|unfold len; lia|unfold len; lia|done|done|done|].
  { pose proof (bytes_at_prefix _ _ _ _ (length xs) Hb ltac:(lia)) as Hpre. by rewrite take_app_length in Hpre. }
  intros _ m2 o2 (-> & Hf2). unfold len in *. apply (fill_skip _ _ _ _ _ _ _ (4 - Z.of_nat (length xs) mod 4)) in Hf2; [|lia].
  rewrite <- app_assoc in Hf2. fold (len xs) in Hf2. fold (padded_str xs) in Hf2. rewrite u32_small by lia.
  specialize (IH m2 (img ++ padded_str xs) (rest - len xs - (4 - len xs mod 4)) (argv1 ++ [a]) (strs1 ++ [xs]) strs'). fold (strings strs') in IH.
  rewrite <- !app_assoc in IH. simpl in IH. specialize (IH Hf2). rewrite !length_app, Hl, Nat2Z.inj_add, padded_length in IH. unfold padded, len in IH.
  replace (sp + (Z.of_nat (length img) + (Z.of_nat (length xs) + (4 - Z.of_nat (length xs) mod 4)))) with
    (sp + Z.of_nat (length img) + (Z.of_nat (length xs) + (4 - Z.of_nat (length xs) mod 4))) in IH by lia.
  eapply wp_mono; [apply IH; [done|lia| |lia]|].
  { intros b Hr. apply Hok. lia. }
  intros r m' o' (-> & Hf'). split; [done|]. replace (rest - (Z.of_nat (length xs) + (4 - Z.of_nat (length xs) mod 4) + Z.of_nat (length (strings strs')))) with
    (rest - Z.of_nat (length xs) - (4 - Z.of_nat (length xs) mod 4) - Z.of_nat (length (strings strs'))) by lia. exact Hf'.
Qed.
(** What the arguments and the stack have to be *)
Record args_ok m argv strs (stackptr : Z) : Prop := {
  ao_strs : Forall2 (kstr fuel m) argv strs;
  ao_apart : apart argv strs;
  ao_fault : badfault m = false;
  ao_argc : mapped m argc_at 4;
  ao_source : mapped m source_at 4;
  ao_room : 0 ≤ stackptr - stack_size strs ∧ stackptr ≤ USERTOP;
  ao_zero : bytes_at (mem m) (stackptr - stack_size strs) (Z.to_nat (stack_size strs)) = Some (replicate (Z.to_nat (stack_size strs)) 0);
  ao_write : all_ok (uwr m) (stackptr - stack_size strs) (stack_size strs);
}.
Lemma push_args_spec m argv strs stackptr (o : oracle) :
  args_ok m argv strs stackptr → ¬ fails o →
  wp (push_args fuel argc_at source_at argv stackptr) (λ r m' o', o' = list.tail o ∧ r = stackptr - stack_size strs ∧
    bytes_at (mem m') r (Z.to_nat (stack_size strs)) = Some (image r strs)) m o.
Proof.
  intros [Hs Hap Hbf Ha Hsc [Hsp Htop] Hz Hw] Ho. pose proof (Forall2_length _ _ _ Hs) as Hlen. unfold push_args. wp_step. wp_step.
  rewrite (proj2 (not_fails_iff o) Ho). wp_run. wp_call (arg_offsets_spec _ _ _ _ _ Hs). intros r m1 o1 (-> & -> & ->).
  rewrite offsets_last, Hlen. cbn [default from_option id]. fold (argc_of strs). set (sp := stackptr - stack_size strs) in *.
  assert (0 ≤ argc_of strs) as Hc by (unfold argc_of; lia). pose proof (Zle_0_nat (length (strings strs))) as Hst.
  replace (stackptr - _) with sp by (unfold sp, stack_size, id; lia). unfold stack_size, USERTOP, MIPS_KSEG0 in *. rewrite u32_small by lia.
  assert (filling m sp argv strs [] (stack_size strs) m) as Hf by (split; try done; unfold stack_size; lia). unfold stack_size in Hf.
  destruct (Hlocals argc_at) as [? ?]; [by left|]. wp_step.
  wp_call (fill_assign _ _ _ _ _ _ _ argc_at (argc_of strs) _ Hf); [by left|done|lia|unfold len, USERTOP, MIPS_KSEG0; simpl; lia|].
  intros _ m2 o2 (-> & Hb2 & Hf2). rewrite u32_small in Hb2 by lia. wp_step. pose proof (length_be_bytes 4 (argc_of strs)) as H4.
  pose proof (fill_copy _ _ _ _ _ _ _ argc_at (be_bytes 4 (argc_of strs)) (list.tail o) Hf2) as Hfc. unfold len in Hfc. rewrite H4 in Hfc. simpl length in Hfc. simpl Z.of_nat in Hfc.
  rewrite Z.add_0_r in Hfc. wp_call Hfc; [done|done|lia|lia|lia|unfold USERTOP, MIPS_KSEG0; lia|done|]. intros _ m3 o3 (-> & Hf3). clear Hfc. wp_step.
  rewrite (u32_small (sp + 4)) by lia. replace (sp + 4) with (sp + len ([] ++ be_bytes 4 (argc_of strs))) by (unfold len; simpl; lia).
  wp_call (copy_pointers_spec _ _ _ _ _ _ _ strs (4 * (argc_of strs + 1)) _ Hf3); unfold len; rewrite ?app_nil_l, ?H4;
    [done|lia|unfold USERTOP, MIPS_KSEG0; lia| |lia|lia|unfold USERTOP, MIPS_KSEG0; lia|].
  { intros b Hb. apply Hw. lia. }
  intros r m4 o4 (-> & -> & Hf4). rewrite app_nil_l in *. wp_step.
  apply (fill_skip _ _ _ _ _ _ _ 4) in Hf4; [|lia]. rewrite u32_small by lia.
  set (img := ((be_bytes 4 (argc_of strs) ++ _) ++ _)) in Hf4.
  assert (len img = 8 + 4 * argc_of strs) as Hli.
  { unfold img, len. rewrite !length_app, H4, words_length, pointers_length, length_replicate. unfold argc_of. lia. }
  replace (sp + Z.of_nat 4 + 4 * argc_of strs + 4) with (sp + len img) by lia.
  wp_call (copy_strings_spec _ _ _ _ _ _ _ [] [] argv strs _ Hf4); [done|done|done|lia|unfold USERTOP, MIPS_KSEG0; lia| |lia|].
  { intros b Hb. apply Hw. lia. }
  intros _ m5 o5 (-> & Hf5). wp_step. split_and!; [done..|]. pose proof (fl_bytes _ _ _ _ _ _ _ Hf5) as Hb.
  replace (Z.to_nat (_ - _ - _ - _ - _)) with 0%nat in Hb by (unfold len; simpl; lia). cbn [replicate] in Hb. rewrite app_nil_r, Nat.add_0_r in Hb.
  assert (img ++ strings strs = image sp strs) as Heq.
  { unfold img, image. rewrite <- !app_assoc. by replace (sp + 4 * (argc_of strs + 1) + 4) with (sp + 8 + 4 * argc_of strs) by lia. }
  rewrite Heq in Hb. rewrite <- Hb. f_equal. pose proof (image_length sp strs) as Hil. unfold stack_size in Hil. lia.
Qed.
End Args.

(** ** Programs with two segments *)
Fixpoint segments (bs : list Z) (eh : Elf_Ehdr) (n : nat) (i : Z) : option (list Elf_Phdr) :=
  match n with
  | O => Some []
  | S n' =>
      ph ← phdr_at bs eh i;
      l ← segments bs eh n' (i + 1);
      if skipped ph then Some l else if p_type ph =? PT_LOAD then Some (ph :: l) else None
  end.
Definition executable (bs : list Z) : option (list Elf_Phdr) :=
  if no_elf bs then None else segments bs (header bs) (Z.to_nat (e_phnum (header bs))) 0.
Fixpoint add_all (as_ : addrspace) (v : Z) (l : list Elf_Phdr) : Z * addrspace :=
  match l with
  | [] => (0, as_)
  | ph :: l' => match add_region as_ v ph with None => (EUNIMP, as_) | Some as_ => add_all as_ v l' end
  end.
Lemma regions_segments bs eh v n i as_ l : segments bs eh n i = Some l → regions bs eh v n i as_ = add_all as_ v l.
Proof.
  revert i as_ l. induction n as [|n IH]; intros i as_ l; cbn [segments regions]; [by intros [= <-]|].
  destruct (phdr_at bs eh i) as [ph|]; [|done]. simpl. destruct (segments bs eh n (i + 1)) as [l'|] eqn:Hl; [|done]. simpl.
  destruct (skipped ph); [intros [= <-]; by apply IH|]. destruct (p_type ph =? PT_LOAD); [|done]. intros [= <-]. simpl.
  destruct (add_region as_ v ph); [by apply IH|done].
Qed.
(** A segment above the first page and below the stack, whose part of the file
    is in reach *)
Record segment_ok (ph : Elf_Phdr) : Prop := {
  sg_vaddr : PAGE_SIZE ≤ p_vaddr ph;
  sg_memsz : 0 < p_memsz ph ∧ p_vaddr ph + p_memsz ph ≤ USERTOP;
  sg_file : 0 ≤ p_filesz ph ∧ 0 ≤ p_offset ph ∧ p_offset ph + p_memsz ph + 3 * PAGE_SIZE < 2 ^ 31;
}.
Lemma segment_region ph :
  segment_ok ph → region_ok (seg_base ph) (seg_npages ph) (p_filesz ph) (p_offset ph) ∧
  ∀ va, p_vaddr ph ≤ va < p_vaddr ph + p_memsz ph → seg_base ph ≤ ALIGN va < seg_base ph + seg_npages ph * PAGE_SIZE.
Proof.
  intros [Hv [Hm Ht] (Hf & Ho & Hb)]. unfold USERTOP, MIPS_KSEG0, PAGE_SIZE in *. unfold seg_base, seg_npages.
  assert (0 ≤ p_vaddr ph < 2 ^ 32) as Hr by lia. rewrite (align_page _ Hr). unfold PAGE_SIZE. split; [split|].
  - split; [|Z.to_euclidean_division_equations; lia]. unfold aligned, PAGE_SIZE. Z.to_euclidean_division_equations. lia.
  - unfold USERTOP, MIPS_KSEG0, PAGE_SIZE. Z.to_euclidean_division_equations. lia.
  - unfold PAGE_SIZE. Z.to_euclidean_division_equations. lia.
  - intros va Hva. rewrite align_page by lia. unfold PAGE_SIZE. Z.to_euclidean_division_equations. lia.
Qed.
Definition loaded (v : Z) (t d : Elf_Phdr) (stack : Z) : addrspace :=
  mkAs (Some v) (seg_base t) (seg_npages t) (p_filesz t) (p_offset t) (seg_flags t)
    (seg_base d) (seg_npages d) (p_filesz d) (p_offset d) (seg_flags d) stack.
Lemma add_two v t d l stack :
  segment_ok t → segment_ok d →
  add_all (with_stack as_empty stack) v (t :: d :: l) = (match l with [] => 0 | _ => EUNIMP end, loaded v t d stack).
Proof.
  intros Ht Hd. destruct (segment_region _ Ht) as [[[_ H1] _ _] _]. destruct (segment_region _ Hd) as [[[_ H2] _ _] _].
  cbn [add_all]. unfold add_region at 1. cbn [as_vbase1 with_stack as_empty]. cbn [Z.eqb]. unfold add_region at 1. cbn [as_vbase1 as_vbase2 with_stack as_empty].
  rewrite (proj2 (Z.eqb_neq _ 0)) by lia. cbn [Z.eqb]. destruct l as [|x l]; [done|]. cbn [add_all]. unfold add_region. cbn [as_vbase1 as_vbase2].
  rewrite !(proj2 (Z.eqb_neq _ 0)) by lia. done.
Qed.

Section Run.
  Context {D : Type} `{!VfsIo D, !VfsLaws D} (vfs_close : Z → K D unit) `{!ExecLaws D vfs_close} (zeros : Z).
  Context (fuel : nat) (argc_at source_at : Z).
  Context (Hlocals : ∀ x, x = argc_at ∨ x = source_at → USERTOP ≤ x ∧ x + 4 ≤ 2 ^ 32).
  Abbreviation vm := (vmsys D).
  Implicit Types (s : exsys D) (v : vm).
Lemma activate_loop (n : nat) (i : Z) v (o : oracle) :
  length (vm_tlb v) = 64%nat → 0 ≤ i → i + Z.of_nat n ≤ 64 →
  wp (kfor n i (λ i, TLB_Write (TLBHI_INVALID i) TLBLO_INVALID i)) (λ _ v' o', o' = o ∧ ∃ tlb, length tlb = 64%nat ∧ v' = set_tlb tlb v ∧
    (∀ k e, tlb !! k = Some e → (Z.to_nat i ≤ k < Z.to_nat i + n)%nat → e.2 = TLBLO_INVALID) ∧
    ∀ k, ¬ (Z.to_nat i ≤ k < Z.to_nat i + n)%nat → tlb !! k = vm_tlb v !! k) v o.
Proof.
  revert i v. induction n as [|n IH]; intros i v Hl Hi Hn; cbn [kfor].
  { wp_step. split; [done|]. exists (vm_tlb v). split_and!; [done|by destruct v|lia|done]. }
  wp_step. wp_call (tlb_write_spec v (TLBHI_INVALID i) TLBLO_INVALID i o Hl); [lia|]. intros _ v1 o1 (-> & ->).
  wp_call (IH (i + 1) (set_tlb (<[Z.to_nat i := (TLBHI_INVALID i, TLBLO_INVALID)]> (vm_tlb v)) v)); [by simpl; rewrite length_insert|lia|lia|].
  intros _ v2 o2 (-> & tlb & Ht & -> & Hin & Hout). split; [done|]. exists tlb. split_and!; [done|by destruct v| |].
  - intros k e Hk Hr. destruct (decide (k = Z.to_nat i)) as [->|Hne]; [|apply (Hin k e Hk); lia].
    rewrite Hout in Hk by lia. simpl in Hk. rewrite list_lookup_insert_eq in Hk by lia. by simplify_eq.
  - intros k Hr. rewrite Hout by lia. simpl. rewrite list_lookup_insert_ne by lia. done.
Qed.
Lemma as_activate_spec v (o : oracle) :
  length (vm_tlb v) = 64%nat →
  wp as_activate (λ _ v' o', o' = o ∧ ∃ tlb, v' = set_tlb tlb v ∧ ∀ as_ L, tlb_ok as_ L tlb) v o.
Proof.
  intros Hl. unfold as_activate. wp_call (activate_loop (Z.to_nat NUM_TLB) 0 v); [done|done|done|].
  intros _ v' o' (-> & tlb & Ht & -> & Hin & _). split; [done|]. exists tlb. split; [done|]. intros as_ L.
  assert (∀ i hi lo, tlb !! i = Some (hi, lo) → lo = 0) as Hz.
  { intros i hi lo Hi. apply (Hin i (hi, lo) Hi). apply lookup_lt_Some in Hi. change (Z.to_nat NUM_TLB) with 64%nat. lia. }
  split; [done| |].
  - intros i hi lo Hi Hv. by rewrite (Hz _ _ _ Hi) in Hv.
  - intros i j hi lo lo' Hi _ Hv. by rewrite (Hz _ _ _ Hi) in Hv.
Qed.
(** A process before its program: the memory is in order, there is room for
    the stack, no page is mapped, and the arguments are there. *)
Record exec_ok s (f : Z) (bs : list Z) (j : nat) (argv : list Z) (strs : list (list Z)) : Prop := {
  xo_vfs : vfs_ok (vm_vfs (ex_vm s));
  xo_file : vfs_file (vm_vfs (ex_vm s)) f = Some bs;
  xo_phdrs : no_elf bs = false → phdrs_ok bs (header bs);
  xo_mem : mem_ok zeros (vm_core (ex_vm s));
  xo_room : first_fit 12 (cm (vm_core (ex_vm s))) 0 = Some j;
  xo_pages : pt_ok (vm_core (ex_vm s)) (vm_pt (ex_vm s)) [];
  xo_tlb : length (vm_tlb (ex_vm s)) = 64%nat;
  xo_victim : 0 ≤ next_victim (ex_vm s) < 64;
  xo_args : args_ok fuel argc_at source_at (ex_mach s) argv strs USERSTACK;
}.
Abbreviation enter_program := (enter_program vfs_close zeros fuel argc_at source_at).
Lemma pt_ok_core (c c' : core) pt : pt_ok c pt [] → pt_ok c' pt [].
Proof. intros []. split; try done. by intros x ?%elem_of_nil. Qed.
(** Up to the end of [load_elf] *)
Lemma enter_loads s f bs j argv strs t d l (o : oracle) (Q : exec_end → exsys D → oracle → Prop) :
  exec_ok s f bs j argv strs → executable bs = Some (t :: d :: l) → segment_ok t → segment_ok d → plenty o →
  (∀ v o', plenty o' → same_files (ex_vm s) (vm_vfs v) → vm_as v = Some (loaded f t d (frame (vm_core (ex_vm s)) j)) →
    vm_ok zeros (loaded f t d (frame (vm_core (ex_vm s)) j)) v [] →
    match l with
    | [] => wp (stackptr <- on_exmach (push_args fuel argc_at source_at argv USERSTACK);
                ret (ExUser (Z.of_nat (length argv)) (u32 (stackptr + 4)) stackptr (e_entry (header bs)))) Q (mkEx v (ex_mach s)) o'
    | _ => Q (ExError EUNIMP) (mkEx v (ex_mach s)) o'
    end) → wp (enter_program f argv) Q s o.
Proof.
  intros [Hv Hf Hp Hm Hfit Hpt Htl Hvi Hargs] Hx Ht Hd Ho HQ. unfold executable in Hx. destruct (no_elf bs) eqn:Helf; [done|].
  unfold Exec.enter_program, as_create. wp_mem Ho. unfold on_vm. do 2 wp_step. wp_step. wp_step.
  wp_call (as_activate_spec (set_as (Some as_empty) (ex_vm s)) _ Htl). intros _ v1 o1 (-> & tlb & -> & Htlb). wp_step. wp_step.
  set (v1 := set_tlb tlb _). pose proof (load_elf_spec vfs_close zeros v1 as_empty bs f j (list.tail o) Hv Hf eq_refl Hm Hfit (λ _, Hp eq_refl)) as Hle.
  rewrite (regions_segments _ _ _ _ _ _ _ Hx), (add_two _ _ _ _ _ Ht Hd) in Hle. rewrite Helf in Hle. wp_call Hle.
  intros r v2 o2 (-> & d2 & [Hd2 Hs2] & -> & ->). change (vm_core v1) with (vm_core (ex_vm s)).
  destruct (take_frames _ (vm_core (ex_vm s)) j 12 Hm ltac:(lia) Hfit) as (Hm' & Hfr & _).
  set (as' := loaded f t d (frame (vm_core (ex_vm s)) j)) in *.
  set (v2 := set_vfs d2 _). assert (same_files (ex_vm s) (vm_vfs v2)) as Hsame by by split.
  assert (∀ d3, vfs_ok d3 → vm_ok zeros as' (set_vfs d3 v2) []) as Hok.
  { intros d3 Hd3. split; try done. by apply (pt_ok_core (vm_core (ex_vm s))). }
  assert (wp (vfs_close f) (λ _ d' o', o' = list.tail o ∧ vfs_ok d' ∧ ∀ w, vfs_file d' w = vfs_file d2 w) d2 (list.tail o)) as Hcl.
  { apply (law_close _ _ bs); [done|]. by rewrite Hs2. }
  destruct l as [|x l]; [cbn [Z.eqb]|cbn [Z.eqb EUNIMP]]; wp_cond.
  - do 4 wp_step. unfold on_vfs. wp_step. wp_call Hcl. intros _ d3 o3 (-> & Hd3 & Hs3). do 3 wp_step.
    change (vm_as (ex_vm _)) with (Some as'). unfold as_define_stack. do 4 wp_step.
    destruct (has_frame_ok _ _ _ (mk_core _ _ Hm') Hfr) as [_ H0]. wp_step; [unfold as'; cbn [as_stackpbase loaded]; lia|]. wp_step. wp_cond.
    apply (HQ (set_vfs d3 v2)); [by apply plenty_tail| |done|by apply Hok]. split; [done|]. intros w. simpl. by rewrite Hs3.
  - do 2 wp_step. unfold on_vfs. wp_step. wp_call Hcl. intros _ d3 o3 (-> & Hd3 & Hs3). wp_step.
    apply (HQ (set_vfs d3 v2)); [by apply plenty_tail| |done|by apply Hok]. split; [done|]. intros w. simpl. by rewrite Hs3.
Qed.
Abbreviation runprogram := (runprogram vfs_close zeros fuel argc_at source_at).
Lemma exec_ok_open s f bs j argv strs d :
  exec_ok s f bs j argv strs → same_files (ex_vm s) d → exec_ok (mkEx (set_vfs d (ex_vm s)) (ex_mach s)) f bs j argv strs.
Proof. intros [] [Hd Hs]. split; try done. simpl. by rewrite Hs. Qed.
Lemma open_program s f bs j argv strs name (o : oracle) (Q : exec_end → exsys D → oracle → Prop) :
  exec_ok s f bs j argv strs → exec_name (vm_vfs (ex_vm s)) name = Some f → vm_as (ex_vm s) = None →
  (∀ d, same_files (ex_vm s) d → wp (enter_program f argv) Q (mkEx (set_vfs d (ex_vm s)) (ex_mach s)) o) → wp (runprogram name argv) Q s o.
Proof.
  intros [Hv Hf _ _ _ _ _ _ _] Hn Has HQ. unfold Exec.runprogram, on_vm, on_vfs. wp_step. wp_step. wp_step. wp_call (law_open _ _ _ _ _ Hv Hn Hf).
  intros r d o' (-> & -> & Hd & Hs). wp_cond. do 3 wp_step. cbn [ex_vm vm_as set_vfs]. rewrite Has. wp_run. by apply HQ.
Qed.
(** A file that is no executable for this machine is refused with
    [ENOEXEC]; memory is as it was. *)
Theorem runprogram_refuses s f bs j name argv strs (o : oracle) :
  exec_ok s f bs j argv strs → exec_name (vm_vfs (ex_vm s)) name = Some f → vm_as (ex_vm s) = None → no_elf bs = true → plenty o →
  wp (runprogram name argv) (λ r s' _, r = ExError ENOEXEC ∧ vm_core (ex_vm s') = vm_core (ex_vm s) ∧ ex_mach s' = ex_mach s ∧
    same_files (ex_vm s) (vm_vfs (ex_vm s'))) s o.
Proof.
  intros Hok Hn Has Hx Ho. eapply open_program; [done..|]. intros d1 Hd1. pose proof (exec_ok_open _ _ _ _ _ _ _ Hok Hd1) as [Hv Hf Hp Hm Hfit Hpt Htl Hvi Hargs].
  unfold Exec.enter_program, as_create. wp_mem Ho. unfold on_vm. do 4 wp_step.
  wp_call (as_activate_spec (set_as (Some as_empty) (set_vfs d1 (ex_vm s))) _ Htl). intros _ v1 o1 (-> & tlb & -> & Htlb). do 2 wp_step.
  set (v1 := set_tlb tlb _). pose proof (load_elf_spec vfs_close zeros v1 as_empty bs f j (list.tail o) Hv Hf eq_refl Hm Hfit Hp) as Hle.
  destruct (regions _ _ _ _ _ _) as [err as']. rewrite Hx in Hle. wp_call Hle. intros r v2 o2 (-> & d2 & [Hd2 Hs2] & -> & ->). wp_cond. do 2 wp_step.
  unfold on_vfs. wp_step. wp_call (law_close d2 f bs _ Hd2); [by rewrite Hs2|]. intros _ d3 o3 (-> & Hd3 & Hs3). wp_step. split_and!; [done..|].
  split; [done|]. intros w. simpl. rewrite Hs3, Hs2. simpl. apply Hd1.
Qed.
End Run.
