(* ===== verification/ExecRuns.v ===== *)
(** * Programs, run

    A small executable, memory with room for a stack, and arguments: an
    instance of what [runprogram] relies on; and [sys_execv] with three and
    with four arguments. *)
From S2P Require Import Prelude Array LinkedList Memory Copyinout Uio Pages Coremap Kheap Request SfsFormat Vm VmSpec VmRuns Exec ExecSpec.
Import SimFiles.

Module SampleExec.
Definition zeros : Z := SampleVm.zeros.
Definition close (v : Z) : K files unit := ret tt.
#[export, refine] Instance laws : ExecLaws files close := { exec_name _ _ := Some 0 }.
Proof.
  - intros d name v bs o _ [= <-] _. cbn [vfs_open sim_io]. by wp_step.
  - intros d v bs o _ _. cbn [vn_incref sim_io]. by wp_step.
  - intros d v bs o _ _. unfold close. by wp_step.
Defined.
(** ** A file with a segment of text and one of data *)
Definition ehdr (phnum : Z) : list Z :=
  ELFMAG ++ [ELFCLASS32; ELFDATA2MSB; EV_CURRENT] ++ replicate 9 0 ++ be_bytes 2 ET_EXEC ++ be_bytes 2 EM_MACHINE ++ be_bytes 4 EV_CURRENT ++
  be_bytes 4 0x400004 ++ be_bytes 4 EHDR_SIZE ++ replicate 4 0 ++ replicate 4 0 ++ be_bytes 2 EHDR_SIZE ++ be_bytes 2 PHDR_SIZE ++ be_bytes 2 phnum ++ replicate 6 0.
Definition phdr (type offset vaddr size flags : Z) : list Z :=
  be_bytes 4 type ++ be_bytes 4 offset ++ be_bytes 4 vaddr ++ be_bytes 4 vaddr ++ be_bytes 4 size ++ be_bytes 4 size ++ be_bytes 4 flags ++ be_bytes 4 PAGE_SIZE.
Definition prog : list Z :=
  ehdr 3 ++ phdr PT_MIPS_REGINFO 148 0x400000 24 PF_R ++ phdr PT_LOAD 0 0x400000 4096 5 ++ phdr PT_LOAD 4096 0x10000000 16 6 ++ replicate 3972 1.
Definition text : Elf_Phdr := mkPhdr PT_LOAD 0 0x400000 4096 4096 5.
Definition data : Elf_Phdr := mkPhdr PT_LOAD 4096 0x10000000 16 16 6.
(** ** Memory: the coremap, 13 free frames and a page of the kernel *)
Definition entry (i : nat) : coremap_entry :=
  mkEntry (8192 + Z.of_nat i * 4096) (if decide (i = 0)%nat then 1 else if decide (i = 14)%nat then 1 else 0)
    (if decide (i = 0)%nat then -1 else if decide (i = 14)%nat then 1 else 0).
Definition frames : list coremap_entry := entry <$> seq 0 15.
Definition core_of (h : gmap Z Z) : core :=
  mkCore (mkMachine h (λ _, AFault) (λ _, AFault) false) 69632 69632 15 8192 69632 12288 1 frames.
Definition start (h : gmap Z Z) (bs : list Z) : vmsys files :=
  mkVm (core_of h) {[0 := bs; 1 := []]} None (mkPt (mkArray 0 0 None) (mkLL ∅ None None 0) ∅) SampleVm.idle 0 (Some 1) [].
(** ** The arguments, two strings of the kernel, and the top of the stack *)
Definition argc_at : Z := 0x80010000.
Definition source_at : Z := 0x80010004.
Definition arg0 : list Z := [99; 97; 116].
Definition arg1 : list Z := [97].
Definition argv : list Z := [0x80020000; 0x80020010].
Definition umem : gmap Z Z :=
  write_at (write_at (write_at (write_at ∅ argc_at (replicate 8 0)) 0x80020000 (arg0 ++ [0])) 0x80020010 (arg1 ++ [0]))
    (USERSTACK - 24) (replicate 24 0).
Definition mach : machine := mkMachine umem (λ _, AOk) (λ _, AOk) false.
Definition state (bs : list Z) : exsys files := mkEx (start SampleVm.mem0 bs) mach.

Lemma exec_frames_at i : (i < 15)%nat → frames !! i = Some (entry i).
Proof. intros Hi. unfold frames. rewrite list_lookup_fmap, lookup_seq_lt by lia. done. Qed.
Lemma sample_core h : core_ok (core_of h) ∧ cm_wf frames.
Proof.
  split.
  - unfold core_ok, frame, PAGE_SIZE. simpl. split_and!; try done; try lia. intros i e He.
    assert (i < 15)%nat by by apply lookup_lt_Some in He. change (frames !! i = Some e) in He. rewrite exec_frames_at in He by done. by simplify_eq.
  - split; [by eexists|]. intros j Hj. change (length frames) with 15%nat in Hj. unfold is_entry.
    destruct (decide (j = 0)%nat) as [->|H0]; [right; left; by eexists|]. destruct (decide (j = 14)%nat) as [->|H14].
    + right. right. exists 1%nat. split_and!; [lia|by eexists|lia].
    + left. rewrite exec_frames_at by done. eexists. split; [done|]. unfold entry. simpl. by rewrite !decide_False by lia.
Qed.
Lemma sample_mem : mem_ok zeros (core_of SampleVm.mem0).
Proof.
  destruct (sample_core SampleVm.mem0) as [Hc Hwf]. destruct SampleVm.start_mem as [_ Hp _ Hz]. by split.
Qed.
Lemma prog_header : header prog = mkEhdr (ELFMAG ++ [ELFCLASS32; ELFDATA2MSB; EV_CURRENT] ++ replicate 9 0) ET_EXEC EM_MACHINE EV_CURRENT 0x400004 EHDR_SIZE PHDR_SIZE 3.
Proof. by vm_compute. Qed.
Lemma prog_phdrs : phdrs_ok prog (header prog).
Proof.
  rewrite prog_header. split; [done|]. intros i Hi. unfold phdr_off, EHDR_SIZE, PHDR_SIZE, PAGE_SIZE. cbn [e_phoff e_phentsize e_phnum] in *. split; [lia|].
  intros ph Hph. assert (i = 0 ∨ i = 1 ∨ i = 2) as Hi' by lia. destruct Hi' as [Hi'|[Hi'|Hi']]; subst i; vm_compute in Hph; injection Hph as <-; simpl; lia.
Qed.
Lemma sample_strs : bytes_at umem 0x80020000 4 = Some (arg0 ++ [0]) ∧ bytes_at umem 0x80020010 2 = Some (arg1 ++ [0]).
Proof. split; vm_compute; reflexivity. Qed.
Lemma sample_args : args_ok 16 argc_at source_at mach argv [arg0; arg1] USERSTACK.
Proof.
  destruct sample_strs as [H0 H1]. split.
  - unfold argv, kstr, USERTOP, MIPS_KSEG0. constructor; [|constructor; [|constructor]]; cbn [mach mem].
    + split; [exact H0|]. unfold arg0. split; [apply (bool_decide_eq_true_1 _); reflexivity|]. simpl. lia.
    + split; [exact H1|]. unfold arg1. split; [apply (bool_decide_eq_true_1 _); reflexivity|]. simpl. lia.
  - unfold argv, apart, argc_at, source_at, len. constructor; [|constructor; [|constructor]]; intros x Hx; simpl; lia.
  - reflexivity.
  - eexists. vm_compute. reflexivity.
  - eexists. vm_compute. reflexivity.
  - split; vm_compute; discriminate.
  - vm_compute. reflexivity.
  - intros b Hb. reflexivity.
Qed.
Lemma sample_ok bs : (no_elf bs = false → phdrs_ok bs (header bs)) → exec_ok zeros 16 argc_at source_at (state bs) 0 bs 1 argv [arg0; arg1].
Proof.
  intros Hp. split; cbn [state start ex_vm ex_mach vm_core vm_vfs vm_pt vm_tlb next_victim]; [exact I|reflexivity|exact Hp|..].
  - apply sample_mem.
  - vm_compute. reflexivity.
  - destruct SampleVm.start_ok as [_ _ _ _ Hpt _ _]. by apply (pt_ok_core (SampleVm.core_of SampleVm.mem0)).
  - reflexivity.
  - lia.
  - apply sample_args.
Qed.
Lemma locals x : x = argc_at ∨ x = source_at → USERTOP ≤ x ∧ x + 4 ≤ 2 ^ 32.
Proof. unfold argc_at, source_at, USERTOP, MIPS_KSEG0. lia. Qed.
End SampleExec.
(** ** A process that calls [execv]

    The name of the program is at 0x1000, the array of its arguments at
    0x1010; the arguments are one string. *)
Module SampleCall.
Import SampleExec.
Definition foo : Z := 0x80030000.
Definition prog_name : Z := 0x80031000.
Definition block (i : nat) : Z := 0x80020000 + 16 * Z.of_nat i.
Definition memory (n : nat) : gmap Z Z :=
  write_at (write_at (write_at (write_at (write_at (write_at ∅ argc_at (replicate 8 0)) foo (replicate 2048 0)) prog_name (replicate 2048 0))
    0x80020000 (replicate 256 0)) 0x1000 (arg0 ++ replicate 13 0 ++ concat (replicate n (be_bytes 4 0x1000)) ++ replicate 8 0))
    (USERSTACK - 64) (replicate 64 0).
Definition state (bs : list Z) (n : nat) : exsys files :=
  mkEx (set_vfs {[0 := bs; 1 := []]} (SampleVm.start SampleVm.mem0)) (mkMachine (memory n) (λ _, AOk) (λ _, AOk) false).
(** How the call ends, and the address space then *)
Definition call (bs : list Z) (n : nat) : outcome (exec_end * option addrspace) :=
  match sys_execv close zeros 16 argc_at source_at foo prog_name block 0x1000 0x1010 (state bs n) [] with
  | Done (r, s, _) => Done (r, vm_as (ex_vm s))
  | Halt h => Halt h
  end.
End SampleCall.

Import SampleExec.
Lemma runprogram_refuses_witness :
  wp (runprogram close zeros 16 argc_at source_at [] argv) (λ r s' _,
    r = ExError ENOEXEC ∧ vm_core (ex_vm s') = core_of SampleVm.mem0) (state [35; 33; 47]) [].
Proof.
  eapply wp_mono; [apply (runprogram_refuses close zeros 16 argc_at source_at (state [35; 33; 47]) 0 [35; 33; 47] 1 [] argv [arg0; arg1] [])|].
  - apply sample_ok. discriminate.
  - reflexivity.
  - reflexivity.
  - reflexivity.
  - constructor.
  - intros r s' o' (-> & Hc & _). split; [reflexivity|exact Hc].
Defined.
